(* ===== verification/_CoqProject ===== *)
-Q . S2P
Prelude.v
GoStrings.v
GoPath.v
HttpRule.v
HttpPattern.v
Registry.v
MemRegistry.v
RegistryCache.v
Selector.v
Auth.v
Ring.v
Store.v
Broker.v
Events.v
Metadata.v
Cache.v
ConnPool.v
Socket.v
Errors.v
Client.v
ApiRouter.v
GoStrconv.v
GoIO.v
GoHttp.v
Codec.v
ProtoRpc.v
RpcCodec.v
RpcStream.v
NetUtil.v
RpcRouter.v
RpcServer.v
RpcConn.v
Runtime.v
ConfigLoader.v
Config.v
RpcCall.v
Qson.v
ApiHandler.v
HttpBroker.v
MemTransport.v
Mdns.v
MdnsRegistry.v
WebService.v
Etcd.v
JsonRpc.v
DebugLog.v
Tracing.v
ApiProxy.v
HttpTransport.v
FileTransfer.v
Cmd.v
Service.v
Logger.v
KubeApi.v
KubeClient.v
KubeRuntime.v
KubeLogs.v
SyncStore.v
ConfigSources.v
ApiForward.v
