(* ===== verification/Prelude.v ===== *)
(** * Verification of the go-micro core packages

    This library models, in Rocq, the parts of the go-micro framework (the Go
    sources under src/) that keep state or parse input, and proves what they
    promise. Definitions are executable translations of the Go code; the name of
    a definition is that of the Go function or type it translates, with a suffix
    ([Set_], [Template'], [List_]) where Rocq or another definition has the name.

    ** The program and the files

    A service registers its nodes with a registry; clients look services up
    through a cache that follows the registry's watch events, select a node, take
    a connection from a pool and call it, with retries. The API gateway matches
    request paths against HTTP rule templates and turns requests into calls. Registries
    keep services in memory, in etcd or announce them by multicast DNS. Around that core
    sit web services, a store, brokers, a transport, event streams, a cache,
    configuration, authorisation rules and request metadata.

    - Prelude: outcomes (value, error, panic), machine integers, clocks, the
      iteration order of Go maps, lemmas on folds over maps.
    - GoStrings, GoPath: the functions of Go's strings and path packages that the
      code calls. They stand for the standard library, not for code under src/.
    - HttpRule (api/router/util/types.go, parse.go): template syntax, tokenizer,
      parser, printer. HttpPattern (compile.go, pattern.go, runtime.go): the
      compiler to stack-machine programs, their validation and execution.
    - Registry (registry/registry.go, watcher.go, util/registry/util.go): service
      data and its set operations. MemRegistry (registry/memory*.go, options.go):
      the in-memory registry, its TTL pruning, watchers and event delivery.
    - RegistryCache (registry/cache/cache.go): the cache, against the class
      [Discovery] (what it asks of a registry) that MemRegistry's registry
      instantiates; Selector (selector/): filters, strategies and [Select].
    - Errors (errors/errors.go) and Client (client/rpc_client.go, retry.go,
      backoff.go, options.go, util/backoff, util/net): node choice, the retry
      loop of [Call] and [Stream]; Client uses Registry, Selector and Errors.
      ConnPool (util/pool): the connection pool. Socket (util/socket): pseudo
      sockets and their pool.
    - Auth (auth/rules.go): [Verify]. Ring (util/ring): the ring buffer with its
      streams. Store (store/memory.go, options.go): the memory store over the
      class [ExpiringCache], the third-party cache it is built on. Broker
      (broker/memory.go). Events (events/memory.go, store.go, options.go): event
      streams, which use Store. Cache (cache/): the in-memory cache. Metadata
      (metadata/metadata.go): request metadata and its contexts.
    - ApiRouter (api/router/endpoint.go, static/, registry/, api/resolver/):
      endpoints, the static and the registry router on top of HttpPattern, the
      resolvers.
    - GoStrconv, GoIO: the parts of [strconv], [io] and [encoding/binary] the
      codecs call. Codec (codec/): the class [CodecOps] that every codec is an
      instance of, grpc framing and its codec, the single-body codecs and the
      pooled marshallers. ProtoRpc (codec/protorpc): proto-rpc.
    - RpcCodec (client/rpc_codec.go, server/rpc_codec.go): the two ends' codecs
      over any [CodecOps], their headers, the choice of the codec; class
      [SingleBody] is what the exchange needs of a codec. RpcStream
      (client/rpc_stream.go, server/rpc_stream.go): streams over them. RpcCall
      (client/rpc_client.go): the headers and the codec of a call, its exchange with
      its timeout and the release of the connection to ConnPool, the opening of a
      stream, publishing.
    - NetUtil (util/net, util/addr): addresses and port ranges.
    - Qson (util/qson): query strings as json trees. ApiHandler (api/handler/rpc): an
      HTTP request as the payload of a call, its answer and its errors, on top of
      ApiRouter's routes, Qson and Metadata.
    - HttpBroker (broker/http.go): subscribers, inbox, publishing and posts, over the
      class [Reg], which MemRegistry's registry instantiates; the life of a broker as a
      step relation. MemTransport (transport/memory.go): listeners, connections and
      their sockets as a step relation.
    - Mdns (util/mdns): the records of a service, what servers answer and clients make
      of answers. MdnsRegistry (registry/mdns_registry.go): the registry on top of it.
      Etcd (registry/etcd): the registry over the class [Client] of etcd.
    - WebService (web/service.go, util/http): registration, start, stop and handlers of
      a web service, its life as a step relation, and the client of web services.
    - JsonRpc (codec/jsonrpc): both ends of json-rpc, an instance of [CodecOps] like the
      others. DebugLog (debug/log, debug/log/memory): the log of a process over Ring.
      Tracing (debug/trace, stats, handler, util/wrapper): spans, counters, the debug
      handler and the wrappers of clients and servers. Logger (logger/): levels, fields
      and what a logger writes.
    - GoHttp: headers of [net/http]. ApiProxy (api/handler/event, api/handler/api): the
      handlers that turn an HTTP request into an event and into a request message.
      ApiForward (api/handler/http, web, api/client): the handlers that forward requests
      and websockets to a node, and the client of the API.
      HttpTransport (transport/http*.go): the sockets of both ends, the listener, the
      choice of the protocol and of a proxy.
    - FileTransfer (util/file): the file server and its client. Cmd (util/cmd) and
      Service (service.go, options.go): the command line as it configures a service, the
      options of a service and its life.
    - KubeApi (util/kubernetes/api) and KubeClient (util/kubernetes/client): requests to
      the kubernetes API and the client that makes them, in a monad of the cluster and its
      failures; class [KClient] is what it promises. KubeRuntime and KubeLogs
      (runtime/kubernetes): the runtime over that class, and the streams of its logs.
    - SyncStore (util/sync): a store in layers. ConfigSources (config/source/flag, cli,
      config/reader/json/values.go): flags as configuration, values as types.
    - RpcRouter (server/rpc_router.go, rpc_handler.go, subscriber.go,
      extractor.go): handlers and subscribers as reflected data, registration,
      requests and events, up to [serveReq] of rpc_server.go. RpcServer
      (server/rpc_server.go, rpc_events.go): registration with the registry and
      the broker, alone and in its sections, the registration loop. RpcConn (ServeConn and HandleEvent): the
      loop of a connection and the goroutines of its sessions, over the pseudo
      sockets of Socket, as a step relation.
    - Runtime (runtime/default.go, service.go): the state machine of a service and
      its processes, the runtime that keeps services, its management loop.
    - ConfigLoader (config/loader/memory): the loader, its watchers and the updates
      sent to them, as a step relation, over the class [Reader]. Config
      (config/default.go, reader/, source/env, source/memory): the configuration
      that follows a loader, the json reader, which is an instance of [Reader], and
      two sources.

    ** How state and effects are modelled

    A component's struct is a record, and a method is a function from the old
    record and its arguments to the new one. Code that can fail returns an
    [outcome] (or an option where there is one way to fail); a run-time panic is
    the value [Panic], never left out. What the environment decides is an
    argument of the step it decides: the clock, the order in which a map is
    visited ([map_order]), random numbers, which of several ready cases a select
    takes, whether a channel has room, what the network or a callback answers.
    Theorems hold for every choice of these. Mutexes make an operation one step;
    where the code gives a lock up in the middle (the socket pool's [Get], the
    redelivery of an event) the sections are separate steps and a step relation
    or a scheduler interleaves them. Instants and durations are integers of
    nanoseconds; 64-bit arithmetic wraps where the code can reach the bounds.
    Pointers are values except where sharing matters: the event a broker's
    handlers share, the service a cache update writes into, the sockets of a pool.

    ** What the theorems show

    - Templates: parsing is total, printing and parsing round-trip, every parsed
      template compiles to a program the runtime accepts, and running it matches
      exactly the paths the grammar describes, with the same bindings.
    - Registry: the effect of each operation on every node, version and service;
      invariants of every reachable state; lookups after registration; delivery
      of events; the set operations as set operations.
    - Registry cache: the effect of each watch event on the cached view, an
      invariant under every interleaving, every branch of a read, bounded backoff.
    - Selection and calls: what filters keep, fairness of round robin, the exact
      attempts, result and marks of a call, the backoff's bounds.
    - Exchanges: how calls and streams end under every interleaving, and that a
      connection goes back to the pool only when nothing uses it.
    - Connections: exclusive ownership of pooled connections, bounded pools; FIFO
      delivery of sockets, agreement of concurrent [Get]s.
    - API routing: which endpoint a request finds and with which fields, what
      storing services does to the routes, the metadata form of endpoints.
    - Codecs: frames, requests and answers are read back as written, through the
      wire format, the codec and the headers of both ends; both ends choose the
      same codec, but for raw bytes in the old mode. Streams: the order of what is sent,
      what [Recv] returns.
    - Server: which methods a handler makes callable and advertises, types of
      validated subscribers, one answer per request unless something panics, delivery of
      events, the broker subscriptions in every history, the order of the messages of a
      connection and what becomes of each under every interleaving of its goroutines.
    - Runtime: a running service is watched and nothing panics, services stay under
      their keys, what each operation does to them. Configuration: watchers move
      forward, an update reaches each of them, when one panics; the configuration
      ends with the newest snapshot; variables in the data and of the environment.
    - API payloads: the tree of a query parameter, where the fields of a request end up,
      a routed request from its bytes to the call and back.
    - HTTP broker: a message posted to a node reaches its handlers, who is hidden by an
      unsubscription, one [run] goroutine per connection, when disconnecting hangs.
      Memory transport: messages arrive in order, what closing wakes and what it does not.
    - Other registries: what was registered with mDNS or etcd is found, with exactly its
      nodes, or those that a member of etcd that is behind has seen; text records read
      back; what their watchers see and miss.
    - Web services: one open listener while a service runs, the registered one as long as
      no [Init] changes the address; that it can be stopped once; how often it tries to
      register.
    - HTTP transport: messages of a connection arrive in order and whole when the senders
      of a side come one after another, a request is carried with its headers, the reader
      that an overflow starves. Files: what is downloaded in blocks is the file. Event and
      api handlers: what a message holds of a request. json-rpc: answers find their methods.
    - Service: its client and server keep the parts that the options and the command line
      gave it. Tracing and logging: children are linked to their parents, counters count,
      a stream of the log carries what is written while its reader reads, a record holds the
      fields of its logger.
    - Kubernetes: the one request each operation sends, that queries are read back, that
      what was created is read back as it was, which objects an update reaches, that the
      lines of each goroutine arrive in order and what stopping does to who sends them.
    - Authorisation: the rule that decides. Ring, store, cache, metadata: reads
      after writes, isolation, paging, expiry. Broker and events: who receives a
      message, in which order, how often it is delivered again.
    - Some theorems state behaviour that surprises (a read that needs a limit, an
      acknowledgement that is lost, a call that succeeds without calling): they
      hold of the code as it is.

    ** Fuel and bounds

    The parser runs on fuel [parse_fuel], four times the number of tokens plus
    four; [Parse_total] shows that it never runs out. The tokenizer's fuel is the
    length of its input. Raising to a power by squaring runs on 64 rounds, which
    [intpow_spec] shows is enough. The client's loop runs on the number of its
    attempts, trying a range of ports on the number of ports. A query parameter runs on its length,
    which [queryToMap_total] shows is enough, and a text record is cut on the length of
    its text. Descriptions of types are cut
    at the depth the code cuts them, which is structural in the model. All other
    recursion is structural.

    ** Not modelled

    The API server, the loops that copy between websockets and streams, the file source of
    configurations and secrets, the log stream and the archives of the local runtime:
    files, sockets and third-party parsers do their work. The processes of the local
    runtime and profiling drive external programs. Sockets of multicast groups and the
    goroutine that restarts the mDNS listener are I/O too. The no-op authentication and leader election have no behaviour
    to state. Generated code ([.pb.go], [.pb.micro.go]) is left out.
    Marshalling of a value, regular expressions, reflection on Go types, the client of
    etcd and Go's [net] package are arguments of the definitions that use them. The text
    that components log, formatted error texts (where only the
    kind of error matters) and [String()] methods that
    return a constant are left out throughout. *)
From Stdlib Require Export Ascii ZArith Lia.
From stdpp Require Export base decidable option list list_monad gmap strings fin_maps.


Declare Scope go_scope.
Delimit Scope go_scope with go.
#[global] Open Scope go_scope.

(** ** Outcomes of Go functions

    A Go call that can fail ends in one of three ways: it returns a value, it
    returns a non-nil error, or it panics at run time (index or slice out of
    range, nil dereference). *)
Inductive outcome (E A : Type) : Type :=
| Ret (a : A)
| Fail (e : E)
| Panic.
Arguments Ret {E A} a.
Arguments Fail {E A} e.
Arguments Panic {E A}.

Definition outcome_bind {E A B} (m : outcome E A) (k : A -> outcome E B) : outcome E B :=
  match m with
  | Ret a => k a
  | Fail e => Fail e
  | Panic => Panic
  end.

Notation "x <-! m ; k" := (outcome_bind m (fun x => k))
  (at level 100, m at next level, right associativity) : go_scope.

(** ** Machine integers and clocks

    [int] and [int64] are 64-bit two's complement; additions wrap. A
    [time.Time] is its number of nanoseconds since Go's zero time, so
    [IsZero] is [= 0]; a [time.Duration] is an [int64] of nanoseconds and
    [time.Time.Sub] saturates at its bounds. *)
Definition int_min : Z := (- 2 ^ 63)%Z.
Definition int_max : Z := (2 ^ 63 - 1)%Z.

Definition wrap64 (z : Z) : Z :=
  let r := (z mod 2 ^ 64)%Z in
  if (r <? 2 ^ 63)%Z then r else (r - 2 ^ 64)%Z.

Definition time_Sub (t u : Z) : Z := Z.max int_min (Z.min int_max (t - u)).

Definition time_Since (now t : Z) : Z := time_Sub now t.

Definition time_IsZero (t : Z) : bool := (t =? 0)%Z.

Lemma wrap64_small z : (int_min <= z <= int_max)%Z -> wrap64 z = z.
Proof.
  unfold wrap64, int_min, int_max. intros Hz.
  destruct (decide (0 <= z)%Z).
  - rewrite Z.mod_small by lia. destruct (Z.ltb_spec z (2 ^ 63)); lia.
  - replace (z mod 2 ^ 64)%Z with (z + 2 ^ 64)%Z.
    + destruct (Z.ltb_spec (z + 2 ^ 64) (2 ^ 63)); lia.
    + symmetry. rewrite <- (Z.mod_small (z + 2 ^ 64) (2 ^ 64)) by lia.
      rewrite <- (Z_mod_plus_full z 1 (2 ^ 64)). f_equal; lia.
Qed.

Lemma wrap64_range z : (int_min <= wrap64 z <= int_max)%Z.
Proof.
  unfold wrap64, int_min, int_max.
  pose proof (Z.mod_pos_bound z (2 ^ 64) ltac:(lia)).
  destruct (Z.ltb_spec (z mod 2 ^ 64) (2 ^ 63)); lia.
Qed.

Lemma time_Sub_pos t u : (0 < time_Sub t u <-> u < t)%Z.
Proof. unfold time_Sub, int_min, int_max. lia. Qed.

Lemma time_Sub_gt t u d : (0 <= d < int_max -> (d < time_Sub t u <-> u + d < t))%Z.
Proof. unfold time_Sub, int_min, int_max. lia. Qed.

(** ** Map iteration

    Go visits the entries of a map in an unspecified order that may differ
    from one [range] statement to the next. An execution is therefore given
    the order the runtime picked, as a list permuter; theorems hold for every
    such order. *)
Record map_order := MapOrder {
  order_list : forall A : Type, list A -> list A;
  order_perm : forall (A : Type) (l : list A), Permutation (order_list A l) l;
}.
Arguments order_list _ {A} l.

Definition order_id : map_order := MapOrder (fun _ l => l) (fun _ l => Permutation_refl l).
Definition order_rev : map_order :=
  MapOrder (fun _ l => rev l) (fun _ l => Permutation_sym (Permutation_rev l)).

Definition map_range {K V} `{Countable K} (o : map_order) (m : gmap K V) : list (K * V) :=
  order_list o (map_to_list m).

Lemma elem_of_map_range {K V} `{Countable K} o (m : gmap K V) k v :
  (k, v) ∈ map_range o m <-> m !! k = Some v.
Proof.
  unfold map_range. rewrite (order_perm o). apply elem_of_map_to_list.
Qed.

Lemma length_map_range {K V} `{Countable K} o (m : gmap K V) :
  length (map_range o m) = size m.
Proof. unfold map_range. by rewrite (order_perm o), length_map_to_list. Qed.

Lemma map_range_perm {K V} `{Countable K} o (m : gmap K V) :
  map_range o m ≡ₚ map_to_list m.
Proof. apply (order_perm o). Qed.

Lemma NoDup_map_range {K V} `{Countable K} o (m : gmap K V) : NoDup (map_range o m).*1.
Proof. rewrite map_range_perm. apply NoDup_fst_map_to_list. Qed.

(** *** Folds over the entries of a map *)
Section map_folds.
Context {K V : Type} `{Countable K}.

Lemma foldl_alter {X} (g : X -> V -> V) k (m : gmap K V) (l : list X) :
  foldl (fun m x => alter (g x) k m) m l = alter (fun y => foldl (fun y x => g x y) y l) k m.
Proof.
  revert m. induction l as [|x l IH]; intros m; cbn.
  - symmetry. by apply alter_id.
  - by rewrite IH, alter_alter_eq.
Qed.

Lemma foldl_alter_other (F : V -> V -> V) (l : list (K * V)) (m : gmap K V) k :
  k ∉ l.*1 -> foldl (fun m e => alter (F e.2) e.1 m) m l !! k = m !! k.
Proof.
  revert m. induction l as [|[k' v] l IH]; intros m; cbn; [done|]. intros Hk.
  rewrite IH by set_solver. apply lookup_alter_ne. set_solver.
Qed.

Lemma foldl_alter_in (F : V -> V -> V) (l : list (K * V)) (m : gmap K V) k v :
  NoDup l.*1 -> (k, v) ∈ l ->
  foldl (fun m e => alter (F e.2) e.1 m) m l !! k = F v <$> m !! k.
Proof.
  revert m. induction l as [|[k' v'] l IH]; intros m; cbn; [set_solver|].
  intros [Hn Hl]%NoDup_cons [Hin|Hin]%elem_of_cons.
  - simplify_eq. rewrite foldl_alter_other by done. by rewrite lookup_alter, decide_True.
  - rewrite IH by done. rewrite lookup_alter_ne; [done|].
    intros ->. apply Hn. apply list_elem_of_fmap. by exists (k, v).
Qed.

(** Updating every entry of a map by ranging over it, in any order. *)
Lemma foldl_alter_range o (F : V -> V -> V) (m : gmap K V) :
  foldl (fun m e => alter (F e.2) e.1 m) m (map_range o m) = (fun v => F v v) <$> m.
Proof.
  apply map_eq. intros k. rewrite lookup_fmap. destruct (m !! k) as [v|] eqn:Hk.
  - rewrite (foldl_alter_in _ _ _ _ v), Hk; [done|apply NoDup_map_range|].
    by apply elem_of_map_range.
  - rewrite foldl_alter_other; [by rewrite Hk|]. intros ([k' v] & -> & Hin)%list_elem_of_fmap.
    apply elem_of_map_range in Hin. cbn in Hk. congruence.
Qed.

(** Copying the entries of a map into another, in any order. *)
Lemma foldl_insert_range o (m into : gmap K V) :
  foldl (fun m e => <[e.1 := e.2]> m) into (map_range o m) = m ∪ into.
Proof.
  assert (forall (l : list (K * V)) (m0 : gmap K V), NoDup l.*1 -> foldl (fun m e => <[e.1 := e.2]> m) m0 l = list_to_map l ∪ m0) as Hf.
  { induction l as [|[k v] l IH]; intros m0; cbn; [by rewrite (left_id_L ∅ (∪))|]. intros [Hk Hl]%NoDup_cons.
    rewrite IH by done. rewrite <- insert_union_l, <- insert_union_r; [done|]. by apply not_elem_of_list_to_map_1. }
  rewrite Hf by apply NoDup_map_range. f_equal. transitivity (list_to_map (M:=gmap K V) (map_to_list m)); [|apply list_to_map_to_list].
  apply list_to_map_proper; [apply NoDup_map_range|apply map_range_perm].
Qed.

(** Deleting entries of a map while ranging over it, in any order. *)
Lemma foldl_delete_range o (P : V -> bool) (m : gmap K V) :
  foldl (fun m e => if P e.2 then delete e.1 m else m) m (map_range o m) =
  filter (fun e => P e.2 = false) m.
Proof.
  apply map_eq. intros k.
  set (hit := fun e : K * V => bool_decide (e.1 = k) && P e.2).
  assert (forall l (m' : gmap K V),
    foldl (fun m (e : K * V) => if P e.2 then delete e.1 m else m) m' l !! k =
    if existsb hit l then None else m' !! k) as Hf.
  { unfold hit. induction l as [|[k' v'] l IH]; intros m'; cbn; [done|]. rewrite IH.
    destruct (existsb _ l); [by rewrite orb_true_r|]. rewrite orb_false_r.
    destruct (P v'); [|by rewrite andb_false_r]. case_bool_decide; subst; cbn.
    - by rewrite lookup_delete_eq.
    - by rewrite lookup_delete_ne. }
  rewrite Hf, map_lookup_filter. clear Hf.
  destruct (existsb hit (map_range o m)) eqn:Hb; destruct (m !! k) as [v|] eqn:Hk; cbn; try done.
  - apply existsb_exists in Hb as ([k' v'] & Hin & [<-%bool_decide_eq_true Hp]%andb_true_iff).
    apply list_elem_of_In, elem_of_map_range in Hin. cbn in *. rewrite Hk in Hin.
    simplify_eq. by rewrite option_guard_False by congruence.
  - rewrite option_guard_True; [done|]. cbn. destruct (P v) eqn:Hp; [|done].
    rewrite <- Hb. symmetry. apply existsb_exists. exists (k, v). split.
    + by apply list_elem_of_In, elem_of_map_range.
    + unfold hit. cbn. by rewrite bool_decide_true, Hp.
Qed.

(** Deleting every entry of a map while ranging over it. *)
Lemma foldl_delete_all o (m : gmap K V) :
  foldl (fun m (e : K * V) => delete e.1 m) m (map_range o m) = ∅.
Proof.
  pose proof (foldl_delete_range o (fun _ => true) m) as Hd. cbn in Hd. rewrite Hd.
  apply map_eq. intros k. rewrite lookup_empty.
  apply map_lookup_filter_None. right. by intros.
Qed.
End map_folds.

(** ** Lists that are reversed *)
Lemma elem_of_rev {A} (x : A) l : x ∈ rev l <-> x ∈ l.
Proof. by rewrite <- (Permutation_rev l). Qed.

#[export] Instance set_unfold_rev {A} (x : A) l P :
  SetUnfoldElemOf x l P -> SetUnfoldElemOf x (rev l) P.
Proof. constructor. by rewrite elem_of_rev, (set_unfold_elem_of x l P). Qed.

Lemma NoDup_rev {A} (l : list A) : NoDup (rev l) <-> NoDup l.
Proof. by rewrite <- (Permutation_rev l). Qed.
