(* ===== verification/GoStrings.v ===== *)
(** * The [strings] functions the code calls

    A Go string is a sequence of bytes, here a [string]. Separators and
    character sets are single ASCII bytes in every call the development models,
    so byte-wise scanning is what the library does. *)
From S2P Require Import Prelude.

#[global] Arguments String.append : simpl nomatch.

(** ** Substrings: [s[:n]], [s[n:]] *)
Fixpoint str_take (n : nat) (s : string) : string :=
  match n, s with
  | S n, String a s => String a (str_take n s)
  | _, _ => ""
  end.

Fixpoint str_drop (n : nat) (s : string) : string :=
  match n, s with
  | S n, String _ s => str_drop n s
  | _, _ => s
  end.

Fixpoint str_forall (f : ascii -> bool) (s : string) : bool :=
  match s with
  | "" => true
  | String a s => f a && str_forall f s
  end.

(** Does the byte occur? ([strings.Contains] of a one-byte string.) *)
Definition str_has (c : ascii) (s : string) : bool :=
  negb (str_forall (fun a => negb (Ascii.eqb a c)) s).

(** [strings.IndexAny]: the first byte satisfying the test; [None] is [-1]. *)
Fixpoint index_where (f : ascii -> bool) (s : string) : option nat :=
  match s with
  | "" => None
  | String a s => if f a then Some 0 else S <$> index_where f s
  end.

(** [strings.LastIndex] of a one-byte string. *)
Fixpoint last_index (c : ascii) (s : string) : option nat :=
  match s with
  | "" => None
  | String a s =>
      match last_index c s with
      | Some i => Some (S i)
      | None => if Ascii.eqb a c then Some 0 else None
      end
  end.

(** [strings.Split] on a one-byte separator: never empty. *)
Fixpoint split_char (c : ascii) (s : string) : list string :=
  match s with
  | "" => [""]
  | String a s =>
      if Ascii.eqb a c then "" :: split_char c s
      else match split_char c s with
           | w :: ws => String a w :: ws
           | [] => [String a ""]
           end
  end.

(** [strings.Join] *)
Definition join (sep : string) (l : list string) : string := String.concat sep l.

Definition has_prefix (s p : string) : bool := String.prefix p s.

Definition has_suffix (s p : string) : bool :=
  (String.length p <=? String.length s) &&
  String.eqb (str_drop (String.length s - String.length p) s) p.

(** Go's [<] on strings. *)
Definition str_ltb (a b : string) : bool := match String.compare a b with Lt => true | _ => false end.

(** [strings.ToLower], on ASCII letters. *)
Definition to_lower_char (a : ascii) : ascii :=
  let n := nat_of_ascii a in if (65 <=? n) && (n <=? 90) then ascii_of_nat (n + 32) else a.

Fixpoint to_lower (s : string) : string :=
  match s with EmptyString => "" | String a r => String (to_lower_char a) (to_lower r) end.

Definition trim_prefix (s p : string) : string :=
  if has_prefix s p then str_drop (String.length p) s else s.

(** ** Append *)
Lemma str_app_nil_r s : s +:+ "" = s.
Proof. induction s; cbn; by f_equal. Qed.

Lemma str_app_assoc s t u : (s +:+ t) +:+ u = s +:+ (t +:+ u).
Proof. induction s; cbn; by f_equal. Qed.

Lemma str_length_app s t :
  String.length (s +:+ t) = String.length s + String.length t.
Proof. induction s; cbn; auto. Qed.

Lemma str_forall_app f s t : str_forall f (s +:+ t) = str_forall f s && str_forall f t.
Proof. induction s as [|a s IH]; cbn; [done|]. rewrite IH. by destruct (f a). Qed.

Lemma str_take_app s t : str_take (String.length s) (s +:+ t) = s.
Proof. induction s; cbn; [by destruct t|]. by f_equal. Qed.

Lemma str_drop_app s t : str_drop (String.length s) (s +:+ t) = t.
Proof. by induction s. Qed.

Lemma str_take_drop n s : str_take n s +:+ str_drop n s = s.
Proof.
  revert n. induction s as [|a s IH]; intros [|n]; cbn; try done. by rewrite IH.
Qed.

Lemma str_length_drop n s : String.length (str_drop n s) = String.length s - n.
Proof. revert n. induction s as [|a s IH]; intros [|n]; cbn; auto. Qed.

Lemma str_has_app c s t : str_has c (s +:+ t) = str_has c s || str_has c t.
Proof. unfold str_has. rewrite str_forall_app. by destruct (str_forall _ s). Qed.

Lemma str_has_cons c a s : str_has c (String a s) = Ascii.eqb a c || str_has c s.
Proof. unfold str_has. cbn. by destruct (Ascii.eqb a c). Qed.

(** ** Index *)
Lemma index_where_app f s c t :
  str_forall (fun a => negb (f a)) s = true -> f c = true ->
  index_where f (s +:+ String c t) = Some (String.length s).
Proof.
  intros Hs Hc. induction s as [|a s IH]; cbn in *; [by rewrite Hc|].
  apply andb_prop in Hs as [Ha Hs]. destruct (f a); [done|]. by rewrite IH.
Qed.

Lemma index_where_none f s :
  index_where f s = None <-> str_forall (fun a => negb (f a)) s = true.
Proof.
  induction s as [|a s IH]; cbn; [done|]. destruct (f a); cbn; [done|].
  rewrite <- IH. destruct (index_where f s); cbn; by split.
Qed.

Lemma index_where_some f s i :
  index_where f s = Some i ->
  exists pre c post, s = pre +:+ String c post /\ String.length pre = i /\
    str_forall (fun a => negb (f a)) pre = true /\ f c = true.
Proof.
  revert i. induction s as [|a s IH]; intros i H; cbn in *; [done|].
  destruct (f a) eqn:Ha; simplify_eq.
  - by exists "", a, s.
  - destruct (index_where f s) as [j|]; simplify_eq/=.
    destruct (IH j eq_refl) as (pre & c & post & -> & <- & Hpre & Hc).
    exists (String a pre), c, post. cbn. by rewrite Ha, Hpre.
Qed.

Lemma last_index_none c s : last_index c s = None <-> str_has c s = false.
Proof.
  induction s as [|a s IH]; cbn; [done|]. rewrite str_has_cons.
  destruct (last_index c s), (Ascii.eqb a c), (str_has c s); cbn; naive_solver.
Qed.

Lemma last_index_app c s t :
  str_has c t = false -> last_index c (s +:+ String c t) = Some (String.length s).
Proof.
  intros Ht. apply last_index_none in Ht.
  induction s as [|a s IH]; cbn.
  - by rewrite Ht, Ascii.eqb_refl.
  - by rewrite IH.
Qed.

Lemma last_index_some c s i :
  last_index c s = Some i ->
  exists t, s = str_take i s +:+ String c t /\ str_has c t = false /\
            str_drop (S i) s = t /\ String.length (str_take i s) = i.
Proof.
  revert i. induction s as [|a s IH]; intros i H; cbn in *; [done|].
  destruct (last_index c s) as [j|] eqn:Hj; simplify_eq/=.
  - destruct (IH j eq_refl) as (t & Hs & Ht & Hd & Hl). exists t. split_and!; auto.
    by f_equal.
  - destruct (Ascii.eqb_spec a c); simplify_eq/=. exists s. split_and!; auto.
    by apply last_index_none.
Qed.

(** ** Split and join *)
Lemma split_char_nonnil c s : split_char c s <> [].
Proof. destruct s; cbn; [done|]. case_match; [done|]. by case_match. Qed.

Lemma join_cons sep w ws :
  ws <> [] -> join sep (w :: ws) = w +:+ sep +:+ join sep ws.
Proof. by destruct ws. Qed.

Lemma join_split c s : join (String c "") (split_char c s) = s.
Proof.
  induction s as [|a s IH]; [done|]. cbn [split_char].
  destruct (Ascii.eqb_spec a c) as [->|Ha].
  - rewrite join_cons by apply split_char_nonnil. by rewrite IH.
  - destruct (split_char c s) as [|w ws] eqn:E; [by apply split_char_nonnil in E|].
    destruct ws as [|w' ws]; cbn in *; by rewrite IH.
Qed.

Lemma split_char_id c s : str_has c s = false -> split_char c s = [s].
Proof.
  induction s as [|a s IH]; [done|]. rewrite str_has_cons. cbn.
  intros [Ha Hs]%orb_false_iff. by rewrite Ha, IH.
Qed.

Lemma split_char_app c s t :
  str_has c s = false -> split_char c (s +:+ String c t) = s :: split_char c t.
Proof.
  induction s as [|a s IH]; cbn.
  - by rewrite Ascii.eqb_refl.
  - rewrite str_has_cons. intros [Ha Hs]%orb_false_iff. by rewrite Ha, IH.
Qed.

Lemma split_join c l :
  l <> [] -> Forall (fun w => str_has c w = false) l ->
  split_char c (join (String c "") l) = l.
Proof.
  intros Hne Hl. induction Hl as [|w ws Hw Hws IH]; [done|].
  destruct ws as [|w' ws]; [by apply split_char_id|].
  rewrite join_cons by done. cbn [String.append].
  rewrite split_char_app by done. by rewrite IH.
Qed.

Lemma split_char_free c s : Forall (fun w => str_has c w = false) (split_char c s).
Proof.
  induction s as [|a s IH]; cbn; [by repeat constructor|].
  destruct (Ascii.eqb a c) eqn:Ha; [by constructor|].
  destruct (split_char c s) as [|w ws]; inversion IH; subst.
  - constructor; [|done]. by rewrite str_has_cons, Ha.
  - constructor; [|done]. by rewrite str_has_cons, Ha.
Qed.

Lemma has_prefix_app p s : has_prefix (p +:+ s) p = true.
Proof.
  unfold has_prefix. induction p as [|a p IH]; cbn; [by destruct s|].
  by destruct (ascii_dec a a).
Qed.

Lemma has_prefix_spec s p : has_prefix s p = true <-> exists t, s = p +:+ t.
Proof.
  unfold has_prefix. split.
  - revert s. induction p as [|a p IH]; intros s H; [by exists s|].
    destruct s as [|b s]; cbn in H; [done|]. destruct (ascii_dec a b) as [->|]; [|done].
    destruct (IH _ H) as [t ->]. by exists t.
  - intros [t ->]. apply has_prefix_app.
Qed.

Lemma trim_prefix_app p s : trim_prefix (p +:+ s) p = s.
Proof. unfold trim_prefix. rewrite has_prefix_app. apply str_drop_app. Qed.

#[export] Hint Rewrite str_app_nil_r str_app_assoc str_length_app : gostr.

Create HintDb gostr_res discriminated.
#[export] Hint Resolve split_char_nonnil split_char_free has_prefix_app : gostr_res.

(** *** Splitting and joining at a separator in the middle *)
Lemma join_app sep l1 l2 :
  l1 <> [] -> l2 <> [] -> join sep (l1 ++ l2) = join sep l1 +:+ sep +:+ join sep l2.
Proof.
  intros H1 H2. induction l1 as [|w l1 IH]; [done|]. destruct l1 as [|w' l1].
  - cbn [app]. by rewrite join_cons.
  - cbn [app]. rewrite join_cons by done. cbn [app] in IH. rewrite IH by done.
    rewrite (join_cons sep w (w' :: l1)) by done. by rewrite !str_app_assoc.
Qed.

Lemma split_char_mid c s t :
  split_char c (s +:+ String c t) = split_char c s ++ split_char c t.
Proof.
  induction s as [|a s IH]; cbn [String.append split_char].
  - by rewrite Ascii.eqb_refl.
  - rewrite IH. destruct (Ascii.eqb a c); [done|].
    pose proof (split_char_nonnil c s). by destruct (split_char c s).
Qed.

Lemma split_char_many c s : 1 < length (split_char c s) <-> str_has c s = true.
Proof.
  split.
  - intros Hl. destruct (str_has c s) eqn:Hs; [done|]. rewrite split_char_id in Hl by done.
    cbn in Hl. lia.
  - intros Hs. destruct (last_index c s) as [i|] eqn:Hi.
    + apply last_index_some in Hi as (t & Ht & _). rewrite Ht, split_char_mid, length_app.
      pose proof (split_char_nonnil c (str_take i s)). pose proof (split_char_nonnil c t).
      destruct (split_char c (str_take i s)), (split_char c t); cbn; try done; lia.
    + apply last_index_none in Hi. congruence.
Qed.

(** ** The order of strings *)
Lemma str_ltb_cons a b s t :
  str_ltb (String a s) (String b t) = true <->
  (N_of_ascii a < N_of_ascii b)%N \/ (a = b /\ str_ltb s t = true).
Proof.
  unfold str_ltb. cbn. unfold Ascii.compare. destruct (N.compare_spec (N_of_ascii a) (N_of_ascii b)) as [Heq|Hlt|Hgt].
  - apply (f_equal ascii_of_N) in Heq as Ha. rewrite !ascii_N_embedding in Ha. subst.
    destruct (String.compare s t); split; intros Hst; try done; try (by right); destruct Hst as [?|[_ ?]]; lia || done.
  - split; [by left|done].
  - split; [done|]. intros [?|[-> _]]; lia.
Qed.

Lemma str_ltb_trans s t u : str_ltb s t = true -> str_ltb t u = true -> str_ltb s u = true.
Proof.
  revert t u. induction s as [|a s IH]; intros [|b t] [|c u]; try done.
  rewrite !str_ltb_cons. intros [?|[-> Hst]] [?|[-> Htu]]; [left; lia|by left|by left|]. right. split; [done|by eapply IH].
Qed.

Lemma str_ltb_irrefl s : str_ltb s s = false.
Proof. unfold str_ltb. induction s as [|a s IH]; [done|]. cbn. unfold Ascii.compare. by rewrite N.compare_refl. Qed.
