(* ===== verification/GoPath.v ===== *)
(** * filepath.Join and filepath.Clean on Unix

    The lexical path operations of Go's standard library that the memory store
    builds its keys with, and the facts about them that the store needs. *)
From S2P Require Import Prelude GoStrings.

(** One component against the path built so far, last component first. *)
Definition clean_step (rooted : bool) (stack : list string) (comp : string) : list string :=
  if String.eqb comp "" || String.eqb comp "." then stack
  else if String.eqb comp ".." then
    match stack with
    | [] => if rooted then [] else [".."]
    | top :: below => if String.eqb top ".." then ".." :: stack else below
    end
  else comp :: stack.

Definition Clean (path : string) : string :=
  let rooted := has_prefix path "/" in
  let stack := foldl (clean_step rooted) [] (split_char "/" path) in
  let out := (if rooted then "/" else "") +:+ join "/" (rev stack) in
  if String.eqb out "" then "." else out.

Definition Join (elem : list string) : string :=
  match filter (fun e => e <> "") elem with
  | [] => ""
  | es => Clean (join "/" es)
  end.

(** A component that cleaning keeps: a plain file name. *)
Definition plain (comp : string) : Prop :=
  comp ∉ [""; "."; ".."] /\ str_has "/" comp = false.

(** A relative path that is its own clean form. *)
Definition plain_path (p : string) : Prop :=
  exists comps, comps <> [] /\ Forall plain comps /\ p = join "/" comps.

Lemma clean_step_plain rooted stack comp : plain comp -> clean_step rooted stack comp = comp :: stack.
Proof.
  intros [Hp _]. unfold clean_step.
  destruct (String.eqb_spec comp ""); [set_solver|]. destruct (String.eqb_spec comp "."); [set_solver|].
  cbn. destruct (String.eqb_spec comp ".."); [set_solver|done].
Qed.

Lemma clean_plain_fold rooted comps stack :
  Forall plain comps -> foldl (clean_step rooted) stack comps = rev comps ++ stack.
Proof.
  intros Hp. revert stack. induction Hp as [|c comps Hc _ IH]; intros stack; cbn; [done|].
  by rewrite clean_step_plain, IH, <- app_assoc.
Qed.

Lemma plain_split comps :
  comps <> [] -> Forall plain comps -> split_char "/" (join "/" comps) = comps.
Proof. intros Hne Hp. apply split_join; [done|]. eapply Forall_impl; [exact Hp|]. by intros c [_ ?]. Qed.

(** A component in general: not empty, without a slash. *)
Definition component (c : string) : Prop := c <> "" /\ str_has "/" c = false.

Lemma plain_component c : plain c -> component c.
Proof. intros [Hp ?]. split; [set_solver|done]. Qed.

Lemma comps_not_rooted comps :
  comps <> [] -> Forall component comps -> has_prefix (join "/" comps) "/" = false.
Proof.
  intros Hne Hp. destruct comps as [|c comps]; [done|].
  apply Forall_cons in Hp as [[Hc Hs] _]. destruct c as [|a c]; [done|].
  assert (Ascii.eqb a "/" = false) as Ha by (rewrite str_has_cons in Hs; by destruct (Ascii.eqb a "/")).
  apply Ascii.eqb_neq in Ha.
  assert (exists rest, join "/" (String a c :: comps) = String a rest) as [rest ->].
  { destruct comps; [by eexists|]. rewrite join_cons by done. by eexists. }
  destruct (has_prefix (String a rest) "/") eqn:Hh; [|done].
  apply has_prefix_spec in Hh as [t Ht]. cbn in Ht. congruence.
Qed.

Lemma plain_not_rooted p : plain_path p -> has_prefix p "/" = false.
Proof.
  intros (comps & Hne & Hp & ->). apply comps_not_rooted; [done|].
  eapply Forall_impl; [exact Hp|apply plain_component].
Qed.

Lemma plain_nonempty p : plain_path p -> p <> "".
Proof.
  intros (comps & Hne & Hp & ->) He. destruct comps as [|c [|c' comps]]; [done| |].
  - apply Forall_singleton in Hp as [Hc _]. cbn in He. subst. set_solver.
  - rewrite join_cons in He by done. by destruct c.
Qed.

Lemma Clean_plain p : plain_path p -> Clean p = p.
Proof.
  intros Hp. pose proof (plain_nonempty p Hp) as Hne. unfold Clean. rewrite (plain_not_rooted p Hp).
  destruct Hp as (comps & Hc & Hp & ->). rewrite plain_split, clean_plain_fold by done.
  rewrite app_nil_r, rev_involutive. cbn [String.append].
  by rewrite (proj2 (String.eqb_neq _ _)).
Qed.

Lemma plain_path_app p q : plain_path p -> plain_path q -> plain_path (p +:+ "/" +:+ q).
Proof.
  intros (cp & Hp & Hcp & ->) (cq & Hq & Hcq & ->). exists (cp ++ cq). split_and!.
  - by destruct cp.
  - by apply Forall_app.
  - by rewrite join_app.
Qed.

(** Joining plain relative paths is concatenation with a slash: cleaning does
    nothing to them. *)
Lemma Join_plain p q : plain_path p -> plain_path q -> Join [p; q] = p +:+ "/" +:+ q.
Proof.
  intros Hp Hq. unfold Join. pose proof (plain_nonempty p Hp). pose proof (plain_nonempty q Hq).
  rewrite !filter_cons, !decide_True by done. cbn [filter list_filter].
  change (Clean (p +:+ "/" +:+ q) = p +:+ "/" +:+ q). by apply Clean_plain, plain_path_app.
Qed.

Lemma plain_path_inj p q p' q' :
  plain p -> plain p' -> p +:+ "/" +:+ q = p' +:+ "/" +:+ q' -> p = p' /\ q = q'.
Proof.
  intros [_ Hp] [_ Hp'] He. apply (f_equal (split_char "/")) in He as Hs.
  change (p +:+ String "/" q = p' +:+ String "/" q') in He.
  change (split_char "/" (p +:+ String "/" q) = split_char "/" (p' +:+ String "/" q')) in Hs.
  rewrite !split_char_app in Hs by done. injection Hs as Hpp _. subst p'. split; [done|].
  apply (f_equal (str_drop (String.length p))) in He. rewrite !str_drop_app in He. congruence.
Qed.

(** ** Cleaning is idempotent *)

(** What a cleaned stack looks like, last component first: plain names over a
    run of "..", which a rooted path does not have. *)
Definition clean_stack (rooted : bool) (stack : list string) : Prop :=
  exists names k, stack = names ++ replicate k ".." /\ Forall plain names /\ (rooted = true -> k = 0).

Lemma clean_step_stack rooted stack comp :
  str_has "/" comp = false -> clean_stack rooted stack -> clean_stack rooted (clean_step rooted stack comp).
Proof.
  intros Hs (names & k & -> & Hn & Hk). unfold clean_step.
  destruct (String.eqb_spec comp ""); [by exists names, k|].
  destruct (String.eqb_spec comp "."); [by exists names, k|]. cbn [orb].
  destruct (String.eqb_spec comp "..") as [->|].
  - destruct names as [|nm names]; cbn [app].
    + destruct k as [|k]; cbn.
      * destruct rooted; [by exists [], 0|]. exists [], 1. by split_and!.
      * exists [], (S (S k)). split_and!; [done..|]. intros Hr. by specialize (Hk Hr).
    + apply Forall_cons in Hn as [[Hn1 _] Hn]. destruct (String.eqb_spec nm ".."); [set_solver|].
      by exists names, k.
  - exists (comp :: names), k. split_and!; [done| |done]. constructor; [|done].
    split; [set_solver|done].
Qed.

Lemma clean_fold_stack rooted comps stack :
  Forall (fun c => str_has "/" c = false) comps -> clean_stack rooted stack ->
  clean_stack rooted (foldl (clean_step rooted) stack comps).
Proof.
  intros Hc. revert stack. induction Hc as [|c comps Hc _ IH]; intros stack Hs; cbn; [done|].
  apply IH. by apply clean_step_stack.
Qed.

Lemma clean_stack_fixed rooted stack :
  clean_stack rooted stack -> foldl (clean_step rooted) [] (rev stack) = stack.
Proof.
  intros (names & k & -> & Hn & Hk). rewrite rev_app_distr, foldl_app.
  assert (foldl (clean_step rooted) [] (rev (replicate k "..")) = replicate k "..") as ->.
  { destruct rooted; [by rewrite Hk|]. clear.
    replace (rev (replicate k "..")) with (replicate k "..").
    2:{ induction k as [|k IH]; [done|]. cbn. rewrite <- IH.
        by rewrite <- (replicate_cons_app k ".."). }
    assert (forall k j, foldl (clean_step false) (replicate j "..") (replicate k "..") = replicate (j + k) "..") as H.
    { clear. induction k as [|k IH]; intros j; cbn [replicate foldl]; [by rewrite Nat.add_0_r|].
      replace (clean_step false (replicate j "..") "..") with (replicate (S j) "..") by by destruct j.
      rewrite IH. f_equal. lia. }
    apply (H k 0). }
  rewrite clean_plain_fold, rev_involutive; [done|]. by apply Forall_rev.
Qed.

Lemma clean_stack_components rooted stack :
  clean_stack rooted stack -> Forall component (rev stack).
Proof.
  intros (names & k & -> & Hn & _). apply Forall_rev, Forall_app. split.
  - eapply Forall_impl; [exact Hn|apply plain_component].
  - apply Forall_replicate. done.
Qed.

Lemma join_nonempty comps : comps <> [] -> Forall component comps -> join "/" comps <> "".
Proof.
  intros Hne Hc. destruct comps as [|c [|c' comps]]; [done| |].
  - apply Forall_singleton in Hc as [Hc _]. done.
  - apply Forall_cons in Hc as [[Hc _] _]. rewrite join_cons by done. by destruct c.
Qed.

Lemma Clean_idem s : Clean (Clean s) = Clean s.
Proof.
  unfold Clean at 2 3. set (rooted := has_prefix s "/").
  set (stack := foldl (clean_step rooted) [] (split_char "/" s)).
  assert (clean_stack rooted stack) as Hst.
  { apply clean_fold_stack; [apply split_char_free|]. by exists [], 0. }
  pose proof (clean_stack_components _ _ Hst) as Hc. apply clean_stack_fixed in Hst as Hfix.
  clearbody stack. destruct (decide (rev stack = [])) as [Hnil|Hne].
  { rewrite Hnil. by destruct rooted. }
  pose proof (join_nonempty _ Hne Hc) as Hj.
  assert (split_char "/" (join "/" (rev stack)) = rev stack) as Hs.
  { apply split_join; [done|]. eapply Forall_impl; [exact Hc|]. by intros c [_ ?]. }
  destruct rooted; cbn [String.append].
  - cbn [String.eqb]. unfold Clean. change (String "/" ?x) with ("/" +:+ x).
    rewrite has_prefix_app. cbn [String.append split_char Ascii.eqb Bool.eqb]. rewrite Hs. cbn [foldl].
    change (clean_step true [] "") with (@nil string). by rewrite Hfix.
  - rewrite (proj2 (String.eqb_neq _ _) Hj). unfold Clean.
    rewrite (comps_not_rooted _ Hne Hc), Hs, Hfix. cbn [String.append].
    by rewrite (proj2 (String.eqb_neq _ _) Hj).
Qed.

Lemma Join_clean p q : Join [p; q] = "" \/ exists s, Join [p; q] = Clean s.
Proof. unfold Join. destruct (filter _ _); [by left|right; by eexists]. Qed.
