(* ===== verification/HttpRule.v ===== *)
(** * HTTP path templates: src/api/router/util/parse.go and types.go

    The data of a path template ([segment], [template]), its printer
    ([String] in types.go), the tokenizer and the recursive-descent parser of
    parse.go. The parser's mutable [tokens]/[accepted] fields are threaded as
    a [parser] value; [p.tokens[0]] on an empty slice is [PPanic]. Recursion is
    on fuel; [Parse_total] shows the fuel [Parse] supplies is always enough. *)
From S2P Require Import Prelude GoStrings.

(** ** Data (types.go) *)
#[warnings="-register-all"]
Inductive segment : Type :=
| wildcard
| deepWildcard
| literal (l : string)
| variable (path : string) (segments : list segment).

Record template := Template {
  verb : string;
  template_src : string;
  segments_of : list segment;
}.

Fixpoint segment_String (s : segment) : string :=
  match s with
  | wildcard => "*"
  | deepWildcard => "**"
  | literal l => l
  | variable path segs =>
      "{" +:+ path +:+ "=" +:+ join "/" (map segment_String segs) +:+ "}"
  end.

Definition template_String (t : template) : string :=
  let str := join "/" (map segment_String (segments_of t)) in
  let str := if String.eqb (verb t) "" then str else str +:+ ":" +:+ verb t in
  "/" +:+ str.

(** ** Tokenizer *)
Definition eof : string := String "000" "".

Inductive tstate := TInit | TField | TNested.

Definition delims (st : tstate) (c : ascii) : bool :=
  match st with
  | TInit => Ascii.eqb c "/" || Ascii.eqb c "{"
  | TField => Ascii.eqb c "." || Ascii.eqb c "=" || Ascii.eqb c "}"
  | TNested => Ascii.eqb c "/" || Ascii.eqb c "}"
  end.

Definition tnext (st : tstate) (r : ascii) : tstate :=
  if Ascii.eqb r "{" then TField
  else if Ascii.eqb r "=" then TNested
  else if Ascii.eqb r "}" then TInit
  else st.

Fixpoint tokenize_loop (fuel : nat) (st : tstate) (path : string) (tokens : list string)
  : list string :=
  match fuel with
  | 0 => tokens
  | S fuel =>
      if String.eqb path "" then tokens
      else match index_where (delims st) path with
           | None => tokens ++ [path]
           | Some idx =>
               match str_drop idx path with
               | "" => tokens
               | String r rest =>
                   let tokens :=
                     if Nat.eqb idx 0 then tokens ++ [String r ""]
                     else tokens ++ [str_take idx path; String r ""] in
                   tokenize_loop fuel (tnext st r) rest tokens
               end
           end
  end.

Definition split_verb (tokens : list string) : option (list string * string) :=
  match rev tokens with
  | [] => None
  | t :: init =>
      Some match last_index ":" t with
           | Some 0 => (rev init ++ [eof], str_drop 1 t)
           | Some idx => (rev init ++ [str_take idx t; eof], str_drop (S idx) t)
           | None => (tokens ++ [eof], "")
           end
  end.

(** [None] is the panic of [tokens[l-1]] on an empty slice. *)
Definition tokenize (path : string) : option (list string * string) :=
  if String.eqb path "" then Some ([eof], "")
  else split_verb (tokenize_loop (String.length path) TInit path []).

(** ** Terminals *)
Definition in_range (lo hi c : ascii) : bool :=
  (nat_of_ascii lo <=? nat_of_ascii c) && (nat_of_ascii c <=? nat_of_ascii hi).

Definition isHexDigit (r : ascii) : bool :=
  in_range "0" "9" r || in_range "A" "F" r || in_range "a" "f" r.

Definition is_alnum (r : ascii) : bool :=
  in_range "A" "Z" r || in_range "a" "z" r || in_range "0" "9" r.

Definition one_of (l : string) (r : ascii) : bool := str_has r l.

Inductive pstate := PInit | Pct1 | Pct2.

(** The loop of [expectPChars]; [true] is a nil error. A rune above 127 fails
    in every state, as each of its bytes does here. *)
Fixpoint expectPChars_loop (st : pstate) (t : string) : bool :=
  match t with
  | "" => match st with PInit => true | _ => false end
  | String r t =>
      match st with
      | Pct1 => isHexDigit r && expectPChars_loop Pct2 t
      | Pct2 => isHexDigit r && expectPChars_loop PInit t
      | PInit =>
          if is_alnum r || one_of "-._~" r || one_of "!$&'()*+,;=" r || one_of ":@" r
          then expectPChars_loop PInit t
          else if Ascii.eqb r "%" then expectPChars_loop Pct1 t
          else false
      end
  end.

Definition expectPChars (t : string) : bool := expectPChars_loop PInit t.

Definition ident_char (r : ascii) : bool := is_alnum r || Ascii.eqb r "_".

Definition expectIdent (ident : string) : bool :=
  match ident with
  | "" => false
  | String r rest => negb (in_range "0" "9" r) && ident_char r && str_forall ident_char rest
  end.

(** ** Parser *)
Record parser := Parser { tokens : list string; accepted : list string }.

Inductive perror : Type :=
| NoLeadingSlash
| ExpectedButGot (term t : string)
| ExpectedEOF (t : string)
| BadIdent (t : string)
| BadPChars (t : string)
| UnknownTermType (term : string)
| NeitherSegment (e : perror)
| InvalidSegmentInVariable (path : string) (e : perror)
| UnterminatedVariable (path : string)
| InvalidFieldPath (e : perror)
| UnexpectedToken (t accepted : string).

Inductive pres (A : Type) : Type :=
| POk (a : A) (p : parser)
| PErr (e : perror) (p : parser)
| PPanic
| PFuel.
Arguments POk {A} a p.
Arguments PErr {A} e p.
Arguments PPanic {A}.
Arguments PFuel {A}.

Definition typeIdent : string := "ident".
Definition typeLiteral : string := "literal".
Definition typeEOF : string := "$".

Definition is_symbol (term : string) : bool :=
  bool_decide (term ∈ ["/"; "*"; "**"; "."; "="; "{"; "}"]).

Definition accept (term : string) (p : parser) : pres string :=
  match tokens p with
  | [] => PPanic
  | t :: rest =>
      let ok := POk t (Parser rest (accepted p ++ [t])) in
      if is_symbol term then
        if negb (String.eqb t term) && negb (String.eqb t "/")
        then PErr (ExpectedButGot term t) p else ok
      else if String.eqb term typeEOF then
        if String.eqb t eof then ok else PErr (ExpectedEOF t) p
      else if String.eqb term typeIdent then
        if expectIdent t then ok else PErr (BadIdent t) p
      else if String.eqb term typeLiteral then
        if expectPChars t then ok else PErr (BadPChars t) p
      else PErr (UnknownTermType term) p
  end.

Fixpoint fieldPath_loop (fuel : nat) (components : list string) (p : parser) : pres string :=
  match fuel with
  | 0 => PFuel
  | S fuel =>
      match accept "." p with
      | POk _ p =>
          match accept typeIdent p with
          | POk c p => fieldPath_loop fuel (components ++ [c]) p
          | PErr e p => PErr (InvalidFieldPath e) p
          | PPanic => PPanic
          | PFuel => PFuel
          end
      | PErr _ p => POk (join "." components) p
      | PPanic => PPanic
      | PFuel => PFuel
      end
  end.

Definition fieldPath (p : parser) : pres string :=
  match accept typeIdent p with
  | POk c p => fieldPath_loop (S (length (tokens p))) [c] p
  | PErr e p => PErr e p
  | PPanic => PPanic
  | PFuel => PFuel
  end.

Definition parse_literal (p : parser) : pres segment :=
  match accept typeLiteral p with
  | POk lit p => POk (literal lit) p
  | PErr e p => PErr e p
  | PPanic => PPanic
  | PFuel => PFuel
  end.

Definition close_variable (path : string) (segs : list segment) (p : parser) : pres segment :=
  match accept "}" p with
  | POk _ p => POk (variable path segs) p
  | PErr _ p => PErr (UnterminatedVariable path) p
  | PPanic => PPanic
  | PFuel => PFuel
  end.

(** [segments], its loop, [segment] and [variable] of parse.go. *)
Fixpoint parse_segments (fuel : nat) (p : parser) {struct fuel} : pres (list segment) :=
  match fuel with
  | 0 => PFuel
  | S fuel =>
      match parse_segment fuel p with
      | POk s p => segments_loop fuel [s] p
      | PErr e p => PErr e p
      | PPanic => PPanic
      | PFuel => PFuel
      end
  end
with segments_loop (fuel : nat) (segs : list segment) (p : parser) {struct fuel}
  : pres (list segment) :=
  match fuel with
  | 0 => PFuel
  | S fuel =>
      match accept "/" p with
      | PErr _ p => POk segs p
      | POk _ p =>
          match parse_segment fuel p with
          | POk s p => segments_loop fuel (segs ++ [s]) p
          | PErr e p => PErr e p
          | PPanic => PPanic
          | PFuel => PFuel
          end
      | PPanic => PPanic
      | PFuel => PFuel
      end
  end
with parse_segment (fuel : nat) (p : parser) {struct fuel} : pres segment :=
  match fuel with
  | 0 => PFuel
  | S fuel =>
      match accept "*" p with
      | POk _ p => POk wildcard p
      | PPanic => PPanic
      | PFuel => PFuel
      | PErr _ p =>
          match accept "**" p with
          | POk _ p => POk deepWildcard p
          | PPanic => PPanic
          | PFuel => PFuel
          | PErr _ p =>
              match parse_literal p with
              | POk l p => POk l p
              | PPanic => PPanic
              | PFuel => PFuel
              | PErr _ p =>
                  match parse_variable fuel p with
                  | PErr e p => PErr (NeitherSegment e) p
                  | r => r
                  end
              end
          end
      end
  end
with parse_variable (fuel : nat) (p : parser) {struct fuel} : pres segment :=
  match fuel with
  | 0 => PFuel
  | S fuel =>
      match accept "{" p with
      | PErr e p => PErr e p
      | PPanic => PPanic
      | PFuel => PFuel
      | POk _ p =>
          match fieldPath p with
          | PErr e p => PErr e p
          | PPanic => PPanic
          | PFuel => PFuel
          | POk path p =>
              match accept "=" p with
              | PPanic => PPanic
              | PFuel => PFuel
              | PErr _ p => close_variable path [wildcard] p
              | POk _ p =>
                  match parse_segments fuel p with
                  | PErr e p => PErr (InvalidSegmentInVariable path e) p
                  | PPanic => PPanic
                  | PFuel => PFuel
                  | POk segs p => close_variable path segs p
                  end
              end
          end
      end
  end.

Definition parse_fuel (toks : list string) : nat := 4 * length toks + 4.

Definition topLevelSegments (p : parser) : pres (list segment) :=
  match parse_segments (parse_fuel (tokens p)) p with
  | POk segs p =>
      match accept typeEOF p with
      | POk _ p => POk segs p
      | PErr _ p => PErr (UnexpectedToken (hd "" (tokens p)) (join "" (accepted p))) p
      | PPanic => PPanic
      | PFuel => PFuel
      end
  | r => r
  end.

Record InvalidTemplateError := { err_tmpl : string; err_msg : perror }.

Definition Parse (tmpl : string) : outcome InvalidTemplateError template :=
  if negb (has_prefix tmpl "/") then
    Fail {| err_tmpl := tmpl; err_msg := NoLeadingSlash |}
  else match tokenize (str_drop 1 tmpl) with
       | None => Panic
       | Some (toks, v) =>
           match topLevelSegments (Parser toks []) with
           | POk segs _ => Ret (Template v tmpl segs)
           | PErr e _ => Fail {| err_tmpl := tmpl; err_msg := e |}
           | PPanic | PFuel => Panic
           end
       end.

Example Parse_ex1 :
  Parse "/v1/{name=projects/*}/items:list" =
  Ret (Template "list" "/v1/{name=projects/*}/items:list"
        [literal "v1"; variable "name" [literal "projects"; wildcard]; literal "items"]).
Proof. vm_compute. reflexivity. Qed.

Example Parse_ex2 : Parse "/a//" = Ret (Template "" "/a//" [literal "a"; wildcard]).
Proof. vm_compute. reflexivity. Qed.

(** ** Well-formed segments *)
Definition field_path (path : string) : Prop :=
  exists comps, comps <> [] /\ Forall (fun c => expectIdent c = true) comps /\
                path = join "." comps.

#[warnings="-register-all"]
Inductive seg_ok : segment -> Prop :=
| ok_wildcard : seg_ok wildcard
| ok_deep : seg_ok deepWildcard
| ok_literal l :
    expectPChars l = true -> l ∉ [""; "*"; "**"] -> seg_ok (literal l)
| ok_variable path segs :
    field_path path -> segs <> [] -> Forall seg_ok segs -> seg_ok (variable path segs).

Definition simple (s : segment) : Prop :=
  match s with variable _ _ => False | _ => True end.

Definition flat (s : segment) : Prop :=
  match s with variable _ segs => Forall simple segs | _ => True end.

(** ** Totality and soundness of the parser *)
Definition good (p : parser) : Prop :=
  last (tokens p) = Some eof /\ Forall (fun t => t <> "") (tokens p).

Definition settled {A} (Q : A -> Prop) (n : nat) (r : pres A) : Prop :=
  match r with
  | POk a p => Q a /\ good p /\ length (tokens p) <= n
  | PErr _ _ => True
  | _ => False
  end.

Lemma settled_weaken {A} (Q Q' : A -> Prop) n m (r : pres A) :
  (forall a, Q a -> Q' a) -> n <= m -> settled Q n r -> settled Q' m r.
Proof. intros HQ Hn. destruct r; cbn; naive_solver lia. Qed.

Definition consuming (term : string) : Prop :=
  term ∈ ["/"; "*"; "**"; "."; "="; "{"; "}"; typeIdent; typeLiteral].

Definition accepts (term t : string) : bool :=
  if is_symbol term then String.eqb t term || String.eqb t "/"
  else if String.eqb term typeEOF then String.eqb t eof
  else if String.eqb term typeIdent then expectIdent t
  else if String.eqb term typeLiteral then expectPChars t
  else false.

Lemma accept_cases term p t rest :
  tokens p = t :: rest ->
  (accepts term t = true /\ accept term p = POk t (Parser rest (accepted p ++ [t]))) \/
  (accepts term t = false /\ exists e, accept term p = PErr e p).
Proof.
  intros Ht. unfold accept, accepts. rewrite Ht.
  repeat case_match; simplify_eq; eauto;
    destruct (String.eqb t term), (String.eqb t "/"); simplify_eq/=; eauto.
Qed.

Lemma consuming_not_eof term : consuming term -> accepts term eof = false.
Proof.
  unfold consuming. intros H.
  repeat (apply elem_of_cons in H as [->|H]; [reflexivity|]). by apply not_elem_of_nil in H.
Qed.

Lemma good_cons p : good p -> exists t rest, tokens p = t :: rest.
Proof. intros [Hl _]. destruct (tokens p); [done|eauto]. Qed.

Lemma accept_settled term p :
  good p -> consuming term ->
  (exists t rest, tokens p = t :: rest /\ t <> "" /\ accepts term t = true /\
     good (Parser rest (accepted p ++ [t])) /\
     accept term p = POk t (Parser rest (accepted p ++ [t]))) \/
  (exists e t rest, tokens p = t :: rest /\ accepts term t = false /\
     accept term p = PErr e p).
Proof.
  intros Hg Hc. destruct (good_cons p Hg) as (t & rest & Ht).
  destruct (accept_cases term p t rest Ht) as [[Ha ->]|[Ha [e ->]]]; [left|right; eauto 6].
  exists t, rest. destruct Hg as [Hl Hn]. rewrite Ht in Hl, Hn.
  apply Forall_cons in Hn as [Hn1 Hn2]. split_and!; auto.
  split; [|done]. cbn. destruct rest; [|done]. cbn in Hl. simplify_eq.
  by rewrite consuming_not_eof in Ha.
Qed.

Ltac solve_consuming := unfold consuming; rewrite ?elem_of_cons; auto 12.

(** Case on the outcome of [accept] in the goal. *)
Ltac step_accept Hg :=
  match goal with
  | |- context [accept ?term ?p] =>
      let t := fresh "t" in let rest := fresh "rest" in let Ht := fresh "Ht" in
      let Hn := fresh "Hn" in let Ha := fresh "Ha" in let Hg' := fresh "Hg" in
      let E := fresh "E" in let e := fresh "e" in
      destruct (accept_settled term p Hg ltac:(solve_consuming))
        as [(t & rest & Ht & Hn & Ha & Hg' & E)|(e & t & rest & Ht & Ha & E)];
      rewrite E; clear E
  end.

Lemma fieldPath_loop_settled fuel comps p :
  good p -> length (tokens p) < fuel ->
  comps <> [] -> Forall (fun c => expectIdent c = true) comps ->
  settled field_path (length (tokens p)) (fieldPath_loop fuel comps p).
Proof.
  revert comps p. induction fuel as [|fuel IH]; intros comps p Hg Hf Hne Hc; [lia|]. cbn.
  step_accept Hg; cycle 1.
  { split_and!; [by exists comps|done..]. }
  step_accept Hg0; cycle 1; [done|]. cbn in Ht0. rewrite Ht, Ht0 in *.
  eapply settled_weaken; [done| |apply IH]; cbn in *; [lia|done|lia|by destruct comps|].
  apply Forall_app. by repeat constructor.
Qed.

Lemma fieldPath_settled p :
  good p -> settled field_path (length (tokens p) - 1) (fieldPath p).
Proof.
  intros Hg. unfold fieldPath. step_accept Hg; [|done].
  eapply settled_weaken; [done| |apply fieldPath_loop_settled]; rewrite ?Ht; cbn;
    [lia|done|lia|done|by repeat constructor].
Qed.

Lemma close_variable_settled path segs p n :
  good p -> field_path path -> segs <> [] -> Forall seg_ok segs -> length (tokens p) <= n ->
  settled seg_ok (n - 1) (close_variable path segs p).
Proof.
  intros Hg Hp Hne Hs Hn. unfold close_variable. step_accept Hg; [|done].
  rewrite Ht in Hn. cbn in *. split_and!; [by constructor|apply Hg0..|lia].
Qed.

Definition segs_ok (segs : list segment) : Prop := segs <> [] /\ Forall seg_ok segs.

Lemma parse_segment_settled fuel p :
  good p -> 4 * length (tokens p) + 2 <= S fuel ->
  settled seg_ok (length (tokens p) - 1) (parse_variable fuel p) ->
  settled seg_ok (length (tokens p) - 1) (parse_segment (S fuel) p).
Proof.
  intros Hg Hf Hv. cbn [parse_segment].
  step_accept Hg; [rewrite Ht; cbn; split_and!; [constructor|apply Hg0..|lia]|].
  step_accept Hg; [rewrite Ht0; cbn; split_and!; [constructor|apply Hg0..|lia]|].
  unfold parse_literal. step_accept Hg.
  - rewrite Ht1 in *. simplify_eq. cbn. split_and!; [|apply Hg0..|lia].
    cbn in Ha, Ha0, Ha1. constructor; [done|].
    apply orb_false_iff in Ha as [?%String.eqb_neq _].
    apply orb_false_iff in Ha0 as [?%String.eqb_neq _]. set_solver.
  - destruct (parse_variable fuel p); [|done..]. exact Hv.
Qed.

Lemma parse_variable_settled fuel p :
  (forall q, good q -> 4 * length (tokens q) + 3 <= fuel ->
     settled segs_ok (length (tokens q) - 1) (parse_segments fuel q)) ->
  good p -> 4 * length (tokens p) + 1 <= S fuel ->
  settled seg_ok (length (tokens p) - 1) (parse_variable (S fuel) p).
Proof.
  intros IH Hg Hf. cbn [parse_variable]. step_accept Hg; [|done].
  pose proof (fieldPath_settled _ Hg0) as Hp. cbn [tokens] in Hp.
  destruct (fieldPath _) as [path q|e q| |]; try done. destruct Hp as (Hp & Hq & Hlq).
  rewrite Ht in *. cbn in Hf |- *. step_accept Hq.
  - rewrite Ht0 in Hlq. cbn in Hlq.
    pose proof (IH _ Hg1) as Hs. cbn [tokens] in Hs. specialize (Hs ltac:(lia)).
    destruct (parse_segments _ _) as [segs r|e r| |]; try done.
    destruct Hs as ([Hne Hs] & Hr & Hlr).
    eapply settled_weaken; [done| |by eapply close_variable_settled]. lia.
  - eapply settled_weaken; [done| |eapply (close_variable_settled _ _ _ (length (tokens q)))];
      try done; [lia|by repeat constructor].
Qed.

Lemma parser_settled fuel p :
  good p ->
  (4 * length (tokens p) + 3 <= fuel ->
     settled segs_ok (length (tokens p) - 1) (parse_segments fuel p)) /\
  (forall segs, segs_ok segs -> 4 * length (tokens p) + 4 <= fuel ->
     settled segs_ok (length (tokens p)) (segments_loop fuel segs p)) /\
  (4 * length (tokens p) + 2 <= fuel ->
     settled seg_ok (length (tokens p) - 1) (parse_segment fuel p)) /\
  (4 * length (tokens p) + 1 <= fuel ->
     settled seg_ok (length (tokens p) - 1) (parse_variable fuel p)).
Proof.
  revert p. induction fuel as [|fuel IH]; intros p Hg.
  { split_and!; intros; lia. }
  split_and!.
  - intros Hf. cbn. pose proof (proj1 (proj2 (proj2 (IH p Hg)))) as Hs.
    specialize (Hs ltac:(lia)).
    destruct (parse_segment fuel p) as [s q|e q| |]; try done. destruct Hs as (Hs & Hq & Hlq).
    eapply settled_weaken; [done| |apply (IH q Hq)]; [lia|by repeat constructor|].
    destruct (good_cons p Hg) as (? & ? & Ht). rewrite Ht in *. cbn in *. lia.
  - intros segs [Hne Hso] Hf. cbn. step_accept Hg; [|by repeat split; try apply Hg].
    pose proof (proj1 (proj2 (proj2 (IH _ Hg0)))) as Hs.
    rewrite Ht in *. cbn in Hf, Hs. specialize (Hs ltac:(lia)).
    destruct (parse_segment fuel _) as [s q|e q| |]; try done. destruct Hs as (Hs & Hq & Hlq).
    eapply settled_weaken; [done| |apply (IH q Hq)]; cbn; [lia| |lia].
    split; [by destruct segs|]. apply Forall_app. by repeat constructor.
  - intros Hf. apply parse_segment_settled; [done..|]. apply (IH p Hg). lia.
  - intros Hf. apply parse_variable_settled; [|done..]. intros q Hq. apply (IH q Hq).
Qed.


Lemma topLevelSegments_sound p :
  good p ->
  match topLevelSegments p with
  | POk segs _ => segs_ok segs
  | PErr _ _ => True
  | _ => False
  end.
Proof.
  intros Hg. unfold topLevelSegments, parse_fuel.
  pose proof (proj1 (parser_settled (4 * length (tokens p) + 4) p Hg) ltac:(lia)) as H.
  destruct (parse_segments _ p) as [segs q|e q| |]; try done. destruct H as (Hs & Hq & _).
  destruct (good_cons q Hq) as (t & rest & Ht).
  by destruct (accept_cases typeEOF q t rest Ht) as [[_ ->]|[_ [e ->]]].
Qed.

(** ** The tokenizer as a relation *)
Definition word (w : string) : list string := if String.eqb w "" then [] else [w].

Definition no_delim (st : tstate) (w : string) : Prop :=
  str_forall (fun c => negb (delims st c)) w = true.

Inductive toks : tstate -> string -> list string -> Prop :=
| toks_end st : toks st "" []
| toks_last st w : w <> "" -> no_delim st w -> toks st w [w]
| toks_delim st w c rest ts :
    no_delim st w -> delims st c = true -> toks (tnext st c) rest ts ->
    toks st (w +:+ String c rest) (word w ++ String c "" :: ts).

Lemma tokenize_loop_toks st path ts :
  toks st path ts -> forall fuel acc, String.length path <= fuel ->
  tokenize_loop fuel st path acc = acc ++ ts.
Proof.
  induction 1 as [st|st w Hw Hd|st w c rest ts Hd Hc _ IH]; intros fuel acc Hf.
  - destruct fuel; cbn; by rewrite app_nil_r.
  - destruct fuel; [by destruct w; cbn in *; [|lia]|]. cbn. apply String.eqb_neq in Hw. rewrite Hw.
    by rewrite (proj2 (index_where_none _ _) Hd).
  - rewrite str_length_app in Hf. cbn in Hf. destruct fuel; [lia|]. cbn.
    replace (String.eqb (w +:+ String c rest) "") with false by by destruct w.
    rewrite (index_where_app _ _ _ _ Hd Hc), str_drop_app, IH by lia.
    rewrite str_take_app. unfold word. by destruct w; cbn; rewrite <- app_assoc.
Qed.

Lemma toks_total st path : exists ts, toks st path ts.
Proof.
  remember (String.length path) as n eqn:Hn. revert st path Hn.
  induction (lt_wf n) as [n _ IH]. intros st path Hn.
  destruct (decide (path = "")) as [->|Hne]; [eexists; constructor|].
  destruct (index_where (delims st) path) as [i|] eqn:Hi.
  - apply index_where_some in Hi as (pre & c & post & -> & _ & Hpre & Hc).
    rewrite str_length_app in Hn. cbn in Hn.
    destruct (IH (String.length post) ltac:(lia) (tnext st c) post eq_refl) as [ts Hts].
    eexists. by constructor.
  - apply index_where_none in Hi. eexists. by constructor.
Qed.

Lemma toks_nonempty st path ts : toks st path ts -> Forall (fun t => t <> "") ts.
Proof.
  induction 1; [done|by repeat constructor|].
  apply Forall_app. split; [|by constructor].
  unfold word. destruct (String.eqb_spec w ""); by repeat constructor.
Qed.

Lemma toks_empty st ts : toks st "" ts -> ts = [].
Proof.
  remember "" as path eqn:Hp. destruct 1 as [| |? w]; [done..|]. by destruct w.
Qed.

Lemma toks_nil st path ts : toks st path ts -> path <> "" -> ts <> [].
Proof. intros H. destruct H; [done..|]. by destruct (word w). Qed.

Lemma split_verb_good ts :
  ts <> [] -> Forall (fun t => t <> "") ts ->
  exists ts' v, split_verb ts = Some (ts', v) /\ good (Parser ts' []).
Proof.
  intros Hnil Hno. destruct ts as [|t init _] using rev_ind; [done|].
  apply Forall_app in Hno as [Hno1 Hno2]. unfold split_verb, good.
  rewrite rev_unit, rev_involutive.
  destruct (last_index ":" t) as [[|idx]|] eqn:Hi; do 2 eexists; (split; [done|]); cbn.
  - rewrite last_snoc. split; [done|]. apply Forall_app. by repeat constructor.
  - rewrite last_app. split; [done|].
    apply last_index_some in Hi as (? & _ & _ & _ & Hl).
    rewrite Forall_app. repeat constructor; [done| |done].
    intros He. change (str_take (S idx) t = "") in He. by rewrite He in Hl.
  - rewrite last_app. split; [done|]. rewrite !Forall_app, !Forall_singleton.
    by inversion Hno2.
Qed.

Lemma tokenize_good path :
  exists ts v, tokenize path = Some (ts, v) /\ good (Parser ts []).
Proof.
  unfold tokenize. destruct (String.eqb_spec path "") as [|Hne].
  { do 2 eexists. split; [done|]. split; [done|]. by repeat constructor. }
  destruct (toks_total TInit path) as [ts Hts].
  rewrite (tokenize_loop_toks _ _ _ Hts) by done.
  apply split_verb_good; [by eapply toks_nil|by eapply toks_nonempty].
Qed.

Lemma Parse_outcome tmpl :
  (exists t, Parse tmpl = Ret t /\ segs_ok (segments_of t) /\ template_src t = tmpl) \/
  (exists e, Parse tmpl = Fail e).
Proof.
  unfold Parse. destruct (has_prefix tmpl "/"); cbn [negb]; [|by eauto].
  destruct (tokenize_good (str_drop 1 tmpl)) as (ts & v & -> & Hg).
  pose proof (topLevelSegments_sound _ Hg) as H.
  destruct (topLevelSegments _) as [segs q|e q| |]; [left|right|done..]; eauto.
Qed.

(** ** Parsed variables are not nested

    Inside a variable the tokenizer no longer splits at "{", so a "{" token
    there is never followed by an identifier, and the parser, which would accept
    a variable inside a variable, is never offered one. *)
Definition closers : list string := ["/"; "}"; "."; "="; eof].

Fixpoint no_nested (inside : bool) (ts : list string) : Prop :=
  match ts with
  | [] => True
  | t :: rest =>
      if String.eqb t "}" then no_nested false rest
      else if String.eqb t "{" then
        (inside = true -> hd eof rest ∈ closers) /\ no_nested true rest
      else no_nested inside rest
  end.

Lemma no_nested_weaken ts : no_nested true ts -> no_nested false ts.
Proof.
  induction ts as [|t ts IH]; [done|]. cbn. repeat case_match; [done| |auto].
  by intros [_ ?].
Qed.

Lemma toks_no_nested st path ts :
  toks st path ts -> no_nested (match st with TInit => false | _ => true end) ts.
Proof.
  induction 1 as [st|st w Hw Hd|st w c rest ts Hd Hc Ht IH]; [done| |].
  - cbn. repeat case_match; split; (done || set_solver).
  - assert (no_nested (match st with TInit => false | _ => true end) (String c "" :: ts)) as Hn.
    { destruct st; unfold delims in Hc; rewrite ?orb_true_iff, ?Ascii.eqb_eq in Hc;
        naive_solver. }
    unfold word. destruct (String.eqb_spec w ""); [done|]. cbn [app].
    cbn [no_nested] in Hn |- *. destruct (String.eqb_spec w "}") as [->|].
    { destruct st; [done|discriminate Hd..]. }
    destruct (String.eqb_spec w "{") as [->|]; [|done]. destruct st; [done|..].
    all: split; [intros _; unfold delims in Hc; rewrite ?orb_true_iff, ?Ascii.eqb_eq in Hc;
      cbn; unfold closers; rewrite ?elem_of_cons; naive_solver|done].
Qed.

Lemma no_nested_last b init t t' :
  no_nested b (init ++ [t]) -> (t ∈ closers -> t' = t) -> no_nested b (init ++ [t'; eof]).
Proof.
  intros Hn Ht. revert b Hn. induction init as [|x init IH]; intros b; cbn.
  - intros _. repeat case_match; try done. split; [|done]. intros _. cbn. unfold closers. set_solver.
  - repeat case_match; auto. intros [Hh Hn]. split; [|auto]. intros Hb. specialize (Hh Hb).
    destruct init; cbn in *; [by rewrite Ht|done].
Qed.

Lemma no_nested_drop_last b init t :
  no_nested b (init ++ [t]) -> no_nested b (init ++ [eof]).
Proof.
  revert b. induction init as [|x init IH]; intros b; cbn; [done|].
  repeat case_match; auto. intros [Hh Hn]. split; [|auto]. intros Hb. specialize (Hh Hb).
  destruct init; cbn in *; [unfold closers; set_solver|done].
Qed.

Lemma closers_no_colon t : t ∈ closers -> last_index ":" t = None.
Proof.
  unfold closers. intros H.
  repeat (apply elem_of_cons in H as [->|H]; [reflexivity|]). by apply not_elem_of_nil in H.
Qed.

Lemma tokenize_no_nested path ts v : tokenize path = Some (ts, v) -> no_nested false ts.
Proof.
  unfold tokenize. destruct (String.eqb_spec path "") as [|Hne]; [by intros [= <- <-]|].
  destruct (toks_total TInit path) as [ts' Hts].
  rewrite (tokenize_loop_toks _ _ _ Hts) by done. cbn [app].
  apply toks_no_nested in Hts. destruct ts' as [|t init _] using rev_ind; [done|].
  unfold split_verb. rewrite rev_unit, rev_involutive.
  destruct (last_index ":" t) as [[|idx]|] eqn:Hi; intros [= <- <-].
  - by eapply no_nested_drop_last.
  - eapply no_nested_last; [done|]. intros Hc%closers_no_colon. congruence.
  - rewrite <- app_assoc. by eapply no_nested_last.
Qed.

Definition keeps {A} (Q : A -> Prop) (inside : bool) (r : pres A) : Prop :=
  match r with
  | POk a p => Q a /\ no_nested inside (tokens p)
  | _ => True
  end.

Definition inner_term (term : string) : Prop :=
  term ∈ ["/"; "*"; "**"; "."; "="; typeIdent; typeLiteral].

Lemma accept_keeps term b p :
  inner_term term -> no_nested b (tokens p) -> keeps (fun _ => True) b (accept term p).
Proof.
  intros Hi Hn. destruct (tokens p) as [|t rest] eqn:Ht; [unfold accept; by rewrite Ht|].
  destruct (accept_cases term p t rest Ht) as [[Ha ->]|[_ [e ->]]]; [|done].
  split; [done|]. cbn in Hn |- *.
  destruct (String.eqb_spec t "}") as [->|]; [|destruct (String.eqb_spec t "{") as [->|]; [|done]];
    exfalso; unfold inner_term in Hi; revert Ha;
    repeat (apply elem_of_cons in Hi as [->|Hi]; [done|]); by apply not_elem_of_nil in Hi.
Qed.

Ltac solve_inner := unfold inner_term; rewrite ?elem_of_cons; auto 12.

Lemma fieldPath_keeps p : no_nested true (tokens p) -> keeps (fun _ => True) true (fieldPath p).
Proof.
  unfold fieldPath. intros Hn. pose proof (accept_keeps typeIdent true p ltac:(solve_inner) Hn) as H1.
  destruct (accept typeIdent p) as [c q|? ?| |]; try done. destruct H1 as [_ Hq]. clear Hn p.
  generalize (S (length (tokens q))) as fuel, [c] as comps. intros fuel. revert q Hq.
  induction fuel as [|fuel IH]; intros q Hq comps; [done|]. cbn.
  pose proof (accept_keeps "." true q ltac:(solve_inner) Hq) as H1.
  destruct (tokens q) as [|t rest] eqn:Ht; [unfold accept; by rewrite Ht|].
  destruct (accept_cases "." q t rest Ht) as [[_ E]|[_ [e E]]]; rewrite E in *; cbn in H1.
  - pose proof (accept_keeps typeIdent true (Parser rest (accepted q ++ [t])) ltac:(solve_inner) (proj2 H1)) as H2.
    destruct (accept typeIdent _) as [c' q'|? ?| |]; try done. by apply IH, H2.
  - split; [done|]. by rewrite Ht.
Qed.

Lemma close_variable_keeps path segs p :
  no_nested true (tokens p) -> Forall simple segs -> keeps flat false (close_variable path segs p).
Proof.
  intros Hn Hs. unfold close_variable.
  destruct (tokens p) as [|t rest] eqn:Ht; [unfold accept; by rewrite Ht|].
  destruct (accept_cases "}" p t rest Ht) as [[Ha ->]|[_ [e ->]]]; [|done].
  split; [done|]. cbn in Hn |- *. unfold accepts in Ha. cbn in Ha.
  destruct (String.eqb_spec t "}"); [done|]. destruct (String.eqb_spec t "/") as [->|]; [|done].
  by apply no_nested_weaken.
Qed.

Definition seg_shape (inside : bool) : segment -> Prop := if inside then simple else flat.

Lemma simple_shape b s : simple s -> seg_shape b s.
Proof. destruct b; [done|]. by destruct s. Qed.

Lemma parse_variable_keeps fuel b p :
  (forall q, no_nested true (tokens q) ->
     keeps (Forall (seg_shape true)) true (parse_segments fuel q)) ->
  no_nested b (tokens p) -> hd "" (tokens p) <> "/" ->
  keeps (seg_shape b) b (parse_variable (S fuel) p).
Proof.
  intros IH Hn Hh. cbn [parse_variable].
  destruct (tokens p) as [|t rest] eqn:Ht; [unfold accept; by rewrite Ht|].
  destruct (accept_cases "{" p t rest Ht) as [[Ha ->]|[_ [e ->]]]; [|done].
  unfold accepts in Ha. cbn in Ha, Hh. destruct (String.eqb_spec t "{") as [->|];
    [|by destruct (String.eqb_spec t "/")]. cbn in Hn. destruct Hn as [Hc Hn].
  destruct b.
  { unfold fieldPath. destruct rest as [|t rest]; [done|].
    edestruct (accept_cases typeIdent (Parser (t :: rest) (accepted p ++ ["{"])) t rest eq_refl)
      as [[Ha' _]|[_ [e ->]]]; [|done].
    exfalso. specialize (Hc eq_refl). cbn in Hc. revert Ha'. unfold closers in Hc.
    repeat (apply elem_of_cons in Hc as [->|Hc]; [done|]). by apply not_elem_of_nil in Hc. }
  pose proof (fieldPath_keeps (Parser rest (accepted p ++ ["{"])) Hn) as Hf.
  destruct (fieldPath _) as [path q|e q| |]; try done. destruct Hf as [_ Hq].
  pose proof (accept_keeps "=" true q ltac:(solve_inner) Hq) as H1.
  destruct (tokens q) as [|t' rest'] eqn:Ht'; [unfold accept; by rewrite Ht'|].
  destruct (accept_cases "=" q t' rest' Ht') as [[_ E]|[_ [e E]]]; rewrite E in *; cbn in H1.
  - pose proof (IH (Parser rest' (accepted q ++ [t'])) (proj2 H1)) as H2.
    destruct (parse_segments _ _) as [segs r|? ?| |]; try done.
    destruct H2 as [Hs Hr]. by apply close_variable_keeps.
  - apply close_variable_keeps; [by rewrite Ht'|by repeat constructor].
Qed.

Lemma parse_segment_keeps fuel b p :
  (hd "" (tokens p) <> "/" -> keeps (seg_shape b) b (parse_variable fuel p)) ->
  no_nested b (tokens p) -> keeps (seg_shape b) b (parse_segment (S fuel) p).
Proof.
  intros Hv Hn. cbn [parse_segment].
  destruct (tokens p) as [|t rest] eqn:Ht; [unfold accept; by rewrite Ht|]. rewrite <- Ht in Hn.
  pose proof (accept_keeps "*" b p ltac:(solve_inner) Hn) as H1.
  destruct (accept_cases "*" p t rest Ht) as [[_ E]|[Ha [e E]]]; rewrite E in *; clear E.
  { destruct H1 as [_ ?]. split; [by apply simple_shape|done]. }
  pose proof (accept_keeps "**" b p ltac:(solve_inner) Hn) as H2.
  destruct (accept_cases "**" p t rest Ht) as [[_ E]|[_ [e' E]]]; rewrite E in *; clear E.
  { destruct H2 as [_ ?]. split; [by apply simple_shape|done]. }
  pose proof (accept_keeps typeLiteral b p ltac:(solve_inner) Hn) as H3. unfold parse_literal.
  destruct (accept_cases typeLiteral p t rest Ht) as [[_ E]|[_ [e'' E]]]; rewrite E in *; clear E.
  { destruct H3 as [_ ?]. split; [by apply simple_shape|done]. }
  assert (t <> "/") as Hne.
  { intros ->. unfold accepts in Ha. by cbn in Ha. }
  specialize (Hv Hne). by destruct (parse_variable fuel p).
Qed.

Lemma parser_keeps fuel b p :
  no_nested b (tokens p) ->
  keeps (Forall (seg_shape b)) b (parse_segments fuel p) /\
  (forall segs, Forall (seg_shape b) segs ->
     keeps (Forall (seg_shape b)) b (segments_loop fuel segs p)) /\
  keeps (seg_shape b) b (parse_segment fuel p) /\
  (hd "" (tokens p) <> "/" -> keeps (seg_shape b) b (parse_variable fuel p)).
Proof.
  revert b p. induction fuel as [|fuel IH]; intros b p Hn; [done|]. split_and!.
  - cbn. pose proof (proj1 (proj2 (proj2 (IH b p Hn)))) as Hs.
    destruct (parse_segment fuel p) as [s q|? ?| |]; try done. destruct Hs as [Hs Hq].
    apply (IH b q Hq). by repeat constructor.
  - intros segs Hf. cbn. pose proof (accept_keeps "/" b p ltac:(solve_inner) Hn) as H1.
    destruct (tokens p) as [|t rest] eqn:Ht; [unfold accept; by rewrite Ht|]. rewrite <- Ht in Hn.
    destruct (accept_cases "/" p t rest Ht) as [[_ E]|[_ [e E]]]; rewrite E in *; [|done].
    destruct H1 as [_ H1]. pose proof (proj1 (proj2 (proj2 (IH b (Parser rest (accepted p ++ [t])) H1)))) as Hs.
    destruct (parse_segment fuel _) as [s q|? ?| |]; try done. destruct Hs as [Hs Hq].
    apply (IH b q Hq). apply Forall_app. by repeat constructor.
  - apply parse_segment_keeps; [|done]. apply (IH b p Hn).
  - intros Hh. apply parse_variable_keeps; [|done..]. intros q Hq. apply (IH true q Hq).
Qed.

Lemma Parse_flat tmpl t : Parse tmpl = Ret t -> Forall flat (segments_of t).
Proof.
  unfold Parse. destruct (has_prefix tmpl "/"); cbn [negb]; [|done].
  destruct (tokenize _) as [[ts v]|] eqn:Htok; [|done]. apply tokenize_no_nested in Htok.
  unfold topLevelSegments.
  pose proof (proj1 (parser_keeps (parse_fuel ts) false (Parser ts []) Htok)) as H.
  cbn [tokens]. destruct (parse_segments _ _) as [segs q|? ?| |]; try done.
  destruct H as [Hf _]. destruct (accept typeEOF q); intros [= <-]. done.
Qed.

Lemma Parse_seg_ok tmpl t : Parse tmpl = Ret t -> Forall seg_ok (segments_of t).
Proof.
  intros Hp. destruct (Parse_outcome tmpl) as [(t' & Ht & [_ ?] & _)|[e He]]; congruence.
Qed.

(** ** Round trip: the tokens of a printed template *)
#[local] Arguments accept : simpl never.
#[local] Arguments accepts : simpl never.

Definition dot_toks (comps : list string) : list string :=
  match comps with
  | [] => []
  | c :: cs => c :: concat (map (fun c => ["."; c]) cs)
  end.

Definition slash_toks (ls : list (list string)) : list string :=
  match ls with
  | [] => []
  | l :: ls => l ++ concat (map (cons "/") ls)
  end.

Fixpoint seg_toks (s : segment) : list string :=
  match s with
  | variable path segs =>
      "{" :: dot_toks (split_char "." path) ++ "=" :: slash_toks (map seg_toks segs) ++ ["}"]
  | s => [segment_String s]
  end.

Lemma slash_toks_cons l ls :
  slash_toks (l :: ls) = l ++ match ls with [] => [] | _ => "/" :: slash_toks ls end.
Proof. by destruct ls. Qed.

Lemma toks_word_delim st w c rest ts :
  w <> "" -> no_delim st w -> delims st c = true -> toks (tnext st c) rest ts ->
  toks st (w +:+ String c rest) (w :: String c "" :: ts).
Proof.
  intros Hw Hd Hc Ht. apply String.eqb_neq in Hw.
  pose proof (toks_delim st w c rest ts Hd Hc Ht) as H. unfold word in H. by rewrite Hw in H.
Qed.

Lemma toks_bare_delim st c rest ts :
  delims st c = true -> toks (tnext st c) rest ts -> toks st (String c rest) (String c "" :: ts).
Proof. intros Hc Ht. by apply (toks_delim st "" c rest ts). Qed.

Lemma str_forall_impl (f g : ascii -> bool) s :
  (forall c, f c = true -> g c = true) -> str_forall f s = true -> str_forall g s = true.
Proof.
  intros H. induction s as [|a s IH]; cbn; [done|].
  intros [Ha Hs]%andb_prop. by rewrite (H a), IH.
Qed.

(** No character of an identifier, or of a path segment, is a delimiter there. *)
Definition pchar (c : ascii) : bool :=
  is_alnum c || one_of "-._~" c || one_of "!$&'()*+,;=" c || one_of ":@" c ||
  Ascii.eqb c "%" || isHexDigit c.

Lemma ident_char_delim c : ident_char c = true -> negb (delims TField c) = true.
Proof. by destruct c as [[] [] [] [] [] [] [] []]. Qed.

Lemma pchar_delim st c :
  st <> TField -> pchar c = true -> negb (delims st c) = true.
Proof. intros Hst. destruct st; [|done|]; by destruct c as [[] [] [] [] [] [] [] []]. Qed.

Lemma expectPChars_pchar st l : expectPChars_loop st l = true -> str_forall pchar l = true.
Proof.
  revert st. induction l as [|a l IH]; intros st; [done|]. cbn. unfold pchar at 1.
  destruct st; [|intros [Ha Hl]%andb_prop; rewrite Ha, orb_true_r; by eapply IH..].
  destruct (is_alnum a || one_of "-._~" a || one_of "!$&'()*+,;=" a || one_of ":@" a);
    [by apply IH|].
  destruct (Ascii.eqb a "%"); [by apply IH|done].
Qed.

Lemma ident_field comp : expectIdent comp = true -> comp <> "" /\ no_delim TField comp.
Proof.
  destruct comp as [|a comp]; [done|]. cbn [expectIdent].
  intros [[_ Ha]%andb_prop Hc]%andb_prop. split; [done|].
  unfold no_delim. cbn [str_forall]. rewrite (ident_char_delim a Ha).
  by apply (str_forall_impl _ _ _ ident_char_delim).
Qed.

Lemma simple_no_delim st s :
  seg_ok s -> simple s -> st <> TField ->
  segment_String s <> "" /\ no_delim st (segment_String s).
Proof.
  intros Hs Hsimple Hst. destruct Hs as [| |l Hl Hne|]; [by destruct st..| |done].
  cbn. split; [set_solver|]. unfold no_delim.
  apply (str_forall_impl pchar); [by intros; apply pchar_delim|].
  by apply expectPChars_pchar with PInit.
Qed.

Lemma field_path_split path :
  field_path path -> Forall (fun c => expectIdent c = true) (split_char "." path).
Proof.
  intros (comps & Hne & Hc & ->). rewrite split_join; [done..|].
  eapply Forall_impl; [done|]. intros c Hi. apply ident_field in Hi as [_ Hi].
  unfold str_has. apply negb_false_iff.
  eapply str_forall_impl; [|exact Hi]. intros a. cbn. by destruct (Ascii.eqb a ".").
Qed.

Lemma toks_comps comps rest ts :
  comps <> [] -> Forall (fun c => expectIdent c = true) comps -> toks TNested rest ts ->
  toks TField (join "." comps +:+ String "=" rest) (dot_toks comps ++ "=" :: ts).
Proof.
  intros Hne Hc Ht. destruct comps as [|c cs]; [done|]. clear Hne. cbn [dot_toks].
  revert c Hc. induction cs as [|c' cs IH]; intros c [Hc Hcs]%Forall_cons;
    apply ident_field in Hc as [Hc1 Hc2].
  - by apply toks_word_delim.
  - rewrite join_cons by done. rewrite !str_app_assoc. cbn.
    apply toks_word_delim; [done..|]. by apply IH.
Qed.

Lemma toks_nested segs rest ts :
  segs <> [] -> Forall seg_ok segs -> Forall simple segs -> toks TInit rest ts ->
  toks TNested (join "/" (map segment_String segs) +:+ String "}" rest)
       (slash_toks (map seg_toks segs) ++ "}" :: ts).
Proof.
  intros Hne Hok Hs Ht. induction segs as [|s segs IH]; [done|].
  apply Forall_cons in Hok as [Hok1 Hok]. apply Forall_cons in Hs as [Hs1 Hs].
  destruct (simple_no_delim TNested s Hok1 Hs1 ltac:(done)) as [Hn Hd].
  assert (seg_toks s = [segment_String s]) as Hts by by destruct s.
  cbn [map]. rewrite slash_toks_cons, Hts. destruct segs as [|s' segs].
  - by apply toks_word_delim.
  - rewrite join_cons by done. rewrite !str_app_assoc. cbn [app String.append map].
    apply toks_word_delim; [done..|]. by apply IH.
Qed.

Lemma toks_variable path segs rest ts :
  seg_ok (variable path segs) -> Forall simple segs -> toks TInit rest ts ->
  toks TInit (segment_String (variable path segs) +:+ rest)
       (seg_toks (variable path segs) ++ ts).
Proof.
  inversion 1 as [| | |? ? Hp Hne Hok]; subst. intros Hs Ht.
  cbn [segment_String seg_toks]. rewrite !str_app_assoc. cbn [String.append app].
  apply toks_bare_delim; [done|]. rewrite <- !app_assoc. cbn [app].
  rewrite <- (join_split "." path) at 1.
  apply toks_comps; [apply split_char_nonnil|by apply field_path_split|].
  rewrite <- app_assoc. by apply toks_nested.
Qed.

Definition verb_suffix (v : string) : string := if String.eqb v "" then "" else ":" +:+ v.

Definition last_toks (v : string) (s : segment) : list string :=
  match s with
  | variable _ _ => seg_toks s ++ word v
  | s => [segment_String s +:+ v]
  end.

Fixpoint toks_v (v : string) (segs : list segment) : list string :=
  match segs with
  | [] => []
  | s :: segs =>
      match segs with
      | [] => last_toks v s
      | _ => seg_toks s ++ "/" :: toks_v v segs
      end
  end.

Lemma no_delim_app st w v : no_delim st w -> no_delim st v -> no_delim st (w +:+ v).
Proof. unfold no_delim. rewrite str_forall_app. by intros -> ->. Qed.

Lemma toks_word st v : no_delim st v -> toks st v (word v).
Proof.
  intros Hv. unfold word. destruct (String.eqb_spec v "") as [->|]; by constructor.
Qed.

Lemma toks_init segs v :
  Forall seg_ok segs -> Forall flat segs -> segs <> [] -> no_delim TInit v ->
  toks TInit (join "/" (map segment_String segs) +:+ v) (toks_v v segs).
Proof.
  intros Hok Hf Hne Hv. induction segs as [|s segs IH]; [done|].
  apply Forall_cons in Hok as [Hok1 Hok]. apply Forall_cons in Hf as [Hf1 Hf].
  assert (simple s \/ exists path ss, s = variable path ss) as [Hs|(path & ss & ->)].
  { destruct s; cbn; eauto. }
  - destruct (simple_no_delim TInit s Hok1 Hs ltac:(done)) as [Hn Hd].
    destruct segs as [|s' segs].
    + cbn [map join]. replace (toks_v v [s]) with [segment_String s +:+ v] by by destruct s.
      apply toks_last; [by destruct (segment_String s)|by apply no_delim_app].
    + cbn [map]. rewrite join_cons by done. rewrite !str_app_assoc.
      replace (toks_v v (s :: s' :: segs)) with
        (segment_String s :: "/" :: toks_v v (s' :: segs)) by by destruct s.
      apply toks_word_delim; [done..|]. by apply IH.
  - destruct segs as [|s' segs].
    + apply toks_variable; [done..|]. by apply toks_word.
    + cbn [map]. rewrite join_cons by done. rewrite !str_app_assoc.
      apply toks_variable; [done..|]. apply toks_bare_delim; [done|]. by apply IH.
Qed.

Lemma toks_v_last v segs s :
  exists init, toks_v v (segs ++ [s]) = init ++ last_toks v s /\
               slash_toks (map seg_toks (segs ++ [s])) = init ++ seg_toks s.
Proof.
  induction segs as [|s0 segs (init & IH1 & IH2)]; cbn [app].
  - exists []. cbn. by rewrite app_nil_r.
  - exists (seg_toks s0 ++ "/" :: init). cbn [map]. rewrite slash_toks_cons.
    destruct (segs ++ [s]) as [|s1 ss] eqn:E; [by destruct segs|]. cbn [toks_v map] in *.
    rewrite IH1, IH2, <- !app_assoc. done.
Qed.

Lemma split_verb_snoc init t :
  split_verb (init ++ [t]) =
  Some match last_index ":" t with
       | Some 0 => (init ++ [eof], str_drop 1 t)
       | Some idx => (init ++ [str_take idx t; eof], str_drop (S idx) t)
       | None => (init ++ [t; eof], "")
       end.
Proof.
  unfold split_verb. rewrite rev_unit, rev_involutive, <- app_assoc. cbn [app].
  by destruct (last_index ":" t) as [[|]|].
Qed.

(** The verb is printed back unambiguously: it has no delimiter and no colon,
    and an empty verb does not follow a literal that has a colon. *)
Definition verb_ok (v : string) (segs : list segment) : Prop :=
  no_delim TInit v /\ str_has ":" v = false /\
  (v = "" -> forall l, last segs = Some (literal l) -> str_has ":" l = false).

Lemma split_toks_v v segs :
  segs <> [] -> Forall seg_ok segs -> verb_ok v segs ->
  split_verb (toks_v (verb_suffix v) segs) =
  Some (slash_toks (map seg_toks segs) ++ [eof], v).
Proof.
  intros Hne Hok (_ & Hc & Hl). destruct segs as [|s segs _] using rev_ind; [done|].
  apply Forall_app in Hok as [_ Hok]. rewrite Forall_singleton in Hok.
  rewrite last_snoc in Hl.
  destruct (toks_v_last (verb_suffix v) segs s) as (init & -> & ->). unfold verb_suffix.
  destruct (String.eqb_spec v "") as [->|Hv].
  - destruct s as [| |l|path ss]; cbn [last_toks seg_toks segment_String word String.eqb].
    + by rewrite str_app_nil_r, split_verb_snoc, <- app_assoc.
    + by rewrite str_app_nil_r, split_verb_snoc, <- app_assoc.
    + rewrite str_app_nil_r, split_verb_snoc, <- app_assoc.
      by rewrite (proj2 (last_index_none ":" l) (Hl eq_refl l eq_refl)).
    + rewrite app_nil_r, !app_comm_cons, !(app_assoc _ _ ["}"]), app_assoc, split_verb_snoc.
      by rewrite <- !app_assoc.
  - assert (forall w, w <> "" -> split_verb (init ++ [w +:+ ":" +:+ v]) =
                       Some ((init ++ [w]) ++ [eof], v)) as Hw.
    { intros w Hw. rewrite split_verb_snoc.
      change (w +:+ ":" +:+ v) with (w +:+ String ":" v). rewrite (last_index_app ":" w v Hc).
      destruct (String.length w) as [|n] eqn:En; [by destruct w|].
      rewrite <- En, str_take_app, <- app_assoc. do 2 f_equal.
      replace (S (String.length w)) with (String.length (w +:+ ":")) by
        (rewrite str_length_app; cbn; lia).
      change (String ":" v) with (":" +:+ v). by rewrite <- str_app_assoc, str_drop_app. }
    destruct s as [| |l|path ss]; cbn [last_toks].
    + by apply Hw.
    + by apply Hw.
    + by apply Hw, (simple_no_delim TInit (literal l) Hok I).
    + cbn [word String.eqb String.append]. rewrite app_assoc, split_verb_snoc.
      pose proof (last_index_app ":" "" v Hc) as Hi. cbn [String.append] in Hi. rewrite Hi.
      by rewrite <- app_assoc.
Qed.

(** ** Round trip: the parser on those tokens *)
Definition yields {A} (r : pres A) (a : A) (rest : list string) : Prop :=
  exists acc, r = POk a (Parser rest acc).

Lemma accept_yields term t rest acc :
  accepts term t = true -> yields (accept term (Parser (t :: rest) acc)) t rest.
Proof.
  intros Ha. destruct (accept_cases term (Parser (t :: rest) acc) t rest eq_refl)
    as [[_ ->]|[Ha' _]]; [by eexists|congruence].
Qed.

Lemma accept_rejects term t rest acc :
  accepts term t = false ->
  exists e, accept term (Parser (t :: rest) acc) = PErr e (Parser (t :: rest) acc).
Proof.
  intros Ha. destruct (accept_cases term (Parser (t :: rest) acc) t rest eq_refl)
    as [[Ha' _]|[_ [e ->]]]; [congruence|by eexists].
Qed.

Ltac take_tok Ha :=
  match goal with
  | |- context [accept ?term (Parser (?t :: ?rest) ?acc)] =>
      let acc' := fresh "acc" in let E := fresh "E" in
      destruct (accept_yields term t rest acc Ha) as [acc' E]; rewrite E; clear E
  end.

Ltac skip_tok Ha :=
  match goal with
  | |- context [accept ?term (Parser (?t :: ?rest) ?acc)] =>
      let e := fresh "e" in let E := fresh "E" in
      destruct (accept_rejects term t rest acc Ha) as [e E]; rewrite E; clear E
  end.

Definition stop (l : list string) : Prop :=
  exists t rest, l = t :: rest /\ t <> "/" /\ t <> ".".

Lemma accepts_symbol term t :
  is_symbol term = true -> accepts term t = String.eqb t term || String.eqb t "/".
Proof. unfold accepts. by intros ->. Qed.

Lemma rejects_symbol term t :
  is_symbol term = true -> t <> term -> t <> "/" -> accepts term t = false.
Proof.
  intros Hs H1%String.eqb_neq H2%String.eqb_neq. by rewrite accepts_symbol, H1, H2.
Qed.

Lemma stop_slash t : t <> "/" -> accepts "/" t = false.
Proof. by intros; apply rejects_symbol. Qed.

Lemma stop_dot t : t <> "/" -> t <> "." -> accepts "." t = false.
Proof. by intros; apply rejects_symbol. Qed.

Lemma fieldPath_loop_yields fuel comps cs rest acc :
  stop rest -> length cs < fuel -> Forall (fun c => expectIdent c = true) cs ->
  yields (fieldPath_loop fuel comps
            (Parser (concat (map (fun c => ["."; c]) cs) ++ rest) acc))
         (join "." (comps ++ cs)) rest.
Proof.
  intros (t & rest' & -> & Hs & Hd). revert fuel comps acc.
  induction cs as [|c cs IH]; intros [|fuel] comps acc Hf Hc; try (cbn in Hf; lia).
  - cbn. skip_tok (stop_dot t Hs Hd). rewrite app_nil_r. by eexists.
  - apply Forall_cons in Hc as [Hc Hcs]. cbn [map concat app fieldPath_loop].
    take_tok (eq_refl : accepts "." "." = true). take_tok (Hc : accepts typeIdent c = true).
    rewrite (cons_middle c comps cs), app_assoc. apply IH; cbn in *; [lia|done].
Qed.

Lemma fieldPath_yields path rest acc :
  stop rest -> field_path path ->
  yields (fieldPath (Parser (dot_toks (split_char "." path) ++ rest) acc)) path rest.
Proof.
  intros Hr Hp. pose proof (field_path_split path Hp) as Hc.
  pose proof (join_split "." path) as Hj.
  destruct (split_char "." path) as [|c cs] eqn:Ecs; [by apply split_char_nonnil in Ecs|].
  apply Forall_cons in Hc as [Hc Hcs]. unfold fieldPath. cbn [dot_toks app].
  take_tok (Hc : accepts typeIdent c = true).
  rewrite <- Hj. apply (fieldPath_loop_yields _ [c]); [done| |done].
  cbn [tokens]. rewrite length_app. clear. induction cs; cbn in *; lia.
Qed.

Definition parses (need : segment -> nat) (s : segment) : Prop :=
  forall fuel rest acc, need s <= fuel -> stop rest \/ (exists r, rest = "/" :: r) ->
  yields (parse_segment fuel (Parser (seg_toks s ++ rest) acc)) s rest.

Lemma segments_loop_yields need n fuel segs ss rest acc :
  stop rest -> Forall (parses need) ss -> Forall (fun s => need s <= n) ss ->
  n + length ss + 1 <= fuel ->
  yields (segments_loop fuel segs
            (Parser (concat (map (cons "/") (map seg_toks ss)) ++ rest) acc))
         (segs ++ ss) rest.
Proof.
  intros Hr. revert fuel segs acc.
  induction ss as [|s ss IH]; intros [|fuel] segs acc Hp Hn Hf; try lia.
  - destruct Hr as (t & rest' & -> & Hs & _). cbn.
    skip_tok (stop_slash t Hs). rewrite app_nil_r. by eexists.
  - apply Forall_cons in Hp as [Hp Hps]. apply Forall_cons in Hn as [Hn Hns].
    cbn [map concat app segments_loop length] in *. take_tok (eq_refl : accepts "/" "/" = true).
    rewrite <- app_assoc. edestruct Hp as [acc' ->].
    + lia.
    + destruct ss as [|s' ss]; [by left|right; by eexists].
    + rewrite (cons_middle s segs ss), app_assoc. apply IH; [done..|lia].
Qed.

Lemma parse_segments_yields need n fuel ss rest acc :
  ss <> [] -> stop rest -> Forall (parses need) ss -> Forall (fun s => need s <= n) ss ->
  n + length ss + 1 <= fuel ->
  yields (parse_segments fuel (Parser (slash_toks (map seg_toks ss) ++ rest) acc)) ss rest.
Proof.
  intros Hne Hr Hp Hn Hf. destruct ss as [|s ss]; [done|]. destruct fuel; [lia|].
  apply Forall_cons in Hp as [Hp Hps]. apply Forall_cons in Hn as [Hn Hns].
  cbn [map slash_toks parse_segments length] in *. rewrite <- app_assoc.
  edestruct Hp as [acc' ->].
  - lia.
  - destruct ss as [|s' ss]; [by left|right; by eexists].
  - by apply (segments_loop_yields need n _ [s]); [..|lia].
Qed.

Definition need (s : segment) : nat :=
  match s with variable _ segs => length segs + 4 | _ => 1 end.

Lemma accepts_literal_sym l sym :
  seg_ok (literal l) -> sym ∈ ["*"; "**"; "{"] -> accepts sym l = false.
Proof.
  inversion 1 as [| |? Hp Hl|]; subst. rewrite !elem_of_cons, elem_of_nil. intros Hs.
  apply rejects_symbol; [by destruct Hs as [->|[->|[->|[]]]]| |by intros ->].
  intros ->. destruct Hs as [->|[->|[->|[]]]]; [set_solver..|done].
Qed.

Lemma parses_simple s : seg_ok s -> simple s -> parses need s.
Proof.
  intros Hok Hs [|fuel] rest acc Hf _; destruct s as [| |l|]; cbn in *; try lia; try done.
  - take_tok (eq_refl : accepts "*" "*" = true). by eexists.
  - skip_tok (eq_refl : accepts "*" "**" = false).
    take_tok (eq_refl : accepts "**" "**" = true). by eexists.
  - skip_tok (accepts_literal_sym l "*" Hok ltac:(set_solver)).
    skip_tok (accepts_literal_sym l "**" Hok ltac:(set_solver)).
    unfold parse_literal. inversion Hok; subst.
    take_tok (ltac:(done) : accepts typeLiteral l = true). by eexists.
Qed.

Lemma parses_flat s : seg_ok s -> flat s -> parses need s.
Proof.
  destruct s as [| |l|path segs]; [by intros; apply parses_simple..|].
  inversion 1 as [| | |? ? Hp Hne Hok]; subst. cbn [flat]. intros Hs.
  intros [|[|fuel]] rest acc Hf _; cbn [need] in Hf; try lia.
  cbn [seg_toks parse_segment app]. skip_tok (eq_refl : accepts "*" "{" = false).
  skip_tok (eq_refl : accepts "**" "{" = false). unfold parse_literal.
  skip_tok (eq_refl : accepts typeLiteral "{" = false). cbn [parse_variable].
  take_tok (eq_refl : accepts "{" "{" = true). rewrite <- !app_assoc. cbn [app].
  edestruct (fieldPath_yields path) as [acc' ->]; [by repeat eexists|done|].
  take_tok (eq_refl : accepts "=" "=" = true). rewrite <- app_assoc. cbn [app].
  edestruct (parse_segments_yields need 1 fuel segs ("}" :: rest)) as [acc'' ->];
    [done|by repeat eexists| | |lia|].
  - rewrite Forall_forall in Hok, Hs |- *. intros s Hin. apply parses_simple; auto.
  - eapply Forall_impl; [exact Hs|]. by intros [].
  - unfold close_variable. take_tok (eq_refl : accepts "}" "}" = true). by eexists.
Qed.

Lemma slash_toks_length ss s :
  s ∈ ss -> length (seg_toks s) + length ss <= length (slash_toks (map seg_toks ss)) + 1.
Proof.
  assert (forall s, 1 <= length (seg_toks s)) as H1 by by (intros []; cbn; lia).
  assert (forall ss, 2 * length ss <= length (concat (map (cons "/") (map seg_toks ss)))) as H2.
  { intros l. induction l as [|a l IH]; cbn; [lia|]. rewrite length_app. pose proof (H1 a). lia. }
  destruct ss as [|a ss]; [by intros ?%not_elem_of_nil|]. cbn. rewrite length_app.
  intros [->|Hs]%elem_of_cons; [pose proof (H2 ss); lia|].
  enough (length (seg_toks s) + length ss <=
          length (concat (map (cons "/") (map seg_toks ss)))) by (pose proof (H1 a); lia).
  induction ss as [|b ss IH]; [by apply not_elem_of_nil in Hs|]. cbn. rewrite length_app.
  apply elem_of_cons in Hs as [->|Hs]; [pose proof (H2 ss); lia|].
  pose proof (H1 b). specialize (IH Hs). lia.
Qed.

Lemma slash_toks_length_ge ss : length ss <= length (slash_toks (map seg_toks ss)).
Proof.
  destruct ss as [|s ss]; cbn; [lia|]. pose proof (slash_toks_length (s :: ss) s ltac:(left)).
  assert (1 <= length (seg_toks s)) by (destruct s; cbn; lia). cbn in *. lia.
Qed.

Lemma seg_toks_length s : need s <= 4 * length (seg_toks s).
Proof.
  destruct s as [| |l|path segs]; cbn; [lia..|]. rewrite !length_app. cbn.
  rewrite length_app. pose proof (slash_toks_length_ge segs). cbn. lia.
Qed.

(** ** Properties *)

(** C34: [Parse] is total: on every template string it returns a template or an
    [InvalidTemplateError], and never indexes its token slice out of range nor
    loops. A returned template keeps the source string, has at least one
    segment, and each literal is a non-empty string of RFC 3986 pchars other
    than a wildcard, each variable a dotted path of identifiers over at least
    one segment, none of them a variable in turn. *)
Theorem Parse_total tmpl :
  match Parse tmpl with
  | Ret t => template_src t = tmpl /\ segments_of t <> [] /\ Forall seg_ok (segments_of t) /\
             Forall flat (segments_of t)
  | Fail e => err_tmpl e = tmpl
  | Panic => False
  end.
Proof.
  destruct (Parse_outcome tmpl) as [(t & Ht & [? ?] & ?)|[e He]].
  - rewrite Ht. split_and!; try done. by eapply Parse_flat.
  - rewrite He. unfold Parse in He.
    repeat case_match; by simplify_eq.
Qed.

Definition printable (t : template) : Prop :=
  segments_of t <> [] /\ Forall seg_ok (segments_of t) /\ Forall flat (segments_of t) /\
  verb_ok (verb t) (segments_of t).

(** C2: printing a template and parsing the result gives the template back: a
    template whose variables hold no nested variable, and whose verb is free of
    the characters the tokenizer splits on, is what [Parse] returns on its own
    [String()]. *)
Theorem Parse_String t :
  printable t ->
  Parse (template_String t) = Ret (Template (verb t) (template_String t) (segments_of t)).
Proof.
  intros (Hne & Hok & Hf & Hv). unfold Parse.
  set (body := join "/" (map segment_String (segments_of t)) +:+ verb_suffix (verb t)).
  assert (template_String t = "/" +:+ body) as ->.
  { unfold template_String, body, verb_suffix.
    destruct (String.eqb_spec (verb t) ""); by rewrite ?str_app_nil_r. }
  replace (has_prefix ("/" +:+ body) "/") with true by by rewrite has_prefix_app.
  cbn [negb str_drop String.append].
  assert (no_delim TInit (verb_suffix (verb t))) as Hvs.
  { unfold verb_suffix. destruct Hv as [Hv _]. by case_match. }
  pose proof (toks_init _ _ Hok Hf Hne Hvs) as Ht. fold body in Ht.
  unfold tokenize. destruct (String.eqb_spec body "") as [He|_].
  { rewrite He in Ht. pose proof (split_toks_v _ _ Hne Hok Hv) as Hsv.
    by rewrite (toks_empty _ _ Ht) in Hsv. }
  rewrite (tokenize_loop_toks _ _ _ Ht) by done. cbn [app].
  rewrite (split_toks_v _ _ Hne Hok Hv). unfold topLevelSegments, parse_fuel. cbn [tokens].
  set (ss := segments_of t) in *. set (M := length (slash_toks (map seg_toks ss))).
  edestruct (parse_segments_yields need (4 * (M + 1 - length ss))
               (4 * length (slash_toks (map seg_toks ss) ++ [eof]) + 4) ss [eof]) as [acc ->].
  - done.
  - by repeat eexists.
  - rewrite Forall_forall in Hok, Hf |- *. intros s Hs. apply parses_flat; auto.
  - apply Forall_forall. intros s Hs. pose proof (seg_toks_length s).
    pose proof (slash_toks_length ss s Hs). fold M in H0. lia.
  - rewrite length_app. fold M. cbn. pose proof (slash_toks_length_ge ss). fold M in H. lia.
  - by take_tok (eq_refl : accepts typeEOF eof = true).
Qed.

(** The template [/v1/{name=projects/*}:get] satisfies the hypothesis. *)
Definition ex_template : template :=
  Template "get" "" [literal "v1"; variable "name" [literal "projects"; wildcard]].

Lemma ex_template_printable : printable ex_template.
Proof.
  split_and!; [done| |by repeat constructor|split_and!; [done..|by intros [=]]].
  repeat constructor; try (by apply not_elem_of_cons; set_solver); [|done].
  exists ["name"]. by repeat constructor.
Qed.

Lemma Parse_String_witness :
  printable ex_template /\
  Parse "/v1/{name=projects/*}:get" =
    Ret (Template "get" "/v1/{name=projects/*}:get" (segments_of ex_template)).
Proof. split; [apply ex_template_printable|apply (Parse_String ex_template), ex_template_printable]. Defined.
