(* ===== verification/HttpPattern.v ===== *)
(** * Compiled path patterns: src/api/router/util/{compile,pattern,runtime}.go

    [Compile] lowers a template to a flat program over a constant pool,
    [NewPattern] validates such a program (stack discipline, pool indices, at
    most one deep wildcard) and [Match] runs it as a stack machine on the
    components of a request path. The specification [segs_match] says directly
    which component lists a template matches and what its variables capture;
    [Match_refines] relates the two. *)
From S2P Require Import Prelude GoStrings HttpRule.

(** ** Op codes (pattern.go) *)
Inductive OpCode :=
| OpNop | OpPush | OpLitPush | OpPushM | OpConcatN | OpCapture | OpEnd
| OpInvalid (z : Z).

Definition OpCode_int (c : OpCode) : Z :=
  match c with
  | OpNop => 0 | OpPush => 1 | OpLitPush => 2 | OpPushM => 3
  | OpConcatN => 4 | OpCapture => 5 | OpEnd => 6 | OpInvalid z => z
  end.

Definition int_OpCode (z : Z) : OpCode :=
  match z with
  | 0%Z => OpNop | 1%Z => OpPush | 2%Z => OpLitPush | 3%Z => OpPushM
  | 4%Z => OpConcatN | 5%Z => OpCapture | 6%Z => OpEnd | _ => OpInvalid z
  end.

(** ** compile.go *)
Record op := Op { str : string; code : OpCode; operand : Z }.

Fixpoint segment_compile (s : segment) : list op :=
  match s with
  | wildcard => [Op "" OpPush 0]
  | deepWildcard => [Op "" OpPushM 0]
  | literal l => [Op l OpLitPush 0]
  | variable path segs =>
      concat (map segment_compile segs) ++
      [Op "" OpConcatN (Z.of_nat (length segs)); Op path OpCapture 0]
  end.

Record Template' := mkTemplate {
  Verb : string;
  Template_ : string;
  OpCodes : list Z;
  Pool : list string;
  Fields : list string;
  Version : Z;
}.

Record cstate := CState {
  c_ops : list Z;
  c_pool : list string;
  c_fields : list string;
  c_consts : gmap string nat;
}.

(** One iteration of the loop over [rawOps]. *)
Definition compile_op (st : cstate) (o : op) : cstate :=
  let st1 :=
    if String.eqb (str o) "" then
      CState (c_ops st ++ [OpCode_int (code o); operand o]) (c_pool st) (c_fields st) (c_consts st)
    else match c_consts st !! str o with
         | Some i =>
             CState (c_ops st ++ [OpCode_int (code o); Z.of_nat i])
                    (c_pool st) (c_fields st) (c_consts st)
         | None =>
             let i := length (c_pool st) in
             CState (c_ops st ++ [OpCode_int (code o); Z.of_nat i])
                    (c_pool st ++ [str o]) (c_fields st) (<[str o := i]> (c_consts st))
         end in
  match code o with
  | OpCapture => CState (c_ops st1) (c_pool st1) (c_fields st1 ++ [str o]) (c_consts st1)
  | _ => st1
  end.

Definition opcodeVersion : Z := 1.

Definition Compile (t : template) : Template' :=
  let rawOps := concat (map segment_compile (segments_of t)) in
  let st := foldl compile_op (CState [] [] [] ∅) rawOps in
  mkTemplate (verb t) (template_src t) (c_ops st) (c_pool st) (c_fields st) opcodeVersion.

(** ** runtime.go: patterns *)
Record rop := Rop { r_code : OpCode; r_operand : Z }.

Record Pattern := mkPattern {
  p_verb : string;
  p_ops : list rop;
  p_pool : list string;
  p_vars : list string;
  p_stacksize : Z;
  p_tailLen : nat;
  p_assumeColonVerb : bool;
}.

Record nstate := NState {
  n_typedOps : list rop;
  n_stack : Z;
  n_maxstack : Z;
  n_tailLen : nat;
  n_pushMSeen : bool;
  n_vars : list string;
}.

Definition push_op (o : rop) (stack : Z) (tailLen : nat) (seen : bool) (vars : list string)
    (st : nstate) : nstate :=
  NState (n_typedOps st ++ [o]) stack (Z.max (n_maxstack st) stack) tailLen seen vars.

Definition tail_inc (st : nstate) : nat :=
  if n_pushMSeen st then S (n_tailLen st) else n_tailLen st.

Definition in_pool (pool : list string) (i : Z) : bool :=
  (0 <=? i)%Z && (i <? Z.of_nat (length pool))%Z.

(** The body of NewPattern's loop; [None] is [ErrInvalidPattern]. *)
Definition new_op (pool : list string) (st : nstate) (o : rop) : option nstate :=
  match r_code o with
  | OpNop => Some st
  | OpPush => Some (push_op o (n_stack st + 1) (tail_inc st) (n_pushMSeen st) (n_vars st) st)
  | OpPushM =>
      if n_pushMSeen st then None
      else Some (push_op o (n_stack st + 1) (n_tailLen st) true (n_vars st) st)
  | OpLitPush =>
      if negb (in_pool pool (r_operand o)) then None
      else Some (push_op o (n_stack st + 1) (tail_inc st) (n_pushMSeen st) (n_vars st) st)
  | OpConcatN =>
      if (r_operand o <=? 0)%Z then None
      else if (n_stack st - r_operand o <? 0)%Z then None
      else Some (push_op o (n_stack st - r_operand o + 1) (n_tailLen st) (n_pushMSeen st)
                         (n_vars st) st)
  | OpCapture =>
      match (if in_pool pool (r_operand o) then pool !! Z.to_nat (r_operand o) else None) with
      | None => None
      | Some v =>
          if (n_stack st - 1 <? 0)%Z then None
          else Some (push_op (Rop OpCapture (Z.of_nat (length (n_vars st)))) (n_stack st - 1)
                             (n_tailLen st) (n_pushMSeen st) (n_vars st ++ [v]) st)
      end
  | OpEnd | OpInvalid _ => None
  end.

Fixpoint new_loop (pool : list string) (st : nstate) (ops : list Z) : option nstate :=
  match ops with
  | c :: x :: ops =>
      match new_op pool st (Rop (int_OpCode c) x) with
      | Some st => new_loop pool st ops
      | None => None
      end
  | _ => Some st
  end.

Definition NewPattern (version : Z) (ops : list Z) (pool : list string) (vb : string)
    (assumeColonVerb : bool) : option Pattern :=
  if negb (version =? 1)%Z then None
  else if negb (Nat.eqb (length ops mod 2) 0) then None
  else match new_loop pool (NState [] 0 0 0 false []) ops with
       | Some st =>
           Some (mkPattern vb (n_typedOps st) pool (n_vars st) (n_maxstack st)
                           (n_tailLen st) assumeColonVerb)
       | None => None
       end.

(** ** runtime.go: [Match] *)
Inductive match_error := ErrNotMatch.

Record mstate := MState { m_pos : nat; m_stack : list string; m_captured : list string }.

Definition exec_op (p : Pattern) (components : list string) (st : mstate) (o : rop)
  : outcome match_error mstate :=
  match r_code o with
  | OpNop | OpEnd | OpInvalid _ => Ret st
  | OpPush | OpLitPush =>
      match components !! m_pos st with
      | None => Fail ErrNotMatch
      | Some c =>
          let ok := Ret (MState (S (m_pos st)) (m_stack st ++ [c]) (m_captured st)) in
          match r_code o with
          | OpLitPush =>
              match (if (r_operand o <? 0)%Z then None else p_pool p !! Z.to_nat (r_operand o)) with
              | None => Panic
              | Some lit => if String.eqb c lit then ok else Fail ErrNotMatch
              end
          | _ => ok
          end
      end
  | OpPushM =>
      if length components <? m_pos st + p_tailLen p then Fail ErrNotMatch
      else
        let e := length components - p_tailLen p in
        Ret (MState e
               (m_stack st ++ [join "/" (take (e - m_pos st) (drop (m_pos st) components))])
               (m_captured st))
  | OpConcatN =>
      let l := (Z.of_nat (length (m_stack st)) - r_operand o)%Z in
      if (l <? 0)%Z || (Z.of_nat (length (m_stack st)) <? l)%Z then Panic
      else
        let l := Z.to_nat l in
        Ret (MState (m_pos st) (take l (m_stack st) ++ [join "/" (drop l (m_stack st))])
                    (m_captured st))
  | OpCapture =>
      match last (m_stack st) with
      | None => Panic
      | Some v =>
          if (0 <=? r_operand o)%Z && (r_operand o <? Z.of_nat (length (m_captured st)))%Z
          then Ret (MState (m_pos st) (take (length (m_stack st) - 1) (m_stack st))
                           (<[Z.to_nat (r_operand o) := v]> (m_captured st)))
          else Panic
      end
  end.

Fixpoint exec (p : Pattern) (components : list string) (st : mstate) (ops : list rop)
  : outcome match_error mstate :=
  match ops with
  | [] => Ret st
  | o :: ops => st <-! exec_op p components st o; exec p components st ops
  end.

Fixpoint add_to_last (suffix : string) (l : list string) : list string :=
  match l with
  | [] => []
  | [x] => [x +:+ suffix]
  | x :: l => x :: add_to_last suffix l
  end.

(** [Match]'s treatment of a verb other than the pattern's. *)
Definition match_components (p : Pattern) (components : list string) (vb : string)
  : option (list string) :=
  if negb (String.eqb (p_verb p) vb) then
    if p_assumeColonVerb p || negb (String.eqb (p_verb p) "") then None
    else match components with
         | [] => Some [":" +:+ vb]
         | _ => Some (add_to_last (":" +:+ vb) components)
         end
  else Some components.

(** [bindings[p.vars[i]] = val], in order: a later capture of the same name wins. *)
Fixpoint bind_vars (vars vals : list string) (acc : gmap string string)
  : outcome match_error (gmap string string) :=
  match vals with
  | [] => Ret acc
  | v :: vals =>
      match vars with
      | [] => Panic
      | x :: vars => bind_vars vars vals (<[x := v]> acc)
      end
  end.

Definition Match (p : Pattern) (components : list string) (vb : string)
  : outcome match_error (gmap string string) :=
  match match_components p components vb with
  | None => Fail ErrNotMatch
  | Some components =>
      st <-! exec p components (MState 0 [] (replicate (length (p_vars p)) "")) (p_ops p);
      if m_pos st <? length components then Fail ErrNotMatch
      else bind_vars (p_vars p) (m_captured st) ∅
  end.

(** What the routers do with a template: Parse, Compile, NewPattern with verb "". *)
Definition pattern_of (t : template) : option Pattern :=
  let tpl := Compile t in NewPattern (Version tpl) (OpCodes tpl) (Pool tpl) "" true.

Example Match_ex1 :
  (p ← pattern_of (Template "" "" [literal "v1"; variable "name" [literal "p"; deepWildcard]; literal "x"]);
   Some (Match p ["v1"; "p"; "a"; "b"; "x"] "")) = Some (Ret {["name" := "p/a/b"]}).
Proof. vm_compute. reflexivity. Qed.

(** ** Specification: which component lists a template matches

    [seg_match s cs v bs]: segment [s] consumes the components [cs], stands for
    the string [v], and binds [bs], the captures in left-to-right order. *)
Inductive seg_match : segment -> list string -> string -> list (string * string) -> Prop :=
| m_wildcard c : seg_match wildcard [c] c []
| m_deepWildcard cs : seg_match deepWildcard cs (join "/" cs) []
| m_literal l : seg_match (literal l) [l] l []
| m_variable path segs cs vs bs :
    segs_match segs cs vs bs ->
    seg_match (variable path segs) cs (join "/" vs) (bs ++ [(path, join "/" vs)])
with segs_match : list segment -> list string -> list string -> list (string * string) -> Prop :=
| ms_nil : segs_match [] [] [] []
| ms_cons s segs cs1 cs2 v vs bs1 bs2 :
    seg_match s cs1 v bs1 -> segs_match segs cs2 vs bs2 ->
    segs_match (s :: segs) (cs1 ++ cs2) (v :: vs) (bs1 ++ bs2).

(** The map of a capture list: the last capture of a name wins. *)
Definition bindings (bs : list (string * string)) : gmap string string :=
  foldl (fun m b => <[b.1 := b.2]> m) ∅ bs.

Fixpoint total (l : list nat) : nat :=
  match l with [] => 0 | n :: l => n + total l end.

Fixpoint count_deep (s : segment) : nat :=
  match s with
  | deepWildcard => 1
  | variable _ segs => total (map count_deep segs)
  | _ => 0
  end.

Definition deep_in (segs : list segment) : nat := total (map count_deep segs).

Fixpoint leaves (s : segment) : nat :=
  match s with
  | deepWildcard => 0
  | variable _ segs => total (map leaves segs)
  | _ => 1
  end.

Definition leaves_in (segs : list segment) : nat := total (map leaves segs).

(** Components with a fixed place after the deep wildcard. *)
Fixpoint tail_from (tail1 : segment -> nat) (segs : list segment) : nat :=
  match segs with
  | [] => 0
  | s :: segs =>
      if Nat.eqb (count_deep s) 0 then tail_from tail1 segs else tail1 s + leaves_in segs
  end.

Fixpoint tail_of (s : segment) : nat :=
  match s with
  | variable _ segs => tail_from tail_of segs
  | _ => 0
  end.

Definition tail_in (segs : list segment) : nat := tail_from tail_of segs.

(** The machine without its program, stack and pool: segments are run from the
    left on the remaining components, a deep wildcard leaving exactly [T]. *)
Definition run_result : Type := string * list (string * string) * list string.

Fixpoint run_list (run1 : segment -> list string -> option run_result)
    (segs : list segment) (rem : list string)
  : option (list string * list (string * string) * list string) :=
  match segs with
  | [] => Some ([], [], rem)
  | s :: segs =>
      match run1 s rem with
      | None => None
      | Some (v, bs1, rem) =>
          match run_list run1 segs rem with
          | None => None
          | Some (vs, bs2, rem) => Some (v :: vs, bs1 ++ bs2, rem)
          end
      end
  end.

Fixpoint run_seg (T : nat) (s : segment) (rem : list string) : option run_result :=
  match s with
  | wildcard => match rem with c :: rem => Some (c, [], rem) | [] => None end
  | literal l =>
      match rem with
      | c :: rem => if String.eqb c l then Some (c, [], rem) else None
      | [] => None
      end
  | deepWildcard =>
      if length rem <? T then None
      else Some (join "/" (take (length rem - T) rem), [], drop (length rem - T) rem)
  | variable path segs =>
      match run_list (run_seg T) segs rem with
      | None => None
      | Some (vs, bs, rem) => Some (join "/" vs, bs ++ [(path, join "/" vs)], rem)
      end
  end.

Definition run_segs (T : nat) := run_list (run_seg T).

(** Induction over segments with their nested lists. *)
Lemma segment_nested_ind (P : segment -> Prop) :
  P wildcard -> P deepWildcard -> (forall l, P (literal l)) ->
  (forall path segs, Forall P segs -> P (variable path segs)) -> forall s, P s.
Proof.
  intros Hw Hd Hl Hv. fix IH 1. intros [| |l|path segs]; [done..|apply Hl|].
  apply Hv. induction segs as [|s segs IHs]; constructor; [apply IH|apply IHs].
Qed.

(** *** Running agrees with the specification *)

(** What a run means, given the components [k] that later segments need. *)
Definition run_sound (T k n_deep n_leaves n_tail : nat) (rem rem' : list string)
    (spec : list string -> Prop) : Prop :=
  exists cs, rem = cs ++ rem' /\ spec cs /\ (n_deep = 0 -> length cs = n_leaves) /\
             (n_deep = 1 -> T = n_tail + k -> length rem' = k).

Lemma run_list_sound T segs :
  Forall (fun s => forall k rem v bs rem', run_seg T s rem = Some (v, bs, rem') ->
            run_sound T k (count_deep s) (leaves s) (tail_of s) rem rem'
              (fun cs => seg_match s cs v bs)) segs ->
  forall k rem vs bs rem', run_list (run_seg T) segs rem = Some (vs, bs, rem') ->
  run_sound T k (deep_in segs) (leaves_in segs) (tail_in segs) rem rem'
    (fun cs => segs_match segs cs vs bs).
Proof.
  unfold deep_in, leaves_in, tail_in.
  induction 1 as [|s segs Hs _ IH]; intros k rem vs bs rem' Hr; cbn in Hr |- *.
  - simplify_eq. exists []. split_and!; [done|constructor|done|lia].
  - destruct (run_seg T s rem) as [[[v bs1] rem1]|] eqn:H1; [|done].
    destruct (run_list _ segs rem1) as [[[vs2 bs2] rem2]|] eqn:H2; simplify_eq.
    destruct (IH k _ _ _ _ H2) as (cs2 & -> & Hm2 & Hl2 & Ht2).
    destruct (Hs (leaves_in segs + k) _ _ _ _ H1) as (cs1 & -> & Hm1 & Hl1 & Ht1).
    exists (cs1 ++ cs2). unfold leaves_in in *. rewrite <- app_assoc.
    split_and!; [done|by constructor| |].
    + intros Hd. rewrite length_app, Hl1, Hl2; lia.
    + intros Hd HT. destruct (Nat.eqb_spec (count_deep s) 0) as [Hz|Hz]; [apply Ht2; lia|].
      rewrite length_app in Ht1. rewrite Hl2 in Ht1 by lia.
      assert (count_deep s = 1) as H1' by lia. specialize (Ht1 H1' ltac:(lia)). lia.
Qed.

Lemma run_seg_sound T s k rem v bs rem' :
  run_seg T s rem = Some (v, bs, rem') ->
  run_sound T k (count_deep s) (leaves s) (tail_of s) rem rem' (fun cs => seg_match s cs v bs).
Proof.
  revert k rem v bs rem'. induction s as [| |l|path segs IH] using segment_nested_ind;
    intros k rem v bs rem' Hr; cbn [run_seg] in Hr.
  - destruct rem as [|c rem]; simplify_eq. exists [v].
    split_and!; [done|constructor|done|done].
  - destruct (Nat.ltb_spec (length rem) T); simplify_eq.
    exists (take (length rem - T) rem). rewrite (take_drop (length rem - T) rem).
    split_and!; [done|constructor|done|]. cbn. intros _ ->. rewrite length_drop. lia.
  - destruct rem as [|c rem]; [done|]. destruct (String.eqb_spec c l); simplify_eq.
    exists [v]. split_and!; [done|constructor|done|done].
  - destruct (run_list _ segs rem) as [[[vs2 bs2] rem2]|] eqn:H2; simplify_eq.
    destruct (run_list_sound T segs IH k _ _ _ _ H2) as (cs & -> & Hm & Hl & Ht).
    exists cs. split_and!; [done|by constructor|done|done].
Qed.

Lemma run_segs_sound T segs k rem vs bs rem' :
  run_segs T segs rem = Some (vs, bs, rem') ->
  run_sound T k (deep_in segs) (leaves_in segs) (tail_in segs) rem rem'
    (fun cs => segs_match segs cs vs bs).
Proof. apply run_list_sound, Forall_true. intros s ? *. apply run_seg_sound. Qed.

Scheme seg_match_mut := Induction for seg_match Sort Prop
  with segs_match_mut := Induction for segs_match Sort Prop.
Combined Scheme match_mut from seg_match_mut, segs_match_mut.

(** Without a deep wildcard the number of components is fixed. *)
Lemma match_length :
  (forall s cs v bs, seg_match s cs v bs -> count_deep s = 0 -> length cs = leaves s) /\
  (forall segs cs vs bs, segs_match segs cs vs bs -> deep_in segs = 0 ->
     length cs = leaves_in segs).
Proof.
  apply match_mut; unfold deep_in, leaves_in; cbn; auto; [lia|].
  intros * _ IH1 _ IH2 Hd. rewrite length_app, IH1, IH2; lia.
Qed.

Definition run_complete_at (T n_deep n_tail : nat) (k : nat) : Prop :=
  n_deep = 0 \/ (n_deep = 1 /\ T = n_tail + k).

Lemma match_run T :
  (forall s cs v bs, seg_match s cs v bs -> forall rem',
     run_complete_at T (count_deep s) (tail_of s) (length rem') ->
     run_seg T s (cs ++ rem') = Some (v, bs, rem')) /\
  (forall segs cs vs bs, segs_match segs cs vs bs -> forall rem',
     run_complete_at T (deep_in segs) (tail_in segs) (length rem') ->
     run_list (run_seg T) segs (cs ++ rem') = Some (vs, bs, rem')).
Proof.
  apply match_mut; unfold run_complete_at.
  - done.
  - intros cs rem' [|[_ ->]]; [done|]. cbn [run_seg tail_of Nat.add]. rewrite length_app.
    destruct (Nat.ltb_spec (length cs + length rem') (length rem')); [lia|].
    replace (length cs + length rem' - length rem') with (length cs) by lia.
    by rewrite take_app_length, drop_app_length.
  - intros l rem' _. cbn. by rewrite String.eqb_refl.
  - intros path segs cs vs bs _ IH rem' H. cbn. by rewrite IH.
  - done.
  - intros s segs cs1 cs2 v vs bs1 bs2 Hm1 IH1 Hm2 IH2 rem' H. cbn.
    unfold deep_in, tail_in in *. cbn in H.
    rewrite <- app_assoc, IH1, IH2; [done| |]; destruct (Nat.eqb_spec (count_deep s) 0); try lia.
    rewrite length_app.
    assert (length cs2 = leaves_in segs) by (eapply match_length; [done|unfold deep_in; lia]).
    unfold leaves_in in *. lia.
Qed.

Lemma run_segs_spec T segs cs bs :
  deep_in segs <= 1 -> T = tail_in segs ->
  (exists vs, run_segs T segs cs = Some (vs, bs, [])) <-> exists vs, segs_match segs cs vs bs.
Proof.
  intros Hd HT. split; intros [vs H]; exists vs.
  - apply (run_segs_sound T segs 0) in H as (cs' & -> & Hm & _). by rewrite app_nil_r.
  - pose proof (proj2 (match_run T) _ _ _ _ H []) as Hr. rewrite app_nil_r in Hr.
    apply Hr. unfold run_complete_at. cbn. lia.
Qed.

(** *** [Compile] resolves every string operand to its pool index *)
Definition resolved (pool : list string) (o : op) (x : Z) : Prop :=
  if String.eqb (str o) "" then x = operand o
  else (0 <= x)%Z /\ pool !! Z.to_nat x = Some (str o).

Fixpoint pairs (raws : list op) (xs : list Z) : list Z :=
  match raws, xs with
  | o :: raws, x :: xs => OpCode_int (code o) :: x :: pairs raws xs
  | _, _ => []
  end.

Definition consts_ok (st : cstate) : Prop :=
  forall s i, c_consts st !! s = Some i -> c_pool st !! i = Some s.

Lemma compile_op_spec st o :
  consts_ok st ->
  exists x, c_ops (compile_op st o) = c_ops st ++ [OpCode_int (code o); x] /\
    consts_ok (compile_op st o) /\ c_pool st `prefix_of` c_pool (compile_op st o) /\
    resolved (c_pool (compile_op st o)) o x.
Proof.
  intros Hst. unfold resolved, compile_op.
  destruct (String.eqb_spec (str o) "") as [He|He].
  { exists (operand o). by destruct (code o); split_and!. }
  destruct (c_consts st !! str o) as [i|] eqn:Hi; exists (Z.of_nat (default (length (c_pool st)) (c_consts st !! str o))); rewrite Hi; cbn.
  - apply Hst in Hi as Hp. destruct (code o); cbn; split_and!; try done; try lia; by rewrite Nat2Z.id.
  - assert (consts_ok (CState (c_ops st) (c_pool st ++ [str o]) (c_fields st)
              (<[str o := length (c_pool st)]> (c_consts st)))) as Hok.
    { intros s j. cbn. rewrite lookup_insert. case_decide as Hs; intros ?; simplify_eq.
      - by apply list_lookup_middle.
      - apply lookup_app_l_Some. by apply Hst. }
    assert ((c_pool st ++ [str o]) !! length (c_pool st) = Some (str o)) by
      by apply list_lookup_middle.
    destruct (code o); cbn; split_and!; try done; try lia; try (by eexists);
      by rewrite Nat2Z.id.
Qed.

Lemma resolved_prefix pool pool' o x :
  pool `prefix_of` pool' -> resolved pool o x -> resolved pool' o x.
Proof.
  unfold resolved. intros Hp. case_match; [done|]. intros [? ?]. split; [done|].
  by eapply prefix_lookup_Some.
Qed.

Lemma compile_ops_spec raws st :
  consts_ok st ->
  exists xs, c_ops (foldl compile_op st raws) = c_ops st ++ pairs raws xs /\
    c_pool st `prefix_of` c_pool (foldl compile_op st raws) /\
    Forall2 (resolved (c_pool (foldl compile_op st raws))) raws xs.
Proof.
  revert st. induction raws as [|o raws IH]; intros st Hst; cbn.
  { exists []. by rewrite app_nil_r. }
  destruct (compile_op_spec st o Hst) as (x & Hops & Hst' & Hp & Hx).
  destruct (IH _ Hst') as (xs & Hops' & Hp' & Hxs). exists (x :: xs). cbn.
  rewrite Hops', Hops, <- app_assoc. split_and!; [done|by etrans|].
  constructor; [by eapply resolved_prefix|done].
Qed.

Lemma pairs_length raws xs : length (pairs raws xs) mod 2 = 0.
Proof.
  revert xs. induction raws as [|o raws IH]; intros [|x xs]; try done. cbn [pairs length].
  replace (S (S (length (pairs raws xs)))) with (length (pairs raws xs) + 1 * 2) by lia.
  by rewrite Nat.Div0.mod_add.
Qed.

Lemma pairs_app raws1 raws2 xs1 xs2 :
  length raws1 = length xs1 -> pairs (raws1 ++ raws2) (xs1 ++ xs2) = pairs raws1 xs1 ++ pairs raws2 xs2.
Proof.
  revert xs1. induction raws1 as [|o raws1 IH]; intros [|x xs1]; try done.
  cbn. intros [=]. by rewrite IH.
Qed.

(** *** [NewPattern] accepts the program of a flat template *)

(** The typed program: a capture's operand becomes its index among the
    variables, every other operand is kept. *)
Fixpoint typed (nv : nat) (raws : list op) (xs : list Z) : list rop :=
  match raws, xs with
  | o :: raws, x :: xs =>
      match code o with
      | OpCapture => Rop OpCapture (Z.of_nat nv) :: typed (S nv) raws xs
      | c => Rop c x :: typed nv raws xs
      end
  | _, _ => []
  end.

Definition raw_ops (segs : list segment) : list op := concat (map segment_compile segs).

Definition paths_of (segs : list segment) : list string :=
  omap (fun s => match s with variable path _ => Some path | _ => None end) segs.

Definition after (st : nstate) (segs : list segment) (n : nat) (t : list rop) (mx : Z) : nstate :=
  NState (n_typedOps st ++ t) (n_stack st + Z.of_nat n) mx
    (n_tailLen st + if n_pushMSeen st then leaves_in segs else tail_in segs)
    (n_pushMSeen st || negb (Nat.eqb (deep_in segs) 0)) (n_vars st ++ paths_of segs).

Lemma in_pool_lookup pool x s :
  (0 <= x)%Z -> pool !! Z.to_nat x = Some s -> in_pool pool x = true.
Proof.
  intros Hx Hp. apply lookup_lt_Some in Hp. unfold in_pool.
  apply andb_true_intro. lia.
Qed.

Definition deep_budget (st : nstate) (segs : list segment) : Prop :=
  deep_in segs + (if n_pushMSeen st then 1 else 0) <= 1.

Lemma new_op_simple pool st s o x :
  seg_ok s -> simple s -> segment_compile s = [o] -> resolved pool o x ->
  deep_budget st [s] -> exists mx,
  new_op pool st (Rop (int_OpCode (OpCode_int (code o))) x) =
  Some (after st [s] 1 [Rop (code o) x] mx) /\ code o <> OpCapture.
Proof.
  intros Hok Hs Ho Hx Hd. unfold after, deep_budget, deep_in, leaves_in, tail_in in *.
  destruct s as [| |l|]; cbn in Ho; simplify_eq; cbn in *; rewrite ?app_nil_r.
  - exists (Z.max (n_maxstack st) (n_stack st + 1)). split; [|done]. unfold push_op, tail_inc. cbn.
    destruct (n_pushMSeen st); do 2 f_equal; lia.
  - destruct (n_pushMSeen st); cbn in *; [lia|]. exists (Z.max (n_maxstack st) (n_stack st + 1)). split; [|done].
    unfold push_op. do 2 f_equal; lia.
  - inversion Hok as [| |? _ Hl|]; subst. unfold resolved in Hx. cbn in Hx.
    destruct (String.eqb_spec l "") as [->|_]; [set_solver|]. destruct Hx as [Hx Hp].
    unfold new_op. cbn. rewrite (in_pool_lookup _ _ _ Hx Hp). cbn.
    exists (Z.max (n_maxstack st) (n_stack st + 1)). split; [|done]. unfold push_op, tail_inc.
    destruct (n_pushMSeen st); cbn; do 2 f_equal; lia.
  - done.
Qed.

Lemma simple_compile s : simple s -> exists o, segment_compile s = [o].
Proof. destruct s; [by eexists..|done]. Qed.

Lemma simple_paths segs : Forall simple segs -> paths_of segs = [].
Proof. induction 1 as [|s segs Hs _ IH]; [done|]. by destruct s. Qed.

Lemma after_cons st s segs n m t1 t2 mx1 mx2 :
  after (after st [s] n t1 mx1) segs m t2 mx2 = after st (s :: segs) (n + m) (t1 ++ t2) mx2.
Proof.
  unfold after, leaves_in, tail_in, deep_in. cbn. rewrite !Nat.add_0_r, <- !app_assoc.
  f_equal; [lia| | |].
  - destruct (n_pushMSeen st); cbn; [lia|].
    destruct (Nat.eqb_spec (count_deep s) 0) as [Hz|Hz]; cbn; unfold leaves_in; lia.
  - destruct (n_pushMSeen st); [done|]. cbn.
    destruct (Nat.eqb_spec (count_deep s) 0) as [->|]; [done|]. cbn.
    by destruct (Nat.eqb_spec (count_deep s + total (map count_deep segs)) 0); [lia|].
  - by destruct s.
Qed.

Lemma deep_budget_cons st s segs t n mx :
  deep_budget st (s :: segs) ->
  deep_budget st [s] /\ deep_budget (after st [s] n t mx) segs.
Proof.
  unfold deep_budget, after, deep_in. cbn. rewrite Nat.add_0_r.
  destruct (n_pushMSeen st), (Nat.eqb_spec (count_deep s) 0); cbn; lia.
Qed.

Lemma raw_ops_cons s segs : raw_ops (s :: segs) = segment_compile s ++ raw_ops segs.
Proof. done. Qed.

Lemma new_loop_simple pool st segs xs rest :
  Forall seg_ok segs -> Forall simple segs ->
  Forall2 (resolved pool) (raw_ops segs) xs -> deep_budget st segs ->
  exists mx, new_loop pool st (pairs (raw_ops segs) xs ++ rest) =
    new_loop pool (after st segs (length segs) (typed (length (n_vars st)) (raw_ops segs) xs) mx) rest.
Proof.
  intros Hok Hs. revert st xs. induction segs as [|s segs IH]; intros st xs Hx Hd.
  { exists (n_maxstack st). inversion Hx; subst. unfold after. cbn.
    rewrite !app_nil_r, Z.add_0_r, orb_false_r.
    replace (n_tailLen st + _) with (n_tailLen st) by (destruct (n_pushMSeen st); cbn; lia).
    by destruct st. }
  apply Forall_cons in Hok as [Hok1 Hok]. apply Forall_cons in Hs as [Hs1 Hs].
  destruct (simple_compile s Hs1) as [o Ho]. rewrite raw_ops_cons in Hx |- *.
  rewrite Ho in Hx |- *. cbn [app] in Hx |- *. inversion Hx as [|? x ? xs' Hx1 Hx2]; subst.
  destruct (deep_budget_cons st s segs [Rop (code o) x] 1 0 Hd) as [Hd1 _].
  destruct (new_op_simple pool st s o x Hok1 Hs1 Ho Hx1 Hd1) as (mx1 & Hnew & Hcap).
  cbn [pairs app new_loop]. rewrite Hnew.
  destruct (deep_budget_cons st s segs [Rop (code o) x] 1 mx1 Hd) as [_ Hd2].
  destruct (IH Hok Hs _ xs' Hx2 Hd2) as [mx ->]. exists mx.
  rewrite after_cons. do 2 f_equal.
  replace (n_vars (after st [s] 1 [Rop (code o) x] mx1)) with (n_vars st)
    by (destruct s; cbn; by rewrite ?app_nil_r).
  cbn. by destruct (code o).
Qed.

(** The captures in a program. *)
Fixpoint captures (raws : list op) : nat :=
  match raws with
  | [] => 0
  | o :: raws => (match code o with OpCapture => 1 | _ => 0 end) + captures raws
  end.

Lemma captures_app raws1 raws2 : captures (raws1 ++ raws2) = captures raws1 + captures raws2.
Proof. induction raws1 as [|o raws1 IH]; cbn; lia. Qed.

Lemma typed_app nv raws1 raws2 xs1 xs2 :
  length raws1 = length xs1 ->
  typed nv (raws1 ++ raws2) (xs1 ++ xs2) = typed nv raws1 xs1 ++ typed (nv + captures raws1) raws2 xs2.
Proof.
  revert nv xs1. induction raws1 as [|o raws1 IH]; intros nv [|x xs1]; try done.
  - cbn. by rewrite Nat.add_0_r.
  - cbn. intros [=]. destruct (code o); cbn; rewrite IH by done; do 2 f_equal; f_equal; lia.
Qed.

Lemma captures_simple segs : Forall simple segs -> captures (raw_ops segs) = 0.
Proof.
  induction 1 as [|s segs Hs _ IH]; [done|]. rewrite raw_ops_cons, captures_app, IH.
  by destruct s.
Qed.

Lemma captures_flat s : flat s -> captures (segment_compile s) = length (paths_of [s]).
Proof.
  destruct s as [| |l|path segs]; try done. cbn [segment_compile flat]. intros Hf.
  fold (raw_ops segs). by rewrite captures_app, captures_simple.
Qed.

Definition width (s : segment) : nat := match s with variable _ _ => 0 | _ => 1 end.

Lemma field_path_nonempty path : field_path path -> path <> "".
Proof.
  intros (comps & Hne & Hc & ->). destruct comps as [|c cs]; [done|].
  apply Forall_cons in Hc as [[Hc _]%ident_field _]. destruct cs; [done|].
  rewrite join_cons by done. by destruct c.
Qed.

Lemma tail_in_zero segs : deep_in segs = 0 -> tail_in segs = 0.
Proof.
  unfold deep_in, tail_in. induction segs as [|s segs IH]; [done|]. cbn. intros H.
  destruct (Nat.eqb_spec (count_deep s) 0); [apply IH|]; lia.
Qed.

Lemma after_variable st path segs n t mx :
  after st [variable path segs] n t mx =
  NState (n_typedOps st ++ t) (n_stack st + Z.of_nat n) mx
    (n_tailLen st + if n_pushMSeen st then leaves_in segs else tail_in segs)
    (n_pushMSeen st || negb (Nat.eqb (deep_in segs) 0)) (n_vars st ++ [path]).
Proof.
  unfold after. f_equal.
  - destruct (n_pushMSeen st); [unfold leaves_in; cbn; lia|].
    transitivity (n_tailLen st + if Nat.eqb (deep_in segs) 0 then 0 else tail_in segs + 0); [done|].
    destruct (Nat.eqb_spec (deep_in segs) 0); [rewrite tail_in_zero by done|]; lia.
  - unfold deep_in. cbn. by rewrite Nat.add_0_r.
Qed.

Lemma new_op_concat pool st n :
  0 < n -> (Z.of_nat n <= n_stack st)%Z ->
  new_op pool st (Rop OpConcatN (Z.of_nat n)) =
  Some (push_op (Rop OpConcatN (Z.of_nat n)) (n_stack st - Z.of_nat n + 1) (n_tailLen st)
          (n_pushMSeen st) (n_vars st) st).
Proof.
  intros Hn Hs. unfold new_op. cbn [r_code r_operand].
  destruct (Z.leb_spec (Z.of_nat n) 0); [lia|].
  destruct (Z.ltb_spec (n_stack st - Z.of_nat n) 0); [lia|done].
Qed.

Lemma new_op_capture pool st x v :
  (0 <= x)%Z -> pool !! Z.to_nat x = Some v -> (1 <= n_stack st)%Z ->
  new_op pool st (Rop OpCapture x) =
  Some (push_op (Rop OpCapture (Z.of_nat (length (n_vars st)))) (n_stack st - 1)
          (n_tailLen st) (n_pushMSeen st) (n_vars st ++ [v]) st).
Proof.
  intros Hx Hp Hs. unfold new_op. cbn [r_code r_operand].
  rewrite (in_pool_lookup _ _ _ Hx Hp), Hp.
  destruct (Z.ltb_spec (n_stack st - 1) 0); [lia|done].
Qed.

Lemma new_loop_seg pool st s xs rest :
  seg_ok s -> flat s -> Forall2 (resolved pool) (segment_compile s) xs ->
  deep_budget st [s] -> (0 <= n_stack st)%Z ->
  exists mx, new_loop pool st (pairs (segment_compile s) xs ++ rest) =
    new_loop pool (after st [s] (width s) (typed (length (n_vars st)) (segment_compile s) xs) mx) rest.
Proof.
  intros Hok Hf Hx Hd Hst. destruct s as [| |l|path segs].
  1: by apply (new_loop_simple pool st [wildcard]); [constructor|constructor| |].
  1: by apply (new_loop_simple pool st [deepWildcard]); [constructor|constructor| |].
  1: by apply (new_loop_simple pool st [literal l]); [constructor|constructor| |].
  inversion Hok as [| | |? ? Hp Hne Hoks]; subst. cbn [segment_compile flat] in Hx, Hf |- *.
  fold (raw_ops segs) in Hx |- *. apply Forall2_app_inv_l in Hx as (xs1 & xs2 & Hx1 & Hx2 & ->).
  inversion Hx2 as [|? n ? ? Hn Hx3]; subst. inversion Hx3 as [|? c ? ? Hc Hx4]; subst.
  inversion Hx4; subst. clear Hx2 Hx3 Hx4. unfold resolved in Hn, Hc. cbn in Hn, Hc. subst n.
  rewrite (proj2 (String.eqb_neq _ _) (field_path_nonempty path Hp)) in Hc. destruct Hc as [Hc Hpc].
  assert (deep_budget st segs) as Hd'.
  { revert Hd. unfold deep_budget, deep_in. cbn. by rewrite Nat.add_0_r. }
  rewrite pairs_app by by eapply Forall2_length. rewrite <- app_assoc.
  destruct (new_loop_simple pool st segs xs1 (pairs
    [Op "" OpConcatN (Z.of_nat (length segs)); Op path OpCapture 0]
    [Z.of_nat (length segs); c] ++ rest) Hoks Hf Hx1 Hd') as [mx ->].
  assert (0 < length segs) by (destruct segs; [done|cbn; lia]).
  eexists. cbn [pairs app new_loop code OpCode_int int_OpCode].
  rewrite new_op_concat by (cbn; lia).
  rewrite (new_op_capture pool _ c path) by (done || (cbn; lia)).
  rewrite after_variable. f_equal. unfold push_op. cbn. rewrite simple_paths by done.
  rewrite app_nil_r, typed_app, captures_simple, Nat.add_0_r by
    (done || by eapply Forall2_length).
  cbn [typed code]. rewrite <- !app_assoc. cbn. f_equal; lia.
Qed.

Lemma paths_of_cons s segs : paths_of (s :: segs) = paths_of [s] ++ paths_of segs.
Proof. by destruct s. Qed.

Lemma new_loop_segs pool st segs xs :
  Forall seg_ok segs -> Forall flat segs ->
  Forall2 (resolved pool) (raw_ops segs) xs -> deep_budget st segs -> (0 <= n_stack st)%Z ->
  exists mx, new_loop pool st (pairs (raw_ops segs) xs) =
    Some (after st segs (total (map width segs))
            (typed (length (n_vars st)) (raw_ops segs) xs) mx).
Proof.
  intros Hok Hf. revert st xs. induction segs as [|s segs IH]; intros st xs Hx Hd Hst.
  { destruct (new_loop_simple pool st [] xs [] Hok ltac:(constructor) Hx Hd) as [mx Hn].
    rewrite app_nil_r in Hn. by exists mx. }
  apply Forall_cons in Hok as [Hok1 Hok]. apply Forall_cons in Hf as [Hf1 Hf].
  rewrite raw_ops_cons in Hx |- *.
  apply Forall2_app_inv_l in Hx as (xs1 & xs2 & Hx1 & Hx2 & ->).
  apply Forall2_length in Hx1 as Hl. rewrite pairs_app by done.
  destruct (deep_budget_cons st s segs [] 0 0 Hd) as [Hd1 _].
  destruct (new_loop_seg pool st s xs1 (pairs (raw_ops segs) xs2) Hok1 Hf1 Hx1 Hd1 Hst)
    as [mx1 ->].
  edestruct (IH Hok Hf (after st [s] (width s)
    (typed (length (n_vars st)) (segment_compile s) xs1) mx1) xs2 Hx2) as [mx ->].
  { by eapply deep_budget_cons. }
  { cbn. lia. }
  exists mx. rewrite after_cons, typed_app by done. rewrite captures_flat by done.
  do 4 f_equal. cbn [after n_vars]. by rewrite length_app.
Qed.

(** A second deep wildcard is rejected. *)
Fixpoint count_pushM (ops : list Z) : nat :=
  match ops with
  | c :: _ :: ops => (match int_OpCode c with OpPushM => 1 | _ => 0 end) + count_pushM ops
  | _ => 0
  end.

Lemma new_op_seen pool st c x st' :
  new_op pool st (Rop c x) = Some st' ->
  (match c with OpPushM => 1 | _ => 0 end) + (if n_pushMSeen st then 1 else 0) =
  if n_pushMSeen st' then 1 else 0.
Proof.
  unfold new_op. cbn [r_code r_operand]. intros Hn.
  destruct c; repeat case_match; simplify_eq; cbn; congruence.
Qed.

Lemma new_loop_seen pool ops st st' :
  new_loop pool st ops = Some st' -> count_pushM ops + (if n_pushMSeen st then 1 else 0) <= 1.
Proof.
  revert st. induction ops as [ops IH] using (induction_ltof1 _ (@length Z)). intros st.
  destruct ops as [|c [|x ops]]; cbn; [destruct (n_pushMSeen st); lia..|].
  destruct (new_op pool st _) as [st1|] eqn:Hn; [|done]. intros Hl.
  apply new_op_seen in Hn. apply IH in Hl; [|unfold ltof; cbn; lia]. lia.
Qed.

(** *** The machine runs a template *)

Section machine.
Context (p : Pattern) (comps : list string).

Lemma exec_app st ops1 ops2 :
  exec p comps st (ops1 ++ ops2) = (st <-! exec p comps st ops1; exec p comps st ops2).
Proof.
  revert st. induction ops1 as [|o ops1 IH]; intros st; [done|]. cbn.
  destruct (exec_op p comps st o); [apply IH|done..].
Qed.

Definition at_rest (pos : nat) (rem : list string) : Prop :=
  pos <= length comps /\ drop pos comps = rem.

Lemma at_rest_cons pos c rem :
  at_rest pos (c :: rem) -> comps !! pos = Some c /\ at_rest (S pos) rem.
Proof.
  intros [Hp Hd]. assert (comps !! pos = Some c) as Hc.
  { rewrite <- (Nat.add_0_r pos), <- lookup_drop, Hd. done. }
  split; [done|]. split; [by apply lookup_lt_Some in Hc|].
  rewrite <- Nat.add_1_r, <- drop_drop, Hd. done.
Qed.

Lemma at_rest_nil pos : at_rest pos [] -> comps !! pos = None.
Proof.
  intros [Hp Hd]. apply (f_equal length) in Hd. rewrite length_drop in Hd. cbn in Hd.
  apply lookup_ge_None. lia.
Qed.

(** One instruction of a simple segment, against [run_seg]. *)
Lemma exec_simple_op s o x pos stk cap rem :
  seg_ok s -> simple s -> segment_compile s = [o] -> resolved (p_pool p) o x ->
  at_rest pos rem ->
  match run_seg (p_tailLen p) s rem with
  | None => exec_op p comps (MState pos stk cap) (Rop (code o) x) = Fail ErrNotMatch
  | Some (v, bs, rem') => bs = [] /\ exists pos', at_rest pos' rem' /\
      exec_op p comps (MState pos stk cap) (Rop (code o) x) =
      Ret (MState pos' (stk ++ [v]) cap)
  end.
Proof.
  intros Hok Hs Ho Hx Hr. destruct s as [| |l|]; cbn in Ho; simplify_eq; cbn [run_seg].
  - destruct rem as [|c rem].
    + apply at_rest_nil in Hr. unfold exec_op. cbn. by rewrite Hr.
    + apply at_rest_cons in Hr as [Hc Hr]. split; [done|]. exists (S pos). split; [done|].
      unfold exec_op. cbn. by rewrite Hc.
  - destruct Hr as [Hp Hd].
    assert (length rem = length comps - pos) as Hl by (rewrite <- Hd; apply length_drop).
    unfold exec_op. cbn [r_code m_pos m_stack m_captured code].
    destruct (Nat.ltb_spec (length rem) (p_tailLen p)),
      (Nat.ltb_spec (length comps) (pos + p_tailLen p)); try lia; [done|].
    split; [done|]. exists (length comps - p_tailLen p).
    replace (length comps - p_tailLen p - pos) with (length rem - p_tailLen p) by lia.
    rewrite Hd. split; [|done]. split; [lia|]. rewrite Hl, <- Hd, drop_drop. f_equal. lia.
  - inversion Hok as [| |? Hl1 Hl2|]; subst. unfold resolved in Hx. cbn in Hx.
    destruct (String.eqb_spec l "") as [->|_]; [set_solver|]. destruct Hx as [Hx Hp].
    destruct rem as [|c rem].
    + apply at_rest_nil in Hr. unfold exec_op. cbn. by rewrite Hr.
    + apply at_rest_cons in Hr as [Hc Hr]. unfold exec_op. cbn. rewrite Hc.
      destruct (Z.ltb_spec x 0); [lia|]. rewrite Hp.
      destruct (String.eqb_spec c l); [|done]. split; [done|]. by exists (S pos).
  - done.
Qed.

Lemma exec_simples segs nv xs pos stk cap rem :
  Forall seg_ok segs -> Forall simple segs ->
  Forall2 (resolved (p_pool p)) (raw_ops segs) xs -> at_rest pos rem ->
  match run_segs (p_tailLen p) segs rem with
  | None => exec p comps (MState pos stk cap) (typed nv (raw_ops segs) xs) = Fail ErrNotMatch
  | Some (vs, bs, rem') => bs = [] /\ length vs = length segs /\
      exists pos', at_rest pos' rem' /\
      exec p comps (MState pos stk cap) (typed nv (raw_ops segs) xs) =
      Ret (MState pos' (stk ++ vs) cap)
  end.
Proof.
  intros Hok Hs. revert xs pos stk rem. induction segs as [|s segs IH]; intros xs pos stk rem Hx Hr.
  { inversion Hx; subst. cbn. split_and!; [done..|]. exists pos. by rewrite app_nil_r. }
  apply Forall_cons in Hok as [Hok1 Hok]. apply Forall_cons in Hs as [Hs1 Hs].
  destruct (simple_compile s Hs1) as [o Ho]. rewrite raw_ops_cons, Ho in Hx |- *.
  inversion Hx as [|? x ? xs' Hx1 Hx2]; subst.
  assert (typed nv (o :: raw_ops segs) (x :: xs') = Rop (code o) x :: typed nv (raw_ops segs) xs')
    as Ht by (destruct s; cbn in Ho; by simplify_eq).
  cbn [app]. rewrite Ht. unfold run_segs in *. cbn [run_list exec].
  pose proof (exec_simple_op s o x pos stk cap rem Hok1 Hs1 Ho Hx1 Hr) as H1.
  destruct (run_seg _ s rem) as [[[v bs1] rem1]|]; [|by rewrite H1].
  destruct H1 as (-> & pos1 & Hr1 & ->). cbn [outcome_bind].
  specialize (IH Hok Hs xs' pos1 (stk ++ [v]) rem1 Hx2 Hr1).
  destruct (run_list _ segs rem1) as [[[vs bs2] rem2]|]; [|done].
  destruct IH as (-> & Hl & pos2 & Hr2 & ->). split_and!; [done|cbn; by rewrite Hl|].
  exists pos2. by rewrite <- app_assoc.
Qed.

Lemma exec_concat pos stk vs cap :
  exec_op p comps (MState pos (stk ++ vs) cap) (Rop OpConcatN (Z.of_nat (length vs))) =
  Ret (MState pos (stk ++ [join "/" vs]) cap).
Proof.
  unfold exec_op. cbn [r_code r_operand m_stack m_pos m_captured]. rewrite length_app.
  replace (Z.of_nat (length stk + length vs) - Z.of_nat (length vs))%Z
    with (Z.of_nat (length stk)) by lia.
  destruct (Z.ltb_spec (Z.of_nat (length stk)) 0); [lia|].
  destruct (Z.ltb_spec (Z.of_nat (length stk + length vs)) (Z.of_nat (length stk))); [lia|].
  cbn [orb]. by rewrite Nat2Z.id, take_app_length, drop_app_length.
Qed.

Lemma exec_capture pos stk v done old more :
  exec_op p comps (MState pos (stk ++ [v]) (done ++ old :: more))
    (Rop OpCapture (Z.of_nat (length done))) =
  Ret (MState pos stk (done ++ v :: more)).
Proof.
  unfold exec_op. cbn [r_code r_operand m_stack m_pos m_captured]. rewrite last_snoc.
  destruct (Z.leb_spec 0 (Z.of_nat (length done))); [|lia].
  rewrite !length_app. cbn [length].
  destruct (Z.ltb_spec (Z.of_nat (length done)) (Z.of_nat (length done + S (length more)))); [|lia].
  cbn [andb]. rewrite Nat2Z.id. replace (length stk + 1 - 1) with (length stk) by lia.
  rewrite take_app_length, insert_app_r_alt, Nat.sub_diag by done. done.
Qed.

(** A top-level segment may leave its value on the stack; a variable fills
    the next capture slot. *)
Lemma exec_seg s xs pos stk done more rem :
  seg_ok s -> flat s -> Forall2 (resolved (p_pool p)) (segment_compile s) xs ->
  at_rest pos rem -> length (paths_of [s]) <= length more ->
  let start := MState pos stk (done ++ more) in
  let prog := typed (length done) (segment_compile s) xs in
  match run_seg (p_tailLen p) s rem with
  | None => exec p comps start prog = Fail ErrNotMatch
  | Some (v, bs, rem') => bs.*1 = paths_of [s] /\ exists pos' stk', at_rest pos' rem' /\
      exec p comps start prog =
      Ret (MState pos' stk' ((done ++ bs.*2) ++ drop (length bs) more))
  end.
Proof.
  intros Hok Hf Hx Hr Hm start prog.
  assert (simple s \/ exists path segs, s = variable path segs) as [Hs|(path & segs & ->)]
    by (destruct s; eauto; by left).
  - pose proof (exec_simples [s] (length done) xs pos stk (done ++ more) rem) as H1.
    unfold run_segs in H1. cbn [run_list] in H1. rewrite raw_ops_cons, app_nil_r in H1.
    specialize (H1 ltac:(by constructor) ltac:(by constructor) Hx Hr).
    destruct (run_seg _ s rem) as [[[v bs] rem']|]; [|done].
    destruct H1 as (Hb & _ & pos' & Hr' & He). rewrite app_nil_r in Hb. subst bs.
    split; [by destruct s|]. exists pos', (stk ++ [v]). cbn. by rewrite app_nil_r.
  - inversion Hok as [| | |? ? Hp Hne Hoks]; subst. cbn [segment_compile flat] in Hx, Hf.
    fold (raw_ops segs) in Hx. apply Forall2_app_inv_l in Hx as (xs1 & xs2 & Hx1 & Hx2 & ->).
    inversion Hx2 as [|? n ? ? Hn Hx3]; subst. inversion Hx3 as [|? c ? ? Hc Hx4]; subst.
    inversion Hx4; subst. unfold resolved in Hn. cbn in Hn. subst n prog start.
    cbn [segment_compile run_seg]. fold (raw_ops segs).
    rewrite typed_app, captures_simple, Nat.add_0_r by (done || by eapply Forall2_length).
    rewrite exec_app. cbn [typed code]. destruct more as [|old more]; [cbn in Hm; lia|].
    pose proof (exec_simples segs (length done) xs1 pos stk (done ++ old :: more) rem
                  Hoks Hf Hx1 Hr) as H1. unfold run_segs in H1.
    destruct (run_list _ segs rem) as [[[vs bs] rem']|]; [|by rewrite H1].
    destruct H1 as (-> & Hl & pos' & Hr' & ->). split; [done|]. exists pos', stk.
    split; [done|]. cbn [outcome_bind exec]. rewrite <- Hl, exec_concat.
    cbn [outcome_bind exec]. rewrite exec_capture. cbn. by rewrite <- app_assoc.
Qed.

Lemma exec_segs segs xs pos stk done more rem :
  Forall seg_ok segs -> Forall flat segs ->
  Forall2 (resolved (p_pool p)) (raw_ops segs) xs ->
  at_rest pos rem -> length (paths_of segs) <= length more ->
  let start := MState pos stk (done ++ more) in
  let prog := typed (length done) (raw_ops segs) xs in
  match run_segs (p_tailLen p) segs rem with
  | None => exec p comps start prog = Fail ErrNotMatch
  | Some (vs, bs, rem') => bs.*1 = paths_of segs /\ exists pos' stk', at_rest pos' rem' /\
      exec p comps start prog =
      Ret (MState pos' stk' ((done ++ bs.*2) ++ drop (length bs) more))
  end.
Proof.
  intros Hok Hf. revert xs pos stk done more rem.
  induction segs as [|s segs IH]; intros xs pos stk done more rem Hx Hr Hm start prog.
  { inversion Hx; subst. cbn. split; [done|]. exists pos, stk. by rewrite app_nil_r. }
  apply Forall_cons in Hok as [Hok1 Hok]. apply Forall_cons in Hf as [Hf1 Hf].
  subst prog start. rewrite raw_ops_cons in Hx |- *.
  apply Forall2_app_inv_l in Hx as (xs1 & xs2 & Hx1 & Hx2 & ->).
  rewrite typed_app, captures_flat, exec_app by (done || by eapply Forall2_length).
  rewrite paths_of_cons, length_app in Hm. unfold run_segs in *. cbn [run_list].
  pose proof (exec_seg s xs1 pos stk done more rem Hok1 Hf1 Hx1 Hr ltac:(lia)) as H1.
  destruct (run_seg _ s rem) as [[[v bs1] rem1]|]; [|by rewrite H1].
  destruct H1 as (Hb1 & pos1 & stk1 & Hr1 & ->). cbn [outcome_bind].
  assert (length bs1 = length (paths_of [s])) as Hlb by (by rewrite <- Hb1, length_fmap).
  specialize (IH Hok Hf xs2 pos1 stk1 (done ++ bs1.*2) (drop (length bs1) more) rem1 Hx2 Hr1).
  rewrite length_app, length_fmap, Hlb in IH.
  specialize (IH ltac:(rewrite length_drop; lia)). cbn [app] in IH.
  rewrite Hlb.
  destruct (run_list _ segs rem1) as [[[vs bs2] rem2]|]; [|done].
  destruct IH as (Hb2 & pos2 & stk2 & Hr2 & ->). rewrite fmap_app, Hb1, Hb2, <- paths_of_cons.
  split; [done|]. exists pos2, stk2. rewrite fmap_app, length_app, drop_drop, Hlb, <- !app_assoc.
  done.
Qed.
End machine.

(** ** The patterns of the routers *)

Lemma pattern_of_spec t :
  Forall seg_ok (segments_of t) -> Forall flat (segments_of t) -> deep_in (segments_of t) <= 1 ->
  exists p xs, pattern_of t = Some p /\
    p_verb p = "" /\ p_assumeColonVerb p = true /\
    p_vars p = paths_of (segments_of t) /\ p_tailLen p = tail_in (segments_of t) /\
    p_ops p = typed 0 (raw_ops (segments_of t)) xs /\
    Forall2 (resolved (p_pool p)) (raw_ops (segments_of t)) xs.
Proof.
  intros Hok Hf Hd. unfold pattern_of, Compile, NewPattern. cbn [Version OpCodes Pool].
  fold (raw_ops (segments_of t)).
  destruct (compile_ops_spec (raw_ops (segments_of t)) (CState [] [] [] ∅)) as (xs & Hops & _ & Hx).
  { intros s i. cbn. by rewrite lookup_empty. }
  cbn [c_ops app] in Hops. rewrite Hops, pairs_length.
  cbn [opcodeVersion Z.eqb Pos.eqb Nat.eqb negb].
  destruct (new_loop_segs _ (NState [] 0 0 0 false []) _ _ Hok Hf Hx) as [mx ->].
  { unfold deep_budget. cbn. lia. } { done. }
  eexists _, xs. split; [done|]. cbn. by split_and!.
Qed.

Lemma bind_vars_spec vars vals acc :
  length vals = length vars ->
  bind_vars vars vals acc = Ret (foldl (fun m b => <[b.1 := b.2]> m) acc (zip vars vals)).
Proof.
  revert vars acc. induction vals as [|v vals IH]; intros [|x vars] acc; try done.
  cbn. intros [=]. by rewrite IH.
Qed.

Lemma run_match t p xs comps :
  Forall seg_ok (segments_of t) -> Forall flat (segments_of t) ->
  p_verb p = "" -> p_vars p = paths_of (segments_of t) ->
  p_ops p = typed 0 (raw_ops (segments_of t)) xs ->
  Forall2 (resolved (p_pool p)) (raw_ops (segments_of t)) xs ->
  Match p comps "" =
    match run_segs (p_tailLen p) (segments_of t) comps with
    | Some (_, bs, []) => Ret (bindings bs)
    | _ => Fail ErrNotMatch
    end.
Proof.
  intros Hok Hf Hv Hvars Hops Hx. unfold Match, match_components. rewrite Hv. cbn [negb String.eqb].
  pose proof (exec_segs p comps (segments_of t) xs 0 [] [] (replicate (length (p_vars p)) "") comps
    Hok Hf Hx) as He. cbn [app length] in He. rewrite <- Hops in He. rewrite <- Hvars in He.
  specialize (He ltac:(split; [lia|done]) ltac:(by rewrite length_replicate)).
  destruct (run_segs _ _ comps) as [[[vs bs] rem]|]; [|by rewrite He].
  destruct He as (Hb & pos & stk & [Hp Hr] & ->). cbn [outcome_bind m_pos m_captured].
  apply (f_equal length) in Hr as Hl. rewrite length_drop in Hl.
  destruct rem as [|c rem]; cbn [length] in Hl.
  - destruct (Nat.ltb_spec pos (length comps)); [lia|].
    apply (f_equal length) in Hb as Hlb. rewrite length_fmap in Hlb.
    rewrite Hlb, drop_ge, app_nil_r by by rewrite length_replicate.
    rewrite bind_vars_spec by by rewrite length_fmap. unfold bindings.
    by rewrite <- Hb, zip_fst_snd.
  - destruct (Nat.ltb_spec pos (length comps)); [done|lia].
Qed.

Lemma count_pushM_pairs raws xs :
  length raws = length xs ->
  count_pushM (pairs raws xs) =
  total (map (fun o => match int_OpCode (OpCode_int (code o)) with OpPushM => 1 | _ => 0 end) raws).
Proof.
  revert xs. induction raws as [|o raws IH]; intros [|x xs]; try done. cbn.
  intros [=]. by rewrite IH.
Qed.

Lemma total_app l1 l2 : total (l1 ++ l2) = total l1 + total l2.
Proof. induction l1 as [|n l1 IH]; cbn; lia. Qed.

Lemma pushM_of_segs (w := fun o => match int_OpCode (OpCode_int (code o)) with OpPushM => 1 | _ => 0 end) segs :
  total (map w (raw_ops segs)) = deep_in segs.
Proof.
  assert (forall s, total (map w (segment_compile s)) = count_deep s) as Hs.
  { induction s as [| |l|path segs' IH] using segment_nested_ind; [done..|].
    cbn [segment_compile count_deep]. rewrite map_app, total_app. cbn. rewrite Nat.add_0_r.
    induction IH as [|s segs' Hs _ IH]; [done|]. cbn. by rewrite map_app, total_app, Hs, IH. }
  unfold deep_in. induction segs as [|s segs IH]; [done|].
  by rewrite raw_ops_cons, map_app, total_app, Hs, IH.
Qed.

Lemma new_pattern_deep t :
  Forall seg_ok (segments_of t) -> Forall flat (segments_of t) ->
  is_Some (pattern_of t) <-> deep_in (segments_of t) <= 1.
Proof.
  intros Hok Hf. split.
  - intros [p Hp]. unfold pattern_of, Compile, NewPattern in Hp. cbn [Version OpCodes Pool] in Hp.
    fold (raw_ops (segments_of t)) in Hp.
    destruct (compile_ops_spec (raw_ops (segments_of t)) (CState [] [] [] ∅)) as (xs & Hops & _ & Hx).
    { intros s i. cbn. by rewrite lookup_empty. }
    cbn [c_ops app] in Hops. rewrite Hops in Hp.
    destruct (new_loop _ _ _) as [st|] eqn:Hn; [|by repeat case_match].
    eapply new_loop_seen in Hn. rewrite count_pushM_pairs in Hn by by eapply Forall2_length.
    rewrite pushM_of_segs in Hn. lia.
  - intros Hd. destruct (pattern_of_spec t Hok Hf Hd) as (p & xs & -> & _). by eexists.
Qed.

(** Every template that [Parse] returns compiles to a program that
    [NewPattern] accepts exactly when the template has at most one deep
    wildcard; a second "**" is [ErrInvalidPattern]. *)
Theorem NewPattern_accepts tmpl t :
  Parse tmpl = Ret t -> is_Some (pattern_of t) <-> deep_in (segments_of t) <= 1.
Proof.
  intros Hp. apply new_pattern_deep; [by eapply Parse_seg_ok|by eapply Parse_flat].
Qed.

Lemma Match_refines_aux tmpl t p comps :
  Parse tmpl = Ret t -> pattern_of t = Some p ->
  (forall b, Match p comps "" = Ret b <->
     exists vs bs, segs_match (segments_of t) comps vs bs /\ b = bindings bs) /\
  ((exists b, Match p comps "" = Ret b) \/ Match p comps "" = Fail ErrNotMatch).
Proof.
  intros Ht0 Hp. pose proof (Parse_seg_ok _ _ Ht0) as Hok. pose proof (Parse_flat _ _ Ht0) as Hf.
  assert (deep_in (segments_of t) <= 1) as Hd.
  { apply (new_pattern_deep t Hok Hf). by eexists. }
  destruct (pattern_of_spec t Hok Hf Hd) as (p' & xs & Hp' & Hv & _ & Hvars & Ht & Hops & Hx).
  rewrite Hp in Hp'. simplify_eq. rewrite (run_match t p' xs) by done.
  split.
  2:{ destruct (run_segs _ _ comps) as [[[vs bs] [|c rem]]|]; eauto. }
  intros b. destruct (run_segs (p_tailLen p') (segments_of t) comps) as [[[vs bs] [|c rem]]|] eqn:Hr.
  2,3: split; [done|]; intros (vs' & bs' & Hm & _);
    destruct (proj2 (run_segs_spec (p_tailLen p') (segments_of t) comps bs' Hd Ht) (ex_intro _ _ Hm))
      as [vs'' Hr']; congruence.
  split.
  - intros [= <-].
    destruct (proj1 (run_segs_spec _ _ comps bs Hd Ht) (ex_intro _ _ Hr)) as [vs' Hm].
    by exists vs', bs.
  - intros (vs' & bs' & Hm & ->).
    destruct (proj2 (run_segs_spec _ _ comps bs' Hd Ht) (ex_intro _ _ Hm)) as [vs'' Hr'].
    rewrite Hr in Hr'. by simplify_eq.
Qed.

(** C1: the stack machine refines the specification: for every template string
    that parses and compiles, on any components and with the routers' empty
    verb, [Match] returns [b] exactly when the template matches
    the components with captures [b] (the last capture of a name wins), fails
    with [ErrNotMatch] otherwise, and never panics. *)
Theorem Match_refines tmpl t p comps :
  Parse tmpl = Ret t -> pattern_of t = Some p ->
  (forall b, Match p comps "" = Ret b <->
     exists vs bs, segs_match (segments_of t) comps vs bs /\ b = bindings bs) /\
  ((exists b, Match p comps "" = Ret b) \/ Match p comps "" = Fail ErrNotMatch).
Proof. apply Match_refines_aux. Qed.

(** [/v1/{name=projects/**}/items] as the parser reads it. *)
Definition ex_tmpl : string := "/v1/{name=projects/**}/items".
Definition ex_t : template :=
  Template "" ex_tmpl [literal "v1"; variable "name" [literal "projects"; deepWildcard]; literal "items"].
Definition ex_p : Pattern :=
  mkPattern "" [Rop OpLitPush 0; Rop OpLitPush 1; Rop OpPushM 0; Rop OpConcatN 2; Rop OpCapture 0; Rop OpLitPush 3]
    ["v1"; "projects"; "name"; "items"] ["name"] 3 1 true.

Lemma NewPattern_accepts_witness :
  Parse ex_tmpl = Ret ex_t /\ (is_Some (pattern_of ex_t) <-> deep_in (segments_of ex_t) <= 1).
Proof. split; [by vm_compute|]. apply (NewPattern_accepts ex_tmpl). by vm_compute. Defined.

Lemma Match_refines_witness :
  Parse ex_tmpl = Ret ex_t /\ pattern_of ex_t = Some ex_p /\
  Match ex_p ["v1"; "projects"; "a"; "b"; "items"] "" = Ret {["name" := "projects/a/b"]} /\
  Match ex_p ["v1"; "items"] "" = Fail ErrNotMatch /\
  exists vs bs, segs_match (segments_of ex_t) ["v1"; "projects"; "a"; "b"; "items"] vs bs /\
    {["name" := "projects/a/b"]} = bindings bs.
Proof.
  split_and!; [by vm_compute..|].
  apply (Match_refines ex_tmpl ex_t ex_p); by vm_compute.
Defined.
