(* ===== verification/Registry.v ===== *)
(** * Service data and its set operations: src/registry/registry.go,
    src/registry/watcher.go and src/util/registry/util.go

    Services are values: a pointer to a struct is the struct, so two owners of
    one pointer see the same value as long as neither writes through it, which
    the code below never does. A nil map reads as the empty one. *)
From S2P Require Import Prelude.

(** ** registry.go *)
Record Node := mkNode {
  n_Metadata : option (gmap string string);
  n_Id : string;
  n_Address : string;
}.

#[global] Instance Node_eq_dec : EqDecision Node.
Proof. solve_decision. Defined.

Inductive Value := mkValue (v_Name v_Type : string) (v_Values : list Value).

Record Endpoint := mkEndpoint {
  e_Request : option Value;
  e_Response : option Value;
  e_Metadata : gmap string string;
  e_Name : string;
}.

Record Service := mkService {
  s_Name : string;
  s_Version : string;
  s_Metadata : gmap string string;
  s_Endpoints : list Endpoint;
  s_Nodes : list Node;
}.

Definition with_nodes (s : Service) (nodes : list Node) : Service :=
  mkService (s_Name s) (s_Version s) (s_Metadata s) (s_Endpoints s) nodes.

(** ** watcher.go *)
Record Result := mkResult { res_Service : Service; res_Action : string }.

Inductive EventType := Create | Delete | Update | OtherEvent (t : Z).

Definition EventType_String (t : EventType) : string :=
  match t with
  | Create => "create"
  | Delete => "delete"
  | Update => "update"
  | OtherEvent _ => "unknown"
  end.

(** ** util.go *)

(** The inner loops that look for a node by id. *)
Fixpoint has_id (id : string) (nodes : list Node) : bool :=
  match nodes with
  | [] => false
  | n :: nodes => if String.eqb id (n_Id n) then true else has_id id nodes
  end.

(** The old nodes are checked against the list built so far. *)
Fixpoint keep_old (old nodes : list Node) : list Node :=
  match old with
  | [] => nodes
  | o :: old => keep_old old (if has_id (n_Id o) nodes then nodes else nodes ++ [o])
  end.

Definition addNodes (old neu : list Node) : list Node := keep_old old neu.

Fixpoint delNodes (old del : list Node) : list Node :=
  match old with
  | [] => []
  | o :: old => if has_id (n_Id o) del then delNodes old del else o :: delNodes old del
  end.

Definition CopyService (service : Service) : Service :=
  mkService (s_Name service) (s_Version service) (s_Metadata service)
    (map (fun ep => mkEndpoint (e_Request ep) (e_Response ep) (e_Metadata ep) (e_Name ep))
         (s_Endpoints service))
    (map (fun n => mkNode (n_Metadata n) (n_Id n) (n_Address n)) (s_Nodes service)).

Definition Copy (current : list Service) : list Service := map CopyService current.

(** One new service against [olist]: the services appended, and [seen]. *)
Fixpoint merge_one (olist : list Service) (n : Service) : list Service * bool :=
  match olist with
  | [] => ([], false)
  | o :: olist =>
      if String.eqb (s_Version o) (s_Version n) then
        ([with_nodes o (addNodes (s_Nodes o) (s_Nodes n))], true)
      else let '(srv, seen) := merge_one olist n in (o :: srv, seen)
  end.

Fixpoint Merge (olist nlist : list Service) : list Service :=
  match nlist with
  | [] => []
  | n :: nlist =>
      let '(srv, seen) := merge_one olist n in
      (srv ++ if seen then [] else Copy [n]) ++ Merge olist nlist
  end.

(** One old service against the deleted ones: the service left and [rem]. *)
Fixpoint remove_one (srv : Service) (rem : bool) (del : list Service) : Service * bool :=
  match del with
  | [] => (srv, rem)
  | s :: del =>
      if String.eqb (s_Version srv) (s_Version s) then
        let srv := with_nodes srv (delNodes (s_Nodes srv) (s_Nodes s)) in
        remove_one srv (rem || Nat.eqb (length (s_Nodes srv)) 0) del
      else remove_one srv rem del
  end.

Fixpoint Remove (old del : list Service) : list Service :=
  match old with
  | [] => []
  | o :: old =>
      let '(srv, rem) := remove_one o false del in
      (if rem then [] else [srv]) ++ Remove old del
  end.

(** ** Lookup by id, and what the operations do to it *)
Fixpoint find_node (id : string) (nodes : list Node) : option Node :=
  match nodes with
  | [] => None
  | n :: nodes => if String.eqb id (n_Id n) then Some n else find_node id nodes
  end.

Definition ids (nodes : list Node) : list string := map n_Id nodes.

Lemma has_id_spec id nodes : has_id id nodes = true <-> id ∈ ids nodes.
Proof.
  induction nodes as [|n nodes IH]; cbn; [set_solver|].
  destruct (String.eqb_spec id (n_Id n)); set_solver.
Qed.

Lemma has_id_false id nodes : has_id id nodes = false <-> id ∉ ids nodes.
Proof. rewrite <- has_id_spec. by destruct (has_id id nodes). Qed.

Lemma find_node_none id nodes : find_node id nodes = None <-> id ∉ ids nodes.
Proof.
  induction nodes as [|n nodes IH]; cbn; [set_solver|].
  destruct (String.eqb_spec id (n_Id n)); set_solver.
Qed.

Lemma find_node_some id nodes n : find_node id nodes = Some n -> n ∈ nodes /\ n_Id n = id.
Proof.
  induction nodes as [|m nodes IH]; cbn; [done|].
  destruct (String.eqb_spec id (n_Id m)); intros; simplify_eq; set_solver.
Qed.

Lemma find_node_app id l1 l2 :
  find_node id (l1 ++ l2) = match find_node id l1 with Some n => Some n | None => find_node id l2 end.
Proof. induction l1 as [|n l1 IH]; cbn; [done|]. by destruct (String.eqb id (n_Id n)). Qed.

Lemma keep_old_find id old nodes :
  find_node id (keep_old old nodes) =
  match find_node id nodes with Some n => Some n | None => find_node id old end.
Proof.
  revert nodes. induction old as [|o old IH]; intros nodes; cbn; [by case_match|].
  rewrite IH. destruct (has_id (n_Id o) nodes) eqn:Hh.
  - destruct (find_node id nodes) eqn:Hf; [done|]. destruct (String.eqb_spec id (n_Id o)); [|done].
    subst. apply has_id_spec in Hh. apply find_node_none in Hf. set_solver.
  - rewrite find_node_app. cbn. by repeat case_match.
Qed.

Lemma keep_old_NoDup old nodes : NoDup (ids nodes) -> NoDup (ids (keep_old old nodes)).
Proof.
  revert nodes. induction old as [|o old IH]; intros nodes Hn; cbn; [done|]. apply IH.
  destruct (has_id (n_Id o) nodes) eqn:Hh; [done|]. apply has_id_false in Hh.
  unfold ids in *. rewrite map_app. cbn. apply NoDup_app. split_and!; [done|set_solver|].
  apply NoDup_singleton.
Qed.

(** [addNodes] is the union of two node sets by id in which the new side
    wins: looking an id up finds the new node if there is one, else the old
    one, and no id occurs twice when the new list has none twice. *)
Theorem addNodes_union old neu :
  (forall id, find_node id (addNodes old neu) =
     match find_node id neu with Some n => Some n | None => find_node id old end) /\
  (NoDup (ids neu) -> NoDup (ids (addNodes old neu))).
Proof. split; [intros; apply keep_old_find|apply keep_old_NoDup]. Qed.

Lemma delNodes_elem n old del : n ∈ delNodes old del <-> n ∈ old /\ n_Id n ∉ ids del.
Proof.
  induction old as [|o old IH]; cbn; [set_solver|].
  destruct (has_id (n_Id o) del) eqn:Hh;
    [apply has_id_spec in Hh|apply has_id_false in Hh; rewrite elem_of_cons, IH];
    rewrite ?IH, elem_of_cons; naive_solver.
Qed.

(** *** Merge *)
Lemma merge_one_unseen olist n :
  Forall (fun o => s_Version o <> s_Version n) olist -> merge_one olist n = (olist, false).
Proof.
  induction 1 as [|o olist Ho _ IH]; cbn; [done|].
  destruct (String.eqb_spec (s_Version o) (s_Version n)); [done|]. by rewrite IH.
Qed.

Lemma merge_one_seen pre o post n :
  Forall (fun o => s_Version o <> s_Version n) pre -> s_Version o = s_Version n ->
  merge_one (pre ++ o :: post) n = (pre ++ [with_nodes o (addNodes (s_Nodes o) (s_Nodes n))], true).
Proof.
  intros Hp Ho. induction Hp as [|o' pre Ho' _ IH]; cbn.
  - by rewrite (proj2 (String.eqb_eq _ _) Ho).
  - destruct (String.eqb_spec (s_Version o') (s_Version n)); [done|]. by rewrite IH.
Qed.

Lemma CopyService_id s : CopyService s = s.
Proof.
  destruct s as [nm v md eps nodes]. unfold CopyService. cbn. f_equal.
  - induction eps as [|[] eps IH]; cbn; by rewrite ?IH.
  - induction nodes as [|[] nodes IH]; cbn; by rewrite ?IH.
Qed.

(** Merging one new service: when its version is new it is appended to the
    old ones; when an old service has the version, that one takes the union of
    the nodes, the services before it stay, and the services after it are lost,
    since the loop stops at the match. *)
Theorem Merge_one olist n :
  (Forall (fun o => s_Version o <> s_Version n) olist -> Merge olist [n] = olist ++ [n]) /\
  (forall pre o post, olist = pre ++ o :: post ->
     Forall (fun o => s_Version o <> s_Version n) pre -> s_Version o = s_Version n ->
     Merge olist [n] = pre ++ [with_nodes o (addNodes (s_Nodes o) (s_Nodes n))]).
Proof.
  split.
  - intros Hv. cbn. rewrite (merge_one_unseen olist n Hv). cbn.
    by rewrite CopyService_id, app_nil_r.
  - intros pre o post -> Hp Ho. cbn. rewrite (merge_one_seen pre o post n Hp Ho). cbn.
    by rewrite !app_nil_r.
Qed.

(** *** Remove *)

(** What a list of services offers: its versioned nodes. *)
Definition offers (services : list Service) (version : string) (n : Node) : Prop :=
  exists s, s ∈ services /\ s_Version s = version /\ n ∈ s_Nodes s.

Definition removed_from (del : list Service) (version id : string) : Prop :=
  exists s, s ∈ del /\ s_Version s = version /\ id ∈ ids (s_Nodes s).

Lemma remove_one_spec del srv b srv' b' :
  remove_one srv b del = (srv', b') ->
  s_Version srv' = s_Version srv /\
  (forall n, n ∈ s_Nodes srv' <-> n ∈ s_Nodes srv /\ ~ removed_from del (s_Version srv) (n_Id n)) /\
  (b = true -> b' = true) /\
  (b' = true -> b = true \/ s_Nodes srv' = []) /\
  (s_Nodes srv' = [] -> s_Nodes srv <> [] -> b' = true).
Proof.
  revert srv b. induction del as [|s del IH]; intros srv b; cbn.
  { intros [= <- <-]. split_and!; auto; intros n. unfold removed_from. set_solver. }
  destruct (String.eqb_spec (s_Version srv) (s_Version s)) as [Hv|Hv]; intros Hr;
    apply IH in Hr as (Hv' & Hn & H1 & H2 & H3); cbn in *; split_and!; auto.
  - intros n. rewrite Hn, delNodes_elem. unfold removed_from. set_solver.
  - intros Hb. apply H1. by rewrite Hb.
  - intros Hb. destruct (H2 Hb) as [He|]; auto.
    apply orb_true_iff in He as [|He]; auto. right.
    apply Nat.eqb_eq, length_zero_iff_nil in He. destruct (s_Nodes srv') as [|n l]; [done|].
    destruct (proj1 (Hn n) ltac:(set_solver)) as [Hin _]. rewrite He in Hin. set_solver.
  - intros He Hne. destruct (delNodes (s_Nodes srv) (s_Nodes s)) as [|n l] eqn:Hd.
    + apply H1. by destruct b.
    + by apply H3.
  - intros n. rewrite Hn. unfold removed_from. set_solver.
Qed.

(** [Remove old del] offers exactly the versioned nodes of [old] whose id
    [del] does not name under the same version, keeps every service's version,
    and drops the services that the removal empties. *)
Theorem Remove_spec old del :
  (forall version n, offers (Remove old del) version n <->
     offers old version n /\ ~ removed_from del version (n_Id n)) /\
  Forall (fun s => s_Nodes s = [] -> exists o, o ∈ old /\ s_Version o = s_Version s /\ s_Nodes o = [])
         (Remove old del).
Proof.
  induction old as [|o old [IH1 IH2]]; cbn.
  { split; [|done]. unfold offers. set_solver. }
  destruct (remove_one o false del) as [srv rem] eqn:Hr.
  apply remove_one_spec in Hr as (Hv & Hn & _ & H2 & H3). split.
  - intros version n.
    transitivity ((s_Version srv = version /\ n ∈ s_Nodes srv) \/ offers (Remove old del) version n).
    { destruct rem; cbn.
      - destruct (H2 eq_refl) as [|He]; [done|]. rewrite He. set_solver.
      - unfold offers. set_solver. }
    rewrite IH1, Hv, Hn. unfold offers. set_solver.
  - apply Forall_app. split.
    + destruct rem; constructor; [|done]. intros He. exists o. split_and!; [set_solver|done|].
      destruct (s_Nodes o) eqn:Ho; [done|]. by specialize (H3 He ltac:(done)).
    + eapply Forall_impl; [exact IH2|]. intros s Hs He. destruct (Hs He) as (o' & ? & ?). set_solver.
Qed.

(** *** Concrete inputs *)
Definition ex_node (id addr : string) : Node := mkNode None id addr.
Definition ex_service (version : string) (nodes : list Node) : Service :=
  mkService "foo" version ∅ [] nodes.

Lemma addNodes_union_witness :
  addNodes [ex_node "a" "1"; ex_node "b" "2"] [ex_node "b" "3"] = [ex_node "b" "3"; ex_node "a" "1"] /\
  NoDup (ids (addNodes [ex_node "a" "1"; ex_node "b" "2"] [ex_node "b" "3"])).
Proof. split; [by vm_compute|]. apply addNodes_union. by apply NoDup_singleton. Defined.

(** Version 2 is lost. *)
Lemma Merge_one_witness :
  Merge [ex_service "1" [ex_node "a" "1"]; ex_service "2" [ex_node "b" "2"]]
        [ex_service "1" [ex_node "c" "3"]] = [ex_service "1" [ex_node "c" "3"; ex_node "a" "1"]].
Proof.
  destruct (Merge_one [ex_service "1" [ex_node "a" "1"]; ex_service "2" [ex_node "b" "2"]]
              (ex_service "1" [ex_node "c" "3"])) as [_ H].
  rewrite (H [] (ex_service "1" [ex_node "a" "1"]) [ex_service "2" [ex_node "b" "2"]]); by vm_compute.
Defined.
