(* ===== verification/MemRegistry.v ===== *)
(** * The in-memory registry: src/registry/{memory,memory_util,memory_watcher,options}.go

    The state is the two-level map of records, the watchers and the events
    whose delivery goroutine ([go m.sendEvent(...)]) has been spawned and has
    not run yet. Each operation holds the registry's lock throughout, so it is
    one function on the state; the clock is read as one instant [now] per
    operation. Delivery and pruning are further steps, and [step] interleaves
    them all. *)
From Stdlib Require Import FunctionalExtensionality.
From S2P Require Import Prelude Registry.

(** ** memory.go: data *)
Record node := mknode { LastSeen : Z; nd_Node : Node; TTL : Z }.

Record record := mkRecord {
  r_Name : string;
  r_Version : string;
  r_Metadata : gmap string string;
  r_Nodes : gmap string node;
  r_Endpoints : list Endpoint;
}.

Definition set_nodes (f : gmap string node -> gmap string node) (r : record) : record :=
  mkRecord (r_Name r) (r_Version r) (r_Metadata r) (f (r_Nodes r)) (r_Endpoints r).

Notation records_t := (gmap string (gmap string record)).

(** A watcher: its [exit] channel is open or closed; [res] is unbuffered, so an
    event sent on it has been received by a [Next]. *)
Record memWatcher := mkWatcher { w_id : string; wo_Service : string; w_exit : bool }.

Record memRegistry := mkRegistry {
  preload : option (gmap string (list Service));
  records : records_t;
  watchers : gmap string memWatcher;
  sending : list Result;
}.

Definition with_records (m : memRegistry) (rs : records_t) : memRegistry :=
  mkRegistry (preload m) rs (watchers m) (sending m).

(** ** memory_util.go *)
Definition serviceToRecord (s : Service) (ttl now : Z) : record :=
  mkRecord (s_Name s) (s_Version s) (s_Metadata s)
    (foldl (fun nodes n => <[n_Id n := mknode now n ttl]> nodes) ∅ (s_Nodes s))
    (s_Endpoints s).

(** A node whose metadata map is made anew, so no longer nil. *)
Definition copy_node (n : Node) : Node :=
  mkNode (Some (default ∅ (n_Metadata n))) (n_Id n) (n_Address n).

Definition zero_Value : Value := mkValue "" "" [].

Definition recordToService (o : map_order) (r : record) : Service :=
  mkService (r_Name r) (r_Version r) (r_Metadata r)
    (map (fun e => mkEndpoint (Some (default zero_Value (e_Request e)))
                     (Some (default zero_Value (e_Response e))) (e_Metadata e) (e_Name e))
         (r_Endpoints r))
    (map (fun '(_, n) => copy_node (nd_Node n)) (map_range o (r_Nodes r))).

(** ** options.go: [getServiceRecords]

    [services[s.Name][s.Version] = ...] writes into the map made for the key
    being visited or an earlier one; on any other name it writes to a nil map,
    which panics. *)
Fixpoint add_versions (services : records_t) (svc : list Service) (now : Z) : option records_t :=
  match svc with
  | [] => Some services
  | s :: svc =>
      match services !! s_Name s with
      | None => None
      | Some vs =>
          add_versions (<[s_Name s := <[s_Version s := serviceToRecord s 0 now]> vs]> services) svc now
      end
  end.

Fixpoint add_services (services : records_t) (l : list (string * list Service)) (now : Z)
  : option records_t :=
  match l with
  | [] => Some services
  | (name, svc) :: l =>
      let services :=
        match services !! name with Some _ => services | None => <[name := ∅]> services end in
      match add_versions services svc now with
      | None => None
      | Some services => add_services services l now
      end
  end.

Definition getServiceRecords (o : map_order) (ctx : option (gmap string (list Service))) (now : Z)
  : option (option records_t) :=
  match ctx with
  | None => Some None
  | Some memServices =>
      match add_services ∅ (map_range o memServices) now with
      | None => None
      | Some services => Some (Some services)
      end
  end.

(** ** memory.go: operations ([None] is a panic) *)
Definition NewMemoryRegistry (o : map_order) (ctx : option (gmap string (list Service))) (now : Z)
  : option memRegistry :=
  match getServiceRecords o ctx now with
  | None => None
  | Some rs => Some (mkRegistry ctx (default ∅ rs) ∅ [])
  end.

(** One version of a service this registry already has. *)
Definition init_version (name : string) (rs : records_t) (e : string * record) : records_t :=
  let '(version, r) := e in
  match default ∅ (rs !! name) !! version with
  | Some _ => rs
  | None => alter (fun vs => <[version := r]> vs) name rs
  end.

Definition init_service (o : map_order) (rs : records_t) (e : string * gmap string record) : records_t :=
  let '(name, record) := e in
  match rs !! name with
  | None => <[name := record]> rs
  | Some _ => foldl (init_version name) rs (map_range o record)
  end.

(** [opts] can only replace the preloaded services, as far as the registry looks. *)
Definition Init (o : map_order) (opt : option (gmap string (list Service))) (now : Z) (m : memRegistry)
  : option memRegistry :=
  let ctx := match opt with Some s => Some s | None => preload m end in
  match getServiceRecords o ctx now with
  | None => None
  | Some rs =>
      let m := mkRegistry ctx (records m) (watchers m) (sending m) in
      Some (with_records m (foldl (init_service o) (records m) (map_range o (default ∅ rs))))
  end.

Definition spawn_send (m : memRegistry) (action : string) (s : Service) : memRegistry :=
  mkRegistry (preload m) (records m) (watchers m) (sending m ++ [mkResult s action]).

(** The loop that adds the nodes the record does not have; [true] if any. *)
Definition add_node (ttl now : Z) (acc : gmap string node * bool) (n : Node) : gmap string node * bool :=
  let '(nodes, addedNodes) := acc in
  match nodes !! n_Id n with
  | Some _ => (nodes, addedNodes)
  | None =>
      (<[n_Id n := mknode now (copy_node n) ttl]> nodes, true)
  end.

Definition refresh_node (ttl now : Z) (nodes : gmap string node) (n : Node) : gmap string node :=
  alter (fun nd => mknode now (nd_Node nd) ttl) (n_Id n) nodes.

Definition set_record (name version : string) (r : record) (rs : records_t) : records_t :=
  <[name := <[version := r]> (default ∅ (rs !! name))]> rs.

Definition Register (s : Service) (ttl now : Z) (m : memRegistry) : memRegistry :=
  let r := serviceToRecord s ttl now in
  let rs :=
    match records m !! s_Name s with Some _ => records m | None => <[s_Name s := ∅]> (records m) end in
  match default ∅ (rs !! s_Name s) !! s_Version s with
  | None => spawn_send (with_records m (set_record (s_Name s) (s_Version s) r rs)) "update" s
  | Some cur =>
      let '(nodes, addedNodes) := foldl (add_node ttl now) (r_Nodes cur, false) (s_Nodes s) in
      if addedNodes then
        spawn_send (with_records m
          (set_record (s_Name s) (s_Version s) (set_nodes (fun _ => nodes) cur) rs)) "update" s
      else
        with_records m (set_record (s_Name s) (s_Version s)
          (set_nodes (fun nodes => foldl (refresh_node ttl now) nodes (s_Nodes s)) cur) rs)
  end.

Definition Deregister (s : Service) (m : memRegistry) : memRegistry :=
  match records m !! s_Name s with
  | None => m
  | Some vs =>
      let vs :=
        match vs !! s_Version s with
        | None => vs
        | Some cur =>
            let cur := set_nodes (fun nodes => foldl (fun ns n => delete (n_Id n) ns) nodes (s_Nodes s)) cur in
            if Nat.eqb (size (r_Nodes cur)) 0 then delete (s_Version s) vs
            else <[s_Version s := cur]> vs
        end in
      let rs := if Nat.eqb (size vs) 0 then delete (s_Name s) (records m)
                else <[s_Name s := vs]> (records m) in
      spawn_send (with_records m rs) "delete" s
  end.

Inductive reg_error := ErrNotFound.

Definition GetService (o : map_order) (m : memRegistry) (name : string)
  : outcome reg_error (list Service) :=
  match records m !! name with
  | None => Fail ErrNotFound
  | Some vs => Ret (map (fun '(_, r) => recordToService o r) (map_range o vs))
  end.

Definition ListServices (o : map_order) (m : memRegistry) : list Service :=
  concat (map (fun '(_, vs) => map (fun '(_, r) => recordToService o r) (map_range o vs))
              (map_range o (records m))).

Definition Watch (id service : string) (m : memRegistry) : memRegistry :=
  mkRegistry (preload m) (records m) (<[id := mkWatcher id service false]> (watchers m)) (sending m).

(** *** [ttlPrune]: one tick *)
Definition expired (now : Z) (n : node) : bool :=
  negb (TTL n =? 0)%Z && (TTL n <? time_Since now (LastSeen n))%Z.

Definition prune_node (name version : string) (now : Z) (rs : records_t) (e : string * node) : records_t :=
  let '(id, n) := e in
  if expired now n then alter (alter (set_nodes (delete id)) version) name rs else rs.

Definition prune_record (o : map_order) (name : string) (now : Z) (rs : records_t) (e : string * record)
  : records_t :=
  let '(version, r) := e in foldl (prune_node name version now) rs (map_range o (r_Nodes r)).

Definition prune_service (o : map_order) (now : Z) (rs : records_t) (e : string * gmap string record)
  : records_t :=
  let '(name, vs) := e in foldl (prune_record o name now) rs (map_range o vs).

Definition ttlPrune (o : map_order) (now : Z) (m : memRegistry) : memRegistry :=
  with_records m (foldl (prune_service o now) (records m) (map_range o (records m))).

(** *** [sendEvent]

    The watchers are copied under the lock, then visited: a stopped one is
    removed, an open one is offered the event for [sendEventTime]; [ready]
    says which of them receive in time. *)
Definition send_one (ready : string -> bool) (r : Result)
    (acc : gmap string memWatcher * list (string * Result)) (e : string * memWatcher)
  : gmap string memWatcher * list (string * Result) :=
  let '(ws, delivered) := acc in
  let '(_, w) := e in
  if w_exit w then (delete (w_id w) ws, delivered)
  else (ws, if ready (w_id w) then delivered ++ [(w_id w, r)] else delivered).

Definition sendEvent (o : map_order) (ready : string -> bool) (r : Result) (m : memRegistry)
  : memRegistry * list (string * Result) :=
  let '(ws, delivered) := foldl (send_one ready r) (watchers m, []) (map_range o (watchers m)) in
  (mkRegistry (preload m) (records m) ws (sending m), delivered).

(** ** memory_watcher.go *)
Definition Stop (m : memRegistry) (id : string) : memRegistry :=
  mkRegistry (preload m) (records m)
    (alter (fun w => mkWatcher (w_id w) (wo_Service w) true) id (watchers m)) (sending m).

(** [Next] on the events offered before [exit] is seen closed: the first one
    the watch options select, and the events not yet taken. [None]: "watcher
    stopped". *)
Fixpoint Next (w : memWatcher) (offered : list Result) : option (Result * list Result) :=
  match offered with
  | [] => None
  | r :: offered =>
      if negb (String.eqb (wo_Service w) "") && negb (String.eqb (wo_Service w) (s_Name (res_Service r)))
      then Next w offered
      else Some (r, offered)
  end.

(** ** The registry as a transition system *)
Inductive step : memRegistry -> memRegistry -> Prop :=
| step_init o opt now m m' : Init o opt now m = Some m' -> step m m'
| step_register s ttl now m : step m (Register s ttl now m)
| step_deregister s m : step m (Deregister s m)
| step_watch id service m : watchers m !! id = None -> step m (Watch id service m)
| step_stop id m : step m (Stop m id)
| step_prune o now m : step m (ttlPrune o now m)
| step_send o ready r pre post m :
    sending m = pre ++ r :: post ->
    step m (fst (sendEvent o ready r
                   (mkRegistry (preload m) (records m) (watchers m) (pre ++ post)))).

Inductive reachable (m0 : memRegistry) : memRegistry -> Prop :=
| reach_refl : reachable m0 m0
| reach_step m m' : reachable m0 m -> step m m' -> reachable m0 m'.

(** ** Pruning *)
Lemma set_nodes_id r : set_nodes id r = r.
Proof. by destruct r. Qed.

Lemma set_nodes_compose f g r : set_nodes f (set_nodes g r) = set_nodes (fun ns => f (g ns)) r.
Proof. done. Qed.

Definition prune_live (now : Z) (r : record) : record :=
  set_nodes (filter (fun e => expired now e.2 = false)) r.

Lemma prune_node_alter name version now rs e :
  prune_node name version now rs e =
  alter (alter (set_nodes (fun ns => if expired now e.2 then delete e.1 ns else ns)) version) name rs.
Proof.
  destruct e as [id n]. unfold prune_node. cbn. destruct (expired now n); [done|].
  symmetry. apply alter_id. intros vs _. apply alter_id. intros r _. apply set_nodes_id.
Qed.

Lemma foldl_ext_eq {A B} (f g : A -> B -> A) l a :
  (forall a b, f a b = g a b) -> foldl f a l = foldl g a l.
Proof. intros Hfg. revert a. induction l as [|b l IH]; intros a; cbn; [done|]. by rewrite Hfg. Qed.

Lemma foldl_set_nodes {X} (g : X -> gmap string node -> gmap string node) l r :
  foldl (fun r x => set_nodes (g x) r) r l = set_nodes (fun ns => foldl (fun ns x => g x ns) ns l) r.
Proof.
  revert r. induction l as [|x l IH]; intros r; cbn; [by rewrite set_nodes_id|]. by rewrite IH.
Qed.

Lemma prune_record_alter o name now rs e :
  prune_record o name now rs e =
  alter (alter (set_nodes (fun ns =>
    foldl (fun ns x => if expired now x.2 then delete x.1 ns else ns) ns (map_range o (r_Nodes e.2)))) e.1)
    name rs.
Proof.
  destruct e as [version r]. cbn.
  rewrite (foldl_ext_eq _ (fun rs x => alter (alter (set_nodes (fun ns =>
    if expired now x.2 then delete x.1 ns else ns)) version) name rs)) by (intros; apply prune_node_alter).
  set (g := fun x : string * node => set_nodes (fun ns => if expired now x.2 then delete x.1 ns else ns)).
  etrans; [apply (foldl_alter (fun x vs => alter (g x) version vs))|]. f_equal.
  apply functional_extensionality. intros vs.
  etrans; [apply (foldl_alter g)|]. f_equal.
  apply functional_extensionality. intros r'. apply foldl_set_nodes.
Qed.

Lemma prune_service_alter o now rs e :
  prune_service o now rs e =
  alter (fun vs => foldl (fun vs x => alter (set_nodes (fun ns =>
    foldl (fun ns y => if expired now y.2 then delete y.1 ns else ns) ns (map_range o (r_Nodes x.2)))) x.1 vs)
    vs (map_range o e.2)) e.1 rs.
Proof.
  destruct e as [name vs]. cbn.
  rewrite (foldl_ext_eq _ _ _ _ (fun a b => prune_record_alter o name now a b)).
  apply (foldl_alter (fun x vs => alter (set_nodes (fun ns =>
    foldl (fun ns y => if expired now y.2 then delete y.1 ns else ns) ns (map_range o (r_Nodes x.2)))) x.1 vs)).
Qed.

Lemma ttlPrune_records o now m :
  records (ttlPrune o now m) = (fun vs : gmap string record => prune_live now <$> vs) <$> records m.
Proof.
  unfold ttlPrune. cbn.
  rewrite (foldl_ext_eq _ _ _ _ (fun a b => prune_service_alter o now a b)).
  set (live := fun (r : record) (ns : gmap string node) => foldl (fun ns (y : string * node) =>
    if expired now y.2 then delete y.1 ns else ns) ns (map_range o (r_Nodes r))).
  etrans; [apply (foldl_alter_range o (fun vs' vs => foldl (fun vs x =>
    alter (set_nodes (live x.2)) x.1 vs) vs (map_range o vs')))|].
  apply map_fmap_ext. intros name vs _.
  etrans; [apply (foldl_alter_range o (fun r => set_nodes (live r)))|].
  apply map_fmap_ext. intros version r _. unfold prune_live, set_nodes, live. cbn.
  by rewrite foldl_delete_range.
Qed.

Definition get_record (rs : records_t) (name version : string) : option record :=
  rs !! name ≫= (.!! version).

Definition get_node (rs : records_t) (name version id : string) : option node :=
  get_record rs name version ≫= fun r => r_Nodes r !! id.

Lemma ttlPrune_spec_aux o now m name version id :
  get_node (records (ttlPrune o now m)) name version id =
    (n ← get_node (records m) name version id; if expired now n then None else Some n) /\
  (get_record (records (ttlPrune o now m)) name version =
     prune_live now <$> get_record (records m) name version) /\
  dom (records (ttlPrune o now m)) = dom (records m) /\
  (forall n, expired now n = true <->
     TTL n <> 0%Z /\ (TTL n < time_Sub now (LastSeen n))%Z).
Proof.
  assert (get_record (records (ttlPrune o now m)) name version =
     prune_live now <$> get_record (records m) name version) as Hr.
  { unfold get_record. rewrite ttlPrune_records, (lookup_fmap _ (records m)).
    destruct (records m !! name) as [vs|]; [|done]. apply (lookup_fmap _ vs). }
  split_and!; [|done| |].
  - unfold get_node. rewrite Hr. clear Hr. destruct (get_record (records m) name version) as [r|]; [|done]. cbn.
    rewrite map_lookup_filter. destruct (r_Nodes r !! id) as [n|]; [|done]. cbn.
    destruct (expired now n); cbn; [by rewrite option_guard_False|by rewrite option_guard_True].
  - by rewrite ttlPrune_records, dom_fmap_L.
  - intros n. unfold expired, time_Since.
    rewrite andb_true_iff, negb_true_iff, Z.eqb_neq, Z.ltb_lt. done.
Qed.

(** A pruning tick removes exactly the nodes whose TTL is not 0 and was last
    refreshed longer ago than it, whatever order the maps are visited in, and
    nothing else: no record, service or other node changes. *)
Theorem ttlPrune_spec o now m name version id :
  get_node (records (ttlPrune o now m)) name version id =
    (n ← get_node (records m) name version id; if expired now n then None else Some n) /\
  (get_record (records (ttlPrune o now m)) name version =
     prune_live now <$> get_record (records m) name version) /\
  dom (records (ttlPrune o now m)) = dom (records m) /\
  (forall n, expired now n = true <->
     TTL n <> 0%Z /\ (TTL n < time_Sub now (LastSeen n))%Z).
Proof. apply ttlPrune_spec_aux. Qed.

(** ** Registering *)
Lemma get_set_record name version r rs n v :
  get_record (set_record name version r rs) n v =
  if decide (n = name /\ v = version) then Some r else get_record rs n v.
Proof.
  unfold get_record, set_record. destruct (decide (n = name)) as [->|Hn].
  - rewrite lookup_insert_eq. cbn. destruct (decide (v = version)) as [->|Hv].
    + by rewrite lookup_insert_eq, decide_True.
    + rewrite lookup_insert_ne, decide_False by (done || naive_solver).
      destruct (rs !! name); cbn; [done|]. apply lookup_empty.
  - by rewrite lookup_insert_ne, decide_False by naive_solver.
Qed.

Definition fresh (ttl now : Z) (n : Node) : node := mknode now n ttl.

Lemma add_nodes_spec ttl now l nodes b :
  let r := foldl (add_node ttl now) (nodes, b) l in
  (forall id, r.1 !! id =
     match nodes !! id with
     | Some nd => Some nd
     | None => (fun n => fresh ttl now (copy_node n)) <$> find_node id l
     end) /\
  r.2 = b || existsb (fun n => bool_decide (nodes !! n_Id n = None)) l.
Proof.
  cbn. revert nodes b. induction l as [|n l IH]; intros nodes b; cbn.
  { split; [|by rewrite orb_false_r]. intros id. by destruct (nodes !! id). }
  destruct (nodes !! n_Id n) as [nd|] eqn:Hn.
  - destruct (IH nodes b) as [H1 H2]. split; [|done]. intros id. rewrite H1.
    destruct (nodes !! id) eqn:Hid; [done|]. destruct (String.eqb_spec id (n_Id n)); [|done].
    congruence.
  - destruct (IH (<[n_Id n := mknode now (copy_node n) ttl]> nodes) true) as [H1 H2]. rewrite H2. split.
    + intros id. rewrite H1. destruct (String.eqb_spec id (n_Id n)) as [->|Hne].
      * by rewrite lookup_insert_eq, Hn.
      * by rewrite lookup_insert_ne by done.
    + cbn. by rewrite orb_true_r.
Qed.

Lemma refresh_nodes_spec ttl now l nodes id :
  foldl (refresh_node ttl now) nodes l !! id =
  if has_id id l then (fun nd => mknode now (nd_Node nd) ttl) <$> nodes !! id else nodes !! id.
Proof.
  revert nodes. induction l as [|n l IH]; intros nodes; cbn; [done|]. rewrite IH.
  unfold refresh_node. destruct (String.eqb_spec id (n_Id n)) as [->|Hne].
  - rewrite lookup_alter_eq. destruct (has_id _ l); [|done]. by destruct (nodes !! n_Id n).
  - by rewrite lookup_alter_ne by done.
Qed.

Lemma record_nodes_spec ttl now s id :
  r_Nodes (serviceToRecord s ttl now) !! id = fresh ttl now <$> find_node id (rev (s_Nodes s)).
Proof.
  cbn. induction (s_Nodes s) as [|n l IH] using rev_ind; [done|].
  rewrite foldl_app, rev_unit. cbn. destruct (String.eqb_spec id (n_Id n)) as [->|Hne].
  - by rewrite lookup_insert_eq.
  - by rewrite lookup_insert_ne by done.
Qed.

Lemma Register_spec_aux s ttl now m :
  let m' := Register s ttl now m in
  (forall n v, ~ (n = s_Name s /\ v = s_Version s) ->
     get_record (records m') n v = get_record (records m) n v) /\
  match get_record (records m) (s_Name s) (s_Version s) with
  | None =>
      get_record (records m') (s_Name s) (s_Version s) = Some (serviceToRecord s ttl now) /\
      sending m' = sending m ++ [mkResult s "update"]
  | Some cur => exists nodes,
      get_record (records m') (s_Name s) (s_Version s) = Some (set_nodes (fun _ => nodes) cur) /\
      if existsb (fun n => bool_decide (r_Nodes cur !! n_Id n = None)) (s_Nodes s) then
        (forall id, nodes !! id = match r_Nodes cur !! id with
                                  | Some nd => Some nd
                                  | None => (fun n => fresh ttl now (copy_node n)) <$> find_node id (s_Nodes s)
                                  end) /\
        sending m' = sending m ++ [mkResult s "update"]
      else
        (forall id, nodes !! id =
           if has_id id (s_Nodes s) then (fun nd => mknode now (nd_Node nd) ttl) <$> r_Nodes cur !! id
           else r_Nodes cur !! id) /\
        sending m' = sending m
  end.
Proof.
  cbn zeta. unfold Register.
  set (rs := match records m !! s_Name s with Some _ => records m | None => _ end).
  assert (forall n v, get_record rs n v = get_record (records m) n v) as Hrs.
  { intros n v. unfold rs, get_record. destruct (records m !! s_Name s) eqn:Hn; [done|].
    destruct (decide (n = s_Name s)) as [->|Hne].
    - rewrite lookup_insert_eq, Hn. apply lookup_empty.
    - by rewrite lookup_insert_ne. }
  assert (default ∅ (rs !! s_Name s) !! s_Version s =
          get_record (records m) (s_Name s) (s_Version s)) as ->.
  { rewrite <- Hrs. unfold get_record. destruct (rs !! s_Name s); [done|]. apply lookup_empty. }
  destruct (get_record (records m) (s_Name s) (s_Version s)) as [cur|] eqn:Hcur.
  - pose proof (add_nodes_spec ttl now (s_Nodes s) (r_Nodes cur) false) as Ha. cbn zeta in Ha.
    destruct (foldl (add_node ttl now) _ _) as [nodes added]. cbn in Ha. destruct Ha as [Ha1 ->].
    cbn [orb]. destruct (existsb _ (s_Nodes s)); cbn [records with_records spawn_send sending].
    + split; [intros n v Hne; by rewrite get_set_record, decide_False|]. exists nodes.
      by rewrite get_set_record, decide_True.
    + split; [intros n v Hne; by rewrite get_set_record, decide_False|].
      exists (foldl (refresh_node ttl now) (r_Nodes cur) (s_Nodes s)).
      rewrite get_set_record, decide_True by done. split_and!; [done| |done].
      apply refresh_nodes_spec.
  - cbn. split; [intros n v Hne; by rewrite get_set_record, decide_False|].
    by rewrite get_set_record, decide_True.
Qed.

(** C3: [Register] touches only the service's own version. A version that is new
    is recorded whole, with an update event. On a known version, if some node is
    new the new nodes are added with the given TTL and an update event is sent,
    and every node that was there keeps its address, TTL and time stamp, even
    when it is registered again; if no node is new, the nodes named have their
    TTL and time stamp refreshed, the others are left, and no event is sent. *)
Theorem Register_spec s ttl now m :
  let m' := Register s ttl now m in
  (forall n v, ~ (n = s_Name s /\ v = s_Version s) ->
     get_record (records m') n v = get_record (records m) n v) /\
  match get_record (records m) (s_Name s) (s_Version s) with
  | None =>
      get_record (records m') (s_Name s) (s_Version s) = Some (serviceToRecord s ttl now) /\
      sending m' = sending m ++ [mkResult s "update"]
  | Some cur => exists nodes,
      get_record (records m') (s_Name s) (s_Version s) = Some (set_nodes (fun _ => nodes) cur) /\
      if existsb (fun n => bool_decide (r_Nodes cur !! n_Id n = None)) (s_Nodes s) then
        (forall id, nodes !! id = match r_Nodes cur !! id with
                                  | Some nd => Some nd
                                  | None => (fun n => fresh ttl now (copy_node n)) <$> find_node id (s_Nodes s)
                                  end) /\
        sending m' = sending m ++ [mkResult s "update"]
      else
        (forall id, nodes !! id =
           if has_id id (s_Nodes s) then (fun nd => mknode now (nd_Node nd) ttl) <$> r_Nodes cur !! id
           else r_Nodes cur !! id) /\
        sending m' = sending m
  end.
Proof. apply Register_spec_aux. Qed.

(** ** Deregistering *)
Lemma delete_nodes_spec (l : list Node) (nodes : gmap string node) id :
  foldl (fun ns n => delete (n_Id n) ns) nodes l !! id = if has_id id l then None else nodes !! id.
Proof.
  revert nodes. induction l as [|n l IH]; intros nodes; cbn; [done|]. rewrite IH.
  destruct (String.eqb_spec id (n_Id n)) as [->|Hne].
  - rewrite lookup_delete_eq. by destruct (has_id _ l).
  - by rewrite lookup_delete_ne by done.
Qed.

Lemma size_zero {A} (m : gmap string A) : Nat.eqb (size m) 0 = true <-> m = ∅.
Proof. rewrite Nat.eqb_eq. apply map_size_empty_iff. Qed.

Lemma Deregister_spec_aux s m :
  let m' := Deregister s m in
  match records m !! s_Name s with
  | None => m' = m
  | Some vs =>
      sending m' = sending m ++ [mkResult s "delete"] /\
      (forall n v, ~ (n = s_Name s /\ v = s_Version s) ->
         get_record (records m') n v = get_record (records m) n v) /\
      (forall r, get_record (records m') (s_Name s) (s_Version s) = Some r <->
         exists cur, vs !! s_Version s = Some cur /\ r_Nodes r <> ∅ /\
           r = set_nodes (filter (fun e => has_id e.1 (s_Nodes s) = false)) cur) /\
      (records m' !! s_Name s = None <-> forall v, get_record (records m') (s_Name s) v = None)
  end.
Proof.
  cbn zeta. unfold Deregister. destruct (records m !! s_Name s) as [vs|] eqn:Hvs; [|done].
  set (del := set_nodes (fun nodes => foldl (fun ns n => delete (n_Id n) ns) nodes (s_Nodes s))).
  set (vs' := match vs !! s_Version s with Some cur => _ | None => vs end).
  cbn [records with_records spawn_send sending].
  set (rs := if Nat.eqb (size vs') 0 then _ else _).
  assert (forall n v, get_record rs n v =
    if decide (n = s_Name s) then vs' !! v else get_record (records m) n v) as Hrs.
  { intros n v. unfold rs, get_record. destruct (Nat.eqb (size vs') 0) eqn:Hz.
    - apply size_zero in Hz. destruct (decide (n = s_Name s)) as [->|Hne].
      + rewrite lookup_delete_eq, Hz. symmetry. apply lookup_empty.
      + by rewrite lookup_delete_ne.
    - destruct (decide (n = s_Name s)) as [->|Hne].
      + by rewrite lookup_insert_eq.
      + by rewrite lookup_insert_ne. }
  assert (forall cur, r_Nodes (del cur) = r_Nodes (set_nodes (filter (fun e => has_id e.1 (s_Nodes s) = false)) cur)) as Hdel.
  { intros cur. apply map_eq. intros id. cbn. rewrite delete_nodes_spec, map_lookup_filter.
    destruct (r_Nodes cur !! id); cbn; [|by case_match].
    destruct (has_id id (s_Nodes s)) eqn:Hh;
      [by rewrite option_guard_False by (cbn; congruence)|by rewrite option_guard_True by (cbn; congruence)]. }
  split; [done|]. split_and!.
  - intros n v Hne. rewrite Hrs. destruct (decide (n = s_Name s)) as [->|]; [|done].
    unfold get_record. rewrite Hvs. cbn. unfold vs'.
    destruct (vs !! s_Version s) as [cur|]; [|done]. fold del.
    case_match; [apply lookup_delete_ne|apply lookup_insert_ne]; naive_solver.
  - intros r. rewrite Hrs, decide_True by done. unfold vs'.
    destruct (vs !! s_Version s) as [cur|] eqn:Hv; [|naive_solver]. fold del.
    assert (del cur = set_nodes (filter (fun e => has_id e.1 (s_Nodes s) = false)) cur) as Hd.
    { unfold del, set_nodes. f_equal. apply Hdel. }
    destruct (Nat.eqb (size (r_Nodes (del cur))) 0) eqn:Hz.
    + apply size_zero in Hz. rewrite lookup_delete_eq. split; [done|].
      intros (cur' & [= <-] & Hne & ->). by rewrite Hdel in Hz.
    + rewrite lookup_insert_eq, Hd. split; [intros [= <-]; exists cur; split_and!; try done|naive_solver].
      intros He. rewrite Hd in Hz. apply size_zero in He. congruence.
  - setoid_rewrite Hrs. setoid_rewrite decide_True; [|done..]. unfold rs.
    destruct (Nat.eqb (size vs') 0) eqn:Hz.
    + apply size_zero in Hz. rewrite lookup_delete_eq, Hz. split; [intros _ v; apply lookup_empty|done].
    + rewrite lookup_insert_eq. split; [done|]. intros He. exfalso.
      assert (vs' = ∅) as Hemp%size_zero by by apply map_empty. congruence.
Qed.

(** [Deregister] removes exactly the nodes named from the service's own
    version, drops the version when it has no node left and the service when it
    has no version left, and sends a delete event whenever the service was
    known at all; on an unknown service it does nothing. *)
Theorem Deregister_spec s m :
  let m' := Deregister s m in
  match records m !! s_Name s with
  | None => m' = m
  | Some vs =>
      sending m' = sending m ++ [mkResult s "delete"] /\
      (forall n v, ~ (n = s_Name s /\ v = s_Version s) ->
         get_record (records m') n v = get_record (records m) n v) /\
      (forall r, get_record (records m') (s_Name s) (s_Version s) = Some r <->
         exists cur, vs !! s_Version s = Some cur /\ r_Nodes r <> ∅ /\
           r = set_nodes (filter (fun e => has_id e.1 (s_Nodes s) = false)) cur) /\
      (records m' !! s_Name s = None <-> forall v, get_record (records m') (s_Name s) v = None)
  end.
Proof. apply Deregister_spec_aux. Qed.

(** ** The key invariant *)
Definition record_ok (name version : string) (r : record) : Prop :=
  r_Name r = name /\ r_Version r = version /\
  forall id nd, r_Nodes r !! id = Some nd -> n_Id (nd_Node nd) = id.

Definition records_ok (rs : records_t) : Prop :=
  forall name version r, get_record rs name version = Some r -> record_ok name version r.

Definition registry_ok (m : memRegistry) : Prop :=
  records_ok (records m) /\ (forall id w, watchers m !! id = Some w -> w_id w = id).

Lemma serviceToRecord_ok s ttl now : record_ok (s_Name s) (s_Version s) (serviceToRecord s ttl now).
Proof.
  split_and!; [done..|]. intros id nd. rewrite record_nodes_spec.
  intros (n & Hn & ->)%fmap_Some. by apply find_node_some in Hn as [_ ?].
Qed.

Lemma records_ok_insert rs name vs :
  records_ok rs -> (forall v r, vs !! v = Some r -> record_ok name v r) ->
  records_ok (<[name := vs]> rs).
Proof.
  intros Hrs Hvs n v r. unfold get_record. rewrite lookup_insert.
  case_decide as Hn; subst; [apply Hvs|apply Hrs].
Qed.

Lemma records_ok_lookup rs name vs v r :
  records_ok rs -> rs !! name = Some vs -> vs !! v = Some r -> record_ok name v r.
Proof. intros Hrs Hn Hv. apply Hrs. unfold get_record. by rewrite Hn. Qed.

Lemma add_versions_ok svc services now services' :
  records_ok services -> add_versions services svc now = Some services' -> records_ok services'.
Proof.
  revert services. induction svc as [|s svc IH]; intros services Hok; cbn; [by intros [= <-]|].
  destruct (services !! s_Name s) as [vs|] eqn:Hvs; [|done]. apply IH.
  apply records_ok_insert; [done|]. intros v r. rewrite lookup_insert. case_decide as Hv; subst.
  - intros [= <-]. apply serviceToRecord_ok.
  - by apply records_ok_lookup with services.
Qed.

Lemma add_services_ok l services now services' :
  records_ok services -> add_services services l now = Some services' -> records_ok services'.
Proof.
  revert services. induction l as [|[name svc] l IH]; intros services Hok; cbn; [by intros [= <-]|].
  destruct (add_versions _ svc now) as [services1|] eqn:Ha; [|done]. apply IH.
  eapply add_versions_ok; [|done]. case_match; [done|]. apply records_ok_insert; [done|].
  intros v r. rewrite lookup_empty. done.
Qed.

Lemma getServiceRecords_ok o ctx now rs :
  getServiceRecords o ctx now = Some rs -> records_ok (default ∅ rs).
Proof.
  unfold getServiceRecords. assert (records_ok ∅) as He by (intros n v r; done).
  destruct ctx as [svcs|]; [|by intros [= <-]].
  destruct (add_services ∅ _ now) as [services|] eqn:Ha; [|done]. intros [= <-].
  by eapply add_services_ok.
Qed.

Lemma init_version_get name rs e n v :
  is_Some (rs !! name) ->
  get_record (init_version name rs e) n v =
  match get_record rs n v with
  | Some r => Some r
  | None => if decide (n = name /\ v = e.1) then Some e.2 else None
  end /\ (forall n, is_Some (init_version name rs e !! n) <-> is_Some (rs !! n)).
Proof.
  intros [vs Hvs]. destruct e as [version r]. cbn. unfold get_record. rewrite Hvs. cbn.
  destruct (vs !! version) as [r'|] eqn:Hv; split; try done.
  - destruct (rs !! n ≫= _) eqn:Hn; [done|]. rewrite decide_False; [done|].
    intros [-> ->]. rewrite Hvs in Hn. cbn in Hn. congruence.
  - rewrite lookup_alter. case_decide as Hn; [subst n|].
    + rewrite Hvs. cbn. rewrite lookup_insert. case_decide as Hd; subst.
      * by rewrite Hv, decide_True.
      * rewrite (decide_False (P := name = name /\ v = version)) by naive_solver.
        by destruct (vs !! v).
    + rewrite decide_False by naive_solver. by destruct (rs !! n ≫= _).
  - intros n'. rewrite lookup_alter. case_decide; subst; [|done].
    by rewrite fmap_is_Some.
Qed.

Lemma init_versions_get name l rs n v :
  is_Some (rs !! name) -> NoDup l.*1 ->
  get_record (foldl (init_version name) rs l) n v =
  match get_record rs n v with
  | Some r => Some r
  | None => if decide (n = name) then (list_to_map l : gmap string record) !! v else None
  end /\ (forall n, is_Some (foldl (init_version name) rs l !! n) <-> is_Some (rs !! n)).
Proof.
  revert rs. induction l as [|[v' r'] l IH]; intros rs Hs Hnd; cbn [foldl list_to_map foldr].
  { split; [|done]. destruct (get_record rs n v); [done|]. by case_decide. }
  cbn in Hnd. apply NoDup_cons in Hnd as [Hv' Hnd].
  destruct (init_version_get name rs (v', r') n v Hs) as [H1 H2].
  destruct (IH (init_version name rs (v', r')) ltac:(by apply H2) Hnd) as [H3 H4].
  split; [|intros n'; by rewrite H4, H2]. rewrite H3, H1. cbn.
  destruct (get_record rs n v); [done|]. destruct (decide (n = name)) as [->|Hn].
  - rewrite lookup_insert. destruct (decide (v' = v)) as [->|Hv].
    + by rewrite decide_True.
    + rewrite decide_False by naive_solver. done.
  - rewrite decide_False by naive_solver. done.
Qed.

Lemma init_service_get o rs e n v :
  get_record (init_service o rs e) n v =
  match get_record rs n v with
  | Some r => Some r
  | None => if decide (n = e.1) then e.2 !! v else None
  end.
Proof.
  destruct e as [name record]. cbn. destruct (rs !! name) as [vs|] eqn:Hn.
  - rewrite (proj1 (init_versions_get name (map_range o record) rs n v
      ltac:(by eexists) ltac:(apply NoDup_map_range))).
    rewrite (list_to_map_proper (M := gmap string) _ (map_to_list record));
      [by rewrite list_to_map_to_list|apply NoDup_map_range|apply map_range_perm].
  - unfold get_record. rewrite lookup_insert. destruct (decide (n = name)) as [->|Hne].
    + rewrite Hn. cbn. by rewrite decide_True.
    + rewrite decide_False by done. by destruct (rs !! n ≫= _).
Qed.

Lemma init_services_get o l rs n v :
  NoDup l.*1 ->
  get_record (foldl (init_service o) rs l) n v =
  match get_record rs n v with
  | Some r => Some r
  | None => get_record (list_to_map l) n v
  end.
Proof.
  revert rs. induction l as [|[n' vs] l IH]; intros rs Hnd; cbn [foldl list_to_map foldr].
  { by destruct (get_record rs n v). }
  cbn in Hnd. apply NoDup_cons in Hnd as [Hn' Hnd]. rewrite IH, init_service_get by done. cbn.
  destruct (get_record rs n v); [done|]. unfold get_record at 2. rewrite lookup_insert.
  destruct (decide (n = n')) as [->|Hne].
  - rewrite decide_True by done. cbn. destruct (vs !! v); [done|].
    unfold get_record. rewrite (not_elem_of_list_to_map_1 l n'); done.
  - by rewrite decide_False.
Qed.

Lemma Init_get o opt now m m' pre :
  getServiceRecords o (match opt with Some s => Some s | None => preload m end) now = Some pre ->
  Init o opt now m = Some m' ->
  forall n v, get_record (records m') n v =
    match get_record (records m) n v with
    | Some r => Some r
    | None => get_record (default ∅ pre) n v
    end.
Proof.
  unfold Init. intros -> [= <-] n v. cbn.
  rewrite init_services_get by apply NoDup_map_range.
  by rewrite (list_to_map_proper (M := gmap string) _ (map_to_list (default ∅ pre))),
    list_to_map_to_list by (apply NoDup_map_range || apply map_range_perm).
Qed.

Lemma Init_spec_aux o opt now m :
  match getServiceRecords o (match opt with Some s => Some s | None => preload m end) now with
  | None => Init o opt now m = None
  | Some pre => exists m', Init o opt now m = Some m' /\
      watchers m' = watchers m /\ sending m' = sending m /\
      forall n v, get_record (records m') n v =
        match get_record (records m) n v with
        | Some r => Some r
        | None => get_record (default ∅ pre) n v
        end
  end.
Proof.
  destruct (getServiceRecords o _ now) as [pre|] eqn:Hp; [|unfold Init; by rewrite Hp].
  destruct (Init o opt now m) as [m'|] eqn:Hi; [|unfold Init in Hi; by rewrite Hp in Hi].
  exists m'. split; [done|]. pose proof (Init_get _ _ _ _ _ _ Hp Hi) as Hg.
  unfold Init in Hi. rewrite Hp in Hi. by simplify_eq.
Qed.

(** [Init] merges the preloaded services by name and version without ever
    overwriting: a version the registry tracks keeps its record, any other is
    the preloaded one, and watchers and events are untouched. It panics exactly
    when building the preloaded records does. *)
Theorem Init_spec o opt now m :
  match getServiceRecords o (match opt with Some s => Some s | None => preload m end) now with
  | None => Init o opt now m = None
  | Some pre => exists m', Init o opt now m = Some m' /\
      watchers m' = watchers m /\ sending m' = sending m /\
      forall n v, get_record (records m') n v =
        match get_record (records m) n v with
        | Some r => Some r
        | None => get_record (default ∅ pre) n v
        end
  end.
Proof. apply Init_spec_aux. Qed.

Lemma record_ok_nodes name version r nodes :
  record_ok name version r -> (forall id nd, nodes !! id = Some nd -> n_Id (nd_Node nd) = id) ->
  record_ok name version (set_nodes (fun _ => nodes) r).
Proof. intros (? & ? & _) Hn. by split_and!. Qed.

Lemma records_ok_set name version r rs :
  records_ok rs -> record_ok name version r -> records_ok (set_record name version r rs).
Proof.
  intros Hrs Hr n v r'. rewrite get_set_record. case_decide as Hd; [|apply Hrs].
  destruct Hd as [-> ->]. by intros [= <-].
Qed.

Lemma step_ok m m' : registry_ok m -> step m m' -> registry_ok m'.
Proof.
  intros [Hok Hw]. destruct 1 as [o opt now m m' Hi|s ttl now m|s m|id service m Hid|id m|o now m|o ready r pre post m Hs].
  - pose proof (Init_spec_aux o opt now m) as Hspec.
    destruct (getServiceRecords o _ now) as [pr|] eqn:Hp; [|congruence].
    destruct Hspec as (m'' & Hi' & Hw' & _ & Hg). simplify_eq. split; [|by rewrite Hw'].
    intros n v r. rewrite Hg. destruct (get_record (records m) n v) eqn:Hn.
    + intros [= <-]. by apply Hok.
    + by apply getServiceRecords_ok in Hp; apply Hp.
  - destruct (Register_spec_aux s ttl now m) as [Hfr Hat]. split.
    2:{ unfold Register. repeat (case_match; cbn); exact Hw. }
    intros n v r Hr. destruct (decide (n = s_Name s /\ v = s_Version s)) as [[-> ->]|Hne];
      [|apply Hok; by rewrite <- Hfr].
    destruct (get_record (records m) (s_Name s) (s_Version s)) as [cur|] eqn:Hcur.
    + destruct Hat as (nodes & Hg & Hcase). rewrite Hr in Hg. simplify_eq.
      apply Hok in Hcur as Hc. apply record_ok_nodes; [done|]. destruct Hc as (_ & _ & Hc).
      intros id nd. destruct (existsb _ _); destruct Hcase as [-> _]; case_match eqn:Hid.
      * intros [= <-]. by apply Hc.
      * intros (n & Hn & ->)%fmap_Some. by apply find_node_some in Hn as [_ ?].
      * intros (nd' & Hn & ->)%fmap_Some. by apply (Hc id nd').
      * apply Hc.
    + destruct Hat as [Hg _]. rewrite Hr in Hg. simplify_eq. apply serviceToRecord_ok.
  - pose proof (Deregister_spec_aux s m) as Hd. cbn zeta in Hd.
    destruct (records m !! s_Name s) as [vs|] eqn:Hvs; [|by rewrite Hd].
    destruct Hd as (_ & Hfr & Hat & _). split.
    2:{ unfold Deregister. repeat (case_match; cbn); exact Hw. }
    intros n v r Hr. destruct (decide (n = s_Name s /\ v = s_Version s)) as [[-> ->]|Hne];
      [|apply Hok; by rewrite <- Hfr].
    apply Hat in Hr as (cur & Hcur & _ & ->).
    apply (records_ok_lookup _ _ _ _ _ Hok Hvs) in Hcur as (? & ? & Hc). split_and!; [done..|].
    intros id nd [? _]%map_lookup_filter_Some. by apply Hc.
  - split; [done|]. intros id' w. cbn. rewrite lookup_insert. case_decide; [|apply Hw].
    by intros [= <-].
  - split; [done|]. intros id' w. cbn. rewrite lookup_alter. case_decide; [|apply Hw]. subst.
    intros (w' & Hw' & ->)%fmap_Some. by apply (Hw id' w').
  - split; [|done]. intros n v r. pose proof (ttlPrune_spec_aux o now m n v "") as (_ & -> & _).
    intros (r' & Hr' & ->)%fmap_Some. apply Hok in Hr' as (? & ? & Hc). split_and!; [done..|].
    intros id nd [? _]%map_lookup_filter_Some. by apply Hc.
  - unfold sendEvent. cbn [watchers records preload sending].
    destruct (foldl _ _ _) as [ws delivered] eqn:Hf. split; [done|]. cbn. intros id w.
    assert (ws ⊆ watchers m) as Hsub; [|intros Hl; apply Hw; by eapply lookup_weaken].
    revert Hf. generalize (map_range o (watchers m)), (@nil (string * Result)).
    assert (watchers m ⊆ watchers m) as Hs0 by done. revert Hs0. generalize (watchers m) at 1 3.
    intros ws0 Hs0 l. revert ws0 Hs0. induction l as [|[id' w'] l IH]; intros ws0 Hs0 d; cbn.
    + by intros [= <- <-].
    + destruct (w_exit w'); apply IH; [|done]. etrans; [apply delete_subseteq|done].
Qed.

(** Whatever sequence of registrations, deregistrations, initialisations,
    watches, stops, pruning ticks and event deliveries runs, in any order, a
    record is filed under its own service name and version, a node under its own
    id and a watcher under its own id. *)
Theorem reachable_keys o ctx now m0 m :
  NewMemoryRegistry o ctx now = Some m0 -> reachable m0 m -> registry_ok m.
Proof.
  intros Hn Hr. induction Hr as [|m m' _ IH Hs]; [|by eapply step_ok].
  unfold NewMemoryRegistry in Hn. destruct (getServiceRecords o ctx now) as [rs|] eqn:Hg; [|done].
  simplify_eq. split; [by eapply getServiceRecords_ok|]. cbn. intros id w. by rewrite lookup_empty.
Qed.

(** ** Reading *)
Lemma recordToService_nodes o r n :
  n ∈ s_Nodes (recordToService o r) <-> exists id nd, r_Nodes r !! id = Some nd /\ copy_node (nd_Node nd) = n.
Proof.
  cbn. rewrite list_elem_of_In, in_map_iff. split.
  - intros ([id nd] & <- & Hin%list_elem_of_In%elem_of_map_range). exists id, nd.
    done.
  - intros (id & nd & Hl & <-). exists (id, nd). split; [done|].
    by apply list_elem_of_In, elem_of_map_range.
Qed.

Lemma GetService_sound o m name :
  records_ok (records m) ->
  match GetService o m name with
  | Ret l =>
      is_Some (records m !! name) /\
      Forall (fun s => s_Name s = name) l /\ NoDup (map s_Version l) /\
      (forall version, version ∈ map s_Version l <-> is_Some (get_record (records m) name version)) /\
      (forall version n, offers l version n <->
         exists nd, get_node (records m) name version (n_Id n) = Some nd /\ copy_node (nd_Node nd) = n)
  | Fail ErrNotFound => records m !! name = None
  | Panic => False
  end.
Proof.
  intros Hok. unfold GetService, get_node, get_record.
  destruct (records m !! name) as [vs|] eqn:Hvs; [|done]. cbn.
  assert (forall v r, vs !! v = Some r -> record_ok name v r) as Hr
    by (intros; by eapply records_ok_lookup).
  assert (map s_Version (map (fun '(_, r) => recordToService o r) (map_range o vs)) = (map_range o vs).*1) as Hv.
  { rewrite map_map. apply map_ext_in. intros [v r] Hin%list_elem_of_In%elem_of_map_range.
    by destruct (Hr v r Hin) as (_ & ? & _). }
  rewrite Hv. split_and!; [by eexists| |apply NoDup_map_range| |].
  - apply Forall_forall. intros s ([v r] & <- & Hin%list_elem_of_In%elem_of_map_range)%list_elem_of_In%in_map_iff.
    by destruct (Hr v r Hin) as (? & _).
  - intros v. split.
    + intros ([v' r] & -> & Hin)%list_elem_of_fmap. apply elem_of_map_range in Hin. by eexists.
    + intros [r Hr']. apply list_elem_of_fmap. exists (v, r). by rewrite elem_of_map_range.
  - intros v n. split.
    + intros (s & ([v' r] & <- & Hin%list_elem_of_In%elem_of_map_range)%list_elem_of_In%in_map_iff & Hsv & Hn).
      apply recordToService_nodes in Hn as (id & nd & Hid & <-).
      destruct (Hr v' r Hin) as (_ & Hrv & Hids). cbn in Hsv. subst v. exists nd. split; [|done].
      rewrite Hrv, Hin. cbn. by rewrite (Hids id nd Hid).
    + intros (nd & Hg & Hnd). destruct (vs !! v) as [r|] eqn:Hv'; [|done]. cbn in Hg.
      exists (recordToService o r). split_and!.
      * apply list_elem_of_In, in_map_iff. exists (v, r). split; [done|].
        by apply list_elem_of_In, elem_of_map_range.
      * by destruct (Hr v r Hv') as (_ & ? & _).
      * apply recordToService_nodes. by exists (n_Id n), nd.
Qed.

(** On a registry with well-filed records, [GetService] fails with not-found
    exactly on a name without an entry, and otherwise returns one service per
    version of the name, each under its own name and version, offering exactly
    the nodes recorded, in whatever order the maps are visited. *)
Theorem GetService_spec o m name :
  records_ok (records m) ->
  match GetService o m name with
  | Ret l =>
      is_Some (records m !! name) /\
      Forall (fun s => s_Name s = name) l /\ NoDup (map s_Version l) /\
      (forall version, version ∈ map s_Version l <-> is_Some (get_record (records m) name version)) /\
      (forall version n, offers l version n <->
         exists nd, get_node (records m) name version (n_Id n) = Some nd /\ copy_node (nd_Node nd) = n)
  | Fail ErrNotFound => records m !! name = None
  | Panic => False
  end.
Proof. apply GetService_sound. Qed.

(** Every node registered is found: after [Register], [GetService] on the
    service's name succeeds and offers, under the service's version, a node with
    the id of each node registered. *)
Theorem Register_then_GetService o s ttl now m :
  registry_ok m ->
  exists l, GetService o (Register s ttl now m) (s_Name s) = Ret l /\
    forall n, n ∈ s_Nodes s -> exists n', offers l (s_Version s) n' /\ n_Id n' = n_Id n.
Proof.
  intros Hok. set (m' := Register s ttl now m).
  assert (registry_ok m') as [Hok' _] by (eapply step_ok; [done|constructor]).
  assert (exists r, get_record (records m') (s_Name s) (s_Version s) = Some r /\
    forall n, n ∈ s_Nodes s -> is_Some (r_Nodes r !! n_Id n)) as (r & Hr & Hn).
  { destruct (Register_spec_aux s ttl now m) as [_ Hat]. fold m' in Hat.
    destruct (get_record (records m) (s_Name s) (s_Version s)) as [cur|].
    - destruct Hat as (nodes & Hg & Hc). eexists. split; [done|]. intros n Hin. cbn.
      destruct (existsb _ (s_Nodes s)) eqn:He; destruct Hc as [-> _].
      + destruct (r_Nodes cur !! n_Id n); [by eexists|].
        destruct (find_node (n_Id n) (s_Nodes s)) eqn:Hf; [by eexists|].
        apply find_node_none in Hf. exfalso. apply Hf. apply list_elem_of_In, in_map.
        by apply list_elem_of_In.
      + destruct (r_Nodes cur !! n_Id n) eqn:Hc; [by case_match; eexists|].
        exfalso. apply not_true_iff_false in He. apply He. apply existsb_exists. exists n.
        split; [by apply list_elem_of_In|]. by rewrite Hc.
    - destruct Hat as [Hg _]. eexists. split; [done|]. intros n Hin. rewrite record_nodes_spec.
      destruct (find_node _ _) eqn:Hf; [by eexists|]. apply find_node_none in Hf. exfalso. apply Hf.
      apply list_elem_of_In, in_map, in_rev. by rewrite rev_involutive, <- list_elem_of_In. }
  pose proof (GetService_sound o m' (s_Name s) Hok') as Hget.
  unfold GetService in *. unfold get_record in Hr.
  destruct (records m' !! s_Name s) as [vs|] eqn:Hvs; [|done]. cbn in Hr. eexists. split; [done|].
  destruct Hget as (_ & _ & _ & _ & Ho). intros n Hin. destruct (Hn n Hin) as [nd Hnd].
  exists (copy_node (nd_Node nd)). destruct (Hok' (s_Name s) (s_Version s) r) as (_ & _ & Hid).
  { unfold get_record. by rewrite Hvs. }
  split; [|by apply Hid]. apply Ho. exists nd. split; [|done]. unfold get_node, get_record.
  rewrite Hvs. cbn. rewrite Hr. cbn. by rewrite (Hid _ _ Hnd).
Qed.

(** Registering a version that the registry does not track and
    deregistering it restores the records exactly, provided no service is left
    without versions. *)
Theorem Register_Deregister s ttl now m :
  get_record (records m) (s_Name s) (s_Version s) = None ->
  records m !! s_Name s <> Some ∅ ->
  records (Deregister s (Register s ttl now m)) = records m.
Proof.
  intros Hnew Hne. unfold Register.
  set (rs := match records m !! s_Name s with Some _ => records m | None => _ end).
  assert (default ∅ (rs !! s_Name s) = default ∅ (records m !! s_Name s)) as Hd.
  { unfold rs. destruct (records m !! s_Name s) eqn:Hn; [by rewrite Hn|]. by rewrite lookup_insert_eq. }
  assert (default ∅ (records m !! s_Name s) !! s_Version s = None) as Hv.
  { unfold get_record in Hnew. destruct (records m !! s_Name s); [done|]. apply lookup_empty. }
  rewrite Hd, Hv. unfold Deregister, set_record. cbn [records with_records spawn_send].
  rewrite lookup_insert_eq, lookup_insert_eq, Hd.
  assert (r_Nodes (set_nodes (fun nodes => foldl (fun ns n => delete (n_Id n) ns) nodes (s_Nodes s))
            (serviceToRecord s ttl now)) = ∅) as Hz.
  { apply map_empty. intros id. cbn [set_nodes r_Nodes]. rewrite delete_nodes_spec.
    destruct (has_id id (s_Nodes s)) eqn:Hh; [done|]. rewrite record_nodes_spec.
    replace (find_node id (rev (s_Nodes s))) with (@None Node); [done|]. symmetry.
    apply find_node_none. apply has_id_false in Hh. unfold ids. by rewrite map_rev, list_elem_of_In, <- in_rev, <- list_elem_of_In. }
  apply size_zero in Hz. rewrite Hz, delete_insert_id by done.
  destruct (records m !! s_Name s) as [vs|] eqn:Hn; cbn.
  - replace (Nat.eqb (size vs) 0) with false.
    2:{ symmetry. apply not_true_iff_false. intros He%size_zero. by subst. }
    unfold rs. rewrite insert_insert_eq. by apply insert_id.
  - rewrite (proj2 (size_zero _)) by done. unfold rs.
    rewrite insert_insert_eq. by rewrite delete_insert_id.
Qed.

(** ** Delivery *)

(** Delivering an event offers it to every open watcher and to no other:
    those ready receive it exactly once, the stopped watchers are dropped from
    the registry and the open ones stay, in whatever order they are visited. *)
Theorem sendEvent_spec o ready r m :
  registry_ok m ->
  let '(m', delivered) := sendEvent o ready r m in
  watchers m' = filter (fun e => w_exit e.2 = false) (watchers m) /\
  records m' = records m /\
  NoDup delivered.*1 /\
  (forall id r', (id, r') ∈ delivered <->
     r' = r /\ ready id = true /\ exists w, watchers m !! id = Some w /\ w_exit w = false).
Proof.
  intros [_ Hw]. unfold sendEvent.
  assert (forall l ws d, (forall id w, (id, w) ∈ l -> w_id w = id) ->
    foldl (send_one ready r) (ws, d) l =
    (foldl (fun ws (e : string * memWatcher) => if w_exit e.2 then delete e.1 ws else ws) ws l,
     d ++ omap (fun e => if w_exit e.2 then None else if ready e.1 then Some (e.1, r) else None) l))
    as Hfold.
  { induction l as [|[id w] l IH]; intros ws d Hl; cbn; [by rewrite app_nil_r|].
    rewrite (Hl id w) by set_solver. destruct (w_exit w); rewrite ?IH by set_solver; [done|].
    destruct (ready id); [|done]. by rewrite <- app_assoc. }
  rewrite Hfold by (intros id w Hin%elem_of_map_range; by apply Hw).
  cbn [watchers records app]. split_and!; [apply foldl_delete_range|done| |].
  - pose proof (NoDup_map_range o (watchers m)) as Hnd. induction (map_range o (watchers m)) as [|[id w] l IH];
      [constructor|]. cbn in Hnd |- *. apply NoDup_cons in Hnd as [Hid Hnd].
    destruct (w_exit w); cbn; [by apply IH|]. destruct (ready id); cbn; [|by apply IH].
    apply NoDup_cons. split; [|by apply IH]. intros ([id' r'] & -> & Hin)%list_elem_of_fmap.
    apply list_elem_of_omap in Hin as ([id'' w''] & Hin & He). cbn in *. apply Hid.
    apply list_elem_of_fmap. exists (id'', w''). repeat case_match; by simplify_eq.
  - intros id r'. rewrite list_elem_of_omap. split.
    + intros ([id' w] & Hin%elem_of_map_range & He). cbn in He. repeat case_match; simplify_eq. eauto.
    + intros (-> & Hready & w & Hl & He). exists (id, w). rewrite elem_of_map_range. cbn.
      by rewrite He, Hready.
Qed.

Definition wanted (w : memWatcher) (r : Result) : Prop :=
  wo_Service w = "" \/ wo_Service w = s_Name (res_Service r).

(** [Next] returns the first offered event of the watched service (any event
    when the watcher names none), discarding the others before it, and reports a
    stopped watcher only when no offered event is wanted. *)
Theorem Next_spec w offered :
  match Next w offered with
  | Some (r, rest) => exists skipped, offered = skipped ++ r :: rest /\ wanted w r /\
                        Forall (fun r' => ~ wanted w r') skipped
  | None => Forall (fun r' => ~ wanted w r') offered
  end.
Proof.
  induction offered as [|r offered IH]; cbn; [done|].
  assert ((negb (String.eqb (wo_Service w) "") &&
           negb (String.eqb (wo_Service w) (s_Name (res_Service r)))) = true <-> ~ wanted w r) as Hsel.
  { unfold wanted. rewrite andb_true_iff, !negb_true_iff, !String.eqb_neq. tauto. }
  destruct (_ && _).
  - destruct (Next w offered) as [[r' rest]|].
    + destruct IH as (skipped & -> & Hr & Hs). exists (r :: skipped). split_and!; [done..|].
      constructor; [by apply Hsel|done].
    + constructor; [by apply Hsel|done].
  - exists []. split_and!; [done| |constructor]. unfold wanted in *.
    destruct (decide (wo_Service w = "")); [auto|]. destruct (decide (wo_Service w = s_Name (res_Service r))); [auto|].
    exfalso. assert (false = true) by (apply Hsel; tauto). done.
Qed.

(** ** Concrete runs *)
Definition ex_m0 : memRegistry := mkRegistry None ∅ ∅ [].
Definition ex_s (version : string) (nodes : list Node) : Service := mkService "foo" version ∅ [] nodes.
Definition ex_n (id : string) : Node := mkNode (Some ∅) id "localhost".
Definition ex_m1 : memRegistry := Register (ex_s "1" [ex_n "a"; ex_n "b"]) 60 5 ex_m0.

Lemma ex_m0_ok : registry_ok ex_m0.
Proof. split; [intros n v r|intros id w]; done. Qed.

Lemma ex_m1_ok : registry_ok ex_m1.
Proof. eapply step_ok; [apply ex_m0_ok|constructor]. Qed.

(** Preloading a service under a key other than its name writes to a nil map. *)
Example preload_panics :
  NewMemoryRegistry order_id (Some {["alias" := [ex_s "1" []]]}) 0 = None /\
  is_Some (NewMemoryRegistry order_id (Some {["foo" := [ex_s "1" []]]}) 0).
Proof. split; [by vm_compute|]. vm_compute. by eexists. Qed.

(** A registration that adds node "c" leaves "a" with its old time stamp, so the
    next tick past the old deadline drops "a" although it was just registered. *)
Example added_node_skips_refresh :
  let m2 := Register (ex_s "1" [ex_n "a"; ex_n "c"]) 60 60 ex_m1 in
  get_node (records m2) "foo" "1" "a" = Some (mknode 5 (ex_n "a") 60) /\
  get_node (records (ttlPrune order_id 70 m2)) "foo" "1" "a" = None /\
  get_node (records (ttlPrune order_id 70 m2)) "foo" "1" "c" = Some (mknode 60 (ex_n "c") 60).
Proof. by vm_compute. Qed.

Lemma reachable_keys_witness :
  NewMemoryRegistry order_id None 0 = Some ex_m0 /\
  registry_ok (ttlPrune order_rev 70 (Register (ex_s "1" [ex_n "a"; ex_n "b"]) 60 5 ex_m0)).
Proof.
  split; [done|]. apply (reachable_keys order_id None 0 ex_m0); [done|].
  eapply reach_step; [eapply reach_step; [apply reach_refl|]|]; constructor.
Defined.

Lemma GetService_spec_witness :
  records_ok (records ex_m1) /\ records ex_m1 !! "foo" <> None /\
  exists l, GetService order_id ex_m1 "foo" = Ret l /\ NoDup (map s_Version l).
Proof.
  split; [apply ex_m1_ok|]. split; [done|].
  pose proof (GetService_spec order_id ex_m1 "foo" (proj1 ex_m1_ok)) as Hg.
  eexists. split; [reflexivity|]. apply Hg.
Defined.

Lemma Register_then_GetService_witness :
  registry_ok ex_m1 /\
  exists l, GetService order_rev (Register (ex_s "1" [ex_n "c"]) 60 6 ex_m1) "foo" = Ret l.
Proof.
  split; [apply ex_m1_ok|].
  destruct (Register_then_GetService order_rev (ex_s "1" [ex_n "c"]) 60 6 ex_m1 ex_m1_ok) as (l & Hl & _).
  by exists l.
Defined.

Lemma Register_Deregister_witness :
  records ex_m1 !! "foo" <> Some ∅ /\
  records (Deregister (ex_s "2" [ex_n "c"]) (Register (ex_s "2" [ex_n "c"]) 60 6 ex_m1)) = records ex_m1.
Proof.
  assert (records ex_m1 !! "foo" <> Some ∅) as Hne by (vm_compute; congruence).
  split; [done|]. apply Register_Deregister; [by vm_compute|done].
Defined.

Lemma sendEvent_spec_witness :
  let m := Stop (Watch "w2" "" (Watch "w1" "foo" ex_m1)) "w2" in
  registry_ok m /\ watchers (fst (sendEvent order_id (fun _ => true) (mkResult (ex_s "1" []) "update") m)) =
    {["w1" := mkWatcher "w1" "foo" false]}.
Proof.
  cbn zeta. set (m := Stop _ _).
  assert (registry_ok m) as Hok.
  { eapply step_ok; [|constructor]. eapply step_ok; [|by constructor].
    eapply step_ok; [apply ex_m1_ok|by constructor]. }
  split; [done|].
  pose proof (sendEvent_spec order_id (fun _ => true) (mkResult (ex_s "1" []) "update") m Hok) as Hs.
  destruct (sendEvent _ _ _ m) as [m1 d]. destruct Hs as [Hw _]. cbn [fst]. rewrite Hw. by vm_compute.
Defined.
