(* ===== verification/RegistryCache.v ===== *)
(** * The registry cache: src/registry/cache/cache.go

    The cache is written against the registry interface: all it asks of a
    registry is the class [Discovery], whose laws the in-memory registry
    discharges. The answer of the registry to the call in flight (its own, or,
    through singleflight, a concurrent one for the same name) is an argument of
    [get]. The clock is read as one instant per operation.

    A watch event reaches the cache as a pointer: [update] appends old nodes to
    the event's own service, so it returns that service as it leaves it. *)
From S2P Require Import Prelude Registry MemRegistry.

(** ** The registry interface *)
Class Discovery (R E : Type) := {
  discover : R -> string -> E + list Service;
  not_found : E;
}.

Definition versions (l : list Service) : list string := map s_Version l.

(** What a list of one name's services looks like. *)
Definition services_ok (name : string) (l : list Service) : Prop :=
  Forall (fun s => s_Name s = name) l /\ NoDup (versions l).

Class DiscoveryLaws (R E : Type) `{Discovery R E} (valid : R -> Prop) := {
  discover_ok r name l : valid r -> discover r name = inr l -> services_ok name l;
}.

#[global] Instance mem_Discovery : Discovery (map_order * memRegistry) reg_error := {|
  discover := fun r name =>
    match GetService r.1 r.2 name with Ret l => inr l | _ => inl ErrNotFound end;
  not_found := ErrNotFound;
|}.

#[global] Instance mem_DiscoveryLaws :
  DiscoveryLaws (map_order * memRegistry) reg_error (fun r => records_ok (records r.2)).
Proof.
  constructor. intros [o m] name l Hok. cbn.
  pose proof (GetService_sound o m name Hok) as Hg.
  destruct (GetService o m name) as [l'|[]|]; intros; simplify_eq.
  by destruct Hg as (_ & ? & ? & _).
Qed.

Section cache.
Context {E : Type} (ErrNotFound : E).

Record cache := mkCache {
  opts_TTL : Z;
  status : option E;
  c_cache : gmap string (list Service);
  ttls : gmap string Z;
  watched : gset string;
  watchedRunning : gmap string bool;
  exited : bool;
  spawned : list string;
}.

Definition New (ttl : Z) : cache := mkCache ttl None ∅ ∅ ∅ ∅ false [].

Definition setStatus (st : option E) (c : cache) : cache :=
  mkCache (opts_TTL c) st (c_cache c) (ttls c) (watched c) (watchedRunning c) (exited c) (spawned c).

Definition with_entries (es : gmap string (list Service)) (ts : gmap string Z) (c : cache) : cache :=
  mkCache (opts_TTL c) (status c) es ts (watched c) (watchedRunning c) (exited c) (spawned c).

Definition isValid (services : list Service) (ttl now : Z) : bool :=
  if Nat.eqb (length services) 0 then false
  else if time_IsZero ttl then false
  else if (0 <? time_Since now ttl)%Z then false
  else true.

Definition quit (c : cache) : bool := exited c.

Definition del (service : string) (c : cache) : cache :=
  match status c with
  | Some _ => c
  | None => with_entries (delete service (c_cache c)) (delete service (ttls c)) c
  end.

Definition set (service : string) (services : list Service) (now : Z) (c : cache) : cache :=
  with_entries (<[service := services]> (c_cache c)) (<[service := (now + opts_TTL c)%Z]> (ttls c)) c.

(** *** [get]: the read under the lock, the watch, the registry call *)
Definition cached (service : string) (c : cache) : list Service :=
  Copy (default [] (c_cache c !! service)).

Definition ttl_of (service : string) (c : cache) : Z := default 0%Z (ttls c !! service).

(** Two sections of the lock in the code, the watched name and the first watcher: nothing
    that is stated depends on what comes between. *)
Definition start_watch (service : string) (c : cache) : cache :=
  if (0 <? opts_TTL c)%Z && negb (bool_decide (service ∈ watched c)) then
    mkCache (opts_TTL c) (status c) (c_cache c) (ttls c) ({[service]} ∪ watched c)
      (watchedRunning c) (exited c)
      (if default false (watchedRunning c !! service) then spawned c else spawned c ++ [service])
  else c.

Definition fetch (service : string) (cp : list Service) (answer : E + list Service) (now : Z) (c : cache)
  : cache * (E + list Service) :=
  match answer with
  | inl err =>
      if Nat.ltb 0 (length cp) then (setStatus (Some err) c, inr cp) else (c, inl err)
  | inr services =>
      let c := match status c with Some _ => setStatus None c | None => c end in
      (set service (Copy services) now c, inr services)
  end.

Definition get (service : string) (answer : E + list Service) (now : Z) (c : cache)
  : cache * (E + list Service) :=
  let cp := cached service c in
  if isValid cp (ttl_of service c) now then (c, inr cp)
  else fetch service cp answer now (start_watch service c).

Definition cache_GetService (service : string) (answer : E + list Service) (now : Z) (c : cache)
  : cache * (E + list Service) :=
  let '(c, r) := get service answer now c in
  match r with
  | inl err => (c, inl err)
  | inr services => if Nat.eqb (length services) 0 then (c, inl ErrNotFound) else (c, inr services)
  end.

Definition cache_Stop (c : cache) : cache :=
  mkCache (opts_TTL c) (status c) (c_cache c) (ttls c) (watched c) (watchedRunning c) true (spawned c).

(** *** [update] *)

(** The last service of the version, and its index. *)
Fixpoint find_version (version : string) (services : list Service) (i : nat) : option (Service * nat) :=
  match services with
  | [] => None
  | s :: services =>
      match find_version version services (S i) with
      | Some r => Some r
      | None => if String.eqb (s_Version s) version then Some (s, i) else None
      end
  end.

(** Old nodes the event does not name, appended to the event's nodes. The inner
    loop looks at the list being extended. *)
Definition append_old (old neu : list Node) : list Node :=
  foldl (fun nodes cur => if has_id (n_Id cur) nodes then nodes else nodes ++ [cur]) neu old.

Definition update_create (service : option (Service * nat)) (services : list Service) (s : Service)
    (now : Z) (c : cache) : cache * Service :=
  match service with
  | None => (set (s_Name s) (services ++ [s]) now c, s)
  | Some (cur, index) =>
      let s := with_nodes s (append_old (s_Nodes cur) (s_Nodes s)) in
      (set (s_Name s) (<[index := s]> services) now c, s)
  end.

Definition update_delete (service : option (Service * nat)) (services : list Service) (s : Service)
    (now : Z) (c : cache) : cache * Service :=
  match service with
  | None => (c, s)
  | Some (cur, index) =>
      let nodes := filter (fun n => has_id (n_Id n) (s_Nodes s) = false) (s_Nodes cur) in
      if Nat.ltb 0 (length nodes) then
        (set (s_Name cur) (<[index := with_nodes cur nodes]> services) now c, s)
      else if Nat.eqb (length services) 1 then (del (s_Name cur) c, s)
      else
        let srvs := filter (fun s => s_Version s <> s_Version cur) services in
        (set (s_Name cur) srvs now c, s)
  end.

Definition update (res : Result) (now : Z) (c : cache) : cache * Service :=
  let s := res_Service res in
  if negb (bool_decide (s_Name s ∈ watched c)) then (c, s)
  else match c_cache c !! s_Name s with
       | None => (c, s)
       | Some services =>
           if Nat.eqb (length (s_Nodes s)) 0 then
             (if String.eqb (res_Action res) "delete" then del (s_Name s) c else c, s)
           else
             let service := find_version (s_Version s) services 0 in
             if String.eqb (res_Action res) "create" || String.eqb (res_Action res) "update" then
               update_create service services s now c
             else if String.eqb (res_Action res) "delete" then
               update_delete service services s now c
             else if String.eqb (res_Action res) "override" then
               match service with None => (c, s) | Some (cur, _) => (del (s_Name cur) c, s) end
             else (c, s)
       end.

(** *** [run] and [watch] *)
Definition backoff (attempts : Z) : Z :=
  if (attempts =? 0)%Z then 0 else wrap64 (10 ^ attempts * 1000000).

Definition run_start (service : string) (c : cache) : cache :=
  mkCache (opts_TTL c) (status c) (c_cache c) (ttls c) (watched c)
    (<[service := true]> (watchedRunning c)) (exited c) (spawned c).

Definition run_exit (service : string) (c : cache) : cache :=
  mkCache (opts_TTL c) (status c) (c_cache c) (ttls c) ∅
    (<[service := false]> (watchedRunning c)) (exited c) (spawned c).

(** One event that [w.Next()] returned. *)
Definition watch_event (res : Result) (now : Z) (c : cache) : cache :=
  let c := match status c with Some _ => setStatus None c | None => c end in
  fst (update res now c).

(** What an iteration of [run]'s loop met: the watch could not be opened, or it
    delivered events until [Next] failed ([watch] returns no other way). *)
Inductive run_event :=
| WatchFails (err : E)
| StreamFails (events : list (Result * Z)) (err : E).

(** The attempt counters are [int]s; the pair returned holds the counters and
    the time slept. *)
Definition next_attempt (a : Z) : Z := ((if 3 <? a then 0 else a) + 1)%Z.

Definition run_iter (c : cache) (ab : Z * Z) (ev : run_event) : cache * (Z * Z) * Z :=
  let '(a, b) := ab in
  match ev with
  | WatchFails err => (setStatus (Some err) c, (next_attempt a, b), backoff a)
  | StreamFails events err =>
      let c := foldl (fun c e => watch_event e.1 e.2 c) c events in
      (setStatus (Some err) c, (0%Z, next_attempt b), backoff b)
  end.

(** ** What the cache offers *)
Definition lookup_node (services : list Service) (version id : string) : option Node :=
  match find_version version services 0 with
  | Some (s, _) => find_node id (s_Nodes s)
  | None => None
  end.

Definition view (c : cache) (name version id : string) : option Node :=
  lookup_node (default [] (c_cache c !! name)) version id.

Definition cache_ok (c : cache) : Prop :=
  (forall name l, c_cache c !! name = Some l -> services_ok name l) /\
  dom (c_cache c) = dom (ttls c).

Lemma find_version_index v l i s k :
  find_version v l i = Some (s, k) -> i <= k /\ l !! (k - i) = Some s /\ s_Version s = v.
Proof.
  revert i. induction l as [|s' l IH]; intros i; cbn; [done|].
  destruct (find_version v l (S i)) as [[s'' k']|] eqn:Hf.
  - intros [= -> ->]. destruct (IH _ Hf) as (? & Hl & ?). split_and!; [lia| |done].
    by replace (k - i) with (S (k - S i)) by lia.
  - destruct (String.eqb_spec (s_Version s') v); [|done]. intros [= -> ->].
    rewrite Nat.sub_diag. by split_and!.
Qed.

Lemma find_version_none v l i : find_version v l i = None <-> v ∉ versions l.
Proof.
  revert i. induction l as [|s l IH]; intros i; cbn; [set_solver|].
  destruct (find_version v l (S i)) as [r|] eqn:Hf.
  - split; [done|]. intros Hn. assert (find_version v l (S i) = None) by (apply IH; set_solver).
    congruence.
  - apply IH in Hf. destruct (String.eqb_spec (s_Version s) v); set_solver.
Qed.

Lemma find_version_insert v l i j cur s :
  l !! j = Some cur -> s_Version s = s_Version cur ->
  find_version v (<[j := s]> l) i =
  match find_version v l i with
  | Some (x, k) => Some (if Nat.eqb k (i + j) then s else x, k)
  | None => None
  end.
Proof.
  revert i j. induction l as [|s' l IH]; intros i [|j]; [done..| |].
  - cbn. intros [= ->] ->. rewrite Nat.add_0_r. destruct (find_version v l (S i)) as [[x k]|] eqn:Hf.
    + apply find_version_index in Hf as (? & _). by replace (Nat.eqb k i) with false by (symmetry; apply Nat.eqb_neq; lia).
    + destruct (String.eqb (s_Version cur) v); [|done]. by rewrite Nat.eqb_refl.
  - change (<[S j:=s]> (s' :: l)) with (s' :: <[j:=s]> l). cbn [find_version lookup list_lookup].
    intros Hj Hs. rewrite (IH (S i) j Hj Hs). replace (i + S j) with (S i + j) by lia.
    destruct (find_version v l (S i)) as [[x k]|]; [done|].
    destruct (String.eqb (s_Version s') v); [|done].
    by replace (Nat.eqb i (S i + j)) with false by (symmetry; apply Nat.eqb_neq; lia).
Qed.

Lemma lookup_node_insert v id l cur j s :
  find_version (s_Version s) l 0 = Some (cur, j) ->
  lookup_node (<[j := s]> l) v id =
  if String.eqb v (s_Version s) then find_node id (s_Nodes s) else lookup_node l v id.
Proof.
  intros Hf. apply find_version_index in Hf as Hi. rewrite Nat.sub_0_r in Hi.
  destruct Hi as (_ & Hl & Hv). unfold lookup_node.
  rewrite (find_version_insert v l 0 j cur s Hl) by done. cbn.
  destruct (String.eqb_spec v (s_Version s)) as [->|Hne].
  - by rewrite Hf, Nat.eqb_refl.
  - destruct (find_version v l 0) as [[x k]|] eqn:Hx; [|done].
    destruct (Nat.eqb_spec k j) as [->|]; [|done].
    apply find_version_index in Hx as (_ & Hx & Hxv). rewrite Nat.sub_0_r in Hx. congruence.
Qed.

Lemma find_version_app v l s i :
  find_version v (l ++ [s]) i =
  if String.eqb (s_Version s) v then Some (s, i + length l) else find_version v l i.
Proof.
  revert i. induction l as [|s' l IH]; intros i; cbn; [by rewrite Nat.add_0_r|].
  rewrite IH. destruct (String.eqb (s_Version s) v); [|done]. by rewrite Nat.add_succ_r.
Qed.

Lemma lookup_node_app v id l s :
  lookup_node (l ++ [s]) v id =
  if String.eqb v (s_Version s) then find_node id (s_Nodes s) else lookup_node l v id.
Proof.
  unfold lookup_node. rewrite find_version_app, String.eqb_sym.
  by destruct (String.eqb v (s_Version s)).
Qed.

Lemma lookup_node_filter v id l ver :
  lookup_node (filter (fun s => s_Version s <> ver) l) v id =
  if String.eqb v ver then None else lookup_node l v id.
Proof.
  unfold lookup_node. generalize 0 at 2 as i. generalize 0 as j.
  assert (forall j i, fst <$> find_version v (filter (fun s => s_Version s <> ver) l) j =
            if String.eqb v ver then None else fst <$> find_version v l i) as Hf.
  { induction l as [|s l IH]; intros j i; [by destruct (String.eqb v ver)|].
    rewrite filter_cons. destruct (decide (s_Version s <> ver)) as [Hs|Hs]; cbn.
    - specialize (IH (S j) (S i)). destruct (String.eqb_spec v ver) as [->|].
      + destruct (find_version ver _ (S j)); [done|].
        by destruct (String.eqb_spec (s_Version s) ver).
      + destruct (find_version v (filter _ l) (S j)), (find_version v l (S i)); try done.
        by destruct (String.eqb (s_Version s) v).
    - specialize (IH j (S i)). rewrite IH. destruct (String.eqb_spec v ver) as [->|Hne]; [done|].
      destruct (find_version v l (S i)); [done|].
      destruct (String.eqb_spec (s_Version s) v) as [<-|]; [|done]. by contradict Hs. }
  intros j i. specialize (Hf j i).
  destruct (find_version v (filter _ l) j) as [[? ?]|], (find_version v l i) as [[? ?]|];
    cbn in Hf; destruct (String.eqb v ver); simplify_eq; done.
Qed.

Lemma append_old_find id old neu :
  find_node id (append_old old neu) =
  match find_node id neu with Some n => Some n | None => find_node id old end.
Proof.
  unfold append_old. revert neu. induction old as [|o old IH]; intros neu; cbn; [by case_match|].
  rewrite IH. destruct (has_id (n_Id o) neu) eqn:Hh.
  - destruct (find_node id neu) eqn:Hf; [done|]. destruct (String.eqb_spec id (n_Id o)); [|done].
    subst. apply has_id_spec in Hh. apply find_node_none in Hf. set_solver.
  - rewrite find_node_app. cbn. destruct (find_node id neu); [done|].
    by destruct (String.eqb id (n_Id o)).
Qed.

Lemma find_node_filter id del old :
  find_node id (filter (fun n => has_id (n_Id n) del = false) old) =
  if has_id id del then None else find_node id old.
Proof.
  induction old as [|o old IH]; [by destruct (has_id id del)|]. rewrite filter_cons.
  destruct (decide (has_id (n_Id o) del = false)) as [Hd|Hd]; cbn; rewrite IH.
  - destruct (String.eqb_spec id (n_Id o)) as [->|]; [by rewrite Hd|done].
  - destruct (String.eqb_spec id (n_Id o)) as [->|]; [|done]. by destruct (has_id (n_Id o) del).
Qed.

Lemma view_set name services now c n v id :
  view (set name services now c) n v id =
  if String.eqb n name then lookup_node services v id else view c n v id.
Proof.
  unfold view, set. cbn. destruct (String.eqb_spec n name) as [->|Hne].
  - by rewrite lookup_insert_eq.
  - by rewrite lookup_insert_ne.
Qed.

Lemma view_del name c n v id :
  status c = None -> view (del name c) n v id = if String.eqb n name then None else view c n v id.
Proof.
  intros Hs. unfold view, del. rewrite Hs. cbn. destruct (String.eqb_spec n name) as [->|Hne].
  - by rewrite lookup_delete_eq.
  - by rewrite lookup_delete_ne.
Qed.

Lemma update_create_view services s now c n v id :
  c_cache c !! s_Name s = Some services ->
  view (fst (update_create (find_version (s_Version s) services 0) services s now c)) n v id =
  if String.eqb n (s_Name s) && String.eqb v (s_Version s) then
    match find_node id (s_Nodes s) with Some nd => Some nd | None => view c n v id end
  else view c n v id.
Proof.
  intros Hc. unfold update_create.
  destruct (find_version (s_Version s) services 0) as [[cur index]|] eqn:Hf; cbn [fst];
    rewrite view_set; cbn [with_nodes s_Name];
    (destruct (String.eqb_spec n (s_Name s)) as [->|]; [|done]);
    unfold view; rewrite Hc; cbn.
  - rewrite (lookup_node_insert v id services cur index) by (cbn; done). cbn.
    destruct (String.eqb_spec v (s_Version s)) as [->|]; [|done].
    rewrite append_old_find. destruct (find_node id (s_Nodes s)); [done|].
    unfold lookup_node. by rewrite Hf.
  - rewrite lookup_node_app. destruct (String.eqb_spec v (s_Version s)) as [->|]; [|done].
    destruct (find_node id (s_Nodes s)); [done|]. unfold lookup_node. by rewrite Hf.
Qed.

Lemma update_delete_view services s now c n v id :
  c_cache c !! s_Name s = Some services -> services_ok (s_Name s) services -> status c = None ->
  view (fst (update_delete (find_version (s_Version s) services 0) services s now c)) n v id =
  if String.eqb n (s_Name s) && String.eqb v (s_Version s) && has_id id (s_Nodes s) then None
  else view c n v id.
Proof.
  intros Hc [Hnm _] Hs. unfold update_delete.
  destruct (find_version (s_Version s) services 0) as [[cur index]|] eqn:Hf; cbn [fst].
  2:{ destruct (String.eqb_spec n (s_Name s)) as [->|]; [|done].
      destruct (String.eqb_spec v (s_Version s)) as [->|]; [|done].
      unfold view, lookup_node. rewrite Hc. cbn. rewrite Hf. by case_match. }
  apply find_version_index in Hf as Hi. destruct Hi as (_ & Hi & Hv). rewrite Nat.sub_0_r in Hi.
  assert (s_Name cur = s_Name s) as Hn
    by (rewrite Forall_forall in Hnm; apply Hnm; by eapply list_elem_of_lookup_2).
  assert (forall id, lookup_node services (s_Version s) id = find_node id (s_Nodes cur)) as Hl
    by (intros; unfold lookup_node; by rewrite Hf).
  pose proof (find_node_filter id (s_Nodes s) (s_Nodes cur)) as Hff.
  set (nodes := filter _ (s_Nodes cur)) in *.
  destruct (Nat.ltb_spec 0 (length nodes)) as [Hlen|Hlen].
  - cbn [fst]. rewrite view_set, Hn. destruct (String.eqb_spec n (s_Name s)) as [->|]; [|done].
    rewrite (lookup_node_insert v id services cur index) by (cbn; by rewrite Hv). cbn.
    unfold view. rewrite Hc, Hv. cbn. destruct (String.eqb_spec v (s_Version s)) as [->|]; [|done].
    by rewrite Hl, Hff.
  - assert (nodes = []) as Hnil by (destruct nodes; [done|cbn in Hlen; lia]).
    rewrite Hnil in Hff. cbn in Hff.
    destruct (Nat.eqb_spec (length services) 1) as [H1|H1]; cbn [fst].
    + rewrite view_del, Hn by done. destruct (String.eqb_spec n (s_Name s)) as [->|]; [|done].
      unfold view. rewrite Hc. cbn. destruct services as [|x [|]]; try done.
      destruct index; [|done]. cbn in Hi. simplify_eq.
      destruct (String.eqb_spec v (s_Version s)) as [->|Hne]; cbn.
      * rewrite Hl. by destruct (has_id id (s_Nodes s)).
      * unfold lookup_node. cbn. by destruct (String.eqb_spec (s_Version cur) v); [congruence|].
    + rewrite view_set, Hn. destruct (String.eqb_spec n (s_Name s)) as [->|]; [|done].
      rewrite lookup_node_filter, Hv. unfold view. rewrite Hc. cbn.
      destruct (String.eqb_spec v (s_Version s)) as [->|]; [|done]. cbn.
      rewrite Hl. by destruct (has_id id (s_Nodes s)).
Qed.

Definition clear (c : cache) : cache :=
  match status c with Some _ => setStatus None c | None => c end.

Lemma clear_facts c :
  status (clear c) = None /\ c_cache (clear c) = c_cache c /\ ttls (clear c) = ttls c /\
  watched (clear c) = watched c /\ opts_TTL (clear c) = opts_TTL c.
Proof. unfold clear. destruct (status c) eqn:Hs; by split_and!. Qed.

(** C4: a watch event for a watched and cached service changes what the cache
    offers exactly as it says: on "create" and "update" the event's nodes join
    (and replace, by id) the nodes of its version; on "delete" exactly the named
    nodes of its version go, or the whole service when the event names none; and
    no other service or version changes. An error recorded before the event does
    not stop it. *)
Theorem watch_event_spec res now c n v id :
  cache_ok c -> s_Name (res_Service res) ∈ watched c ->
  is_Some (c_cache c !! s_Name (res_Service res)) ->
  let s := res_Service res in
  let at_service := String.eqb n (s_Name s) in
  let at_version := at_service && String.eqb v (s_Version s) in
  view (watch_event res now c) n v id =
    if Nat.eqb (length (s_Nodes s)) 0 then
      if String.eqb (res_Action res) "delete" && at_service then None else view c n v id
    else if String.eqb (res_Action res) "create" || String.eqb (res_Action res) "update" then
      if at_version then
        match find_node id (s_Nodes s) with Some nd => Some nd | None => view c n v id end
      else view c n v id
    else if String.eqb (res_Action res) "delete" then
      if at_version && has_id id (s_Nodes s) then None else view c n v id
    else if String.eqb (res_Action res) "override" then
      if at_service && bool_decide (s_Version s ∈ versions (default [] (c_cache c !! s_Name s)))
      then None else view c n v id
    else view c n v id.
Proof.
  intros [Hok _] Hw [services Hc]. cbn zeta.
  destruct (clear_facts c) as (Hst & Hcc & _ & Hwc & _).
  unfold watch_event. fold (clear c).
  assert (forall n v id, view (clear c) n v id = view c n v id) as Hview
    by (intros; unfold view; by rewrite Hcc).
  rewrite <- Hcc in Hc |- *. rewrite <- Hwc in Hw. rewrite <- Hview. rewrite <- Hcc in Hok.
  assert (forall cur i, find_version (s_Version (res_Service res)) services 0 = Some (cur, i) ->
            s_Name cur = s_Name (res_Service res)) as Hnm.
  { intros cur i Hf. apply find_version_index in Hf as (_ & Hi & _).
    destruct (Hok _ _ Hc) as [Hn _]. rewrite Forall_forall in Hn. apply Hn.
    by eapply list_elem_of_lookup_2. }
  clear Hcc Hwc Hview. set (c1 := clear c) in *. clearbody c1. clear c. unfold update.
  rewrite bool_decide_true by done. cbn [negb]. rewrite Hc. cbn [default].
  destruct (Nat.eqb (length (s_Nodes (res_Service res))) 0).
  { cbn [fst]. destruct (String.eqb (res_Action res) "delete"); [|done]. by rewrite view_del. }
  destruct (_ || _); [by apply update_create_view|].
  destruct (String.eqb (res_Action res) "delete"); [by apply update_delete_view; auto|].
  destruct (String.eqb (res_Action res) "override"); [|done].
  destruct (find_version _ services 0) as [[cur i]|] eqn:Hf; cbn [fst].
  - rewrite view_del, (Hnm cur i) by done.
    apply find_version_index in Hf as (_ & Hi & Hv).
    rewrite bool_decide_true; [by rewrite andb_true_r|]. apply list_elem_of_fmap.
    rewrite Nat.sub_0_r in Hi. exists cur. split; [done|]. by eapply list_elem_of_lookup_2.
  - apply find_version_none in Hf. by rewrite bool_decide_false, andb_false_r.
Qed.

(** ** The cache stays well formed under every interleaving

    [get] holds the lock only to read, to mark the service watched and to store
    the answer, so its parts are separate steps, the answer arriving with any
    earlier read [cp] of the cache. *)
Inductive cstep : cache -> cache -> Prop :=
| cs_watch name c : cstep c (start_watch name c)
| cs_fetch name cp answer now c :
    (forall l, answer = inr l -> services_ok name l) -> cstep c (fst (fetch name cp answer now c))
| cs_event res now c : cstep c (watch_event res now c)
| cs_update res now c : cstep c (fst (update res now c))
| cs_status st c : cstep c (setStatus st c)
| cs_run_start name c : cstep c (run_start name c)
| cs_run_exit name c : cstep c (run_exit name c)
| cs_stop c : cstep c (cache_Stop c).

Inductive creachable (ttl : Z) : cache -> Prop :=
| creach_new : creachable ttl (New ttl)
| creach_step c c' : creachable ttl c -> cstep c c' -> creachable ttl c'.

Lemma services_ok_insert name l i cur s :
  services_ok name l -> l !! i = Some cur -> s_Name s = name -> s_Version s = s_Version cur ->
  services_ok name (<[i := s]> l).
Proof.
  intros [Hn Hv] Hi Hs Hsv. split.
  - by apply Forall_insert.
  - unfold versions in *. replace (map s_Version (<[i := s]> l)) with (map s_Version l); [done|].
    symmetry. change (s_Version <$> <[i:=s]> l = s_Version <$> l).
    rewrite list_fmap_insert, Hsv. apply list_insert_id. by rewrite list_lookup_fmap, Hi.
Qed.

Lemma cache_ok_set name l now c :
  cache_ok c -> services_ok name l -> cache_ok (set name l now c).
Proof.
  intros [Hok Hd] Hl. split; cbn.
  - intros n l'. rewrite lookup_insert. case_decide; [|apply Hok]. subst. by intros [= <-].
  - by rewrite !dom_insert_L, Hd.
Qed.

Lemma cache_ok_del name c : cache_ok c -> cache_ok (del name c).
Proof.
  intros [Hok Hd]. unfold del. destruct (status c); [done|]. split; cbn.
  - intros n l' [_ Hl]%lookup_delete_Some. by apply Hok.
  - by rewrite !dom_delete_L, Hd.
Qed.

Lemma cache_ok_clear c : cache_ok c -> cache_ok (clear c).
Proof. unfold clear. intros Hc. by destruct (status c). Qed.

Lemma services_ok_copy name l : services_ok name l -> services_ok name (Copy l).
Proof.
  replace (Copy l) with l; [done|]. unfold Copy. symmetry.
  rewrite (map_ext _ id) by apply CopyService_id. apply map_id.
Qed.

Lemma cache_ok_update res now c : cache_ok c -> cache_ok (fst (update res now c)).
Proof.
  intros Hc. unfold update. set (s := res_Service res).
  destruct (bool_decide _); cbn [negb]; [|done].
  destruct (c_cache c !! s_Name s) as [services|] eqn:Hs; [|done].
  pose proof (proj1 Hc _ _ Hs) as Hok.
  destruct (Nat.eqb _ 0); [destruct (String.eqb _ _); [by apply cache_ok_del|done]|].
  destruct (find_version (s_Version s) services 0) as [[cur i]|] eqn:Hf.
  - apply find_version_index in Hf as (_ & Hi & Hv). rewrite Nat.sub_0_r in Hi.
    assert (s_Name cur = s_Name s) as Hn.
    { destruct Hok as [Hn _]. rewrite Forall_forall in Hn. apply Hn. by eapply list_elem_of_lookup_2. }
    destruct (_ || _); [by apply cache_ok_set; [|eapply services_ok_insert]|].
    destruct (String.eqb _ "delete").
    + unfold update_delete. rewrite Hn. destruct (Nat.ltb _ _); cbn [fst].
      { by apply cache_ok_set; [|eapply services_ok_insert]. }
      destruct (Nat.eqb _ 1); cbn [fst]; [by apply cache_ok_del|]. apply cache_ok_set; [done|].
      destruct Hok as [H1 H2]. split.
      { rewrite Forall_forall in H1 |- *. intros x [_ Hx]%list_elem_of_filter. by apply H1. }
      unfold versions.
      eapply sublist_NoDup; [exact H2|]. apply (fmap_sublist s_Version), sublist_filter.
    + destruct (String.eqb _ "override"); [|done]. by apply cache_ok_del.
  - destruct (_ || _); [|by repeat (destruct (String.eqb _ _))].
    apply cache_ok_set; [done|]. apply find_version_none in Hf. destruct Hok as [H1 H2]. split.
    + apply Forall_app. by repeat constructor.
    + unfold versions in *. rewrite map_app. apply NoDup_app. split_and!; [done|set_solver|].
      apply NoDup_singleton.
Qed.

Lemma cache_ok_fetch name cp answer now c :
  (forall l, answer = inr l -> services_ok name l) -> cache_ok c ->
  cache_ok (fst (fetch name cp answer now c)).
Proof.
  intros Ha Hc. unfold fetch. destruct answer as [err|l]; [by destruct (Nat.ltb _ _)|].
  cbn [fst]. fold (clear c). apply cache_ok_set; [by apply cache_ok_clear|].
  by apply services_ok_copy, Ha.
Qed.

Lemma cache_ok_start name c : cache_ok c -> cache_ok (start_watch name c).
Proof. unfold start_watch. by destruct (_ && _). Qed.

Lemma cache_invariant_aux ttl c : creachable ttl c -> cache_ok c.
Proof.
  induction 1 as [|c c' _ IH Hs]; [by split|].
  destruct Hs; auto using cache_ok_start, cache_ok_fetch, cache_ok_update.
  unfold watch_event. by apply cache_ok_update, (cache_ok_clear c).
Qed.

(** C5: under every interleaving of reads, registry answers, watch events and
    watcher restarts, each cached list holds services of its own name with
    pairwise distinct versions, and a name has a deadline exactly when it is
    cached, provided the registry's answers are well formed. *)
Theorem cache_invariant ttl c : creachable ttl c -> cache_ok c.
Proof. apply cache_invariant_aux. Qed.

(** ** Reading through the cache *)
Lemma start_watch_facts name c :
  c_cache (start_watch name c) = c_cache c /\ ttls (start_watch name c) = ttls c /\
  status (start_watch name c) = status c /\ opts_TTL (start_watch name c) = opts_TTL c /\
  ((0 < opts_TTL c)%Z -> name ∈ watched (start_watch name c)).
Proof.
  unfold start_watch. destruct (Z.ltb_spec 0 (opts_TTL c)); cbn [andb]; [|by split_and!; [..|lia]].
  case_bool_decide; cbn; split_and!; try done. intros _. set_solver.
Qed.

Definition fresh_entry (name : string) (now : Z) (c : cache) : Prop :=
  default [] (c_cache c !! name) <> [] /\ ttl_of name c <> 0%Z /\ (now <= ttl_of name c)%Z.

Lemma isValid_spec name now c :
  isValid (cached name c) (ttl_of name c) now = true <-> fresh_entry name now c.
Proof.
  unfold isValid, fresh_entry, time_IsZero, time_Since, cached, Copy.
  rewrite length_map. destruct (default [] (c_cache c !! name)) as [|s l]; cbn; [naive_solver|].
  destruct (Z.eqb_spec (ttl_of name c) 0); [naive_solver|].
  pose proof (time_Sub_pos now (ttl_of name c)).
  destruct (Z.ltb_spec 0 (time_Sub now (ttl_of name c))); (split; [|intuition lia]); [done|].
  intros _. split_and!; [done..|lia].
Qed.

Lemma cached_eq name c : cached name c = default [] (c_cache c !! name).
Proof.
  unfold cached, Copy. rewrite (map_ext _ id) by apply CopyService_id. apply map_id.
Qed.

(** [GetService] through the cache, on every branch. A fresh entry is returned
    as it is, without asking the registry and without changing the cache.
    Otherwise a registry answer is stored with a new deadline, clears the error
    status and is returned, except that an empty one is not-found; and on a
    registry error a stale entry is still returned, with the error recorded and
    the entry kept, while with nothing cached the error is returned. A success is
    never an empty list. *)
Theorem cache_GetService_spec name answer now c :
  let r := cache_GetService name answer now c in
  let old := default [] (c_cache c !! name) in
  (fresh_entry name now c -> r = (c, inr old)) /\
  (~ fresh_entry name now c ->
     match answer with
     | inr l =>
         c_cache (fst r) = <[name := l]> (c_cache c) /\
         ttls (fst r) = <[name := (now + opts_TTL c)%Z]> (ttls c) /\
         status (fst r) = None /\
         snd r = if Nat.eqb (length l) 0 then inl ErrNotFound else inr l
     | inl err =>
         c_cache (fst r) = c_cache c /\ ttls (fst r) = ttls c /\
         (old <> [] -> status (fst r) = Some err /\ snd r = inr old) /\
         (old = [] -> status (fst r) = status c /\ snd r = inl err)
     end) /\
  (forall l, snd r = inr l -> l <> []).
Proof.
  cbn zeta. pose proof (isValid_spec name now c) as Hv. unfold cache_GetService, get.
  assert (cached name c = default [] (c_cache c !! name)) as Hcp by apply cached_eq.
  rewrite Hcp in *. set (old := default [] (c_cache c !! name)) in *.
  destruct (start_watch_facts name c) as (Hs1 & Hs2 & Hs3 & Hs4 & _).
  destruct (isValid old (ttl_of name c) now).
  - pose proof (proj1 Hv eq_refl) as Hfr. assert (old <> []) as Hne by apply Hfr.
    destruct old as [|s old]; [done|]. cbn. split_and!; [done| |naive_solver].
    intros Hf. by contradict Hf.
  - split; [intros Hf; exfalso; apply Hv in Hf; done|]. unfold fetch.
    destruct answer as [err|l].
    + destruct old as [|s old]; cbn; (split; [intros _; by split_and!|naive_solver]).
    + assert (Copy l = l) as ->.
      { unfold Copy. rewrite (map_ext _ id) by apply CopyService_id. apply map_id. }
      fold (clear (start_watch name c)). destruct (clear_facts (start_watch name c)) as (Hc1 & Hc2 & Hc3 & _ & Hc5).
      destruct l as [|s l]; cbn; rewrite Hc1, Hc2, Hc3, Hc5, Hs1, Hs2, Hs4;
        (split; [by intros|naive_solver]).
Qed.

(** What the registry answered is served from the cache until its deadline:
    after an answer [l] fetched at [now], every read up to [now + TTL] returns
    [l], whatever the registry would say, and leaves the cache as it is. *)
Theorem GetService_cached name l answer now now' c :
  ~ fresh_entry name now c -> l <> [] -> (now + opts_TTL c <> 0)%Z -> (now' <= now + opts_TTL c)%Z ->
  let c' := fst (cache_GetService name (inr l) now c) in
  cache_GetService name answer now' c' = (c', inr l).
Proof.
  intros Hst Hl H0 Hn c'.
  assert (c' = set name l now (clear (start_watch name c))) as Hc'.
  { unfold c', cache_GetService, get. replace (isValid _ _ now) with false
      by (symmetry; apply not_true_iff_false; by rewrite isValid_spec).
    unfold fetch. fold (clear (start_watch name c)). unfold Copy.
    rewrite (map_ext _ id), map_id by apply CopyService_id. by destruct l. }
  destruct (clear_facts (start_watch name c)) as (_ & _ & _ & _ & Ht).
  destruct (start_watch_facts name c) as (_ & _ & _ & Ht' & _).
  assert (cached name c' = l) as Hcl by (rewrite cached_eq, Hc'; cbn; by rewrite lookup_insert_eq).
  assert (fresh_entry name now' c') as Hf.
  { rewrite cached_eq in Hcl. unfold fresh_entry. rewrite Hcl. unfold ttl_of. rewrite Hc'. cbn.
    rewrite lookup_insert_eq, Ht, Ht'. by split_and!. }
  apply isValid_spec in Hf. unfold cache_GetService, get. rewrite Hf, Hcl. by destruct l.
Qed.

(** An update leaves the event's own service changed: on a "create" or
    "update" of a version already cached it ends with the cached nodes it did
    not carry appended, so an owner of the event's pointer (the in-memory
    registry sends the registrant's own) sees nodes it never registered. In
    every other case the service is untouched. *)
Theorem update_event_alias res now c id :
  let s := res_Service res in
  let touched := bool_decide (s_Name s ∈ watched c) &&
    negb (Nat.eqb (length (s_Nodes s)) 0) &&
    (String.eqb (res_Action res) "create" || String.eqb (res_Action res) "update") in
  find_node id (s_Nodes (snd (update res now c))) =
    match find_node id (s_Nodes s) with
    | Some nd => Some nd
    | None => if touched then view c (s_Name s) (s_Version s) id else None
    end.
Proof.
  cbn zeta. unfold update. set (s := res_Service res).
  assert (forall id, find_node id (s_Nodes s) = match find_node id (s_Nodes s) with
            | Some nd => Some nd | None => None end) as Hid by (intros id'; by case_match).
  destruct (bool_decide _); cbn [negb andb snd]; [|apply Hid].
  unfold view. destruct (c_cache c !! s_Name s) as [services|] eqn:Hs; cbn [default snd].
  2:{ unfold lookup_node. cbn. destruct (find_node id (s_Nodes s)); [done|]. by repeat case_match. }
  destruct (Nat.eqb _ 0); cbn [negb andb snd]; [apply Hid|].
  destruct (_ || _).
  - unfold update_create, lookup_node. change (Datatypes.id services) with services. destruct (find_version _ services 0) as [[cur i]|]; cbn [snd].
    + apply append_old_find.
    + apply Hid.
  - destruct (String.eqb _ "delete"); [|destruct (String.eqb _ "override")].
    + unfold update_delete. destruct (find_version _ services 0) as [[cur i]|]; [|apply Hid].
      destruct (Nat.ltb _ _); [apply Hid|]. destruct (Nat.eqb _ 1); apply Hid.
    + destruct (find_version _ services 0) as [[cur i]|]; apply Hid.
    + apply Hid.
Qed.

(** ** Backing off *)
Inductive attempts : Z * Z -> Prop :=
| attempts_start : attempts (0%Z, 0%Z)
| attempts_next c ab ev c' ab' d : attempts ab -> run_iter c ab ev = (c', ab', d) -> attempts ab'.

Lemma next_attempt_range a : (0 <= a <= 4)%Z -> (0 <= next_attempt a <= 4)%Z.
Proof. unfold next_attempt. destruct (Z.ltb_spec 3 a); lia. Qed.

Lemma attempts_range ab : attempts ab -> (0 <= fst ab <= 4)%Z /\ (0 <= snd ab <= 4)%Z.
Proof.
  induction 1 as [|c [a b] ev c' ab' d _ [Ha Hb] Hr]; [cbn; lia|]. cbn in Ha, Hb.
  pose proof (next_attempt_range a Ha). pose proof (next_attempt_range b Hb).
  destruct ev; cbn in Hr; simplify_eq; cbn; lia.
Qed.

(** The cache's watch loop never waits longer than ten seconds between two
    attempts: from its start its counters stay between 0 and 4, the delay of
    each iteration is [10^attempts] milliseconds without overflow (0 at the
    first attempt), and a failed watch always records its error. *)
Theorem backoff_bounded c ab ev :
  attempts ab ->
  let '(c', ab', d) := run_iter c ab ev in
  (0 <= d <= 10 * 1000 * 1000000)%Z /\ (0 <= fst ab' <= 4)%Z /\ (0 <= snd ab' <= 4)%Z /\
  status c' = Some (match ev with WatchFails err | StreamFails _ err => err end).
Proof.
  intros Hab. apply attempts_range in Hab as [Ha Hb]. destruct ab as [a b]. cbn [fst snd] in *.
  assert (forall x, (0 <= x <= 4)%Z -> (0 <= backoff x <= 10 * 1000 * 1000000)%Z) as Hd.
  { intros x Hx. assert (x = 0 \/ x = 1 \/ x = 2 \/ x = 3 \/ x = 4)%Z as [->|[->|[->|[->| ->]]]] by lia;
      vm_compute; split; congruence. }
  pose proof (next_attempt_range a Ha). pose proof (next_attempt_range b Hb).
  destruct ev; cbn; split_and!; try apply Hd; (done || lia).
Qed.
End cache.
Arguments WatchFails {E} err.
Arguments StreamFails {E} events err.

(** ** Concrete runs over the in-memory registry *)
Definition ask (m : memRegistry) (name : string) : reg_error + list Service :=
  discover (R := map_order * memRegistry) (order_id, m) name.

Definition ex_c1 : cache := fst (cache_GetService ErrNotFound "foo" (ask ex_m1 "foo") 100 (New 60)).

Example cache_run :
  let c2 := watch_event (mkResult (ex_s "1" [ex_n "c"]) "update") 110 ex_c1 in
  view ex_c1 "foo" "1" "c" = None /\ view c2 "foo" "1" "c" = Some (ex_n "c") /\
  view (watch_event (mkResult (ex_s "1" [ex_n "a"]) "delete") 120 c2) "foo" "1" "a" = None /\
  view c2 "foo" "1" "a" = Some (ex_n "a").
Proof. by vm_compute. Qed.

Lemma ex_c1_reach : creachable (E := reg_error) 60 ex_c1.
Proof.
  unfold ex_c1, cache_GetService, get.
  destruct (isValid _ _ _) eqn:Hv; [discriminate Hv|]. clear Hv.
  destruct (ask ex_m1 "foo") as [e|l] eqn:Ha; [discriminate Ha|].
  assert (creachable (E := reg_error) 60 (fst (fetch "foo" (cached "foo" (New (E := reg_error) 60)) (inr l) 100 (start_watch "foo" (New 60))))) as Hr.
  { eapply creach_step; [eapply creach_step; [apply creach_new|apply cs_watch]|]. apply cs_fetch.
    intros l' [= <-]. unfold ask in Ha.
    apply (discover_ok (valid := fun r : map_order * memRegistry => records_ok (records r.2))) in Ha; [done|].
    apply ex_m1_ok. }
  destruct (fetch _ _ _ _ _) as [c r]. destruct r as [e|l0]; [done|]. by destruct (Nat.eqb _ _).
Qed.

Lemma watch_event_spec_witness :
  watched ex_c1 = {["foo"]} /\
  view (watch_event (mkResult (ex_s "1" [ex_n "a"]) "delete") 120 ex_c1) "foo" "1" "a" = None.
Proof.
  split; [by vm_compute|].
  rewrite (watch_event_spec (mkResult (ex_s "1" [ex_n "a"]) "delete") 120 ex_c1 "foo" "1" "a"
    (cache_invariant_aux 60 ex_c1 ex_c1_reach)); [by vm_compute..|]. vm_compute. by eexists.
Defined.

Lemma cache_invariant_witness : creachable 60 ex_c1 /\ cache_ok ex_c1.
Proof. split; [apply ex_c1_reach|apply (cache_invariant 60), ex_c1_reach]. Defined.

(** The registry fails and the stale entry is served. *)
Lemma cache_GetService_spec_witness :
  ~ fresh_entry "foo" 1000 ex_c1 /\
  snd (cache_GetService ErrNotFound "foo" (inl ErrNotFound) 1000 ex_c1) =
    inr (default [] (c_cache ex_c1 !! "foo")).
Proof.
  assert (~ fresh_entry "foo" 1000 ex_c1) as Hf.
  { rewrite <- isValid_spec. by vm_compute. }
  split; [done|].
  destruct (cache_GetService_spec ErrNotFound "foo" (inl ErrNotFound) 1000 ex_c1) as (_ & H & _).
  destruct (H Hf) as (_ & _ & H1 & _). by apply H1.
Defined.

Lemma GetService_cached_witness :
  let l := default [] (c_cache ex_c1 !! "foo") in
  cache_GetService ErrNotFound "foo" (inl ErrNotFound) 150 ex_c1 = (ex_c1, inr l).
Proof.
  apply (GetService_cached ErrNotFound "foo" _ (inl ErrNotFound) 100 150 (New 60)); [|by vm_compute..].
  rewrite <- isValid_spec. by vm_compute.
Defined.

Lemma backoff_bounded_witness :
  let c := New (E := reg_error) 60 in
  snd (run_iter c (4, 0)%Z (WatchFails ErrNotFound)) = 10000000000%Z /\ attempts (E := reg_error) (1, 0)%Z /\
  (snd (run_iter c (1, 0)%Z (WatchFails ErrNotFound)) <= 10 * 1000 * 1000000)%Z.
Proof.
  cbn zeta. split; [by vm_compute|].
  assert (attempts (E := reg_error) (1, 0)%Z) as Ha.
  { eapply (attempts_next (New 60) (0, 0)%Z (WatchFails ErrNotFound)); [constructor|by vm_compute]. }
  split; [done|].
  pose proof (backoff_bounded (New 60) (1, 0)%Z (WatchFails ErrNotFound) Ha) as H.
  destruct (run_iter _ _ _) as [[c' ab'] d]. apply H.
Defined.
