(* ===== verification/Selector.v ===== *)
(** * The selector: src/selector/{default,strategy,filter,options}.go

    [Select] asks the registry cache for a service, runs the filters and hands
    the result to a strategy, whose [Next] closure is a value with its captured
    state: calling it is [call], given the number [rand.Int()] would return. *)
From S2P Require Import Prelude Registry.

(** ** filter.go *)
Definition Filter : Type := list Service -> list Service.

Fixpoint has_endpoint (name : string) (eps : list Endpoint) : bool :=
  match eps with
  | [] => false
  | ep :: eps => if String.eqb (e_Name ep) name then true else has_endpoint name eps
  end.

Fixpoint FilterEndpoint (name : string) (old : list Service) : list Service :=
  match old with
  | [] => []
  | service :: old =>
      (if has_endpoint name (s_Endpoints service) then [service] else []) ++ FilterEndpoint name old
  end.

Definition label_matches (key val : string) (node : Node) : bool :=
  match n_Metadata node with
  | None => false
  | Some m => String.eqb (default "" (m !! key)) val
  end.

Fixpoint FilterLabel (key val : string) (old : list Service) : list Service :=
  match old with
  | [] => []
  | service :: old =>
      let nodes := filter (fun n => label_matches key val n = true) (s_Nodes service) in
      (if Nat.ltb 0 (length nodes) then [with_nodes service nodes] else []) ++ FilterLabel key val old
  end.

Fixpoint FilterVersion (version : string) (old : list Service) : list Service :=
  match old with
  | [] => []
  | service :: old =>
      (if String.eqb (s_Version service) version then [service] else []) ++ FilterVersion version old
  end.

(** ** strategy.go *)
Inductive Next :=
| NextRandom (nodes : list Node)
| NextRoundRobin (nodes : list Node) (i : Z).

Inductive next_error := NoneAvailable.

Fixpoint all_nodes (services : list Service) : list Node :=
  match services with
  | [] => []
  | service :: services => s_Nodes service ++ all_nodes services
  end.

Definition Strategy : Type := list Service -> Z -> Next.

Definition Random : Strategy := fun services _ => NextRandom (all_nodes services).
Definition RoundRobin : Strategy := fun services rand => NextRoundRobin (all_nodes services) rand.

(** [nodes[i % len(nodes)]]: Go's remainder has the sign of [i], and a negative
    index panics. *)
Definition index_mod (nodes : list Node) (i : Z) : outcome next_error Node :=
  let k := Z.rem i (Z.of_nat (length nodes)) in
  if (k <? 0)%Z then Panic
  else match nodes !! Z.to_nat k with Some n => Ret n | None => Panic end.

Definition call (next : Next) (rand : Z) : Next * outcome next_error Node :=
  match next with
  | NextRandom nodes =>
      (next, if Nat.eqb (length nodes) 0 then Fail NoneAvailable else index_mod nodes rand)
  | NextRoundRobin nodes i =>
      if Nat.eqb (length nodes) 0 then (next, Fail NoneAvailable)
      else match index_mod nodes i with
           | Panic => (next, Panic)
           | r => (NextRoundRobin nodes (wrap64 (i + 1)), r)
           end
  end.

(** ** default.go *)
Inductive SelectOption :=
| WithFilter (fn : list Filter)
| WithStrategy (fn : Strategy).

Record SelectOptions := mkSelectOptions { so_Strategy : Strategy; so_Filters : list Filter }.

Definition apply_option (o : SelectOptions) (opt : SelectOption) : SelectOptions :=
  match opt with
  | WithFilter fn => mkSelectOptions (so_Strategy o) (so_Filters o ++ fn)
  | WithStrategy fn => mkSelectOptions fn (so_Filters o)
  end.

Inductive select_error (E : Type) := SelNotFound | SelNoneAvailable | SelOther (e : E).
Arguments SelNotFound {E}.
Arguments SelNoneAvailable {E}.
Arguments SelOther {E} e.

Section select.
Context {E : Type} (is_not_found : E -> bool).

(** [answer] is what [c.rc.GetService(service)] returned, [rand] the number a
    round-robin strategy draws. *)
Definition Select (strategy : Strategy) (opts : list SelectOption) (answer : E + list Service) (rand : Z)
  : outcome (select_error E) Next :=
  let sopts := foldl apply_option (mkSelectOptions strategy []) opts in
  match answer with
  | inl err => Fail (if is_not_found err then SelNotFound else SelOther err)
  | inr services =>
      let services := foldl (fun services filter => filter services) services (so_Filters sopts) in
      if Nat.eqb (length services) 0 then Fail SelNoneAvailable
      else Ret (so_Strategy sopts services rand)
  end.
End select.

(** ** The filters *)
Lemma has_endpoint_spec name eps : has_endpoint name eps = true <-> exists ep, ep ∈ eps /\ e_Name ep = name.
Proof.
  induction eps as [|ep eps IH]; cbn.
  { setoid_rewrite elem_of_nil. naive_solver. }
  setoid_rewrite elem_of_cons. destruct (String.eqb_spec (e_Name ep) name); naive_solver.
Qed.

Lemma FilterEndpoint_elem name old s :
  s ∈ FilterEndpoint name old <-> s ∈ old /\ exists ep, ep ∈ s_Endpoints s /\ e_Name ep = name.
Proof.
  rewrite <- has_endpoint_spec. induction old as [|o old IH]; cbn; [set_solver|].
  rewrite elem_of_app, IH, elem_of_cons.
  destruct (has_endpoint name (s_Endpoints o)) eqn:Ho;
    rewrite ?list_elem_of_singleton, ?elem_of_nil; intuition congruence.
Qed.

Lemma FilterVersion_elem version old s :
  s ∈ FilterVersion version old <-> s ∈ old /\ s_Version s = version.
Proof.
  induction old as [|o old IH]; cbn; [set_solver|]. rewrite elem_of_app, IH, elem_of_cons.
  destruct (String.eqb_spec (s_Version o) version);
    rewrite ?list_elem_of_singleton, ?elem_of_nil; intuition congruence.
Qed.

Lemma FilterLabel_elem key val old s :
  s ∈ FilterLabel key val old <-> exists o, o ∈ old /\
    s = with_nodes o (filter (fun n => label_matches key val n = true) (s_Nodes o)) /\ s_Nodes s <> [].
Proof.
  induction old as [|o old IH]; cbn [FilterLabel]; [set_solver|]. rewrite elem_of_app, IH.
  setoid_rewrite elem_of_cons. set (nodes := filter _ (s_Nodes o)).
  destruct (Nat.ltb_spec 0 (length nodes)) as [Hl|Hl].
  - rewrite list_elem_of_singleton. split.
    + intros [->|(o' & ? & ?)]; [|naive_solver]. exists o. split_and!; auto. cbn.
      destruct nodes; [cbn in Hl; lia|done].
    + intros (o' & [->|Ho] & -> & Hne); [by left|right]. by exists o'.
  - assert (nodes = []) as Hn by (destruct nodes; [done|cbn in Hl; lia]).
    split; [set_solver|]. intros (o' & [->|Ho] & -> & Hne); [|right; by exists o'].
    cbn in Hne. fold nodes in Hne. by rewrite Hn in Hne.
Qed.

(** The filters keep exactly what they name. [FilterEndpoint]: the services
    with an endpoint of that name. [FilterVersion]: those of that version.
    [FilterLabel]: of every service, the nodes whose metadata maps the key to
    the value (a missing key reads as empty, a node without metadata never
    passes), dropping the services left without nodes. *)
Theorem filters_spec old :
  (forall name s, s ∈ FilterEndpoint name old <->
     s ∈ old /\ exists ep, ep ∈ s_Endpoints s /\ e_Name ep = name) /\
  (forall version s, s ∈ FilterVersion version old <-> s ∈ old /\ s_Version s = version) /\
  (forall key val version n, offers (FilterLabel key val old) version n <->
     offers old version n /\ exists m, n_Metadata n = Some m /\ default "" (m !! key) = val) /\
  (forall key val s, s ∈ FilterLabel key val old -> s_Nodes s <> []).
Proof.
  split_and!; [intros; apply FilterEndpoint_elem|intros; apply FilterVersion_elem| |].
  - intros key val version n. unfold offers. setoid_rewrite FilterLabel_elem.
    assert (label_matches key val n = true <-> exists m, n_Metadata n = Some m /\ default "" (m !! key) = val)
      as Hm.
    { unfold label_matches. destruct (n_Metadata n) as [m|]; [|naive_solver].
      rewrite String.eqb_eq. naive_solver. }
    rewrite <- Hm. split.
    + intros (s & (o & Ho & -> & _) & <- & Hn). cbn in Hn. apply list_elem_of_filter in Hn as [Hl Hn].
      split; [|done]. by exists o.
    + intros ((o & Ho & <- & Hn) & Hl). eexists. split; [exists o; split; [done|split; [done|]]|].
      * cbn. intros He.
        assert (n ∈ filter (fun n => label_matches key val n = true) (s_Nodes o)) as Hin
          by by apply list_elem_of_filter.
        rewrite He in Hin. set_solver.
      * split; [done|]. cbn. by apply list_elem_of_filter.
  - intros key val s (o & _ & _ & Hne)%FilterLabel_elem. done.
Qed.

(** ** The strategies *)
Lemma all_nodes_elem services n : n ∈ all_nodes services <-> exists version, offers services version n.
Proof.
  unfold offers. induction services as [|s services IH]; cbn; [set_solver|].
  rewrite elem_of_app, IH. set_solver.
Qed.

Lemma index_mod_nonneg nodes i :
  nodes <> [] -> (0 <= i)%Z ->
  index_mod nodes i = match nodes !! (Z.to_nat i mod length nodes) with Some n => Ret n | None => Panic end /\
  is_Some (nodes !! (Z.to_nat i mod length nodes)).
Proof.
  intros Hne Hi. assert (0 < length nodes) as Hl by (destruct nodes; [done|cbn; lia]).
  unfold index_mod. rewrite Z.rem_mod_nonneg by lia.
  assert (0 <= i mod Z.of_nat (length nodes))%Z by (apply Z.mod_pos_bound; lia).
  destruct (Z.ltb_spec (i mod Z.of_nat (length nodes)) 0); [lia|].
  replace (Z.to_nat (i mod Z.of_nat (length nodes))) with (Z.to_nat i mod length nodes).
  - split; [done|]. apply lookup_lt_is_Some, Nat.mod_upper_bound. lia.
  - rewrite Z2Nat.inj_mod, Nat2Z.id by lia. done.
Qed.

Lemma index_mod_in nodes i n : index_mod nodes i = Ret n -> n ∈ nodes.
Proof.
  unfold index_mod. repeat case_match; intros; simplify_eq. by eapply list_elem_of_lookup_2.
Qed.

Fixpoint calls (next : Next) (rands : list Z) : list (outcome next_error Node) :=
  match rands with
  | [] => []
  | r :: rands => let '(next, o) := call next r in o :: calls next rands
  end.

(** [Select] on every branch: a not-found answer of the registry is the
    selector's not-found, any other error is passed on, nothing left after the
    filters (applied in the order given) is none-available, and otherwise the
    strategy, the last one given in the options, is run on what is left. *)
Theorem Select_spec {E} (is_not_found : E -> bool) strategy opts answer rand :
  let filters := concat (map (fun o => match o with WithFilter fn => fn | _ => [] end) opts) in
  let chosen := last (omap (fun o => match o with WithStrategy fn => Some fn | _ => None end) opts) in
  Select is_not_found strategy opts answer rand =
  match answer with
  | inl err => if is_not_found err then Fail SelNotFound else Fail (SelOther err)
  | inr services =>
      match foldl (fun services f => f services) services filters with
      | [] => Fail SelNoneAvailable
      | remaining => Ret (default strategy chosen remaining rand)
      end
  end.
Proof.
  cbn zeta. unfold Select.
  assert (forall fs st, foldl apply_option (mkSelectOptions st fs) opts =
    mkSelectOptions (default st (last (omap (fun o => match o with WithStrategy fn => Some fn | _ => None end) opts)))
      (fs ++ concat (map (fun o => match o with WithFilter fn => fn | _ => [] end) opts))) as ->.
  { induction opts as [|[fn|fn] opts IH]; intros fs st; cbn.
    - by rewrite app_nil_r.
    - rewrite IH. by rewrite <- app_assoc.
    - rewrite IH. f_equal. set (l := omap _ opts). clearbody l.
      destruct l as [|x l]; [done|]. cbn [last]. fold (last (x :: l)).
      by destruct (proj2 (last_is_Some (x :: l)) ltac:(done)) as [y ->]. }
  destruct answer as [err|services]; [by destruct (is_not_found err)|]. cbn.
  by destruct (foldl _ services _).
Qed.

(** A [Next] only ever hands out nodes of the services it was made from:
    [Random] whatever is drawn, [RoundRobin] wherever it started, any number of
    calls later. *)
Theorem next_offered services start rands o n :
  o ∈ calls (Random services start) rands ++ calls (RoundRobin services start) rands ->
  o = Ret n -> exists version, offers services version n.
Proof.
  intros Ho ->. apply all_nodes_elem. apply elem_of_app in Ho as [Ho|Ho].
  - induction rands as [|r rands IH]; cbn in Ho; [set_solver|].
    apply elem_of_cons in Ho as [Ho|Ho]; [|auto]. case_match; [done|]. by eapply index_mod_in.
  - unfold RoundRobin in Ho. revert start Ho. induction rands as [|r rands IH]; intros start; cbn; [set_solver|].
    destruct (Nat.eqb _ 0); [rewrite elem_of_cons; intros [|]; [done|by eapply IH]|].
    destruct (index_mod (all_nodes services) start) as [n'|e|] eqn:Hi; rewrite elem_of_cons;
      (intros [Hn|]; [|by eapply IH]); simplify_eq. by eapply index_mod_in.
Qed.

Lemma calls_round_robin nodes i k rands :
  nodes <> [] -> (0 <= i)%Z -> (i + Z.of_nat k <= int_max + 1)%Z -> length rands = k ->
  calls (NextRoundRobin nodes i) rands =
  map (fun j => match nodes !! ((Z.to_nat i + j) mod length nodes) with Some n => Ret n | None => Panic end)
      (seq 0 k).
Proof.
  intros Hne. revert i k. induction rands as [|r rands IH]; intros i k Hi Hk <-; [done|].
  cbn [calls call length seq map]. assert (Nat.eqb (length nodes) 0 = false) as ->
    by (destruct nodes; [done|apply Nat.eqb_neq; cbn; lia]).
  destruct (index_mod_nonneg nodes i Hne Hi) as [-> [n Hn]]. rewrite Nat.add_0_r, Hn.
  f_equal. cbn [length] in Hk. rewrite <- seq_shift, map_map.
  destruct rands as [|r' rands]; [done|].
  rewrite wrap64_small by (unfold int_min, int_max in *; cbn [length] in Hk; lia).
  rewrite (IH _ (length (r' :: rands))) by (done || lia).
  apply map_ext. intros j. replace (Z.to_nat (i + 1)) with (S (Z.to_nat i)) by lia.
  by rewrite Nat.add_succ_r.
Qed.

(** A full turn from any start visits every position once. *)
Lemma turn_perm n start :
  0 < n -> map (fun j => (start + j) mod n) (seq 0 n) ≡ₚ seq 0 n.
Proof.
  intros Hn. apply submseteq_length_Permutation; [|by rewrite length_map].
  apply NoDup_submseteq.
  - apply NoDup_fmap_2_strong; [|apply NoDup_seq]. intros x y Hx Hy Heq.
    apply elem_of_seq in Hx, Hy.
    pose proof (Nat.div_mod_eq (start + x) n) as H1. pose proof (Nat.div_mod_eq (start + y) n) as H2.
    rewrite Heq in H1. set (q1 := (start + x) / n) in *. set (q2 := (start + y) / n) in *.
    assert (q1 = q2) by (destruct (Nat.lt_trichotomy q1 q2) as [|[|]]; [nia|done|nia]). nia.
  - intros x (j & -> & _)%list_elem_of_fmap. apply elem_of_seq.
    pose proof (Nat.mod_upper_bound (start + j) n). lia.
Qed.

Lemma map_lookup_seq {A B} (f : option A -> B) (l : list A) :
  map (fun j => f (l !! j)) (seq 0 (length l)) = map (fun a => f (Some a)) l.
Proof.
  induction l as [|a l IH]; [done|]. cbn. f_equal. by rewrite <- seq_shift, map_map.
Qed.

(** C40: round robin is fair: from any start, as long as the counter does not pass
    the largest [int], as many calls as there are nodes hand out every node
    exactly as often as it is offered, in some order. *)
Theorem RoundRobin_fair services start rands :
  all_nodes services <> [] -> (0 <= start)%Z ->
  (start + Z.of_nat (length (all_nodes services)) <= int_max + 1)%Z ->
  length rands = length (all_nodes services) ->
  calls (RoundRobin services start) rands ≡ₚ map Ret (all_nodes services).
Proof.
  intros Hne Hs Hk Hr. unfold RoundRobin. set (nodes := all_nodes services) in *.
  rewrite (calls_round_robin nodes start (length nodes)) by (done || lia).
  set (f := fun o : option Node => match o with Some n => Ret n | None => @Panic next_error Node end).
  change (map (fun j => f (nodes !! ((Z.to_nat start + j) mod length nodes))) (seq 0 (length nodes)) ≡ₚ map Ret nodes).
  rewrite <- (map_map (fun j => (Z.to_nat start + j) mod length nodes) (fun j => f (nodes !! j))).
  rewrite (turn_perm (length nodes)) by (destruct nodes; [done|cbn; lia]).
  by rewrite map_lookup_seq.
Qed.

(** The round-robin counter is a signed [int] that wraps: the call after the
    one at the largest [int] indexes with a negative remainder and panics, unless
    the number of nodes divides 2^63. *)
Theorem RoundRobin_overflow nodes r1 r2 :
  nodes <> [] -> Z.rem int_min (Z.of_nat (length nodes)) <> 0%Z ->
  exists n, calls (NextRoundRobin nodes int_max) [r1; r2] = [Ret n; Panic].
Proof.
  intros Hne Hrem. destruct (index_mod_nonneg nodes int_max Hne) as [H1 [n Hn]]; [done|].
  assert (Nat.eqb (length nodes) 0 = false) as He by (destruct nodes; [done|by cbn]).
  exists n. cbn [calls call]. rewrite He, H1, Hn. cbn [calls call]. rewrite He. replace (wrap64 (int_max + 1)) with int_min by done.
  unfold index_mod. replace (Z.rem int_min (Z.of_nat (length nodes)) <? 0)%Z with true; [done|].
  symmetry. apply Z.ltb_lt. pose proof (Z.rem_nonpos int_min (Z.of_nat (length nodes))).
  assert (Z.of_nat (length nodes) <> 0%Z) by (destruct nodes; [done|cbn; lia]).
  assert (int_min <= 0)%Z by done. lia.
Qed.

(** ** Concrete inputs *)
Definition ex_services : list Service :=
  [mkService "foo" "1" ∅ [] [mkNode None "a" ""; mkNode (Some {["zone" := "eu"]}) "b" ""];
   mkService "foo" "2" ∅ [] [mkNode (Some ∅) "c" ""]].

Definition ex_out : outcome next_error Node := Ret (mkNode (Some ∅) "c" "").

Lemma next_offered_witness :
  calls (RoundRobin ex_services 2%Z) [0%Z] = [ex_out] /\
  exists version, offers ex_services version (mkNode (Some ∅) "c" "").
Proof.
  assert (calls (RoundRobin ex_services 2%Z) [0%Z] = [ex_out]) as Hc by by vm_compute.
  split; [done|].
  apply (next_offered ex_services 2%Z [0%Z] ex_out); [|reflexivity].
  apply elem_of_app. right. rewrite Hc. constructor.
Defined.

Lemma RoundRobin_fair_witness :
  calls (RoundRobin ex_services 7%Z) [0; 0; 0]%Z ≡ₚ map Ret (all_nodes ex_services).
Proof. apply RoundRobin_fair; vm_compute; congruence. Defined.

Lemma RoundRobin_overflow_witness :
  exists n, calls (NextRoundRobin (all_nodes ex_services) int_max) [0; 0]%Z = [Ret n; Panic].
Proof. apply RoundRobin_overflow; vm_compute; congruence. Defined.

Lemma filters_spec_witness :
  FilterLabel "zone" "eu" ex_services = [mkService "foo" "1" ∅ [] [mkNode (Some {["zone" := "eu"]}) "b" ""]] /\ s_Nodes (mkService "foo" "1" ∅ [] [mkNode (Some {["zone" := "eu"]}) "b" ""]) <> [].
Proof.
  split; [by vm_compute|]. destruct (filters_spec ex_services) as (_ & _ & _ & H).
  apply (H "zone" "eu"). vm_compute. constructor.
Defined.
