(* ===== verification/Auth.v ===== *)
(** * Access rules: src/auth/rules.go and the data of src/auth/auth.go

    [Verify] filters the rules that match a resource, sorts them by priority and
    takes the first that decides. [sort.SliceStable] is insertion sort (a stable
    sort has one result); [strings.EqualFold] folds ASCII case, the bytes of
    other characters being compared as they are. *)
From Stdlib Require Import Sorted.
From S2P Require Import Prelude GoStrings.

(** ** auth.go *)
Record Account := mkAccount { a_ID : string; a_Scopes : list string }.
Record Resource := mkResource { re_Name : string; re_Type : string; re_Endpoint : string }.
Inductive Access := AccessGranted | AccessDenied | AccessOther (z : Z).

Record Rule := mkRule {
  ru_Resource : Resource;
  ru_ID : string;
  ru_Scope : string;
  ru_Access : Access;
  ru_Priority : Z;
}.

Inductive auth_error := ErrForbidden.

Definition ScopePublic : string := "".
Definition ScopeAccount : string := "*".

(** ** rules.go *)
Definition lower (c : ascii) : ascii :=
  let n := nat_of_ascii c in
  if (65 <=? n) && (n <=? 90) then ascii_of_nat (n + 32) else c.

Fixpoint EqualFold (s t : string) : bool :=
  match s, t with
  | "", "" => true
  | String a s, String b t => Ascii.eqb (lower a) (lower b) && EqualFold s t
  | _, _ => false
  end.

Fixpoint include (slice : list string) (val : string) : bool :=
  match slice with
  | [] => false
  | s :: slice => if EqualFold s val then true else include slice val
  end.

Definition validEndpoints (endpoint : string) : list string :=
  let comps := split_char "/" endpoint in
  ["*"; endpoint] ++
  (if Nat.ltb 1 (length comps)
   then map (fun i => join "/" (take i comps) +:+ "/*") (seq 1 (length comps))
   else []).

Definition applies (res : Resource) (rule : Rule) : bool :=
  if negb (include ["*"; re_Type res] (re_Type (ru_Resource rule))) then false
  else if negb (include ["*"; re_Name res] (re_Name (ru_Resource rule))) then false
  else if negb (include (validEndpoints (re_Endpoint res)) (re_Endpoint (ru_Resource rule))) then false
  else true.

Fixpoint filter_rules (res : Resource) (rules : list Rule) : list Rule :=
  match rules with
  | [] => []
  | rule :: rules => if applies res rule then rule :: filter_rules res rules else filter_rules res rules
  end.

Fixpoint insert_rule (r : Rule) (l : list Rule) : list Rule :=
  match l with
  | [] => [r]
  | r' :: l => if (ru_Priority r <? ru_Priority r')%Z then r' :: insert_rule r l else r :: r' :: l
  end.

Definition sort_rules (rules : list Rule) : list Rule := foldr insert_rule [] rules.

Definition access_is (a b : Access) : bool :=
  match a, b with
  | AccessGranted, AccessGranted | AccessDenied, AccessDenied => true
  | _, _ => false
  end.

(** The loop over the sorted rules; [None] is a nil error. *)
Fixpoint verify_loop (acc : option Account) (rules : list Rule) : option auth_error :=
  match rules with
  | [] => Some ErrForbidden
  | rule :: rules =>
      if String.eqb (ru_Scope rule) ScopePublic && access_is (ru_Access rule) AccessDenied then
        Some ErrForbidden
      else if String.eqb (ru_Scope rule) ScopePublic && access_is (ru_Access rule) AccessGranted then None
      else match acc with
           | None => verify_loop acc rules
           | Some a =>
               if String.eqb (ru_Scope rule) ScopeAccount && access_is (ru_Access rule) AccessDenied then
                 Some ErrForbidden
               else if String.eqb (ru_Scope rule) ScopeAccount && access_is (ru_Access rule) AccessGranted
               then None
               else if include (a_Scopes a) (ru_Scope rule) && access_is (ru_Access rule) AccessDenied then
                 Some ErrForbidden
               else if include (a_Scopes a) (ru_Scope rule) && access_is (ru_Access rule) AccessGranted
               then None
               else verify_loop acc rules
           end
  end.

Definition Verify (rules : list Rule) (acc : option Account) (res : Resource) : option auth_error :=
  verify_loop acc (sort_rules (filter_rules res rules)).

(** ** Specification: the rule that decides *)

(** What a matching rule says to an account, if it says anything. *)
Definition covers (acc : option Account) (rule : Rule) : bool :=
  String.eqb (ru_Scope rule) ScopePublic ||
  match acc with
  | None => false
  | Some a => String.eqb (ru_Scope rule) ScopeAccount || include (a_Scopes a) (ru_Scope rule)
  end.

Definition verdict (acc : option Account) (rule : Rule) : option bool :=
  if covers acc rule then
    match ru_Access rule with AccessGranted => Some true | AccessDenied => Some false | _ => None end
  else None.

Fixpoint first_verdict (acc : option Account) (rules : list Rule) : option bool :=
  match rules with
  | [] => None
  | rule :: rules => match verdict acc rule with Some b => Some b | None => first_verdict acc rules end
  end.

Lemma verify_loop_verdict acc rules :
  verify_loop acc rules = match first_verdict acc rules with Some true => None | _ => Some ErrForbidden end.
Proof.
  induction rules as [|rule rules IH]; cbn; [done|]. unfold verdict, covers.
  destruct (String.eqb (ru_Scope rule) ScopePublic), acc as [a|]; cbn; rewrite ?IH;
    try destruct (String.eqb (ru_Scope rule) ScopeAccount);
    try destruct (include (a_Scopes a) (ru_Scope rule)); by destruct (ru_Access rule).
Qed.

(** [r] decides among [rules]: no matching rule with a verdict comes before it
    with the same or a higher priority, or after it with a higher one. *)
Definition decides (acc : option Account) (res : Resource) (rules : list Rule) (b : bool) : Prop :=
  exists pre r post, rules = pre ++ r :: post /\ applies res r = true /\ verdict acc r = Some b /\
    Forall (fun r' => applies res r' = true -> is_Some (verdict acc r') ->
              (ru_Priority r' < ru_Priority r)%Z) pre /\
    Forall (fun r' => applies res r' = true -> is_Some (verdict acc r') ->
              (ru_Priority r' <= ru_Priority r)%Z) post.

(** The verdict of the decisive rule of a list, computed from the right. *)
Fixpoint best (acc : option Account) (rules : list Rule) : option (Z * bool) :=
  match rules with
  | [] => None
  | r :: rules =>
      match verdict acc r, best acc rules with
      | None, o => o
      | Some b, None => Some (ru_Priority r, b)
      | Some b, Some (p, b') => if (ru_Priority r <? p)%Z then Some (p, b') else Some (ru_Priority r, b)
      end
  end.

Definition sorted_rules (l : list Rule) : Prop :=
  forall pre r post r', l = pre ++ r :: post -> r' ∈ post -> (ru_Priority r' <= ru_Priority r)%Z.

Fixpoint first_decisive (acc : option Account) (rules : list Rule) : option (Z * bool) :=
  match rules with
  | [] => None
  | r :: rules => match verdict acc r with Some b => Some (ru_Priority r, b) | None => first_decisive acc rules end
  end.

Lemma first_decisive_insert acc r l :
  StronglySorted (fun a b => (ru_Priority b <= ru_Priority a)%Z) l ->
  first_decisive acc (insert_rule r l) =
  match verdict acc r, first_decisive acc l with
  | None, o => o
  | Some b, None => Some (ru_Priority r, b)
  | Some b, Some (p, b') => if (ru_Priority r <? p)%Z then Some (p, b') else Some (ru_Priority r, b)
  end.
Proof.
  induction 1 as [|r' l Hs IH Hr]; cbn.
  { by destruct (verdict acc r). }
  assert (forall l, Forall (fun b => (ru_Priority b <= ru_Priority r')%Z) l ->
    forall p b, first_decisive acc l = Some (p, b) -> (p <= ru_Priority r')%Z) as Hb.
  { induction 1 as [|x l' Hx _ IH']; cbn; [done|]. intros p b.
    destruct (verdict acc x); [intros; by simplify_eq|apply IH']. }
  destruct (Z.ltb_spec (ru_Priority r) (ru_Priority r')); cbn.
  - destruct (verdict acc r') as [b'|] eqn:Hv'.
    + destruct (verdict acc r); [|done]. by destruct (Z.ltb_spec (ru_Priority r) (ru_Priority r')); [|lia].
    + apply IH.
  - destruct (verdict acc r) as [b|] eqn:Hv; [|done].
    destruct (verdict acc r') as [b'|].
    + by destruct (Z.ltb_spec (ru_Priority r) (ru_Priority r')); [lia|].
    + destruct (first_decisive acc l) as [[p b'']|] eqn:Hf; [|done].
      apply Hb in Hf; [|done]. by destruct (Z.ltb_spec (ru_Priority r) p); [lia|].
Qed.

Lemma insert_rule_sorted r l :
  StronglySorted (fun a b => (ru_Priority b <= ru_Priority a)%Z) l ->
  StronglySorted (fun a b => (ru_Priority b <= ru_Priority a)%Z) (insert_rule r l).
Proof.
  induction 1 as [|r' l Hs IH Hr]; cbn; [by repeat constructor|].
  destruct (Z.ltb_spec (ru_Priority r) (ru_Priority r')).
  - constructor; [done|]. assert (forall x, x ∈ insert_rule r l -> x = r \/ x ∈ l) as Hin.
    { clear. intros x. induction l as [|y l IH]; cbn; [set_solver|].
      destruct (_ <? _)%Z; rewrite ?elem_of_cons; intuition. }
    apply Forall_forall. intros x [->|Hx]%Hin; [lia|]. rewrite Forall_forall in Hr. auto.
  - repeat constructor; [done..|]. eapply Forall_impl; [exact Hr|]. cbn. lia.
Qed.

Lemma sort_rules_sorted rules :
  StronglySorted (fun a b => (ru_Priority b <= ru_Priority a)%Z) (sort_rules rules).
Proof. induction rules as [|r rules IH]; cbn; [constructor|by apply insert_rule_sorted]. Qed.

Lemma first_decisive_sort acc rules : first_decisive acc (sort_rules rules) = best acc rules.
Proof.
  unfold sort_rules. induction rules as [|r rules IH]; cbn; [done|].
  rewrite first_decisive_insert by apply sort_rules_sorted. by rewrite IH.
Qed.

Lemma first_verdict_decisive acc rules : first_verdict acc rules = snd <$> first_decisive acc rules.
Proof. induction rules as [|r rules IH]; cbn; [done|]. by destruct (verdict acc r). Qed.

Lemma best_spec acc res rules :
  match best acc (filter_rules res rules) with
  | Some (p, b) => exists pre r post, rules = pre ++ r :: post /\ applies res r = true /\
      verdict acc r = Some b /\ ru_Priority r = p /\
      Forall (fun r' => applies res r' = true -> is_Some (verdict acc r') ->
                (ru_Priority r' < p)%Z) pre /\
      Forall (fun r' => applies res r' = true -> is_Some (verdict acc r') ->
                (ru_Priority r' <= p)%Z) post
  | None => Forall (fun r' => applies res r' = true -> verdict acc r' = None) rules
  end.
Proof.
  induction rules as [|r rules IH]; cbn; [done|].
  destruct (applies res r) eqn:Ha; cbn; [destruct (verdict acc r) as [b|] eqn:Hv|].
  - destruct (best acc (filter_rules res rules)) as [[p b']|].
    + destruct IH as (pre & r0 & post & -> & H1 & H2 & H3 & H4 & H5).
      destruct (Z.ltb_spec (ru_Priority r) p).
      * exists (r :: pre), r0, post. split_and!; auto.
      * exists [], r, (pre ++ r0 :: post). split_and!; auto.
        apply Forall_app. split; [|constructor; [intros; lia|]];
          (eapply Forall_impl; [eassumption|]); cbn; intros x Hx ??; specialize (Hx ltac:(done) ltac:(done)); lia.
    + exists [], r, rules. split_and!; auto. eapply Forall_impl; [exact IH|].
      cbn. intros x Hx Hax [y Hy]. rewrite (Hx Hax) in Hy. done.
  - destruct (best acc (filter_rules res rules)) as [[p b']|].
    + destruct IH as (pre & r0 & post & -> & H1 & H2 & H3 & H4 & H5).
      exists (r :: pre), r0, post. split_and!; auto. constructor; [|done]. intros _ [y Hy]. congruence.
    + constructor; [done|]. auto.
  - destruct (best acc (filter_rules res rules)) as [[p b']|].
    + destruct IH as (pre & r0 & post & -> & H1 & H2 & H3 & H4 & H5).
      exists (r :: pre), r0, post. split_and!; auto. constructor; [|done]. congruence.
    + constructor; [congruence|]. auto.
Qed.

Lemma decides_unique acc res rules b1 b2 :
  decides acc res rules b1 -> decides acc res rules b2 -> b1 = b2.
Proof.
  intros (pre1 & r1 & post1 & He & Ha1 & Hv1 & Hp1 & Hq1) (pre2 & r2 & post2 & He2 & Ha2 & Hv2 & Hp2 & Hq2).
  rewrite He in He2. apply app_eq_inv in He2 as [(k & -> & Hk)|(k & -> & Hk)]; destruct k as [|x k];
    rewrite ?app_nil_r in *; cbn in Hk; simplify_eq; [done| |done|].
  - apply Forall_app in Hp1 as [_ Hp1]. apply Forall_cons in Hp1 as [Hp1 _].
    apply Forall_app in Hq2 as [_ Hq2]. apply Forall_cons in Hq2 as [Hq2 _].
    specialize (Hp1 Ha2 ltac:(by eexists)). specialize (Hq2 Ha1 ltac:(by eexists)). lia.
  - apply Forall_app in Hp2 as [_ Hp2]. apply Forall_cons in Hp2 as [Hp2 _].
    apply Forall_app in Hq1 as [_ Hq1]. apply Forall_cons in Hq1 as [Hq1 _].
    specialize (Hp2 Ha1 ltac:(by eexists)). specialize (Hq1 Ha2 ltac:(by eexists)). lia.
Qed.

(** C11: [Verify] grants access exactly when the deciding rule grants it: among
    the rules that match the resource and speak to the account, the one of
    highest priority, the earliest on a tie. When the deciding rule denies, or no
    rule speaks to the account, access is forbidden. *)
Theorem Verify_spec rules acc res :
  (Verify rules acc res = None <-> decides acc res rules true) /\
  (Verify rules acc res = Some ErrForbidden <->
     decides acc res rules false \/
     Forall (fun r => applies res r = true -> verdict acc r = None) rules).
Proof.
  unfold Verify. rewrite verify_loop_verdict, first_verdict_decisive, first_decisive_sort.
  pose proof (best_spec acc res rules) as Hb.
  destruct (best acc (filter_rules res rules)) as [[p b]|]; cbn.
  - assert (decides acc res rules b) as Hd.
    { destruct Hb as (pre & r & post & -> & ? & ? & <- & ? & ?). by exists pre, r, post. }
    assert (~ Forall (fun r => applies res r = true -> verdict acc r = None) rules) as Hn.
    { destruct Hb as (pre & r & post & -> & Ha & Hv & _). intros [_ Hf]%Forall_app.
      apply Forall_cons in Hf as [Hf _]. rewrite Hf in Hv by done. done. }
    destruct b.
    + split; [done|]. split; [done|]. intros [Hd'|]; [|done].
      by pose proof (decides_unique _ _ _ _ _ Hd Hd').
    + split; [split; [done|]|split; auto]. intros Hd'.
      by pose proof (decides_unique _ _ _ _ _ Hd Hd').
  - assert (forall b, ~ decides acc res rules b) as Hd.
    { intros b (pre & r & post & -> & Ha & Hv & _). apply Forall_app in Hb as [_ Hb].
      apply Forall_cons in Hb as [Hb _]. rewrite Hb in Hv by done. done. }
    split; [split; [done|]|split; auto]. intros Hd'. by apply Hd in Hd'.
Qed.

(** ** Endpoint patterns *)

(** The endpoints that a rule may name to cover a resource's endpoint: the
    catch-all, the endpoint itself and, when it is a path (it has a slash), "p/*"
    for the path itself and for each of its ancestors [p]. *)
Theorem validEndpoints_spec endpoint e :
  e ∈ validEndpoints endpoint <->
  e = "*" \/ e = endpoint \/
  (str_has "/" endpoint = true /\
   exists p, e = p +:+ "/*" /\ (p = endpoint \/ exists rest, endpoint = p +:+ String "/" rest)).
Proof.
  unfold validEndpoints. rewrite elem_of_app, !elem_of_cons, elem_of_nil.
  set (comps := split_char "/" endpoint).
  assert (join "/" comps = endpoint) as Hj by apply join_split.
  transitivity (e = "*" \/ e = endpoint \/
    (str_has "/" endpoint = true /\ exists i, 1 <= i <= length comps /\ e = join "/" (take i comps) +:+ "/*")).
  { destruct (Nat.ltb_spec 1 (length comps)) as [Hl|Hl].
    - apply split_char_many in Hl. rewrite list_elem_of_In, in_map_iff.
      setoid_rewrite in_seq. split.
      + intros [[|[|[]]]|(i & <- & Hi)]; auto. right. right. split; [done|]. exists i. split; [lia|done].
      + intros [|[|(_ & i & Hi & ->)]]; auto. right. exists i. split; [done|lia].
    - rewrite elem_of_nil. split; [intuition|]. intros [|[|[Hs _]]]; auto.
      apply split_char_many in Hs. fold comps in Hs. lia. }
  assert ((exists i, 1 <= i <= length comps /\ e = join "/" (take i comps) +:+ "/*") <->
    exists p, e = p +:+ "/*" /\ (p = endpoint \/ exists rest, endpoint = p +:+ String "/" rest)) as Hp;
    [|by rewrite Hp].
  split.
  - intros (i & Hi & ->). exists (join "/" (take i comps)). split; [done|].
    destruct (decide (i = length comps)) as [->|Hne]; [left; by rewrite take_ge|right].
    exists (join "/" (drop i comps)). rewrite <- Hj at 1. rewrite <- (take_drop i comps) at 1.
    rewrite join_app; [done| |]; intros H%(f_equal length); rewrite ?length_take, ?length_drop in H; cbn in H; lia.
  - intros (p & -> & [->|[rest ->]]).
    + exists (length comps). rewrite take_ge, Hj by done. split; [|done].
      pose proof (split_char_nonnil "/" endpoint). fold comps in H. destruct comps; [done|cbn; lia].
    + unfold comps. rewrite split_char_mid. exists (length (split_char "/" p)).
      rewrite take_app_length, length_app, join_split. split; [|done].
      pose proof (split_char_nonnil "/" p). destruct (split_char "/" p); [done|cbn; lia].
Qed.

(** A denying rule beats a lower-priority grant, and loses to a higher one. *)
Example Verify_ex :
  let res := mkResource "notes" "service" "Notes/Create" in
  let rule scope acc p := mkRule (mkResource "*" "*" "notes/*") "" scope acc p in
  Verify [rule "" AccessGranted 1; rule "*" AccessDenied 2]%Z (Some (mkAccount "u" [])) res = Some ErrForbidden /\
  Verify [rule "" AccessGranted 1; rule "*" AccessDenied 2]%Z None res = None /\
  Verify [rule "" AccessGranted 2; rule "*" AccessDenied 2]%Z (Some (mkAccount "u" [])) res = None.
Proof. by vm_compute. Qed.
