(* ===== verification/Ring.v ===== *)
(** * The ring buffer: src/util/ring/buffer.go

    [Put] appends, trims one entry when the buffer exceeds its size and offers
    the entry to every stream in turn, while it holds the lock. A stream's [Entries]
    channel holds 128 entries and its [Stop] channel is closed by the reader;
    when both cases of the select can go on, [choose] is the runtime's pick,
    and when none can, [Put] waits for the stream, with the lock: what it did before
    stays done, and the streams it has not come to are left over. *)
From Stdlib Require Import Sorted.
From S2P Require Import Prelude.

Section ring.
Context {V : Type}.

Record Entry := mkEntry { Value : V; Timestamp : Z }.

Record Stream := mkStream {
  Id : string;
  Entries : list Entry;
  stopped : bool;
}.

Record Buffer := mkBuffer { streams : gmap string Stream; vals : list Entry; size : Z }.

Definition New (i : Z) : Buffer := mkBuffer ∅ [] i.

Definition stream_cap : nat := 128.

(** [vals] after the entry is appended and the buffer trimmed. *)
Definition push (b : Buffer) (entry : Entry) : list Entry :=
  let vs := vals b ++ [entry] in
  if (size b <? Z.of_nat (length vs))%Z then drop 1 vs else vs.

(** The select for the stream [id]; [None] is that it waits. *)
Definition offer (choose : string -> bool) (entry : Entry) (id : string) (ss : gmap string Stream) :
    option (gmap string Stream) :=
  match ss !! id with
  | None => Some ss
  | Some s =>
      let room := Nat.ltb (length (Entries s)) stream_cap in
      if stopped s && (negb room || choose id) then Some (delete (Id s) ss)
      else if room then
        Some (<[id := mkStream (Id s) (Entries s ++ [entry]) (stopped s)]> ss)
      else None
  end.

(** The loop over the streams, as far as it goes, and those it has not come past. *)
Fixpoint serve (choose : string -> bool) (entry : Entry) (ids : list string) (ss : gmap string Stream) :
    gmap string Stream * list string :=
  match ids with
  | [] => (ss, [])
  | id :: rest =>
      match offer choose entry id ss with
      | Some ss => serve choose entry rest ss
      | None => (ss, ids)
      end
  end.

Definition stream_ids (o : map_order) (b : Buffer) : list string := (map_range o (streams b)).*1.

(** It returns when no stream is left over. *)
Definition Put (o : map_order) (choose : string -> bool) (v : V) (now : Z) (b : Buffer) : Buffer * list string :=
  let entry := mkEntry v now in
  let vs := push b entry in
  let '(ss, rest) := serve choose entry (stream_ids o b) (streams b) in
  (mkBuffer ss vs (size b), rest).

Definition Get (n : Z) (b : Buffer) : list Entry :=
  let len := Z.of_nat (length (vals b)) in
  let n := if (len <? n)%Z || (n <? 0)%Z then len else n in
  drop (Z.to_nat (len - n)) (vals b).

Fixpoint since_loop (t : Z) (vs : list Entry) : list Entry :=
  match vs with
  | [] => []
  | v :: vs' => if (0 <? time_Sub (Timestamp v) t)%Z then vs else since_loop t vs'
  end.

Definition Since (t now : Z) (b : Buffer) : list Entry :=
  if time_IsZero t then vals b
  else if (time_Since now t <? 0)%Z then []
  else since_loop t (vals b).

(** [Stream]: the new stream's id, under which it is filed. *)
Definition Stream_ (id : string) (b : Buffer) : Buffer :=
  mkBuffer (<[id := mkStream id [] false]> (streams b)) (vals b) (size b).

Definition Size (b : Buffer) : Z := size b.

(** ** The buffer holds the last entries of its history *)
Definition lastn {A} (n : nat) (l : list A) : list A := drop (length l - n) l.

(** A buffer reached by putting the entries of [h], oldest first, among stream
    registrations, stops, reads by the streams' readers, and what a [Put] that
    waited does to the streams later. *)
Inductive history (i : Z) : list Entry -> Buffer -> Prop :=
| h_new : history i [] (New i)
| h_put o choose v now h b :
    history i h b -> history i (h ++ [mkEntry v now]) (Put o choose v now b).1
| h_stream id h b : history i h b -> streams b !! id = None -> history i h (Stream_ id b)
| h_streams ss h b :
    history i h b -> (forall id s, ss !! id = Some s -> Id s = id) ->
    dom ss ⊆ dom (streams b) -> history i h (mkBuffer ss (vals b) (size b)).

Lemma lastn_snoc {A} n (l : list A) x :
  (if (Z.of_nat n <? Z.of_nat (length (lastn n l ++ [x])))%Z then drop 1 (lastn n l ++ [x])
   else lastn n l ++ [x]) = lastn n (l ++ [x]).
Proof.
  unfold lastn. rewrite length_app, length_drop, length_app. cbn [length].
  destruct (Z.ltb_spec (Z.of_nat n) (Z.of_nat (length l - (length l - n) + 1))).
  - destruct n as [|n].
    + rewrite !drop_ge by (rewrite ?length_app, ?length_drop; cbn; lia). done.
    + rewrite <- drop_app_le, drop_drop by lia. f_equal. lia.
  - rewrite <- drop_app_le by lia. f_equal. lia.
Qed.

Lemma history_vals i h b : history i h b -> vals b = lastn (Z.to_nat i) h /\ size b = i.
Proof.
  induction 1 as [|o choose v now h b _ [IH1 IH2]|id h b _ [IH1 IH2] _|ss h b _ [IH1 IH2] _ _]; [done| |done..].
  unfold Put. destruct (serve _ _ _ _) as [ss rest]. cbn.
  split; [|done]. rewrite <- lastn_snoc, <- IH1. unfold push. rewrite IH2.
  destruct (decide (0 <= i)%Z).
  - by rewrite Z2Nat.id.
  - replace (Z.to_nat i) with 0 by lia. rewrite length_app. cbn [length].
    destruct (Z.ltb_spec i (Z.of_nat (length (vals b) + 1))); [|lia].
    destruct (Z.ltb_spec (Z.of_nat 0) (Z.of_nat (length (vals b) + 1))); [done|lia].
Qed.

(** Whatever was put and whichever streams came and went, the buffer never
    holds more than its size, and [Get n] returns the last [n] entries put,
    oldest first, or everything retained when [n] is negative or too large. *)
Theorem Get_last i h b n :
  history i h b ->
  Z.of_nat (length (vals b)) = Z.min (Z.max i 0) (Z.of_nat (length h)) /\
  Get n b = lastn (if (n <? 0)%Z then Z.to_nat i else Nat.min (Z.to_nat n) (Z.to_nat i)) h.
Proof.
  intros [Hv _]%history_vals. unfold Get. rewrite Hv. unfold lastn. rewrite length_drop.
  split; [lia|]. rewrite drop_drop. f_equal.
  destruct (Z.ltb_spec n 0); cbn [orb].
  - rewrite orb_true_r. lia.
  - rewrite orb_false_r. destruct (Z.ltb_spec (Z.of_nat (length h - (length h - Z.to_nat i))) n); lia.
Qed.

(** [Since t] on entries in time order returns exactly those retained that are
    later than [t], the whole buffer for the zero time, and nothing for a time in
    the future. *)
Theorem Since_spec t now b :
  StronglySorted (fun e1 e2 => (Timestamp e1 <= Timestamp e2)%Z) (vals b) ->
  Since t now b =
    if (t =? 0)%Z then vals b
    else if (now <? t)%Z then []
    else filter (fun e => (t < Timestamp e)%Z) (vals b).
Proof.
  intros Hs. unfold Since, time_IsZero. destruct (t =? 0)%Z; [done|].
  replace (time_Since now t <? 0)%Z with (now <? t)%Z.
  2:{ unfold time_Since, time_Sub, int_min, int_max. destruct (Z.ltb_spec now t); symmetry;
      [apply Z.ltb_lt|apply Z.ltb_ge]; lia. }
  destruct (now <? t)%Z; [done|]. induction Hs as [|e l Hl IH He]; [done|].
  cbn [since_loop]. rewrite filter_cons. pose proof (time_Sub_pos (Timestamp e) t) as Hp.
  destruct (Z.ltb_spec 0 (time_Sub (Timestamp e) t)).
  - rewrite decide_True by lia. f_equal. symmetry. clear IH Hl.
    induction l as [|e' l IH]; [done|]. apply Forall_cons in He as [H1 H2].
    rewrite filter_cons, decide_True by lia. by rewrite IH.
  - rewrite decide_False by lia. done.
Qed.

(** ** Streams *)
Definition streams_ok (b : Buffer) : Prop := forall id s, streams b !! id = Some s -> Id s = id.

(** What a select leaves of a stream: the entry in its queue, or nothing, if it was
    stopped. *)
Definition served (entry : Entry) (s : Stream) (after : option Stream) : Prop :=
  after = None /\ stopped s = true \/
  after = Some (mkStream (Id s) (Entries s ++ [entry]) (stopped s)) /\ length (Entries s) < stream_cap.

(** The stream that is waited for. *)
Definition waits (s : Stream) : Prop := stopped s = false /\ stream_cap <= length (Entries s).

Lemma offer_spec choose entry id ss :
  (forall s, ss !! id = Some s -> Id s = id) ->
  match offer choose entry id ss with
  | Some ss' => (forall id', id' <> id -> ss' !! id' = ss !! id') /\
      match ss !! id with Some s => served entry s (ss' !! id) | None => ss' !! id = None end
  | None => exists s, ss !! id = Some s /\ waits s
  end.
Proof.
  intros Hid. unfold offer, served, waits. destruct (ss !! id) as [s|] eqn:Hs; [|by split].
  rewrite (Hid s eq_refl). destruct (Nat.ltb_spec (length (Entries s)) stream_cap) as [Hr|Hr]; cbn [negb].
  - destruct (stopped s) eqn:Hst; cbn [andb orb]; [destruct (choose id)|];
      (split; [intros id' Hne; by rewrite ?lookup_delete_ne, ?lookup_insert_ne by done|]);
      rewrite ?lookup_delete_eq, ?lookup_insert_eq; auto.
  - destruct (stopped s) eqn:Hst; cbn [andb orb]; [|by exists s].
    split; [intros id' Hne; by rewrite lookup_delete_ne|]. left. by rewrite lookup_delete_eq.
Qed.

Lemma served_Id entry s s' : served entry s (Some s') -> Id s' = Id s.
Proof. by intros [[? _]|[[= ->] _]]. Qed.

Lemma serve_spec choose entry ids ss ss' rest :
  NoDup ids -> (forall id s, ss !! id = Some s -> Id s = id) -> serve choose entry ids ss = (ss', rest) ->
  (exists done_, ids = done_ ++ rest) /\
  (forall id, id ∉ ids \/ id ∈ rest -> ss' !! id = ss !! id) /\
  (forall id, id ∈ ids -> id ∉ rest ->
     match ss !! id with Some s => served entry s (ss' !! id) | None => ss' !! id = None end) /\
  match rest with [] => True | id :: _ => exists s, ss !! id = Some s /\ waits s end.
Proof.
  revert ss. induction ids as [|id ids IH]; intros ss Hnd Hid; cbn [serve].
  { intros [= <- <-]. split_and!; [by exists []|done|by intros id ?%not_elem_of_nil|done]. }
  apply NoDup_cons in Hnd as [Hn Hnd]. pose proof (offer_spec choose entry id ss (Hid id)) as Ho.
  destruct (offer choose entry id ss) as [ss1|].
  2:{ intros [= <- <-]. split_and!; [by exists []|done|done|done]. }
  destruct Ho as [Hne Hat]. intros Hf. apply IH in Hf as ([done_ Hd] & H1 & H2 & H3); [|done|].
  2:{ intros id' s Hs. destruct (decide (id' = id)) as [->|Hd]; [|rewrite Hne in Hs by done; by apply Hid].
      destruct (ss !! id) as [s0|] eqn:Hs0; [|congruence]. rewrite Hs in Hat. rewrite (served_Id _ _ _ Hat). by apply Hid. }
  assert (forall id', id' ∈ rest -> id' ∈ ids) as Hrest by (intros id' Hr; rewrite Hd; set_solver).
  split_and!.
  - exists (id :: done_). by rewrite Hd.
  - intros id' Hid'. rewrite H1 by set_solver. apply Hne. intros ->. set_solver.
  - intros id' [->|Hin]%elem_of_cons Hr; [by rewrite H1 by (by left)|].
    rewrite <- (Hne id') by (by intros ->). by apply H2.
  - destruct rest as [|id' rest]; [done|]. destruct H3 as (s & Hs & Hw). exists s. split; [|done].
    rewrite <- Hne; [done|]. intros ->. apply Hn, Hrest. left.
Qed.

Lemma elem_of_stream_ids o (b : Buffer) id : id ∈ stream_ids o b <-> is_Some (streams b !! id).
Proof.
  unfold stream_ids. rewrite list_elem_of_fmap. split.
  - intros ([id' s] & -> & Hin%elem_of_map_range). by exists s.
  - intros [s Hs]. exists (id, s). split; [done|]. by apply elem_of_map_range.
Qed.

(** [Put] gives the entry, last in the queue, to every stream it comes past and keeps,
    each within its capacity; it drops only stopped streams, adds none, and does not touch
    those left over. The first of these it waits for: it is full and not stopped. *)
Theorem Put_streams o choose v now b b' rest :
  streams_ok b -> Put o choose v now b = (b', rest) ->
  vals b' = push b (mkEntry v now) /\ streams_ok b' /\
  (forall id, match streams b !! id with
   | None => streams b' !! id = None
   | Some s => if decide (id ∈ rest) then streams b' !! id = Some s else served (mkEntry v now) s (streams b' !! id)
   end) /\
  match rest with [] => True | id :: _ => exists s, streams b !! id = Some s /\ waits s end.
Proof.
  intros Hok Hp. unfold Put in Hp. destruct (serve _ _ _ _) as [ss rest'] eqn:Hs. injection Hp as <- <-.
  apply serve_spec in Hs as ([done_ Hd] & H1 & H2 & H3); [|apply NoDup_map_range|exact Hok]. cbn [vals streams].
  assert (forall id, match streams b !! id with
   | None => ss !! id = None
   | Some s => if decide (id ∈ rest') then ss !! id = Some s else served (mkEntry v now) s (ss !! id)
   end) as Hall.
  { intros id. specialize (H1 id). specialize (H2 id). rewrite elem_of_stream_ids in H1, H2.
    destruct (streams b !! id) as [s|] eqn:Hs.
    - destruct (decide (id ∈ rest')) as [Hr|Hr]; [apply H1; by right|by apply H2].
    - apply H1. left. by intros [? ?]. }
  split_and!; [done| |done|done]. intros id s Hs. specialize (Hall id). cbn in Hs.
  destruct (streams b !! id) as [s0|] eqn:Hs0; [|congruence]. rewrite <- (Hok id s0 Hs0).
  destruct (decide (id ∈ rest')); [congruence|]. rewrite Hs in Hall. by eapply served_Id.
Qed.

(** A [Put] does not come past a stream that is full and not stopped. *)
Lemma Put_waits o choose v now b id s :
  streams_ok b -> streams b !! id = Some s -> waits s -> id ∈ (Put o choose v now b).2.
Proof.
  intros Hok Hs [Hst Hf]. destruct (Put o choose v now b) as [b' rest] eqn:Hp. cbn.
  destruct (Put_streams o choose v now b b' rest Hok Hp) as (_ & _ & Hall & _). specialize (Hall id). rewrite Hs in Hall.
  destruct (decide (id ∈ rest)) as [|_]; [done|]. destruct Hall as [[_ ?]|[_ ?]]; [congruence|lia].
Qed.
End ring.
Arguments Entry V : clear implicits.
Arguments Buffer V : clear implicits.
Arguments New {V} i.

(** ** Concrete runs *)
Definition put_all (vs : list nat) (b : Buffer nat) : Buffer nat :=
  foldl (fun b v => (Put order_id (fun _ => true) v (Z.of_nat v) b).1) b vs.

Definition ex_b : Buffer nat := put_all [1; 2; 3] (New 2).

Lemma ex_b_history : history 2 [mkEntry 1 1%Z; mkEntry 2 2%Z; mkEntry 3 3%Z] ex_b.
Proof.
  apply (h_put 2 order_id (fun _ => true) 3 3 [mkEntry 1 1%Z; mkEntry 2 2%Z] (put_all [1; 2] (New 2))).
  apply (h_put 2 order_id (fun _ => true) 2 2 [mkEntry 1 1%Z] (put_all [1] (New 2))).
  apply (h_put 2 order_id (fun _ => true) 1 1 [] (New 2)), h_new.
Qed.

Lemma Get_last_witness :
  history 2 [mkEntry 1 1%Z; mkEntry 2 2%Z; mkEntry 3 3%Z] ex_b /\ Get 1 ex_b = [mkEntry 3 3%Z].
Proof. split; [apply ex_b_history|]. rewrite (proj2 (Get_last _ _ _ 1 ex_b_history)). by vm_compute. Defined.

Lemma Since_spec_witness : Since 2 10 ex_b = [mkEntry 3 3%Z].
Proof. rewrite Since_spec; [by vm_compute|]. vm_compute. repeat constructor; by vm_compute. Defined.

Lemma Put_streams_witness :
  exists b', Put order_id (fun _ => true) 4 4 (Stream_ "s" ex_b) = (b', []) /\ streams_ok b'.
Proof.
  eexists. split; [by vm_compute|].
  apply (Put_streams order_id (fun _ => true) 4 4 (Stream_ "s" ex_b) _ []); [|by vm_compute].
  intros id s. cbn. intros [[<- <-]|[_ ?]]%lookup_insert_Some; [done|].
  done.
Defined.

(** With one stream full, the entry is in the buffer, the stream before it has got it, the
    one behind it has not, and the [Put] waits. *)
Definition ex_full : Buffer nat :=
  mkBuffer {["a" := mkStream "a" (replicate 128 (mkEntry 0 0%Z)) false; "b" := mkStream "b" [] false;
             "c" := mkStream "c" [] false]} [] 10.

Example put_waits :
  let '(b, rest) := Put order_id (fun _ => true) 7 7 ex_full in
  vals b = [mkEntry 7 7%Z] /\ Entries <$> streams b !! "c" = Some [mkEntry 7 7%Z] /\ rest = ["a"; "b"].
Proof. vm_compute. by split_and!. Qed.
