(* ===== verification/Store.v ===== *)
(** * The memory store: src/store/{memory,options,store}.go

    The store keeps records in a third-party expiring cache
    (github.com/patrickmn/go-cache). That cache is the class [ExpiringCache]:
    its documented behaviour is the class of laws [ExpiringCacheLaws], and
    [gc] is an instance that satisfies them. Times are instants in
    nanoseconds; one operation reads the clock once. A record's metadata values
    ([interface{}]) are of any type [Any]. *)
From Stdlib Require Import Sorted.
From S2P Require Import Prelude GoStrings GoPath.

#[local] Arguments has_prefix : simpl never.
#[local] Arguments has_suffix : simpl never.
#[local] Arguments trim_prefix : simpl never.

(** ** The third-party cache *)
Class ExpiringCache (S I : Type) := {
  gc_New : S;
  gc_Get : S -> Z -> string -> option I;
  gc_Set : S -> Z -> string -> I -> Z -> S;
  gc_Delete : S -> string -> S;
  gc_Items : S -> Z -> gmap string I;
  gc_Flush : S -> S;
}.

(** A store made with no default expiration: a duration of 0 means that default,
    a positive one expires. *)
Class ExpiringCacheLaws (S I : Type) `{ExpiringCache S I} := {
  get_new now k : gc_Get gc_New now k = None;
  get_set_forever s t k i now : gc_Get (gc_Set s t k i 0) now k = Some i;
  get_set_expiring s t k i d now :
    (0 < d)%Z -> gc_Get (gc_Set s t k i d) now k = if (now <=? t + d)%Z then Some i else None;
  get_set_ne s t k k' i d now : k <> k' -> gc_Get (gc_Set s t k i d) now k' = gc_Get s now k';
  get_delete s k now : gc_Get (gc_Delete s k) now k = None;
  get_delete_ne s k k' now : k <> k' -> gc_Get (gc_Delete s k) now k' = gc_Get s now k';
  get_items s now k : gc_Items s now !! k = gc_Get s now k;
  get_flush s now k : gc_Get (gc_Flush s) now k = None;
}.

Section store.
Context {Any : Type}.

Record storeRecord := mkStoreRecord {
  sr_expiresAt : Z;
  sr_metadata : gmap string Any;
  sr_key : string;
  sr_value : string;
}.

Record Record_ := mkRecord {
  rec_Metadata : gmap string Any;
  rec_Key : string;
  rec_Value : string;
  rec_Expiry : Z;
}.

Context {C : Type} `{ExpiringCache C storeRecord}.

Record memoryStore := mkStore { opt_Database : string; opt_Table : string; store : C }.

Definition with_store (m : memoryStore) (s : C) : memoryStore :=
  mkStore (opt_Database m) (opt_Table m) s.

(** ** options.go *)
Record ReadOptions := mkReadOptions {
  ro_Database : string; ro_Table : string;
  ro_Prefix : bool; ro_Suffix : bool;
  ro_Limit : Z; ro_Offset : Z;
}.

Inductive ReadOption :=
| ReadFrom (database table : string)
| ReadPrefix
| ReadSuffix
| ReadLimit (l : Z)
| ReadOffset (o : Z).

Definition read_option (r : ReadOptions) (o : ReadOption) : ReadOptions :=
  match o with
  | ReadFrom database table =>
      mkReadOptions database table (ro_Prefix r) (ro_Suffix r) (ro_Limit r) (ro_Offset r)
  | ReadPrefix => mkReadOptions (ro_Database r) (ro_Table r) true (ro_Suffix r) (ro_Limit r) (ro_Offset r)
  | ReadSuffix => mkReadOptions (ro_Database r) (ro_Table r) (ro_Prefix r) true (ro_Limit r) (ro_Offset r)
  | ReadLimit l => mkReadOptions (ro_Database r) (ro_Table r) (ro_Prefix r) (ro_Suffix r) l (ro_Offset r)
  | ReadOffset n => mkReadOptions (ro_Database r) (ro_Table r) (ro_Prefix r) (ro_Suffix r) (ro_Limit r) n
  end.

Record WriteOptions := mkWriteOptions {
  wo_Expiry : Z; wo_Database : string; wo_Table : string; wo_TTL : Z;
}.

Inductive WriteOption :=
| WriteTo (database table : string)
| WriteExpiry (t : Z)
| WriteTTL (d : Z).

Definition write_option (w : WriteOptions) (o : WriteOption) : WriteOptions :=
  match o with
  | WriteTo database table => mkWriteOptions (wo_Expiry w) database table (wo_TTL w)
  | WriteExpiry t => mkWriteOptions t (wo_Database w) (wo_Table w) (wo_TTL w)
  | WriteTTL d => mkWriteOptions (wo_Expiry w) (wo_Database w) (wo_Table w) d
  end.

Record ListOptions := mkListOptions {
  lo_Database : string; lo_Table : string;
  lo_Prefix : string; lo_Suffix : string;
  lo_Limit : Z; lo_Offset : Z;
}.

Inductive ListOption :=
| ListFrom (database table : string)
| ListPrefix (p : string)
| ListSuffix (s : string)
| ListLimit (l : Z)
| ListOffset (o : Z).

Definition list_option (l : ListOptions) (o : ListOption) : ListOptions :=
  match o with
  | ListFrom database table =>
      mkListOptions database table (lo_Prefix l) (lo_Suffix l) (lo_Limit l) (lo_Offset l)
  | ListPrefix p => mkListOptions (lo_Database l) (lo_Table l) p (lo_Suffix l) (lo_Limit l) (lo_Offset l)
  | ListSuffix s => mkListOptions (lo_Database l) (lo_Table l) (lo_Prefix l) s (lo_Limit l) (lo_Offset l)
  | ListLimit n => mkListOptions (lo_Database l) (lo_Table l) (lo_Prefix l) (lo_Suffix l) n (lo_Offset l)
  | ListOffset n => mkListOptions (lo_Database l) (lo_Table l) (lo_Prefix l) (lo_Suffix l) (lo_Limit l) n
  end.

Inductive DeleteOption := DeleteFrom (database table : string).

(** [uint] values are non-negative and below 2^64; [int(u)] wraps. *)
Definition uint_ok (u : Z) : Prop := (0 <= u < 2 ^ 64)%Z.

(** ** memory.go *)
Inductive store_error := ErrNotFound.

Definition NewMemoryStore : memoryStore := mkStore "micro" "micro" gc_New.

Definition key (prefix k : string) : string := Join [prefix; k].

Definition prefix (m : memoryStore) (database table : string) : string :=
  Join [if String.eqb database "" then opt_Database m else database;
        if String.eqb table "" then opt_Table m else table].

Definition get (m : memoryStore) (now : Z) (pre k : string) : outcome store_error Record_ :=
  match gc_Get (store m) now (key pre k) with
  | None => Fail ErrNotFound
  | Some r =>
      Ret (mkRecord (sr_metadata r) (trim_prefix (sr_key r) (pre +:+ "/")) (sr_value r)
             (if time_IsZero (sr_expiresAt r) then 0 else time_Sub (sr_expiresAt r) now))
  end.

Definition set (m : memoryStore) (now : Z) (pre : string) (r : Record_) : memoryStore :=
  let i := mkStoreRecord (if (rec_Expiry r =? 0)%Z then 0 else now + rec_Expiry r)
             (rec_Metadata r) (rec_Key r) (rec_Value r) in
  with_store m (gc_Set (store m) now (key pre (rec_Key r)) i (rec_Expiry r)).

Definition delete (m : memoryStore) (pre k : string) : memoryStore :=
  with_store m (gc_Delete (store m) (key pre k)).

Definition str_le (s t : string) : Prop := String.compare s t <> Gt.
#[local] Instance str_le_dec s t : Decision (str_le s t).
Proof. unfold str_le. apply _. Defined.

Fixpoint insert_key (k : string) (l : list string) : list string :=
  match l with
  | [] => [k]
  | k' :: l => if decide (str_le k k') then k :: k' :: l else k' :: insert_key k l
  end.

Definition sort_keys (l : list string) : list string := foldr insert_key [] l.

(** [list]: a slice expression with its bounds out of order panics. *)
Definition list_keys (o : map_order) (m : memoryStore) (now : Z) (pre : string) (limit offset : Z)
  : outcome store_error (list string) :=
  let foundKeys := omap (fun e : string * storeRecord =>
      if has_prefix e.1 (pre +:+ "/") then Some (trim_prefix e.1 (pre +:+ "/")) else None)
    (map_range o (gc_Items (store m) now)) in
  if negb (limit =? 0)%Z || negb (offset =? 0)%Z then
    let foundKeys := sort_keys foundKeys in
    let high := Z.min limit (Z.of_nat (length foundKeys)) in
    if (high <? offset)%Z then Panic
    else Ret (take (Z.to_nat (high - offset)) (drop (Z.to_nat offset) foundKeys))
  else Ret foundKeys.

Definition Init (database table : string) (m : memoryStore) : memoryStore :=
  mkStore database table (store m).

Definition Close (m : memoryStore) : memoryStore := with_store m (gc_Flush (store m)).

(** The window [for i := offset; i < limit; i++] with both bounds cut to the
    list; a huge offset wraps to a negative index, which panics ([None]). *)
Definition window (limit offset : Z) (k : list string) : option (list string) :=
  let len := Z.of_nat (length k) in
  let limit := wrap64 limit in
  let offset := wrap64 offset in
  let limit := if (len <? limit)%Z then len else limit in
  let offset := if (len <? offset)%Z then len else offset in
  if (offset <? 0)%Z && (offset <? limit)%Z then None
  else Some (take (Z.to_nat (limit - offset)) (drop (Z.to_nat offset) k)).

Definition selects (opts : ReadOptions) (k kk : string) : bool :=
  if ro_Prefix opts && negb (has_prefix kk k) then false
  else if ro_Suffix opts && negb (has_suffix kk k) then false
  else true.

(** The records read so far, and the error that stopped the loop if any. *)
Fixpoint get_all (m : memoryStore) (now : Z) (pre : string) (keys : list string)
  : list Record_ * option store_error :=
  match keys with
  | [] => ([], None)
  | k :: keys =>
      match get m now pre k with
      | Ret r => let '(rs, e) := get_all m now pre keys in (r :: rs, e)
      | Fail e => ([], Some e)
      | Panic => ([], None)
      end
  end.

(** [None] is a panic. *)
Definition Read (o : map_order) (m : memoryStore) (now : Z) (k : string) (opts : list ReadOption)
  : option (list Record_ * option store_error) :=
  let readOpts := foldl read_option (mkReadOptions "" "" false false 0 0) opts in
  let pre := prefix m (ro_Database readOpts) (ro_Table readOpts) in
  if ro_Prefix readOpts || ro_Suffix readOpts then
    match list_keys o m now pre 0 0 with
    | Ret ks =>
        match window (ro_Limit readOpts) (ro_Offset readOpts) ks with
        | None => None
        | Some ks => Some (get_all m now pre (filter (fun kk => selects readOpts k kk = true) ks))
        end
    | _ => None
    end
  else Some (get_all m now pre [k]).

Definition Write (m : memoryStore) (now : Z) (r : Record_) (opts : list WriteOption) : memoryStore :=
  let writeOpts := foldl write_option (mkWriteOptions 0 "" "" 0) opts in
  let pre := prefix m (wo_Database writeOpts) (wo_Table writeOpts) in
  match opts with
  | [] => set m now pre r
  | _ =>
      let expiry := rec_Expiry r in
      let expiry := if time_IsZero (wo_Expiry writeOpts) then expiry
                    else time_Sub (wo_Expiry writeOpts) now in
      let expiry := if (wo_TTL writeOpts =? 0)%Z then expiry else wo_TTL writeOpts in
      set m now pre (mkRecord (rec_Metadata r) (rec_Key r) (rec_Value r) expiry)
  end.

Definition Delete (m : memoryStore) (k : string) (opts : list DeleteOption) : memoryStore :=
  let '(database, table) := foldl (fun _ '(DeleteFrom d t) => (d, t)) ("", "") opts in
  delete m (prefix m database table) k.

Definition List_ (o : map_order) (m : memoryStore) (now : Z) (opts : list ListOption)
  : outcome store_error (list string) :=
  let l := foldl list_option (mkListOptions "" "" "" "" 0 0) opts in
  keys <-! list_keys o m now (prefix m (lo_Database l) (lo_Table l)) (lo_Limit l) (lo_Offset l);
  let keys := if String.eqb (lo_Prefix l) "" then keys
              else filter (fun k => has_prefix k (lo_Prefix l) = true) keys in
  let keys := if String.eqb (lo_Suffix l) "" then keys
              else filter (fun k => has_suffix k (lo_Suffix l) = true) keys in
  Ret keys.

(** ** Reading back what was written *)
Context `{!ExpiringCacheLaws C storeRecord}.

Definition read_opts (opts : list ReadOption) : ReadOptions :=
  foldl read_option (mkReadOptions "" "" false false 0 0) opts.

Definition write_opts (opts : list WriteOption) : WriteOptions :=
  foldl write_option (mkWriteOptions 0 "" "" 0) opts.

(** The expiry a write takes: its TTL option, else the time until its expiry
    option, else the record's own. *)
Definition effective_expiry (now : Z) (r : Record_) (opts : list WriteOption) : Z :=
  if negb (wo_TTL (write_opts opts) =? 0)%Z then wo_TTL (write_opts opts)
  else if negb (wo_Expiry (write_opts opts) =? 0)%Z then time_Sub (wo_Expiry (write_opts opts)) now
  else rec_Expiry r.

Lemma Write_set m now r opts :
  Write m now r opts =
  set m now (prefix m (wo_Database (write_opts opts)) (wo_Table (write_opts opts)))
    (mkRecord (rec_Metadata r) (rec_Key r) (rec_Value r) (effective_expiry now r opts)).
Proof.
  unfold Write, effective_expiry. fold (write_opts opts).
  destruct opts as [|o opts]; [by destruct r|].
  unfold time_IsZero. destruct (Z.eqb_spec (wo_TTL (write_opts (o :: opts))) 0); cbn [negb]; [|done].
  by destruct (wo_Expiry (write_opts (o :: opts)) =? 0)%Z.
Qed.

Lemma get_set_same m now pre r now' :
  (0 <= rec_Expiry r)%Z ->
  get (set m now pre r) now' pre (rec_Key r) =
  if (rec_Expiry r =? 0)%Z || (now' <=? now + rec_Expiry r)%Z then
    Ret (mkRecord (rec_Metadata r) (trim_prefix (rec_Key r) (pre +:+ "/")) (rec_Value r)
           (if (rec_Expiry r =? 0)%Z || (now + rec_Expiry r =? 0)%Z then 0
            else time_Sub (now + rec_Expiry r) now'))
  else Fail ErrNotFound.
Proof.
  intros He. unfold get, set. cbn [store with_store].
  destruct (Z.eqb_spec (rec_Expiry r) 0) as [Hz|Hz].
  - by rewrite Hz, get_set_forever.
  - rewrite get_set_expiring by lia. cbn [orb]. by destruct (now' <=? now + rec_Expiry r)%Z.
Qed.

(** A write is read back: reading the record's key from the same database and
    table returns exactly that record's value and metadata, under its key (less
    the table path, if the key repeats it) and with the time left, until the
    effective expiry (TTL before expiry before the record's own; 0 is never) has
    passed, and not-found after. *)
Theorem Write_Read o m now r wopts now' ropts :
  let e := effective_expiry now r wopts in
  let pre := prefix m (wo_Database (write_opts wopts)) (wo_Table (write_opts wopts)) in
  prefix m (ro_Database (read_opts ropts)) (ro_Table (read_opts ropts)) = pre ->
  ro_Prefix (read_opts ropts) = false -> ro_Suffix (read_opts ropts) = false ->
  (0 <= e)%Z ->
  Read o (Write m now r wopts) now' (rec_Key r) ropts =
  Some (if (e =? 0)%Z || (now' <=? now + e)%Z then
          ([mkRecord (rec_Metadata r) (trim_prefix (rec_Key r) (pre +:+ "/")) (rec_Value r)
              (if (e =? 0)%Z || (now + e =? 0)%Z then 0 else time_Sub (now + e) now')], None)
        else ([], Some ErrNotFound)).
Proof.
  cbn zeta. intros Hpre Hp Hs He. unfold Read. fold (read_opts ropts). rewrite Hp, Hs. cbn [orb].
  rewrite Write_set. unfold prefix. cbn [set with_store opt_Database opt_Table].
  fold (prefix m (ro_Database (read_opts ropts)) (ro_Table (read_opts ropts))). rewrite Hpre.
  cbn [get_all]. set (r' := mkRecord (rec_Metadata r) (rec_Key r) (rec_Value r) (effective_expiry now r wopts)).
  change (rec_Key r) with (rec_Key r') at 2. rewrite (get_set_same m now _ r' now') by done. cbn.
  by destruct (_ || _).
Qed.

(** ** Tables do not interfere *)

(** With plain database, table and key names (no "", ".", ".." and, but for
    keys, no slash), a write or a delete changes no read of another key, table or
    database. *)
Theorem tables_isolated m now now' r d1 t1 d2 t2 k2 :
  plain d1 -> plain t1 -> plain_path (rec_Key r) -> plain d2 -> plain t2 -> plain_path k2 ->
  (d1, t1, rec_Key r) <> (d2, t2, k2) ->
  get (set m now (Join [d1; t1]) r) now' (Join [d2; t2]) k2 = get m now' (Join [d2; t2]) k2 /\
  get (delete m (Join [d1; t1]) (rec_Key r)) now' (Join [d2; t2]) k2 = get m now' (Join [d2; t2]) k2.
Proof.
  intros Hd1 Ht1 Hk1 Hd2 Ht2 Hk2 Hne.
  assert (forall p, plain p -> plain_path p) as Hpp.
  { intros p Hp. exists [p]. split_and!; [done|by constructor|done]. }
  assert (key (Join [d1; t1]) (rec_Key r) <> key (Join [d2; t2]) k2) as Hk.
  { unfold key. rewrite (Join_plain d1 t1), (Join_plain d2 t2) by auto.
    rewrite !Join_plain by auto using plain_path_app. rewrite !str_app_assoc.
    intros He. apply Hne.
    change (d1 +:+ "/" +:+ (t1 +:+ "/" +:+ rec_Key r) = d2 +:+ "/" +:+ (t2 +:+ "/" +:+ k2)) in He.
    apply plain_path_inj in He as [-> He]; [|done..]. by apply plain_path_inj in He as [-> ->]. }
  unfold get, set, delete. cbn [store with_store]. by rewrite get_set_ne, get_delete_ne.
Qed.

(** ** Listing *)
Definition live (m : memoryStore) (now : Z) (pre k : string) : Prop :=
  is_Some (gc_Get (store m) now (pre +:+ "/" +:+ k)).

Definition found_keys (o : map_order) (m : memoryStore) (now : Z) (pre : string) : list string :=
  omap (fun e : string * storeRecord =>
      if has_prefix e.1 (pre +:+ "/") then Some (trim_prefix e.1 (pre +:+ "/")) else None)
    (map_range o (gc_Items (store m) now)).

Lemma found_keys_elem o m now pre k : k ∈ found_keys o m now pre <-> live m now pre k.
Proof.
  unfold found_keys, live. rewrite list_elem_of_omap, <- get_items. split.
  - intros ([k' i] & Hin%elem_of_map_range & Hk). cbn in Hk.
    destruct (has_prefix k' (pre +:+ "/")) eqn:Hp; [|done]. simplify_eq.
    apply has_prefix_spec in Hp as [t ->]. rewrite trim_prefix_app.
    rewrite str_app_assoc in Hin. rewrite Hin. by eexists.
  - intros [i Hi]. exists (pre +:+ "/" +:+ k, i). rewrite elem_of_map_range. split; [done|]. cbn [fst].
    rewrite <- str_app_assoc. by rewrite has_prefix_app, trim_prefix_app.
Qed.

Lemma found_keys_NoDup o m now pre : NoDup (found_keys o m now pre).
Proof.
  unfold found_keys. pose proof (NoDup_map_range o (gc_Items (store m) now)) as Hnd.
  induction (map_range o (gc_Items (store m) now)) as [|[k i] l IH]; [constructor|].
  cbn in Hnd. apply NoDup_cons in Hnd as [Hk Hnd]. cbn [omap list_omap fst].
  destruct (has_prefix k (pre +:+ "/")) eqn:Hp; [|by apply IH].
  apply NoDup_cons. split; [|by apply IH]. intros ([k' i'] & Hin & Hk')%list_elem_of_omap.
  cbn in Hk'. destruct (has_prefix k' (pre +:+ "/")) eqn:Hp'; [|done].
  apply has_prefix_spec in Hp as [t ->], Hp' as [t' ->]. rewrite !trim_prefix_app in Hk'. simplify_eq.
  apply Hk. apply list_elem_of_fmap. eexists (_, i'). split; [reflexivity|exact Hin].
Qed.

Lemma insert_key_perm k l : insert_key k l ≡ₚ k :: l.
Proof.
  induction l as [|k' l IH]; [done|]. cbn [insert_key]. destruct (decide (str_le k k')); [done|].
  rewrite IH. apply Permutation_swap.
Qed.

Lemma sort_keys_perm l : sort_keys l ≡ₚ l.
Proof.
  unfold sort_keys. induction l as [|k l IH]; [done|]. cbn [foldr]. by rewrite insert_key_perm, IH.
Qed.

Lemma str_le_total s t : ~ str_le s t -> str_le t s.
Proof.
  unfold str_le. rewrite (String.compare_antisym s t).
  destruct (String.compare t s); cbn; intros Hn; congruence || (exfalso; by apply Hn).
Qed.

Lemma sort_keys_sorted l : Sorted str_le (sort_keys l).
Proof.
  unfold sort_keys. induction l as [|k l IH]; cbn; [constructor|].
  induction IH as [|k' l' Hl IH Hr]; cbn; [by repeat constructor|].
  destruct (decide (str_le k k')) as [Hle|Hn%str_le_total]; [by repeat constructor|].
  constructor; [done|]. inversion Hr as [|k'' l'' Hk]; subst; cbn; [by constructor|].
  destruct (decide (str_le k k'')); by constructor.
Qed.

(** Listing a table. Without limit and offset, the keys are those of the live
    records stored under the table's path, once each. With a limit or an offset,
    they are a window of the sorted keys that ends at the limit (not a limit's
    length after the offset); and the call panics when that window would end
    before it starts, so always when an offset is given without a limit. *)
Theorem list_keys_spec o m now pre limit offset :
  uint_ok limit -> uint_ok offset ->
  exists keys, NoDup keys /\ (forall k, k ∈ keys <-> live m now pre k) /\
  sort_keys keys ≡ₚ keys /\ Sorted str_le (sort_keys keys) /\
  match list_keys o m now pre limit offset with
  | Ret l => if (limit =? 0)%Z && (offset =? 0)%Z then l = keys
             else l = take (Z.to_nat (limit - offset)) (drop (Z.to_nat offset) (sort_keys keys)) /\
                  (offset <= Z.min limit (Z.of_nat (length keys)))%Z
  | Panic => (Z.min limit (Z.of_nat (length keys)) < offset)%Z
  | Fail _ => False
  end.
Proof.
  unfold uint_ok. intros Hl Ho. exists (found_keys o m now pre).
  split; [apply found_keys_NoDup|]. split; [intros; apply found_keys_elem|].
  split; [apply sort_keys_perm|]. split; [apply sort_keys_sorted|].
  unfold list_keys. fold (found_keys o m now pre). set (keys := found_keys o m now pre).
  assert (length (sort_keys keys) = length keys) as Hlen by by rewrite sort_keys_perm.
  rewrite Hlen. set (n := Z.of_nat (length keys)) in *.
  assert (negb (limit =? 0)%Z || negb (offset =? 0)%Z = negb ((limit =? 0)%Z && (offset =? 0)%Z)) as ->
    by by destruct (limit =? 0)%Z.
  destruct ((limit =? 0)%Z && (offset =? 0)%Z); cbn [negb]; [done|].
  destruct (Z.ltb_spec (Z.min limit n) offset) as [Hlt|Hge]; [done|]. split; [|lia].
  destruct (Z.min_spec limit n) as [[_ ->]|[Hle ->]]; [done|].
  rewrite !take_ge by (rewrite length_drop, Hlen; lia). done.
Qed.

(** ** Reading by prefix or suffix *)

Lemma Read_match_needs_limit_aux o m now k opts :
  ro_Prefix (read_opts opts) || ro_Suffix (read_opts opts) = true ->
  ro_Limit (read_opts opts) = 0%Z -> (0 <= ro_Offset (read_opts opts) < 2 ^ 63)%Z ->
  Read o m now k opts = Some ([], None).
Proof.
  intros Hm Hl Ho. unfold Read. fold (read_opts opts). rewrite Hm, Hl. cbn [list_keys].
  unfold list_keys. cbn [Z.eqb negb orb]. unfold window.
  rewrite (wrap64_small (ro_Offset _)) by (unfold int_min, int_max; lia).
  change (wrap64 0) with 0%Z.
  set (len := Z.of_nat _). destruct (Z.ltb_spec len 0); [lia|].
  set (off := if (len <? _)%Z then len else _).
  assert (0 <= off)%Z by (unfold off; destruct (len <? _)%Z; lia).
  destruct (Z.ltb_spec off 0); [lia|]. cbn [andb].
  replace (Z.to_nat (0 - off)) with 0 by lia. done.
Qed.

(** A prefix or suffix read without a limit returns nothing at all, whatever
    the store holds: the limit's zero value is taken as the end of the window. *)
Theorem Read_match_needs_limit o m now k opts :
  ro_Prefix (read_opts opts) || ro_Suffix (read_opts opts) = true ->
  ro_Limit (read_opts opts) = 0%Z -> (0 <= ro_Offset (read_opts opts) < 2 ^ 63)%Z ->
  Read o m now k opts = Some ([], None).
Proof. apply Read_match_needs_limit_aux. Qed.

(** Keys are clean paths. *)
Definition store_ok (m : memoryStore) : Prop :=
  forall now k i, gc_Get (store m) now k = Some i -> k = "" \/ exists s, k = Clean s.

Definition store_step (m m' : memoryStore) : Prop :=
  (exists now r opts, m' = Write m now r opts) \/ (exists k opts, m' = Delete m k opts) \/
  (exists d t, m' = Init d t m) \/ m' = Close m.

Inductive store_reachable : memoryStore -> Prop :=
| sr_new : store_reachable NewMemoryStore
| sr_step m m' : store_reachable m -> store_step m m' -> store_reachable m'.

Lemma set_ok m now pre r : store_ok m -> store_ok (set m now pre r).
Proof.
  intros Hok now' k i. unfold set. cbn [store with_store].
  destruct (decide (key pre (rec_Key r) = k)) as [<-|Hne].
  - intros _. apply Join_clean.
  - rewrite get_set_ne by done. apply Hok.
Qed.

Lemma delete_ok m pre k : store_ok m -> store_ok (delete m pre k).
Proof.
  intros Hok now' k' i. unfold delete. cbn [store with_store].
  destruct (decide (key pre k = k')) as [<-|Hne].
  - by rewrite get_delete.
  - rewrite get_delete_ne by done. apply Hok.
Qed.

Lemma reachable_ok m : store_reachable m -> store_ok m.
Proof.
  induction 1 as [|m m' _ IH Hs]; [intros now k i; cbn; by rewrite get_new|].
  destruct Hs as [(now & r & opts & ->)|[(k & opts & ->)|[(d & t & ->)| ->]]].
  - rewrite Write_set. by apply set_ok.
  - unfold Delete. destruct (foldl _ _ opts). by apply delete_ok.
  - exact IH.
  - intros now k i. cbn. by rewrite get_flush.
Qed.

Lemma key_of_live m now pre k :
  store_ok m -> plain_path pre -> live m now pre k -> key pre k = pre +:+ "/" +:+ k.
Proof.
  intros Hok Hp [i Hi]. apply Hok in Hi. pose proof (plain_nonempty pre Hp) as Hne.
  destruct Hi as [He|[s Hs]]; [by destruct pre|].
  unfold key, Join. rewrite filter_cons, decide_True, filter_cons by done.
  destruct (decide (k <> "")) as [Hk|Hk].
  - cbn [filter list_filter]. change (Clean (pre +:+ "/" +:+ k) = pre +:+ "/" +:+ k).
    rewrite Hs. apply Clean_idem.
  - apply dec_stable in Hk. subst k. exfalso.
    assert (Clean (pre +:+ "/" +:+ "") = pre) as Hc.
    { destruct Hp as (comps & Hcne & Hcp & ->). unfold Clean.
      assert (has_prefix (join "/" comps +:+ "/" +:+ "") "/" = false) as ->.
      { pose proof (plain_not_rooted _ (ex_intro _ comps (conj Hcne (conj Hcp eq_refl)))) as Hr.
        destruct (join "/" comps) as [|a rest]; [done|].
        destruct (has_prefix (String a rest +:+ "/" +:+ "") "/") eqn:Hh; [|done].
        apply has_prefix_spec in Hh as [t Ht]. cbn in Ht. injection Ht as -> _.
        change (String "/" rest) with ("/" +:+ rest) in Hr. by rewrite has_prefix_app in Hr. }
      change ("/" +:+ "") with (String "/" ""). rewrite split_char_mid, plain_split, foldl_app by done.
      rewrite (clean_plain_fold false comps) by done. rewrite app_nil_r. cbn [split_char foldl].
      change (clean_step false (rev comps) "") with (rev comps). rewrite rev_involutive.
      cbn [String.append]. by rewrite (proj2 (String.eqb_neq _ _) Hne). }
    rewrite Hs, Clean_idem, <- Hs in Hc. apply (f_equal String.length) in Hc.
    rewrite str_length_app in Hc. cbn in Hc. lia.
Qed.

Lemma get_all_live m now pre ks :
  store_ok m -> plain_path pre -> (forall k, k ∈ ks -> live m now pre k) ->
  exists rs, get_all m now pre ks = (rs, None) /\ Forall2 (fun k r => get m now pre k = Ret r) ks rs.
Proof.
  intros Hok Hp. induction ks as [|k ks IH]; intros Hl; [exists []; by split|].
  destruct IH as (rs & Hrs & H2); [set_solver|].
  assert (live m now pre k) as Hk by set_solver. pose proof (key_of_live m now pre k Hok Hp Hk) as Hkey.
  destruct Hk as [i Hi]. cbn [get_all]. rewrite Hrs.
  assert (exists r, get m now pre k = Ret r) as [r Hr].
  { unfold get. rewrite Hkey, Hi. by eexists. }
  rewrite Hr. exists (r :: rs). split; [done|]. by constructor.
Qed.

Lemma selects_spec opts k kk :
  selects opts k kk = true <->
  (ro_Prefix opts = true -> has_prefix kk k = true) /\ (ro_Suffix opts = true -> has_suffix kk k = true).
Proof.
  unfold selects. destruct (ro_Prefix opts), (has_prefix kk k), (ro_Suffix opts), (has_suffix kk k);
    cbn; intuition congruence.
Qed.

(** A prefix or suffix read whose limit is at least the number of the table's
    live keys, with no offset, never fails: it returns one record for each live
    key that has the prefix and the suffix asked for, and no other, in every
    state reached by writes, deletes, re-initialisations and closing. *)
Theorem Read_match o m now k opts :
  store_reachable m ->
  let ro := read_opts opts in
  let pre := prefix m (ro_Database ro) (ro_Table ro) in
  plain_path pre -> ro_Prefix ro || ro_Suffix ro = true -> ro_Offset ro = 0%Z ->
  (Z.of_nat (length (found_keys o m now pre)) <= ro_Limit ro < 2 ^ 63)%Z ->
  exists ks rs, Read o m now k opts = Some (rs, None) /\ NoDup ks /\
    Forall2 (fun kk r => get m now pre kk = Ret r) ks rs /\
    (forall kk, kk ∈ ks <-> live m now pre kk /\
       (ro_Prefix ro = true -> has_prefix kk k = true) /\ (ro_Suffix ro = true -> has_suffix kk k = true)).
Proof.
  intros Hr ro pre Hp Hm Hoff Hlim. apply reachable_ok in Hr.
  set (found := found_keys o m now pre) in *.
  set (ks := filter (fun kk => selects ro k kk = true) found).
  assert (forall kk, kk ∈ ks <-> live m now pre kk /\
       (ro_Prefix ro = true -> has_prefix kk k = true) /\ (ro_Suffix ro = true -> has_suffix kk k = true))
    as Hks.
  { intros kk. unfold ks. rewrite list_elem_of_filter, selects_spec. unfold found.
    rewrite found_keys_elem. tauto. }
  destruct (get_all_live m now pre ks Hr Hp) as (rs & Hrs & H2); [intros kk Hkk; by apply Hks|].
  exists ks, rs. split_and!; [|by apply NoDup_filter, found_keys_NoDup|done|done].
  unfold Read. fold (read_opts opts). fold ro. rewrite Hm. unfold list_keys. cbn [Z.eqb negb orb].
  fold (prefix m (ro_Database ro) (ro_Table ro)). fold pre. fold (found_keys o m now pre). fold found.
  unfold window. rewrite Hoff. rewrite (wrap64_small (ro_Limit ro)) by (unfold int_min, int_max; lia).
  change (wrap64 0) with 0%Z. set (len := Z.of_nat (length found)) in *.
  destruct (Z.ltb_spec len 0); [lia|]. change (drop (Z.to_nat 0) found) with found.
  cbn [Z.ltb Z.compare andb]. rewrite take_ge; [by fold ks; rewrite Hrs|].
  destruct (Z.ltb_spec len (ro_Limit ro)); lia.
Qed.
End store.
Arguments memoryStore C : clear implicits.
Arguments storeRecord Any : clear implicits.

(** ** An instance of the third-party cache: entries with an optional deadline *)
Section instance.
Context {I : Type}.

Definition gc : Type := gmap string (I * option Z).

Definition unexpired (now : Z) (e : I * option Z) : option I :=
  match e.2 with
  | None => Some e.1
  | Some t => if (now <=? t)%Z then Some e.1 else None
  end.

#[global] Instance gc_cache : ExpiringCache gc I := {|
  gc_New := ∅;
  gc_Get := fun s now k => (s : gmap string (I * option Z)) !! k ≫= unexpired now;
  gc_Set := fun s t k i d => <[k := (i, if (0 <? d)%Z then Some (t + d)%Z else None)]> (s : gmap _ _);
  gc_Delete := fun s k => base.delete k (s : gmap string (I * option Z));
  gc_Items := fun s now => omap (unexpired now) (s : gmap string (I * option Z));
  gc_Flush := fun _ => ∅;
|}.

#[global] Instance gc_laws : ExpiringCacheLaws gc I.
Proof.
  constructor; intros; cbn.
  - done.
  - by rewrite lookup_insert_eq.
  - rewrite lookup_insert_eq. cbn. by destruct (Z.ltb_spec 0 d); [|lia].
  - by rewrite lookup_insert_ne.
  - by rewrite lookup_delete_eq.
  - by rewrite lookup_delete_ne.
  - by rewrite lookup_omap.
  - done.
Qed.
End instance.

(** ** Concrete runs *)
Definition ex_store : memoryStore (@gc (storeRecord nat)) := NewMemoryStore.

Definition ex_rec (k v : string) (e : Z) : Record_ := mkRecord (Any := nat) ∅ k v e.

Definition ex_store1 : memoryStore (@gc (storeRecord nat)) :=
  Write (Write (Write ex_store 0 (ex_rec "users/a" "1" 0) []) 0 (ex_rec "users/b" "2" 10) [])
    0 (ex_rec "posts/a" "3" 0) [WriteTTL 5].

Lemma ex_store1_reachable : store_reachable ex_store1.
Proof.
  eapply sr_step; [eapply sr_step; [eapply sr_step; [apply sr_new|]|]|];
    left; do 3 eexists; reflexivity.
Qed.

(** A key that climbs out of its table reads and overwrites another table. *)
Example keys_escape_tables :
  let m := Write ex_store 0 (ex_rec "x" "secret" 0) [WriteTo "db" "t2"] in
  Read order_id m 0 "../t2/x" [ReadFrom "db" "t1"] = Some ([ex_rec "x" "secret" 0], None).
Proof. by vm_compute. Qed.

Example list_offset_panics :
  List_ order_id ex_store1 0 [ListOffset 1] = Panic /\
  List_ order_id ex_store1 0 [ListOffset 1; ListLimit 2] = Ret ["users/a"].
Proof. by vm_compute. Qed.

Lemma Write_Read_witness :
  Read order_id (Write ex_store 100 (ex_rec "k" "v" 7) [WriteTTL 5]) 105 "k" [] =
    Some ([ex_rec "k" "v" 0], None) /\
  Read order_id (Write ex_store 100 (ex_rec "k" "v" 7) [WriteTTL 5]) 106 "k" [] = Some ([], Some ErrNotFound).
Proof.
  split; [by vm_compute|].
  rewrite (Write_Read order_id ex_store 100 (ex_rec "k" "v" 7) [WriteTTL 5] 106 []); by vm_compute.
Defined.

Lemma plain_ex c : bool_decide (c ∉ [""; "."; ".."]) = true -> str_has "/" c = false -> plain c.
Proof. intros Hc Hs. split; [by apply bool_decide_eq_true in Hc|done]. Qed.

Lemma tables_isolated_witness :
  get (set ex_store1 3 (Join ["micro"; "other"]) (ex_rec "users/a" "9" 0)) 4 (Join ["micro"; "micro"]) "users/a" =
  get ex_store1 4 (Join ["micro"; "micro"]) "users/a".
Proof.
  pose proof plain_ex as Hp. assert (plain_path "users/a") as Hpp.
  { exists ["users"; "a"]. split_and!; [done|constructor; [by apply Hp|constructor; [by apply Hp|done]]|done]. }
  apply (tables_isolated ex_store1 3 4 (ex_rec "users/a" "9" 0) "micro" "other" "micro" "micro" "users/a");
    [by apply Hp|by apply Hp|exact Hpp|by apply Hp|by apply Hp|exact Hpp|congruence].
Defined.

Lemma list_keys_spec_witness :
  uint_ok 2 /\ uint_ok 1 /\
  exists keys, NoDup keys /\ (forall k, k ∈ keys <-> live ex_store1 1 "micro/micro" k).
Proof.
  assert (uint_ok 2 /\ uint_ok 1) as [H2 H1] by (unfold uint_ok; lia).
  split_and!; [done..|].
  destruct (list_keys_spec order_id ex_store1 1 "micro/micro" 2 1 H2 H1) as (keys & ? & ? & _).
  by exists keys.
Defined.

Lemma Read_match_needs_limit_witness :
  Read order_id ex_store1 1 "users" [ReadPrefix] = Some ([], None) /\
  Read order_id ex_store1 1 "users" [ReadPrefix; ReadLimit 9] =
    Some ([ex_rec "users/a" "1" 0; ex_rec "users/b" "2" 9], None).
Proof.
  split; [|by vm_compute].
  by apply Read_match_needs_limit.
Defined.

Lemma Read_match_witness :
  store_reachable ex_store1 /\
  exists rs, Read order_id ex_store1 1 "a" [ReadSuffix; ReadLimit 3] = Some (rs, None) /\ rs <> [].
Proof.
  split; [apply ex_store1_reachable|].
  destruct (Read_match order_id ex_store1 1 "a" [ReadSuffix; ReadLimit 3] ex_store1_reachable)
    as (ks & rs & Hr & _ & H2 & Hks); [|by vm_compute..|].
  - exists ["micro"; "micro"]. split_and!; [done| |by vm_compute].
    constructor; [by apply plain_ex|constructor; [by apply plain_ex|done]].
  - exists rs. split; [done|]. intros ->. inversion H2; subst.
    assert ("users/a" ∈ @nil string) as Hin; [|by apply elem_of_nil in Hin].
    apply Hks. split; [vm_compute; by eexists|split; [|by vm_compute]].
    intros Hf. vm_compute in Hf. discriminate Hf.
Defined.
