(* ===== verification/Broker.v ===== *)
(** * The in-memory broker: src/broker/memory.go

    A handler is a function on the state [W] of the program around the broker:
    given the event as the broker passes it, it returns the new state and an
    error or none. [Subscribe] spawns a goroutine that waits for the
    subscriber's [exit] token and then removes it from its topic; the token and
    the removal are separate steps. The codec ([Marshal], [Unmarshal]) and the
    address chosen by [Connect] are arguments. *)
From S2P Require Import Prelude.

Section broker.
Context {W E Message : Type}.

(** ** Data *)
Inductive payload := PMessage (m : Message) | PBytes (b : string).

Record memoryEvent := mkEvent {
  ev_err : option E;
  ev_message : payload;
  ev_topic : string;
}.

Definition Handler : Type := W -> memoryEvent -> W * option E.

Record memorySubscriber := mkSubscriber {
  sub_id : string;
  sub_topic : string;
  sub_handler : Handler;
}.

Record Codec := mkCodec {
  Marshal : Message -> E + string;
  Unmarshal : string -> option Message;
}.

Record Options := mkOptions { opt_Codec : option Codec; opt_ErrorHandler : option Handler }.

(** [exiting]: the subscribers whose [exit] channel holds a token that their
    goroutine has not taken; [running]: those whose goroutine still waits. *)
Record memoryBroker := mkBroker {
  opts : Options;
  Subscribers : gmap string (list memorySubscriber);
  addr : string;
  connected : bool;
  exiting : gset string;
  running : gset string;
}.

Inductive broker_error := NotConnected | ExtractError (e : E) | HandlerError (e : E) | CodecError (e : E).

Definition NewMemoryBroker (o : Options) : memoryBroker := mkBroker o ∅ "" false ∅ ∅.

(** ** Operations *)

(** [extracted] is what [maddr.Extract] returned, already joined to the port. *)
Definition Connect (extracted : E + string) (m : memoryBroker) : memoryBroker * option broker_error :=
  if connected m then (m, None)
  else match extracted with
       | inl e => (m, Some (ExtractError e))
       | inr a => (mkBroker (opts m) (Subscribers m) a true (exiting m) (running m), None)
       end.

Definition Disconnect (m : memoryBroker) : memoryBroker :=
  if negb (connected m) then m
  else mkBroker (opts m) (Subscribers m) (addr m) false (exiting m) (running m).

Definition Init (o : Options) (m : memoryBroker) : memoryBroker :=
  mkBroker o (Subscribers m) (addr m) (connected m) (exiting m) (running m).

Definition set_err (e : E) (p : memoryEvent) : memoryEvent :=
  mkEvent (Some e) (ev_message p) (ev_topic p).

(** The loop over the subscribers: [p] is one event shared by all of them. *)
Fixpoint deliver (eh : option Handler) (subs : list memorySubscriber) (w : W) (p : memoryEvent)
  : W * option broker_error :=
  match subs with
  | [] => (w, None)
  | sub :: subs =>
      let '(w, err) := sub_handler sub w p in
      match err with
      | None => deliver eh subs w p
      | Some e =>
          let p := set_err e p in
          match eh with
          | Some eh => deliver (Some eh) subs (fst (eh w p)) p
          | None => (w, Some (HandlerError e))
          end
      end
  end.

Definition Publish (topic : string) (msg : Message) (m : memoryBroker) (w : W) : W * option broker_error :=
  if negb (connected m) then (w, Some NotConnected)
  else match Subscribers m !! topic with
       | None => (w, None)
       | Some subs =>
           match (match opt_Codec (opts m) with
                  | Some c => match Marshal c msg with inl e => inl e | inr b => inr (PBytes b) end
                  | None => inr (PMessage msg)
                  end) with
           | inl e => (w, Some (CodecError e))
           | inr v => deliver (opt_ErrorHandler (opts m)) subs w (mkEvent None v topic)
           end
       end.

Definition Event_Message (m : memoryBroker) (p : memoryEvent) : option Message :=
  match ev_message p with
  | PMessage msg => Some msg
  | PBytes b => match opt_Codec (opts m) with Some c => Unmarshal c b | None => None end
  end.

(** [id] is the fresh uuid. *)
Definition Subscribe (topic : string) (handler : Handler) (id : string) (m : memoryBroker)
  : memoryBroker * option broker_error :=
  if negb (connected m) then (m, Some NotConnected)
  else
    let sub := mkSubscriber id topic handler in
    (mkBroker (opts m) (<[topic := default [] (Subscribers m !! topic) ++ [sub]]> (Subscribers m))
       (addr m) (connected m) (exiting m) ({[id]} ∪ running m), None).

(** [m.exit <- true] on a channel of capacity one: [None] blocks. *)
Definition Unsubscribe (sub : memorySubscriber) (m : memoryBroker) : option memoryBroker :=
  if bool_decide (sub_id sub ∈ exiting m) then None
  else Some (mkBroker (opts m) (Subscribers m) (addr m) (connected m) ({[sub_id sub]} ∪ exiting m) (running m)).

Fixpoint without (id : string) (subs : list memorySubscriber) : list memorySubscriber :=
  match subs with
  | [] => []
  | sb :: subs => if String.eqb (sub_id sb) id then without id subs else sb :: without id subs
  end.

(** The subscriber's goroutine takes its token and removes it. *)
Definition reap (sub : memorySubscriber) (m : memoryBroker) : option memoryBroker :=
  if bool_decide (sub_id sub ∈ exiting m) && bool_decide (sub_id sub ∈ running m) then
    Some (mkBroker (opts m)
      (<[sub_topic sub := without (sub_id sub) (default [] (Subscribers m !! sub_topic sub))]> (Subscribers m))
      (addr m) (connected m) (exiting m ∖ {[sub_id sub]}) (running m ∖ {[sub_id sub]}))
  else None.

(** ** Specification of a delivery

    [delivered eh subs w p tr w' err]: publishing [p] to [subs] calls the
    handlers in [tr], a list of subscribers with the event each one saw. *)
Inductive delivered (eh : option Handler) :
  list memorySubscriber -> W -> memoryEvent -> list (memorySubscriber * memoryEvent) -> W ->
  option broker_error -> Prop :=
| del_done w p : delivered eh [] w p [] w None
| del_ok sub subs w w1 p tr w' err :
    sub_handler sub w p = (w1, None) -> delivered eh subs w1 p tr w' err ->
    delivered eh (sub :: subs) w p ((sub, p) :: tr) w' err
| del_stop sub subs w w1 p e :
    sub_handler sub w p = (w1, Some e) -> eh = None ->
    delivered eh (sub :: subs) w p [(sub, p)] w1 (Some (HandlerError e))
| del_continue sub subs w w1 p e h tr w' err :
    sub_handler sub w p = (w1, Some e) -> eh = Some h ->
    delivered eh subs (fst (h w1 (set_err e p))) (set_err e p) tr w' err ->
    delivered eh (sub :: subs) w p ((sub, p) :: tr) w' err.

Lemma deliver_delivered eh subs w p :
  exists tr, delivered eh subs w p tr (fst (deliver eh subs w p)) (snd (deliver eh subs w p)).
Proof.
  revert w p. induction subs as [|sub subs IH]; intros w p; [exists []; constructor|]. cbn.
  destruct (sub_handler sub w p) as [w1 [e|]] eqn:Hh.
  - destruct eh as [h|]; [|by eexists; eapply del_stop].
    destruct (IH (fst (h w1 (set_err e p))) (set_err e p)) as [tr Htr].
    eexists. by eapply del_continue.
  - destruct (IH w1 p) as [tr Htr]. eexists. by eapply del_ok.
Qed.

(** What the trace of a delivery says: the subscribers called are the topic's, in
    order of subscription; all of them unless the publish failed; and a call
    sees the error of the last failing call before it. *)
Lemma delivered_trace eh subs w p tr w' err :
  delivered eh subs w p tr w' err ->
  tr.*1 `prefix_of` subs /\ (err = None -> tr.*1 = subs) /\
  (eh <> None -> err = None) /\
  Forall (fun c => ev_topic c.2 = ev_topic p /\ ev_message c.2 = ev_message p) tr.
Proof.
  induction 1 as [w p|sub subs w w1 p tr w' err _ _ (IH1 & IH2 & IH3 & IH4)|sub subs w w1 p e _ He|
    sub subs w w1 p e h tr w' err _ He _ (IH1 & IH2 & IH3 & IH4)]; cbn.
  - by split_and!.
  - split_and!; [by apply prefix_cons|intros; by rewrite IH2|done|by constructor].
  - split_and!; [by exists subs|done|congruence|by repeat constructor].
  - split_and!; [by apply prefix_cons|intros; by rewrite IH2|done|by constructor].
Qed.

(** [Publish] on a connected broker calls the handlers of the topic's
    subscribers in order of subscription, each with the same topic and message;
    without an error handler it stops at the first error and returns it, with
    one it reaches every subscriber and succeeds. Disconnected, it fails without
    calling anyone; a topic no one ever subscribed to is a success. *)
Theorem Publish_spec topic msg m w :
  if negb (connected m) then Publish topic msg m w = (w, Some NotConnected)
  else match Subscribers m !! topic with
  | None => Publish topic msg m w = (w, None)
  | Some subs =>
      (exists c e, opt_Codec (opts m) = Some c /\ Marshal c msg = inl e /\
         Publish topic msg m w = (w, Some (CodecError e))) \/
      exists p tr, ev_topic p = topic /\ ev_err p = None /\
        (opt_Codec (opts m) = None -> Event_Message m p = Some msg) /\
        delivered (opt_ErrorHandler (opts m)) subs w p tr
          (fst (Publish topic msg m w)) (snd (Publish topic msg m w)) /\
        tr.*1 `prefix_of` subs /\
        (snd (Publish topic msg m w) = None -> tr.*1 = subs) /\
        (opt_ErrorHandler (opts m) <> None -> snd (Publish topic msg m w) = None) /\
        Forall (fun c => ev_topic c.2 = topic /\ ev_message c.2 = ev_message p) tr
  end.
Proof.
  unfold Publish. destruct (connected m); cbn [negb]; [|done].
  destruct (Subscribers m !! topic) as [subs|]; [|done].
  assert (forall v, (opt_Codec (opts m) = None -> v = PMessage msg) ->
    let r := deliver (opt_ErrorHandler (opts m)) subs w (mkEvent None v topic) in
    exists p tr, ev_topic p = topic /\ ev_err p = None /\
        (opt_Codec (opts m) = None -> Event_Message m p = Some msg) /\
        delivered (opt_ErrorHandler (opts m)) subs w p tr (fst r) (snd r) /\
        tr.*1 `prefix_of` subs /\ (snd r = None -> tr.*1 = subs) /\
        (opt_ErrorHandler (opts m) <> None -> snd r = None) /\
        Forall (fun c => ev_topic c.2 = topic /\ ev_message c.2 = ev_message p) tr) as Hd.
  { intros v Hv. cbn zeta. destruct (deliver_delivered (opt_ErrorHandler (opts m)) subs w (mkEvent None v topic)) as [tr Htr].
    exists (mkEvent None v topic), tr. pose proof (delivered_trace _ _ _ _ _ _ _ Htr) as (? & ? & ? & ?).
    split_and!; try done. intros Hc. rewrite (Hv Hc). done. }
  destruct (opt_Codec (opts m)) as [c|] eqn:Hc; [|right; by apply Hd].
  destruct (Marshal c msg) as [e|b] eqn:Hm; [left; by exists c, e|right; by apply Hd].
Qed.

(** ** Subscriptions *)
Lemma without_elem id subs s : s ∈ without id subs <-> s ∈ subs /\ sub_id s <> id.
Proof.
  induction subs as [|sb subs IH]; cbn; [set_solver|].
  destruct (String.eqb_spec (sub_id sb) id); rewrite ?elem_of_cons, IH; naive_solver.
Qed.

Lemma without_sublist id subs : without id subs `sublist_of` subs.
Proof.
  induction subs as [|sb subs IH]; cbn; [done|].
  destruct (String.eqb (sub_id sb) id); [by apply sublist_cons|by apply sublist_skip].
Qed.

Definition subs_of (m : memoryBroker) (topic : string) : list memorySubscriber :=
  default [] (Subscribers m !! topic).

Inductive bstep : memoryBroker -> memoryBroker -> Prop :=
| bs_connect x m : bstep m (fst (Connect x m))
| bs_disconnect m : bstep m (Disconnect m)
| bs_init o m : bstep m (Init o m)
| bs_subscribe topic h id m :
    (forall t s, s ∈ subs_of m t -> sub_id s <> id) -> bstep m (fst (Subscribe topic h id m))
| bs_unsubscribe sub m m' : Unsubscribe sub m = Some m' -> bstep m m'
| bs_reap sub m m' : reap sub m = Some m' -> bstep m m'.

Inductive breachable (o : Options) : memoryBroker -> Prop :=
| br_new : breachable o (NewMemoryBroker o)
| br_step m m' : breachable o m -> bstep m m' -> breachable o m'.

Definition broker_ok (m : memoryBroker) : Prop :=
  forall topic, NoDup (map sub_id (subs_of m topic)) /\
    Forall (fun s => sub_topic s = topic) (subs_of m topic).

Lemma subs_of_insert m topic l t :
  default [] ((<[topic := l]> (Subscribers m)) !! t) = if decide (topic = t) then l else subs_of m t.
Proof. unfold subs_of. rewrite lookup_insert. by case_decide. Qed.

Lemma bstep_ok m m' : broker_ok m -> bstep m m' -> broker_ok m'.
Proof.
  intros Hok. destruct 1 as [x m|m|o m|topic h id m Hfresh|sub m m' Hu|sub m m' Hr].
  - unfold Connect. destruct (connected m); [done|]. by destruct x.
  - unfold Disconnect. by destruct (connected m).
  - done.
  - unfold Subscribe. destruct (connected m); cbn [negb fst]; [|done]. intros t.
    unfold subs_of at 1 2. cbn [Subscribers]. rewrite subs_of_insert. case_decide as Ht; [|apply Hok].
    subst t. destruct (Hok topic) as [Hn Hf]. fold (subs_of m topic). split.
    + rewrite map_app. apply NoDup_app. split_and!; [done| |apply NoDup_singleton].
      intros x Hx Hin. cbn in Hin. apply list_elem_of_singleton in Hin. subst x.
      apply list_elem_of_fmap in Hx as (s & -> & Hs). by apply (Hfresh topic s).
    + apply Forall_app. by repeat constructor.
  - unfold Unsubscribe in Hu. case_bool_decide; [done|]. by simplify_eq.
  - unfold reap in Hr. destruct (_ && _); [|done]. simplify_eq. intros t.
    unfold subs_of at 1 2. cbn [Subscribers]. rewrite subs_of_insert. case_decide as Ht; [|apply Hok].
    subst t. destruct (Hok (sub_topic sub)) as [Hn Hf]. fold (subs_of m (sub_topic sub)).
    pose proof (without_sublist (sub_id sub) (subs_of m (sub_topic sub))) as Hsub. split.
    + eapply sublist_NoDup; [exact Hn|]. by apply (fmap_sublist sub_id).
    + rewrite Forall_forall in Hf |- *. intros s [Hs _]%without_elem. by apply Hf.
Qed.

Lemma breachable_ok o m : breachable o m -> broker_ok m.
Proof.
  induction 1 as [|m m' _ IH Hs]; [|by eapply bstep_ok].
  intros topic. split; constructor.
Qed.

(** In every reachable state, whatever order unsubscriptions and their
    goroutines run in, a topic's list holds each subscriber once and only
    subscribers of that topic; and when a subscriber's goroutine has run, the
    subscriber is gone from its topic, the others keep their order, and no
    other topic changes. *)
Theorem reap_removes o m sub m' :
  breachable o m -> reap sub m = Some m' ->
  broker_ok m /\
  (forall s, s ∈ subs_of m' (sub_topic sub) <-> s ∈ subs_of m (sub_topic sub) /\ sub_id s <> sub_id sub) /\
  subs_of m' (sub_topic sub) `sublist_of` subs_of m (sub_topic sub) /\
  (forall t, t <> sub_topic sub -> subs_of m' t = subs_of m t) /\
  connected m' = connected m.
Proof.
  intros Hr Hreap. split; [by eapply breachable_ok|].
  unfold reap in Hreap. destruct (_ && _); [|done]. simplify_eq.
  assert (forall t, subs_of (mkBroker (opts m)
      (<[sub_topic sub := without (sub_id sub) (default [] (Subscribers m !! sub_topic sub))]> (Subscribers m))
      (addr m) (connected m) (exiting m ∖ {[sub_id sub]}) (running m ∖ {[sub_id sub]})) t =
    if decide (sub_topic sub = t) then without (sub_id sub) (subs_of m (sub_topic sub)) else subs_of m t) as Hs
    by (intros t; apply subs_of_insert).
  split_and!; [| | |done].
  - intros s. rewrite Hs, decide_True by done. apply without_elem.
  - rewrite Hs, decide_True by done. apply without_sublist.
  - intros t Ht. by rewrite Hs, decide_False.
Qed.
End broker.
Arguments Options W E Message : clear implicits.
Arguments memoryBroker W E Message : clear implicits.
Arguments memorySubscriber W E Message : clear implicits.
Arguments Handler W E Message : clear implicits.

(** ** A concrete run: handlers that log what they see *)
Definition ex_handler (name : string) (fails : bool) : Handler (list (string * option string)) string string :=
  fun w p => (w ++ [(name, ev_err p)], if fails then Some (name +:+ " failed") else None).

Definition ex_broker (eh : option (Handler (list (string * option string)) string string))
  : memoryBroker (list (string * option string)) string string :=
  let m := fst (Connect (inr "127.0.0.1:10000") (NewMemoryBroker (mkOptions None eh))) in
  let m := fst (Subscribe "t" (ex_handler "a" false) "1" m) in
  let m := fst (Subscribe "t" (ex_handler "b" true) "2" m) in
  fst (Subscribe "t" (ex_handler "c" false) "3" m).

(** The event is shared: after "b" fails, "c" sees the error of "b". *)
Example publish_order :
  Publish "t" "hello" (ex_broker None) [] =
    ([("a", None); ("b", None)], Some (HandlerError "b failed")) /\
  Publish "t" "hello" (ex_broker (Some (fun w p => (w, None)))) [] =
    ([("a", None); ("b", None); ("c", Some "b failed")], None).
Proof. by vm_compute. Qed.

Definition ex_broker1 : memoryBroker (list (string * option string)) string string :=
  fst (Subscribe "t" (ex_handler "a" false) "1"
         (fst (Connect (inr "127.0.0.1:10000") (NewMemoryBroker (mkOptions None None))))).

Lemma ex_broker1_reachable : breachable (mkOptions None None) ex_broker1.
Proof.
  eapply br_step; [eapply br_step; [apply br_new|apply (bs_connect (inr "127.0.0.1:10000"))]|].
  apply bs_subscribe. intros t s Hs. by apply elem_of_nil in Hs.
Qed.

Definition ex_sub : memorySubscriber (list (string * option string)) string string :=
  mkSubscriber "1" "t" (ex_handler "a" false).
Definition ex_broker2 := default ex_broker1 (Unsubscribe ex_sub ex_broker1).
Definition ex_broker3 := default ex_broker1 (reap ex_sub ex_broker2).

Lemma ex_broker2_reachable : breachable (mkOptions None None) ex_broker2.
Proof.
  eapply br_step; [apply ex_broker1_reachable|]. apply (bs_unsubscribe ex_sub). reflexivity.
Qed.

Lemma reap_removes_witness :
  reap ex_sub ex_broker2 = Some ex_broker3 /\ subs_of ex_broker2 "t" = [ex_sub] /\
  subs_of ex_broker3 "t" `sublist_of` subs_of ex_broker2 "t" /\ subs_of ex_broker3 "t" = [].
Proof.
  assert (reap ex_sub ex_broker2 = Some ex_broker3) as Hr by reflexivity.
  split_and!; [exact Hr|reflexivity| |reflexivity].
  apply (reap_removes _ _ ex_sub ex_broker3 ex_broker2_reachable Hr).
Defined.
