(* ===== verification/Events.v ===== *)
(** * Event streaming: src/events/{memory,store,options,events}.go

    The stream keeps every event in a memory store and sends it, from goroutines,
    to one subscriber of each interested group. Encoding an event
    ([json.Marshal]) and decoding it are the functions [marshal] and
    [unmarshal]; times are instants in nanoseconds since Go's zero time. The
    redelivery loop of one event to one subscriber is a transition system,
    because it shares its retry counter with the consumer's [Ack]. *)
From S2P Require Import Prelude GoStrings Store.

Record Event := mkEvent {
  ev_ID : string;
  ev_Topic : string;
  ev_Timestamp : Z;
  ev_Metadata : gmap string string;
  ev_Payload : string;
}.

(** [Time.Unix]: whole seconds since 1970. *)
Definition Unix (t : Z) : Z := (t / 1000000000 - 62135596800)%Z.

(** ** options.go *)
Record PublishOptions := mkPublishOptions { po_Metadata : gmap string string; po_Timestamp : Z }.
Inductive PublishOption := WithMetadata (md : gmap string string) | WithTimestamp (t : Z).

Definition publish_option (p : PublishOptions) (o : PublishOption) : PublishOptions :=
  match o with
  | WithMetadata md => mkPublishOptions md (po_Timestamp p)
  | WithTimestamp t => mkPublishOptions (po_Metadata p) t
  end.

Record ConsumeOptions := mkConsumeOptions {
  co_Offset : Z;
  co_Group : string;
  co_AckWait : Z;
  co_RetryLimit : Z;
  co_AutoAck : bool;
  co_CustomRetries : bool;
}.

Inductive ConsumeOption :=
| WithGroup (q : string)
| WithOffset (t : Z)
| WithAutoAck (ack : bool) (ackWait : Z)
| WithRetryLimit (retries : Z).

Definition consume_option (c : ConsumeOptions) (o : ConsumeOption) : ConsumeOptions :=
  match o with
  | WithGroup q => mkConsumeOptions (co_Offset c) q (co_AckWait c) (co_RetryLimit c) (co_AutoAck c) (co_CustomRetries c)
  | WithOffset t => mkConsumeOptions t (co_Group c) (co_AckWait c) (co_RetryLimit c) (co_AutoAck c) (co_CustomRetries c)
  | WithAutoAck ack w => mkConsumeOptions (co_Offset c) (co_Group c) w (co_RetryLimit c) ack (co_CustomRetries c)
  | WithRetryLimit n => mkConsumeOptions (co_Offset c) (co_Group c) (co_AckWait c) n (co_AutoAck c) true
  end.

Definition GetRetryLimit (c : ConsumeOptions) : Z :=
  if negb (co_CustomRetries c) then -1 else co_RetryLimit c.

(** ** memory.go: the stream *)
Record subscriber := mkSubscriber {
  su_Channel : string;
  su_Group : string;
  su_Topic : string;
  su_retryLimit : Z;
  su_ackWait : Z;
  su_autoAck : bool;
}.

Inductive events_error :=
| ErrMissingTopic | ErrEncodingMessage | ErrEncodingEvent | ErrInvalidAckWait | ErrStore | ErrInvalidEvent.

Section stream.
Context {Any C : Type} `{ExpiringCache C (storeRecord Any)}.
Context (marshal : Event -> option string) (unmarshal : string -> option Event).

(** [handling]: the events whose [go m.handleEvent(event)] has been spawned;
    [replaying]: the subscribers whose [go m.lookupPreviousEvents] has. *)
Record mem := mkMem {
  m_store : memoryStore C;
  m_subs : list subscriber;
  handling : list Event;
  replaying : list (subscriber * Z);
}.

Definition NewStream : mem := mkMem NewMemoryStore [] [] [].

(** [payload]: the message's bytes, [None] when it does not marshal; [id] is the
    fresh uuid. *)
Definition Publish (topic : string) (payload : option string) (opts : list PublishOption)
    (id : string) (now : Z) (m : mem) : mem * option events_error :=
  if String.eqb topic "" then (m, Some ErrMissingTopic)
  else
    let options := foldl publish_option (mkPublishOptions ∅ now) opts in
    match payload with
    | None => (m, Some ErrEncodingMessage)
    | Some p =>
        let event := mkEvent id topic (po_Timestamp options) (po_Metadata options) p in
        match marshal event with
        | None => (m, Some ErrEncodingEvent)
        | Some bytes =>
            let key := ev_Topic event +:+ "/" +:+ ev_ID event in
            (mkMem (Write (m_store m) now (mkRecord ∅ key bytes 0) []) (m_subs m)
               (handling m ++ [event]) (replaying m), None)
        end
    end.

(** [channel] and [group] are the fresh channel and the default group. *)
Definition Consume (topic : string) (opts : list ConsumeOption) (channel group : string) (m : mem)
  : mem * option events_error :=
  if String.eqb topic "" then (m, Some ErrMissingTopic)
  else
    let options := foldl consume_option (mkConsumeOptions 0 group 0 0 true false) opts in
    if negb (co_AutoAck options) && (co_AckWait options =? 0)%Z then (m, Some ErrInvalidAckWait)
    else
      let sub := mkSubscriber channel (co_Group options) topic (GetRetryLimit options)
                   (if co_AutoAck options then 0 else co_AckWait options) (co_AutoAck options) in
      (mkMem (m_store m) (m_subs m ++ [sub]) (handling m)
         (if (0 <? Unix (co_Offset options))%Z then replaying m ++ [(sub, co_Offset options)] else replaying m),
       None).

(** The events that [lookupPreviousEvents] sends; [None] is a panic. *)
Fixpoint replay (startTime : Z) (recs : list (@Record_ Any)) : list Event :=
  match recs with
  | [] => []
  | r :: recs =>
      match unmarshal (rec_Value r) with
      | None => replay startTime recs
      | Some ev =>
          if (Unix (ev_Timestamp ev) <? Unix startTime)%Z then replay startTime recs
          else ev :: replay startTime recs
      end
  end.

Definition lookupPreviousEvents (o : map_order) (sub : subscriber) (startTime now : Z) (m : mem)
  : option (list Event) :=
  match Read o (m_store m) now (su_Topic sub +:+ "/") [ReadPrefix] with
  | None => None
  | Some (recs, None) => Some (replay startTime recs)
  | Some (_, Some _) => Some []
  end.

Definition filter_subs (subs : list subscriber) (ev : Event) : gmap string subscriber :=
  foldl (fun filteredSubs sub =>
    if String.eqb (su_Topic sub) "" || String.eqb (su_Topic sub) (ev_Topic ev)
    then <[su_Group sub := sub]> filteredSubs else filteredSubs) ∅ subs.

(** The subscribers that get a [go sendEvent(ev, s)]. *)
Definition handleEvent (o : map_order) (ev : Event) (m : mem) : list subscriber :=
  map snd (map_range o (filter_subs (m_subs m) ev)).

(** ** store.go: the event store *)
Record ReadOptions' := mkReadOptions' { ero_Limit : Z; ero_Offset : Z }.

Definition default_read : ReadOptions' := mkReadOptions' 250 0.

Fixpoint unmarshal_all (recs : list (@Record_ Any)) : option (list Event) :=
  match recs with
  | [] => Some []
  | r :: recs =>
      match unmarshal (rec_Value r), unmarshal_all recs with
      | Some e, Some es => Some (e :: es)
      | _, _ => None
      end
  end.

(** [None] is a panic of the store. *)
Definition evStore_Read (o : map_order) (topic : string) (options : ReadOptions') (now : Z)
    (s : memoryStore C) : option (events_error + list Event) :=
  if String.eqb topic "" then Some (inl ErrMissingTopic)
  else match Read o s now (topic +:+ "/")
               [ReadPrefix; ReadLimit (ero_Limit options); ReadOffset (ero_Offset options)] with
       | None => None
       | Some (_, Some _) => Some (inl ErrStore)
       | Some (recs, None) =>
           Some (match unmarshal_all recs with Some es => inr es | None => inl ErrInvalidEvent end)
       end.

(** [suffix] is the hour of the write, as a key component. *)
Definition evStore_Write (event : Event) (ttl : Z) (suffix : string) (now : Z) (s : memoryStore C)
  : memoryStore C * option events_error :=
  match marshal event with
  | None => (s, Some ErrEncodingEvent)
  | Some bytes =>
      (Write s now (mkRecord ∅ (ev_Topic event +:+ "/" +:+ ev_ID event +:+ "/" +:+ suffix) bytes ttl) [], None)
  end.

(** ** Groups *)
Definition interested (ev : Event) (sub : subscriber) : bool :=
  String.eqb (su_Topic sub) "" || String.eqb (su_Topic sub) (ev_Topic ev).

Lemma filter_subs_spec subs ev g :
  filter_subs subs ev !! g =
  last (filter (fun s => interested ev s = true /\ su_Group s = g) subs).
Proof.
  unfold filter_subs. induction subs as [|s subs IH] using rev_ind; [done|].
  rewrite foldl_app, filter_app, filter_cons, filter_nil. cbn [foldl].
  change (String.eqb (su_Topic s) "" || String.eqb (su_Topic s) (ev_Topic ev)) with (interested ev s).
  destruct (interested ev s) eqn:Hi.
  - rewrite lookup_insert. destruct (decide (su_Group s = g)) as [Hg|Hg].
    + rewrite decide_True by done. by rewrite last_snoc.
    + rewrite decide_False by naive_solver. by rewrite app_nil_r.
  - rewrite decide_False by naive_solver. by rewrite app_nil_r.
Qed.

(** An event is sent to exactly one subscriber of each group that has an
    interested one, always the one that subscribed last, and to no one else,
    whatever order the groups are visited in. *)
Theorem handleEvent_groups o ev m :
  let sent := handleEvent o ev m in
  NoDup (map su_Group sent) /\
  forall s, s ∈ sent <->
    last (filter (fun s' => interested ev s' = true /\ su_Group s' = su_Group s) (m_subs m)) = Some s.
Proof.
  cbn zeta. unfold handleEvent. set (fs := filter_subs (m_subs m) ev).
  assert (forall g s, fs !! g = Some s -> su_Group s = g) as Hg.
  { intros g s. unfold fs. rewrite filter_subs_spec. intros Hl.
    apply last_Some_elem_of, list_elem_of_filter in Hl. by destruct Hl as [[_ ?] _]. }
  split.
  - rewrite map_map. rewrite (map_ext_in _ fst); [apply NoDup_map_range|].
    intros [g s] Hin%list_elem_of_In%elem_of_map_range. by apply Hg.
  - intros s. rewrite <- filter_subs_spec. fold fs. rewrite list_elem_of_In, in_map_iff. split.
    + intros ([g s'] & <- & Hin%list_elem_of_In%elem_of_map_range). cbn. by rewrite (Hg _ _ Hin).
    + intros Hl. exists (su_Group s, s). split; [done|]. by apply list_elem_of_In, elem_of_map_range.
Qed.

(** ** Replaying and paging *)
Context `{!ExpiringCacheLaws C (storeRecord Any)}.

(** A subscription with an offset never replays anything: whatever events the
    stream holds, looking them up reads the store by prefix without a limit, and
    such a read is empty. *)
Theorem no_replay o sub startTime now m :
  lookupPreviousEvents o sub startTime now m = Some [].
Proof.
  unfold lookupPreviousEvents. by rewrite Read_match_needs_limit_aux.
Qed.

(** The event store's pages end at the limit counted from the first key, not
    from the offset: a read whose offset is not below its limit (the second page
    with the default limit, say) is always empty. *)
Theorem evStore_page_empty o topic options now s :
  topic <> "" -> (0 <= ero_Limit options <= ero_Offset options)%Z -> (ero_Offset options < 2 ^ 63)%Z ->
  evStore_Read o topic options now s = Some (inr []).
Proof.
  intros Ht Hl Ho. unfold evStore_Read. rewrite (proj2 (String.eqb_neq _ _) Ht).
  assert (Read o s now (topic +:+ "/")
    [ReadPrefix; ReadLimit (ero_Limit options); ReadOffset (ero_Offset options)] = Some ([], None)) as ->; [|done].
  unfold Read. cbn [foldl read_option ro_Prefix ro_Suffix ro_Limit ro_Offset ro_Database ro_Table orb].
  unfold list_keys. cbn [Z.eqb negb orb]. set (ks := omap _ _).
  unfold window. rewrite !wrap64_small by (unfold int_min, int_max; lia).
  set (len := Z.of_nat (length ks)). assert (0 <= len)%Z by (unfold len; lia).
  set (lim := if (len <? ero_Limit options)%Z then len else ero_Limit options).
  set (off := if (len <? ero_Offset options)%Z then len else ero_Offset options).
  assert (lim <= off)%Z.
  { unfold lim, off. destruct (Z.ltb_spec len (ero_Limit options)), (Z.ltb_spec len (ero_Offset options)); lia. }
  destruct (Z.ltb_spec off lim); [lia|]. rewrite andb_false_r.
  replace (Z.to_nat (lim - off)) with 0 by lia. done.
Qed.
End stream.
Arguments mem C : clear implicits.

(** ** [sendEvent] without auto-ack: the redelivery loop

    One event, one subscriber. The loop reads the counter at a tick, offers the
    event on the unbuffered channel, and stores the incremented counter after
    the consumer has received it; the consumer's [Ack] deletes the counter at
    any moment after a delivery. *)
Module Redelivery.

Inductive phase :=
| Waiting              (* for the next tick *)
| Offering (count : Z) (* blocked on [s.Channel <- evCopy] *)
| Storing (count : Z)  (* received; about to set [retryMap] to [count + 1] *)
| Success
| Discarded.

Record state := mkState {
  st_phase : phase;
  retryMap : option Z;
  deliveries : Z;
  acks : Z;
}.

Definition start : state := mkState Waiting (Some 0%Z) 0 0.

Definition over (retryLimit count : Z) : bool := (-1 <? retryLimit)%Z && (retryLimit <? count)%Z.

(** What the loop does at a tick. *)
Definition on_tick (retryLimit : Z) (s : state) : state :=
  match retryMap s with
  | None => mkState Success None (deliveries s) (acks s)
  | Some count =>
      if over retryLimit count then mkState Discarded None (deliveries s) (acks s)
      else mkState (Offering count) (retryMap s) (deliveries s) (acks s)
  end.

Definition received (count : Z) (s : state) : state :=
  mkState (Storing count) (retryMap s) (deliveries s + 1) (acks s).

Definition store_count (count : Z) (s : state) : state :=
  mkState Waiting (Some (count + 1)%Z) (deliveries s) (acks s).

Definition ackFunc (s : state) : state := mkState (st_phase s) None (deliveries s) (acks s + 1).

Inductive step (retryLimit : Z) : state -> state -> Prop :=
| step_tick s : st_phase s = Waiting -> step retryLimit s (on_tick retryLimit s)
| step_receive s count : st_phase s = Offering count -> step retryLimit s (received count s)
| step_store s count : st_phase s = Storing count -> step retryLimit s (store_count count s)
| step_ack s : (0 < deliveries s)%Z -> step retryLimit s (ackFunc s).

Inductive steps (retryLimit : Z) (s0 : state) : state -> Prop :=
| steps_refl : steps retryLimit s0 s0
| steps_snoc s s' : steps retryLimit s0 s -> step retryLimit s s' -> steps retryLimit s0 s'.

Definition counted (retryLimit : Z) (s : state) : Prop :=
  (0 <= deliveries s)%Z /\
  match st_phase s with
  | Waiting => retryMap s = None \/ retryMap s = Some (deliveries s)
  | Offering c => c = deliveries s /\ over retryLimit c = false
  | Storing c => (c + 1 = deliveries s)%Z /\ over retryLimit c = false
  | Success | Discarded => True
  end /\
  ((-1 < retryLimit)%Z -> (deliveries s <= retryLimit + 1)%Z).

Lemma steps_counted retryLimit s : steps retryLimit start s -> counted retryLimit s.
Proof.
  induction 1 as [|s s' _ (H0 & Hp & Hb) Hs].
  { unfold counted. cbn. split_and!; [lia|by right|lia]. }
  unfold counted, over in *. destruct Hs as [s Hph|s c Hph|s c Hph|s Hd]; rewrite ?Hph in Hp; cbn.
  - unfold on_tick. destruct (retryMap s) as [c|] eqn:Hm; cbn; [|by split_and!].
    unfold over. destruct (_ && _) eqn:Ho; cbn; [by split_and!|].
    destruct Hp as [|Hp]; [done|]. simplify_eq. by split_and!.
  - destruct Hp as [-> Ho]. split_and!; [lia|done|done|].
    intros Hl. apply andb_false_iff in Ho as [Ho|Ho]; [apply Z.ltb_ge in Ho; lia|].
    apply Z.ltb_ge in Ho. lia.
  - destruct Hp as [Hc _]. split_and!; [done|right; f_equal; lia|done].
  - split_and!; [done| |done]. destruct (st_phase s); cbn; auto.
Qed.

(** C39: whatever the consumer acknowledges and when, an event is delivered to a
    subscriber with a retry limit at most once more than the limit; it is
    discarded only once it has been delivered that often, or never when the
    limit is -1; and once the loop waits with the acknowledgement in place, it
    is not delivered again. *)
Theorem redelivery_bound retryLimit s :
  steps retryLimit start s ->
  ((-1 < retryLimit)%Z -> (deliveries s <= retryLimit + 1)%Z) /\
  (st_phase s = Waiting ->
     (st_phase (on_tick retryLimit s) = Discarded <->
        retryMap s <> None /\ (-1 < retryLimit)%Z /\ deliveries s = (retryLimit + 1)%Z)) /\
  (st_phase s = Waiting -> retryMap s = None ->
     forall s', steps retryLimit s s' -> deliveries s' = deliveries s).
Proof.
  intros Hs. apply steps_counted in Hs as (H0 & Hp & Hb). split; [done|]. split.
  - intros Hph. rewrite Hph in Hp. unfold on_tick, over. destruct (retryMap s) as [c|]; [|by intuition].
    destruct Hp as [|Hp]; [done|]. simplify_eq.
    destruct (Z.ltb_spec (-1) retryLimit), (Z.ltb_spec retryLimit (deliveries s)); cbn;
      (split; [|intuition lia]); try done; intros _; split_and!; (done || lia).
  - intros Hph Hm s' Hs'.
    assert (retryMap s' = None /\ (st_phase s' = Waiting \/ st_phase s' = Success) /\ deliveries s' = deliveries s)
      as (_ & _ & ?); [|done].
    induction Hs' as [|s1 s2 _ (Hm1 & Hp1 & Hd1) Hst]; [auto|].
    destruct Hst as [s1 Hph1|s1 c Hph1|s1 c Hph1|s1 Hd]; rewrite ?Hph1 in Hp1;
      [|by destruct Hp1..|cbn; auto].
    unfold on_tick. rewrite Hm1. cbn. auto.
Qed.

(** An acknowledgement can be lost: when the consumer acknowledges before the
    loop stores the incremented counter, the store brings the counter back. For
    any number of deliveries that the limit allows there is a run in which every
    delivery was acknowledged, at once, and the event was redelivered anyway. *)
Theorem ack_lost retryLimit n :
  (0 <= n)%Z -> (-1 < retryLimit -> n <= retryLimit + 1)%Z ->
  exists s, steps retryLimit start s /\ st_phase s = Waiting /\
    deliveries s = n /\ acks s = n /\ retryMap s = Some n.
Proof.
  intros Hn. pattern n. apply natlike_ind; [| |done]; clear n Hn.
  - intros _. exists start. split; [constructor|done].
  - intros n Hn IH Hl. destruct IH as (s & Hs & Hp & Hd & Ha & Hm); [lia|].
    exists (store_count n (ackFunc (received n (on_tick retryLimit s)))).
    assert (on_tick retryLimit s = mkState (Offering n) (Some n) n n) as Ht.
    { unfold on_tick. rewrite Hm, Hd, Ha. replace (over retryLimit n) with false; [done|].
      symmetry. unfold over. apply andb_false_iff.
      destruct (Z.ltb_spec (-1) retryLimit); [right; apply Z.ltb_ge; lia|by left]. }
    split.
    + eapply steps_snoc; [|by apply step_store]. eapply steps_snoc; [|apply step_ack].
      * eapply steps_snoc; [|apply step_receive; by rewrite Ht]. eapply steps_snoc; [done|by apply step_tick].
      * rewrite Ht. cbn. lia.
    + rewrite Ht. cbn. split_and!; try done; try lia.
Qed.

Lemma redelivery_bound_witness :
  exists s, steps 0 start s /\ deliveries s = 1%Z /\ (deliveries s <= 0 + 1)%Z.
Proof.
  exists (received 0 (on_tick 0 start)).
  assert (steps 0 start (received 0 (on_tick 0 start))) as Hs.
  { eapply steps_snoc; [eapply steps_snoc; [apply steps_refl|by apply step_tick]|by apply step_receive]. }
  split_and!; [done|done|]. by apply (redelivery_bound 0 _ Hs).
Defined.

Lemma ack_lost_witness :
  exists s, steps 2 start s /\ st_phase s = Waiting /\ deliveries s = 3%Z /\ acks s = 3%Z /\ retryMap s = Some 3%Z.
Proof. apply ack_lost; lia. Defined.
End Redelivery.

(** ** Concrete runs *)
Definition ex_marshal (e : Event) : option string := Some (ev_ID e +:+ ":" +:+ ev_Payload e).
Definition ex_unmarshal (s : string) : option Event :=
  match last_index ":" s with
  | Some i => Some (mkEvent (str_take i s) "t" 0 ∅ (str_drop (S i) s))
  | None => None
  end.

Definition ex_stream : mem (@gc (storeRecord nat)) :=
  let m := fst (Publish ex_marshal "t" (Some "one") [] "id1" 5 NewStream) in
  let m := fst (Consume "t" [WithGroup "g"] "ch1" "x" m) in
  fst (Consume "t" [WithGroup "g"; WithOffset 62135596802000000000] "ch2" "y" m).

Example stream_run :
  map su_Channel (handleEvent order_id (mkEvent "id2" "t" 0 ∅ "two") ex_stream) = ["ch2"] /\
  map (fun r => su_Channel (fst r)) (replaying ex_stream) = ["ch2"] /\
  rec_Value <$> fst (default ([], None) (Read order_id (m_store ex_stream) 6 "t/id1" [])) = ["id1:one"].
Proof. by vm_compute. Qed.

Lemma evStore_page_empty_witness :
  let s := fst (evStore_Write ex_marshal (mkEvent "id1" "t" 0 ∅ "one") 0 "2024010100" 0
                  (NewMemoryStore (Any := nat) (C := @gc (storeRecord nat)))) in
  evStore_Read ex_unmarshal order_id "t" default_read 1 s = Some (inr [mkEvent "id1" "t" 0 ∅ "one"]) /\
  evStore_Read ex_unmarshal order_id "t" (mkReadOptions' 250 250) 1 s = Some (inr []).
Proof.
  cbn zeta. split; [by vm_compute|].
  apply evStore_page_empty; cbn; (done || lia).
Defined.
