(* ===== verification/Metadata.v ===== *)
(** * Request metadata: [metadata/metadata.go]

    [Metadata] is a map of header keys to values; a nil map is [None]. The
    context operations ([FromContext], [Set_], [Get_], [Delete_],
    [MergeContext]) keep one metadata value in a context. [FromContext] returns
    a copy whose keys went through [strings.Title]: when two keys have the same
    title, the entry that stays is the one the iteration visits last.

    Header keys are ASCII: [Title] is exact on ASCII strings (bytes from 128 on
    are left as they are and counted as letters). *)
From S2P Require Import Prelude GoStrings.

(** ** [strings.Title] *)
Definition is_lower (a : ascii) : bool :=
  let n := nat_of_ascii a in (97 <=? n) && (n <=? 122).

Definition is_upper (a : ascii) : bool :=
  let n := nat_of_ascii a in (65 <=? n) && (n <=? 90).

Definition to_title (a : ascii) : ascii :=
  if is_lower a then ascii_of_nat (nat_of_ascii a - 32) else a.

(** Everything that is neither an ASCII letter, digit or underscore nor a
    non-ASCII byte separates words. *)
Definition is_separator (a : ascii) : bool :=
  let n := nat_of_ascii a in
  negb (is_lower a || is_upper a || ((48 <=? n) && (n <=? 57)) || (n =? 95) || (128 <=? n)).

Fixpoint title_go (prev : bool) (s : string) : string :=
  match s with
  | "" => ""
  | String a s => String (if prev then to_title a else a) (title_go (is_separator a) s)
  end.

Definition Title (s : string) : string := title_go true s.

(** ** Metadata *)
Definition Metadata : Type := option (gmap string string).

(** The entries of a possibly nil map: reading a nil map finds nothing. *)
Definition md_entries (md : Metadata) : gmap string string := default ∅ md.

Definition Metadata_Get (md : Metadata) (key : string) : option string :=
  match md_entries md !! key with
  | Some val => Some val
  | None => md_entries md !! Title key
  end.

(** Writing to a nil map panics. *)
Definition Metadata_Set (md : Metadata) (key val : string) : outcome unit Metadata :=
  match md with
  | Some m => Ret (Some (<[key := val]> m))
  | None => Panic
  end.

Definition Metadata_Delete (md : Metadata) (key : string) : Metadata :=
  delete (Title key) ∘ delete key <$> md.

Definition Copy (o : map_order) (md : Metadata) : Metadata :=
  Some (foldl (fun cmd e => <[e.1 := e.2]> cmd) ∅ (map_range o (md_entries md))).

(** ** Metadata in a context

    Of a context the functions look at the value under [metadataKey{}] only;
    [ctx_rest] is everything else. *)
Record context := mkContext { ctx_md : option Metadata; ctx_rest : gmap string string }.

Definition WithValue (ctx : context) (md : Metadata) : context :=
  mkContext (Some md) (ctx_rest ctx).

Definition FromContext (o : map_order) (ctx : context) : option (gmap string string) :=
  match ctx_md ctx with
  | None => None
  | Some md =>
      Some (foldl (fun newMD e => <[Title e.1 := e.2]> newMD) ∅ (map_range o (md_entries md)))
  end.

Definition Set_ (o : map_order) (ctx : context) (k v : string) : context :=
  let md := default ∅ (FromContext o ctx) in
  WithValue ctx (Some (if String.eqb v "" then delete k md else <[k := v]> md)).

Definition Delete_ (o : map_order) (ctx : context) (k : string) : context := Set_ o ctx k "".

Definition Get_ (o : map_order) (ctx : context) (key : string) : option string :=
  match FromContext o ctx with
  | None => None
  | Some md => match md !! key with Some val => Some val | None => md !! Title key end
  end.

Definition NewContext (ctx : context) (md : Metadata) : context := WithValue ctx md.

Definition patch_one (overwrite : bool) (cmd : gmap string string) (e : string * string) :
    gmap string string :=
  if bool_decide (is_Some (cmd !! e.1)) && negb overwrite then cmd
  else if negb (String.eqb e.2 "") then <[e.1 := e.2]> cmd
  else delete e.1 cmd.

(** [ctx] is [None] for a nil context, replaced by [context.Background()]. *)
Definition MergeContext (o o' : map_order) (ctx : option context) (patchMd : Metadata)
    (overwrite : bool) : context :=
  let ctx := default (mkContext None ∅) ctx in
  let md := default None (ctx_md ctx) in
  let cmd := foldl (fun cmd e => <[e.1 := e.2]> cmd) ∅ (map_range o (md_entries md)) in
  WithValue ctx (Some (foldl (patch_one overwrite) cmd (map_range o' (md_entries patchMd)))).

(** ** [Title] *)
Lemma to_title_idem a : to_title (to_title a) = to_title a.
Proof. destruct a as [[] [] [] [] [] [] [] []]; vm_compute; reflexivity. Qed.

Lemma to_title_separator a : is_separator (to_title a) = is_separator a.
Proof. destruct a as [[] [] [] [] [] [] [] []]; vm_compute; reflexivity. Qed.

Lemma title_go_idem b s : title_go b (title_go b s) = title_go b s.
Proof.
  revert b. induction s as [|a s IH]; intros b; cbn; [done|].
  destruct b; [rewrite to_title_idem, to_title_separator|]; by rewrite IH.
Qed.

Lemma Title_idem s : Title (Title s) = Title s.
Proof. apply title_go_idem. Qed.

#[export] Hint Rewrite Title_idem : md.

Example Title_ex : Title "micro-trace_id x" = "Micro-Trace_id X".
Proof. reflexivity. Qed.

(** ** Building a map by ranging over another *)
Section insert_fold.
Context (f : string -> string).

Definition put (m : gmap string string) (e : string * string) := <[f e.1 := e.2]> m.

Lemma lookup_foldl_put l m K :
  foldl put m l !! K =
  match last (filter (fun e => f e.1 = K) l) with Some e => Some e.2 | None => m !! K end.
Proof.
  induction l as [|e l IH] using rev_ind; cbn; [done|].
  rewrite foldl_snoc, filter_app. unfold put at 1. destruct (decide (f e.1 = K)) as [He|He].
  - rewrite (filter_cons_True _ e []), filter_nil, last_snoc by done.
    by rewrite He, lookup_insert_eq.
  - rewrite lookup_insert_ne, IH by done.
    by rewrite (filter_cons_False _ e []), filter_nil, app_nil_r by done.
Qed.

Lemma foldl_put_some o (m : gmap string string) K v :
  foldl put ∅ (map_range o m) !! K = Some v -> exists k, f k = K /\ m !! k = Some v.
Proof.
  rewrite lookup_foldl_put. destruct (last _) as [[k v']|] eqn:Hl; [|done].
  intros [= <-]. apply last_Some_elem_of, list_elem_of_filter in Hl as [Hk Hl].
  exists k. by apply elem_of_map_range in Hl.
Qed.

Lemma foldl_put_none o (m : gmap string string) K :
  foldl put ∅ (map_range o m) !! K = None <-> forall k, f k = K -> m !! k = None.
Proof.
  rewrite lookup_foldl_put. destruct (last _) as [[k v']|] eqn:Hl.
  - apply last_Some_elem_of, list_elem_of_filter in Hl as [Hk Hl].
    apply elem_of_map_range in Hl. split; [done|]. intros H. cbn in *. by rewrite H in Hl.
  - apply last_None in Hl. split; [|by rewrite lookup_empty]. intros _ k Hk.
    destruct (m !! k) as [v|] eqn:Hm; [|done]. apply (elem_of_map_range o) in Hm.
    assert ((k, v) ∈ filter (fun e => f e.1 = K) (map_range o m)) as Hin
      by (by apply list_elem_of_filter).
    rewrite Hl in Hin. by apply not_elem_of_nil in Hin.
Qed.

Lemma foldl_put_unique o (m : gmap string string) k v :
  m !! k = Some v -> (forall k', f k' = f k -> is_Some (m !! k') -> k' = k) ->
  foldl put ∅ (map_range o m) !! f k = Some v.
Proof.
  intros Hk Hu. destruct (foldl put ∅ (map_range o m) !! f k) as [v'|] eqn:Hl.
  - apply foldl_put_some in Hl as (k' & Hf & Hk'). rewrite (Hu k') in Hk' by done. congruence.
  - pose proof (proj1 (foldl_put_none _ _ _) Hl k eq_refl). congruence.
Qed.
End insert_fold.

Lemma copy_fold o (m : gmap string string) :
  foldl (fun cmd e => <[e.1 := e.2]> cmd) ∅ (map_range o m) = m.
Proof.
  apply map_eq. intros k. destruct (m !! k) as [v|] eqn:Hk.
  - by apply (foldl_put_unique (fun k => k)).
  - apply (foldl_put_none (fun k => k)). naive_solver.
Qed.

Lemma Copy_same o md : md_entries (Copy o md) = md_entries md.
Proof. apply copy_fold. Qed.

(** ** Reading the metadata of a context *)
Lemma FromContext_some o ctx md K v :
  ctx_md ctx = Some md -> default ∅ (FromContext o ctx) !! K = Some v ->
  exists k, Title k = K /\ md_entries md !! k = Some v.
Proof. unfold FromContext. intros -> H. by apply (foldl_put_some Title) in H. Qed.

(** Every key of a [FromContext] copy is a title. *)
Lemma FromContext_titled o ctx k :
  is_Some (default ∅ (FromContext o ctx) !! k) -> Title k = k.
Proof.
  intros [v Hv]. unfold FromContext in Hv. destruct (ctx_md ctx) as [md|]; [|done].
  apply (foldl_put_some Title) in Hv as (k' & <- & _). apply Title_idem.
Qed.

(** On a map whose keys are all titles, [FromContext] is a plain copy. *)
Lemma titled_range o (m : gmap string string) :
  (forall k, is_Some (m !! k) -> Title k = k) ->
  foldl (put Title) ∅ (map_range o m) = m.
Proof.
  intros Ht. apply map_eq. intros K. destruct (m !! K) as [v|] eqn:Hk.
  - rewrite <- (Ht K) at 1 by done. apply foldl_put_unique; [done|].
    intros k' Hk' Hs. by rewrite <- (Ht k'), Hk', (Ht K).
  - apply foldl_put_none. intros k Hkt. destruct (m !! k) eqn:Hm; [|done].
    rewrite <- (Ht k), Hkt in Hm by done. congruence.
Qed.

(** Looking a key up in a context: the entry of its title in the copy. *)
Lemma Get_title o ctx k :
  Get_ o ctx k = default ∅ (FromContext o ctx) !! Title k.
Proof.
  unfold Get_. destruct (FromContext o ctx) as [md|] eqn:Hm; cbn; [|by rewrite lookup_empty].
  destruct (md !! k) as [v|] eqn:Hk; [|done].
  rewrite (FromContext_titled o ctx k); [done|]. by rewrite Hm; cbn; exists v.
Qed.

(** ** Merging *)
Lemma patch_one_other overwrite cmd e k :
  e.1 <> k -> patch_one overwrite cmd e !! k = cmd !! k.
Proof.
  intros He. unfold patch_one. repeat case_match; try done.
  - by rewrite lookup_insert_ne.
  - by rewrite lookup_delete_ne.
Qed.

Lemma patch_fold_other overwrite l cmd k :
  k ∉ l.*1 -> foldl (patch_one overwrite) cmd l !! k = cmd !! k.
Proof.
  revert cmd. induction l as [|e l IH]; intros cmd; cbn; [done|]. intros Hk.
  rewrite IH by set_solver. apply patch_one_other. set_solver.
Qed.

Definition merged (overwrite : bool) (old new : option string) : option string :=
  match old, new with
  | _, None => old
  | Some _, Some v => if overwrite then (if String.eqb v "" then None else Some v) else old
  | None, Some v => if String.eqb v "" then None else Some v
  end.

Lemma patch_fold_in overwrite l cmd k v :
  NoDup l.*1 -> (k, v) ∈ l ->
  foldl (patch_one overwrite) cmd l !! k = merged overwrite (cmd !! k) (Some v).
Proof.
  revert cmd. induction l as [|[k' v'] l IH]; intros cmd; cbn; [set_solver|].
  intros [Hn Hl]%NoDup_cons [Hin|Hin]%elem_of_cons.
  - simplify_eq. rewrite patch_fold_other by done. unfold patch_one, merged. cbn.
    destruct (cmd !! k') eqn:Hk, overwrite, (String.eqb v' ""); cbn;
      rewrite ?lookup_insert_eq, ?lookup_delete_eq; done.
  - rewrite IH, patch_one_other; try done.
    cbn. intros ->. apply Hn, list_elem_of_fmap. by exists (k, v).
Qed.

(** [MergeContext] computes the metadata entry by entry, whatever the
    iteration orders of the two maps: a key the patch does not mention keeps its
    value, a key already set keeps it too unless [overwrite] is given, any other
    key takes the patch's value, and an empty patch value removes the key. The
    rest of the context is kept, and a nil context counts as an empty one. *)
Theorem MergeContext_spec o o' ctx patchMd overwrite k :
  let base := default (mkContext None ∅) ctx in
  let ctx' := MergeContext o o' ctx patchMd overwrite in
  md_entries (default None (ctx_md ctx')) !! k =
    merged overwrite (md_entries (default None (ctx_md base)) !! k) (md_entries patchMd !! k) /\
  ctx_rest ctx' = ctx_rest base /\ is_Some (ctx_md ctx').
Proof.
  cbn. rewrite copy_fold. split_and!; [|done|by eexists].
  set (m := md_entries (default None (ctx_md _))).
  destruct (md_entries patchMd !! k) as [v|] eqn:Hk.
  - apply patch_fold_in; [apply NoDup_map_range|by apply elem_of_map_range].
  - rewrite patch_fold_other; [by destruct (m !! k)|].
    intros ([k' v] & -> & Hin)%list_elem_of_fmap. apply elem_of_map_range in Hin.
    cbn in Hk. congruence.
Qed.

(** ** Setting and deleting a key of a context *)
Definition written (v : string) : option string := if String.eqb v "" then None else Some v.

Lemma lookup_written (m : gmap string string) k v k' :
  (if String.eqb v "" then delete k m else <[k := v]> m) !! k' =
  if decide (k = k') then written v else m !! k'.
Proof.
  unfold written. destruct (String.eqb v ""), (decide (k = k')) as [<-|Hk];
    by rewrite ?lookup_delete_eq, ?lookup_insert_eq, ?lookup_delete_ne, ?lookup_insert_ne.
Qed.

(** For a key in title form, [Set] followed by [Get] (under any spelling
    with that title) reads the value back, or nothing when the value was empty,
    which is what [Delete] does; every other key reads as before. This holds for
    every iteration order of both calls. *)
Theorem Set_Get_titled o o' ctx k v k' :
  Title k = k ->
  Get_ o' (Set_ o ctx k v) k' = if decide (Title k' = k) then written v else Get_ o ctx k'.
Proof.
  intros Hk. rewrite !Get_title. unfold Set_. cbn [FromContext ctx_md WithValue md_entries default].
  rewrite titled_range.
  - cbn. rewrite lookup_written.
    destruct (decide (k = Title k')), (decide (Title k' = k)); congruence.
  - cbn. intros j. rewrite lookup_written. destruct (decide (k = j)) as [<-|]; [done|].
    apply FromContext_titled.
Qed.

Lemma filter_rev {A} (P : A -> Prop) `{forall x, Decision (P x)} (l : list A) :
  filter P (rev l) = rev (filter P l).
Proof.
  induction l as [|x l IH]; cbn [rev]; [done|]. rewrite filter_app, IH, !filter_cons, filter_nil.
  destruct (decide (P x)); cbn; [done|]. by rewrite app_nil_r.
Qed.

(** Of two entries with one title, either can be the one a copy keeps. *)
Lemma put_collision (m : gmap string string) k1 k2 v1 v2 :
  k1 <> k2 -> Title k1 = Title k2 -> m !! k1 = Some v1 -> m !! k2 = Some v2 ->
  (forall k, Title k = Title k1 -> is_Some (m !! k) -> k = k1 \/ k = k2) ->
  exists o, foldl (put Title) ∅ (map_range o m) !! Title k1 = Some v2.
Proof.
  intros Hne Ht H1 H2 Honly.
  assert (filter (fun e => Title e.1 = Title k1) (map_to_list m) ≡ₚ [(k1, v1); (k2, v2)]) as Hp.
  { apply NoDup_Permutation.
    - apply NoDup_filter, NoDup_map_to_list.
    - repeat constructor; set_solver.
    - intros [k v]. rewrite list_elem_of_filter, elem_of_map_to_list.
      rewrite !elem_of_cons. cbn. split.
      + intros [Hk Hm]. destruct (Honly k) as [-> | ->]; [done|by eexists|left|right; left]; congruence.
      + intros [?|[?|[]%elem_of_nil]]; simplify_eq; done. }
  apply Permutation_sym, Permutation_length_2_inv in Hp as [Hp|Hp].
  - exists order_id. by rewrite lookup_foldl_put; cbn; rewrite Hp.
  - exists order_rev. rewrite lookup_foldl_put. unfold map_range. cbn [order_rev order_list].
    by rewrite filter_rev, Hp.
Qed.

(** For a key that is not in title form, [Delete] does nothing to the value
    a context already holds under the title, and after [Set] the old value may
    still be the one [Get] returns: the context then has both spellings, and the
    iteration order decides which of them the next copy keeps. *)
Theorem Set_lower_case o ctx k v old :
  Title k <> k -> Get_ o ctx k = Some old -> v <> "" ->
  (forall o', Get_ o' (Delete_ o ctx k) k = Some old) /\
  (exists o', Get_ o' (Set_ o ctx k v) k = Some v) /\
  (exists o', Get_ o' (Set_ o ctx k v) k = Some old).
Proof.
  intros Hk Hold Hv. rewrite Get_title in Hold.
  set (m := default ∅ (FromContext o ctx)) in *.
  assert (forall j, is_Some (m !! j) -> Title j = j) as Hm by apply FromContext_titled.
  assert (delete k m = m) as Hd.
  { apply delete_id. destruct (m !! k) eqn:Hmk; [|done]. destruct Hk. apply Hm. by eexists. }
  split.
  { intros o'. rewrite Get_title. unfold Delete_, Set_. fold m. cbn [String.eqb]. rewrite Hd.
    change (foldl (put Title) ∅ (map_range o' m) !! Title k = Some old).
    by rewrite (titled_range o' m). }
  apply String.eqb_neq in Hv.
  assert (forall o', Get_ o' (Set_ o ctx k v) k =
    foldl (put Title) ∅ (map_range o' (<[k := v]> m)) !! Title k) as Hg.
  { intros o'. rewrite Get_title. unfold Set_. fold m. by rewrite Hv. }
  assert (<[k := v]> m !! k = Some v) as H1 by apply lookup_insert_eq.
  assert (<[k := v]> m !! Title k = Some old) as H2 by (by rewrite lookup_insert_ne by done).
  assert (forall j, Title j = Title k -> is_Some (<[k := v]> m !! j) -> j = k \/ j = Title k) as Ho.
  { intros j Hj [w Hw]. apply lookup_insert_Some in Hw as [[]|[_ Hw]]; [by left|right].
    rewrite <- Hj. symmetry. apply Hm. by eexists. }
  split.
  - destruct (put_collision (<[k := v]> m) (Title k) k old v) as [o' Ho']; try done.
    + by rewrite Title_idem.
    + intros j. rewrite Title_idem. intros Hj Hs. destruct (Ho j Hj Hs); auto.
    + exists o'. by rewrite Hg, <- Ho', Title_idem.
  - destruct (put_collision (<[k := v]> m) k (Title k) v old) as [o' Ho']; try done.
    + by rewrite Title_idem.
    + exists o'. by rewrite Hg.
Qed.

Definition ctx_ex : context := mkContext (Some (Some {["Foo" := "1"]})) ∅.

Lemma Set_Get_titled_witness :
  Get_ order_id (Set_ order_rev ctx_ex "Foo" "2") "foo" = Some "2".
Proof. rewrite (Set_Get_titled order_rev order_id ctx_ex "Foo" "2" "foo"); reflexivity. Defined.

Lemma Set_lower_case_witness :
  exists o', Get_ o' (Set_ order_id ctx_ex "foo" "2") "foo" = Some "1".
Proof.
  apply (Set_lower_case order_id ctx_ex "foo" "2" "1"); [discriminate|reflexivity|discriminate].
Defined.
