(* ===== verification/Cache.v ===== *)
(** * The in-memory cache: [cache/cache.go], [cache/memory.go], [cache/options.go]

    Values ([interface{}]) are of any type [V]. Instants are Unix times in
    nanoseconds; an operation reads the clock at most once, and the instant it
    read is its argument [now]. *)
From S2P Require Import Prelude GoStrings.

Inductive cache_error := ErrItemExpired | ErrKeyNotFound.

Section cache.
Context {V : Type}.

Record Item := mkItem { Value : V; Expiration_ : Z }.

Definition Expired (now : Z) (i : Item) : bool :=
  if (Expiration_ i =? 0)%Z then false else (Expiration_ i <? now)%Z.

Record Options := mkOptions { opt_Items : gmap string Item; opt_Expiration : Z }.

Definition Option_ : Type := Options -> Options.

Definition DefaultExpiration : Z := 0.

Definition Expiration (d : Z) : Option_ := fun o => mkOptions (opt_Items o) d.

Definition Items (i : gmap string Item) : Option_ := fun o => mkOptions i (opt_Expiration o).

Definition NewOptions (opts : list Option_) : Options :=
  foldl (fun options o => o options) (mkOptions ∅ DefaultExpiration) opts.

Record memCache := mkCache { opts : Options; items : gmap string Item }.

Definition NewCache (os : list Option_) : memCache :=
  let options := NewOptions os in
  mkCache options (if (0 <? size (opt_Items options))%nat then opt_Items options else ∅).

(** The value and the instant it expires at (0 when it does not). *)
Definition Get (now : Z) (c : memCache) (key : string) : outcome cache_error (V * Z) :=
  match items c !! key with
  | None => Fail ErrKeyNotFound
  | Some item => if Expired now item then Fail ErrItemExpired
                 else Ret (Value item, Expiration_ item)
  end.

Definition Put (now : Z) (c : memCache) (key : string) (val : V) (d : Z) : memCache :=
  let d := if (d =? DefaultExpiration)%Z then opt_Expiration (opts c) else d in
  let e := if (0 <? d)%Z then wrap64 (now + d) else 0%Z in
  mkCache (opts c) (<[key := mkItem val e]> (items c)).

Definition Delete (c : memCache) (key : string) : outcome cache_error memCache :=
  match items c !! key with
  | None => Fail ErrKeyNotFound
  | Some _ => Ret (mkCache (opts c) (delete key (items c)))
  end.

(** ** Histories

    A history lists the calls made on a cache, oldest first; a failed [Delete]
    leaves the cache as it is. *)
Inductive call :=
| CPut (now : Z) (key : string) (val : V) (d : Z)
| CDelete (key : string).

Definition call_key (a : call) : string :=
  match a with CPut _ key _ _ => key | CDelete key => key end.

Definition exec (c : memCache) (a : call) : memCache :=
  match a with
  | CPut now key val d => Put now c key val d
  | CDelete key => match Delete c key with Ret c => c | _ => c end
  end.

Definition exec_all (c : memCache) (h : list call) : memCache := foldl exec c h.

(** What the history promises for a key: the last call about it decides. *)
Definition ttl (c : memCache) (d : Z) : Z :=
  if (d =? 0)%Z then opt_Expiration (opts c) else d.

Definition expected (c : memCache) (h : list call) (now : Z) (key : string) :
    outcome cache_error V :=
  match last (filter (fun a => call_key a = key) h) with
  | Some (CDelete _) => Fail ErrKeyNotFound
  | Some (CPut t _ val d) =>
      if (0 <? ttl c d)%Z && (t + ttl c d <? now)%Z then Fail ErrItemExpired else Ret val
  | None => match Get now c key with Ret (val, _) => Ret val | Fail e => Fail e | Panic => Panic end
  end.

(** The instants of a history fit Go's 64-bit Unix times. *)
Definition in_range (c : memCache) (a : call) : Prop :=
  match a with
  | CPut now _ _ d => (0 <= now /\ now + ttl c d <= int_max)%Z
  | CDelete _ => True
  end.

Lemma exec_opts c a : opts (exec c a) = opts c.
Proof. destruct a; cbn; [done|]. unfold Delete. by destruct (items c !! key). Qed.

Lemma exec_all_opts c h : opts (exec_all c h) = opts c.
Proof.
  revert c. induction h as [|a h IH]; intros c; cbn; [done|].
  unfold exec_all in IH. by rewrite IH, exec_opts.
Qed.

Lemma exec_other c a k : call_key a <> k -> items (exec c a) !! k = items c !! k.
Proof.
  destruct a; cbn; intros Hk; [by rewrite lookup_insert_ne|].
  unfold Delete. destruct (items c !! key); cbn; [by rewrite lookup_delete_ne|done].
Qed.

Lemma exec_delete c k : items (exec c (CDelete k)) !! k = None.
Proof.
  cbn. unfold Delete. destruct (items c !! k) eqn:Hk; cbn; [by rewrite lookup_delete_eq|done].
Qed.

(** The entry of a key after a history. *)
Lemma exec_all_lookup c h k :
  items (exec_all c h) !! k =
  match last (filter (fun a => call_key a = k) h) with
  | Some (CDelete _) => None
  | Some (CPut t _ val d) =>
      Some (mkItem val (if (0 <? ttl c d)%Z then wrap64 (t + ttl c d) else 0%Z))
  | None => items c !! k
  end.
Proof.
  induction h as [|a h IH] using rev_ind; [done|]. unfold exec_all in *.
  rewrite foldl_snoc, filter_app. destruct (decide (call_key a = k)) as [Ha|Ha].
  - rewrite (filter_cons_True _ a []), filter_nil, last_snoc by done. subst k.
    destruct a; [|apply exec_delete].
    cbn. rewrite lookup_insert_eq. unfold ttl, DefaultExpiration.
    pose proof (exec_all_opts c h) as Ho. unfold exec_all in Ho. by rewrite Ho.
  - rewrite (filter_cons_False _ a []), filter_nil, app_nil_r by done.
    by rewrite exec_other.
Qed.

Lemma Expired_deadline now v t d :
  (0 <= t)%Z -> (t + d <= int_max)%Z ->
  Expired now (mkItem v (if (0 <? d)%Z then wrap64 (t + d) else 0%Z)) =
  (0 <? d)%Z && (t + d <? now)%Z.
Proof.
  intros Ht Hd. unfold Expired. cbn. destruct (Z.ltb_spec 0 d); cbn; [|done].
  rewrite wrap64_small by (unfold int_min, int_max in *; lia).
  by destruct (Z.eqb_spec (t + d) 0); [lia|].
Qed.

(** After any history of calls, [Get] answers from the last call about its
    key: the value of a [Put] until its time to live has passed ("expired"
    afterwards, and never when the time to live is zero or negative; a [Put] with
    the default duration takes the cache's), "not found" after a [Delete], and
    what the cache answered initially when no call concerned the key; and
    [Delete] succeeds exactly when the key has an entry, expired or not. *)
Theorem Get_history c h now key :
  Forall (in_range c) h ->
  let c' := exec_all c h in
  expected c h now key =
    match Get now c' key with Ret (val, _) => Ret val | Fail e => Fail e | Panic => Panic end /\
  (Delete c' key = Fail ErrKeyNotFound <-> Get now c' key = Fail ErrKeyNotFound).
Proof.
  intros Hr. cbn. split.
  - unfold expected, Get at 2. rewrite exec_all_lookup.
    destruct (last _) as [[t k v d|k]|] eqn:Hl; [|done|done].
    apply last_Some_elem_of, list_elem_of_filter in Hl as [_ Hl].
    rewrite Forall_forall in Hr. apply Hr in Hl as [Ht Hd].
    rewrite Expired_deadline by done. by destruct (_ && _).
  - unfold Delete, Get. destruct (items _ !! key) as [i|]; [|done].
    by destruct (Expired now i).
Qed.

End cache.
Arguments Item : clear implicits.
Arguments memCache : clear implicits.
Arguments call : clear implicits.

Definition history_ex : list (call nat) :=
  [CPut 100%Z "a" 1 0%Z; CPut 150%Z "b" 2 (-1)%Z; CPut 200%Z "a" 3 50%Z; CDelete "c"].

Lemma Get_history_witness :
  let c := exec_all (NewCache [Expiration 10]) history_ex in
  Get 250 c "a" = Ret (3, 250%Z) /\ Get 251 c "a" = Fail ErrItemExpired /\
  Get 999 c "b" = Ret (2, 0%Z) /\
  expected (NewCache [Expiration 10]) history_ex 251 "a" = Fail ErrItemExpired.
Proof.
  cbn zeta. split_and!; [reflexivity|reflexivity|reflexivity|].
  assert (Forall (in_range (NewCache [Expiration 10])) history_ex) as H
    by (repeat constructor; vm_compute; intros [=]).
  rewrite (proj1 (Get_history (NewCache [Expiration 10]) history_ex 251 "a" H)). reflexivity.
Defined.
