(* ===== verification/ConnPool.v ===== *)
(** * The client's connection pool: [util/pool/default.go], [util/pool/pool.go],
      [util/pool/options.go]

    A connection is known by its [id] (a fresh UUID), the instant it was created
    and the remote address its transport client reports. The transport is the
    embedding program's: what a dial returns and whether closing a client fails
    are arguments of the operations, and each operation returns the list of the
    clients it closed. Every operation holds the pool's mutex while it touches
    [conns], so one operation is one step. *)
From S2P Require Import Prelude GoStrings.

Section pool.
Context {E : Type}.

Record poolConn := mkConn { created : Z; id : string; Remote : string }.

#[export] Instance poolConn_eq_dec : EqDecision poolConn.
Proof. solve_decision. Defined.

Record pool := mkPool { size_ : Z; ttl : Z; conns : gmap string (list poolConn) }.

Record Options := mkOptions { opt_TTL : Z; opt_Size : Z }.

Definition Option_ : Type := Options -> Options.

Definition Size (i : Z) : Option_ := fun o => mkOptions (opt_TTL o) i.

Definition TTL (t : Z) : Option_ := fun o => mkOptions t (opt_Size o).

Definition newPool (options : Options) : pool := mkPool (opt_Size options) (opt_TTL options) ∅.

Definition NewPool (opts : list Option_) : pool :=
  newPool (foldl (fun options o => o options) (mkOptions 0 0) opts).

Definition conns_at (p : pool) (addr : string) : list poolConn := default [] (conns p !! addr).

Definition set_conns (p : pool) (addr : string) (cs : list poolConn) : pool :=
  mkPool (size_ p) (ttl p) (<[addr := cs]> (conns p)).

(** Does closing this connection's client fail, and how. *)
Definition closer : Type := poolConn -> option E.

(** The loop of [Get]: it takes connections off the end of the address's list
    ([newest] is that list reversed) until one is young enough. [inl] is what
    [Get] returns from inside the loop, [inr] means that the list ran out. *)
Fixpoint get_loop (close : closer) (now : Z) (p : pool) (addr : string) (newest : list poolConn) :
    pool * list poolConn * (outcome E poolConn + unit) :=
  match newest with
  | [] => (p, [], inr ())
  | conn :: rest =>
      let p := set_conns p addr (rev rest) in
      if (ttl p <? time_Since now (created conn))%Z then
        match close conn with
        | Some err => (p, [conn], inl (Fail err))
        | None =>
            let '(p, closed, r) := get_loop close now p addr rest in (p, conn :: closed, r)
        end
      else (p, [], inl (Ret conn))
  end.

(** [dial] is the transport's answer: the remote address of the new client, or
    an error; [uuid] is the identifier drawn for it, [now'] its creation time. *)
Definition Get (close : closer) (now : Z) (dial : outcome E string) (uuid : string) (now' : Z)
    (p : pool) (addr : string) : pool * list poolConn * outcome E poolConn :=
  match get_loop close now p addr (rev (conns_at p addr)) with
  | (p, closed, inl r) => (p, closed, r)
  | (p, closed, inr _) =>
      (p, closed, remote <-! dial; Ret (mkConn now' uuid remote))
  end.

Definition Release (close : closer) (p : pool) (conn : poolConn) (err : option E) :
    pool * list poolConn * option E :=
  match err with
  | Some _ => (p, [conn], close conn)
  | None =>
      let cs := conns_at p (Remote conn) in
      if (size_ p <=? Z.of_nat (length cs))%Z then (p, [conn], close conn)
      else (set_conns p (Remote conn) (cs ++ [conn]), [], None)
  end.

(** Closing every pooled client, whatever fails; the last failure is returned. *)
Definition close_all (close : closer) (err : option E) (cs : list poolConn) : option E :=
  foldl (fun err conn => match close conn with Some nerr => Some nerr | None => err end) err cs.

Definition Close (o : map_order) (close : closer) (p : pool) : pool * list poolConn * option E :=
  foldl (fun '(p, closed, err) '(k, c) =>
    (mkPool (size_ p) (ttl p) (delete k (conns p)), closed ++ c, close_all close err c))
    (p, [], None) (map_range o (conns p)).

(** ** What [Get] does *)
Definition stale (now : Z) (p : pool) (c : poolConn) : Prop :=
  (ttl p < time_Since now (created c))%Z.

Lemma conns_at_set p addr cs addr' :
  conns_at (set_conns p addr cs) addr' = if decide (addr = addr') then cs else conns_at p addr'.
Proof.
  unfold conns_at. cbn. destruct (decide (addr = addr')) as [<-|];
    by rewrite ?lookup_insert_eq, ?lookup_insert_ne.
Qed.

Lemma get_loop_spec close now p addr newest p' closed r :
  conns_at p addr = rev newest ->
  get_loop close now p addr newest = (p', closed, r) ->
  ttl p' = ttl p /\ size_ p' = size_ p /\ Forall (stale now p) closed /\
  (forall addr', addr' <> addr -> conns_at p' addr' = conns_at p addr') /\
  match r with
  | inl (Ret c) => ~ stale now p c /\ newest = closed ++ c :: rev (conns_at p' addr) /\
                   Forall (fun c => close c = None) closed
  | inl (Fail e) => newest = closed ++ rev (conns_at p' addr) /\
                    exists c, last closed = Some c /\ close c = Some e
  | inl Panic => False
  | inr _ => closed = newest /\ conns_at p' addr = [] /\ Forall (fun c => close c = None) closed
  end.
Proof.
  revert p p' closed r. induction newest as [|c newest IH]; intros p p' closed r Hp; cbn.
  - intros [= <- <- <-]. cbn in Hp. by rewrite Hp.
  - destruct (Z.ltb_spec (ttl p) (time_Since now (created c))) as [Hs|Hs].
    + destruct (close c) as [err|] eqn:Hc.
      * intros [= <- <- <-]. cbn. split_and!; try done.
        -- by repeat constructor.
        -- intros a Ha. rewrite conns_at_set. by destruct (decide _).
        -- by rewrite conns_at_set, decide_True, rev_involutive.
        -- by exists c.
      * destruct (get_loop _ _ _ _ newest) as [[p1 closed1] r1] eqn:Hl.
        intros [= <- <- <-].
        apply IH in Hl as (Ht & Hz & Hst & Ho & Hr);
          [|by rewrite conns_at_set, decide_True]. cbn in Ht, Hz.
        split_and!; try done.
        -- by constructor.
        -- intros a Ha. rewrite Ho, conns_at_set by done. by destruct (decide _).
        -- destruct r1 as [[c'|e|]|[]]; cbn; try done.
           ++ destruct Hr as (? & -> & ?). split_and!; [done|done|by constructor].
           ++ destruct Hr as (-> & c' & Hl & ?). split; [done|]. exists c'. split; [|done].
              by destruct closed1.
           ++ destruct Hr as (-> & ? & ?). split_and!; [done|done|by constructor].
    + intros [= <- <- <-]. cbn. split_and!; try done.
      * intros a Ha. rewrite conns_at_set. by destruct (decide _).
      * unfold stale. lia.
      * by rewrite conns_at_set, decide_True, rev_involutive.
Qed.

(** ** The pool and its clients

    [held] are the connections handed out and not yet given back, [closed_] the
    clients closed so far, in order. A client gives back only a connection it
    holds, and a dial draws an identifier no connection has had. *)
Record system := mkSystem { sys_pool : pool; held : list poolConn; closed_ : list poolConn }.

Definition pooled (s : system) (c : poolConn) : Prop :=
  exists addr, c ∈ conns_at (sys_pool s) addr.

Definition known (s : system) (c : poolConn) : Prop :=
  pooled s c \/ c ∈ held s \/ c ∈ closed_ s.

Definition give (r : outcome E poolConn) (h : list poolConn) : list poolConn :=
  match r with Ret c => c :: h | _ => h end.

Definition take (c : poolConn) (h : list poolConn) : list poolConn :=
  filter (fun c' => c' <> c) h.

Inductive step : system -> system -> Prop :=
| step_Get s close now dial uuid now' addr p closed r :
    (forall c, known s c -> id c <> uuid) ->
    Get close now dial uuid now' (sys_pool s) addr = (p, closed, r) ->
    step s (mkSystem p (give r (held s)) (closed_ s ++ closed))
| step_Release s close c err p closed r :
    c ∈ held s ->
    Release close (sys_pool s) c err = (p, closed, r) ->
    step s (mkSystem p (take c (held s)) (closed_ s ++ closed))
| step_Close s o close p closed r :
    Close o close (sys_pool s) = (p, closed, r) ->
    step s (mkSystem p (held s) (closed_ s ++ closed)).

Inductive reachable (opts : list Option_) : system -> Prop :=
| reach_New : reachable opts (mkSystem (NewPool opts) [] [])
| reach_step s s' : reachable opts s -> step s s' -> reachable opts s'.

(** Every connection is in one place: in one address's list (once), in a
    client's hands, or closed (once). *)
Record well_kept (s : system) : Prop := {
  wk_place : forall addr c, c ∈ conns_at (sys_pool s) addr -> Remote c = addr;
  wk_once : forall addr, NoDup (conns_at (sys_pool s) addr);
  wk_held : NoDup (held s);
  wk_closed : NoDup (closed_ s);
  wk_pooled_held : forall c, pooled s c -> c ∉ held s;
  wk_pooled_closed : forall c, pooled s c -> c ∉ closed_ s;
  wk_held_closed : forall c, c ∈ held s -> c ∉ closed_ s;
  wk_size : forall addr, conns_at (sys_pool s) addr <> [] ->
    (Z.of_nat (length (conns_at (sys_pool s) addr)) <= size_ (sys_pool s))%Z;
}.

(** The part of [Get] the invariant needs: the connections of the address it
    leaves, then the one it returns, then those it closed, are what was there. *)
Lemma Get_split close now dial uuid now' p addr p' closed r :
  Get close now dial uuid now' p addr = (p', closed, r) ->
  size_ p' = size_ p /\ ttl p' = ttl p /\ Forall (stale now p) closed /\
  (forall addr', addr' <> addr -> conns_at p' addr' = conns_at p addr') /\
  exists mid, conns_at p addr = conns_at p' addr ++ mid ++ rev closed /\
  match r with
  | Ret c => mid = [c] /\ ~ stale now p c \/
             mid = [] /\ conns_at p' addr = [] /\ id c = uuid /\ created c = now' /\
             dial = Ret (Remote c)
  | _ => mid = []
  end.
Proof.
  unfold Get. destruct (get_loop _ _ _ _ _) as [[p1 closed1] r1] eqn:Hl.
  apply get_loop_spec in Hl as (Ht & Hz & Hs & Ho & Hr); [|by rewrite rev_involutive].
  destruct r1 as [[c|e|]|[]].
  - destruct Hr as (Hc & Hn & _). intros [= <- <- <-]. split_and!; try done.
    exists [c]. split; [|by left]. apply (f_equal (@rev _)) in Hn.
    rewrite rev_involutive, rev_app_distr in Hn. cbn in Hn. rewrite rev_involutive in Hn.
    by rewrite Hn, <- app_assoc.
  - destruct Hr as (Hn & _). intros [= <- <- <-]. split_and!; try done.
    exists []. split; [|done]. apply (f_equal (@rev _)) in Hn.
    by rewrite rev_involutive, rev_app_distr, rev_involutive in Hn.
  - done.
  - destruct Hr as (-> & He & _). intros [= <- <- <-]. split_and!; try done.
    exists []. rewrite He, rev_involutive. split; [done|].
    destruct dial as [a|e|]; cbn; try done. by right.
Qed.

Lemma Close_spec o close p p' closed r :
  Close o close p = (p', closed, r) ->
  conns p' = ∅ /\ size_ p' = size_ p /\ ttl p' = ttl p /\
  closed = concat (map_range o (conns p)).*2 /\ r = close_all close None closed.
Proof.
  unfold Close. set (f := fun '(p, closed, err) '(k, c) => _). intros H.
  assert (forall l q cl e q' cl' e', foldl f (q, cl, e) l = (q', cl', e') ->
    conns q' = foldl (fun m e => delete e.1 m) (conns q) l /\ size_ q' = size_ q /\
    ttl q' = ttl q /\ cl' = cl ++ concat l.*2 /\ e' = close_all close e (concat l.*2)) as Hf.
  { induction l as [|[k c] l IH]; intros q cl e q' cl' e'; cbn.
    - intros [= <- <- <-]. by rewrite app_nil_r.
    - intros (-> & -> & -> & -> & ->)%IH. cbn. split_and!; try done.
      + by rewrite app_assoc.
      + unfold close_all. by rewrite foldl_app. }
  apply Hf in H as (Hc & ? & ? & -> & ->). split_and!; try done.
  rewrite Hc. apply foldl_delete_all.
Qed.

Lemma elem_of_close p o c :
  c ∈ concat (map_range o (conns p)).*2 <-> exists addr, c ∈ conns_at p addr.
Proof.
  rewrite list_elem_of_In, in_concat. unfold conns_at. split.
  - intros (l & Hl & Hc). apply list_elem_of_In, list_elem_of_fmap in Hl as ([k l'] & -> & Hl).
    apply elem_of_map_range in Hl. exists k. rewrite Hl. by apply list_elem_of_In.
  - intros [addr Hc]. destruct (conns p !! addr) as [l|] eqn:Hl; [|by apply not_elem_of_nil in Hc].
    exists l. split; [|by apply list_elem_of_In]. apply list_elem_of_In, list_elem_of_fmap.
    exists (addr, l). by rewrite elem_of_map_range.
Qed.

Lemma pooled_place s c :
  well_kept s -> pooled s c <-> c ∈ conns_at (sys_pool s) (Remote c).
Proof.
  intros Hw. split; [|by intros ?; eexists]. intros [addr Hc].
  by rewrite (wk_place s Hw _ _ Hc).
Qed.

(** Getting keeps the connections well kept: what left the address's list went
    to the client or was closed. *)
Lemma well_kept_Get s close now dial uuid now' addr p closed r :
  well_kept s -> (forall c, known s c -> id c <> uuid) ->
  Get close now dial uuid now' (sys_pool s) addr = (p, closed, r) ->
  well_kept (mkSystem p (give r (held s)) (closed_ s ++ closed)).
Proof.
  intros Hw Hfresh (Hz & Ht & _ & Ho & mid & Hsplit & Hr)%Get_split.
  pose proof (wk_once s Hw addr) as Hnd. rewrite Hsplit in Hnd.
  apply NoDup_app in Hnd as (Hnp & Hdp & Hnd). apply NoDup_app in Hnd as (Hnm & Hdm & Hnc).
  rewrite NoDup_rev in Hnc.
  assert (forall c, c ∈ conns_at p addr \/ c ∈ mid \/ c ∈ closed -> pooled s c) as Hin.
  { intros c Hc. exists addr. rewrite Hsplit. set_solver. }
  assert (forall a c, c ∈ conns_at p a -> c ∈ conns_at (sys_pool s) a) as Hsub.
  { intros a c. destruct (decide (a = addr)) as [->|Ha]; [|by rewrite Ho].
    rewrite Hsplit. set_solver. }
  assert (forall c, pooled (mkSystem p (give r (held s)) (closed_ s ++ closed)) c ->
    pooled s c /\ c ∉ mid /\ c ∉ closed) as Hpool.
  { intros c [a Hc]. cbn in Hc. split; [by exists a; apply Hsub|].
    destruct (decide (a = addr)) as [->|Ha]; [set_solver|].
    assert (c ∉ conns_at (sys_pool s) addr) as Hn.
    { intros Hc'. apply (wk_place s Hw) in Hc'. apply Hsub, (wk_place s Hw) in Hc. congruence. }
    rewrite Hsplit in Hn. set_solver. }
  assert (forall c, c ∈ give r (held s) -> c ∈ held s \/ c ∈ mid \/ id c = uuid) as Hg.
  { intros c. destruct r as [c'| |]; cbn; [|by left|by left].
    rewrite elem_of_cons. intros [->|?]; [right|by left].
    destruct Hr as [[-> _]|(_ & _ & ? & _)]; [left; set_solver|by right]. }
  pose proof (wk_pooled_held s Hw) as Hph. pose proof (wk_pooled_closed s Hw) as Hpc.
  split; cbn.
  - intros a c Hc. apply (wk_place s Hw). by apply Hsub.
  - intros a. destruct (decide (a = addr)) as [->|Ha]; [done|].
    rewrite Ho by done. apply (wk_once s Hw).
  - destruct r as [c| |]; cbn; [|apply (wk_held s Hw)..].
    apply NoDup_cons. split; [|apply (wk_held s Hw)]. intros Hc.
    destruct Hr as [[-> _]|(_ & _ & Hid & _)].
    + apply (Hph c); [|done]. apply Hin. set_solver.
    + apply (Hfresh c); [right; by left|done].
  - apply NoDup_app. split_and!; [apply (wk_closed s Hw)| |done]. intros c Hc Hc'.
    apply (Hpc c); [|done]. apply Hin. auto.
  - intros c (Hp & Hm & Hc)%Hpool [Hh|[Hh|Hh]]%Hg; [by apply (Hph c)|done|].
    by apply (Hfresh c); [left|].
  - intros c (Hp & Hm & Hc)%Hpool [Hh|Hh]%elem_of_app; [by apply (Hpc c)|done].
  - intros c Hh [Hc|Hc]%elem_of_app; apply Hg in Hh as [Hh|[Hh|Hh]].
    + by apply (wk_held_closed s Hw c).
    + apply (Hpc c); [|done]. apply Hin. auto.
    + apply (Hfresh c); [right; by right|done].
    + apply (Hph c); [|done]. apply Hin. auto.
    + apply (Hdm c); [done|set_solver].
    + apply (Hfresh c); [left; apply Hin; auto|done].
  - intros a Hne. destruct (decide (a = addr)) as [->|Ha].
    + rewrite Hz. pose proof (wk_size s Hw addr) as Hs. rewrite Hsplit, !length_app in Hs.
      destruct (conns_at p addr); [done|]. cbn in *. specialize (Hs ltac:(done)). lia.
    + rewrite Ho, Hz by done. apply (wk_size s Hw). by rewrite <- Ho.
Qed.

Lemma elem_of_take c h c' : c' ∈ take c h <-> c' ∈ h /\ c' <> c.
Proof. unfold take. rewrite list_elem_of_filter. tauto. Qed.

Lemma well_kept_Release s close c err p closed r :
  well_kept s -> c ∈ held s ->
  Release close (sys_pool s) c err = (p, closed, r) ->
  well_kept (mkSystem p (take c (held s)) (closed_ s ++ closed)).
Proof.
  intros Hw Hc. pose proof (wk_held_closed s Hw) as Hhc. pose proof (wk_pooled_held s Hw) as Hph.
  assert (well_kept (mkSystem (sys_pool s) (take c (held s)) (closed_ s ++ [c]))) as Hclose.
  { split; cbn; try apply Hw.
    - apply NoDup_filter, Hw.
    - apply NoDup_app. split_and!; [apply Hw| |apply NoDup_singleton]. set_solver.
    - intros c' Hp. rewrite elem_of_take. intros [Hh _]. by apply (Hph c').
    - intros c' Hp. pose proof (wk_pooled_closed s Hw c' Hp). pose proof (Hph c' Hp). set_solver.
    - intros c'. rewrite elem_of_take. intros [Hh Hne]. specialize (Hhc c' Hh). set_solver. }
  unfold Release. destruct err as [err|]; [by intros [= <- <- <-]|].
  case_match eqn:Hsz; [by intros [= <- <- <-]|]. intros [= <- <- <-].
  apply Z.leb_gt in Hsz. rewrite app_nil_r.
  assert (c ∉ conns_at (sys_pool s) (Remote c)) as Hnp.
  { intros Hp. apply (Hph c); [by eexists|done]. }
  assert (forall a c', c' ∈ conns_at (set_conns (sys_pool s) (Remote c)
      (conns_at (sys_pool s) (Remote c) ++ [c])) a ->
    c' ∈ conns_at (sys_pool s) a \/ c' = c /\ a = Remote c) as Hin.
  { intros a c'. rewrite conns_at_set. destruct (decide _); set_solver. }
  split; cbn; try apply Hw.
  - intros a c' [?|[-> ->]]%Hin; [by apply (wk_place s Hw)|done].
  - intros a. rewrite conns_at_set. destruct (decide _); [|apply Hw].
    apply NoDup_app. split_and!; [apply Hw|set_solver|apply NoDup_singleton].
  - apply NoDup_filter, Hw.
  - intros c' [a Hp]. rewrite elem_of_take. intros [Hh Hne]. cbn in Hp.
    apply Hin in Hp as [Hp|[-> _]]; [|done]. by apply (Hph c'); [exists a|].
  - intros c' [a Hp]. cbn in Hp.
    apply Hin in Hp as [Hp|[-> _]]; [|by apply Hhc].
    apply (wk_pooled_closed s Hw). by exists a.
  - intros c'. rewrite elem_of_take. intros [Hh _]. by apply Hhc.
  - intros a. rewrite conns_at_set. destruct (decide _); [|apply Hw].
    intros _. rewrite length_app. cbn. lia.
Qed.

Lemma NoDup_concat_places (l : list (string * list poolConn)) :
  NoDup l.*1 -> (forall k cs, (k, cs) ∈ l -> NoDup cs /\ forall c, c ∈ cs -> Remote c = k) ->
  NoDup (concat l.*2).
Proof.
  induction l as [|[k cs] l IH]; cbn; [constructor|]. intros [Hk Hl]%NoDup_cons H.
  destruct (H k cs) as [Hcs Hr]; [left|]. apply NoDup_app. split_and!; [done| |].
  - intros c Hc Hin. apply list_elem_of_In, in_concat in Hin as (cs' & Hcs' & Hc').
    apply list_elem_of_In, list_elem_of_fmap in Hcs' as ([k' l0] & -> & Hin).
    apply list_elem_of_In in Hc'.
    destruct (H k' l0) as [_ Hr']; [by apply list_elem_of_further|].
    apply Hk. rewrite <- (Hr c Hc), (Hr' c Hc'). apply list_elem_of_fmap. by eexists (_, _).
  - apply IH; [done|]. intros. apply H. by right.
Qed.

Lemma well_kept_Close s o close p closed r :
  well_kept s -> Close o close (sys_pool s) = (p, closed, r) ->
  well_kept (mkSystem p (held s) (closed_ s ++ closed)) /\
  (forall c, pooled s c <-> c ∈ closed) /\ conns p = ∅.
Proof.
  intros Hw (Hc & Hz & Ht & -> & _)%Close_spec.
  set (l := concat _). assert (forall c, pooled s c <-> c ∈ l) as Hl.
  { intros c. unfold l. by rewrite elem_of_close. }
  assert (forall a, conns_at p a = []) as He.
  { intros a. unfold conns_at. by rewrite Hc, lookup_empty. }
  split; [|done]. split; cbn; try apply Hw.
  - intros a c. rewrite He. by intros ?%not_elem_of_nil.
  - intros a. rewrite He. constructor.
  - apply NoDup_app. split_and!; [apply Hw| |].
    + intros c Hcl Hcl'%Hl. by apply (wk_pooled_closed s Hw c).
    + apply NoDup_concat_places; [apply NoDup_map_range|].
      intros k cs Hk%elem_of_map_range.
      assert (conns_at (sys_pool s) k = cs) as <- by (unfold conns_at; by rewrite Hk).
      split; [apply Hw|apply (wk_place s Hw)].
  - intros c [a Hp]. cbn in Hp. rewrite He in Hp. by apply not_elem_of_nil in Hp.
  - intros c [a Hp]. cbn in Hp. rewrite He in Hp. by apply not_elem_of_nil in Hp.
  - intros c Hh [Hcl|Hcl%Hl]%elem_of_app; [by apply (wk_held_closed s Hw c)|].
    by apply (wk_pooled_held s Hw c).
  - intros a. by rewrite He.
Qed.

Lemma NewPool_well_kept opts : well_kept (mkSystem (NewPool opts) [] []).
Proof.
  assert (forall a, conns_at (NewPool opts) a = []) as H.
  { intros a. unfold conns_at. cbn. by rewrite lookup_empty. }
  split; cbn; intros; rewrite ?H in *; try apply NoDup_nil_2; try set_solver.
Qed.

Lemma reachable_well_kept opts s : reachable opts s -> well_kept s.
Proof.
  induction 1 as [|s s' _ IH Hs]; [apply NewPool_well_kept|]. inversion Hs; subst.
  - eapply well_kept_Get; eauto.
  - eapply well_kept_Release; eauto.
  - by eapply well_kept_Close; eauto.
Qed.

(** C12: in every run of the pool and its clients, a connection is in one place
    only: once in the list of its own remote address (lists never grow past the
    pool's size), or in the hands of one client, or closed, once. In particular
    the connection a [Get] hands out is held by no other client, is not closed,
    and if it is a reused one it is no older than the TTL and is connected to the
    address asked for. *)
Theorem Get_exclusive opts s close now dial uuid now' addr p closed c :
  reachable opts s -> (forall c, known s c -> id c <> uuid) ->
  Get close now dial uuid now' (sys_pool s) addr = (p, closed, Ret c) ->
  c ∉ held s /\ c ∉ closed_ s ++ closed /\ (forall a, c ∉ conns_at p a) /\
  (pooled s c -> Remote c = addr /\ ~ stale now (sys_pool s) c) /\
  (~ pooled s c -> id c = uuid /\ created c = now' /\ dial = Ret (Remote c) /\
    forall c', c' ∈ conns_at (sys_pool s) addr -> stale now (sys_pool s) c' /\ c' ∈ closed) /\
  forall a, conns_at p a <> [] -> (Z.of_nat (length (conns_at p a)) <= size_ p)%Z.
Proof.
  intros Hw%reachable_well_kept Hf HG. pose proof (well_kept_Get _ _ _ _ _ _ _ _ _ _ Hw Hf HG) as Hw'.
  cbn in Hw'. pose proof (wk_held _ Hw') as Hh. cbn in Hh. apply NoDup_cons in Hh as [Hh _].
  apply Get_split in HG as (Hz & Ht & Hst & Ho & mid & Hsplit & Hr).
  split_and!; [done|apply (wk_held_closed _ Hw'); cbn; by left| | | |apply (wk_size _ Hw')].
  - intros a Hc. apply (wk_pooled_held _ Hw' c); cbn; [by exists a|by left].
  - intros Hp. destruct Hr as [[-> Hr]|(_ & _ & Hid & _)]; [|by destruct (Hf c); [left|]].
    split; [|done]. apply (wk_place s Hw). rewrite Hsplit. set_solver.
  - intros Hp. destruct Hr as [[-> Hr]|(-> & Hnil & Hid & ? & ?)].
    + destruct Hp. exists addr. rewrite Hsplit. set_solver.
    + split_and!; try done. intros c'. rewrite Hsplit, Hnil. cbn. rewrite elem_of_rev. intros Hc'.
      split; [|done]. rewrite Forall_forall in Hst. by apply Hst.
Qed.

(** Closing the pool closes every pooled connection, whichever of them fail
    to close, leaves no list behind, and touches no connection a client holds;
    the error it returns is the last failure in its order of closing. *)
Theorem Close_closes_all opts s o close p closed r :
  reachable opts s -> Close o close (sys_pool s) = (p, closed, r) ->
  (forall c, pooled s c <-> c ∈ closed) /\ NoDup (closed_ s ++ closed) /\ conns p = ∅ /\
  (forall c, c ∈ held s -> c ∉ closed_ s ++ closed) /\
  (r = None <-> Forall (fun c => close c = None) closed).
Proof.
  intros Hw%reachable_well_kept HC. pose proof (Close_spec _ _ _ _ _ _ HC) as (_ & _ & _ & _ & Hr).
  apply (well_kept_Close s) in HC as (Hw' & Hcl & Hp); [|done].
  split_and!; try done; [apply (wk_closed _ Hw')|apply (wk_held_closed _ Hw')|].
  rewrite Hr. clear. unfold close_all.
  assert (forall e, foldl (fun err conn => match close conn with Some nerr => Some nerr | None => err end)
    e closed = None <-> e = None /\ Forall (fun c => close c = None) closed) as H.
  { induction closed as [|c l IH]; intros e; cbn; [rewrite Forall_nil; tauto|].
    rewrite IH, Forall_cons. destruct (close c); naive_solver. }
  rewrite H. tauto.
Qed.

End pool.

Definition pool_opts : list Option_ := [Size 1; TTL 100].

Definition conn_ex : poolConn := mkConn 5 "u1" "h:1".

Definition no_close_error : poolConn -> option nat := fun _ => None.

(** One connection dialled, then given back. *)
Definition pool_ex : system :=
  mkSystem (set_conns (NewPool pool_opts) "h:1" [conn_ex]) [] [].

Lemma pool_ex_reachable : reachable (E:=nat) pool_opts pool_ex.
Proof.
  assert (step (E:=nat) (mkSystem (NewPool pool_opts) [] []) (mkSystem (NewPool pool_opts) [conn_ex] []))
    as H1.
  { refine (step_Get (mkSystem (NewPool pool_opts) [] []) no_close_error 5 (Ret "h:1") "u1" 5 "h:1"
      (NewPool pool_opts) [] (Ret conn_ex) _ eq_refl).
    intros c [[a Hc]|[Hc|Hc]]; cbn in Hc; [|by apply not_elem_of_nil in Hc..].
    unfold conns_at in Hc. cbn in Hc. rewrite lookup_empty in Hc. by apply not_elem_of_nil in Hc. }
  eapply reach_step; [eapply reach_step; [apply reach_New|exact H1]|].
  refine (step_Release (mkSystem (NewPool pool_opts) [conn_ex] []) no_close_error conn_ex None
    (sys_pool pool_ex) [] None _ eq_refl). left.
Qed.

Lemma Get_exclusive_witness : exists p,
  Get no_close_error 50 (Ret "h:1") "u2" 50 (sys_pool pool_ex) "h:1" = (p, [], Ret conn_ex) /\
  forall a, conn_ex ∉ conns_at p a.
Proof.
  eexists. split; [reflexivity|].
  refine (proj1 (proj2 (proj2 (Get_exclusive pool_opts pool_ex no_close_error 50 (Ret "h:1") "u2" 50
    "h:1" _ [] conn_ex pool_ex_reachable _ eq_refl)))).
  intros c [[a Hc]|[Hc|Hc]]; cbn in Hc; [|by apply not_elem_of_nil in Hc..].
  rewrite conns_at_set in Hc. destruct (decide _).
  - apply list_elem_of_singleton in Hc as ->. discriminate.
  - unfold conns_at in Hc. cbn in Hc. rewrite lookup_empty in Hc. by apply not_elem_of_nil in Hc.
Defined.

Lemma Close_closes_all_witness : exists p,
  Close order_id no_close_error (sys_pool pool_ex) = (p, [conn_ex], None) /\ conns p = ∅.
Proof.
  eexists. split; [reflexivity|].
  exact (proj1 (proj2 (proj2 (Close_closes_all pool_opts pool_ex order_id no_close_error _ _ _
    pool_ex_reachable eq_refl)))).
Defined.
