(* ===== verification/Socket.v ===== *)
(** * Pseudo sockets: [util/socket/socket.go], [util/socket/pool.go]

    A socket is two buffered channels and a [closed] channel. A Go [select]
    runs any one of its ready cases and blocks when none is ready: the
    operations that select return the list of the outcomes their ready cases
    lead to, and an empty list means that the call blocks.

    [Pool.Get] takes the read lock, lets it go and takes the write lock: its two
    critical sections are two steps ([get_read], [get_write]), and concurrent
    calls interleave between them. *)
From S2P Require Import Prelude GoStrings.

Inductive error := EOF.

Definition chan_cap : nat := 128.

Section socket.
Context {Message : Type}.

Record Socket := mkSocket {
  closed : bool;
  send : list Message;
  recv : list Message;
  id : string;
  remote : string;
  local : string;
}.

Definition New (i : string) : Socket := mkSocket false [] [] i "remote" "local".

Definition set_send (s : Socket) (q : list Message) : Socket :=
  mkSocket (closed s) q (recv s) (id s) (remote s) (local s).

Definition set_recv (s : Socket) (q : list Message) : Socket :=
  mkSocket (closed s) (send s) q (id s) (remote s) (local s).

Definition SetLocal (s : Socket) (l : string) : Socket :=
  mkSocket (closed s) (send s) (recv s) (id s) (remote s) l.

Definition SetRemote (s : Socket) (r : string) : Socket :=
  mkSocket (closed s) (send s) (recv s) (id s) r (local s).

(** The cases of a [select]. *)
Definition can_push (q : list Message) : bool := (length q <? chan_cap)%nat.

Definition on_closed {A} (s : Socket) (a : A) : list A := if closed s then [a] else [].

Definition Accept (s : Socket) (m : Message) : list (outcome error unit * Socket) :=
  (if can_push (recv s) then [(Ret (), set_recv s (recv s ++ [m]))] else []) ++
  on_closed s (Fail EOF, s).

Definition take_send (s : Socket) : list (outcome error Message * Socket) :=
  match send s with
  | msg :: q => [(Ret msg, set_send s q)]
  | [] => []
  end.

Definition Process (s : Socket) : list (outcome error Message * Socket) :=
  take_send s ++
  (if closed s
   then match take_send s with
        | [] => [(Fail EOF, s)]
        | drained => drained
        end
   else []).

Definition Send (s : Socket) (m : Message) : list (outcome error unit * Socket) :=
  (if can_push (send s) then [(Ret (), set_send s (send s ++ [m]))] else []) ++
  on_closed s (Fail EOF, s).

Definition Recv (s : Socket) : list (outcome error Message * Socket) :=
  (match recv s with
   | msg :: q => [(Ret msg, set_recv s q)]
   | [] => []
   end) ++
  on_closed s (Fail EOF, s).

(** [close(s.closed)] panics on a closed channel. *)
Definition chan_close (s : Socket) : outcome error Socket :=
  if closed s then Panic
  else Ret (mkSocket true (send s) (recv s) (id s) (remote s) (local s)).

(** The [select] of [Close] takes its default case when the socket is open. *)
Definition Close_default (s : Socket) : bool := negb (closed s).

Definition Close (s : Socket) : outcome error Socket :=
  if Close_default s then chan_close s else Ret s.

(** ** Runs of one socket *)
Inductive event :=
| EAccept (m : Message) (r : outcome error unit)
| ESend (m : Message) (r : outcome error unit)
| ERecv (r : outcome error Message)
| EProcess (r : outcome error Message)
| EClose.

Definition step (s : Socket) (e : event) (s' : Socket) : Prop :=
  match e with
  | EAccept m r => (r, s') ∈ Accept s m
  | ESend m r => (r, s') ∈ Send s m
  | ERecv r => (r, s') ∈ Recv s
  | EProcess r => (r, s') ∈ Process s
  | EClose => Close s = Ret s'
  end.

Inductive run (i : string) : list event -> Socket -> Prop :=
| run_New : run i [] (New i)
| run_step es s e s' : run i es s -> step s e s' -> run i (es ++ [e]) s'.

(** The messages each side put in and took out, in order. *)
Definition accepted : list event -> list Message :=
  omap (fun e => match e with EAccept m (Ret _) => Some m | _ => None end).
Definition sent : list event -> list Message :=
  omap (fun e => match e with ESend m (Ret _) => Some m | _ => None end).
Definition received : list event -> list Message :=
  omap (fun e => match e with ERecv (Ret m) => Some m | _ => None end).
Definition processed : list event -> list Message :=
  omap (fun e => match e with EProcess (Ret m) => Some m | _ => None end).

Definition is_close (e : event) : Prop := match e with EClose => True | _ => False end.

Record fifo (es : list event) (s : Socket) : Prop := {
  fifo_recv : accepted es = received es ++ recv s;
  fifo_send : sent es = processed es ++ send s;
  fifo_cap : length (recv s) <= chan_cap /\ length (send s) <= chan_cap;
  fifo_closed : closed s = true <-> Exists is_close es;
}.

Lemma elem_of_on_closed {A} s (a b : A) : a ∈ on_closed s b <-> closed s = true /\ a = b.
Proof. unfold on_closed. destruct (closed s); set_solver. Qed.

Lemma Accept_cases s m r s' :
  (r, s') ∈ Accept s m <->
  can_push (recv s) = true /\ r = Ret () /\ s' = set_recv s (recv s ++ [m]) \/
  closed s = true /\ r = Fail EOF /\ s' = s.
Proof.
  unfold Accept. rewrite elem_of_app, elem_of_on_closed. destruct (can_push (recv s)); set_solver.
Qed.

Lemma Send_cases s m r s' :
  (r, s') ∈ Send s m <->
  can_push (send s) = true /\ r = Ret () /\ s' = set_send s (send s ++ [m]) \/
  closed s = true /\ r = Fail EOF /\ s' = s.
Proof.
  unfold Send. rewrite elem_of_app, elem_of_on_closed. destruct (can_push (send s)); set_solver.
Qed.

Lemma Recv_cases s r s' :
  (r, s') ∈ Recv s <->
  (exists m q, recv s = m :: q /\ r = Ret m /\ s' = set_recv s q) \/
  closed s = true /\ r = Fail EOF /\ s' = s.
Proof. unfold Recv. rewrite elem_of_app, elem_of_on_closed. destruct (recv s); set_solver. Qed.

Lemma Process_cases s r s' :
  (r, s') ∈ Process s <->
  (exists m q, send s = m :: q /\ r = Ret m /\ s' = set_send s q) \/
  send s = [] /\ closed s = true /\ r = Fail EOF /\ s' = s.
Proof.
  unfold Process, take_send. rewrite elem_of_app. destruct (closed s), (send s); set_solver.
Qed.

Lemma Close_total s : exists s', Close s = Ret s' /\ closed s' = true /\
  send s' = send s /\ recv s' = recv s /\ id s' = id s.
Proof.
  unfold Close, Close_default, chan_close. destruct (closed s) eqn:Hc; cbn; by eexists.
Qed.

Lemma push_cap (q : list Message) m : can_push q = true -> length (q ++ [m]) <= chan_cap.
Proof. unfold can_push. rewrite length_app. intros ?%Nat.ltb_lt. cbn. lia. Qed.

Lemma fifo_step es s e s' : fifo es s -> step s e s' -> fifo (es ++ [e]) s'.
Proof.
  intros [Hr Hs [Hcr Hcs] Hc] He.
  assert (accepted (es ++ [e]) = (received es ++ recv s) ++ accepted [e]) as Ha
    by (rewrite <- Hr; apply omap_app).
  assert (received (es ++ [e]) = received es ++ received [e]) as Hre by apply omap_app.
  assert (sent (es ++ [e]) = (processed es ++ send s) ++ sent [e]) as Hse
    by (rewrite <- Hs; apply omap_app).
  assert (processed (es ++ [e]) = processed es ++ processed [e]) as Hpe by apply omap_app.
  assert (Exists is_close (es ++ [e]) <-> closed s = true \/ is_close e) as Hcl
    by (rewrite Hc, Exists_app, Exists_cons, Exists_nil; tauto).
  destruct e; cbn in He; [apply Accept_cases in He|apply Send_cases in He|apply Recv_cases in He
    |apply Process_cases in He|destruct (Close_total s) as (s1 & HC & Hd & Hs1 & Hr1 & _)];
    [destruct He as [(Hp & -> & ->)|(Hd & -> & ->)]..
    |destruct He as [(m & q & Hq & -> & ->)|(Hd & -> & ->)]
    |destruct He as [(m & q & Hq & -> & ->)|(Hq & Hd & -> & ->)]|rewrite He in HC; simplify_eq];
    split; rewrite ?Ha, ?Hre, ?Hse, ?Hpe, ?Hcl; cbn;
    rewrite ?Hs1, ?Hr1, ?app_nil_r, <- ?app_assoc; try rewrite Hq in *; cbn in *;
    try done; try tauto; try (split; eauto using push_cap; done || lia).
Qed.

Lemma run_fifo i es s : run i es s -> fifo es s.
Proof.
  induction 1 as [|es s e s' _ IH Hs]; [|by eapply fifo_step].
  split; cbn; [done|done|split; lia|]. by rewrite Exists_nil.
Qed.

(** Putting into a buffer blocks when it is full and the socket open. *)
Lemma Accept_blocks s m : Accept s m = [] <-> can_push (recv s) = false /\ closed s = false.
Proof. unfold Accept, on_closed. destruct (can_push (recv s)), (closed s); naive_solver. Qed.

Lemma Send_blocks s m : Send s m = [] <-> can_push (send s) = false /\ closed s = false.
Proof. unfold Send, on_closed. destruct (can_push (send s)), (closed s); naive_solver. Qed.

Lemma Recv_blocks s : Recv s = [] <-> recv s = [] /\ closed s = false.
Proof. unfold Recv, on_closed. destruct (recv s), (closed s); naive_solver. Qed.

Lemma Process_blocks s : Process s = [] <-> send s = [] /\ closed s = false.
Proof. unfold Process, take_send. destruct (send s), (closed s); naive_solver. Qed.

(** A buffer in the terms of a history. *)
Lemma pending_nil (l q : list Message) : q = [] <-> l ++ q = l.
Proof. split; [intros ->; apply app_nil_r|]. intros H%(f_equal length). rewrite length_app in H. apply nil_length_inv. lia. Qed.

Lemma pending_full (l q : list Message) :
  length q <= chan_cap -> (can_push q = false <-> length (l ++ q) = length l + chan_cap).
Proof. intros Hq. unfold can_push. rewrite Nat.ltb_ge, length_app. lia. Qed.

(** C13: in every run of a socket, whichever ready case each [select] picked, the
    messages [Recv] returned are the accepted ones in order, without loss or
    duplication, up to those still buffered, and likewise for [Process] and
    [Send]; a buffer never holds more than 128 messages. [Accept], [Send] and [Recv]
    may report the end of the stream exactly when the socket was closed, [Recv] also
    with messages still pending; [Process] reports it exactly when the socket was
    closed and everything sent has been processed. On an open socket [Accept] and
    [Send] block exactly when 128 messages are buffered, [Recv] and [Process] exactly
    when none is; on a closed one nothing blocks. *)
Theorem Socket_fifo i es s :
  run i es s ->
  accepted es = received es ++ recv s /\ sent es = processed es ++ send s /\
  length (recv s) <= chan_cap /\ length (send s) <= chan_cap /\
  (forall m s', (Fail EOF, s') ∈ Accept s m <-> s' = s /\ Exists is_close es) /\
  (forall m s', (Fail EOF, s') ∈ Send s m <-> s' = s /\ Exists is_close es) /\
  (forall s', (Fail EOF, s') ∈ Recv s <-> s' = s /\ Exists is_close es) /\
  (forall s', (Fail EOF, s') ∈ Process s <->
     s' = s /\ Exists is_close es /\ sent es = processed es) /\
  (forall m, Accept s m = [] <-> length (accepted es) = length (received es) + chan_cap /\ ~ Exists is_close es) /\
  (forall m, Send s m = [] <-> length (sent es) = length (processed es) + chan_cap /\ ~ Exists is_close es) /\
  (Recv s = [] <-> accepted es = received es /\ ~ Exists is_close es) /\
  (Process s = [] <-> sent es = processed es /\ ~ Exists is_close es).
Proof.
  intros [Hr Hs [Hcr Hcs] Hc]%run_fifo.
  assert (closed s = false <-> ~ Exists is_close es) as Hnc by (rewrite <- Hc; destruct (closed s); naive_solver).
  split_and!; try done.
  - intros m s'. rewrite Accept_cases, <- Hc. naive_solver.
  - intros m s'. rewrite Send_cases, <- Hc. naive_solver.
  - intros s'. rewrite Recv_cases, <- Hc. naive_solver.
  - intros s'. rewrite Process_cases, <- Hc, Hs, <- pending_nil. naive_solver.
  - intros m. by rewrite Accept_blocks, Hnc, Hr, <- pending_full.
  - intros m. by rewrite Send_blocks, Hnc, Hs, <- pending_full.
  - by rewrite Recv_blocks, Hnc, Hr, <- pending_nil.
  - by rewrite Process_blocks, Hnc, Hs, <- pending_nil.
Qed.

(** Two concurrent calls of [Close] may both take the default case; the second
    [close] then panics. *)
Lemma Close_race s :
  closed s = false ->
  Close_default s = true /\
  exists s', chan_close s = Ret s' /\ Close_default s = true /\ chan_close s' = Panic.
Proof.
  intros Hc. unfold Close_default, chan_close. rewrite Hc. split; [done|].
  eexists. split_and!; reflexivity.
Qed.

(** ** The pool

    Sockets are shared by reference: [heap] holds them by their address, and the
    pool maps identifiers to addresses. *)
Record Pool := mkPool { pool : gmap string nat; heap : list Socket }.

Definition NewPool : Pool := mkPool ∅ [].

(** The section under the read lock. *)
Definition get_read (p : Pool) (i : string) : option nat := pool p !! i.

(** The section under the write lock: the lookup again, then the new socket. *)
Definition get_write (p : Pool) (i : string) : Pool * nat * bool :=
  match pool p !! i with
  | Some a => (p, a, true)
  | None =>
      let a := length (heap p) in
      (mkPool (<[i := a]> (pool p)) (heap p ++ [New i]), a, false)
  end.

Definition close_at (p : Pool) (a : nat) : outcome error Pool :=
  match heap p !! a with
  | Some s => s' <-! Close s; Ret (mkPool (pool p) (<[a := s']> (heap p)))
  | None => Panic
  end.

Definition Release (p : Pool) (a : nat) : outcome error Pool :=
  match heap p !! a with
  | Some s => p <-! close_at p a; Ret (mkPool (delete (id s) (pool p)) (heap p))
  | None => Panic
  end.

Definition Pool_Close (o : map_order) (p : Pool) : outcome error Pool :=
  foldl (fun m '(i, a) => p <-! m; p <-! close_at p a; Ret (mkPool (delete i (pool p)) (heap p)))
    (Ret p) (map_range o (pool p)).

(** A goroutine inside [Get]: about to read, about to write, or returned. *)
Inductive getter :=
| Reading (i : string)
| Writing (i : string)
| Done (i : string) (a : nat) (ok : bool).

Definition getter_step (p : Pool) (g : getter) : Pool * getter :=
  match g with
  | Reading i =>
      match get_read p i with Some a => (p, Done i a true) | None => (p, Writing i) end
  | Writing i => let '(p, a, ok) := get_write p i in (p, Done i a ok)
  | Done _ _ _ => (p, g)
  end.

(** The scheduler runs the goroutines in any order: a schedule lists whose turn
    it is. *)
Definition sched_step (w : Pool * list getter) (n : nat) : Pool * list getter :=
  match w.2 !! n with
  | Some g => let '(p, g) := getter_step w.1 g in (p, <[n := g]> w.2)
  | None => w
  end.

Definition sched (w : Pool * list getter) (ns : list nat) : Pool * list getter :=
  foldl sched_step w ns.

#[export] Instance getter_eq_dec : EqDecision getter.
Proof. solve_decision. Defined.

Definition creates (i : string) (g : getter) : Prop :=
  match g with Done j _ ok => j = i /\ ok = false | _ => False end.

#[export] Instance creates_dec i g : Decision (creates i g).
Proof. destruct g; cbn; apply _. Defined.

Definition creators (i : string) (gs : list getter) : list getter := filter (creates i) gs.

Lemma length_filter_insert {A} (P : A -> Prop) `{forall x, Decision (P x)} (l : list A) n x y :
  l !! n = Some x ->
  length (filter P (<[n := y]> l)) + (if decide (P x) then 1 else 0) =
  length (filter P l) + (if decide (P y) then 1 else 0).
Proof.
  intros Hn. rewrite insert_take_drop by (by eapply lookup_lt_Some).
  rewrite <- (take_drop_middle l n x Hn) at 3.
  rewrite !filter_app, !length_app, !filter_cons.
  destruct (decide (P x)), (decide (P y)); cbn; lia.
Qed.

(** What holds of an identifier at every moment of a schedule. *)
Definition get_inv (i : string) (p0 : Pool) (w : Pool * list getter) : Prop :=
  (forall a ok, Done i a ok ∈ w.2 -> pool w.1 !! i = Some a) /\
  length (creators i w.2) =
    match pool p0 !! i, pool w.1 !! i with None, Some _ => 1 | _, _ => 0 end /\
  (forall a, pool p0 !! i = Some a -> pool w.1 !! i = Some a).

Lemma getter_step_done i p g p' g' :
  getter_step p g = (p', g') ->
  (forall a, pool p !! i = Some a -> pool p' !! i = Some a) /\
  (forall a ok, g' = Done i a ok -> g <> g' -> pool p' !! i = Some a) /\
  (if decide (creates i g') then 1 else 0) + match pool p !! i with Some _ => 1 | None => 0 end =
  (if decide (creates i g) then 1 else 0) + match pool p' !! i with Some _ => 1 | None => 0 end.
Proof.
  destruct g as [j|j|j b ok]; cbn; unfold get_read, get_write; [| |by intros [= <- <-]].
  - destruct (pool p !! j) eqn:Hj; intros [= <- <-]; split_and!; try done; [congruence|..];
      by do 2 rewrite decide_False by (cbn; intuition congruence).
  - destruct (pool p !! j) eqn:Hj; intros [= <- <-]; split_and!; try done; [congruence|..].
    + by do 2 rewrite decide_False by (cbn; intuition congruence).
    + intros a Ha. cbn. rewrite lookup_insert_ne; [done|congruence].
    + intros a ok [= -> <- <-] _. by apply lookup_insert_eq.
    + rewrite (decide_False (P := creates i (Writing j))) by (cbn; tauto). cbn [pool].
      destruct (decide (j = i)) as [->|Hne].
      * rewrite decide_True by done. by rewrite Hj, lookup_insert_eq.
      * rewrite decide_False by (cbn; tauto). by rewrite lookup_insert_ne.
Qed.

Lemma get_inv_step i p0 w n : get_inv i p0 w -> get_inv i p0 (sched_step w n).
Proof.
  intros (Hd & Hc & Hk). unfold sched_step. destruct (w.2 !! n) as [g|] eqn:Hn; [|done].
  destruct (getter_step w.1 g) as [p' g'] eqn:Hg. unfold get_inv. cbn.
  apply (getter_step_done i) in Hg as (Hmono & Hnew & Hcnt).
  pose proof (length_filter_insert (creates i) w.2 n g g' Hn) as Hlen. unfold creators in *.
  split_and!.
  - intros a ok Hin. apply list_elem_of_lookup in Hin as [m Hm].
    apply list_lookup_insert_Some in Hm as [(-> & Heq & _)|[_ Hm]].
    + destruct (decide (g = g')) as [Hgg|Hgg]; [|by apply (Hnew a ok)].
      apply Hmono, (Hd a ok). rewrite <- Heq, <- Hgg. by eapply list_elem_of_lookup_2.
    + apply Hmono, (Hd a ok). by eapply list_elem_of_lookup_2.
  - destruct (pool p0 !! i) as [a0|] eqn:H0.
    + specialize (Hk a0 eq_refl). rewrite Hk in Hcnt. rewrite (Hmono _ Hk) in Hcnt. lia.
    + destruct (pool w.1 !! i), (pool p' !! i); lia.
  - intros a Ha. by apply Hmono, Hk.
Qed.

Definition turns_left (g : getter) : nat :=
  match g with Reading _ => 2 | Writing _ => 1 | Done _ _ _ => 0 end.

Lemma getter_step_turns p g : turns_left (getter_step p g).2 <= pred (turns_left g).
Proof.
  destruct g; cbn; unfold get_read, get_write; repeat case_match; simplify_eq/=; lia.
Qed.

Lemma sched_turns w ns n g :
  w.2 !! n = Some g ->
  exists g', (sched w ns).2 !! n = Some g' /\
    turns_left g' <= turns_left g - length (filter (fun m => m = n) ns).
Proof.
  revert w g. induction ns as [|m ns IH]; intros w g Hg; cbn [sched foldl].
  - exists g. split; [done|]. cbn. lia.
  - assert (exists g1, (sched_step w m).2 !! n = Some g1 /\
      turns_left g1 <= turns_left g - (if decide (m = n) then 1 else 0)) as (g1 & Hg1 & Ht1).
    { unfold sched_step. destruct (w.2 !! m) as [gm|] eqn:Hm.
      - pose proof (getter_step_turns w.1 gm) as Ht.
        destruct (getter_step w.1 gm) as [p' g'] eqn:Hs. cbn in *.
        destruct (decide (m = n)) as [->|Hne].
        + exists g'. rewrite list_lookup_insert_eq by (eapply lookup_lt_Some; exact Hm).
          split; [done|]. simplify_eq. lia.
        + exists g. rewrite list_lookup_insert_ne by done. split; [done|lia].
      - exists g. split; [done|]. rewrite decide_False by congruence. lia. }
    apply IH in Hg1 as (g' & Hg' & Ht'). exists g'. split; [exact Hg'|].
    rewrite filter_cons. destruct (decide (m = n)); cbn; lia.
Qed.

(** However the goroutines that call [Get] interleave between its two
    critical sections, all of those that have returned for one identifier got
    the same socket, the one in the pool; exactly one of them was told that it
    created it when the pool had none (nobody otherwise); a socket that was in
    the pool stays there; and a goroutine returns in at most two turns. *)
Theorem Get_creates_once p0 ids ns i :
  let w := sched (p0, Reading <$> ids) ns in
  get_inv i p0 w /\
  forall n, n < length ids -> 2 <= length (filter (fun m => m = n) ns) ->
    exists j a ok, w.2 !! n = Some (Done j a ok).
Proof.
  cbn. split.
  - assert (forall w, get_inv i p0 w -> get_inv i p0 (sched w ns)) as H.
    { unfold sched. induction ns as [|n ns IH]; intros w Hw; cbn; [done|].
      by apply IH, get_inv_step. }
    apply H. unfold get_inv. cbn [fst snd]. split_and!; [| |done].
    + intros a ok (j & ? & _)%list_elem_of_fmap. done.
    + assert (creators i (Reading <$> ids) = []) as ->.
      { unfold creators. induction ids as [|j ids IH]; [done|].
        rewrite fmap_cons, filter_cons_False; [exact IH|by intros []]. }
      by destruct (pool p0 !! i).
  - intros n Hn Hc. destruct (lookup_lt_is_Some_2 ids n Hn) as [j Hj].
    destruct (sched_turns (p0, Reading <$> ids) ns n (Reading j)) as (g & Hg & Ht).
    { cbn. by rewrite list_lookup_fmap, Hj. }
    cbn [turns_left] in Ht. destruct g as [| |j' a ok]; cbn in Ht; [lia|lia|]. by exists j', a, ok.
Qed.

(** Every pooled address is that of a socket with the identifier. *)
Definition pool_ok (p : Pool) : Prop :=
  forall i a, pool p !! i = Some a -> exists s, heap p !! a = Some s /\ id s = i.

(** The heap after closing the sockets at the addresses that satisfy [P]. *)
Definition closed_on (P : nat -> Prop) (h h' : list Socket) : Prop :=
  length h' = length h /\
  forall a s, h !! a = Some s -> exists s', h' !! a = Some s' /\ id s' = id s /\
    send s' = send s /\ recv s' = recv s /\ (P a -> closed s' = true) /\
    (closed s = true -> closed s' = true) /\ (~ P a -> s' = s).

Lemma close_at_ok p a s :
  heap p !! a = Some s ->
  exists p', close_at p a = Ret p' /\ pool p' = pool p /\ closed_on (eq a) (heap p) (heap p').
Proof.
  intros Ha. unfold close_at. rewrite Ha.
  destruct (Close_total s) as (s' & Hs & Hc & Hse & Hre & Hid). rewrite Hs. cbn.
  eexists. split_and!; [done|done|]. cbn. split; [by rewrite length_insert|].
  intros b t Hb. destruct (decide (a = b)) as [<-|Hne].
  - exists s'. rewrite list_lookup_insert_eq by (eapply lookup_lt_Some; exact Ha).
    rewrite Ha in Hb. simplify_eq. done.
  - exists t. rewrite list_lookup_insert_ne by done. naive_solver.
Qed.

Lemma closed_on_trans P Q h1 h2 h3 :
  closed_on P h1 h2 -> closed_on Q h2 h3 -> closed_on (fun a => P a \/ Q a) h1 h3.
Proof.
  intros [L1 H1] [L2 H2]. split; [congruence|]. intros a s Hs.
  destruct (H1 a s Hs) as (s2 & Hs2 & ? & ? & ? & ? & ? & ?).
  destruct (H2 a s2 Hs2) as (s3 & Hs3 & ? & ? & ? & ? & ? & Hn).
  exists s3. split_and!; [done|congruence|congruence|congruence|naive_solver|naive_solver|].
  intros HPQ. rewrite Hn by tauto. naive_solver.
Qed.

Lemma closed_on_iff P Q h h' : (forall a, P a <-> Q a) -> closed_on P h h' -> closed_on Q h h'.
Proof.
  intros HPQ [L H]. split; [done|]. intros a s Hs.
  destruct (H a s Hs) as (s' & ?). exists s'. rewrite <- (HPQ a). done.
Qed.

Lemma pool_ok_heap p m h' P :
  closed_on P (heap p) h' -> (forall i a, m !! i = Some a -> pool p !! i = Some a) ->
  pool_ok p -> pool_ok (mkPool m h').
Proof.
  intros [_ H] Hm Hp i a Hi. cbn in *. destruct (Hp i a (Hm i a Hi)) as (s & Hs & <-).
  destruct (H a s Hs) as (s' & Hs' & Hid & _). by exists s'.
Qed.

Lemma get_write_ok p i p' a ok : pool_ok p -> get_write p i = (p', a, ok) -> pool_ok p'.
Proof.
  intros Hp. unfold get_write. destruct (pool p !! i) eqn:Hi; intros [= <- <- <-]; [done|].
  intros j b. cbn. rewrite lookup_insert_Some. intros [[<- <-]|[_ Hj]].
  - exists (New i). by rewrite lookup_app_r, Nat.sub_diag by lia.
  - destruct (Hp j b Hj) as (s & Hs & Hid). exists s. split; [|done].
    by apply lookup_app_l_Some.
Qed.

(** Releasing a socket never fails: it closes that socket and no other, and
    takes its identifier out of the pool, also when the pool holds another socket
    under it by now (which then stays open, reachable by its holders only). *)
Theorem Release_spec p a s :
  pool_ok p -> heap p !! a = Some s ->
  exists p', Release p a = Ret p' /\ pool_ok p' /\ pool p' = delete (id s) (pool p) /\
    closed_on (eq a) (heap p) (heap p') /\
    (forall b, b <> a -> pool p !! id s = Some b -> heap p' !! b = heap p !! b).
Proof.
  intros Hp Ha. unfold Release. rewrite Ha.
  destruct (close_at_ok p a s Ha) as (p1 & -> & Hpool & Hcl). cbn.
  eexists. split_and!; [done| |by rewrite Hpool|done|].
  - eapply pool_ok_heap; [exact Hcl| |done]. rewrite Hpool.
    by intros j b [_ Hj]%lookup_delete_Some.
  - intros b Hb Hi. cbn. destruct (Hp _ _ Hi) as (t & Ht & _). destruct Hcl as [_ Hcl].
    destruct (Hcl b t Ht) as (t' & -> & _ & _ & _ & _ & _ & Hn). by rewrite Ht, Hn.
Qed.

(** Closing the pool never fails, closes exactly the pooled sockets, in
    whatever order the runtime visits them, and leaves the pool empty. *)
Theorem Pool_Close_spec o p :
  pool_ok p ->
  exists p', Pool_Close o p = Ret p' /\ pool p' = ∅ /\
    closed_on (fun a => exists i, pool p !! i = Some a) (heap p) (heap p').
Proof.
  intros Hp. unfold Pool_Close.
  assert (forall l q, (forall i a, (i, a) ∈ l -> exists s, heap q !! a = Some s) ->
    exists q', foldl (fun m '(i, a) => p <-! m; p <-! close_at p a;
        Ret (mkPool (delete i (pool p)) (heap p))) (Ret q) l = Ret q' /\
      pool q' = foldl (fun m e => delete e.1 m) (pool q) l /\
      closed_on (fun a => exists i, (i, a) ∈ l) (heap q) (heap q')) as H.
  { induction l as [|[i a] l IH]; intros q Hq; cbn.
    - exists q. split_and!; [done|done|]. split; [done|]. intros a s Hs. exists s.
      split_and!; try done. by intros [i Hi%not_elem_of_nil].
    - destruct (Hq i a) as [s Hs]; [left|].
      destruct (close_at_ok q a s Hs) as (q1 & -> & Hpool & Hcl). cbn.
      destruct (IH (mkPool (delete i (pool q1)) (heap q1))) as (q' & -> & Hpool' & Hcl').
      { intros j b Hj. cbn. destruct (Hq j b) as [t Ht]; [by right|].
        destruct Hcl as [_ Hcl]. destruct (Hcl b t Ht) as (t' & Ht' & _). by exists t'. }
      exists q'. split_and!; [done|by rewrite Hpool', <- Hpool|].
      eapply closed_on_iff; [|exact (closed_on_trans _ _ _ _ _ Hcl Hcl')].
      intros b. split.
      + intros [<-|[j Hj]]; [exists i; left|exists j; by right].
      + intros [j [Hj|Hj]%elem_of_cons]; [left; congruence|right; by exists j]. }
  destruct (H (map_range o (pool p)) p) as (p' & -> & Hpool & Hcl).
  { intros i a Hi%elem_of_map_range. destruct (Hp i a Hi) as (s & Hs & _). by exists s. }
  exists p'. split_and!; [done| |].
  - rewrite Hpool. apply foldl_delete_all.
  - eapply closed_on_iff; [|exact Hcl]. intros a. split; intros [i Hi]; exists i;
      by apply (elem_of_map_range o).
Qed.

End socket.
Arguments Socket : clear implicits.
Arguments Pool : clear implicits.
Arguments event : clear implicits.

(** A run in which [Recv] drops an accepted message after the close. *)
Definition run_ex : list (event nat) :=
  [EAccept 7 (Ret ()); ESend 8 (Ret ()); EClose; EProcess (Ret 8); ERecv (Fail EOF);
   EProcess (Fail EOF)].

Definition closed_ex : Socket nat := mkSocket true [] [7] "s" "remote" "local".

Ltac run_one es s e := apply (run_step "s" es s e); [|by apply list_elem_of_In; cbn; tauto].

Lemma run_ex_run : run "s" run_ex closed_ex.
Proof.
  set (s0 := mkSocket false [8] [7] "s" "remote" "local").
  run_one [EAccept 7 (Ret ()); ESend 8 (Ret ()); EClose; EProcess (Ret 8); ERecv (Fail EOF)]
    closed_ex (EProcess (Message:=nat) (Fail EOF)).
  run_one [EAccept 7 (Ret ()); ESend 8 (Ret ()); EClose; EProcess (Ret 8)]
    closed_ex (ERecv (Message:=nat) (Fail EOF)).
  run_one [EAccept 7 (Ret ()); ESend 8 (Ret ()); EClose]
    (mkSocket true [8] [7] "s" "remote" "local") (EProcess (Ret 8)).
  apply (run_step "s" [EAccept 7 (Ret ()); ESend 8 (Ret ())] s0 EClose); [|reflexivity].
  run_one [EAccept 7 (Ret ())] (mkSocket false [] [7] "s" "remote" "local") (ESend 8 (Ret ())).
  run_one (@nil (event nat)) (New (Message:=nat) "s") (EAccept 7 (Ret ())).
  apply run_New.
Qed.

Lemma Socket_fifo_witness :
  accepted run_ex = [7] /\ received run_ex = [] /\
  accepted run_ex = received run_ex ++ recv closed_ex.
Proof.
  split_and!; [reflexivity|reflexivity|]. exact (proj1 (Socket_fifo "s" run_ex closed_ex run_ex_run)).
Defined.

Definition pool_ex : Pool nat := mkPool {["s" := 0%nat]} [New "s"].

Lemma pool_ex_ok : pool_ok pool_ex.
Proof. intros i a Hi. cbn in Hi. apply lookup_singleton_Some in Hi as [<- <-]. by eexists. Qed.

Lemma Release_spec_witness :
  exists p', Release pool_ex 0 = Ret p' /\ pool p' = ∅.
Proof.
  destruct (Release_spec pool_ex 0 (New "s") pool_ex_ok eq_refl) as (p' & Hr & _ & Hp & _).
  exists p'. split; [exact Hr|]. rewrite Hp. reflexivity.
Defined.

Lemma Pool_Close_spec_witness :
  exists p', Pool_Close order_rev pool_ex = Ret p' /\ pool p' = ∅.
Proof.
  destruct (Pool_Close_spec order_rev pool_ex pool_ex_ok) as (p' & Hr & Hp & _).
  exists p'. split; [exact Hr|exact Hp].
Defined.
