(* ===== verification/Errors.v ===== *)
(** * RPC errors: [errors/errors.go]

    A Go [error] is here [option error]: [None] is nil. A [*Error] of the package
    is [Micro]; any other error is [Other], with the pointer that identifies it,
    its message and the error it wraps. [encoding/json] is the pair of functions
    of [JSON]: what [Error()] prints, and what decoding a message leaves in a
    fresh [Error] with whether it succeeded (a message of the right syntax with a
    field of the wrong type fails after other fields were set). *)
From S2P Require Import Prelude GoStrings.

Record Error := mkError { Id : string; Code : Z; Detail : string; Status : string }.

#[export] Instance Error_eq_dec : EqDecision Error.
Proof. solve_decision. Defined.

#[warnings="-register-all"]
Inductive error :=
| Micro (e : Error)
| Other (ptr : nat) (msg : string) (wraps : option error).

(** [net/http.StatusText] *)
Definition status_table : list (Z * string) := [
  (100, "Continue"); (101, "Switching Protocols"); (102, "Processing"); (103, "Early Hints");
  (200, "OK"); (201, "Created"); (202, "Accepted"); (203, "Non-Authoritative Information");
  (204, "No Content"); (205, "Reset Content"); (206, "Partial Content"); (207, "Multi-Status");
  (208, "Already Reported"); (226, "IM Used"); (300, "Multiple Choices");
  (301, "Moved Permanently"); (302, "Found"); (303, "See Other"); (304, "Not Modified");
  (305, "Use Proxy"); (307, "Temporary Redirect"); (308, "Permanent Redirect");
  (400, "Bad Request"); (401, "Unauthorized"); (402, "Payment Required"); (403, "Forbidden");
  (404, "Not Found"); (405, "Method Not Allowed"); (406, "Not Acceptable");
  (407, "Proxy Authentication Required"); (408, "Request Timeout"); (409, "Conflict");
  (410, "Gone"); (411, "Length Required"); (412, "Precondition Failed");
  (413, "Request Entity Too Large"); (414, "Request URI Too Long");
  (415, "Unsupported Media Type"); (416, "Requested Range Not Satisfiable");
  (417, "Expectation Failed"); (418, "I'm a teapot"); (421, "Misdirected Request");
  (422, "Unprocessable Entity"); (423, "Locked"); (424, "Failed Dependency");
  (425, "Too Early"); (426, "Upgrade Required"); (428, "Precondition Required");
  (429, "Too Many Requests"); (431, "Request Header Fields Too Large");
  (451, "Unavailable For Legal Reasons"); (500, "Internal Server Error");
  (501, "Not Implemented"); (502, "Bad Gateway"); (503, "Service Unavailable");
  (504, "Gateway Timeout"); (505, "HTTP Version Not Supported");
  (506, "Variant Also Negotiates"); (507, "Insufficient Storage"); (508, "Loop Detected");
  (510, "Not Extended"); (511, "Network Authentication Required")]%Z.

Definition StatusText (code : Z) : string :=
  match list_find (fun e => e.1 = code) status_table with
  | Some (_, (_, text)) => text
  | None => ""
  end.

(** ** Constructors ([detail] is the formatted detail) *)
Definition New (id detail : string) (code : Z) : error :=
  Micro (mkError id code detail (StatusText code)).

Definition BadRequest (id detail : string) : error := Micro (mkError id 400 detail (StatusText 400)).
Definition Unauthorized (id detail : string) : error := Micro (mkError id 401 detail (StatusText 401)).
Definition Forbidden (id detail : string) : error := Micro (mkError id 403 detail (StatusText 403)).
Definition NotFound (id detail : string) : error := Micro (mkError id 404 detail (StatusText 404)).
Definition MethodNotAllowed (id detail : string) : error :=
  Micro (mkError id 405 detail (StatusText 405)).
Definition Timeout (id detail : string) : error := Micro (mkError id 408 detail (StatusText 408)).
Definition Conflict (id detail : string) : error := Micro (mkError id 409 detail (StatusText 409)).
Definition InternalServerError (id detail : string) : error :=
  Micro (mkError id 500 detail (StatusText 500)).

(** ** The JSON form *)
Class JSON := {
  Marshal : Error -> string;
  Unmarshal : string -> Error * bool;
}.

(** What the client relies on: an encoded error decodes without failure to one
    with the same code. *)
Class JSONLaws `{JSON} := {
  unmarshal_code e : Code (Unmarshal (Marshal e)).1 = Code e /\ (Unmarshal (Marshal e)).2 = true;
}.

Section json.
Context `{JSON}.

Definition Error_Error (e : Error) : string := Marshal e.

(** [err.Error()] *)
Definition error_string (e : error) : string :=
  match e with Micro e => Error_Error e | Other _ msg _ => msg end.

Definition Parse (err : string) : Error :=
  let '(e, ok) := Unmarshal err in
  if ok : bool then e else mkError (Id e) (Code e) err (Status e).

(** [==] on the errors that are not [*Error]s compares pointers. *)
Definition Equal (err1 err2 : option error) : bool :=
  match err1, err2 with
  | Some (Micro verr1), Some (Micro verr2) => (Code verr1 =? Code verr2)%Z
  | Some (Micro _), _ | _, Some (Micro _) => false
  | Some (Other p _ _), Some (Other q _ _) => Nat.eqb p q
  | None, None => true
  | _, _ => false
  end.

Definition FromError (err : option error) : option Error :=
  match err with
  | None => None
  | Some (Micro verr) => Some verr
  | Some e => Some (Parse (error_string e))
  end.

Fixpoint find_micro (err : error) : option Error :=
  match err with
  | Micro e => Some e
  | Other _ _ (Some err) => find_micro err
  | Other _ _ None => None
  end.

Definition As (err : option error) : option Error :=
  match err with None => None | Some err => find_micro err end.

(** ** Collections of errors *)
Record MultiError := mkMultiError { Errors : list Error }.

Definition NewMultiError : MultiError := mkMultiError [].

Definition Append (e : MultiError) (err : list Error) : MultiError := mkMultiError (Errors e ++ err).

Definition HasErrors (e : MultiError) : bool := (0 <? length (Errors e))%nat.

Lemma Equal_refl e : Equal e e = true.
Proof. destruct e as [[e|p m w]|]; cbn; [apply Z.eqb_refl|apply Nat.eqb_refl|done]. Qed.

Lemma Equal_sym e1 e2 : Equal e1 e2 = Equal e2 e1.
Proof.
  destruct e1 as [[]|], e2 as [[]|]; cbn; try done; [apply Z.eqb_sym|apply Nat.eqb_sym].
Qed.

Lemma Equal_trans e1 e2 e3 : Equal e1 e2 = true -> Equal e2 e3 = true -> Equal e1 e3 = true.
Proof.
  destruct e1 as [[]|], e2 as [[]|], e3 as [[]|]; cbn; try done.
  - by intros ->%Z.eqb_eq.
  - by intros ->%Nat.eqb_eq.
Qed.

Context `{!JSONLaws}.

(** The code of a package error survives its printed form. *)
Lemma Parse_code e : Code (Parse (Error_Error e)) = Code e.
Proof.
  unfold Parse, Error_Error. destruct (unmarshal_code e) as [Hc Ho].
  destruct (Unmarshal (Marshal e)) as [e' ok]; cbn in *. by subst ok.
Qed.

Lemma FromError_code err e :
  err = Some (Micro e) -> FromError err = Some e /\ As err = Some e.
Proof. by intros ->. Qed.
End json.

(** ** A concrete coder: the code in unary after its sign *)
Fixpoint unary (n : nat) : string := match n with O => "" | S n => "1" +:+ unary n end.

Fixpoint count_ones (s : string) : option nat :=
  match s with
  | "" => Some 0
  | String a s => if Ascii.eqb a "1" then S <$> count_ones s else None
  end.

Definition decode_code (s : string) : option Z :=
  match s with
  | String "+" s => Z.of_nat <$> count_ones s
  | String "-" s => (fun n => - Z.of_nat n)%Z <$> count_ones s
  | _ => None
  end.

#[export] Instance unary_JSON : JSON := {|
  Marshal e := if (Code e <? 0)%Z then "-" +:+ unary (Z.to_nat (- Code e))
               else "+" +:+ unary (Z.to_nat (Code e));
  Unmarshal s := match decode_code s with
                 | Some code => (mkError "" code "" "", true)
                 | None => (mkError "" 0 "" "", false)
                 end;
|}.

Lemma count_ones_unary n : count_ones (unary n) = Some n.
Proof. induction n as [|n IH]; cbn; [done|]. by rewrite IH. Qed.

#[export] Instance unary_JSONLaws : JSONLaws.
Proof.
  constructor. intros e. cbn. destruct (Z.ltb_spec (Code e) 0); cbn; rewrite count_ones_unary; cbn;
    (split; [lia|done]).
Qed.
