(* ===== verification/Client.v ===== *)
(** * The RPC client's call loop: [client/rpc_client.go] ([next], [Call],
      [Stream]), [client/retry.go], [client/backoff.go], [client/options.go],
      [util/backoff/backoff.go], [util/net/net.go] ([Proxy])

    The selector, the backoff and retry functions and the call that a node
    receives act on a state [St] the client does not look into; the operations
    thread it and return the list of what they did ([action]). An attempt runs in
    a goroutine of its own while the loop waits for it or for the context:
    [race i] tells that the context won at attempt [i], and then nothing the
    abandoned attempt does is observed. *)
From S2P Require Import Prelude GoStrings Registry Selector Errors.

(** ** Backoff *)

(** [math.Pow(float64(attempts), math.E)] cut to an integer, for 0 to 13. *)
Definition pow_e : list Z :=
  [0; 1; 6; 19; 43; 79; 130; 198; 285; 392; 522; 677; 858; 1066]%Z.

Definition millisecond : Z := 1000000.
Definition second : Z := (1000 * millisecond)%Z.

(** [attempts] is not negative: the loops count up from 0. *)
Definition Do (attempts : Z) : Z :=
  if (13 <? attempts)%Z then (2 * 60 * second)%Z
  else (default 0 (pow_e !! Z.to_nat attempts) * millisecond * 100)%Z.

(** ** Proxies *)
Definition Proxy (Getenv : string -> string) (service : string) (address : list string) :
    string * list string * bool :=
  let prx := Getenv "MICRO_PROXY" in
  if (0 <? String.length prx)%nat then
    let '(prx, address) :=
      if String.eqb prx "service" then ("go.micro.proxy", []) else (prx, address) in
    let address :=
      if (1 <? length (split_char ":" prx))%nat then [prx] else address in
    (prx, address, true)
  else
    let '(service, hasProxy) :=
      let prx := Getenv "MICRO_NETWORK" in
      if (0 <? String.length prx)%nat
      then (if String.eqb prx "service" then "go.micro.network" else prx, true)
      else (service, false) in
    let prx := Getenv "MICRO_NETWORK_ADDRESS" in
    if (0 <? String.length prx)%nat then (service, [prx], true) else (service, address, hasProxy).

(** ** The client *)
Definition client_id : string := "go.micro.client".

Section client.
Context `{JSON} {St : Type}.

(** What the selector hands out: the next node, or one of its errors. *)
Definition NextFn : Type := St -> St * outcome (select_error error) Node.

Definition BackoffFunc : Type := St -> Z -> St * (Z * option error).
Definition RetryFunc : Type := St -> Z -> option error -> St * (bool * option error).
(** The request timeout it is given, the state, the node. *)
Definition CallFunc : Type := Z -> St -> Node -> St * option error.

(** [selector.Selector] as the client uses it. *)
Record SelectorI := mkSelectorI {
  sel_Select : string -> list SelectOption -> St -> St * outcome (select_error error) NextFn;
  sel_Mark : string -> Node -> option error -> St -> St;
}.

Record CallOptions := mkCallOptions {
  Backoff : BackoffFunc;
  Retry : RetryFunc;
  SelectOptions : list SelectOption;
  Address : list string;
  CallWrappers : list (CallFunc -> CallFunc);
  RequestTimeout : Z;
  Retries : Z;
}.

Definition CallOption : Type := CallOptions -> CallOptions.

Definition WithAddress (a : list string) : CallOption := fun o =>
  mkCallOptions (Backoff o) (Retry o) (SelectOptions o) a (CallWrappers o) (RequestTimeout o) (Retries o).
Definition WithSelectOption (so : list SelectOption) : CallOption := fun o =>
  mkCallOptions (Backoff o) (Retry o) (SelectOptions o ++ so) (Address o) (CallWrappers o)
    (RequestTimeout o) (Retries o).
Definition WithCallWrapper (cw : list (CallFunc -> CallFunc)) : CallOption := fun o =>
  mkCallOptions (Backoff o) (Retry o) (SelectOptions o) (Address o) (CallWrappers o ++ cw)
    (RequestTimeout o) (Retries o).
Definition WithBackoff (fn : BackoffFunc) : CallOption := fun o =>
  mkCallOptions fn (Retry o) (SelectOptions o) (Address o) (CallWrappers o) (RequestTimeout o) (Retries o).
Definition WithRetry (fn : RetryFunc) : CallOption := fun o =>
  mkCallOptions (Backoff o) fn (SelectOptions o) (Address o) (CallWrappers o) (RequestTimeout o) (Retries o).
Definition WithRetries (i : Z) : CallOption := fun o =>
  mkCallOptions (Backoff o) (Retry o) (SelectOptions o) (Address o) (CallWrappers o) (RequestTimeout o) i.
Definition WithRequestTimeout (d : Z) : CallOption := fun o =>
  mkCallOptions (Backoff o) (Retry o) (SelectOptions o) (Address o) (CallWrappers o) d (Retries o).

Definition exponentialBackoff : BackoffFunc := fun st attempts => (st, (Do attempts, None)).

Definition RetryAlways : RetryFunc := fun st _ _ => (st, (true, None)).

Definition RetryOnError : RetryFunc := fun st _ err =>
  match err with
  | None => (st, (false, None))
  | Some err => (st, ((Code (Parse (error_string err)) =? 408)%Z, None))
  end.

Definition DefaultRetries : Z := 5.
Definition DefaultRequestTimeout : Z := (30 * second)%Z.

(** The call options of [NewOptions]. *)
Definition NewCallOptions : CallOptions :=
  mkCallOptions exponentialBackoff RetryOnError [] [] [] DefaultRequestTimeout DefaultRetries.

(** *** Choosing the nodes *)
Definition sel_string (e : select_error error) : string :=
  match e with
  | SelNotFound => "not found"
  | SelNoneAvailable => "none available"
  | SelOther e => error_string e
  end.

Definition proxy_node (addr : string) : Node := mkNode (Some {["protocol" := "mucp"]}) "" addr.

(** [nodes[time.Now().Unix()%int64(len(nodes))]] *)
Definition static_next (unix : St -> Z) (address : list string) : NextFn := fun st =>
  (st, match index_mod (map proxy_node address) (unix st) with
       | Ret node => Ret node
       | _ => Panic
       end).

Definition next (Getenv : string -> string) (unix : St -> Z) (sel : SelectorI)
    (service : string) (opts : CallOptions) (st : St) : St * outcome error NextFn :=
  let '(service, address, _) := Proxy Getenv service (Address opts) in
  if (0 <? length address)%nat then (st, Ret (static_next unix address))
  else
    let '(st, r) := sel_Select sel service (SelectOptions opts) st in
    (st, match r with
         | Ret nx => Ret nx
         | Fail SelNotFound =>
             Fail (InternalServerError client_id
               ("service " +:+ service +:+ ": " +:+ sel_string SelNotFound))
         | Fail err =>
             Fail (InternalServerError client_id
               ("error selecting " +:+ service +:+ " node: " +:+ sel_string err))
         | Panic => Panic
         end).

(** *** One attempt *)
Inductive action :=
| Asked (i : Z)
| Slept (d : Z)
| Called (node : Node)
| Marked (node : Node) (err : option error).

Section attempt.
Context {R : Type}.

Definition err_of (r : error + R) : option error :=
  match r with inl err => Some err | inr _ => None end.

Definition attempt (opts : CallOptions) (service : string) (nx : NextFn)
    (mark : string -> Node -> option error -> St -> St) (rcall : St -> Node -> St * (error + R))
    (i : Z) (st : St) : St * list action * outcome error R :=
  let '(st, (t, err)) := Backoff opts st i in
  match err with
  | Some err => (st, [Asked i], Fail (InternalServerError client_id ("backoff error: " +:+ error_string err)))
  | None =>
      let tr := Asked i :: (if (0 <? t)%Z then [Slept t] else []) in
      let '(st, r) := nx st in
      match r with
      | Ret node =>
          let '(st, r) := rcall st node in
          (mark service node (err_of r) st, tr ++ [Called node; Marked node (err_of r)],
           match r with inl err => Fail err | inr x => Ret x end)
      | Fail SelNotFound =>
          (st, tr, Fail (InternalServerError client_id
            ("service " +:+ service +:+ ": " +:+ sel_string SelNotFound)))
      | Fail err =>
          (st, tr, Fail (InternalServerError client_id
            ("error getting next " +:+ service +:+ " node: " +:+ sel_string err)))
      | Panic => (st, tr, Panic)
      end
  end.

(** *** The loop [for i := 0; i <= retries; i++]

    [n] is the number of iterations left, [gerr] the variable of that name. The
    result [Ret None] is a nil error without the result of any attempt. The channel of the
    attempts has room for all of them; that making one of a huge size panics is left out. *)
Definition cancelled (ctx_err : string) : error :=
  Timeout client_id ("call timeout: " +:+ ctx_err).

Fixpoint retry_loop (try : Z -> St -> St * list action * outcome error R) (retry : RetryFunc)
    (race : Z -> bool) (ctx_err : string) (n : nat) (i : Z) (gerr : option error) (st : St) :
    St * list action * outcome error (option R) :=
  match n with
  | O => (st, [], match gerr with Some err => Fail err | None => Ret None end)
  | S n =>
      if race i then (st, [], Fail (cancelled ctx_err))
      else
        match try i st with
        | (st, tr, Ret x) => (st, tr, Ret (Some x))
        | (st, tr, Panic) => (st, tr, Panic)
        | (st, tr, Fail err) =>
            let '(st, (again, rerr)) := retry st i (Some err) in
            match rerr with
            | Some rerr => (st, tr, Fail rerr)
            | None =>
                if negb again then (st, tr, Fail err)
                else
                  let '(st, tr', r) :=
                    retry_loop try retry race ctx_err n (i + 1) (Some err) st in
                  (st, tr ++ tr', r)
            end
        end
  end.

(** [make(chan error, retries+1)] panics on a negative size. *)
Definition attempts_loop (try : Z -> St -> St * list action * outcome error R) (opts : CallOptions)
    (retries : Z) (race : Z -> bool) (ctx_err : string) (st : St) :
    St * list action * outcome error (option R) :=
  if (wrap64 (retries + 1) <? 0)%Z then (st, [], Panic)
  else retry_loop try (Retry opts) race ctx_err (Z.to_nat (retries + 1)) 0 None st.
End attempt.

(** A [CallFunc] as the call of an attempt. *)
Definition once (f : St -> Node -> St * option error) (st : St) (node : Node) :
    St * (error + unit) :=
  let '(st, err) := f st node in
  (st, match err with Some err => inl err | None => inr () end).

(** The wrappers are applied in reverse: the first one is the outermost. *)
Definition wrap (ws : list (CallFunc -> CallFunc)) (call : CallFunc) : CallFunc :=
  foldr (fun w c => w c) call ws.

(** [ctx.Done()] before the first attempt ([done]) ends the call; [deadline] is
    the time left when the context has a deadline. *)
Definition Call (Getenv : string -> string) (unix : St -> Z) (sel : SelectorI) (call : CallFunc)
    (base : CallOptions) (opts : list CallOption) (service : string)
    (deadline : option Z) (done : bool) (race : Z -> bool) (ctx_err : string) (st : St) :
    St * list action * outcome error (option unit) :=
  let callOpts := foldl (fun o opt => opt o) base opts in
  match next Getenv unix sel service callOpts st with
  | (st, Fail err) => (st, [], Fail err)
  | (st, Panic) => (st, [], Panic)
  | (st, Ret nx) =>
      let callOpts :=
        match deadline with Some d => WithRequestTimeout d callOpts | None => callOpts end in
      if done then (st, [], Fail (Timeout client_id ctx_err))
      else
        let rcall := wrap (CallWrappers callOpts) call in
        attempts_loop
          (attempt callOpts service nx (sel_Mark sel) (once (rcall (RequestTimeout callOpts))))
          callOpts (Retries callOpts) race ctx_err st
  end.

Definition Stream {S' : Type} (Getenv : string -> string) (unix : St -> Z) (sel : SelectorI)
    (stream : St -> Node -> St * (error + S')) (base : CallOptions) (opts : list CallOption)
    (service : string) (done : bool) (race : Z -> bool) (ctx_err : string) (st : St) :
    St * list action * outcome error (option S') :=
  let callOpts := foldl (fun o opt => opt o) base opts in
  match next Getenv unix sel service callOpts st with
  | (st, Fail err) => (st, [], Fail err)
  | (st, Panic) => (st, [], Panic)
  | (st, Ret nx) =>
      if done then (st, [], Fail (Timeout client_id ctx_err))
      else
        let '(_, _, proxied) := Proxy Getenv service (Address callOpts) in
        let retries := if proxied : bool then 0%Z else Retries callOpts in
        attempts_loop (attempt callOpts service nx (sel_Mark sel) stream) callOpts
          retries race ctx_err st
  end.
End client.

(** ** Backoff is bounded and grows *)
Lemma Do_table n : n <= 13 -> Do (Z.of_nat n) = (default 0 (pow_e !! n) * 100000000)%Z.
Proof. intros Hn. do 14 (destruct n as [|n]; [reflexivity|]). lia. Qed.

(** The default backoff starts at no delay, never shrinks from one attempt to
    the next, and never exceeds two minutes. *)
Theorem Do_bounds (a b : Z) :
  (0 <= a <= b)%Z ->
  (0 <= Do a <= Do b)%Z /\ (Do b <= 120 * second)%Z /\ Do 0 = 0%Z.
Proof.
  intros [Ha Hab].
  assert (forall n, n <= 13 -> (Do (Z.of_nat n) <= Do (Z.of_nat (S n)) /\ 0 <= Do (Z.of_nat n))%Z) as Hs
    by (intros n Hn; do 14 (destruct n as [|n]; [by vm_compute; split|]); lia).
  assert (forall z, (13 < z)%Z -> Do z = (120 * second)%Z) as Hbig.
  { intros z Hz. unfold Do. by rewrite (proj2 (Z.ltb_lt 13 z) Hz). }
  assert (forall k n, (0 <= Do (Z.of_nat n) <= Do (Z.of_nat (n + k)))%Z) as Hm.
  { intros k. induction k as [|k IH]; intros n.
    - rewrite Nat.add_0_r. destruct (decide (n <= 13)) as [Hn|Hn]; [specialize (Hs n Hn); lia|].
      rewrite Hbig by lia. vm_compute. by split.
    - specialize (IH n). rewrite Nat.add_succ_r.
      destruct (decide (n + k <= 13)) as [Hk|Hk]; [specialize (Hs _ Hk); lia|].
      rewrite (Hbig (Z.of_nat (n + k))) in IH by lia. rewrite (Hbig (Z.of_nat (S _))) by lia. lia. }
  specialize (Hm (Z.to_nat (b - a)) (Z.to_nat a)).
  replace (Z.of_nat (Z.to_nat a + Z.to_nat (b - a))) with b in Hm by lia. rewrite Z2Nat.id in Hm by lia.
  split_and!; [lia..| |reflexivity].
  pose proof (Hbig (Z.max 14 (b + 1)) ltac:(lia)) as Hmax.
  destruct (decide (13 < b)%Z) as [Hb|Hb]; [by rewrite Hbig|].
  rewrite <- (Z2Nat.id b) by lia. rewrite Do_table by lia.
  assert (forall n, n <= 13 -> (default 0 (pow_e !! n) <= 1066)%Z) as Hp
    by (intros n Hn; do 14 (destruct n as [|n]; [by vm_compute|]); lia).
  specialize (Hp (Z.to_nat b) ltac:(lia)). unfold second, millisecond. lia.
Qed.

Lemma Do_bounds_witness : (0 <= Do 3 <= Do 40)%Z /\ (Do 40 <= 120 * second)%Z /\ Do 0 = 0%Z.
Proof. apply (Do_bounds 3 40). lia. Defined.

(** ** Runs of the loop *)
Section loop.
Context `{JSON} {St R : Type}.
Context (try : Z -> St -> St * list action * outcome error R).
Context (retry : RetryFunc (St := St)) (race : Z -> bool) (ctx_err : string).

(** [again k st tr st' tr' gerr]: from [st], the first [k] attempts failed one
    after the other, none was cancelled, and each time the retry function asked
    for another one; [gerr] is the last failure. *)
Inductive again (st : St) : nat -> St -> list action -> option error -> Prop :=
| again_0 : again st 0 st [] None
| again_S k st1 tr gerr st2 tr2 err st3 :
    again st k st1 tr gerr ->
    race (Z.of_nat k) = false ->
    try (Z.of_nat k) st1 = (st2, tr2, Fail err) ->
    retry st2 (Z.of_nat k) (Some err) = (st3, (true, None)) ->
    again st (S k) st3 (tr ++ tr2) (Some err).

(** What attempt [k], begun in [st], makes the call return. *)
Inductive settles (k : nat) (st : St) : St -> list action -> outcome error (option R) -> Prop :=
| settles_ctx : race (Z.of_nat k) = true -> settles k st st [] (Fail (cancelled ctx_err))
| settles_ok st' tr x :
    race (Z.of_nat k) = false -> try (Z.of_nat k) st = (st', tr, Ret x) ->
    settles k st st' tr (Ret (Some x))
| settles_panic st' tr :
    race (Z.of_nat k) = false -> try (Z.of_nat k) st = (st', tr, Panic) ->
    settles k st st' tr Panic
| settles_retry_error st1 tr err st' b rerr :
    race (Z.of_nat k) = false -> try (Z.of_nat k) st = (st1, tr, Fail err) ->
    retry st1 (Z.of_nat k) (Some err) = (st', (b, Some rerr)) ->
    settles k st st' tr (Fail rerr)
| settles_no_retry st1 tr err st' :
    race (Z.of_nat k) = false -> try (Z.of_nat k) st = (st1, tr, Fail err) ->
    retry st1 (Z.of_nat k) (Some err) = (st', (false, None)) ->
    settles k st st' tr (Fail err).

Lemma retry_loop_runs st n : forall k st1 tr gerr st' tr' r,
  again st k st1 tr gerr ->
  retry_loop try retry race ctx_err n (Z.of_nat k) gerr st1 = (st', tr', r) ->
  exists j st2 tr2 gerr2, again st j st2 tr2 gerr2 /\
    ((j = k + n /\ st' = st2 /\ tr ++ tr' = tr2 /\
        r = match gerr2 with Some err => Fail err | None => Ret None end) \/
     (k <= j < k + n /\ exists tr3, settles j st2 st' tr3 r /\ tr ++ tr' = tr2 ++ tr3)).
Proof.
  induction n as [|n IH]; intros k st1 tr gerr st' tr' r Ha; cbn.
  - intros [= <- <- <-]. exists k, st1, tr, gerr. split; [done|left].
    split_and!; [lia|done|by rewrite app_nil_r|done].
  - assert (forall st3 tr3 r', settles k st1 st3 tr3 r' -> (st3, tr3, r') = (st', tr', r) ->
      exists j st2 tr2 gerr2, again st j st2 tr2 gerr2 /\
        ((j = k + S n /\ st' = st2 /\ tr ++ tr' = tr2 /\
            r = match gerr2 with Some err => Fail err | None => Ret None end) \/
         (k <= j < k + S n /\ exists tr3, settles j st2 st' tr3 r /\ tr ++ tr' = tr2 ++ tr3)))
      as Hsettle.
    { intros st3 tr3 r' Hs [= -> -> ->]. exists k, st1, tr, gerr. split; [done|right].
      split; [lia|]. by exists tr'. }
    destruct (race (Z.of_nat k)) eqn:Hrace; [intros Heq; eapply Hsettle; [by constructor|done]|].
    destruct (try (Z.of_nat k) st1) as [[st2 tr2] [x|err|]] eqn:Htry;
      [intros Heq; eapply Hsettle; [by eapply settles_ok|done]
      | |intros Heq; eapply Hsettle; [by eapply settles_panic|done]].
    destruct (retry st2 (Z.of_nat k) (Some err)) as [st3 [b [rerr|]]] eqn:Hret;
      [intros Heq; eapply Hsettle; [by eapply settles_retry_error|done]|].
    destruct b; cbn [negb]; [|intros Heq; eapply Hsettle; [by eapply settles_no_retry|done]].
    destruct (retry_loop _ _ _ _ n _ _ _) as [[st4 tr4] r4] eqn:Hl. intros [= -> <- ->].
    replace (Z.of_nat k + 1)%Z with (Z.of_nat (S k)) in Hl by lia.
    eapply IH in Hl as (j & st5 & tr5 & gerr5 & Hj & Hr); [|by eapply again_S].
    exists j, st5, tr5, gerr5. split; [done|]. rewrite <- app_assoc in Hr.
    destruct Hr as [(-> & ?)|[? ?]]; [left; split; [lia|done]|right; split; [lia|done]].
Qed.
End loop.

(** The actions of one attempt: the backoff asked, a sleep perhaps, then either
    nothing or one call, whose outcome is marked on the node it went to. *)
Definition attempt_actions (i : Z) (tr : list action) : Prop :=
  exists sleep, (sleep = [] \/ exists d, (0 < d)%Z /\ sleep = [Slept d]) /\
    (tr = Asked i :: sleep \/ exists node err, tr = Asked i :: sleep ++ [Called node; Marked node err]).

Inductive call_actions : nat -> list action -> Prop :=
| ca_nil : call_actions 0 []
| ca_snoc k tr tr' :
    call_actions k tr -> attempt_actions (Z.of_nat k) tr' -> call_actions (S k) (tr ++ tr').

Lemma attempt_actions_ok `{JSON} {St R} opts service nx mark (rcall : St -> Node -> St * (error + R))
    i st st' tr r :
  attempt opts service nx mark rcall i st = (st', tr, r) -> attempt_actions i tr.
Proof.
  unfold attempt. destruct (Backoff opts st i) as [st1 [t [err|]]].
  { intros [= <- <- <-]. exists []. split; [by left|by left]. }
  assert (exists sleep, (sleep = [] \/ exists d, (0 < d)%Z /\ sleep = [Slept d]) /\
    (if (0 <? t)%Z then [Slept t] else []) = sleep) as (sleep & Hs & ->).
  { destruct (Z.ltb_spec 0 t); eexists; (split; [|done]); [right; by exists t|by left]. }
  destruct (nx st1) as [st2 [node|e|]].
  - destruct (rcall st2 node) as [st3 rr]. intros [= <- <- <-]. exists sleep. split; [done|right].
    by eexists _, _.
  - destruct e; intros [= <- <- <-]; exists sleep; (split; [done|by left]).
  - intros [= <- <- <-]. exists sleep. split; [done|by left].
Qed.

Lemma again_actions `{JSON} {St R} opts service nx mark (rcall : St -> Node -> St * (error + R))
    retry race st k st' tr gerr :
  again (attempt opts service nx mark rcall) retry race st k st' tr gerr -> call_actions k tr.
Proof. induction 1; [constructor|]. constructor; [done|]. by eapply attempt_actions_ok. Qed.

Lemma settles_actions `{JSON} {St R} opts service nx mark (rcall : St -> Node -> St * (error + R))
    retry race ctx_err k st st' tr r :
  settles (attempt opts service nx mark rcall) retry race ctx_err k st st' tr r ->
  tr = [] \/ attempt_actions (Z.of_nat k) tr.
Proof. destruct 1; [by left|right; by eapply attempt_actions_ok..]. Qed.

Section calls.
Context `{JSON} {St : Type}.
Context (Getenv : string -> string) (unix : St -> Z) (sel : SelectorI (St := St)).
Context (call : CallFunc (St := St)) (base : CallOptions (St := St)).
Context (opts : list (CallOption (St := St))) (service : string) (deadline : option Z).
Context (race : Z -> bool) (ctx_err : string) (st st1 : St) (nx : NextFn (St := St)).

Definition call_opts : CallOptions := foldl (fun o opt => opt o) base opts.

(** The options the attempts see: a deadline of the context replaces the timeout. *)
Definition timed_opts : CallOptions :=
  match deadline with Some d => WithRequestTimeout d call_opts | None => call_opts end.

Definition the_attempt : Z -> St -> St * list action * outcome error unit :=
  attempt timed_opts service nx (sel_Mark sel)
    (once (wrap (CallWrappers timed_opts) call (RequestTimeout timed_opts))).

Definition run_Call : St * list action * outcome error (option unit) :=
  Call Getenv unix sel call base opts service deadline false race ctx_err st.

Hypothesis Hnext : next Getenv unix sel service call_opts st = (st1, Ret nx).

Lemma timed_same : Retries timed_opts = Retries call_opts /\ Retry timed_opts = Retry call_opts.
Proof. unfold timed_opts. by destruct deadline. Qed.

Lemma run_Call_loop :
  run_Call = attempts_loop the_attempt timed_opts (Retries call_opts) race ctx_err st1.
Proof.
  unfold run_Call, Call. fold call_opts. rewrite Hnext. fold timed_opts.
  by rewrite (proj1 timed_same).
Qed.

(** C6: once the nodes are selected, a call makes its attempts one after the
    other, at most [Retries+1] of them, and stops at the first that settles it: a
    success, a cancelled context (a 408 error), a failure the retry function does
    not want repeated (that failure), or an error of the retry function itself
    (that error). When the last attempt fails and would be repeated, its error is
    returned. Every attempt asks the backoff for its own number first, sleeps only
    for a positive delay, and marks the outcome of the call it made, if it made
    one, on the node that received it. *)
Theorem Call_spec st' tr r :
  (0 <= Retries call_opts < int_max)%Z -> run_Call = (st', tr, r) ->
  exists k st2 tr2 gerr,
    again the_attempt (Retry call_opts) race st1 k st2 tr2 gerr /\ call_actions k tr2 /\
    ((Z.of_nat k = Retries call_opts + 1 /\ st' = st2 /\ tr = tr2 /\
        exists err, gerr = Some err /\ r = Fail err)%Z \/
     (Z.of_nat k <= Retries call_opts)%Z /\ exists tr3,
        settles the_attempt (Retry call_opts) race ctx_err k st2 st' tr3 r /\
        (tr3 = [] \/ attempt_actions (Z.of_nat k) tr3) /\ tr = tr2 ++ tr3).
Proof.
  intros Hr. rewrite run_Call_loop. unfold attempts_loop.
  rewrite wrap64_small by (unfold int_min, int_max in *; lia).
  destruct (Z.ltb_spec (Retries call_opts + 1) 0) as [?|_]; [lia|].
  rewrite (proj2 timed_same). intros Hl.
  eapply (retry_loop_runs _ _ _ _ st1 _ 0) in Hl; [|constructor].
  destruct Hl as (k & st2 & tr2 & gerr & Ha & Hk). exists k, st2, tr2, gerr.
  split_and!; [done|by eapply again_actions|]. cbn in Hk.
  destruct Hk as [(-> & -> & -> & ->)|(Hk & tr3 & Hs & ->)].
  - left. split_and!; [lia|done..|].
    inversion Ha as [Hz|? ? ? ? ? ? err]; subst; [lia|]. by exists err.
  - right. split; [lia|]. exists tr3. split_and!; [done|by eapply settles_actions|done].
Qed.

(** Without retries left to configure wrong there is always an attempt; but a
    negative number of retries is accepted: with -1 the call returns a nil error
    although no node was called, and below that it panics. *)
Theorem Call_negative_retries :
  (int_min <= Retries call_opts < 0)%Z ->
  run_Call = if (Retries call_opts =? -1)%Z then (st1, [], Ret None) else (st1, [], Panic).
Proof.
  intros Hr. rewrite run_Call_loop. unfold attempts_loop.
  rewrite wrap64_small by (unfold int_min, int_max in *; lia).
  destruct (Z.eqb_spec (Retries call_opts) (-1)) as [->|Hn]; [done|].
  destruct (Z.ltb_spec (Retries call_opts + 1) 0); [done|lia].
Qed.

Context `{!JSONLaws}.

(** Under the default retry function only a timeout (code 408) is tried
    again: when the first attempt fails with any other package error, the call
    returns that very error and makes no second attempt. *)
Theorem Call_default_retry st2 tr e :
  Retry call_opts = RetryOnError -> (0 <= Retries call_opts < int_max)%Z -> race 0 = false ->
  the_attempt 0 st1 = (st2, tr, Fail (Micro e)) -> Code e <> 408%Z ->
  run_Call = (st2, tr, Fail (Micro e)).
Proof.
  intros Hret Hr Hrace Htry Hcode. rewrite run_Call_loop. unfold attempts_loop.
  rewrite wrap64_small by (unfold int_min, int_max in *; lia).
  destruct (Z.ltb_spec (Retries call_opts + 1) 0) as [?|_]; [lia|].
  destruct (Z.to_nat (Retries call_opts + 1)) as [|n] eqn:Hn; [lia|]. cbn.
  rewrite Hrace, Htry, (proj2 timed_same), Hret. cbn. rewrite Parse_code.
  by rewrite (proj2 (Z.eqb_neq (Code e) 408) Hcode).
Qed.
End calls.

(** ** A client of two nodes *)
Definition no_env (_ : string) : string := "".

(** The state counts the calls; the first node times out once, then works. *)
Definition sel_ex : SelectorI (St := nat) := mkSelectorI
  (fun _ _ st => (st, Ret (fun st => (st, Ret (mkNode None "a" "a:1"))))) (fun _ _ _ st => st).

Definition call_ex (failure : Z) : CallFunc (St := nat) := fun _ st _ =>
  (S st, if Nat.eqb st 0 then Some (New "svc" "late" failure) else None).

Definition run_ex (failure : Z) (opts : list (CallOption (St := nat))) :=
  run_Call no_env (fun _ => 0%Z) sel_ex (call_ex failure) NewCallOptions opts "svc" None
    (fun _ => false) "" 0.

Example run_ex_retry :
  run_ex 408 [] =
  (2, [Asked 0; Called (mkNode None "a" "a:1");
       Marked (mkNode None "a" "a:1") (Some (New "svc" "late" 408));
       Asked 1; Slept 100000000; Called (mkNode None "a" "a:1"); Marked (mkNode None "a" "a:1") None],
   Ret (Some ())).
Proof. reflexivity. Qed.

Lemma Call_spec_witness : exists k st2 tr2 gerr,
  again (the_attempt sel_ex (call_ex 408) NewCallOptions [] "svc" None
      (fun st => (st, Ret (mkNode None "a" "a:1")))) RetryOnError (fun _ => false) 0 k st2 tr2 gerr /\
  call_actions k tr2.
Proof.
  destruct (Call_spec no_env (fun _ => 0%Z) sel_ex (call_ex 408) NewCallOptions [] "svc" None
    (fun _ => false) "" 0 0 (fun st => (st, Ret (mkNode None "a" "a:1"))) eq_refl _ _ _
    ltac:(vm_compute; split; congruence) run_ex_retry) as (k & st2 & tr2 & gerr & Ha & Hc & _).
  by exists k, st2, tr2, gerr.
Defined.

Lemma Call_negative_retries_witness :
  run_ex 408 [WithRetries (-1)] = (0, [], Ret None) /\ run_ex 408 [WithRetries (-2)] = (0, [], Panic).
Proof.
  split.
  - refine (eq_trans (Call_negative_retries no_env (fun _ => 0%Z) sel_ex (call_ex 408) NewCallOptions
      [WithRetries (-1)] "svc" None (fun _ => false) "" 0 0 _ eq_refl _) eq_refl).
    vm_compute; split; congruence.
  - refine (eq_trans (Call_negative_retries no_env (fun _ => 0%Z) sel_ex (call_ex 408) NewCallOptions
      [WithRetries (-2)] "svc" None (fun _ => false) "" 0 0 _ eq_refl _) eq_refl).
    vm_compute; split; congruence.
Defined.

Lemma Call_default_retry_witness : exists tr,
  run_ex 500 [] = (1, tr, Fail (New "svc" "late" 500)).
Proof.
  eexists. unfold run_ex, New.
  refine (Call_default_retry no_env (fun _ => 0%Z) sel_ex (call_ex 500) NewCallOptions [] "svc" None
    (fun _ => false) "" 0 0 _ eq_refl 1 _ _ eq_refl _ eq_refl eq_refl _).
  - vm_compute; split; congruence.
  - discriminate.
Defined.
