(* ===== verification/ApiRouter.v ===== *)
(** * API routers: [api/router/router.go], [endpoint.go], [static/static.go],
      [registry/registry.go] and the resolvers of [api/resolver/]

    A router keeps endpoints by name and finds one for a request by method, host
    and path. Path templates are those of HttpRule and HttpPattern. Regular
    expressions ([regexp.CompilePOSIX], [MatchString]) are the class [Regexp]:
    the routers only ask whether one compiles and whether it matches. What the
    registry and its cache answer is an argument of the operations that ask.
    Endpoint metadata is ASCII ([strings.TrimSpace] cuts ASCII white space).
    Logging is left out. *)
From S2P Require Import Prelude GoStrings HttpRule HttpPattern Registry Metadata.

Class Regexp (R : Type) := {
  CompilePOSIX : string -> option R;
  MatchString : R -> string -> bool;
}.

(** ** Endpoints *)
Record Endpoint := mkEndpoint {
  ep_Name : string;
  ep_Description : string;
  ep_Handler : string;
  ep_Host : list string;
  ep_Method : list string;
  ep_Path : list string;
  ep_Stream : bool;
}.

Record Route := mkRoute {
  rt_Service : string;
  rt_Endpoint : Endpoint;
  rt_Versions : list Service;
}.

(** *** [strings.TrimSpace] *)
Definition is_space (a : ascii) : bool :=
  let n := nat_of_ascii a in ((9 <=? n) && (n <=? 13)) || (n =? 32).

Fixpoint trim_left (s : string) : string :=
  match s with
  | String a s' => if is_space a then trim_left s' else s
  | "" => ""
  end.

Fixpoint trim_right (s : string) : string :=
  match s with
  | "" => ""
  | String a s =>
      let t := trim_right s in
      if String.eqb t "" && is_space a then "" else String a t
  end.

Definition strip (s : string) : string := trim_right (trim_left s).

Definition slice (s : string) : list string :=
  filter (fun p => p <> "") (map strip (split_char "," s)).

(** Values are set only if they exist. *)
Definition set_field (k v : string) (m : gmap string string) : gmap string string :=
  if String.eqb v "" then m else <[k := v]> m.

(** A nil endpoint, and the nil map [Encode] returns for it, are [None]. *)
Definition Encode (e : option Endpoint) : option (gmap string string) :=
  match e with
  | None => None
  | Some e =>
      Some (set_field "host" (join "," (ep_Host e))
           (set_field "path" (join "," (ep_Path e))
           (set_field "method" (join "," (ep_Method e))
           (set_field "handler" (ep_Handler e)
           (set_field "description" (ep_Description e)
           (set_field "endpoint" (ep_Name e) ∅))))))
  end.

Definition Decode (e : option (gmap string string)) : option Endpoint :=
  match e with
  | None => None
  | Some e =>
      let get k := default "" (e !! k) in
      Some (mkEndpoint (get "endpoint") (get "description") (get "handler")
              (slice (get "host")) (slice (get "method")) (slice (get "path")) false)
  end.

Inductive route_error (E : Type) :=
| EndpointIsNil | NameRequired | InvalidPath | InvalidHandler
| BadRegexp | BadTemplate (err : InvalidTemplateError) | BadPattern
| RouterClosed | EndpointNotFound | ResolverNotFound | UnknownName | UnknownHandler | RegistryError (e : E).
Arguments EndpointIsNil {E}.
Arguments NameRequired {E}.
Arguments InvalidPath {E}.
Arguments InvalidHandler {E}.
Arguments BadRegexp {E}.
Arguments BadTemplate {E} err.
Arguments BadPattern {E}.
Arguments RouterClosed {E}.
Arguments EndpointNotFound {E}.
Arguments ResolverNotFound {E}.
Arguments UnknownName {E}.
Arguments UnknownHandler {E}.
Arguments RegistryError {E} e.

(** The first and last byte of a path; indexing an empty string panics. *)
Definition first_byte (p : string) : option ascii := String.get 0 p.
Definition last_byte (p : string) : option ascii := String.get (String.length p - 1) p.

Section router.
Context {R : Type} `{Regexp R} {E : Type}.

Notation rerr := (route_error E).

Fixpoint validate_paths (ps : list string) : outcome rerr unit :=
  match ps with
  | [] => Ret ()
  | p :: ps =>
      match first_byte p, last_byte p with
      | Some s, Some e =>
          if Ascii.eqb s "^" && Ascii.eqb e "$" then
            match CompilePOSIX p with None => Fail BadRegexp | Some _ => validate_paths ps end
          else if Ascii.eqb s "^" && negb (Ascii.eqb e "$") then Fail InvalidPath
          else if negb (Ascii.eqb s "^") && Ascii.eqb e "$" then Fail InvalidPath
          else validate_paths ps
      | _, _ => Panic
      end
  end.

Definition Validate (e : option Endpoint) : outcome rerr Endpoint :=
  match e with
  | None => Fail EndpointIsNil
  | Some e =>
      if String.eqb (ep_Name e) "" then Fail NameRequired
      else
        _ <-! validate_paths (ep_Path e);
        if String.eqb (ep_Handler e) "" then Fail InvalidHandler else Ret e
  end.

(** ** Compiled endpoints *)
Record compiled := mkCompiled {
  hostregs : list R;
  pathregs : list Pattern;
  pcreregs : list R;
}.

Definition any_host (h : string) : bool := String.eqb h "" || String.eqb h "*".

(** One path: its regular expression if it has the markers and compiles, and its
    template's pattern, or why it has none. *)
Definition compile_path (p : string) : outcome rerr (option R * (rerr + Pattern)) :=
  match first_byte p, last_byte p with
  | Some s, Some e =>
      let pcre := if Ascii.eqb s "^" && Ascii.eqb e "$" then CompilePOSIX p else None in
      match Parse p with
      | Panic => Panic
      | Fail err => Ret (pcre, inl (BadTemplate err))
      | Ret rule =>
          match pattern_of rule with
          | None => Ret (pcre, inl BadPattern)
          | Some pathreg => Ret (pcre, inr pathreg)
          end
      end
  | _, _ => Panic
  end.

Definition add_pcre (pcre : option R) (c : compiled) : compiled :=
  match pcre with
  | Some r => mkCompiled (hostregs c) (pathregs c) (pcreregs c ++ [r])
  | None => c
  end.

Definition add_pattern (p : Pattern) (c : compiled) : compiled :=
  mkCompiled (hostregs c) (pathregs c ++ [p]) (pcreregs c).

Definition add_host (r : R) (c : compiled) : compiled :=
  mkCompiled (hostregs c ++ [r]) (pathregs c) (pcreregs c).

(** *** In the static router every failure ends the registration *)
Fixpoint static_hosts (hs : list string) (c : compiled) : outcome rerr compiled :=
  match hs with
  | [] => Ret c
  | h :: hs =>
      if any_host h then static_hosts hs c
      else match CompilePOSIX h with
           | None => Fail BadRegexp
           | Some r => static_hosts hs (add_host r c)
           end
  end.

Fixpoint static_paths (ps : list string) (c : compiled) : outcome rerr compiled :=
  match ps with
  | [] => Ret c
  | p :: ps =>
      r <-! compile_path p;
      let '(pcre, rule) := r in
      let c := add_pcre pcre c in
      match rule, pcre with
      | inr pathreg, _ => static_paths ps (add_pattern pathreg c)
      | inl (BadTemplate _), Some _ => static_paths ps c
      | inl err, _ => Fail err
      end
  end.

(** *** In the registry router a failure leaves the host or path out *)
Fixpoint lenient_hosts (hs : list string) (c : compiled) : compiled :=
  match hs with
  | [] => c
  | h :: hs =>
      if any_host h then lenient_hosts hs c
      else match CompilePOSIX h with
           | None => lenient_hosts hs c
           | Some r => lenient_hosts hs (add_host r c)
           end
  end.

Fixpoint lenient_paths (ps : list string) (c : compiled) : outcome rerr compiled :=
  match ps with
  | [] => Ret c
  | p :: ps =>
      r <-! compile_path p;
      let '(pcre, rule) := r in
      let c := add_pcre pcre c in
      match rule with
      | inr pathreg => lenient_paths ps (add_pattern pathreg c)
      | inl _ => lenient_paths ps c
      end
  end.

(** ** Matching a request *)
Record Request := mkRequest {
  rq_Method : string;
  rq_URLHost : string;
  rq_URLPath : string;
  rq_URL : string;
  rq_Host : string;
  rq_ctx : context;
}.

Definition request_path (req : Request) : list string :=
  let path := rq_URLPath req in
  let idx := if (0 <? String.length path)%nat && negb (String.eqb path "/") then 1 else 0 in
  split_char "/" (str_drop idx path).

(** [hostregs[idx]] is read with the index of the host in the endpoint. *)
Fixpoint match_host (hosts : list string) (idx : nat) (regs : list R) (host : string) :
    outcome rerr bool :=
  match hosts with
  | [] => Ret false
  | h :: hosts =>
      if any_host h then Ret true
      else match regs !! idx with
           | None => Panic
           | Some r => if MatchString r host then Ret true else match_host hosts (S idx) regs host
           end
  end.

Fixpoint match_patterns (ps : list Pattern) (path : list string) :
    outcome rerr (option (gmap string string)) :=
  match ps with
  | [] => Ret None
  | p :: ps =>
      match Match p path "" with
      | Ret matches => Ret (Some matches)
      | Fail _ => match_patterns ps path
      | Panic => Panic
      end
  end.

Definition match_pcre (rs : list R) (path : string) : bool := existsb (fun r => MatchString r path) rs.

(** [None]: the endpoint does not match; [Some matches]: it does, with the fields
    captured when a template matched. *)
Definition match_endpoint (ep : Endpoint) (c : compiled) (req : Request) :
    outcome rerr (option (option (gmap string string))) :=
  if negb (existsb (fun m => String.eqb m (rq_Method req)) (ep_Method ep)) then Ret None
  else
    hMatch <-! (match ep_Host ep with
                | [] => Ret true
                | hosts => match_host hosts 0 (hostregs c) (rq_URLHost req)
                end);
    if negb hMatch then Ret None
    else
      matches <-! match_patterns (pathregs c) (request_path req);
      match matches with
      | Some fields => Ret (Some (Some fields))
      | None => if match_pcre (pcreregs c) (rq_URLPath req) then Ret (Some None) else Ret None
      end.

(** The captured fields go into the request's metadata. *)
Definition with_fields (o o' : map_order) (fields : option (gmap string string)) (req : Request) :
    Request :=
  match fields with
  | None => req
  | Some matches =>
      let md := default ∅ (FromContext o (rq_ctx req)) in
      let md := foldl (fun md e => <["x-api-field-" +:+ e.1 := e.2]> md) md (map_range o' matches) in
      mkRequest (rq_Method req) (rq_URLHost req) (rq_URLPath req) (rq_URL req) (rq_Host req)
        (NewContext (rq_ctx req) (Some md))
  end.

(** ** The static router *)
Record endpoint := mkEp { apiep : Endpoint; cep : compiled }.

Record Router := mkRouter { eps : gmap string endpoint; stopped : bool }.

Definition NewRouter : Router := mkRouter ∅ false.

Definition Register (ep : option Endpoint) (r : Router) : Router * outcome rerr unit :=
  match Validate ep with
  | Panic => (r, Panic)
  | Fail e => (r, Fail e)
  | Ret ep =>
      match (c <-! static_hosts (ep_Host ep) (mkCompiled [] [] []); static_paths (ep_Path ep) c) with
      | Panic => (r, Panic)
      | Fail e => (r, Fail e)
      | Ret c => (mkRouter (<[ep_Name ep := mkEp ep c]> (eps r)) (stopped r), Ret ())
      end
  end.

Definition Deregister (ep : option Endpoint) (r : Router) : Router * outcome rerr unit :=
  match Validate ep with
  | Panic => (r, Panic)
  | Fail e => (r, Fail e)
  | Ret ep => (mkRouter (delete (ep_Name ep) (eps r)) (stopped r), Ret ())
  end.

Definition Stop (r : Router) : Router := mkRouter (eps r) true.

Fixpoint first_match {A} (get : A -> option (Endpoint * compiled)) (l : list A) (req : Request) :
    outcome rerr (A * option (gmap string string)) :=
  match l with
  | [] => Fail EndpointNotFound
  | a :: l =>
      match get a with
      | None => first_match get l req
      | Some (ep, c) =>
          m <-! match_endpoint ep c req;
          match m with
          | Some fields => Ret (a, fields)
          | None => first_match get l req
          end
      end
  end.

(** The private [endpoint]: the endpoint and the captured fields. *)
Definition find_endpoint (o : map_order) (r : Router) (req : Request) :
    outcome rerr (endpoint * option (gmap string string)) :=
  if stopped r then Fail RouterClosed
  else
    m <-! first_match (fun e => Some (apiep e.2, cep e.2)) (map_range o (eps r)) req;
    Ret (m.1.2, m.2).

Definition stream_endpoint (name : string) : Registry.Endpoint :=
  Registry.mkEndpoint None None {["stream" := "true"]} name.

(** Streaming endpoints are advertised under the endpoint's name. *)
Definition stream_service (name : string) (svc : Service) : Service :=
  let svc_eps := match s_Endpoints svc with [] => [stream_endpoint name] | l => l end in
  mkService (s_Name svc) (s_Version svc) (s_Metadata svc)
    (map (fun e => Registry.mkEndpoint (e_Request e) (e_Response e) {["stream" := "true"]} name) svc_eps)
    (s_Nodes svc).

Definition Router_Endpoint (o o' o'' : map_order) (GetService : string -> E + list Service)
    (r : Router) (req : Request) : Request * outcome rerr Route :=
  match find_endpoint o r req with
  | Panic => (req, Panic)
  | Fail e => (req, Fail e)
  | Ret (e, fields) =>
      let req := with_fields o' o'' fields req in
      let epf := split_char "." (ep_Name (apiep e)) in
      let service := default "" (head epf) in
      let name := join "." (tail epf) in
      match GetService service with
      | inl err => (req, Fail (RegistryError err))
      | inr services =>
          let services :=
            if ep_Stream (apiep e) then map (stream_service name) (Registry.Copy services)
            else services in
          (req, Ret (mkRoute service
            (mkEndpoint name "" "rpc" (ep_Host (apiep e)) (ep_Method (apiep e)) (ep_Path (apiep e))
               (ep_Stream (apiep e))) services))
      end
  end.

Definition Router_Route (o o' o'' : map_order) (GetService : string -> E + list Service)
    (r : Router) (req : Request) : Request * outcome rerr Route :=
  if stopped r then (req, Fail RouterClosed) else Router_Endpoint o o' o'' GetService r req.

(** ** Resolvers *)
Record resolved := mkResolved {
  res_Name : string; res_Host : string; res_Method : string; res_Path : string;
}.

Definition resolved_as (name : string) (req : Request) : resolved :=
  mkResolved name (rq_Host req) (rq_Method req) (rq_URLPath req).

(** [req.URL.Path[1:]] panics on an empty path. *)
Definition path_parts (req : Request) : outcome rerr (list string) :=
  if String.eqb (rq_URLPath req) "" then Panic
  else Ret (split_char "/" (str_drop 1 (rq_URLPath req))).

Definition path_Resolve (ns : string) (req : Request) : outcome rerr resolved :=
  if String.eqb (rq_URLPath req) "/" then Fail ResolverNotFound
  else
    parts <-! path_parts req;
    Ret (resolved_as (ns +:+ "." +:+ default "" (head parts)) req).

Definition is_digit (a : ascii) : bool :=
  let n := nat_of_ascii a in (48 <=? n) && (n <=? 57).

(** [^v[0-9]+$] *)
Definition is_version (s : string) : bool :=
  match s with
  | String "v" (String d ds) => is_digit d && str_forall is_digit ds
  | _ => false
  end.

Definition withNamespace (ns : string) (parts : list string) : string :=
  if String.eqb ns "" then join "." parts else join "." (ns :: parts).

Definition vpath_Resolve (ns : string) (req : Request) : outcome rerr resolved :=
  if String.eqb (rq_URLPath req) "/" then Fail UnknownName
  else
    parts <-! path_parts req;
    if Nat.eqb (length parts) 1 then Ret (resolved_as (withNamespace ns parts) req)
    else if is_version (default "" (head parts)) then
      Ret (resolved_as (withNamespace ns (take 2 parts)) req)
    else Ret (resolved_as (withNamespace ns (take 1 parts)) req).

Definition host_Resolve (req : Request) : outcome rerr resolved :=
  Ret (resolved_as (rq_Host req) req).

Definition grpc_Resolve (req : Request) : outcome rerr resolved :=
  if String.eqb (rq_URLPath req) "/" then Fail UnknownName
  else
    parts <-! path_parts req;
    let name := split_char "." (default "" (head parts)) in
    Ret (resolved_as (join "." (take (length name - 1) name)) req).

(** ** The registry router *)
Record registryRouter := mkRegistryRouter {
  r_eps : gmap string Route;
  r_ceps : gmap string compiled;
  r_stopped : bool;
  r_Handler : string;
}.

Definition newRouter (handler : string) : registryRouter := mkRegistryRouter ∅ ∅ false handler.

Definition endpoint_key (service : Service) (sep : Registry.Endpoint) : string :=
  s_Name service +:+ "." +:+ e_Name sep.

(** The inner loop of [store]: an endpoint that does not validate is skipped. *)
Definition store_endpoint (service : Service) (acc : gmap string Route) (sep : Registry.Endpoint) :
    outcome rerr (gmap string Route) :=
  match Validate (Decode (Some (e_Metadata sep))) with
  | Panic => Panic
  | Fail _ => Ret acc
  | Ret ep =>
      let key := endpoint_key service sep in
      let rt := default (mkRoute (s_Name service) ep []) (acc !! key) in
      Ret (<[key := mkRoute (rt_Service rt) ep (rt_Versions rt ++ [service])]> acc)
  end.

Definition store_service (acc : outcome rerr (gmap string Route)) (service : Service) :
    outcome rerr (gmap string Route) :=
  foldl (fun acc sep => acc <-! acc; store_endpoint service acc sep) acc (s_Endpoints service).

Definition known (services : list Service) (name : string) : bool :=
  existsb (fun s => String.eqb (s_Name s) name) services.

Definition set_route (acc : outcome rerr registryRouter) (e : string * Route) : outcome rerr registryRouter :=
  r <-! acc;
  c <-! lenient_paths (ep_Path (rt_Endpoint e.2))
          (lenient_hosts (ep_Host (rt_Endpoint e.2)) (mkCompiled [] [] []));
  Ret (mkRegistryRouter (<[e.1 := e.2]> (r_eps r)) (<[e.1 := c]> (r_ceps r)) (r_stopped r) (r_Handler r)).

Definition store (o o' : map_order) (services : list Service) (r : registryRouter) :
    outcome rerr registryRouter :=
  neu <-! foldl store_service (Ret ∅) services;
  let kept := foldl (fun m e => if known services (rt_Service e.2) then delete e.1 m else m)
                (r_eps r) (map_range o (r_eps r)) in
  foldl set_route (Ret (mkRegistryRouter kept (r_ceps r) (r_stopped r) (r_Handler r)))
    (map_range o' neu).

(** A watch event makes the router ask the cache for the service; an error of the
    cache leaves the routes as they are. *)
Definition process (o o' : map_order) (GetService : string -> E + list Service)
    (res : option Service) (r : registryRouter) : outcome rerr registryRouter :=
  match res with
  | None => Ret r
  | Some s =>
      match GetService (s_Name s) with
      | inl _ => Ret r
      | inr services => store o o' services r
      end
  end.

(** One round of [refresh] over the services listed: one the cache cannot give is
    left as it is. *)
Definition refresh_round (o o' : map_order) (GetService : string -> E + list Service)
    (services : list Service) (r : registryRouter) : outcome rerr registryRouter :=
  foldl (fun acc s => r <-! acc; process o o' GetService (Some s) r) (Ret r) services.

Definition registry_Stop (r : registryRouter) : registryRouter :=
  mkRegistryRouter (r_eps r) (r_ceps r) true (r_Handler r).

Definition registry_Endpoint (o o' o'' : map_order) (r : registryRouter) (req : Request) :
    Request * outcome rerr Route :=
  if r_stopped r then (req, Fail RouterClosed)
  else
    match first_match (fun e => c ← r_ceps r !! e.1; Some (rt_Endpoint e.2, c))
            (map_range o (r_eps r)) req with
    | Ret (e, fields) => (with_fields o' o'' fields req, Ret e.2)
    | Fail err => (req, Fail err)
    | Panic => (req, Panic)
    end.

(** The endpoint name the RPC handlers get from the resolved path. *)
Definition rpc_endpoint_name (rsp : resolved) : string :=
  match split_char "/" (res_Path rsp) with
  | [_; a; b] => a +:+ "." +:+ b
  | [_; _; a; b] => a +:+ "." +:+ b
  | _ => res_Method rsp
  end.

Definition named_endpoint (name handler : string) (hosts methods paths : list string) : Endpoint :=
  mkEndpoint name "" handler hosts methods paths false.

Definition registry_Route (o o' o'' : map_order) (Resolve : Request -> outcome rerr resolved)
    (GetService : string -> E + list Service) (r : registryRouter) (req : Request) :
    Request * outcome rerr Route :=
  if r_stopped r then (req, Fail RouterClosed)
  else
    match registry_Endpoint o o' o'' r req with
    | (req, Ret rt) => (req, Ret rt)
    | (req, Panic) => (req, Panic)
    | (req, Fail _) =>
        (req,
         rsp <-! Resolve req;
         match GetService (res_Name rsp) with
         | inl err => Fail (RegistryError err)
         | inr services =>
             let h := r_Handler r in
             if String.eqb h "meta" || String.eqb h "api" || String.eqb h "rpc" then
               let handler := if String.eqb h "meta" then "rpc" else h in
               Ret (mkRoute (res_Name rsp)
                      (named_endpoint (rpc_endpoint_name rsp) handler [] [] []) services)
             else if String.eqb h "http" || String.eqb h "proxy" || String.eqb h "web" then
               Ret (mkRoute (res_Name rsp)
                      (named_endpoint (rq_URL req) h [rq_Host req] [rq_Method req] [rq_URLPath req])
                      services)
             else Fail UnknownHandler
         end)
    end.

(** ** Which requests an endpoint serves *)
Definition anchored (p : string) : bool :=
  match first_byte p, last_byte p with
  | Some s, Some e => Ascii.eqb s "^" && Ascii.eqb e "$"
  | _, _ => false
  end.

Definition template_matches (req : Request) (p : string) (fields : gmap string string) : Prop :=
  exists t vs bs, Parse p = Ret t /\ is_Some (pattern_of t) /\
    segs_match (segments_of t) (request_path req) vs bs /\ fields = bindings bs.

Definition pcre_matches (req : Request) (p : string) : Prop :=
  anchored p = true /\ exists r, CompilePOSIX p = Some r /\ MatchString r (rq_URLPath req) = true.

Definition host_matches (req : Request) (hosts : list string) : Prop :=
  hosts = [] \/ exists h, h ∈ hosts /\
    (any_host h = true \/ exists r, CompilePOSIX h = Some r /\ MatchString r (rq_URLHost req) = true).

(** A template that matches binds its fields; without one a regular expression
    must match, and binds nothing. *)
Definition serves (ep : Endpoint) (req : Request) (fields : option (gmap string string)) : Prop :=
  rq_Method req ∈ ep_Method ep /\ host_matches req (ep_Host ep) /\
  match fields with
  | Some fields => exists p, p ∈ ep_Path ep /\ template_matches req p fields
  | None => (exists p, p ∈ ep_Path ep /\ pcre_matches req p) /\
            forall p fields, p ∈ ep_Path ep -> ~ template_matches req p fields
  end.

(** What a compiled endpoint owes to its source. *)
Record compiled_ok (ep : Endpoint) (c : compiled) : Prop := {
  ok_hosts : forall pre h post, ep_Host ep = pre ++ h :: post ->
    Forall (fun h => any_host h = false) pre -> any_host h = false ->
    exists r, hostregs c !! length pre = Some r /\ CompilePOSIX h = Some r;
  ok_paths : forall pat, pat ∈ pathregs c <->
    exists p t, p ∈ ep_Path ep /\ Parse p = Ret t /\ pattern_of t = Some pat;
  ok_pcre : forall r, r ∈ pcreregs c <->
    exists p, p ∈ ep_Path ep /\ anchored p = true /\ CompilePOSIX p = Some r;
}.

Lemma static_hosts_ok hs c c' :
  static_hosts hs c = Ret c' ->
  pathregs c' = pathregs c /\ pcreregs c' = pcreregs c /\ exists rs,
    hostregs c' = hostregs c ++ rs /\
    forall pre h post, hs = pre ++ h :: post -> Forall (fun h => any_host h = false) pre ->
      any_host h = false -> exists r, rs !! length pre = Some r /\ CompilePOSIX h = Some r.
Proof.
  revert c. induction hs as [|h hs IH]; intros c; cbn.
  - intros [= ->]. split_and!; [done|done|]. exists []. rewrite app_nil_r. split; [done|].
    by intros [|? ?] ? ? [=].
  - destruct (any_host h) eqn:Hh.
    + intros (? & ? & rs & Hrs & _)%IH. split_and!; [done|done|]. exists rs. split; [done|].
      intros [|h' pre] h0 post [= <- Hp]; [congruence|]. rewrite Forall_cons. intros [? _]. congruence.
    + destruct (CompilePOSIX h) as [r|] eqn:Hr; [|done].
      intros (Hp & Hc & rs & Hrs & Hok)%IH. cbn in Hp, Hc, Hrs. split_and!; [done|done|].
      exists (r :: rs). rewrite Hrs, <- app_assoc. split; [done|].
      intros [|h' pre] h0 post [= <- Hpost]; [by exists r|]. rewrite Forall_cons. intros [_ Hpre] Hh0.
      exact (Hok pre h0 post Hpost Hpre Hh0).
Qed.

Lemma compile_path_spec p pcre rule :
  compile_path p = Ret (pcre, rule) ->
  (forall r, pcre = Some r <-> anchored p = true /\ CompilePOSIX p = Some r) /\
  (forall pat, rule = inr pat <-> exists t, Parse p = Ret t /\ pattern_of t = Some pat).
Proof.
  unfold compile_path, anchored. destruct (first_byte p) as [s|], (last_byte p) as [e|]; try done.
  destruct (Parse p) as [t|err|]; [|intros [= <- <-]|done].
  - destruct (pattern_of t) eqn:Ht; intros [= <- <-]; (split;
      [intros r; destruct (_ && _); naive_solver|intros pat; naive_solver]).
  - split; [intros r; destruct (_ && _); naive_solver|naive_solver].
Qed.

(** The patterns and expressions a list of paths stands for. *)
Definition paths_add (ps : list string) (c c' : compiled) : Prop :=
  hostregs c' = hostregs c /\
  (forall pat, pat ∈ pathregs c' <-> pat ∈ pathregs c \/
    exists p t, p ∈ ps /\ Parse p = Ret t /\ pattern_of t = Some pat) /\
  (forall r, r ∈ pcreregs c' <-> r ∈ pcreregs c \/
    exists p, p ∈ ps /\ anchored p = true /\ CompilePOSIX p = Some r).

Lemma paths_add_nil c : paths_add [] c c.
Proof. split_and!; [done|..]; intros ?; set_solver. Qed.

Lemma paths_add_cons p ps pcre rule c c' :
  compile_path p = Ret (pcre, rule) ->
  paths_add ps (match rule with inr pat => add_pattern pat (add_pcre pcre c) | inl _ => add_pcre pcre c end) c' ->
  paths_add (p :: ps) c c'.
Proof.
  intros [Hpcre Hrule]%compile_path_spec (Hh & Hp & Hc). split_and!.
  - rewrite Hh. by destruct rule, pcre.
  - intros pat. rewrite Hp. specialize (Hrule pat). setoid_rewrite elem_of_cons.
    destruct rule as [err|pat'], pcre as [r|]; cbn; rewrite ?elem_of_app, ?list_elem_of_singleton;
      naive_solver.
  - intros r. rewrite Hc. specialize (Hpcre r). setoid_rewrite elem_of_cons.
    destruct rule as [err|pat'], pcre as [r'|]; cbn; rewrite ?elem_of_app, ?list_elem_of_singleton;
      naive_solver.
Qed.

Lemma static_paths_ok ps c c' : static_paths ps c = Ret c' -> paths_add ps c c'.
Proof.
  revert c. induction ps as [|p ps IH]; intros c; cbn; [intros [= ->]; apply paths_add_nil|].
  destruct (compile_path p) as [[pcre rule]| |] eqn:Hp; cbn; [|done..].
  intros Hs. eapply paths_add_cons; [done|].
  destruct rule as [err|pat]; [|by apply IH].
  destruct err, pcre; try done; by apply IH.
Qed.

Lemma lenient_paths_ok ps c c' : lenient_paths ps c = Ret c' -> paths_add ps c c'.
Proof.
  revert c. induction ps as [|p ps IH]; intros c; cbn; [intros [= ->]; apply paths_add_nil|].
  destruct (compile_path p) as [[pcre rule]| |] eqn:Hp; cbn; [|done..].
  intros Hs. eapply paths_add_cons; [done|]. destruct rule; by apply IH.
Qed.

Lemma static_compiled_ok ep c :
  (c0 <-! static_hosts (ep_Host ep) (mkCompiled [] [] []); static_paths (ep_Path ep) c0) = Ret c ->
  compiled_ok ep c.
Proof.
  destruct (static_hosts _ _) as [c0| |] eqn:Hh; cbn; [|done..]. intros Hp%static_paths_ok.
  apply static_hosts_ok in Hh as (Hp0 & Hc0 & rs & Hrs & Hok). cbn in Hp0, Hc0, Hrs.
  destruct Hp as (Hh & Hp & Hc). rewrite Hp0 in Hp. rewrite Hc0 in Hc. split.
  - rewrite Hh, Hrs. exact Hok.
  - intros pat. rewrite Hp. set_solver.
  - intros r. rewrite Hc. set_solver.
Qed.

Lemma match_host_spec ep c host pre hosts :
  compiled_ok ep c -> ep_Host ep = pre ++ hosts -> Forall (fun h => any_host h = false) pre ->
  exists b, match_host hosts (length pre) (hostregs c) host = Ret b /\
    (b = true <-> exists h, h ∈ hosts /\
      (any_host h = true \/ exists r, CompilePOSIX h = Some r /\ MatchString r host = true)).
Proof.
  intros Hok. revert pre. induction hosts as [|h hosts IH]; intros pre Hsplit Hpre; cbn.
  - exists false. split; [done|]. split; [done|]. by intros (h & Hh%not_elem_of_nil & _).
  - destruct (any_host h) eqn:Hh.
    { exists true. split; [done|]. split; [|done]. intros _. exists h. split; [left|by left]. }
    destruct (ok_hosts _ _ Hok pre h hosts Hsplit Hpre Hh) as (r & -> & Hr).
    destruct (MatchString r host) eqn:Hm.
    { exists true. split; [done|]. split; [|done]. intros _. exists h. split; [left|right; by exists r]. }
    destruct (IH (pre ++ [h])) as (b & Hb & Hiff).
    { by rewrite Hsplit, <- app_assoc. }
    { apply Forall_app. by split; [|constructor]. }
    rewrite length_app, Nat.add_1_r in Hb. exists b. split; [done|]. rewrite Hiff.
    split; intros (h' & Hin & Hh'); [exists h'; split; [by right|done]|].
    apply elem_of_cons in Hin as [->|Hin]; [|by exists h'].
    destruct Hh' as [Hh'|(r' & Hr' & Hm')]; congruence.
Qed.

Lemma match_patterns_spec ep c req :
  compiled_ok ep c -> forall ps, (forall pat, pat ∈ ps -> pat ∈ pathregs c) ->
  exists m, match_patterns ps (request_path req) = Ret m /\
    match m with
    | Some fields => exists p, p ∈ ep_Path ep /\ template_matches req p fields
    | None => forall p t pat fields, p ∈ ep_Path ep -> Parse p = Ret t -> pattern_of t = Some pat ->
                pat ∈ ps -> ~ exists vs bs, segs_match (segments_of t) (request_path req) vs bs /\
                  fields = bindings bs
    end.
Proof.
  intros Hok. induction ps as [|pat ps IH]; intros Hin; cbn.
  - exists None. split; [done|]. intros ? ? ? ? _ _ _ H1. by apply not_elem_of_nil in H1.
  - destruct (proj1 (ok_paths _ _ Hok pat) (Hin pat ltac:(left))) as (p & t & Hp & Ht & Hpat).
    destruct (Match_refines_aux p t pat (request_path req) Ht Hpat) as [Hm Hex].
    destruct Hex as [[b Hb]|Hf].
    + rewrite Hb. exists (Some b). split; [done|]. exists p. split; [done|].
      apply Hm in Hb as (vs & bs & Hseg & ->). exists t, vs, bs. by split_and!; [|eexists| |].
    + rewrite Hf. destruct IH as (m & -> & Hspec); [intros; apply Hin; by right|].
      exists m. split; [done|]. destruct m as [fields|]; [done|].
      intros p' t' pat' fields Hp' Ht' Hpat' [->|Hps]%elem_of_cons (vs & bs & Hseg & Hbs).
      * destruct (Match_refines_aux p' t' pat (request_path req) Ht' Hpat') as [Hm' _].
        assert (Match pat (request_path req) "" = Ret fields) as Hr by (apply Hm'; by exists vs, bs).
        congruence.
      * apply (Hspec p' t' pat' fields Hp' Ht' Hpat' Hps). by exists vs, bs.
Qed.

Lemma match_pcre_spec ep c req :
  compiled_ok ep c ->
  match_pcre (pcreregs c) (rq_URLPath req) = true <-> exists p, p ∈ ep_Path ep /\ pcre_matches req p.
Proof.
  intros Hok. unfold match_pcre, pcre_matches. rewrite existsb_exists.
  setoid_rewrite <- list_elem_of_In. setoid_rewrite (ok_pcre _ _ Hok). naive_solver.
Qed.

(** A compiled endpoint answers a request exactly as its source says. *)
Lemma match_endpoint_spec ep c req :
  compiled_ok ep c ->
  exists m, match_endpoint ep c req = Ret m /\
    match m with
    | Some fields => serves ep req fields
    | None => forall fields, ~ serves ep req fields
    end.
Proof.
  intros Hok. unfold match_endpoint.
  assert (existsb (fun m => String.eqb m (rq_Method req)) (ep_Method ep) = true <->
    rq_Method req ∈ ep_Method ep) as Hmeth.
  { rewrite existsb_exists. setoid_rewrite <- list_elem_of_In. setoid_rewrite String.eqb_eq. naive_solver. }
  destruct (existsb _ _); cbn [negb].
  2:{ exists None. split; [done|]. intros fields (Hm & _). by apply Hmeth in Hm. }
  assert (exists b, (match ep_Host ep with
                     | [] => Ret true
                     | hosts => match_host hosts 0 (hostregs c) (rq_URLHost req)
                     end) = Ret b /\ (b = true <-> host_matches req (ep_Host ep))) as (b & -> & Hb).
  { destruct (ep_Host ep) as [|h hs] eqn:Hhost.
    - exists true. split; [done|]. split; [by left|done].
    - destruct (match_host_spec ep c (rq_URLHost req) [] (h :: hs) Hok) as (b & Hb & Hiff);
        [done|constructor|]. exists b. split; [done|]. rewrite Hiff. unfold host_matches.
      split; [by right|]. by intros [?|?]. }
  cbn. destruct b; cbn [negb].
  2:{ exists None. split; [done|]. intros fields (_ & Hh & _). by apply Hb in Hh. }
  destruct (match_patterns_spec ep c req Hok (pathregs c)) as (m & -> & Hm); [done|]. cbn.
  destruct m as [fields|].
  { exists (Some (Some fields)). split; [done|]. split_and!; [by apply Hmeth|by apply Hb|done]. }
  assert (forall p fields, p ∈ ep_Path ep -> ~ template_matches req p fields) as Hno.
  { intros p fields Hp (t & vs & bs & Ht & [pat Hpat] & Hseg & Hf).
    eapply (Hm p t pat fields Hp Ht Hpat); [apply (ok_paths _ _ Hok)|]; eauto. }
  destruct (match_pcre _ _) eqn:Hpc; (eexists; split; [done|]).
  - split_and!; [by apply Hmeth|by apply Hb|by apply (match_pcre_spec ep c req Hok)|done].
  - intros [fields|] (_ & _ & Hs).
    + destruct Hs as (p & Hp & Ht). by eapply Hno.
    + destruct Hs as [Hs _]. apply (match_pcre_spec ep c req Hok) in Hs. congruence.
Qed.

Lemma first_match_spec {A} (get : A -> option (Endpoint * compiled)) l req :
  (forall a ep c, a ∈ l -> get a = Some (ep, c) -> compiled_ok ep c) ->
  match first_match get l req with
  | Ret (a, fields) => a ∈ l /\ exists ep c, get a = Some (ep, c) /\ serves ep req fields
  | Fail err => err = EndpointNotFound /\
      forall a ep c fields, a ∈ l -> get a = Some (ep, c) -> ~ serves ep req fields
  | Panic => False
  end.
Proof.
  induction l as [|a l IH]; intros Hok; cbn.
  { split; [done|]. intros ? ? ? ? H1. by apply not_elem_of_nil in H1. }
  assert (forall a0 ep c, a0 ∈ l -> get a0 = Some (ep, c) -> compiled_ok ep c) as Hok'
    by (intros a0 ep c Hin; apply Hok; by right).
  specialize (IH Hok').
  assert (match first_match get l req with
    | Ret (a', fields) => a' ∈ a :: l /\ exists ep c, get a' = Some (ep, c) /\ serves ep req fields
    | Fail err => err = EndpointNotFound /\
        forall a' ep c fields, a' ∈ l -> get a' = Some (ep, c) -> ~ serves ep req fields
    | Panic => False end) as IH'.
  { destruct (first_match get l req) as [[a' fields]| |]; [|done..].
    destruct IH as [? ?]. split; [by right|done]. }
  destruct (get a) as [[ep c]|] eqn:Hget.
  - destruct (match_endpoint_spec ep c req) as (m & -> & Hm); [by eapply (Hok a); [left|]|]. cbn.
    destruct m as [fields|]; [split; [left|by exists ep, c]|].
    destruct (first_match get l req) as [[a' fields]|err|]; [done| |done].
    destruct IH' as [-> Hno]. split; [done|]. intros a' ep' c' fields [->|Hin]%elem_of_cons Hg.
    + rewrite Hget in Hg. simplify_eq. apply Hm.
    + by eapply Hno.
  - destruct (first_match get l req) as [[a' fields]|err|]; [done| |done].
    destruct IH' as [-> Hno]. split; [done|]. intros a' ep' c' fields [->|Hin]%elem_of_cons Hg.
    + congruence.
    + by eapply Hno.
Qed.

(** *** The static router *)
Inductive reachable : Router -> Prop :=
| reach_New : reachable NewRouter
| reach_Register r ep r' res : reachable r -> Register ep r = (r', res) -> reachable r'
| reach_Deregister r ep r' res : reachable r -> Deregister ep r = (r', res) -> reachable r'
| reach_Stop r : reachable r -> reachable (Stop r).

Definition router_ok (r : Router) : Prop :=
  forall name e, eps r !! name = Some e -> ep_Name (apiep e) = name /\ compiled_ok (apiep e) (cep e).

Lemma Validate_same e ep : Validate e = Ret ep -> e = Some ep.
Proof.
  unfold Validate. destruct e as [e|]; [|done]. destruct (String.eqb _ _); [done|].
  destruct (validate_paths _); cbn; [|done..]. destruct (String.eqb _ _); [done|]. congruence.
Qed.

Lemma router_reachable_ok r : reachable r -> router_ok r.
Proof.
  induction 1 as [|r ep r' res _ IH HR|r ep r' res _ IH HR|r _ IH].
  - intros name e. cbn. by rewrite lookup_empty.
  - unfold Register in HR. destruct (Validate ep) as [ep'| |]; simplify_eq; [|done..].
    destruct (outcome_bind _ _) as [c| |] eqn:Hc; simplify_eq; [|done..].
    intros name e. cbn. rewrite lookup_insert_Some. intros [[<- <-]|[_ He]]; [|by apply IH].
    split; [done|]. by apply static_compiled_ok.
  - unfold Deregister in HR. destruct (Validate ep) as [ep'| |]; simplify_eq; [|done..].
    intros name e. cbn. rewrite lookup_delete_Some. intros [_ He]. by apply IH.
  - exact IH.
Qed.

(** C22: the static router finds an endpoint for a request exactly when a
    registered one serves it: the method is one of the endpoint's, its hosts
    allow the request's host, and one of its path templates matches the path (the
    fields returned are the template's bindings) or, when none does, one of its
    regular expressions. Whatever order the endpoints are tried in, the endpoint
    found is one that serves the request under its own name, and "not found" means
    that none does. The search never panics: the host expression it reads by the
    host's index is always that host's own. *)
Theorem find_endpoint_spec o r req :
  reachable r -> stopped r = false ->
  match find_endpoint o r req with
  | Ret (e, fields) => eps r !! ep_Name (apiep e) = Some e /\ serves (apiep e) req fields
  | Fail err => err = EndpointNotFound /\
      forall name e fields, eps r !! name = Some e -> ~ serves (apiep e) req fields
  | Panic => False
  end.
Proof.
  intros Hok%router_reachable_ok Hs. unfold find_endpoint. rewrite Hs.
  pose proof (first_match_spec (fun e => Some (apiep e.2, cep e.2)) (map_range o (eps r)) req) as Hf.
  destruct (first_match _ _ _) as [[[name e] fields]|err|]; cbn in *.
  - destruct Hf as (Hin%elem_of_map_range & ep & c & [= <- <-] & Hserves).
    { intros [n e'] ep c Hin%elem_of_map_range [= <- <-]. by eapply Hok. }
    by destruct (Hok _ _ Hin) as [-> _].
  - destruct Hf as [-> Hno].
    { intros [n e'] ep c Hin%elem_of_map_range [= <- <-]. by eapply Hok. }
    split; [done|]. intros name e fields He. apply (elem_of_map_range o) in He.
    by eapply (Hno (name, e)).
  - apply Hf. intros [n e'] ep c Hin%elem_of_map_range [= <- <-]. by eapply Hok.
Qed.

(** *** The routes [store] computes *)

(** The endpoints of the services that validate, in the order they are visited. *)
Definition valid_endpoint (s : Service) (sep : Registry.Endpoint) : option (string * (Service * Endpoint)) :=
  match Validate (Decode (Some (e_Metadata sep))) with
  | Ret ep => Some (endpoint_key s sep, (s, ep))
  | _ => None
  end.

Definition valid_endpoints (services : list Service) : list (string * (Service * Endpoint)) :=
  concat (map (fun s => omap (valid_endpoint s) (s_Endpoints s)) services).

(** The route of a key: the service of its first endpoint, the definition of its
    last one, all the service versions that have it. *)
Definition route_of (l : list (string * (Service * Endpoint))) (key : string) : option Route :=
  match map snd (filter (fun e => e.1 = key) l) with
  | [] => None
  | x :: xs => Some (mkRoute (s_Name x.1) (List.last xs x).2 (map fst (x :: xs)))
  end.

Definition add_route (acc : gmap string Route) (e : string * (Service * Endpoint)) : gmap string Route :=
  let '(key, (service, ep)) := e in
  let rt := default (mkRoute (s_Name service) ep []) (acc !! key) in
  <[key := mkRoute (rt_Service rt) ep (rt_Versions rt ++ [service])]> acc.

Lemma slice_nonempty s p : p ∈ slice s -> p <> "".
Proof. unfold slice. by intros [? _]%list_elem_of_filter. Qed.

Lemma bytes_nonempty p : p <> "" -> is_Some (first_byte p) /\ is_Some (last_byte p).
Proof.
  unfold first_byte, last_byte. destruct p as [|a p]; [done|]. intros _. split; [by eexists|].
  cbn. rewrite Nat.sub_0_r. revert a. induction p as [|b p IH]; intros a; cbn; [by eexists|apply IH].
Qed.

Lemma validate_paths_no_panic ps : (forall p, p ∈ ps -> p <> "") -> validate_paths ps <> Panic.
Proof.
  induction ps as [|p ps IH]; intros Hps; cbn; [done|].
  destruct (bytes_nonempty p) as [[s ->] [e ->]]; [apply Hps; left|].
  specialize (IH (fun p Hp => Hps p (list_elem_of_further p _ ps Hp))).
  repeat case_match; done.
Qed.

Lemma compile_path_no_panic p : p <> "" -> exists r, compile_path p = Ret r.
Proof.
  intros Hp. unfold compile_path. destruct (bytes_nonempty p Hp) as [[s ->] [e ->]].
  destruct (Parse_outcome p) as [(t & -> & _)|[err ->]]; [|by eexists].
  destruct (pattern_of t); by eexists.
Qed.

Lemma lenient_paths_no_panic ps c :
  (forall p, p ∈ ps -> p <> "") -> exists c', lenient_paths ps c = Ret c'.
Proof.
  revert c. induction ps as [|p ps IH]; intros c Hps; cbn; [by eexists|].
  destruct (compile_path_no_panic p) as [[pcre rule] ->]; [apply Hps; left|]. cbn.
  destruct rule; apply IH; intros; apply Hps; by right.
Qed.

Lemma store_endpoint_add s acc sep :
  store_endpoint s acc sep = Ret (foldl add_route acc (option_list (valid_endpoint s sep))).
Proof.
  unfold store_endpoint, valid_endpoint. destruct (Validate _) as [ep|err|] eqn:Hv; [done|done|].
  exfalso. unfold Validate in Hv. cbn in Hv. destruct (String.eqb _ _); [done|].
  match type of Hv with context [validate_paths ?ps] =>
    pose proof (validate_paths_no_panic ps (fun p Hp => slice_nonempty _ p Hp)) as Hn;
    destruct (validate_paths ps) end; cbn in Hv; [by destruct (String.eqb _ _)|done|done].
Qed.

Lemma store_service_add acc s :
  store_service (Ret acc) s = Ret (foldl add_route acc (omap (valid_endpoint s) (s_Endpoints s))).
Proof.
  unfold store_service. revert acc. induction (s_Endpoints s) as [|sep l IH]; intros acc; [done|].
  cbn [foldl outcome_bind omap list_omap]. rewrite store_endpoint_add, IH.
  destruct (valid_endpoint s sep); done.
Qed.

Lemma store_services_add services acc :
  foldl store_service (Ret acc) services = Ret (foldl add_route acc (valid_endpoints services)).
Proof.
  revert acc. induction services as [|s services IH]; intros acc; [done|].
  cbn [foldl]. rewrite store_service_add, IH. unfold valid_endpoints. cbn [map concat].
  by rewrite foldl_app.
Qed.

Lemma route_of_snoc l k s ep key :
  route_of (l ++ [(k, (s, ep))]) key =
  if decide (k = key) then
    let rt := default (mkRoute (s_Name s) ep []) (route_of l key) in
    Some (mkRoute (rt_Service rt) ep (rt_Versions rt ++ [s]))
  else route_of l key.
Proof.
  unfold route_of. rewrite filter_app, map_app. destruct (decide (k = key)) as [->|Hk].
  - rewrite (filter_cons_True _ _ []), filter_nil by done. cbn [map].
    destruct (map snd (filter _ l)) as [|x xs]; cbn; [done|].
    rewrite map_app, last_last. done.
  - by rewrite (filter_cons_False _ _ []), filter_nil, app_nil_r by done.
Qed.

Lemma add_routes_lookup l key : foldl add_route ∅ l !! key = route_of l key.
Proof.
  induction l as [|[k [s ep]] l IH] using rev_ind; [done|].
  rewrite foldl_snoc, route_of_snoc. unfold add_route at 1. destruct (decide (k = key)) as [->|Hk].
  - by rewrite lookup_insert_eq, IH.
  - by rewrite lookup_insert_ne.
Qed.

Lemma route_of_paths l key rt p :
  (forall k s ep, (k, (s, ep)) ∈ l -> forall p, p ∈ ep_Path ep -> p <> "") ->
  route_of l key = Some rt -> p ∈ ep_Path (rt_Endpoint rt) -> p <> "".
Proof.
  intros Hl. unfold route_of.
  destruct (map snd (filter (fun e => e.1 = key) l)) as [|x xs] eqn:Hf; [done|]. intros [= <-]. cbn.
  assert (List.last xs x ∈ x :: xs) as Hin.
  { clear. assert (forall (A : Type) (l : list A) d, l <> [] -> List.last l d ∈ l) as Hlast.
    { intros A l d. induction l as [|a l IH]; [done|]. intros _.
      destruct l as [|b l]; [left|right; by apply IH]. }
    destruct xs as [|y xs]; [left|right; by apply Hlast]. }
  rewrite <- Hf in Hin. apply list_elem_of_In, in_map_iff in Hin as ([k [s ep]] & Heq & Hin).
  apply list_elem_of_In, list_elem_of_filter in Hin as [_ Hin]. rewrite <- Heq. cbn. by apply (Hl k s ep).
Qed.

Lemma valid_endpoints_paths services k s ep :
  (k, (s, ep)) ∈ valid_endpoints services -> forall p, p ∈ ep_Path ep -> p <> "".
Proof.
  unfold valid_endpoints. rewrite list_elem_of_In, in_concat. intros (l & Hl & Hin).
  apply in_map_iff in Hl as (s' & <- & _). apply list_elem_of_In, list_elem_of_omap in Hin as (sep & _ & Hv).
  unfold valid_endpoint in Hv. destruct (Validate _) as [ep'| |] eqn:He; simplify_eq.
  apply Validate_same in He. cbn in He. simplify_eq. intros p. apply slice_nonempty.
Qed.

Lemma set_routes l r :
  (forall k rt, (k, rt) ∈ l -> forall p, p ∈ ep_Path (rt_Endpoint rt) -> p <> "") -> NoDup l.*1 ->
  exists r', foldl set_route (Ret r) l = Ret r' /\ r_stopped r' = r_stopped r /\
    r_Handler r' = r_Handler r /\
    (forall k, k ∉ l.*1 -> r_eps r' !! k = r_eps r !! k /\ r_ceps r' !! k = r_ceps r !! k) /\
    (forall k rt, (k, rt) ∈ l -> r_eps r' !! k = Some rt /\ exists c,
      r_ceps r' !! k = Some c /\
      lenient_paths (ep_Path (rt_Endpoint rt)) (lenient_hosts (ep_Host (rt_Endpoint rt)) (mkCompiled [] [] []))
        = Ret c).
Proof.
  revert r. induction l as [|[k rt] l IH]; intros r Hp Hnd.
  - exists r. split_and!; try done. intros k rt Hin. by apply not_elem_of_nil in Hin.
  - apply NoDup_cons in Hnd as [Hk Hnd]. cbn [foldl].
    destruct (lenient_paths_no_panic (ep_Path (rt_Endpoint rt))
      (lenient_hosts (ep_Host (rt_Endpoint rt)) (mkCompiled [] [] []))) as [c Hc].
    { apply (Hp k rt). left. }
    unfold set_route at 2. cbn. rewrite Hc. cbn.
    set (r1 := mkRegistryRouter _ _ _ _).
    destruct (IH r1) as (r' & Hr' & ? & ? & Hout & Hin'); [intros k' rt' ?; apply (Hp k' rt'); by right|done|].
    exists r'. split_and!; [exact Hr'|done|done| |].
    + intros k' Hk'. destruct (Hout k') as [-> ->]; [set_solver|]. cbn.
      rewrite !lookup_insert_ne by set_solver. done.
    + intros k' rt' [Heq|Hin]%elem_of_cons; [|by apply Hin']. simplify_eq.
      destruct (Hout k Hk) as [-> ->]. cbn. rewrite !lookup_insert_eq. split; [done|]. by exists c.
Qed.

(** Storing what the registry knows of some services replaces exactly their
    routes, whatever the orders of iteration: a key that one of the services'
    endpoints yields gets the route of those endpoints (the definition of the last
    one that validates, the service versions in order) and its paths compiled;
    any other route of a service in the list is removed; all other routes and
    their compiled forms stay; endpoints that do not decode to a valid endpoint
    are skipped; and the update never fails or panics. *)
Theorem store_spec o o' services r :
  exists r', store o o' services r = Ret r' /\
    r_stopped r' = r_stopped r /\ r_Handler r' = r_Handler r /\
    forall key,
      match route_of (valid_endpoints services) key with
      | Some rt => r_eps r' !! key = Some rt /\ exists c, r_ceps r' !! key = Some c /\
          paths_add (ep_Path (rt_Endpoint rt))
            (lenient_hosts (ep_Host (rt_Endpoint rt)) (mkCompiled [] [] [])) c
      | None => r_ceps r' !! key = r_ceps r !! key /\
          r_eps r' !! key = (rt ← r_eps r !! key;
                             if known services (rt_Service rt) then None else Some rt)
      end.
Proof.
  unfold store. rewrite store_services_add. cbn [outcome_bind].
  set (neu := foldl add_route ∅ (valid_endpoints services)).
  assert (forall key, neu !! key = route_of (valid_endpoints services) key) as Hneu
    by apply add_routes_lookup.
  rewrite (foldl_delete_range o (fun rt => known services (rt_Service rt))).
  set (kept := filter _ (r_eps r)).
  destruct (set_routes (map_range o' neu) (mkRegistryRouter kept (r_ceps r) (r_stopped r) (r_Handler r)))
    as (r' & -> & Hs & Hh & Hout & Hin).
  { intros k rt Hin%elem_of_map_range p. rewrite Hneu in Hin. eapply route_of_paths; [|done].
    intros k' s ep. apply valid_endpoints_paths. }
  { apply NoDup_map_range. }
  exists r'. split_and!; [done|done|done|]. intros key. rewrite <- Hneu.
  destruct (neu !! key) as [rt|] eqn:Hk.
  - apply (elem_of_map_range o') in Hk. destruct (Hin key rt Hk) as (-> & c & -> & Hc).
    split; [done|]. exists c. split; [done|]. by apply lenient_paths_ok.
  - destruct (Hout key) as [-> ->].
    { intros ([k rt] & -> & Hin')%list_elem_of_fmap. apply elem_of_map_range in Hin'. cbn in Hk. congruence. }
    split; [done|]. cbn. unfold kept. rewrite map_lookup_filter. destruct (r_eps r !! key) as [rt|]; [|done].
    cbn. destruct (known services (rt_Service rt)) eqn:Hkn.
    + by rewrite option_guard_False.
    + by rewrite option_guard_True.
Qed.
End router.

(** *** Endpoint metadata *)
Lemma set_field_eq k v (m : gmap string string) :
  m !! k = None -> default "" (set_field k v m !! k) = v.
Proof.
  unfold set_field. intros Hm. destruct (String.eqb_spec v "") as [->|_]; [by rewrite Hm|].
  by rewrite lookup_insert_eq.
Qed.

Lemma set_field_ne k k' v (m : gmap string string) : k <> k' -> set_field k v m !! k' = m !! k'.
Proof. unfold set_field. intros Hk. destruct (String.eqb v ""); [done|]. by rewrite lookup_insert_ne. Qed.

(** A list item survives the comma-separated form. *)
Definition item_ok (w : string) : bool :=
  negb (String.eqb w "") && negb (str_has "," w) && String.eqb (strip w) w.

Lemma slice_join l : forallb item_ok l = true -> slice (join "," l) = l.
Proof.
  intros Hl. rewrite forallb_forall in Hl. unfold slice.
  destruct (decide (l = [])) as [->|Hne]; [done|].
  assert (forall w, w ∈ l -> w <> "" /\ str_has "," w = false /\ strip w = w) as Hok.
  { intros w Hw%list_elem_of_In%Hl. unfold item_ok in Hw.
    destruct (String.eqb_spec w ""), (str_has "," w), (String.eqb_spec (strip w) w); done. }
  rewrite split_join by (try done; apply Forall_forall; intros w Hw; by apply Hok).
  clear Hl Hne. induction l as [|w l IH]; [done|]. cbn [map].
  destruct (Hok w) as (Hw & _ & ->); [left|]. rewrite filter_cons_True by done.
  f_equal. apply IH. intros w' Hw'. apply Hok. by right.
Qed.

(** An endpoint survives its metadata form, stream flag apart: decoding what
    [Encode] wrote gives the endpoint back with [Stream] off, when the items of
    its lists are non-empty, free of commas and of surrounding blanks; empty
    fields and empty lists included. *)
Theorem Encode_Decode e :
  forallb item_ok (ep_Host e ++ ep_Method e ++ ep_Path e) = true ->
  Decode (Encode (Some e)) =
  Some (mkEndpoint (ep_Name e) (ep_Description e) (ep_Handler e) (ep_Host e) (ep_Method e) (ep_Path e) false).
Proof.
  rewrite !forallb_app, !andb_true_iff. intros (Hh & Hm & Hp). unfold Encode, Decode. cbv zeta.
  repeat first [rewrite set_field_eq by (rewrite ?set_field_ne by done; done)
               | rewrite set_field_ne by done].
  by rewrite !slice_join.
Qed.

(** ** Concrete runs *)

(** Regular expressions that are literals, with or without the anchors; one with
    a parenthesis does not compile. *)
Definition lit_regexp : Regexp string := {|
  CompilePOSIX := fun s => if str_has "(" s then None else Some s;
  MatchString := fun r s => String.eqb r s || String.eqb r ("^" +:+ s +:+ "$");
|}.

#[local] Existing Instance lit_regexp.

Definition greeter : Endpoint :=
  mkEndpoint "greeter.hello" "says hello" "rpc" ["api.example"] ["GET"; "POST"]
    ["/hello/{name=*}"; "^/hi$"] false.

Definition greet_request (path : string) : Request :=
  mkRequest "GET" "api.example" path path "api.example" (mkContext None ∅).

Definition greeter_router : Router := (Register (E := unit) (Some greeter) NewRouter).1.

Lemma greeter_reachable : reachable (E := unit) greeter_router.
Proof.
  unfold greeter_router. destruct (Register (Some greeter) NewRouter) as [r res] eqn:Hr.
  by apply (reach_Register (E := unit) NewRouter (Some greeter) r res (reach_New (E := unit))).
Qed.

Lemma find_endpoint_spec_witness :
  exists e, eps greeter_router !! "greeter.hello" = Some e /\
    serves (apiep e) (greet_request "/hello/bob") (Some {["name" := "bob"]}).
Proof.
  pose proof (find_endpoint_spec (E := unit) order_id greeter_router (greet_request "/hello/bob")
    greeter_reachable eq_refl) as Hf.
  destruct (find_endpoint (E := unit) order_id greeter_router (greet_request "/hello/bob"))
    as [[e fields]|err|] eqn:Hrun; vm_compute in Hrun; [|discriminate Hrun..].
  injection Hrun as He Hfields. exists e. destruct Hf as [Hlook Hs].
  split; [|by rewrite <- Hfields in Hs]. rewrite <- He in Hlook |- *. exact Hlook.
Defined.

Lemma Encode_Decode_witness : Decode (Encode (Some greeter)) = Some greeter.
Proof. apply (Encode_Decode greeter). vm_compute. reflexivity. Defined.

(** A template with a verb serves paths without it: the patterns are built with
    an empty verb. *)
Definition verb_router : Router :=
  (Register (E := unit)
     (Some (mkEndpoint "jobs.cancel" "" "rpc" [] ["GET"] ["/jobs/*:cancel"] false)) NewRouter).1.

Example verb_is_dropped :
  is_Some (match find_endpoint (E := unit) order_id verb_router (greet_request "/jobs/7") with
           | Ret x => Some x | _ => None end).
Proof. vm_compute. by eexists. Qed.

(** In the registry router a host expression that does not compile shifts the
    expressions after it: the second host is looked up past the end. *)
Definition misaligned_service : Service :=
  mkService "jobs" "1" ∅ [Registry.mkEndpoint None None
    {["endpoint" := "jobs.list"; "handler" := "rpc"; "host" := "(,b"; "method" := "GET"; "path" := "/jobs"]}
    "list"] [].

Example bad_host_panics :
  (r <-! store (E := unit) order_id order_id [misaligned_service] (newRouter "rpc");
   (registry_Endpoint (E := unit) order_id order_id order_id r
      (mkRequest "GET" "c" "/jobs" "/jobs" "c" (mkContext None ∅))).2) = Panic.
Proof. vm_compute. reflexivity. Qed.

(** [Validate] reads the first byte of a path without looking at its length. *)
Example Validate_empty_path :
  Validate (E := unit) (Some (mkEndpoint "a" "" "rpc" [] ["GET"] [""] false)) = Panic.
Proof. reflexivity. Qed.
