(* ===== verification/GoStrconv.v ===== *)
(** * The functions of Go's [strconv] and [fmt] that the code calls on integers

    [FormatInt], [Itoa] and the verb [%d] print decimal digits; [ParseInt] with
    base 10 and 64 bits, and [Atoi], read them back. These stand for the standard
    library, not for code under src/. *)
From Stdlib Require Import DecimalString DecimalNat DecimalN DecimalFacts.
From S2P Require Import Prelude GoStrings.

(** ** Printing *)
Definition fmt_N (n : N) : string := NilZero.string_of_uint (N.to_uint n).

Definition fmt_Z (z : Z) : string :=
  if (z <? 0)%Z then String "-" (fmt_N (Z.to_N (- z))) else fmt_N (Z.to_N z).

(** ** Parsing *)
Inductive NumError := ErrSyntax | ErrRange (clamped : Z).

(** Digits only; [None] is a syntax error. *)
Definition digits (s : string) : option N := N.of_uint <$> NilZero.uint_of_string s.

(** The sign, and the digits that follow it. *)
Definition sign_split (s : string) : bool * string :=
  match s with
  | String "-" s' => (true, s')
  | String "+" s' => (false, s')
  | _ => (false, s)
  end.

(** [strconv.ParseInt(s, 10, 64)]; a range error carries the value returned. *)
Definition ParseInt (s : string) : NumError + Z :=
  let '(neg, ds) := sign_split s in
  match digits ds with
  | None => inl ErrSyntax
  | Some n =>
      let z := Z.of_N n in
      if neg then if (2 ^ 63 <? z)%Z then inl (ErrRange int_min) else inr (- z)%Z
      else if (int_max <? z)%Z then inl (ErrRange int_max) else inr z
  end.

(** ** Round trips *)
Lemma to_uint_nonnil n : N.to_uint n <> Decimal.Nil.
Proof. destruct n as [|p]; [done|]. cbn. apply DecimalPos.Unsigned.to_uint_nonnil. Qed.

Lemma digits_fmt_N n : digits (fmt_N n) = Some n.
Proof.
  unfold digits, fmt_N. rewrite NilZero.usu by apply to_uint_nonnil. cbn.
  by rewrite DecimalN.Unsigned.of_to.
Qed.

Lemma fmt_N_inj n m : fmt_N n = fmt_N m -> n = m.
Proof. intros Heq. enough (Some n = Some m) by congruence. by rewrite <- !digits_fmt_N, Heq. Qed.

Definition is_digit (a : ascii) : bool := (48 <=? nat_of_ascii a) && (nat_of_ascii a <=? 57).

Lemma string_of_uint_digits d : str_forall is_digit (NilEmpty.string_of_uint d) = true.
Proof. by induction d. Qed.

Lemma fmt_N_digits n : str_forall is_digit (fmt_N n) = true.
Proof.
  unfold fmt_N, NilZero.string_of_uint. destruct (N.to_uint n); [done|..]; apply string_of_uint_digits.
Qed.

Lemma fmt_N_nonempty n : fmt_N n <> "".
Proof. intros Hn. pose proof (digits_fmt_N n) as Hd. by rewrite Hn in Hd. Qed.

Lemma sign_split_fmt_N n : sign_split (fmt_N n) = (false, fmt_N n).
Proof.
  pose proof (fmt_N_digits n) as Hd. destruct (fmt_N n) as [|a s]; [done|].
  cbn in Hd. apply andb_true_iff in Hd as [Ha _].
  by destruct a as [[] [] [] [] [] [] [] []].
Qed.

Lemma ParseInt_fmt z : (int_min <= z <= int_max)%Z -> ParseInt (fmt_Z z) = inr z.
Proof.
  unfold fmt_Z, ParseInt, int_min, int_max. intros Hz. destruct (Z.ltb_spec z 0).
  - cbn [sign_split]. rewrite digits_fmt_N, Z2N.id by lia.
    destruct (Z.ltb_spec (2 ^ 63) (- z)); [lia|]. f_equal. lia.
  - rewrite sign_split_fmt_N, digits_fmt_N, Z2N.id by lia.
    destruct (Z.ltb_spec (2 ^ 63 - 1) z); [lia|done].
Qed.

Lemma ParseInt_range s z : ParseInt s = inr z -> (int_min <= z <= int_max)%Z.
Proof.
  unfold ParseInt, int_min, int_max. destruct (sign_split s) as [neg ds].
  destruct (digits ds) as [n|]; [|done]. destruct neg.
  - destruct (Z.ltb_spec (2 ^ 63) (Z.of_N n)); [done|]. intros [= <-]. lia.
  - destruct (Z.ltb_spec (2 ^ 63 - 1) (Z.of_N n)); [done|]. intros [= <-]. lia.
Qed.
