(* ===== verification/GoIO.v ===== *)
(** * Byte streams and the values codecs carry

    Go's [io.Reader] and [io.Writer] as the codecs use them, [encoding/binary]'s
    big-endian integers, and the dynamic values that are marshalled. These stand
    for the standard library and for interfaces, not for code under src/. A byte
    slice is a string. *)
From S2P Require Import Prelude GoStrings GoStrconv.

(** ** Errors *)
Inductive error :=
| EOF
| ErrUnexpectedEOF
| ErrInvalidMessage
| ErrShutdown
| ErrMsg (text : string).

#[export] Instance error_eq_dec : EqDecision error.
Proof. solve_decision. Defined.

Definition error_text (e : error) : string :=
  match e with
  | EOF => "EOF"
  | ErrUnexpectedEOF => "unexpected EOF"
  | ErrInvalidMessage => "invalid message"
  | ErrShutdown => "connection is shut down"
  | ErrMsg text => text
  end.

(** ** Connections

    What has arrived and was not read, in the pieces in which it arrived; what was
    written, one item per [Write]; whether writes fail. [Read] with a buffer of
    [n > 0] bytes returns what is left of the first piece, at most [n] bytes of it:
    an [io.Reader] may return less than was asked for. *)
Record conn := mkConn { c_in : list string; c_out : list string; c_broken : bool }.

Definition push (rest : string) (cs : list string) : list string :=
  if String.eqb rest "" then cs else rest :: cs.

Definition Read (n : nat) (c : conn) : conn * option string :=
  match c_in c with
  | [] => (c, None)
  | chunk :: cs =>
      (mkConn (push (str_drop n chunk) cs) (c_out c) (c_broken c), Some (str_take n chunk))
  end.

Definition broken_pipe : error := ErrMsg "io: read/write on closed pipe".

Definition Write (data : string) (c : conn) : conn * outcome error unit :=
  if c_broken c then (c, Fail broken_pipe)
  else (mkConn (c_in c) (c_out c ++ [data]) false, Ret ()).

(** [io.ReadAll], [io.Copy] into a buffer: everything up to the end. *)
Definition ReadAll (c : conn) : conn * string :=
  (mkConn [] (c_out c) (c_broken c), String.concat "" (c_in c)).

(** ** Buffers of a given size

    [make([]byte, n)] is zeroed; a read fills its beginning. *)
Fixpoint zeros (n : nat) : string :=
  match n with 0 => "" | S n => String "000" (zeros n) end.

Definition pad (n : nat) (got : string) : string := got +:+ zeros (n - String.length got).

(** [r.Read(make([]byte, n))]. *)
Definition read_buf (n : nat) (c : conn) : conn * outcome error string :=
  match Read n c with
  | (c, None) => (c, Fail EOF)
  | (c, Some got) => (c, Ret (pad n got))
  end.

(** ** Big-endian integers of 32 bits *)
Definition byte_of (z : Z) : ascii := ascii_of_N (Z.to_N (z mod 256)).
Definition of_byte (a : ascii) : Z := Z.of_N (N_of_ascii a).

Definition PutUint32 (z : Z) : string :=
  String (byte_of (Z.shiftr z 24)) (String (byte_of (Z.shiftr z 16))
    (String (byte_of (Z.shiftr z 8)) (String (byte_of z) ""))).

(** Reading less than four bytes is out of range; the callers have four. *)
Definition Uint32 (s : string) : option Z :=
  match s with
  | String a (String b (String c (String d _))) =>
      Some (Z.lor (Z.shiftl (of_byte a) 24) (Z.lor (Z.shiftl (of_byte b) 16)
        (Z.lor (Z.shiftl (of_byte c) 8) (of_byte d))))
  | _ => None
  end.

(** ** Dynamic values

    What is passed as [interface{}] for a body, by the types the codecs switch on:
    protobuf messages, the frame types of the bytes and text codecs, and the rest.
    Marshalling is that of the protobuf and JSON libraries; an error is its text. *)
Inductive value (M V : Type) : Type :=
| VNil
| VProto (m : M)
| VFrame (data : string)
| VTextFrame (data : string)
| VBytes (data : string)
| VBytesPtr (data : string)
| VString (s : string)
| VStringPtr (s : string)
| VOther (v : V).
Arguments VNil {M V}.
Arguments VProto {M V} m.
Arguments VFrame {M V} data.
Arguments VTextFrame {M V} data.
Arguments VBytes {M V} data.
Arguments VBytesPtr {M V} data.
Arguments VString {M V} s.
Arguments VStringPtr {M V} s.
Arguments VOther {M V} v.

(** [Unmarshal] fills a target, whose type decides the result. *)
Class Marshalling (M V : Type) := {
  proto_Marshal : M -> string + string;
  proto_Unmarshal : string -> M -> string + M;
  json_Marshal : value M V -> string + string;
  json_Unmarshal : string -> value M V -> string + value M V;
}.

(** The documented round trip of a marshaller on messages of one type. *)
Class MarshallingOk (M V : Type) `{Marshalling M V} := {
  same_type : M -> M -> Prop;
  proto_round_trip m m' data :
    same_type m m' -> proto_Marshal m = inr data -> proto_Unmarshal data m' = inr m;
}.

(** [err] of a library call, as the outcome of the function that returns it. *)
Definition lib {A} (r : string + A) : outcome error A :=
  match r with inl e => Fail (ErrMsg e) | inr a => Ret a end.

(** ** Lemmas *)
Lemma length_zeros n : String.length (zeros n) = n.
Proof. induction n; cbn; auto. Qed.

Lemma length_pad n s : String.length s <= n -> String.length (pad n s) = n.
Proof. intros Hs. unfold pad. rewrite str_length_app, length_zeros. lia. Qed.

Lemma pad_full n s : String.length s = n -> pad n s = s.
Proof. intros <-. unfold pad. rewrite Nat.sub_diag. apply str_app_nil_r. Qed.

Lemma of_byte_of z : of_byte (byte_of z) = (z mod 256)%Z.
Proof.
  unfold of_byte, byte_of. pose proof (Z.mod_pos_bound z 256 ltac:(lia)).
  rewrite N_ascii_embedding by lia. by rewrite Z2N.id by lia.
Qed.

Lemma byte_join hi lo k :
  (0 <= k)%Z -> (0 <= lo < 2 ^ k)%Z -> Z.lor (Z.shiftl hi k) lo = (hi * 2 ^ k + lo)%Z.
Proof.
  intros Hk Hlo. rewrite Z.shiftl_mul_pow2 by done.
  rewrite <- Z.add_lor_land. enough (Z.land (hi * 2 ^ k) lo = 0)%Z by lia.
  apply Z.bits_inj'. intros n Hn. rewrite Z.land_spec, Z.bits_0.
  destruct (Z.lt_ge_cases n k).
  - rewrite Z.mul_pow2_bits_low by lia. done.
  - replace lo with (lo mod 2 ^ k)%Z by (apply Z.mod_small; lia).
    rewrite Z.mod_pow2_bits_high by lia. apply andb_false_r.
Qed.

Lemma Uint32_Put z rest : Uint32 (PutUint32 z +:+ rest) = Some (z mod 2 ^ 32)%Z.
Proof.
  unfold PutUint32. cbn [String.append Uint32]. f_equal. rewrite !of_byte_of.
  pose proof (Z.mod_pos_bound z 256 ltac:(lia)).
  pose proof (Z.mod_pos_bound (Z.shiftr z 8) 256 ltac:(lia)).
  pose proof (Z.mod_pos_bound (Z.shiftr z 16) 256 ltac:(lia)).
  rewrite (byte_join _ _ 8) by lia. rewrite (byte_join _ _ 16) by lia. rewrite (byte_join _ _ 24) by lia.
  rewrite !Z.shiftr_div_pow2 by lia. Z.div_mod_to_equations. lia.
Qed.

Lemma length_PutUint32 z : String.length (PutUint32 z) = 4.
Proof. done. Qed.

Lemma str_take_all n s : String.length s <= n -> str_take n s = s.
Proof. revert n. induction s as [|a s IH]; intros [|n] Hn; cbn in *; [done..|lia|]. by rewrite IH by lia. Qed.

Lemma str_drop_all n s : String.length s <= n -> str_drop n s = "".
Proof. revert n. induction s as [|a s IH]; intros [|n] Hn; cbn in *; [done..|lia|]. apply IH. lia. Qed.

Lemma str_length_take n s : String.length (str_take n s) = min n (String.length s).
Proof. revert n. induction s as [|a s IH]; intros [|n]; cbn; auto. Qed.

(** *** Whole parts

    The writes of a sender arrive grouped: each piece is some of them, none cut. *)
Definition grouped (parts : list string) (pieces : list string) : Prop :=
  exists gs, Forall (fun g => g <> []) gs /\ concat gs = parts /\ pieces = map (String.concat "") gs.

Lemma concat_str_cons p g : String.concat "" (p :: g) = p +:+ String.concat "" g.
Proof. destruct g; cbn; [by rewrite str_app_nil_r|done]. Qed.

Lemma concat_str_nonempty g : Forall (fun p => p <> "") g -> g <> [] -> String.concat "" g <> "".
Proof.
  intros Hg Hne. destruct Hg as [|p g Hp _]; [done|]. rewrite concat_str_cons. by destruct p.
Qed.

Lemma grouped_each parts : grouped parts parts.
Proof.
  exists (map (fun p => [p]) parts). split_and!.
  - by apply Forall_fmap, Forall_true.
  - induction parts; cbn; by f_equal.
  - rewrite map_map. cbn. by rewrite map_id.
Qed.

Lemma grouped_one parts : parts <> [] -> grouped parts [String.concat "" parts].
Proof.
  intros Hne. exists [parts]. split_and!; [by repeat constructor|cbn; apply app_nil_r|done].
Qed.

Lemma grouped_nil pieces : grouped [] pieces -> pieces = [].
Proof.
  intros (gs & Hgs & Hc & ->). destruct Hgs as [|g gs Hg _]; [done|]. by destruct g.
Qed.

(** Reading exactly the first part. *)
Lemma Read_part p parts c :
  Forall (fun p => p <> "") (p :: parts) -> grouped (p :: parts) (c_in c) ->
  exists pieces, Read (String.length p) c = (mkConn pieces (c_out c) (c_broken c), Some p) /\
    grouped parts pieces.
Proof.
  intros [Hp Hparts]%Forall_cons (gs & Hgs & Hc & Hin). unfold Read. rewrite Hin.
  destruct Hgs as [|g gs Hg Hgs]; [done|]. destruct g as [|p' g]; [done|].
  cbn in Hc. injection Hc as -> Hc. cbn [map].
  rewrite concat_str_cons, str_take_app, str_drop_app.
  exists (push (String.concat "" g) (map (String.concat "") gs)). split; [done|]. unfold push.
  destruct (decide (g = [])) as [->|Hg'].
  - cbn. by exists gs.
  - destruct (String.eqb_spec (String.concat "" g) "") as [He|_].
    + exfalso. apply concat_str_nonempty in He; [done| |done].
      rewrite <- Hc in Hparts. by apply Forall_app in Hparts as [? _].
    + exists (g :: gs). split_and!; [by constructor|done|done].
Qed.

Lemma read_buf_part p parts c n :
  n = String.length p ->
  Forall (fun p => p <> "") (p :: parts) -> grouped (p :: parts) (c_in c) ->
  exists pieces, read_buf n c = (mkConn pieces (c_out c) (c_broken c), Ret p) /\ grouped parts pieces.
Proof.
  intros -> Hne Hg. destruct (Read_part p parts c Hne Hg) as (pieces & Hr & Hp).
  exists pieces. split; [|done]. unfold read_buf. by rewrite Hr, pad_full.
Qed.

(** ** Strings as messages

    A concrete marshaller, for runs: messages are strings and stand for themselves. *)
Definition text_marshalling : Marshalling string unit := {|
  proto_Marshal := inr;
  proto_Unmarshal := fun data _ => inr data;
  json_Marshal := fun b => match b with VString s => inr s | _ => inl "json: unsupported type" end;
  json_Unmarshal := fun data b =>
    match b with VStringPtr _ => inr (VStringPtr data) | _ => inl "json: cannot unmarshal" end;
|}.

Definition text_marshalling_ok : @MarshallingOk string unit text_marshalling.
Proof. refine {| same_type := fun _ _ => True |}. intros m m' data _. cbn. congruence. Defined.
