(* ===== verification/GoHttp.v ===== *)
(** * The parts of [net/http] and [net/textproto] that the code uses

    Header keys and values, and what the headers of a request or of a response are at the
    other end of a connection. Bodies are carried as they are. *)
From S2P Require Import Prelude GoStrings GoStrconv Metadata.

Notation Header := (gmap string (list string)).

(** ** Keys and values *)
(** The bytes a key can have. *)
Definition is_token (a : ascii) : bool :=
  let n := nat_of_ascii a in
  is_digit a || ((65 <=? n) && (n <=? 90)) || ((97 <=? n) && (n <=? 122)) || str_has a "!#$%&'*+-.^_`|~".

Fixpoint canonical_from (upper : bool) (s : string) : string :=
  match s with
  | "" => ""
  | String a s =>
      let a' := if upper then to_title a else to_lower_char a in
      String a' (canonical_from (Ascii.eqb a "-") s)
  end.

(** [textproto.CanonicalMIMEHeaderKey]: keys with other bytes are kept. *)
Definition canonical (s : string) : string := if str_forall is_token s then canonical_from true s else s.

Definition valid_key (s : string) : bool := negb (String.eqb s "") && str_forall is_token s.

(** [Header.Set] *)
Definition header_set (k v : string) (h : Header) : Header := <[canonical k := [v]]> h.

Definition set_all (o : map_order) (m : gmap string string) (h : Header) : Header :=
  foldl (fun h kv => header_set kv.1 kv.2 h) h (map_range o m).

Definition first_of (vs : list string) : string := List.hd "" vs.

Definition is_blank (a : ascii) : bool := Ascii.eqb a " " || Ascii.eqb a "009".

Fixpoint trim_left (s : string) : string :=
  match s with String a r => if is_blank a then trim_left r else s | "" => "" end.

Fixpoint trim_right (s : string) : string :=
  match s with
  | "" => ""
  | String a r => match trim_right r with "" => if is_blank a then "" else String a "" | r' => String a r' end
  end.

Fixpoint newline_to_space (s : string) : string :=
  match s with
  | "" => ""
  | String a r => String (if Ascii.eqb a "010" || Ascii.eqb a "013" then " " else a) (newline_to_space r)
  end.

(** A value as it is written, and whether it can be read. *)
Definition field_value (v : string) : string := trim_left (trim_right (newline_to_space v)).

Definition valid_byte (a : ascii) : bool :=
  let n := nat_of_ascii a in (n =? 9) || ((32 <=? n) && negb (n =? 127)).

Definition valid_value (v : string) : bool := str_forall valid_byte v.

(** ** Messages on a connection *)

(** The keys that are written by the library itself. *)
Definition request_unwritten : list string := ["Host"; "User-Agent"; "Content-Length"; "Transfer-Encoding"; "Trailer"].

Definition response_unwritten : list string := ["Content-Length"; "Transfer-Encoding"; "Trailer"].

Definition lines (unwritten : list string) (h : Header) : Header :=
  map_imap (fun k vs => if bool_decide (k ∈ unwritten) || negb (valid_key k) || bool_decide (vs = []) then None
                        else Some (map field_value vs)) h.

Definition user_agent (h : Header) : option string :=
  match h !! "User-Agent" with
  | None => Some "Go-http-client/1.1"
  | Some vs => if String.eqb (first_of vs) "" then None else Some (field_value (first_of vs))
  end.

Definition spaced (a : ascii) : ascii := if Ascii.eqb a "," || Ascii.eqb a "009" then " "%char else a.

Fixpoint words (s : string) : string := match s with "" => "" | String a r => String (spaced a) (words r) end.

Definition has_close (v : string) : bool := existsb (String.eqb "close") (split_char " " (words (to_lower v))).

(** Reading a header with [Pragma: no-cache]. *)
Definition fix_pragma (h : Header) : Header :=
  if bool_decide (head (default [] (h !! "Pragma")) = Some "no-cache") && bool_decide (h !! "Cache-Control" = None)
  then <["Cache-Control" := ["no-cache"]]> h else h.

Definition length_text (body : string) : string := fmt_N (N.of_nat (String.length body)).

(** The headers of a request at the other end; [close] is the field [Close]. An empty body
    is sent in chunks. *)
Definition request_at_end (close : bool) (h : Header) (body : string) : Header :=
  let h0 := lines request_unwritten h in
  let h1 := match user_agent h with Some u => <["User-Agent" := [u]]> h0 | None => h0 end in
  let h2 := if String.eqb body "" then h1 else <["Content-Length" := [length_text body]]> h1 in
  let h3 := if close && negb (has_close (first_of (default [] (h !! "Connection"))))
            then <["Connection" := "close" :: default [] (h0 !! "Connection")]> h2 else h2 in
  fix_pragma h3.

Definition response_at_end (h : Header) (body : string) : Header :=
  fix_pragma (<["Content-Length" := [length_text body]]> (lines response_unwritten h)).

(** Headers that can be read, and that ask for nothing of the library but to be carried. *)
Definition ordinary (h : Header) : bool :=
  bool_decide (map_Forall (fun k vs => Forall (fun v => valid_value (field_value v) = true) vs /\
    k <> "Expect" /\ k <> "Upgrade") h).

(** ** Facts *)
Definition library_keys : list string := "Connection" :: "Cache-Control" :: request_unwritten.

Lemma fix_pragma_lookup h k : k <> "Cache-Control" -> fix_pragma h !! k = h !! k.
Proof. intros Hk. unfold fix_pragma. case_match; [|done]. by rewrite lookup_insert_ne. Qed.

Lemma lines_lookup unwritten h k vs :
  k ∉ unwritten -> valid_key k = true -> vs <> [] -> h !! k = Some vs -> lines unwritten h !! k = Some (map field_value vs).
Proof.
  intros Hk Hv Hn Hl. unfold lines. rewrite map_lookup_imap, Hl. cbn. rewrite bool_decide_eq_false_2 by done.
  rewrite Hv, bool_decide_eq_false_2 by done. done.
Qed.

Lemma lines_lookup_none unwritten h k : h !! k = None -> lines unwritten h !! k = None.
Proof. intros Hl. unfold lines. by rewrite map_lookup_imap, Hl. Qed.

Lemma request_at_end_lookup close h body k :
  k ∉ library_keys -> request_at_end close h body !! k = lines request_unwritten h !! k.
Proof.
  intros Hk. unfold library_keys, request_unwritten in Hk. rewrite !not_elem_of_cons in Hk.
  destruct Hk as (Hc & Hcc & Hh & Hu & Hl & _). unfold request_at_end. rewrite fix_pragma_lookup by done.
  repeat (case_match; rewrite ?lookup_insert_ne by done); done.
Qed.

Lemma response_at_end_lookup h body k :
  k <> "Cache-Control" -> k <> "Content-Length" -> response_at_end h body !! k = lines response_unwritten h !! k.
Proof. intros Hc Hl. unfold response_at_end. by rewrite fix_pragma_lookup, lookup_insert_ne by done. Qed.

(** Setting keys that are all canonical. *)
Lemma set_all_lookup o m h k :
  map_Forall (fun k _ => canonical k = k) m -> set_all o m h !! k = match m !! k with Some v => Some [v] | None => h !! k end.
Proof.
  intros Hc. unfold set_all.
  assert (forall l h, NoDup l.*1 -> Forall (fun kv => canonical kv.1 = kv.1) l ->
    foldl (fun h kv => header_set kv.1 kv.2 h) h l !! k =
      match List.find (fun kv => String.eqb kv.1 k) l with Some kv => Some [kv.2] | None => h !! k end) as Hf.
  { induction l as [|[k1 v1] l IH]; intros h0 Hnd Hl; [done|]. cbn [foldl List.find fst snd]. cbn in Hnd.
    apply NoDup_cons in Hnd as [Hni Hnd]. apply Forall_cons in Hl as [H1 Hl]. rewrite IH by done. cbn in H1.
    unfold header_set. rewrite H1. destruct (String.eqb_spec k1 k) as [->|Hne]; [|by rewrite lookup_insert_ne].
    rewrite lookup_insert_eq. destruct (List.find _ l) as [kv|] eqn:Hfind; [|done]. exfalso. apply Hni.
    apply List.find_some in Hfind as [Hin Heq]. apply String.eqb_eq in Heq. rewrite <- Heq.
    apply list_elem_of_fmap. exists kv. split; [done|by apply list_elem_of_In]. }
  rewrite Hf.
  - destruct (List.find _ _) as [[k1 v1]|] eqn:Hfind.
    + apply List.find_some in Hfind as [Hin Heq]. apply String.eqb_eq in Heq. cbn in Heq. subst k1.
      apply list_elem_of_In, elem_of_map_range in Hin. by rewrite Hin.
    + destruct (m !! k) as [v|] eqn:Hm; [|done]. exfalso. apply (elem_of_map_range o) in Hm. apply list_elem_of_In in Hm.
      apply (List.find_none _ _ Hfind) in Hm. cbn in Hm. by rewrite String.eqb_refl in Hm.
  - apply NoDup_map_range.
  - apply Forall_forall. intros [k1 v1] Hin%elem_of_map_range. by apply (Hc k1 v1).
Qed.

Example canonical_id : canonical "Micro-ID" = "Micro-Id".
Proof. vm_compute. reflexivity. Qed.
