(* ===== verification/Codec.v ===== *)
(** * Codecs: [codec/codec.go], [grpc/], [protorpc/], [bytes/], [text/], [proto/], [json/]

    The framing of the grpc and proto-rpc codecs, the mapping of messages to
    headers and envelopes, and the codecs that carry one body per connection.
    Protobuf and JSON marshalling, and the generated envelope of proto-rpc, are
    parameters. A [ReadBody] returns its target filled; a target left behind by a
    failed call is not described. Flushing is left out: the buffers the codecs run
    on are not flushers. *)
From S2P Require Import Prelude GoStrings GoStrconv GoIO.

(** ** Messages *)
Notation MessageType := Z (only parsing).
Definition TypeError : MessageType := 0%Z.
Definition TypeRequest : MessageType := 1%Z.
Definition TypeResponse : MessageType := 2%Z.
Definition TypeEvent : MessageType := 3%Z.

(** A nil header map is [None]. *)
Record Message := mkMessage {
  m_Header : option (gmap string string);
  m_Id : string;
  m_Target : string;
  m_Method : string;
  m_Endpoint : string;
  m_Error : string;
  m_Body : string;
  m_Type : MessageType;
}.

Definition header (m : Message) (k : string) : string := default "" (default ∅ (m_Header m) !! k).

Definition with_header (m : Message) (h : gmap string string) : Message :=
  mkMessage (Some h) (m_Id m) (m_Target m) (m_Method m) (m_Endpoint m) (m_Error m) (m_Body m) (m_Type m).

(** Assigning to a nil map panics. *)
Definition set_headers (kvs : list (string * string)) (m : Message) : option Message :=
  match m_Header m with
  | None => None
  | Some h => Some (with_header m (foldl (fun h kv => <[kv.1 := kv.2]> h) h kvs))
  end.

Definition unrecognized (t : MessageType) : error :=
  ErrMsg ("Unrecognized message type: " +:+ fmt_Z t).

(** What a codec promises: its own state holds the connection, and the three
    operations read and write it. [Write] also changes the message's headers. *)
Class CodecOps (M V S : Type) := {
  NewCodec : conn -> S;
  rwc : S -> conn;
  set_rwc : conn -> S -> S;
  ReadHeader : Message -> MessageType -> S -> S * (Message * outcome error unit);
  ReadBody : value M V -> S -> S * outcome error (value M V);
  WriteMessage : Message -> value M V -> S -> S * (Message * outcome error unit);
  codec_String : string;
}.

(** ** grpc framing: [codec/grpc/util.go] *)
Module Grpc.

Definition MaxMessageSize : Z := (1024 * 1024 * 4)%Z.

Definition too_large (length max : Z) : error :=
  ErrMsg ("grpc: received message larger than max (" +:+ fmt_Z length +:+ " vs. " +:+ fmt_Z max +:+ ")").

Definition too_large_int (length : Z) : error :=
  ErrMsg ("grpc: received message larger than max length allowed on current machine (" +:+
          fmt_Z length +:+ " vs. " +:+ fmt_Z int_max +:+ ")").

(** The format byte and the message; [None] when there is no message. *)
Definition decode (c : conn) : conn * outcome error (Z * option string) :=
  match read_buf 5 c with
  | (c, Fail e) => (c, Fail e)
  | (c, Panic) => (c, Panic)
  | (c, Ret header) =>
      match header with
      | "" => (c, Panic)
      | String cf rest =>
          match Uint32 rest with
          | None => (c, Panic)
          | Some length =>
              if (length =? 0)%Z then (c, Ret (of_byte cf, None))
              else if (int_max <? length)%Z then (c, Fail (too_large_int length))
              else if (MaxMessageSize <? length)%Z then (c, Fail (too_large length MaxMessageSize))
              else
                match read_buf (Z.to_nat length) c with
                | (c, Ret msg) => (c, Ret (of_byte cf, Some msg))
                | (c, Fail e) => (c, Fail (if decide (e = EOF) then ErrUnexpectedEOF else e))
                | (c, Panic) => (c, Panic)
                end
          end
      end
  end.

Definition frame_header (cf : Z) (buf : string) : string :=
  String (byte_of cf) (PutUint32 (Z.of_nat (String.length buf))).

Definition encode (cf : Z) (buf : string) (c : conn) : conn * outcome error unit :=
  match Write (frame_header cf buf) c with
  | (c, Ret _) => Write buf c
  | r => r
  end.

(** ** The grpc codec: [codec/grpc/grpc.go] *)
Record Codec := mkCodec { Conn : conn; ContentType : string }.

Definition NewCodec (c : conn) : Codec := mkCodec c "application/grpc".

Definition with_conn (c : conn) (g : Codec) : Codec := mkCodec c (ContentType g).

(** The content type of the message's headers, "content-type" last. *)
Definition take_content_type (m : Message) (g : Codec) : Codec :=
  let ct := header m "Content-Type" in
  let g := if String.eqb ct "" then g else mkCodec (Conn g) ct in
  let ct := header m "content-type" in
  if String.eqb ct "" then g else mkCodec (Conn g) ct.

Definition with_target (m : Message) (target endpoint : string) : Message :=
  mkMessage (m_Header m) (m_Id m) target (m_Method m) endpoint (m_Error m) (m_Body m) (m_Type m).

Definition ReadHeader (m : Message) (t : MessageType) (g : Codec) : Codec * (Message * outcome error unit) :=
  let g := take_content_type m g in
  let path := header m ":path" in
  if negb (has_prefix path "/") then
    (g, (with_target m (header m "Micro-Service") (header m "Micro-Endpoint"), Ret ()))
  else
    match split_char "/" path with
    | [_; svc; method] =>
        let service := split_char "." svc in
        (g, (with_target m (join "." (take (length service - 1) service))
               (join "." [List.last service ""; method]), Ret ()))
    | _ => (g, (m, Fail (ErrMsg "Unknown request path")))
    end.

Definition grpc_json : string := "application/grpc+json".
Definition is_grpc_proto (ct : string) : bool :=
  String.eqb ct "application/grpc+proto" || String.eqb ct "application/grpc".

Definition unsupported : error := ErrMsg "Unsupported Content-Type".

Section marshalling.
Context {M V : Type} `{Marshalling M V}.

Definition ReadBody (b : value M V) (g : Codec) : Codec * outcome error (value M V) :=
  match b with
  | VNil => (g, Ret VNil)
  | _ =>
      match decode (Conn g) with
      | (c, Panic) => (with_conn c g, Panic)
      | (c, Fail e) => (with_conn c g, Fail e)
      | (c, Ret (_, buf)) =>
          let g := with_conn c g in
          let buf := default "" buf in
          if String.eqb (ContentType g) grpc_json then (g, lib (json_Unmarshal buf b))
          else if is_grpc_proto (ContentType g) then
            match b with
            | VProto m => (g, m <-! lib (proto_Unmarshal buf m); Ret (VProto m))
            | _ => (g, Panic)
            end
          else (g, Fail unsupported)
      end
  end.

(** The headers of a request; the endpoint must have a dot. *)
Definition request_headers (m : Message) (ct : string) : option (list (string * string)) :=
  match split_char "." (m_Endpoint m) with
  | p0 :: p1 :: _ =>
      Some [(":method", "POST"); (":path", "/" +:+ m_Target m +:+ "." +:+ p0 +:+ "/" +:+ p1);
            (":proto", "HTTP/2.0"); ("te", "trailers"); ("user-agent", "grpc-go/1.0.0");
            (":authority", m_Target m); ("content-type", ct)]
  | _ => None
  end.

Definition response_headers (ct : string) : list (string * string) :=
  [("Trailer", "grpc-status"); ("content-type", ct); (":status", "200"); ("grpc-status", "0")].

Definition error_headers (m : Message) : list (string * string) :=
  ("Trailer", "grpc-status, grpc-message") ::
  (if String.eqb (m_Error m) "EOS" then [("grpc-status", "0")]
   else [("grpc-message", m_Error m); ("grpc-status", "13")]).

(** A body that is not a protobuf message is marshalled to nothing. *)
Definition marshal_body (ct : string) (b : value M V) : outcome error string :=
  if String.eqb ct grpc_json then lib (json_Marshal b)
  else if is_grpc_proto ct then
    match b with VProto m => lib (proto_Marshal m) | _ => Ret "" end
  else Fail unsupported.

Definition write_body (m : Message) (b : value M V) (g : Codec) : Codec * (Message * outcome error unit) :=
  match marshal_body (ContentType g) b with
  | Panic => (g, (m, Panic))
  | Fail e =>
      match set_headers [("grpc-status", "8"); ("grpc-message", error_text e)] m with
      | None => (g, (m, Panic))
      | Some m => (g, (m, Fail e))
      end
  | Ret buf =>
      if String.eqb buf "" then (g, (m, Ret ()))
      else let '(c, r) := encode 0 buf (Conn g) in (with_conn c g, (m, r))
  end.

Definition Write (m : Message) (b : value M V) (g : Codec) : Codec * (Message * outcome error unit) :=
  let g := take_content_type m g in
  let then_body kvs :=
    match set_headers kvs m with
    | None => (g, (m, Panic))
    | Some m => write_body m b g
    end in
  if (m_Type m =? TypeRequest)%Z then
    match request_headers m (ContentType g) with
    | None => (g, (m, Panic))
    | Some kvs => then_body kvs
    end
  else if (m_Type m =? TypeResponse)%Z then then_body (response_headers (ContentType g))
  else if (m_Type m =? TypeError)%Z then
    match set_headers (error_headers m) m with
    | None => (g, (m, Panic))
    | Some m => (g, (m, Ret ()))
    end
  else write_body m b g.

#[export] Instance grpc_codec : CodecOps M V Codec := {|
  Codec.NewCodec := NewCodec;
  rwc := Conn;
  set_rwc := with_conn;
  Codec.ReadHeader := ReadHeader;
  Codec.ReadBody := ReadBody;
  WriteMessage := Write;
  codec_String := "grpc";
|}.
End marshalling.

(** *** What [decode] does *)
Lemma Uint32_range s z : Uint32 s = Some z -> (0 <= z < 2 ^ 32)%Z.
Proof.
  destruct s as [|a [|b [|c [|d s]]]]; cbn; try done. intros [= <-].
  assert (forall x, (0 <= of_byte x < 256)%Z) as Hb.
  { intros x. unfold of_byte. pose proof (N_ascii_bounded x). lia. }
  pose proof (Hb a). pose proof (Hb b). pose proof (Hb c). pose proof (Hb d).
  rewrite (byte_join _ (of_byte d) 8) by lia. rewrite (byte_join _ _ 16) by lia.
  rewrite (byte_join _ _ 24) by lia. lia.
Qed.

(** The frame on the wire: format byte, size, message. *)
Definition frame (buf : string) : string := frame_header 0 buf +:+ buf.

Definition fits (buf : string) : Prop := (0 < Z.of_nat (String.length buf) <= MaxMessageSize)%Z.

(** Once the header of a frame is read, the size it names decides the rest. *)
Lemma decode_sized cf buf c c1 :
  fits buf -> read_buf 5 c = (c1, Ret (frame_header cf buf)) ->
  decode c = match read_buf (String.length buf) c1 with
             | (c, Ret msg) => (c, Ret ((cf mod 256)%Z, Some msg))
             | (c, Fail e) => (c, Fail (if decide (e = EOF) then ErrUnexpectedEOF else e))
             | (c, Panic) => (c, Panic)
             end.
Proof.
  unfold fits. intros Hfit Hr. unfold decode. rewrite Hr. unfold frame_header. cbv iota.
  pose proof (Uint32_Put (Z.of_nat (String.length buf)) "") as Hu. rewrite str_app_nil_r in Hu.
  rewrite Hu, Z.mod_small by (unfold MaxMessageSize in Hfit; lia). rewrite of_byte_of, Nat2Z.id.
  destruct (Z.eqb_spec (Z.of_nat (String.length buf)) 0); [lia|].
  destruct (Z.ltb_spec int_max (Z.of_nat (String.length buf)));
    [unfold int_max, MaxMessageSize in *; lia|].
  by destruct (Z.ltb_spec MaxMessageSize (Z.of_nat (String.length buf))); [lia|].
Qed.

Lemma decode_part cf buf parts c :
  fits buf -> Forall (fun p => p <> "") parts ->
  grouped (frame_header cf buf :: buf :: parts) (c_in c) ->
  exists pieces, decode c = (mkConn pieces (c_out c) (c_broken c), Ret ((cf mod 256)%Z, Some buf)) /\
    grouped parts pieces.
Proof.
  intros Hfit Hne Hg.
  assert (buf <> "") as Hbuf by (intros ->; unfold fits in Hfit; cbn in Hfit; lia).
  destruct (read_buf_part (frame_header cf buf) (buf :: parts) c 5) as (cs & Hr & Hg');
    [done|by repeat constructor|done|].
  rewrite (decode_sized cf buf c _ Hfit Hr).
  destruct (read_buf_part buf parts (mkConn cs (c_out c) (c_broken c)) (String.length buf))
    as (cs' & -> & Hg''); [done|by constructor|done|].
  by exists cs'.
Qed.

(** Encoding a list of messages, decoding as many. *)
Fixpoint encode_all (bufs : list string) (c : conn) : conn * outcome error unit :=
  match bufs with
  | [] => (c, Ret ())
  | buf :: bufs =>
      match encode 0 buf c with
      | (c, Ret _) => encode_all bufs c
      | r => r
      end
  end.

Fixpoint decode_n (n : nat) (c : conn) : conn * outcome error (list (option string)) :=
  match n with
  | 0 => (c, Ret [])
  | S n =>
      match decode c with
      | (c, Ret (_, msg)) => let '(c, r) := decode_n n c in (c, msgs <-! r; Ret (msg :: msgs))
      | (c, Fail e) => (c, Fail e)
      | (c, Panic) => (c, Panic)
      end
  end.

Definition frame_parts (bufs : list string) : list string :=
  concat (map (fun buf => [frame_header 0 buf; buf]) bufs).

Lemma encode_all_writes bufs c :
  c_broken c = false ->
  encode_all bufs c = (mkConn (c_in c) (c_out c ++ frame_parts bufs) false, Ret ()).
Proof.
  destruct c as [ci co br]. cbn. intros ->. revert co. induction bufs as [|buf bufs IH]; intros co; cbn.
  - by rewrite app_nil_r.
  - unfold encode, GoIO.Write. cbn. rewrite IH. unfold frame_parts. cbn.
    by rewrite <- !app_assoc.
Qed.

Lemma frame_parts_nonempty bufs : Forall fits bufs -> Forall (fun p => p <> "") (frame_parts bufs).
Proof.
  induction 1 as [|buf bufs Hb _ IH]; [constructor|]. unfold frame_parts. cbn.
  constructor; [done|]. constructor; [|done]. intros ->. unfold fits in Hb. cbn in Hb. lia.
Qed.

Lemma decode_n_parts bufs c :
  Forall fits bufs -> grouped (frame_parts bufs) (c_in c) ->
  (decode_n (length bufs) c).2 = Ret (map Some bufs) /\ c_in (decode_n (length bufs) c).1 = [].
Proof.
  revert c. induction bufs as [|buf bufs IH]; intros c Hfit Hg; [by apply grouped_nil in Hg|].
  apply Forall_cons in Hfit as [Hb Hfit]. cbn [length decode_n].
  destruct (decode_part 0 buf (frame_parts bufs) c Hb (frame_parts_nonempty bufs Hfit) Hg)
    as (cs & -> & Hg'). cbv beta iota.
  destruct (IH (mkConn cs (c_out c) (c_broken c)) Hfit Hg') as [Hr Hin].
  destruct (decode_n _ _) as [c' r]. cbn in Hr, Hin |- *. by rewrite Hr.
Qed.

(** C31: grpc frames round-trip. Messages of one byte up to the maximum size,
    encoded one after the other, are decoded as the same messages in the same
    order, and nothing is left on the connection, for every way in which the
    writes arrive: one by one, all at once, or grouped in between, as long as no
    header and no body is cut. *)
Theorem frames_round_trip bufs c c' pieces out :
  Forall fits bufs -> c_broken c = false -> c_out c = [] ->
  encode_all bufs c = (c', Ret ()) -> grouped (c_out c') pieces ->
  (decode_n (length bufs) (mkConn pieces out false)).2 = Ret (map Some bufs) /\
  c_in (decode_n (length bufs) (mkConn pieces out false)).1 = [].
Proof.
  intros Hfit Hbr Hout. rewrite (encode_all_writes bufs c Hbr), Hout. intros [= <-] Hg.
  by apply decode_n_parts.
Qed.

(** A message whose bytes arrive in two pieces is corrupted. [Read] is called
    once and its byte count ignored, so [decode] takes the first piece, fills the
    rest of the message with zero bytes, reports success, and leaves the second
    piece on the connection, to be read as the next frame's header. *)
Theorem decode_short_read buf k pieces c :
  fits buf -> (0 < k < String.length buf)%nat ->
  c_in c = frame_header 0 buf :: str_take k buf :: str_drop k buf :: pieces ->
  decode c = (mkConn (str_drop k buf :: pieces) (c_out c) (c_broken c),
    Ret (0%Z, Some (str_take k buf +:+ zeros (String.length buf - k)))).
Proof.
  intros Hfit Hk Hin.
  rewrite (decode_sized 0 buf c (mkConn (str_take k buf :: str_drop k buf :: pieces) (c_out c) (c_broken c)));
    [|done|].
  - unfold read_buf, Read. cbn [c_in c_out c_broken].
    assert (String.length (str_take k buf) = k) as Hlen by (rewrite str_length_take; lia).
    rewrite (str_take_all _ (str_take k buf)), (str_drop_all _ (str_take k buf)) by lia. cbn [push String.eqb]. unfold pad. by rewrite Hlen.
  - unfold read_buf, Read. by rewrite Hin.
Qed.

(** *** The request line *)
Lemma split_last_dot target p0 :
  str_has "." p0 = false ->
  let service := split_char "." (target +:+ "." +:+ p0) in
  take (length service - 1) service = split_char "." target /\ List.last service "" = p0.
Proof.
  intros Hp. change ("." +:+ p0) with (String "." p0). cbv zeta.
  rewrite split_char_mid, (split_char_id "." p0) by done. rewrite length_app. cbn [length].
  rewrite Nat.add_sub, take_app_length, last_last. done.
Qed.

Section request_line.
Context {M V : Type} `{Marshalling M V}.

Lemma write_body_path m (b : value M V) g g' m' r h :
  write_body m b g = (g', (m', r)) -> m_Header m = Some h ->
  exists h', m_Header m' = Some h' /\ h' !! ":path" = h !! ":path".
Proof.
  unfold write_body. destruct (marshal_body _ b) as [buf|e|].
  - destruct (String.eqb buf ""); [intros [= <- <- <-]; by exists h|].
    destruct (encode _ _ _) as [c res]. intros [= <- <- <-]. by exists h.
  - unfold set_headers. intros HW Hh. rewrite Hh in HW. injection HW as <- <- <-.
    eexists. split; [done|]. cbn. by rewrite !lookup_insert_ne.
  - intros [= <- <- <-]. by exists h.
Qed.

(** The request line round-trips: a reader of the headers a request was
    written with gets its target and its endpoint back, when the endpoint is
    [Service.Method] with no further dot and no slash is in either. *)
Theorem request_round_trip m p0 p1 (b : value M V) g g' m' r r0 t :
  m_Type m = TypeRequest -> m_Endpoint m = p0 +:+ "." +:+ p1 ->
  str_has "." p0 || str_has "/" p0 = false -> str_has "." p1 || str_has "/" p1 = false ->
  str_has "/" (m_Target m) = false ->
  Write m b g = (g', (m', r)) -> r <> Panic -> m_Header r0 = m_Header m' ->
  exists g2 r2, ReadHeader r0 t g' = (g2, (r2, Ret ())) /\
    m_Target r2 = m_Target m /\ m_Endpoint r2 = m_Endpoint m.
Proof.
  intros Ht He [Hd0 Hs0]%orb_false_iff [Hd1 Hs1]%orb_false_iff Hst HW Hr Hh0.
  assert (header r0 ":path" = "/" +:+ m_Target m +:+ "." +:+ p0 +:+ "/" +:+ p1) as Hpath.
  { revert HW. unfold Write. rewrite Ht. cbn [Z.eqb TypeRequest Pos.eqb].
    unfold request_headers. rewrite He. change ("." +:+ p1) with (String "." p1).
    rewrite split_char_app, (split_char_id "." p1) by done. unfold set_headers.
    destruct (m_Header m) as [h|] eqn:Hh; [|intros [= <- <- <-]; done].
    intros HW. eapply write_body_path in HW as (h' & Hh' & Hp); [|done].
    unfold header. rewrite Hh0, Hh'. cbn. rewrite Hp. cbn.
    repeat first [rewrite lookup_insert_eq|rewrite lookup_insert_ne by done]. done. }
  assert (split_char "/" (header r0 ":path") = [""; m_Target m +:+ "." +:+ p0; p1]) as Hsplit.
  { rewrite Hpath. change ("/" +:+ m_Target m +:+ "." +:+ p0 +:+ "/" +:+ p1)
      with ("" +:+ String "/" (m_Target m +:+ "." +:+ p0 +:+ String "/" p1)).
    rewrite split_char_app by done. f_equal.
    replace (m_Target m +:+ "." +:+ p0 +:+ String "/" p1)
      with ((m_Target m +:+ "." +:+ p0) +:+ String "/" p1) by by rewrite !str_app_assoc.
    rewrite split_char_app, (split_char_id "/" p1) by (rewrite ?str_has_app, ?Hst, ?Hs0; done). done. }
  unfold ReadHeader. rewrite Hsplit, Hpath, has_prefix_app. cbn [negb].
  destruct (split_last_dot (m_Target m) p0 Hd0) as [-> ->].
  eexists _, _. split; [done|]. cbn [with_target m_Target m_Endpoint]. rewrite (join_split "." (m_Target m)). by rewrite He.
Qed.
End request_line.
End Grpc.

(** ** Codecs that carry one body per connection: [bytes/], [text/], [proto/] *)
Definition no_header {S} (m : Message) (t : MessageType) (c : S) : S * (Message * outcome error unit) :=
  (c, (m, Ret ())).

Definition not_bytes : error := ErrMsg "failed to read body: type".
Definition not_writable : error := ErrMsg "failed to write: type".

Section single_body.
Context {M V : Type} `{Marshalling M V}.

Definition write_raw (m : Message) (v : outcome error string) (c : conn) : conn * (Message * outcome error unit) :=
  match v with
  | Ret data => let '(c, r) := GoIO.Write data c in (c, (m, r))
  | Fail e => (c, (m, Fail e))
  | Panic => (c, (m, Panic))
  end.

(** *** [codec/bytes/bytes.go] *)
Definition bytes_ReadBody (b : value M V) (c : conn) : conn * outcome error (value M V) :=
  let '(c, buf) := ReadAll c in
  (c, match b with
      | VBytesPtr _ => Ret (VBytesPtr buf)
      | VFrame _ => Ret (VFrame buf)
      | _ => Fail not_bytes
      end).

Definition bytes_data (b : value M V) : outcome error string :=
  match b with
  | VFrame d | VBytesPtr d | VBytes d => Ret d
  | _ => Fail not_writable
  end.

Definition bytes_Write (m : Message) (b : value M V) (c : conn) := write_raw m (bytes_data b) c.

(** *** [codec/text/text.go] *)
Definition text_ReadBody (b : value M V) (c : conn) : conn * outcome error (value M V) :=
  let '(c, buf) := ReadAll c in
  (c, match b with
      | VStringPtr _ => Ret (VStringPtr buf)
      | VBytesPtr _ => Ret (VBytesPtr buf)
      | VTextFrame _ => Ret (VTextFrame buf)
      | _ => Fail not_bytes
      end).

Definition text_data (b : value M V) : outcome error string :=
  match b with
  | VTextFrame d | VBytesPtr d | VStringPtr d | VString d | VBytes d => Ret d
  | _ => Fail not_writable
  end.

Definition text_Write (m : Message) (b : value M V) (c : conn) := write_raw m (text_data b) c.

(** *** [codec/proto/proto.go] *)
Definition proto_ReadBody (b : value M V) (c : conn) : conn * outcome error (value M V) :=
  match b with
  | VNil => (c, Ret VNil)
  | _ =>
      let '(c, buf) := ReadAll c in
      (c, match b with
          | VProto m => m <-! lib (proto_Unmarshal buf m); Ret (VProto m)
          | _ => Fail ErrInvalidMessage
          end)
  end.

Definition proto_Write (m : Message) (b : value M V) (c : conn) : conn * (Message * outcome error unit) :=
  match b with
  | VNil => (c, (m, Ret ()))
  | VProto p => write_raw m (lib (proto_Marshal p)) c
  | _ => (c, (m, Fail ErrInvalidMessage))
  end.

(** Each of the three on its own type of codec state. *)
Inductive bytesCodec := BytesCodec (c : conn).
Inductive textCodec := TextCodec (c : conn).
Inductive protobufCodec := ProtobufCodec (c : conn).

#[export] Instance bytes_codec : CodecOps M V bytesCodec := {|
  NewCodec := BytesCodec;
  rwc := fun s => let 'BytesCodec c := s in c;
  set_rwc := fun c _ => BytesCodec c;
  ReadHeader := no_header;
  ReadBody := fun b s => let 'BytesCodec c := s in let '(c, r) := bytes_ReadBody b c in (BytesCodec c, r);
  WriteMessage := fun m b s => let 'BytesCodec c := s in let '(c, r) := bytes_Write m b c in (BytesCodec c, r);
  codec_String := "bytes";
|}.

#[export] Instance text_codec : CodecOps M V textCodec := {|
  NewCodec := TextCodec;
  rwc := fun s => let 'TextCodec c := s in c;
  set_rwc := fun c _ => TextCodec c;
  ReadHeader := no_header;
  ReadBody := fun b s => let 'TextCodec c := s in let '(c, r) := text_ReadBody b c in (TextCodec c, r);
  WriteMessage := fun m b s => let 'TextCodec c := s in let '(c, r) := text_Write m b c in (TextCodec c, r);
  codec_String := "text";
|}.

#[export] Instance proto_codec : CodecOps M V protobufCodec := {|
  NewCodec := ProtobufCodec;
  rwc := fun s => let 'ProtobufCodec c := s in c;
  set_rwc := fun c _ => ProtobufCodec c;
  ReadHeader := no_header;
  ReadBody := fun b s => let 'ProtobufCodec c := s in let '(c, r) := proto_ReadBody b c in (ProtobufCodec c, r);
  WriteMessage := fun m b s => let 'ProtobufCodec c := s in let '(c, r) := proto_Write m b c in (ProtobufCodec c, r);
  codec_String := "proto";
|}.

(** A body written alone on a connection is read back whole, in whatever pieces it
    arrives: these codecs read to the end. *)
Lemma proto_body_round_trip `{!MarshallingOk M V} m (b b0 : M) c c' r pieces :
  c_out c = [] -> proto_Write m (VProto b) c = (c', (r, Ret ())) -> same_type b b0 ->
  String.concat "" pieces = String.concat "" (c_out c') ->
  (proto_ReadBody (VProto b0) (mkConn pieces [] false)).2 = Ret (VProto b).
Proof.
  intros Hout HW Hty Hp. unfold proto_Write, write_raw in HW.
  destruct (proto_Marshal b) as [e|data] eqn:Hm; [done|]. cbn [lib] in HW. unfold GoIO.Write in HW.
  destruct (c_broken c); [done|]. injection HW as <- _. unfold proto_ReadBody, ReadAll. cbn.
  cbn in Hp. rewrite Hout in Hp. cbn in Hp. rewrite Hp. by rewrite (proto_round_trip b b0 data Hty Hm).
Qed.
End single_body.

(** ** Marshalling into pooled buffers: [codec/proto/marshaler.go]

    A slice is an array and a length; arrays live in a heap and are shared. The
    buffer pool is a third-party one, of which only this is used: [Get] hands out
    some buffer put back before, or a new one of 256 bytes, and [Put] makes a
    buffer available or drops it. Which of these happens is an argument. *)
Record array := mkArray { a_cap : nat; a_bytes : string }.

Record heap := mkHeap { arrays : gmap nat array; next_loc : nat; pool : list nat }.

Definition alloc (a : array) (h : heap) : nat * heap :=
  (next_loc h, mkHeap (<[next_loc h := a]> (arrays h)) (S (next_loc h)) (pool h)).

Definition pool_Get (choice : option nat) (h : heap) : nat * heap :=
  match choice ≫= fun i => pool h !! i with
  | Some loc => (loc, mkHeap (arrays h) (next_loc h) (filter (fun l => l <> loc) (pool h)))
  | None => alloc (mkArray 256 "") h
  end.

Definition pool_Put (kept : bool) (loc : nat) (h : heap) : heap :=
  if kept then mkHeap (arrays h) (next_loc h) (loc :: pool h) else h.

(** Appending to a slice of length 0 over array [loc]: in place when it fits, else
    into a new array. The bytes past the end stay as they were. *)
Definition append_bytes (loc : nat) (data : string) (h : heap) : nat * heap :=
  match arrays h !! loc with
  | Some a =>
      if String.length data <=? a_cap a then
        (loc, mkHeap (<[loc := mkArray (a_cap a) (data +:+ str_drop (String.length data) (a_bytes a))]> (arrays h))
                (next_loc h) (pool h))
      else alloc (mkArray (String.length data) data) h
  | None => alloc (mkArray (String.length data) data) h
  end.

Definition read_slice (s : nat * nat) (h : heap) : option string :=
  a ← arrays h !! s.1; Some (str_take s.2 (a_bytes a)).

Section marshaler.
Context {M V : Type} `{Marshalling M V}.

(** The result is the slice of the buffer; the deferred function puts that same
    buffer back into the pool. *)
Definition Marshal (choice : option nat) (kept : bool) (v : value M V) (h : heap) :
    heap * outcome error (nat * nat) :=
  match v with
  | VProto pb =>
      let '(loc, h) := pool_Get choice h in
      match proto_Marshal pb with
      | inl e => (pool_Put kept loc h, Fail (ErrMsg e))
      | inr data =>
          let '(loc, h) := append_bytes loc data h in
          (pool_Put kept loc h, Ret (loc, String.length data))
      end
  | _ => (h, Fail ErrInvalidMessage)
  end.

(** Every buffer of the pool is an allocated array. *)
Definition heap_ok (h : heap) : Prop :=
  (forall l, l ∈ pool h -> is_Some (arrays h !! l)) /\ (forall l, is_Some (arrays h !! l) -> l < next_loc h).

Lemma append_bytes_read loc data h :
  is_Some (arrays h !! loc) ->
  read_slice ((append_bytes loc data h).1, String.length data) (append_bytes loc data h).2 = Some data.
Proof.
  intros [a Ha]. unfold append_bytes, read_slice, alloc. rewrite Ha.
  destruct (_ <=? _); cbn; rewrite lookup_insert_eq; cbn; f_equal.
  - apply str_take_app.
  - by apply str_take_all.
Qed.

Lemma pool_Get_array choice h : heap_ok h -> is_Some (arrays (pool_Get choice h).2 !! (pool_Get choice h).1).
Proof.
  intros [Hp _]. unfold pool_Get. destruct (_ ≫= _) as [loc|] eqn:Hc; cbn.
  - apply Hp. apply bind_Some in Hc as (i & _ & Hi). by apply list_elem_of_lookup_2 in Hi.
  - rewrite lookup_insert_eq. by eexists.
Qed.

(** The bytes are right when [Marshal] returns. *)
Lemma Marshal_reads choice kept (pb : M) h h' s :
  heap_ok h -> Marshal choice kept (VProto pb) h = (h', Ret s) ->
  exists data, proto_Marshal pb = inr data /\ read_slice s h' = Some data.
Proof.
  intros Hok. unfold Marshal. pose proof (pool_Get_array choice h Hok) as Hloc.
  destruct (pool_Get choice h) as [loc h1]. destruct (proto_Marshal pb) as [e|data]; [done|].
  pose proof (append_bytes_read loc data h1 Hloc) as Hr.
  destruct (append_bytes loc data h1) as [loc' h2]. intros [= <- <-]. exists data. split; [done|].
  rewrite <- Hr. by destruct kept.
Qed.

(** The bytes a protobuf marshaller returned change afterwards. The buffer they
    are in goes back to the pool before the caller has used them: when the next
    call takes that buffer and its message fits, the first result reads as the
    second message, padded with what is left of the first. *)
Theorem Marshal_overwritten (p1 p2 : M) d1 d2 h h1 h2 s1 s2 kept :
  heap_ok h -> proto_Marshal p1 = inr d1 -> proto_Marshal p2 = inr d2 ->
  String.length d1 <= 256 -> String.length d2 <= 256 ->
  Marshal None true (VProto p1) h = (h1, Ret s1) ->
  Marshal (Some 0) kept (VProto p2) h1 = (h2, Ret s2) ->
  read_slice s1 h2 = Some (str_take (String.length d1) (d2 +:+ str_drop (String.length d2) d1)).
Proof.
  intros Hok Hd1 Hd2 Hl1%Nat.leb_le Hl2%Nat.leb_le.
  unfold Marshal, pool_Get at 1, alloc, append_bytes at 1. rewrite Hd1. cbn.
  rewrite lookup_insert_eq. cbn [a_cap a_bytes]. rewrite Hl1. rewrite (str_drop_all _ "") by (cbn; lia).
  rewrite str_app_nil_r. cbn. intros [= <- <-]. cbn.
  unfold append_bytes. rewrite Hd2. cbn. rewrite lookup_insert_eq. cbn [a_cap a_bytes]. rewrite Hl2. cbn.
  intros [= <- _]. unfold read_slice. cbn. destruct kept; cbn; by rewrite lookup_insert_eq.
Qed.
End marshaler.

(** ** Concrete runs *)
#[local] Existing Instances text_marshalling text_marshalling_ok.

Definition quiet : conn := mkConn [] [] false.

Lemma frames_round_trip_witness :
  (Grpc.decode_n 2 (mkConn [String "000" (PutUint32 2); "hi" +:+ Grpc.frame "bye"] [] false)).2 =
    Ret [Some "hi"; Some "bye"].
Proof.
  apply (Grpc.frames_round_trip ["hi"; "bye"] quiet (Grpc.encode_all ["hi"; "bye"] quiet).1
    [String "000" (PutUint32 2); "hi" +:+ Grpc.frame "bye"] []).
  - repeat (apply Forall_cons; split; [unfold Grpc.fits, Grpc.MaxMessageSize; cbn; lia|]). constructor.
  - reflexivity.
  - reflexivity.
  - vm_compute. reflexivity.
  - exists [[Grpc.frame_header 0 "hi"]; ["hi"; Grpc.frame_header 0 "bye"; "bye"]].
    split_and!; [by repeat constructor|reflexivity|reflexivity].
Defined.

Lemma decode_short_read_witness :
  (Grpc.decode (mkConn [Grpc.frame_header 0 "hello"; "he"; "llo"] [] false)).2 =
    Ret (0%Z, Some ("he" +:+ zeros 3)).
Proof.
  rewrite (Grpc.decode_short_read "hello" 2 [] (mkConn [Grpc.frame_header 0 "hello"; "he"; "llo"] [] false)).
  - reflexivity.
  - unfold Grpc.fits, Grpc.MaxMessageSize. cbn. lia.
  - cbn. lia.
  - reflexivity.
Defined.

Definition say_hello : Message := mkMessage (Some ∅) "1" "go.micro.greeter" "" "Say.Hello" "" "" TypeRequest.

Lemma request_round_trip_witness :
  exists g2 r2, Grpc.ReadHeader (Grpc.Write say_hello (VProto (V := unit) "hi") (Grpc.NewCodec quiet)).2.1
      TypeRequest (Grpc.Write say_hello (VProto (V := unit) "hi") (Grpc.NewCodec quiet)).1 = (g2, (r2, Ret ())) /\
    m_Target r2 = "go.micro.greeter" /\ m_Endpoint r2 = "Say.Hello".
Proof.
  apply (Grpc.request_round_trip (V := unit) say_hello "Say" "Hello" (VProto "hi") (Grpc.NewCodec quiet)
    (Grpc.Write say_hello (VProto (V := unit) "hi") (Grpc.NewCodec quiet)).1
    (Grpc.Write say_hello (VProto (V := unit) "hi") (Grpc.NewCodec quiet)).2.1 (Ret ())); try reflexivity.
  discriminate.
Defined.

(** An endpoint without a dot makes the client's grpc codec panic. *)
Example no_dot_panics :
  (Grpc.Write (mkMessage (Some ∅) "1" "greeter" "" "Hello" "" "" TypeRequest) (VProto (V := unit) "hi")
     (Grpc.NewCodec quiet)).2.2 = Panic.
Proof. reflexivity. Qed.

(** A body that is not a protobuf message is dropped without an error. *)
Example not_proto_dropped :
  Grpc.Write say_hello (VString (M := string) (V := unit) "hi") (Grpc.NewCodec quiet) =
  Grpc.Write say_hello (VProto (V := unit) "") (Grpc.NewCodec quiet).
Proof. vm_compute. reflexivity. Qed.

Definition no_heap : heap := mkHeap ∅ 0 [].

Lemma no_heap_ok : heap_ok no_heap.
Proof.
  split; cbn.
  - intros l Hl. by apply not_elem_of_nil in Hl.
  - intros l. rewrite lookup_empty. by intros [].
Qed.

Lemma Marshal_overwritten_witness :
  exists s h2, (Marshal (V := unit) None true (VProto "hello") no_heap).2 = Ret s /\
    read_slice s (Marshal (V := unit) None true (VProto "hello") no_heap).1 = Some "hello" /\
    read_slice s h2 = Some "adieu".
Proof.
  exists (0, 5), (Marshal (V := unit) (Some 0) true (VProto "adieu")
                    (Marshal (V := unit) None true (VProto "hello") no_heap).1).1.
  split; [vm_compute; reflexivity|]. split; [vm_compute; reflexivity|].
  apply (Marshal_overwritten (V := unit) "hello" "adieu" "hello" "adieu" no_heap
    (Marshal (V := unit) None true (VProto "hello") no_heap).1 _ (0, 5) (0, 5) true no_heap_ok
    ); [reflexivity|reflexivity|cbn; lia|cbn; lia|vm_compute; reflexivity|vm_compute; reflexivity].
Defined.
