(* ===== verification/ProtoRpc.v ===== *)
(** * The proto-rpc codec: [codec/protorpc/netstring.go], [protorpc.go]

    Netstrings, and the codec that puts an envelope (method, sequence number,
    error) before every body. The envelope's marshalling is generated protobuf
    code, a parameter. *)
From S2P Require Import Prelude GoStrings GoStrconv GoIO Codec.

(** ** Netstrings *)
Definition WriteNetString (data : string) (c : conn) : conn * outcome error unit :=
  match Write (PutUint32 (Z.of_nat (String.length data))) c with
  | (c, Ret _) => Write data c
  | r => r
  end.

Definition ReadNetString (c : conn) : conn * outcome error string :=
  match read_buf 4 c with
  | (c, Ret sizeBuf) =>
      match Uint32 sizeBuf with
      | None => (c, Panic)
      | Some size => if (size =? 0)%Z then (c, Ret "") else read_buf (Z.to_nat size) c
      end
  | r => r
  end.

(** ** Envelopes *)
Record Request := mkRequest { rq_ServiceMethod : string; rq_Seq : Z }.
Record Response := mkResponse { rs_ServiceMethod : string; rs_Seq : Z; rs_Error : string }.

Class Envelope := {
  req_Marshal : Request -> string + string;
  req_Unmarshal : string -> string + Request;
  resp_Marshal : Response -> string + string;
  resp_Unmarshal : string -> string + Response;
}.

Class EnvelopeOk `{Envelope} := {
  req_round_trip r data : req_Marshal r = inr data -> req_Unmarshal data = inr r;
  resp_round_trip r data : resp_Marshal r = inr data -> resp_Unmarshal data = inr r;
}.

(** [uint64] of an identifier's value; what is not a 64-bit number counts as 0. *)
Definition id (s : string) : Z :=
  let p := match ParseInt s with inr p => p | inl _ => 0%Z end in (p mod 2 ^ 64)%Z.

(** [%d] of a [uint64]. *)
Definition id_string (seq : Z) : string := fmt_N (Z.to_N seq).

(** ** The codec *)
Record protoCodec := mkProtoCodec { p_rwc : conn; p_buf : string; p_mt : MessageType }.

Definition newCodec (c : conn) : protoCodec := mkProtoCodec c "" TypeError.

Definition with_rwc (c : conn) (p : protoCodec) : protoCodec := mkProtoCodec c (p_buf p) (p_mt p).

Definition with_method (m : Message) (method id err : string) : Message :=
  mkMessage (m_Header m) id (m_Target m) method (m_Endpoint m) err (m_Body m) (m_Type m).

Section protorpc.
Context {M V : Type} `{Marshalling M V} `{Envelope}.

(** Two netstrings: the envelope and the body. *)
Definition write_both (envelope body : outcome error string) (p : protoCodec) : protoCodec * outcome error unit :=
  match envelope with
  | Panic => (p, Panic)
  | Fail e => (p, Fail e)
  | Ret data =>
      match WriteNetString data (p_rwc p) with
      | (c, Ret _) =>
          match body with
          | Panic => (with_rwc c p, Panic)
          | Fail e => (with_rwc c p, Fail e)
          | Ret data => let '(c, r) := WriteNetString data c in (with_rwc c p, r)
          end
      | (c, r) => (with_rwc c p, r)
      end
  end.

Definition message_body (b : value M V) : outcome error string :=
  match b with VProto m => lib (proto_Marshal m) | _ => Fail ErrInvalidMessage end.

(** A response whose body is not a protobuf message has an empty body. *)
Definition response_body (b : value M V) : outcome error string :=
  match b with VProto m => lib (proto_Marshal m) | _ => Ret "" end.

Definition WriteProto (m : Message) (b : value M V) (p : protoCodec) :
    protoCodec * (Message * outcome error unit) :=
  if (m_Type m =? TypeRequest)%Z then
    let '(p, r) := write_both (lib (req_Marshal (mkRequest (m_Method m) (id (m_Id m))))) (message_body b) p in
    (p, (m, r))
  else if (m_Type m =? TypeResponse)%Z || (m_Type m =? TypeError)%Z then
    let '(p, r) :=
      write_both (lib (resp_Marshal (mkResponse (m_Method m) (id (m_Id m)) (m_Error m)))) (response_body b) p in
    (p, (m, r))
  else if (m_Type m =? TypeEvent)%Z then
    match message_body b with
    | Ret data => let '(c, _) := Write data (p_rwc p) in (with_rwc c p, (m, Ret ()))
    | Fail e => (p, (m, Fail e))
    | Panic => (p, (m, Panic))
    end
  else (p, (m, Fail (unrecognized (m_Type m)))).

Definition ReadHeaderProto (m : Message) (mt : MessageType) (p : protoCodec) :
    protoCodec * (Message * outcome error unit) :=
  let p := mkProtoCodec (p_rwc p) "" mt in
  let read_with (f : string -> outcome error Message) :=
    match ReadNetString (p_rwc p) with
    | (c, Panic) => (with_rwc c p, (m, Panic))
    | (c, Fail e) => (with_rwc c p, (m, Fail e))
    | (c, Ret data) =>
        match f data with
        | Ret m => (with_rwc c p, (m, Ret ()))
        | Fail e => (with_rwc c p, (m, Fail e))
        | Panic => (with_rwc c p, (m, Panic))
        end
    end in
  if (mt =? TypeRequest)%Z then
    read_with (fun data =>
      r <-! lib (req_Unmarshal data);
      Ret (with_method m (rq_ServiceMethod r) (id_string (rq_Seq r)) (m_Error m)))
  else if (mt =? TypeResponse)%Z then
    read_with (fun data =>
      r <-! lib (resp_Unmarshal data);
      Ret (with_method m (rs_ServiceMethod r) (id_string (rs_Seq r)) (rs_Error r)))
  else if (mt =? TypeEvent)%Z then
    let '(c, data) := ReadAll (p_rwc p) in (mkProtoCodec c data mt, (m, Ret ()))
  else (p, (m, Fail (unrecognized mt))).

(** A target that is not a protobuf message is a failed type assertion. *)
Definition unmarshal_body (data : string) (b : value M V) : outcome error (value M V) :=
  match b with
  | VNil => Ret VNil
  | VProto m => m <-! lib (proto_Unmarshal data m); Ret (VProto m)
  | _ => Panic
  end.

Definition ReadBodyProto (b : value M V) (p : protoCodec) : protoCodec * outcome error (value M V) :=
  if (p_mt p =? TypeRequest)%Z || (p_mt p =? TypeResponse)%Z then
    match ReadNetString (p_rwc p) with
    | (c, Ret data) => (with_rwc c p, unmarshal_body data b)
    | (c, Fail e) => (with_rwc c p, Fail e)
    | (c, Panic) => (with_rwc c p, Panic)
    end
  else if (p_mt p =? TypeEvent)%Z then (p, unmarshal_body (p_buf p) b)
  else (p, Fail (unrecognized (p_mt p))).

#[export] Instance proto_rpc_codec : CodecOps M V protoCodec := {|
  NewCodec := newCodec;
  rwc := p_rwc;
  set_rwc := with_rwc;
  ReadHeader := ReadHeaderProto;
  ReadBody := ReadBodyProto;
  WriteMessage := WriteProto;
  codec_String := "proto-rpc";
|}.

(** ** Netstrings round-trip *)
Definition sized (data : string) : Prop := (Z.of_nat (String.length data) < 2 ^ 32)%Z.

(** The pieces a netstring is written in; an empty write delivers nothing. *)
Definition netstring_parts (data : string) : list string :=
  PutUint32 (Z.of_nat (String.length data)) :: push data [].

Lemma netstring_parts_nonempty data : Forall (fun p => p <> "") (netstring_parts data).
Proof.
  unfold netstring_parts, push. destruct (String.eqb_spec data ""); by repeat constructor.
Qed.

Lemma ReadNetString_part data parts c :
  sized data -> Forall (fun p => p <> "") parts ->
  grouped (netstring_parts data ++ parts) (c_in c) ->
  exists pieces, ReadNetString c = (mkConn pieces (c_out c) (c_broken c), Ret data) /\
    grouped parts pieces.
Proof.
  unfold sized. intros Hs Hne Hg. unfold netstring_parts in Hg. cbn [app] in Hg.
  assert (Forall (fun p => p <> "") (push data [] ++ parts)) as Hne'.
  { apply Forall_app. split; [|done]. pose proof (netstring_parts_nonempty data) as Hn.
    by apply Forall_cons in Hn as [_ ?]. }
  destruct (read_buf_part (PutUint32 (Z.of_nat (String.length data))) (push data [] ++ parts) c 4)
    as (cs & Hr & Hg'); [done|by constructor|done|].
  unfold ReadNetString. rewrite Hr.
  pose proof (Uint32_Put (Z.of_nat (String.length data)) "") as Hu. rewrite str_app_nil_r in Hu.
  rewrite Hu, Z.mod_small by lia.
  destruct (Z.eqb_spec (Z.of_nat (String.length data)) 0) as [Hz|Hz].
  - destruct data; [|done]. exists cs. by split.
  - rewrite Nat2Z.id. unfold push in *. destruct (String.eqb_spec data "") as [->|_]; [done|].
    cbn [app] in *.
    destruct (read_buf_part data parts (mkConn cs (c_out c) (c_broken c)) (String.length data))
      as (cs' & -> & Hg''); [done|done|done|].
    by exists cs'.
Qed.

Lemma WriteNetString_ok data c :
  c_broken c = false -> WriteNetString data c =
  (mkConn (c_in c) (c_out c ++ [PutUint32 (Z.of_nat (String.length data)); data]) false, Ret ()).
Proof.
  unfold WriteNetString, Write. intros ->. cbn. by rewrite <- app_assoc.
Qed.

Lemma write_both_ok p p' data body :
  c_broken (p_rwc p) = false -> write_both (Ret data) body p = (p', Ret ()) ->
  exists bdata, body = Ret bdata /\ c_broken (p_rwc p') = false /\
    c_out (p_rwc p') = c_out (p_rwc p) ++ [PutUint32 (Z.of_nat (String.length data)); data;
      PutUint32 (Z.of_nat (String.length bdata)); bdata].
Proof.
  intros Hb. unfold write_both. rewrite WriteNetString_ok by done.
  destruct body as [bdata|e|]; [|done..]. rewrite WriteNetString_ok by done.
  intros [= <-]. exists bdata. split_and!; [done|done|]. cbn. by rewrite <- app_assoc.
Qed.

(** The writes that deliver bytes. *)
Definition delivered (writes : list string) : list string := filter (fun w => w <> "") writes.

Lemma delivered_netstrings data bdata rest :
  delivered (PutUint32 (Z.of_nat (String.length data)) :: data ::
             PutUint32 (Z.of_nat (String.length bdata)) :: bdata :: rest) =
  netstring_parts data ++ netstring_parts bdata ++ delivered rest.
Proof.
  unfold delivered, netstring_parts, push.
  rewrite filter_cons_True by done.
  destruct (String.eqb_spec data ""), (String.eqb_spec bdata "");
    repeat first [rewrite filter_cons_True by done | rewrite filter_cons_False by (intros []; done)]; done.
Qed.

Lemma delivered_nonempty rest : Forall (fun p => p <> "") (delivered rest).
Proof. apply Forall_forall. intros p. unfold delivered. by intros [? _]%list_elem_of_filter. Qed.

(** *** Reading an envelope and its body *)
Lemma read_pair (b b0 : M) `{!MarshallingOk M V} data bdata parts q mt :
  (mt = TypeRequest \/ mt = TypeResponse) ->
  sized data -> sized bdata -> Forall (fun p => p <> "") parts ->
  grouped (netstring_parts data ++ netstring_parts bdata ++ parts) (c_in (p_rwc q)) ->
  proto_Marshal b = inr bdata -> same_type b b0 ->
  exists c1 q2, ReadNetString (p_rwc q) = (c1, Ret data) /\
    ReadBodyProto (VProto b0) (mkProtoCodec c1 "" mt) = (q2, Ret (VProto b)) /\
    grouped parts (c_in (p_rwc q2)).
Proof.
  intros Hmt Hd Hb Hne Hg Hbm Hty.
  assert (Forall (fun p => p <> "") (netstring_parts bdata ++ parts)) as Hne'.
  { apply Forall_app. split; [apply netstring_parts_nonempty|done]. }
  destruct (ReadNetString_part data _ (p_rwc q) Hd Hne' Hg) as (cs & -> & Hg').
  destruct (ReadNetString_part bdata parts (mkConn cs (c_out (p_rwc q)) (c_broken (p_rwc q))) Hb Hne Hg')
    as (cs' & Hr & Hg'').
  eexists _, _. split; [done|]. split.
  - unfold ReadBodyProto. cbn [p_mt p_rwc]. rewrite Hr.
    replace ((mt =? TypeRequest)%Z || (mt =? TypeResponse)%Z) with true by by destruct Hmt as [-> | ->].
    unfold unmarshal_body. by rewrite (proto_round_trip b b0 bdata Hty Hbm).
  - exact Hg''.
Qed.

(** A proto-rpc request survives the connection. What a client writes for a
    request, however whole netstring parts are grouped on the way, a server reads
    as the same method and body, the identifier normalised to a 64-bit number, and
    nothing more is consumed. *)
Theorem request_exchange `{!MarshallingOk M V} `{!EnvelopeOk} m m' (b b0 : M) p p' q r0 rest data bdata :
  m_Type m = TypeRequest -> c_broken (p_rwc p) = false -> c_out (p_rwc p) = [] ->
  req_Marshal (mkRequest (m_Method m) (id (m_Id m))) = inr data -> sized data ->
  proto_Marshal b = inr bdata -> sized bdata -> same_type b b0 ->
  WriteProto m (VProto b) p = (p', (m', Ret ())) ->
  grouped (delivered (c_out (p_rwc p') ++ rest)) (c_in (p_rwc q)) ->
  exists q1 r1 q2, ReadHeaderProto r0 TypeRequest q = (q1, (r1, Ret ())) /\
    m_Method r1 = m_Method m /\ m_Id r1 = id_string (id (m_Id m)) /\
    ReadBodyProto (VProto b0) q1 = (q2, Ret (VProto b)) /\
    grouped (delivered rest) (c_in (p_rwc q2)).
Proof.
  intros Ht Hbr Hout Hdata Hd Hbdata Hb Hty HW Hg.
  unfold WriteProto in HW. rewrite Ht in HW. cbn [Z.eqb TypeRequest Pos.eqb] in HW.
  rewrite Hdata in HW. cbn [lib] in HW.
  destruct (write_both _ _ p) as [p1 [[]| |]] eqn:Hwb; [|done..]. injection HW as <- <-.
  apply write_both_ok in Hwb as (bdata' & Hbd & _ & Ho); [|done].
  cbn in Hbd. rewrite Hbdata in Hbd. injection Hbd as <-.
  rewrite Ho, Hout in Hg. cbn [app] in Hg. rewrite delivered_netstrings in Hg.
  destruct (read_pair b b0 data bdata (delivered rest) q TypeRequest) as (c1 & q2 & Hr & Hbody & Hg2);
    try done; [by left|apply delivered_nonempty|].
  eexists _, _, q2. split.
  - unfold ReadHeaderProto. cbn [Z.eqb TypeRequest Pos.eqb p_rwc]. rewrite Hr.
    by rewrite (req_round_trip _ _ Hdata).
  - split_and!; [done|done|exact Hbody|exact Hg2].
Qed.

(** A proto-rpc response survives the connection: the caller reads the method,
    the normalised identifier, the error and the body it was written with. *)
Theorem response_exchange `{!MarshallingOk M V} `{!EnvelopeOk} m m' (b b0 : M) p p' q r0 rest data bdata :
  (m_Type m = TypeResponse \/ m_Type m = TypeError) -> c_broken (p_rwc p) = false -> c_out (p_rwc p) = [] ->
  resp_Marshal (mkResponse (m_Method m) (id (m_Id m)) (m_Error m)) = inr data -> sized data ->
  proto_Marshal b = inr bdata -> sized bdata -> same_type b b0 ->
  WriteProto m (VProto b) p = (p', (m', Ret ())) ->
  grouped (delivered (c_out (p_rwc p') ++ rest)) (c_in (p_rwc q)) ->
  exists q1 r1 q2, ReadHeaderProto r0 TypeResponse q = (q1, (r1, Ret ())) /\
    m_Method r1 = m_Method m /\ m_Id r1 = id_string (id (m_Id m)) /\ m_Error r1 = m_Error m /\
    ReadBodyProto (VProto b0) q1 = (q2, Ret (VProto b)) /\
    grouped (delivered rest) (c_in (p_rwc q2)).
Proof.
  intros Ht Hbr Hout Hdata Hd Hbdata Hb Hty HW Hg.
  assert (exists p1, write_both (Ret data) (response_body (VProto b)) p = (p1, Ret ()) /\ p' = p1) as (p1 & Hwb & ->).
  { unfold WriteProto in HW. rewrite Hdata in HW. cbn [lib] in HW.
    destruct Ht as [Ht|Ht]; rewrite Ht in HW; cbn [Z.eqb TypeRequest TypeResponse TypeError Pos.eqb orb] in HW;
      destruct (write_both _ _ p) as [p1 r]; simplify_eq; by exists p'. }
  apply write_both_ok in Hwb as (bdata' & Hbd & _ & Ho); [|done].
  cbn in Hbd. rewrite Hbdata in Hbd. injection Hbd as <-.
  rewrite Ho, Hout in Hg. cbn [app] in Hg. rewrite delivered_netstrings in Hg.
  destruct (read_pair b b0 data bdata (delivered rest) q TypeResponse) as (c1 & q2 & Hr & Hbody & Hg2);
    try done; [by right|apply delivered_nonempty|].
  eexists _, _, q2. split.
  - unfold ReadHeaderProto. cbn [Z.eqb TypeResponse TypeRequest Pos.eqb p_rwc]. rewrite Hr.
    by rewrite (resp_round_trip _ _ Hdata).
  - split_and!; [done..|exact Hbody|exact Hg2].
Qed.
End protorpc.

(** ** Identifiers *)
Lemma id_range s : (0 <= id s < 2 ^ 64)%Z.
Proof. unfold id. apply Z.mod_pos_bound. lia. Qed.

(** The identifiers a client counts with come back as they were sent. *)
Lemma id_string_id z : (0 <= z <= int_max)%Z -> id_string (id (fmt_Z z)) = fmt_Z z.
Proof.
  intros Hz. unfold id. rewrite ParseInt_fmt by (unfold int_min, int_max in *; lia).
  rewrite Z.mod_small by (unfold int_max in *; lia). unfold id_string, fmt_Z.
  destruct (Z.ltb_spec z 0); [lia|done].
Qed.

Example id_negative : id_string (id "-1") = "18446744073709551615".
Proof. vm_compute. reflexivity. Qed.

Example id_not_a_number : id_string (id "req-1") = "0".
Proof. vm_compute. reflexivity. Qed.

(** ** Concrete runs *)
#[local] Existing Instances text_marshalling text_marshalling_ok.

(** An envelope in text: the sequence number, the length of the method, the method
    and the error. *)
Definition cut (s : string) : option (string * string) :=
  i ← index_where (fun a => Ascii.eqb a ":") s; Some (str_take i s, str_drop (S i) s).

Definition number (s : string) : option (Z * string) :=
  p ← cut s; match ParseInt p.1 with inr z => Some (z, p.2) | inl _ => None end.

Definition numbered (z : Z) (s : string) : string + string :=
  if (0 <=? z)%Z && (z <=? int_max)%Z then inr (fmt_Z z +:+ String ":" s) else inl "out of range".

Lemma number_numbered z s t : numbered z s = inr t -> number t = Some (z, s).
Proof.
  unfold numbered. destruct (Z.leb_spec 0 z); [|done]. destruct (Z.leb_spec z int_max); [|done].
  intros [= <-]. unfold number, cut. rewrite index_where_app.
  - cbn [mbind option_bind fst snd]. rewrite str_take_app, ParseInt_fmt by (unfold int_min; lia).
    do 2 f_equal. induction (fmt_Z z) as [|a d IH]; [done|exact IH].
  - unfold fmt_Z. destruct (Z.ltb_spec z 0); [lia|].
    pose proof (fmt_N_digits (Z.to_N z)) as Hd. induction (fmt_N _) as [|a d IH]; [done|].
    cbn in *. apply andb_true_iff in Hd as [Ha Hd]. rewrite (IH Hd), andb_true_r.
    by destruct a as [[] [] [] [] [] [] [] []].
  - done.
Qed.

Definition text_envelope : Envelope := {|
  req_Marshal := fun r => numbered (rq_Seq r) (rq_ServiceMethod r);
  req_Unmarshal := fun d =>
    match number d with Some (seq, m) => inr (mkRequest m seq) | None => inl "bad envelope" end;
  resp_Marshal := fun r =>
    match numbered (Z.of_nat (String.length (rs_ServiceMethod r))) (rs_ServiceMethod r +:+ rs_Error r) with
    | inl e => inl e
    | inr s => numbered (rs_Seq r) s
    end;
  resp_Unmarshal := fun d =>
    match number d with
    | None => inl "bad envelope"
    | Some (seq, d) =>
        match number d with
        | None => inl "bad envelope"
        | Some (n, d) => inr (mkResponse (str_take (Z.to_nat n) d) seq (str_drop (Z.to_nat n) d))
        end
    end;
|}.

#[local] Existing Instance text_envelope.

Definition text_envelope_ok : EnvelopeOk.
Proof.
  split.
  - intros [m seq] data. cbn. intros Hn. by rewrite (number_numbered _ _ _ Hn).
  - intros [m seq err] data. cbn. destruct (numbered (Z.of_nat _) _) as [e|s] eqn:Hs; [done|].
    intros Hn. rewrite (number_numbered _ _ _ Hn), (number_numbered _ _ _ Hs), Nat2Z.id.
    by rewrite str_take_app, str_drop_app.
Qed.

Definition call_message (t : MessageType) (err : string) : Message :=
  mkMessage (Some ∅) "7" "greeter" "Say.Hello" "Say.Hello" err "" t.

Definition quiet : conn := mkConn [] [] false.

Definition sent (t : MessageType) (err body : string) : protoCodec :=
  (WriteProto (V := unit) (call_message t err) (VProto body) (newCodec quiet)).1.

Lemma request_exchange_witness :
  exists q1 r1 q2,
    ReadHeaderProto (call_message TypeRequest "") TypeRequest
      (newCodec (mkConn (delivered (c_out (p_rwc (sent TypeRequest "" "hi")))) [] false)) = (q1, (r1, Ret ())) /\
    m_Id r1 = "7" /\ ReadBodyProto (V := unit) (VProto "") q1 = (q2, Ret (VProto "hi")).
Proof.
  destruct (request_exchange (V := unit) (H1 := text_envelope_ok) (call_message TypeRequest "")
    (call_message TypeRequest "") "hi" "" (newCodec quiet) (sent TypeRequest "" "hi")
    (newCodec (mkConn (delivered (c_out (p_rwc (sent TypeRequest "" "hi")) ++ [])) [] false))
    (call_message TypeRequest "") [] "7:Say.Hello" "hi"
    eq_refl eq_refl eq_refl eq_refl ltac:(done) eq_refl ltac:(done) I eq_refl (grouped_each _))
    as (q1 & r1 & q2 & Hh & _ & Hid & Hb & _).
  rewrite app_nil_r in Hh. exists q1, r1, q2. split; [exact Hh|]. split; [exact Hid|exact Hb].
Defined.

Lemma response_exchange_witness :
  exists q1 r1 q2,
    ReadHeaderProto (call_message TypeResponse "") TypeResponse
      (newCodec (mkConn [String.concat "" (delivered (c_out (p_rwc (sent TypeError "no such user" "")) ))] [] false))
      = (q1, (r1, Ret ())) /\
    m_Error r1 = "no such user" /\ ReadBodyProto (V := unit) (VProto "") q1 = (q2, Ret (VProto "")).
Proof.
  destruct (response_exchange (V := unit) (H1 := text_envelope_ok) (call_message TypeError "no such user")
    (call_message TypeError "no such user") "" "" (newCodec quiet) (sent TypeError "no such user" "")
    (newCodec (mkConn [String.concat "" (delivered (c_out (p_rwc (sent TypeError "no such user" "")) ++ []))] [] false))
    (call_message TypeResponse "") [] "7:9:Say.Hellono such user" ""
    (or_intror eq_refl) eq_refl eq_refl eq_refl ltac:(done) eq_refl ltac:(done) I eq_refl
    ltac:(apply grouped_one; vm_compute; discriminate))
    as (q1 & r1 & q2 & Hh & _ & _ & He & Hb & _).
  rewrite app_nil_r in Hh. exists q1, r1, q2. split; [exact Hh|]. split; [exact He|exact Hb].
Defined.
