(* ===== verification/RpcCodec.v ===== *)
(** * RPC codecs: [client/rpc_codec.go], [server/rpc_codec.go], [transport/headers]

    Both sides wrap a body codec around a transport: fields of a message travel
    as transport headers, the body through the codec's buffer. What the transport
    answers to [Send] and [Recv] is an argument; what was sent is returned. The
    theorems hold for every codec of the class [CodecOps]. *)
From S2P Require Import Prelude GoStrings GoStrconv GoIO Codec.

(** ** Headers *)
Definition HMessage : string := "Micro-Topic".
Definition HRequest : string := "Micro-Service".
Definition HError : string := "Micro-Error".
Definition HEndpoint : string := "Micro-Endpoint".
Definition HMethod : string := "Micro-Method".
Definition HID : string := "Micro-ID".
Definition HProtocol : string := "Micro-Protocol".
Definition HTarget : string := "Micro-Target".
Definition HStream : string := "Micro-Stream".
Definition HContentType : string := "Content-Type".

(** A transport message. *)
Record tmsg := mkTmsg { t_Header : option (gmap string string); t_Body : string }.

Definition theader (m : tmsg) (k : string) : string := default "" (default ∅ (t_Header m) !! k).

(** ** Which codec a content type gets *)
Inductive codec_kind := KGrpc | KProto | KJson | KJsonRpc | KProtoRpc | KBytes.

#[export] Instance codec_kind_eq_dec : EqDecision codec_kind.
Proof. solve_decision. Defined.

Definition DefaultCodecs : gmap string codec_kind := {[
  "application/grpc" := KGrpc; "application/grpc+json" := KGrpc; "application/grpc+proto" := KGrpc;
  "application/protobuf" := KProto; "application/json" := KJson; "application/json-rpc" := KJsonRpc;
  "application/proto-rpc" := KProtoRpc; "application/octet-stream" := KBytes ]}.

Definition defaultCodecs : gmap string codec_kind := {[
  "application/json" := KJsonRpc; "application/json-rpc" := KJsonRpc;
  "application/protobuf" := KProtoRpc; "application/proto-rpc" := KProtoRpc;
  "application/octet-stream" := KProtoRpc ]}.

(** [None]: unsupported content type. *)
Definition newCodec (codecs : gmap string codec_kind) (contentType : string) : option codec_kind :=
  match codecs !! contentType with Some c => Some c | None => DefaultCodecs !! contentType end.

(** The client's choice for a node: the headers, rewritten for the old protocol,
    and the legacy codec if there is one. *)
Definition client_setupProtocol (h : gmap string string) (node_md : gmap string string) :
    gmap string string * option codec_kind :=
  let get k := default "" (h !! k) in
  if negb (String.eqb (default "" (node_md !! "protocol")) "") then (h, None)
  else if negb (String.eqb (get HMessage) "") then (h, None)
  else
    let h := if String.eqb (get HContentType) "application/json"
             then <[HContentType := "application/json-rpc"]> h
             else if String.eqb (get HContentType) "application/protobuf"
             then <[HContentType := "application/proto-rpc"]> h else h in
    (h, defaultCodecs !! default "" (h !! HContentType)).

(** A header, or its X- variant. *)
Definition getHeader (hdr : string) (md : gmap string string) : string :=
  let hd := default "" (md !! hdr) in
  if String.eqb hd "" then default "" (md !! ("X-" +:+ hdr)) else hd.

Definition server_setupProtocol (h : gmap string string) : gmap string string * option codec_kind :=
  let service := getHeader HRequest h in
  let method := getHeader HMethod h in
  let endpoint := getHeader HEndpoint h in
  let legacy := defaultCodecs !! default "" (h !! HContentType) in
  if negb (String.eqb (getHeader HProtocol h) "") then (h, None)
  else if negb (String.eqb (getHeader HMessage h) "") then (h, None)
  else if String.eqb service "" && String.eqb method "" && String.eqb endpoint "" then (h, legacy)
  else if negb (String.eqb (getHeader HTarget h) "") then (h, legacy)
  else
    let h := if String.eqb method "" then <[HMethod := endpoint]> h else h in
    let h := if String.eqb endpoint "" then <[HEndpoint := method]> h else h in
    (h, None).

(** The codec of a call, client and server side. *)
Definition client_codec (codecs : gmap string codec_kind) (h node_md : gmap string string) :
    gmap string string * option codec_kind :=
  let ct := default "" (h !! HContentType) in
  match client_setupProtocol h node_md with
  | (h, Some k) => (h, Some k)
  | (h, None) => (h, newCodec codecs ct)
  end.

Definition server_codec (codecs : gmap string codec_kind) (h : gmap string string) :
    gmap string string * option codec_kind :=
  let ct := default "" (h !! HContentType) in
  let h := if String.eqb ct "" then <[HContentType := "application/protobuf"]> h else h in
  let ct := if String.eqb ct "" then "application/protobuf" else ct in
  match server_setupProtocol h with
  | (h, Some k) => (h, Some k)
  | (h, None) => (h, newCodec codecs ct)
  end.

(** ** The two codecs *)

(** What the client's operations return: an internal server error with its
    identifier and detail, or the error itself. *)
Inductive rpc_error :=
| Internal (id detail : string)
| Raw (e : error).

Definition with_fields (m : Message) (id target method endpoint err : string) : Message :=
  mkMessage (m_Header m) id target method endpoint err (m_Body m) (m_Type m).

(** A field, or the header that carries it. *)
Definition pick (v h : string) : string := if String.eqb v "" then h else v.

Lemma pick_pick a b : pick (pick a b) b = pick a b.
Proof. unfold pick. destruct (String.eqb a "") eqn:Ha; [by destruct (String.eqb b "")|by rewrite Ha]. Qed.

Section buffers.
Context {M V S : Type} `{CodecOps M V S}.

Definition reset_wbuf (s : S) : S := set_rwc (mkConn (c_in (rwc s)) [] (c_broken (rwc s))) s.
Definition fill_rbuf (body : string) (s : S) : S :=
  set_rwc (mkConn (push body []) (c_out (rwc s)) (c_broken (rwc s))) s.
Definition wbuf (s : S) : string := String.concat "" (c_out (rwc s)).
Definition rbuf (s : S) : string := String.concat "" (c_in (rwc s)).

End buffers.

(** *** Client *)
Module Client.
Section rpc.
Context {M V S : Type} `{CodecOps M V S}.

Record rpcCodec := mkRpcCodec { codec : S; req : option (gmap string string); stream : string }.

Definition with_codec (s : S) (c : rpcCodec) : rpcCodec := mkRpcCodec s (req c) (stream c).

Definition getHeaders (m : Message) : Message :=
  with_fields m (pick (m_Id m) (header m HID)) (m_Target m) (pick (m_Method m) (header m HMethod))
    (pick (m_Endpoint m) (header m HEndpoint)) (pick (m_Error m) (header m HError)).

Definition set_nonempty (h : gmap string string) (kv : string * string) : gmap string string :=
  if String.eqb kv.2 "" then h else <[kv.1 := kv.2]> h.

Definition setHeaders (m : Message) (stream : string) (h : gmap string string) : gmap string string :=
  foldl set_nonempty h
    [(HID, m_Id m); (HRequest, m_Target m); (HMethod, m_Method m); (HEndpoint, m_Endpoint m);
     (HError, m_Error m); (HStream, stream)].

Definition newRPCCodec (req : option (gmap string string)) (stream : string) : rpcCodec :=
  mkRpcCodec (NewCodec (mkConn [] [] false)) req stream.

(** The headers of the request are copied over those of the message; the copy
    loses to the message's fields. *)
Definition outgoing (message : Message) (c : rpcCodec) : Message :=
  with_header message
    (setHeaders message (stream c) (default ∅ (req c) ∪ default ∅ (m_Header message))).

Definition codec_error (e : error) : rpc_error := Internal "go.micro.client.codec" (error_text e).
Definition transport_error (text : string) : rpc_error := Internal "go.micro.client.transport" text.

(** [Send] fails with a text, or succeeds. *)
Definition send_result (send : option string) (msg : tmsg) : option tmsg * outcome rpc_error unit :=
  match send with
  | None => (Some msg, Ret ())
  | Some text => (None, Fail (transport_error text))
  end.

Definition Write (send : option string) (message : Message) (body : value M V) (c : rpcCodec) :
    rpcCodec * (option tmsg * outcome rpc_error unit) :=
  let c := with_codec (reset_wbuf (codec c)) c in
  let message := outgoing message c in
  match body with
  | VNil => (c, send_result send (mkTmsg (m_Header message) (m_Body message)))
  | VFrame data => (c, send_result send (mkTmsg (m_Header message) data))
  | _ =>
      match WriteMessage message body (codec c) with
      | (s, (message, Ret _)) =>
          (with_codec s c, send_result send (mkTmsg (m_Header message) (wbuf s)))
      | (s, (_, Fail e)) => (with_codec s c, (None, Fail (codec_error e)))
      | (s, (_, Panic)) => (with_codec s c, (None, Panic))
      end
  end.

Definition ReadHeader (recv : string + tmsg) (msg : Message) (r : MessageType) (c : rpcCodec) :
    rpcCodec * (Message * outcome rpc_error unit) :=
  match recv with
  | inl text => (c, (msg, Fail (transport_error text)))
  | inr tm =>
      let s := fill_rbuf (t_Body tm) (codec c) in
      let msg := mkMessage (t_Header tm) (m_Id msg) (m_Target msg) (m_Method msg) (m_Endpoint msg)
                   (m_Error msg) (m_Body msg) (m_Type msg) in
      match Codec.ReadHeader msg r s with
      | (s, (msg, Panic)) => (with_codec s c, (msg, Panic))
      | (s, (msg, Ret _)) => (with_codec s c, (getHeaders msg, Ret ()))
      | (s, (msg, Fail e)) => (with_codec s c, (getHeaders msg, Fail (codec_error e)))
      end
  end.

Definition ReadBody (b : value M V) (c : rpcCodec) : rpcCodec * outcome rpc_error (value M V) :=
  match b with
  | VFrame _ => (c, Ret (VFrame (rbuf (codec c))))
  | _ =>
      match Codec.ReadBody b (codec c) with
      | (s, Ret v) => (with_codec s c, Ret v)
      | (s, Fail e) => (with_codec s c, Fail (codec_error e))
      | (s, Panic) => (with_codec s c, Panic)
      end
  end.
End rpc.
Arguments rpcCodec S : clear implicits.
End Client.

(** *** Server *)
Module Server.
Section rpc.
Context {M V S : Type} `{CodecOps M V S}.

(** [preloaded]: the channel [first] is still open, and the first [ReadHeader]
    takes the request the codec was made with. *)
Record rpcCodec := mkRpcCodec { codec : S; req : tmsg; preloaded : bool }.

Definition with_codec (s : S) (c : rpcCodec) : rpcCodec := mkRpcCodec s (req c) (preloaded c).

Definition getHeaders (m : Message) : Message :=
  let endpoint := pick (m_Endpoint m) (header m HEndpoint) in
  let method := pick (m_Method m) (header m HMethod) in
  with_fields m (pick (m_Id m) (header m HID)) (pick (m_Target m) (header m HRequest)) method
    (pick endpoint method) (pick (m_Error m) (header m HError)).

Definition set_both (h : gmap string string) (kv : string * string) : gmap string string :=
  if String.eqb kv.2 "" then h else <["X-" +:+ kv.1 := kv.2]> (<[kv.1 := kv.2]> h).

Definition setHeaders (r : Message) (h : gmap string string) : gmap string string :=
  foldl set_both h
    [(HID, m_Id r); (HRequest, m_Target r); (HMethod, m_Method r); (HEndpoint, m_Endpoint r);
     (HError, m_Error r)].

Definition newRPCCodec (req : tmsg) : rpcCodec :=
  let s := NewCodec (mkConn [] [] false) in
  if String.eqb codec_String "grpc" then mkRpcCodec (fill_rbuf (t_Body req) s) req true
  else mkRpcCodec s req false.

Definition no_fields (tm : tmsg) : Message := mkMessage (t_Header tm) "" "" "" "" "" (t_Body tm) TypeError.

Definition after_header (mmsg : Message) (c : rpcCodec) : rpcCodec * outcome rpc_error Message :=
  match Codec.ReadHeader (getHeaders mmsg) TypeRequest (codec c) with
  | (s, (m, Ret _)) =>
      (with_codec s c,
       Ret (with_fields m (m_Id m) (m_Target m) (m_Method m) (pick (m_Endpoint m) (m_Method m)) (m_Error m)))
  | (s, (_, Fail e)) => (with_codec s c, Fail (Raw e))
  | (s, (_, Panic)) => (with_codec s c, Panic)
  end.

Definition ReadHeader (recv : error + tmsg) (c : rpcCodec) : rpcCodec * outcome rpc_error Message :=
  if preloaded c then after_header (no_fields (req c)) (mkRpcCodec (codec c) (req c) false)
  else
    match recv with
    | inl e => (c, Fail (Raw e))
    | inr tm => after_header (no_fields tm) (mkRpcCodec (fill_rbuf (t_Body tm) (codec c)) tm false)
    end.

Definition ReadBody (b : value M V) (c : rpcCodec) : rpcCodec * outcome rpc_error (value M V) :=
  if String.eqb (t_Body (req c)) "" then (c, Ret b)
  else
    match b with
    | VFrame _ => (c, Ret (VFrame (t_Body (req c))))
    | _ =>
        match Codec.ReadBody b (codec c) with
        | (s, Ret v) => (with_codec s c, Ret v)
        | (s, Fail e) => (with_codec s c, Fail (Raw e))
        | (s, Panic) => (with_codec s c, Panic)
        end
    end.

Definition encode_failed (e : error) : string := "Unable to encode body: " +:+ error_text e.

(** The body of an answer, and the message that goes with it: a body that cannot be
    encoded becomes an error header, if the codec can write an empty body. *)
Definition answer_body (m : Message) (r : Message) (b : value M V) (s : S) :
    S * (Message * outcome rpc_error string) :=
  match b with
  | VFrame data => (s, (m, Ret data))
  | _ =>
      if negb (String.eqb (m_Body r) "") then (s, (m, Ret (m_Body r)))
      else
        match WriteMessage m b s with
        | (s, (m, Ret _)) => (s, (m, Ret (wbuf s)))
        | (s, (m, Panic)) => (s, (m, Panic))
        | (s, (m, Fail e)) =>
            let s := reset_wbuf s in
            let m := with_fields m (m_Id m) (m_Target m) (m_Method m) (m_Endpoint m) (encode_failed e) in
            let m := with_header m (<[HError := encode_failed e]> (default ∅ (m_Header m))) in
            match WriteMessage m VNil s with
            | (s, (m, Ret _)) => (s, (m, Ret ""))
            | (s, (m, Fail e)) => (s, (m, Fail (Raw e)))
            | (s, (m, Panic)) => (s, (m, Panic))
            end
        end
  end.

Definition answer (r : Message) : Message :=
  mkMessage (Some (setHeaders r (default ∅ (m_Header r)))) (m_Id r) (m_Target r) (m_Method r)
    (m_Endpoint r) (m_Error r) "" (m_Type r).

Definition Write (send : option error) (r : Message) (b : value M V) (c : rpcCodec) :
    rpcCodec * (option tmsg * outcome rpc_error unit) :=
  match answer_body (answer r) r b (reset_wbuf (codec c)) with
  | (s, (m, Ret body)) =>
      let h := default ∅ (m_Header m) in
      let h := if String.eqb body "" then h else <[HContentType := theader (req c) HContentType]> h in
      (with_codec s c,
       match send with
       | None => (Some (mkTmsg (Some h) body), Ret ())
       | Some e => (None, Fail (Raw e))
       end)
  | (s, (_, Fail e)) => (with_codec s c, (None, Fail e))
  | (s, (_, Panic)) => (with_codec s c, (None, Panic))
  end.
End rpc.
Arguments rpcCodec S : clear implicits.
End Server.

(** ** Headers carry the fields *)
Lemma foldl_lookup_other {A} (f : gmap string string -> A -> gmap string string) l h k :
  Forall (fun kv => forall h, f h kv !! k = h !! k) l -> foldl f h l !! k = h !! k.
Proof.
  intros Hl. revert h. induction Hl as [|kv l Hkv _ IH]; intros h; cbn; [done|]. by rewrite IH.
Qed.

(** [foldl f h (pre ++ kv :: post)] at the key of [kv], when the other steps leave
    that key alone. *)
Lemma foldl_lookup_at {A} (f : gmap string string -> A -> gmap string string) pre kv post h k v :
  Forall (fun kv => forall h, f h kv !! k = h !! k) pre ->
  Forall (fun kv => forall h, f h kv !! k = h !! k) post ->
  (forall h, default "" (f h kv !! k) = pick v (default "" (h !! k))) ->
  default "" (foldl f h (pre ++ kv :: post) !! k) = pick v (default "" (h !! k)).
Proof.
  intros Hpre Hpost Hkv. rewrite foldl_app. cbn.
  by rewrite (foldl_lookup_other f post), Hkv, (foldl_lookup_other f pre).
Qed.

Lemma set_nonempty_at h k v : default "" (Client.set_nonempty h (k, v) !! k) = pick v (default "" (h !! k)).
Proof.
  unfold Client.set_nonempty, pick. cbn. destruct (String.eqb v ""); [done|].
  by rewrite lookup_insert_eq.
Qed.

Lemma set_both_at h k v : default "" (Server.set_both h (k, v) !! k) = pick v (default "" (h !! k)).
Proof.
  unfold Server.set_both, pick. cbn [fst snd]. destruct (String.eqb v ""); [done|].
  rewrite lookup_insert_ne, lookup_insert_eq; [done|].
  intros Hk%(f_equal String.length). rewrite str_length_app in Hk. cbn in Hk. lia.
Qed.

Ltac keeps_header :=
  repeat first
    [ apply List.Forall_nil
    | apply List.Forall_cons;
      [ intros ?; unfold Client.set_nonempty, Server.set_both; cbn [fst snd];
        case_match; [done|]; repeat (rewrite lookup_insert_ne by done); done |] ].

Ltac field_at pre kv lem :=
  apply (foldl_lookup_at _ pre kv); [keeps_header|keeps_header|intros; apply lem].

(** What the other side finds for a field: its value, or the header there was. *)
Definition carried (v : string) (h : gmap string string) (k : string) : string :=
  pick v (default "" (h !! k)).

Record carries (m : Message) (h h' : gmap string string) : Prop := {
  carries_id : default "" (h' !! HID) = carried (m_Id m) h HID;
  carries_target : default "" (h' !! HRequest) = carried (m_Target m) h HRequest;
  carries_method : default "" (h' !! HMethod) = carried (m_Method m) h HMethod;
  carries_endpoint : default "" (h' !! HEndpoint) = carried (m_Endpoint m) h HEndpoint;
  carries_error : default "" (h' !! HError) = carried (m_Error m) h HError;
}.

Lemma client_setHeaders_carries m stream h : carries m h (Client.setHeaders m stream h).
Proof.
  split; unfold Client.setHeaders, carried.
  - field_at (@nil (string * string)) (HID, m_Id m) set_nonempty_at.
  - field_at [(HID, m_Id m)] (HRequest, m_Target m) set_nonempty_at.
  - field_at [(HID, m_Id m); (HRequest, m_Target m)] (HMethod, m_Method m) set_nonempty_at.
  - field_at [(HID, m_Id m); (HRequest, m_Target m); (HMethod, m_Method m)] (HEndpoint, m_Endpoint m) set_nonempty_at.
  - field_at [(HID, m_Id m); (HRequest, m_Target m); (HMethod, m_Method m); (HEndpoint, m_Endpoint m)] (HError, m_Error m) set_nonempty_at.
Qed.

Lemma server_setHeaders_carries m h : carries m h (Server.setHeaders m h).
Proof.
  split; unfold Server.setHeaders, carried.
  - field_at (@nil (string * string)) (HID, m_Id m) set_both_at.
  - field_at [(HID, m_Id m)] (HRequest, m_Target m) set_both_at.
  - field_at [(HID, m_Id m); (HRequest, m_Target m)] (HMethod, m_Method m) set_both_at.
  - field_at [(HID, m_Id m); (HRequest, m_Target m); (HMethod, m_Method m)] (HEndpoint, m_Endpoint m) set_both_at.
  - field_at [(HID, m_Id m); (HRequest, m_Target m); (HMethod, m_Method m); (HEndpoint, m_Endpoint m)] (HError, m_Error m) set_both_at.
Qed.

(** ** Codecs that write one body and nothing else

    What the wrapped codec owes to both sides: headers are left alone, and a body
    alone in the buffer is read back into a target that can hold it. *)
Definition plain {M V} (b : value M V) : bool := match b with VNil | VFrame _ => false | _ => true end.

Class SingleBody (M V S : Type) `{CodecOps M V S} := {
  fills : value M V -> value M V -> Prop;
  fills_plain b b0 : fills b b0 -> plain b = true /\ plain b0 = true;
  rwc_set c s : rwc (set_rwc c s) = c;
  header_neutral m t s : ReadHeader m t s = (s, (m, Ret ()));
  write_keeps m b s s' m' r : WriteMessage m b s = (s', (m', r)) -> m' = m;
  body_round_trip m b b0 s s' m' s2 :
    c_out (rwc s) = [] -> WriteMessage m b s = (s', (m', Ret ())) -> fills b b0 ->
    String.concat "" (c_in (rwc s2)) = String.concat "" (c_out (rwc s')) ->
    exists s3, ReadBody b0 s2 = (s3, Ret b);
}.

Section exchange.
Context {M V S : Type} `{SingleBody M V S}.

Lemma rbuf_fill body (s : S) : String.concat "" (c_in (rwc (fill_rbuf body s))) = body.
Proof.
  unfold fill_rbuf. rewrite rwc_set. cbn. unfold push.
  destruct (String.eqb_spec body "") as [->|_]; [done|]. cbn. done.
Qed.

Lemma wbuf_reset (s : S) : c_out (rwc (reset_wbuf s)) = [].
Proof. unfold reset_wbuf. by rewrite rwc_set. Qed.

(** A successful [Write] of a plain body, opened up. *)
Lemma client_Write_plain send m (b : value M V) c c' tm :
  plain b = true -> Client.Write send m b c = (c', (Some tm, Ret ())) ->
  exists s, WriteMessage (Client.outgoing m c) b (reset_wbuf (Client.codec c)) = (s, (Client.outgoing m c, Ret ())) /\
    t_Header tm = m_Header (Client.outgoing m c) /\ t_Body tm = wbuf s.
Proof.
  intros Hb HW.
  assert (Client.outgoing m (Client.with_codec (reset_wbuf (Client.codec c)) c) = Client.outgoing m c) as Ho by done.
  assert (exists s m', WriteMessage (Client.outgoing m c) b (reset_wbuf (Client.codec c)) = (s, (m', Ret ())) /\
    t_Header tm = m_Header m' /\ t_Body tm = wbuf s) as (s & m' & Hw & Hh & Hbody).
  { unfold Client.Write in HW. rewrite Ho in HW. unfold Client.send_result in HW. cbn [Client.codec Client.with_codec] in HW.
    destruct b; try done;
      destruct (WriteMessage _ _ _) as [s1 [m1 [[]| |]]]; destruct send; simplify_eq; by exists s1, m1. }
  pose proof (write_keeps _ _ _ _ _ _ Hw) as ->. by exists s.
Qed.

(** What the server sees of a message whose headers the client set. *)
Lemma server_reads_headers m stream h tm sc :
  t_Header tm = Some (Client.setHeaders m stream h) -> Server.preloaded sc = false ->
  exists r, Server.ReadHeader (inr tm) sc =
      (Server.mkRpcCodec (fill_rbuf (t_Body tm) (Server.codec sc)) tm false, Ret r) /\
    m_Id r = carried (m_Id m) h HID /\ m_Target r = carried (m_Target m) h HRequest /\
    m_Method r = carried (m_Method m) h HMethod /\ m_Error r = carried (m_Error m) h HError /\
    m_Endpoint r = pick (carried (m_Endpoint m) h HEndpoint) (carried (m_Method m) h HMethod).
Proof.
  intros Hh Hpre. destruct (client_setHeaders_carries m stream h) as [Hid Htg Hme Hep Her].
  unfold Server.ReadHeader. rewrite Hpre. unfold Server.after_header. rewrite header_neutral.
  eexists. split; [reflexivity|].
  assert (forall k, header (Server.no_fields tm) k = default "" (Client.setHeaders m stream h !! k)) as Hk.
  { intros k. unfold header, Server.no_fields. cbn. by rewrite Hh. }
  cbn. rewrite !Hk, Hid, Htg, Hme, Hep, Her. split_and!; try done. apply pick_pick.
Qed.

(** C10: a call reaches the server as it was made. When the client writes a message
    with a body and the server reads the transport message that was sent, the
    server sees the message's identifier, target, method and error, each replaced
    by the request's or message's header of that name when empty, the endpoint (or
    else the method), and the body; the headers are those of the message under the
    request's. This holds for every codec that carries a single body. *)
Theorem call_round_trip send m (b b0 : value M V) c c' tm sc :
  Client.Write send m b c = (c', (Some tm, Ret ())) -> fills b b0 -> t_Body tm <> "" ->
  Server.preloaded sc = false ->
  let h := default ∅ (Client.req c) ∪ default ∅ (m_Header m) in
  exists sc1 r sc2, Server.ReadHeader (inr tm) sc = (sc1, Ret r) /\
    m_Id r = carried (m_Id m) h HID /\ m_Target r = carried (m_Target m) h HRequest /\
    m_Method r = carried (m_Method m) h HMethod /\ m_Error r = carried (m_Error m) h HError /\
    m_Endpoint r = pick (carried (m_Endpoint m) h HEndpoint) (carried (m_Method m) h HMethod) /\
    Server.ReadBody b0 sc1 = (sc2, Ret b).
Proof.
  intros HW Hfill Hbody Hpre h. destruct (fills_plain _ _ Hfill) as [Hb Hb0].
  apply client_Write_plain in HW as (s & Hw & Hh & Hwb); [|done].
  destruct (server_reads_headers m (Client.stream c) h tm sc Hh Hpre) as (r & Hr & Hid & Htg & Hme & Her & Hep).
  destruct (body_round_trip _ b b0 _ s _ (fill_rbuf (t_Body tm) (Server.codec sc)) (wbuf_reset _) Hw Hfill)
    as [s3 Hread].
  { by rewrite rbuf_fill, Hwb. }
  eexists _, r, _. split; [exact Hr|]. split_and!; try done.
  unfold Server.ReadBody. cbn [Server.req Server.with_codec Server.codec].
  destruct (String.eqb_spec (t_Body tm) ""); [done|]. rewrite Hread. by destruct b0.
Qed.

(** An answer reaches the client as the server wrote it: identifier, method,
    endpoint and error through the headers, the body through the codec, the content
    type that of the request. *)
Theorem reply_round_trip send r (b b0 : value M V) sc sc' tm c msg0 t :
  Server.Write send r b sc = (sc', (Some tm, Ret ())) -> fills b b0 -> m_Body r = "" ->
  (WriteMessage (Server.answer r) b (reset_wbuf (Server.codec sc))).2.2 = Ret () ->
  m_Id msg0 = "" -> m_Method msg0 = "" -> m_Endpoint msg0 = "" -> m_Error msg0 = "" ->
  let h := default ∅ (m_Header r) in
  exists c1 m c2, Client.ReadHeader (inr tm) msg0 t c = (c1, (m, Ret ())) /\
    m_Id m = carried (m_Id r) h HID /\ m_Method m = carried (m_Method r) h HMethod /\
    m_Endpoint m = carried (m_Endpoint r) h HEndpoint /\ m_Error m = carried (m_Error r) h HError /\
    (t_Body tm <> "" -> theader tm HContentType = theader (Server.req sc) HContentType) /\
    Client.ReadBody b0 c1 = (c2, Ret b).
Proof.
  intros HW Hfill Hr0 Hok Hi0 Hm0 He0 Her0 h. destruct (fills_plain _ _ Hfill) as [Hb Hb0].
  assert (exists s, WriteMessage (Server.answer r) b (reset_wbuf (Server.codec sc)) =
      (s, (Server.answer r, Ret ())) /\ t_Body tm = wbuf s /\
      t_Header tm = Some (if String.eqb (wbuf s) "" then Server.setHeaders r h
        else <[HContentType := theader (Server.req sc) HContentType]> (Server.setHeaders r h)))
    as (s & Hw & Hbody & Hh).
  { destruct (WriteMessage (Server.answer r) b (reset_wbuf (Server.codec sc))) as [s [m' res]] eqn:Hw.
    cbn in Hok. subst res. pose proof (write_keeps _ _ _ _ _ _ Hw) as ->.
    exists s. split; [done|]. revert HW. unfold Server.Write, Server.answer_body. rewrite Hr0, Hw. cbn [negb String.eqb].
    destruct b; try done; destruct send; intros HW; simplify_eq; by split. }
  destruct (server_setHeaders_carries r h) as [Hid Htg Hme Hep Her].
  assert (forall k, k <> HContentType -> theader tm k = default "" (Server.setHeaders r h !! k)) as Hk.
  { intros k Hk. unfold theader. rewrite Hh. cbn. destruct (String.eqb _ ""); [done|].
    by rewrite lookup_insert_ne. }
  destruct (body_round_trip _ b b0 _ s _ (fill_rbuf (t_Body tm) (Client.codec c)) (wbuf_reset _) Hw Hfill)
    as [s3 Hread].
  { by rewrite rbuf_fill, Hbody. }
  unfold Client.ReadHeader. rewrite header_neutral. eexists _, _, _. split; [reflexivity|].
  unfold Client.getHeaders, header. cbn [m_Id m_Method m_Endpoint m_Error m_Header with_fields].
  rewrite Hi0, Hm0, He0, Her0. unfold pick. cbn [String.eqb].
  change (forall k, k <> HContentType -> default "" (default ∅ (t_Header tm) !! k) =
    default "" (Server.setHeaders r h !! k)) in Hk.
  rewrite !Hk, Hid, Hme, Hep, Her by done. split_and!; try done.
  - intros Hne. unfold theader at 1. rewrite Hh, <- Hbody. destruct (String.eqb_spec (t_Body tm) ""); [done|].
    cbn. by rewrite lookup_insert_eq.
  - unfold Client.ReadBody. cbn [Client.codec Client.with_codec]. rewrite Hread. by destruct b0.
Qed.
End exchange.

(** ** Single-body codecs *)
Section instances.
Context {M V : Type} `{MarshallingOk M V}.

#[export] Program Instance proto_single_body : SingleBody M V protobufCodec := {|
  fills := fun b b0 => exists m m0, b = VProto m /\ b0 = VProto m0 /\ same_type m m0;
|}.
Next Obligation. by intros b b0 (m & m0 & -> & -> & _). Qed.
Next Obligation. done. Qed.
Next Obligation. done. Qed.
Next Obligation.
  intros m b [c] s' m' r. cbn. unfold proto_Write, write_raw. intros HW.
  destruct b; simplify_eq; try done. destruct (proto_Marshal _); cbn in HW; [by simplify_eq|].
  destruct (GoIO.Write _ _). by simplify_eq.
Qed.
Next Obligation.
  intros m b b0 [c] [c'] m' [c2] Hout HW (p & p0 & -> & -> & Hty) Hin. cbn -[proto_Write proto_ReadBody] in *.
  destruct (proto_Write m (VProto p) c) as [c1 [m1 r1]] eqn:HP. injection HW as -> -> ->.
  pose proof (proto_body_round_trip m p p0 c c' m' (c_in c2) Hout HP Hty Hin) as Hb.
  unfold proto_ReadBody, ReadAll in *. cbn in *. rewrite Hb. by eexists.
Qed.

#[export] Program Instance text_single_body : SingleBody M V textCodec := {|
  fills := fun b b0 => (exists d d0, b = VStringPtr d /\ b0 = VStringPtr d0) \/
                       (exists d d0, b = VBytesPtr d /\ b0 = VBytesPtr d0);
|}.
Next Obligation. by intros b b0 [(d & d0 & -> & ->)|(d & d0 & -> & ->)]. Qed.
Next Obligation. done. Qed.
Next Obligation. done. Qed.
Next Obligation.
  intros m b [c] s' m' r. cbn. unfold text_Write, write_raw, text_data.
  destruct b; cbn; repeat case_match; congruence.
Qed.
Next Obligation.
  intros m b b0 [c] [c'] m' [c2] Hout HW Hf Hin. cbn -[text_Write text_ReadBody] in *.
  destruct (text_Write m b c) as [c1 r1] eqn:HP. injection HW as -> ->. revert HP.
  unfold text_Write, write_raw, GoIO.Write, text_ReadBody, ReadAll.
  destruct Hf as [(d & d0 & -> & ->)|(d & d0 & -> & ->)]; cbn; destruct (c_broken c); intros HP;
    simplify_eq/=; rewrite Hout in Hin; cbn in Hin; rewrite Hin; by eexists.
Qed.
End instances.

(** ** Both sides choose the same codec *)

(** C16: the client and the server, with the codecs they have by default and none
    configured, agree on the codec of a request. Whatever the client does for a node,
    with or without the legacy protocol, the server picks the same codec from the
    headers it receives (the content type the client left, a service, method or
    endpoint, no legacy target), except for one content type in legacy mode, where
    they differ: raw bytes (application/octet-stream), which the client sends as
    proto-rpc and the server reads as bytes. *)
Theorem codec_agreement h node_md h' k h2 :
  default "" (h !! HContentType) <> "" ->
  client_codec ∅ h node_md = (h', Some k) ->
  default "" (h2 !! HContentType) = default "" (h' !! HContentType) ->
  getHeader HTarget h2 = "" ->
  ~ (getHeader HRequest h2 = "" /\ getHeader HMethod h2 = "" /\ getHeader HEndpoint h2 = "") ->
  (server_codec ∅ h2).2 =
    if String.eqb (default "" (node_md !! "protocol")) "" && String.eqb (default "" (h !! HMessage)) "" &&
       String.eqb (default "" (h !! HContentType)) "application/octet-stream"
    then Some KBytes else Some k.
Proof.
  intros Hct Hc Hct2 Htarget Hnew.
  assert ((server_codec ∅ h2).2 = newCodec ∅ (default "" (h' !! HContentType))) as ->.
  { unfold server_codec. rewrite Hct2.
    assert (default "" (h' !! HContentType) <> "") as Hct'.
    { revert Hc. unfold client_codec, client_setupProtocol.
      repeat (case_match; simplify_eq/=); intros; simplify_eq/=;
        rewrite ?lookup_insert_eq in *; done. }
    destruct (String.eqb_spec (default "" (h' !! HContentType)) ""); [done|].
    unfold server_setupProtocol. rewrite Htarget.
    destruct (String.eqb_spec (getHeader HRequest h2) ""), (String.eqb_spec (getHeader HMethod h2) ""),
      (String.eqb_spec (getHeader HEndpoint h2) ""); cbn [andb negb String.eqb];
      try (exfalso; by apply Hnew);
      repeat (case_match; simplify_eq/=); done. }
  revert Hc. unfold client_codec, client_setupProtocol.
  destruct (String.eqb (default "" (node_md !! "protocol")) ""); cbn [negb andb]; [|by intros [= <- <-]].
  destruct (String.eqb (default "" (h !! HMessage)) ""); cbn [negb andb]; [|by intros [= <- <-]].
  destruct (String.eqb_spec (default "" (h !! HContentType)) "application/json") as [He|Hj].
  { rewrite He, lookup_insert_eq. change (default "" (Some ?x)) with x.
    change (defaultCodecs !! "application/json-rpc") with (Some KJsonRpc). intros [= <- <-].
    by rewrite lookup_insert_eq. }
  destruct (String.eqb_spec (default "" (h !! HContentType)) "application/protobuf") as [He|Hp].
  { rewrite He, lookup_insert_eq. change (default "" (Some ?x)) with x.
    change (defaultCodecs !! "application/proto-rpc") with (Some KProtoRpc). intros [= <- <-].
    by rewrite lookup_insert_eq. }
  destruct (String.eqb_spec (default "" (h !! HContentType)) "application/octet-stream") as [He|Ho].
  { rewrite He. change (defaultCodecs !! "application/octet-stream") with (Some KProtoRpc).
    intros [= <- <-]. by rewrite He. }
  destruct (defaultCodecs !! default "" (h !! HContentType)) as [k0|] eqn:Hd; [|by intros [= <- <-]].
  intros [= <- <-]. revert Hd. unfold defaultCodecs.
  rewrite !lookup_insert_Some, lookup_singleton_Some.
  intros [[? ?]|[_ [[<- <-]|[_ [[? ?]|[_ [[<- <-]|[_ [? ?]]]]]]]]]; congruence || reflexivity.
Qed.

(** ** Concrete runs *)
#[local] Existing Instances text_marshalling text_marshalling_ok.

Definition client0 : Client.rpcCodec protobufCodec :=
  Client.newRPCCodec (M := string) (V := unit) (Some {[HContentType := "application/protobuf"]}) "".

Definition hello : Message := mkMessage None "3" "greeter" "Say.Hello" "" "" "" TypeRequest.

Definition hello_sent := Client.Write (M := string) (V := unit) None hello (VProto "hi") client0.

Definition hello_tm : tmsg := default (mkTmsg None "") hello_sent.2.1.

Definition server0 : Server.rpcCodec protobufCodec :=
  Server.newRPCCodec (M := string) (V := unit) hello_tm.

Lemma call_round_trip_witness :
  exists sc1 r sc2, Server.ReadHeader (M := string) (V := unit) (inr hello_tm) server0 = (sc1, Ret r) /\
    m_Id r = "3" /\ m_Endpoint r = "Say.Hello" /\
    Server.ReadBody (M := string) (V := unit) (VProto "") sc1 = (sc2, Ret (VProto "hi")).
Proof.
  destruct (call_round_trip (M := string) (V := unit) None hello (VProto "hi") (VProto "") client0
    hello_sent.1 hello_tm server0) as (sc1 & r & sc2 & Hr & Hid & _ & _ & _ & Hep & Hb).
  - vm_compute. reflexivity.
  - exists "hi", "". split_and!; reflexivity || exact I.
  - vm_compute. discriminate.
  - reflexivity.
  - exists sc1, r, sc2. split_and!; [exact Hr|rewrite Hid; vm_compute; reflexivity| |exact Hb].
    rewrite Hep. vm_compute. reflexivity.
Defined.

Definition answered := Server.Write (M := string) (V := unit) None hello (VProto "hello!") server0.

Lemma reply_round_trip_witness :
  exists c1 m c2, Client.ReadHeader (M := string) (V := unit) (inr (default (mkTmsg None "") answered.2.1))
      (Server.no_fields (mkTmsg None "")) TypeResponse client0 = (c1, (m, Ret ())) /\
    m_Id m = "3" /\ Client.ReadBody (M := string) (V := unit) (VProto "") c1 = (c2, Ret (VProto "hello!")).
Proof.
  destruct (reply_round_trip (M := string) (V := unit) None hello (VProto "hello!") (VProto "") server0
    answered.1 (default (mkTmsg None "") answered.2.1) client0 (Server.no_fields (mkTmsg None "")) TypeResponse)
    as (c1 & m & c2 & Hr & Hid & _ & _ & _ & _ & Hb);
    [vm_compute; reflexivity|exists "hello!", ""; split_and!; reflexivity || exact I|reflexivity..|].
  exists c1, m, c2. split_and!; [exact Hr|rewrite Hid; vm_compute; reflexivity|exact Hb].
Defined.

Definition json_headers : gmap string string := {[HContentType := "application/json"]}.

Lemma codec_agreement_witness :
  (server_codec ∅ (<[HRequest := "greeter"]> (<[HContentType := "application/json-rpc"]> json_headers))).2 =
    Some KJsonRpc.
Proof.
  rewrite (codec_agreement json_headers ∅ (<[HContentType := "application/json-rpc"]> json_headers) KJsonRpc);
    try (vm_compute; reflexivity).
  - vm_compute. discriminate.
  - intros [Hr _]. vm_compute in Hr. discriminate.
Defined.

Definition raw_headers : gmap string string := {[HContentType := "application/octet-stream"]}.

(** Raw bytes sent to a node that does not announce the protocol. *)
Example raw_bytes_disagree :
  (client_codec ∅ raw_headers ∅).2 = Some KProtoRpc /\
  (server_codec ∅ (<[HRequest := "greeter"]> (client_codec ∅ raw_headers ∅).1)).2 = Some KBytes.
Proof. vm_compute. by split. Qed.
