(* ===== verification/RpcStream.v ===== *)
(** * RPC streams: [client/rpc_stream.go], [server/rpc_stream.go]

    A stream sends and receives messages over a codec until it is closed. [Recv]
    gives its lock up while the codec reads, so it is three sections that other
    calls may come between; what the codec answers is an argument of each. The log
    records what reached the codec and the connection pool. *)
From S2P Require Import Prelude GoStrings GoIO Codec RpcCodec.

Definition lastStreamResponseError : string := "EOS".

(** What the operations return and what the stream keeps as its error. *)
Inductive stream_error :=
| Shutdown
| UnexpectedEOF
| StreamEOF
| ServerError (text : string)
| CodecError (e : rpc_error)
| CloseHeader
| TimedOut (detail : string).

#[export] Instance rpc_error_eq_dec : EqDecision rpc_error.
Proof. solve_decision. Defined.
#[export] Instance stream_error_eq_dec : EqDecision stream_error.
Proof. solve_decision. Defined.

(** [errors.Is(err, io.EOF)] *)
Definition is_EOF (e : rpc_error) : bool := match e with Raw EOF => true | _ => false end.

(** ** Client *)
Inductive event :=
| Sent (m : Message)
| SentEOS (m : Message)
| CodecClosed
| Released (err : option stream_error).

Record rpcStream := mkRpcStream {
  s_err : option stream_error;
  s_closed : bool;
  s_close : bool;
  s_sendEOS : bool;
  s_id : string;
  s_log : list event;
}.

Definition set_err (e : option stream_error) (r : rpcStream) : rpcStream :=
  mkRpcStream e (s_closed r) (s_close r) (s_sendEOS r) (s_id r) (s_log r).

Definition log (e : event) (r : rpcStream) : rpcStream :=
  mkRpcStream (s_err r) (s_closed r) (s_close r) (s_sendEOS r) (s_id r) (s_log r ++ [e]).

Definition fail (e : stream_error) (r : rpcStream) : rpcStream * option stream_error :=
  (set_err (Some e) r, Some e).

(** The request's service, method and endpoint. *)
Record Request := mkRequest { q_Service : string; q_Method : string; q_Endpoint : string }.

Definition message (q : Request) (id err : string) (t : MessageType) : Message :=
  mkMessage None id (q_Service q) (q_Method q) (q_Endpoint q) err "" t.

(** [write]: how the codec's [Write] ends. *)
Definition Send (q : Request) (write : option rpc_error) (r : rpcStream) : rpcStream * option stream_error :=
  if s_closed r then fail Shutdown r
  else
    match write with
    | Some e => fail (CodecError e) r
    | None => (log (Sent (message q (s_id r) "" TypeRequest)) r, None)
    end.

(** Up to the codec's [ReadHeader]: the result if the call ends here. *)
Definition recv_begin (r : rpcStream) : rpcStream * option stream_error :=
  if s_closed r then fail Shutdown r else (r, None).

Inductive after_read := Done (e : stream_error) | Discard | ReadInto.

(** From the header to the body: the error of the response, if any, is kept. *)
Definition recv_header (hdr : rpc_error + Message) (r : rpcStream) : rpcStream * after_read :=
  match hdr with
  | inl e =>
      let e := if is_EOF e && negb (s_closed r) then UnexpectedEOF else CodecError e in
      (set_err (Some e) r, Done e)
  | inr resp =>
      if negb (String.eqb (m_Error resp) "") then
        let e := if String.eqb (m_Error resp) lastStreamResponseError then StreamEOF
                 else ServerError (m_Error resp) in
        (set_err (Some e) r, Discard)
      else (r, ReadInto)
  end.

(** After the body: the stream's error is what [Recv] returns. *)
Definition recv_body (body : option rpc_error) (r : rpcStream) : rpcStream * option stream_error :=
  let r := match body with Some e => set_err (Some (CodecError e)) r | None => r end in
  (r, s_err r).

(** The whole call, when nothing comes between. *)
Definition Recv (hdr : rpc_error + Message) (body : option rpc_error) (r : rpcStream) :
    rpcStream * option stream_error :=
  match recv_begin r with
  | (r, Some e) => (r, Some e)
  | (r, None) =>
      match recv_header hdr r with
      | (r, Done e) => (r, Some e)
      | (r, _) => recv_body body r
      end
  end.

(** Closing marks the stream under the lock, then sends the end of the stream,
    closes the codec and releases the connection, with the stream's error. *)
Definition close_begin (r : rpcStream) : rpcStream * bool :=
  if s_closed r then (r, false)
  else (mkRpcStream (s_err r) true (s_close r) (s_sendEOS r) (s_id r) (s_log r), true).

Definition close_send (q : Request) (r : rpcStream) : rpcStream :=
  if s_sendEOS r then log (SentEOS (message q (s_id r) lastStreamResponseError TypeError)) r else r.

Definition close_codec (r : rpcStream) : rpcStream := log CodecClosed r.

Definition close_release (r : rpcStream) : rpcStream :=
  log (Released (match s_err r with
                 | Some e => Some e
                 | None => if s_close r then Some CloseHeader else None
                 end)) r.

Definition Close (q : Request) (r : rpcStream) : rpcStream :=
  match close_begin r with
  | (r, false) => r
  | (r, true) => close_release (close_codec (close_send q r))
  end.

(** ** What [Recv] returns *)

Lemma stream_Recv_cases hdr body r :
  (Recv hdr body r).2 =
  (if s_closed r then Some Shutdown
   else
     match hdr with
     | inl e => Some (if is_EOF e then UnexpectedEOF else CodecError e)
     | inr resp =>
         match body with
         | Some e => Some (CodecError e)
         | None =>
             if String.eqb (m_Error resp) "" then s_err r
             else Some (if String.eqb (m_Error resp) lastStreamResponseError then StreamEOF
                        else ServerError (m_Error resp))
         end
     end) /\
  s_err (Recv hdr body r).1 = (Recv hdr body r).2.
Proof.
  unfold Recv, recv_begin. destruct (s_closed r) eqn:Hc; [done|]. unfold recv_header, recv_body.
  rewrite Hc. destruct hdr as [e|resp]; [cbn; by rewrite andb_true_r|].
  destruct (String.eqb (m_Error resp) ""); cbn; by destruct body.
Qed.

(** [Recv] on a client stream, every branch. It fails with "connection is shut
    down" on a closed stream; a codec failure is returned (an end of file on an
    open stream as "unexpected EOF"); an error response is returned as a server
    error, or as end of file when it says EOS, unless discarding its body fails; a
    body that cannot be read is returned. It returns nil exactly when the header
    carries no error, the body is read and the stream had no error before: the
    error of an earlier call is returned again although this one received a
    message. *)
Theorem Recv_spec hdr body r :
  (Recv hdr body r).2 =
  (if s_closed r then Some Shutdown
   else
     match hdr with
     | inl e => Some (if is_EOF e then UnexpectedEOF else CodecError e)
     | inr resp =>
         match body with
         | Some e => Some (CodecError e)
         | None =>
             if String.eqb (m_Error resp) "" then s_err r
             else Some (if String.eqb (m_Error resp) lastStreamResponseError then StreamEOF
                        else ServerError (m_Error resp))
         end
     end) /\
  s_err (Recv hdr body r).1 = (Recv hdr body r).2.
Proof. apply stream_Recv_cases. Qed.

(** Over the client's RPC codec no error of [ReadHeader] is an end of file: it is
    wrapped. *)
Lemma client_header_errors {M V S} `{CodecOps M V S} recv msg t c c' m e :
  Client.ReadHeader recv msg t c = (c', (m, Fail e)) -> is_EOF e = false.
Proof.
  unfold Client.ReadHeader. destruct recv as [text|tm]; [by intros [= _ _ <-]|].
  destruct (ReadHeader _ t _) as [s [m' [[]| |]]]; by intros [= _ _ <-].
Qed.

(** A connection lost under a client stream is never reported as an unexpected
    end of file. Over the RPC codec, for whatever the transport and the wrapped
    codec answer, [Recv] does not return "unexpected EOF": the codec turns every
    failure into an internal server error before the stream looks at it. *)
Theorem lost_connection_is_internal {M V S} `{CodecOps M V S} recv msg t c c' m body r e :
  Client.ReadHeader recv msg t c = (c', (m, Fail e)) ->
  s_closed r = false ->
  (Recv (inl e) body r).2 = Some (CodecError e) /\ exists id detail, e = Internal id detail.
Proof.
  intros Hr Hc. pose proof (client_header_errors _ _ _ _ _ _ _ Hr) as He. split.
  - rewrite (proj1 (stream_Recv_cases (inl e) body r)), Hc, He. done.
  - revert Hr. unfold Client.ReadHeader. destruct recv as [text|tm].
    + intros [= _ _ <-]. by eexists _, _.
    + destruct (ReadHeader _ t _) as [s [m' [[]| |]]]; intros [= _ _ <-]; by eexists _, _.
Qed.

(** ** Concurrent use

    Calls in progress, by the section they wait to run. *)
Inductive pc := PHeader | PBody | PCloseSend | PCloseCodec | PCloseRelease.

#[export] Instance pc_eq_dec : EqDecision pc.
Proof. solve_decision. Defined.

Definition is_closer (p : pc) : bool := match p with PHeader | PBody => false | _ => true end.

Section concurrent.
Context (q : Request).

Inductive step : rpcStream * list pc -> rpcStream * list pc -> Prop :=
| step_send w r ps : step (r, ps) ((Send q w r).1, ps)
| step_recv r ps r' e : recv_begin r = (r', e) ->
    step (r, ps) (r', match e with None => PHeader :: ps | Some _ => ps end)
| step_header hdr r r' a l1 l2 : recv_header hdr r = (r', a) ->
    step (r, l1 ++ PHeader :: l2)
         (r', l1 ++ match a with Done _ => l2 | _ => PBody :: l2 end)
| step_body body r l1 l2 : step (r, l1 ++ PBody :: l2) ((recv_body body r).1, l1 ++ l2)
| step_close r ps r' started : close_begin r = (r', started) ->
    step (r, ps) (r', if started : bool then PCloseSend :: ps else ps)
| step_close_send r l1 l2 :
    step (r, l1 ++ PCloseSend :: l2) (close_send q r, l1 ++ PCloseCodec :: l2)
| step_close_codec r l1 l2 :
    step (r, l1 ++ PCloseCodec :: l2) (close_codec r, l1 ++ PCloseRelease :: l2)
| step_close_release r l1 l2 :
    step (r, l1 ++ PCloseRelease :: l2) (close_release r, l1 ++ l2).

Definition is_sent (e : event) : Prop := match e with Sent _ => True | _ => False end.

Definition eos (r : rpcStream) : list event :=
  if s_sendEOS r then [SentEOS (message q (s_id r) lastStreamResponseError TypeError)] else [].

(** How far closing is: the pending section and what it has logged. *)
Inductive closing (r : rpcStream) : list pc -> list event -> Prop :=
| closing_open : s_closed r = false -> closing r [] []
| closing_send : s_closed r = true -> closing r [PCloseSend] []
| closing_codec : s_closed r = true -> closing r [PCloseCodec] (eos r)
| closing_release : s_closed r = true -> closing r [PCloseRelease] (eos r ++ [CodecClosed])
| closing_done e : s_closed r = true -> closing r [] (eos r ++ [CodecClosed; Released e]).

Definition closers (ps : list pc) : list pc := filter (fun p => is_closer p) ps.

Definition stream_inv (c : rpcStream * list pc) : Prop :=
  exists sents tail, s_log c.1 = sents ++ tail /\ Forall is_sent sents /\ closing c.1 (closers c.2) tail.

Lemma closers_app l1 l2 : closers (l1 ++ l2) = closers l1 ++ closers l2.
Proof. apply filter_app. Qed.

Lemma closers_cons p l : closers (p :: l) = (if is_closer p then [p] else []) ++ closers l.
Proof. unfold closers. rewrite filter_cons. by destruct p. Qed.

(** A step that keeps the log and the closed flag keeps the invariant. *)
Lemma closing_same r r' ps tail :
  s_closed r' = s_closed r -> s_sendEOS r' = s_sendEOS r -> s_id r' = s_id r ->
  closing r ps tail -> closing r' ps tail.
Proof.
  intros Hc He Hi. assert (eos r' = eos r) as Heos by (unfold eos; by rewrite He, Hi).
  intros H. destruct H; try rewrite <- Heos; constructor; congruence.
Qed.

Lemma closing_at r l1 p l2 tail :
  is_closer p = true -> closing r (closers (l1 ++ p :: l2)) tail ->
  closers l1 = [] /\ closers l2 = [] /\ closing r [p] tail.
Proof.
  intros Hp. rewrite closers_app, closers_cons, Hp. intros H.
  destruct (closers l1) as [|? [|? ?]], (closers l2); cbn in H; inversion H; by subst.
Qed.

Lemma inv_same r r' ps ps' :
  s_log r' = s_log r -> s_closed r' = s_closed r -> s_sendEOS r' = s_sendEOS r -> s_id r' = s_id r ->
  closers ps' = closers ps -> stream_inv (r, ps) -> stream_inv (r', ps').
Proof.
  intros Hl Hc He Hi Hps (sents & tail & Hlog & Hs & Hcl). exists sents, tail. cbn [fst snd] in *.
  split_and!; [congruence|done|]. rewrite Hps. by apply (closing_same r).
Qed.

Lemma step_inv c c' : step c c' -> stream_inv c -> stream_inv c'.
Proof.
  intros Hstep Hinv. pose proof Hinv as (sents & tail & Hlog & Hs & Hc).
  destruct Hstep as [w r ps|r ps r' e Hb|hdr r r' a l1 l2 Hh|body r l1 l2|r ps r' st Hb|r l1 l2|r l1 l2|r l1 l2];
    cbn [fst snd] in Hlog, Hc.
  - unfold Send. destruct (s_closed r) eqn:Hcl; [by apply (inv_same r _ ps)|].
    destruct w; [by apply (inv_same r _ ps)|].
    assert (tail = [] /\ closers ps = []) as [-> Hps] by (inversion Hc; first [congruence|by split]).
    exists (sents ++ [Sent (message q (s_id r) "" TypeRequest)]), []. cbn [fst snd s_log log].
    rewrite Hlog, Hps, !app_nil_r.
    split_and!; [done|apply Forall_app; by repeat constructor|by constructor].
  - unfold recv_begin, fail in Hb. destruct (s_closed r) eqn:Hcl; injection Hb as <- <-;
      by apply (inv_same r _ ps).
  - apply (inv_same r _ (l1 ++ PHeader :: l2)); [..|done].
    5:{ rewrite !closers_app. by destruct a. }
    all: unfold recv_header in Hh; destruct hdr as [e|resp]; [|destruct (String.eqb _ _)]; by injection Hh as <- _.
  - apply (inv_same r _ (l1 ++ PBody :: l2)); [by destruct body..| |done]. by rewrite !closers_app.
  - unfold close_begin in Hb. destruct (s_closed r) eqn:Hcl; injection Hb as <- <-; [by exists sents, tail|].
    assert (tail = [] /\ closers ps = []) as [-> Hps] by (inversion Hc; first [congruence|by split]).
    exists sents, []. split_and!; [done|done|]. cbn [snd fst]. rewrite closers_cons, Hps. by constructor.
  - apply closing_at in Hc as (Hl1 & Hl2 & Hc); [|done].
    assert (s_closed r = true /\ tail = []) as [Hcl ->] by (inversion Hc; by split).
    exists sents, (eos r). cbn [fst snd]. rewrite closers_app, closers_cons, Hl1, Hl2.
    unfold close_send, eos. destruct (s_sendEOS r) eqn:He; cbn [s_log log]; rewrite Hlog, ?app_nil_r;
      (split_and!; [done|done|]).
    + assert ([SentEOS (message q (s_id r) lastStreamResponseError TypeError)] =
        eos (log (SentEOS (message q (s_id r) lastStreamResponseError TypeError)) r)) as ->
        by (unfold eos; cbn; by rewrite He). by constructor.
    + assert ([] = eos r) as -> by (unfold eos; by rewrite He). by constructor.
  - apply closing_at in Hc as (Hl1 & Hl2 & Hc); [|done].
    assert (s_closed r = true /\ tail = eos r) as [Hcl ->] by (inversion Hc; by split).
    exists sents, (eos r ++ [CodecClosed]). cbn [fst snd]. rewrite closers_app, closers_cons, Hl1, Hl2.
    split_and!; [cbn; by rewrite Hlog, <- app_assoc|done|]. by apply (closing_release (close_codec r)).
  - apply closing_at in Hc as (Hl1 & Hl2 & Hc); [|done].
    assert (s_closed r = true /\ tail = eos r ++ [CodecClosed]) as [Hcl ->] by (inversion Hc; by split).
    eexists sents, (eos r ++ [CodecClosed; Released _]). cbn [fst snd]. rewrite closers_app, Hl1, Hl2.
    split_and!; [cbn; rewrite Hlog, <- !app_assoc; done|done|]. by apply (closing_done (close_release r)).
Qed.

Lemma step_keeps c c' : step c c' -> s_sendEOS c'.1 = s_sendEOS c.1 /\ s_id c'.1 = s_id c.1.
Proof.
  intros [w r ps|r ps r' e Hb|hdr r r' a l1 l2 Hh|body r l1 l2|r ps r' st Hb|r l1 l2|r l1 l2|r l1 l2];
    cbn [fst snd].
  - unfold Send. destruct (s_closed r); [done|]. by destruct w.
  - unfold recv_begin, fail in Hb. destruct (s_closed r); by injection Hb as <- _.
  - unfold recv_header in Hh. destruct hdr as [e|resp]; [|destruct (String.eqb _ _)]; by injection Hh as <- _.
  - by destruct body.
  - unfold close_begin in Hb. destruct (s_closed r); by injection Hb as <- _.
  - unfold close_send. destruct (s_sendEOS r) eqn:He; cbn; by rewrite ?He.
  - done.
  - done.
Qed.

Definition opened (close sendEOS : bool) (id : string) : rpcStream :=
  mkRpcStream None false close sendEOS id [].

(** C25: however calls to a client stream interleave, what reaches the codec and the
    pool is: messages sent, then at most once the end of the stream (when the
    stream is one that sends it), the closing of the codec, and the release of the
    connection, in this order; nothing is sent after the end, and no connection is
    released twice. *)
Theorem stream_log_order close sendEOS id c :
  rtc step (opened close sendEOS id, []) c ->
  exists sents tail e, s_log c.1 = sents ++ tail /\ Forall is_sent sents /\
    tail `prefix_of`
      ((if sendEOS then [SentEOS (message q id lastStreamResponseError TypeError)] else []) ++
       [CodecClosed; Released e]).
Proof.
  intros Hr.
  assert (stream_inv c /\ s_sendEOS c.1 = sendEOS /\ s_id c.1 = id) as ((sents & tail & Hlog & Hs & Hc) & <- & <-).
  { revert Hr. apply (rtc_ind_r (fun c => stream_inv c /\ s_sendEOS c.1 = sendEOS /\ s_id c.1 = id)).
    - split; [|done]. exists [], []. split_and!; [done|done|by constructor].
    - intros c1 c2 _ Hstep (Hi & He & Hid). destruct (step_keeps _ _ Hstep) as [-> ->].
      split; [by eapply step_inv|done]. }
  exists sents, tail.
  assert (forall e, eos c.1 ++ [CodecClosed; Released e] =
    (if s_sendEOS c.1 then [SentEOS (message q (s_id c.1) lastStreamResponseError TypeError)] else []) ++
    [CodecClosed; Released e]) as Heos by done.
  inversion Hc as [?|?|?|?|e ?]; subst.
  - exists None. split_and!; [done|done|apply prefix_nil].
  - exists None. split_and!; [done|done|apply prefix_nil].
  - exists None. split_and!; [done|done|]. rewrite <- Heos. by eexists.
  - exists None. split_and!; [done|done|]. rewrite <- Heos. exists [Released None]. by rewrite <- app_assoc.
  - exists e. by split_and!.
Qed.
End concurrent.

(** ** Server *)
Module Server.

Record rpcStream := mkRpcStream { v_err : option stream_error; v_id : string; v_closed : bool }.

Definition set_err (e : stream_error) (r : rpcStream) : rpcStream := mkRpcStream (Some e) (v_id r) (v_closed r).

(** A message that could not be written is recorded, and reported as sent. *)
Definition Send (write : option rpc_error) (r : rpcStream) : rpcStream * option stream_error :=
  match write with
  | Some e => (set_err (CodecError e) r, None)
  | None => (r, None)
  end.

Definition Recv (hdr : rpc_error + Message) (body : option rpc_error) (r : rpcStream) :
    rpcStream * option stream_error :=
  match hdr with
  | inl e => (set_err (CodecError e) r, Some (CodecError e))
  | inr req =>
      if negb (String.eqb (m_Error req) "") then
        if String.eqb (m_Error req) lastStreamResponseError then (set_err StreamEOF r, Some StreamEOF)
        else (r, Some (ServerError (m_Error req)))
      else
        let r := mkRpcStream (v_err r) (m_Id req) (v_closed r) in
        match body with
        | Some e => (set_err (CodecError e) r, Some (CodecError e))
        | None => (r, None)
        end
  end.

Definition Close (r : rpcStream) : rpcStream := mkRpcStream (v_err r) (v_id r) true.

(** The response a server stream sends carries the identifier of the last request. *)
Definition response (q : Request) (r : rpcStream) : Message :=
  message q (v_id r) "" TypeResponse.

(** A received message sets the identifier its answers carry. *)
Lemma Recv_id req body r :
  m_Error req = "" -> m_Id (response (mkRequest "" "" "") (Recv (inr req) body r).1) = m_Id req.
Proof. unfold Recv. intros ->. by destruct body. Qed.
End Server.

(** ** Closing, end to end *)
Section end_to_end.
Context {M V S : Type} `{SingleBody M V S}.

(** Closing a client stream ends the server's. The message [Close] sends,
    written through the client's codec, read by the server's, makes the server
    stream's [Recv] return end of file, whatever its state, for every codec that
    carries a single body. *)
Theorem close_reaches_server q id c c' tm sc body r :
  Client.Write None (message q id lastStreamResponseError TypeError) (@VNil M V) c = (c', (Some tm, Ret ())) ->
  RpcCodec.Server.preloaded sc = false ->
  exists sc' m, RpcCodec.Server.ReadHeader (inr tm) sc = (sc', Ret m) /\
    (Server.Recv (inr m) body r).2 = Some StreamEOF.
Proof.
  intros HW Hpre.
  assert (t_Header tm = Some (Client.setHeaders (message q id lastStreamResponseError TypeError)
    (Client.stream c) (default ∅ (Client.req c) ∪ ∅))) as Hh.
  { revert HW. unfold Client.Write, Client.send_result. intros HW. by simplify_eq. }
  destruct (server_reads_headers _ _ _ tm sc Hh Hpre) as (m & Hm & _ & _ & _ & He & _).
  exists (RpcCodec.Server.mkRpcCodec (fill_rbuf (t_Body tm) (RpcCodec.Server.codec sc)) tm false), m.
  split; [done|].
  unfold Server.Recv. rewrite He. done.
Qed.
End end_to_end.

(** ** Concrete runs *)
Definition say : Request := mkRequest "greeter" "Say.Stream" "".

Definition answer_ok : Message := message say "0" "" TypeResponse.

(** An error that was returned once is returned again with the next message. *)
Example stale_error :
  let r := (Recv (inr answer_ok) (Some (Raw (ErrMsg "bad body"))) (opened false true "0")).1 in
  (Recv (inr answer_ok) None r).2 = Some (CodecError (Raw (ErrMsg "bad body"))).
Proof. reflexivity. Qed.

Lemma stream_log_order_witness :
  exists sents tail e, [SentEOS (message say "0" "EOS" TypeError); CodecClosed; Released None] = sents ++ tail /\
    Forall is_sent sents /\
    tail `prefix_of` ([SentEOS (message say "0" "EOS" TypeError)] ++ [CodecClosed; Released e]).
Proof.
  apply (stream_log_order say false true "0"
    (close_release (close_codec (close_send say (close_begin (opened false true "0")).1)), [])).
  set (r1 := (close_begin (opened false true "0")).1).
  apply (rtc_l _ _ (r1, [PCloseSend])); [by apply (step_close say (opened false true "0") [] r1 true)|].
  apply (rtc_l _ _ (close_send say r1, [PCloseCodec])); [apply (step_close_send say r1 [] [])|].
  apply (rtc_l _ _ (close_codec (close_send say r1), [PCloseRelease]));
    [apply (step_close_codec say (close_send say r1) [] [])|].
  apply rtc_once. apply (step_close_release say (close_codec (close_send say r1)) [] []).
Defined.

#[local] Existing Instances text_marshalling text_marshalling_ok.

Lemma lost_connection_is_internal_witness :
  (Recv (inl (Internal "go.micro.client.transport" "EOF")) None (opened false true "0")).2 =
    Some (CodecError (Internal "go.micro.client.transport" "EOF")).
Proof.
  apply (lost_connection_is_internal (M := string) (V := unit) (inl "EOF") hello TypeResponse client0
    client0 hello None (opened false true "0") (Internal "go.micro.client.transport" "EOF")); reflexivity.
Defined.

Definition eos_written :=
  Client.Write (M := string) (V := unit) None (message say "0" lastStreamResponseError TypeError) VNil client0.

Lemma close_reaches_server_witness :
  exists sc' m,
    RpcCodec.Server.ReadHeader (M := string) (V := unit) (inr (default (mkTmsg None "") eos_written.2.1)) server0
      = (sc', Ret m) /\
    (Server.Recv (inr m) None (Server.mkRpcStream None "" false)).2 = Some StreamEOF.
Proof.
  apply (close_reaches_server (M := string) (V := unit) say "0" client0 eos_written.1); [|reflexivity].
  vm_compute. reflexivity.
Defined.
