(* ===== verification/NetUtil.v ===== *)
(** * Addresses: [util/net/net.go], [util/addr/addr.go]

    Formatting and splitting of addresses, listening on the first free port of a
    range, choosing the address to advertise. The functions of Go's [net] package
    are the class [Net]; the interfaces of the machine are an argument. *)
From S2P Require Import Prelude GoStrings GoStrconv.

(** What the code asks of an IP address. *)
Record IP := mkIP { ip_string : string; IsLoopback : bool; IsPrivate : bool }.

Class Net := {
  SplitHostPort : string -> string + string * string;
  ParseIP : string -> bool;
}.

(** [net.JoinHostPort] *)
Definition JoinHostPort (host port : string) : string :=
  if str_has ":" host then "[" +:+ host +:+ "]:" +:+ port else host +:+ ":" +:+ port.

(** [strings.Count] of a one-byte separator. *)
Definition count (c : ascii) (s : string) : nat := length (split_char c s) - 1.

(** ** [util/net/net.go] *)

(** A port is given as a number or as text. *)
Inductive port := PortText (p : string) | PortNum (n : Z).

Section net.
Context `{Net}.

Definition HostPort (addr : string) (p : port) : string :=
  let host := if 0 <? count ":" addr then "[" +:+ addr +:+ "]" else addr in
  match p with
  | PortText "" => host
  | PortText v => host +:+ ":" +:+ v
  | PortNum v => if (v =? 0)%Z && negb (ParseIP host) then host else host +:+ ":" +:+ fmt_Z v
  end.

(** [strconv.Atoi] *)
Definition Atoi (s : string) : option Z := match ParseInt s with inr z => Some z | inl _ => None end.

Section listen.
Context {L : Type} (fn : string -> string + L).

(** The loop over the ports; [n] are left. *)
Fixpoint try_ports (n : nat) (host addr : string) (port max : Z) : string + L :=
  match n with
  | 0 => inl ("unable to bind to " +:+ addr)
  | S n =>
      match fn (HostPort host (PortNum port)) with
      | inr ln => inr ln
      | inl err => if (port =? max)%Z then inl err else try_ports n host addr (port + 1) max
      end
  end.

Definition Listen (addr : string) : string + L :=
  if Nat.eqb (count ":" addr) 1 && Nat.eqb (count "-" addr) 0 then fn addr
  else
    match SplitHostPort addr with
    | inl err => inl err
    | inr (host, ports) =>
        match split_char "-" ports with
        | lo :: hi :: _ =>
            match Atoi lo, Atoi hi with
            | Some min, Some max => try_ports (Z.to_nat (max - min + 1)) host addr min max
            | _, _ => inl "unable to extract port range"
            end
        | _ => fn addr
        end
    end.

Lemma try_ports_spec host addr max n p :
  (Z.of_nat n = max - p + 1)%Z ->
  match try_ports n host addr p max with
  | inr ln => exists q, (p <= q <= max)%Z /\ fn (HostPort host (PortNum q)) = inr ln /\
      forall i, (p <= i < q)%Z -> exists e, fn (HostPort host (PortNum i)) = inl e
  | inl err => (forall i, (p <= i <= max)%Z -> exists e, fn (HostPort host (PortNum i)) = inl e) /\
      err = if (p <=? max)%Z then
              match fn (HostPort host (PortNum max)) with inl e => e | inr _ => "" end
            else "unable to bind to " +:+ addr
  end.
Proof.
  revert p. induction n as [|n IH]; intros p Hn; cbn [try_ports].
  - split; [intros; lia|]. destruct (Z.leb_spec p max); [lia|done].
  - destruct (fn (HostPort host (PortNum p))) as [err|ln] eqn:Hp.
    + destruct (Z.eqb_spec p max) as [->|Hne].
      * split; [intros i Hi; replace i with max by lia; by exists err|].
        by rewrite Z.leb_refl, Hp.
      * specialize (IH (p + 1)%Z ltac:(lia)). destruct (try_ports n host addr (p + 1) max) as [e|ln].
        -- destruct IH as [Hall He]. split.
           ++ intros i Hi. destruct (decide (i = p)) as [->|]; [by exists err|]. apply Hall. lia.
           ++ rewrite He. destruct (Z.leb_spec (p + 1) max), (Z.leb_spec p max); done || lia.
        -- destruct IH as (q & Hq & Hln & Hbefore). exists q. split_and!; [lia|lia|done|].
           intros i Hi. destruct (decide (i = p)) as [->|]; [by exists err|]. apply Hbefore. lia.
    + exists p. split_and!; [lia|lia|done|]. intros i Hi. lia.
Qed.

(** Listening on a port range takes the first free port. For an address whose
    ports are "min-max", [Listen] tries min, min+1, up to max: a listener is
    returned exactly when some port of the range can be bound, and it is that of
    the smallest such port; otherwise the error is that of the last port, or says
    that nothing could be bound when the range is empty. It always ends. *)
Theorem Listen_range addr host ports lo hi rest min max :
  SplitHostPort addr = inr (host, ports) -> split_char "-" ports = lo :: hi :: rest ->
  Atoi lo = Some min -> Atoi hi = Some max -> 0 < count "-" addr ->
  match Listen addr with
  | inr ln => exists q, (min <= q <= max)%Z /\ fn (HostPort host (PortNum q)) = inr ln /\
      forall i, (min <= i < q)%Z -> exists e, fn (HostPort host (PortNum i)) = inl e
  | inl err => (forall i, (min <= i <= max)%Z -> exists e, fn (HostPort host (PortNum i)) = inl e) /\
      err = if (min <=? max)%Z then
              match fn (HostPort host (PortNum max)) with inl e => e | inr _ => "" end
            else "unable to bind to " +:+ addr
  end.
Proof.
  intros Hsplit Hports Hlo Hhi Hdash. unfold Listen.
  destruct (Nat.eqb_spec (count "-" addr) 0) as [H0|_]; [lia|]. rewrite andb_false_r, Hsplit, Hports, Hlo, Hhi.
  destruct (decide (min <= max)%Z).
  - apply try_ports_spec. lia.
  - replace (Z.to_nat (max - min + 1)) with 0 by lia. cbn.
    split; [intros; lia|]. by destruct (Z.leb_spec min max); [lia|].
Qed.
End listen.
End net.

(** ** [util/addr/addr.go] *)
Inductive net_addr := IPAddr (ip : IP) | IPNet (ip : IP) | OtherAddr.

Definition ip_of (a : net_addr) : option IP :=
  match a with IPAddr ip | IPNet ip => Some ip | OtherAddr => None end.

(** An interface: whether it is a loopback device, and its addresses if it gives
    them. *)
Record iface := mkIface { if_loopback : bool; if_Addrs : option (list net_addr) }.

(** [publicIP] and [localIP] are the first of their kind so far. *)
Fixpoint find_ip (addresses : list net_addr) (publicIP localIP : option IP) : option IP :=
  match addresses with
  | [] => match publicIP with Some ip => Some ip | None => localIP end
  | a :: addresses =>
      match ip_of a with
      | None => find_ip addresses publicIP localIP
      | Some ip =>
          if IsLoopback ip then
            find_ip addresses publicIP (match localIP with Some _ => localIP | None => Some ip end)
          else if negb (IsPrivate ip) then
            find_ip addresses (match publicIP with Some _ => publicIP | None => Some ip end) localIP
          else Some ip
      end
  end.

Definition findIP (addresses : list net_addr) : option IP := find_ip addresses None None.

(** The addresses of other devices come before those of loopback devices. *)
Definition candidates (ifaces : list iface) : list net_addr :=
  let of_kind b := concat (omap (fun i => if Bool.eqb (if_loopback i) b then if_Addrs i else None) ifaces) in
  of_kind false ++ of_kind true.

Definition unspecified (addr : string) : bool :=
  String.eqb addr "" || String.eqb addr "0.0.0.0" || String.eqb addr "[::]" || String.eqb addr "::".

Definition Extract (interfaces : string + list iface) (addr : string) : string + string :=
  if negb (unspecified addr) then inr addr
  else
    match interfaces with
    | inl err => inl ("failed to get interfaces: " +:+ err)
    | inr ifaces =>
        match findIP (candidates ifaces) with
        | Some ip => inr (ip_string ip)
        | None => inl "no IP address found, and explicit IP not provided"
        end
    end.

Definition IPs (interfaces : string + list iface) : list string :=
  match interfaces with
  | inl _ => []
  | inr ifaces => map ip_string (omap ip_of (concat (omap if_Addrs ifaces)))
  end.

Definition IsLocal `{Net} (interfaces : string + list iface) (addr : string) : bool :=
  let addr := match SplitHostPort addr with inr (host, _) => host | inl _ => addr end in
  String.eqb addr "localhost" || existsb (String.eqb addr) (IPs interfaces).

(** The first address of a list with a property. *)
Definition first_ip (p : IP -> bool) (l : list net_addr) : option IP := List.find p (omap ip_of l).

Definition is_private (ip : IP) : bool := negb (IsLoopback ip) && IsPrivate ip.
Definition is_public (ip : IP) : bool := negb (IsLoopback ip) && negb (IsPrivate ip).

Definition or_else {A} (a b : option A) : option A := match a with Some _ => a | None => b end.

Lemma find_ip_spec l pub loc :
  find_ip l pub loc =
  or_else (first_ip is_private l) (or_else (or_else pub (first_ip is_public l)) (or_else loc (first_ip IsLoopback l))).
Proof.
  revert pub loc. induction l as [|a l IH]; intros pub loc; cbn; [by destruct pub, loc|].
  unfold first_ip in *. cbn. destruct (ip_of a) as [ip|]; cbn [omap list_omap List.find]; [|apply IH].
  unfold is_private at 1, is_public at 1. destruct (IsLoopback ip), (IsPrivate ip); cbn [negb andb];
    rewrite ?IH; destruct pub, loc; cbn; try done; by destruct (List.find is_private _).
Qed.

(** The address to advertise. [findIP] prefers the first private address, then
    the first public one, then the first loopback one, in the order of the list,
    and fails only when there is none; so an unspecified address is replaced by a
    loopback one only when the machine has nothing else. *)
Theorem findIP_spec l :
  findIP l = or_else (first_ip is_private l) (or_else (first_ip is_public l) (first_ip IsLoopback l)) /\
  (findIP l = None <-> omap ip_of l = []).
Proof.
  unfold findIP. rewrite find_ip_spec. cbn. split; [done|].
  unfold first_ip. split; [|by intros ->].
  destruct (omap ip_of l) as [|ip ips]; [done|]. cbn [List.find].
  unfold is_private at 1, is_public at 1. destruct (IsLoopback ip), (IsPrivate ip); cbn [negb andb];
    try done; repeat (destruct (List.find _ _); try done).
Qed.

(** ** Concrete runs *)
Definition last_colon (s : string) : string + string * string :=
  match split_char ":" s with
  | [host; p] => inr (host, p)
  | _ => inl ("address " +:+ s +:+ ": missing port in address")
  end.

Definition dotted (s : string) : bool := Nat.eqb (count "." s) 3.

(** A stand-in for [net] on IPv4 addresses. *)
#[local] Instance ex_Net : Net := {| SplitHostPort := last_colon; ParseIP := dotted |}.

Definition busy_8080 (addr : string) : string + string :=
  if String.eqb addr "127.0.0.1:8080" then inl "address already in use" else inr addr.

Lemma Listen_range_witness : Listen busy_8080 "127.0.0.1:8080-8090" = inr "127.0.0.1:8081".
Proof.
  pose proof (Listen_range busy_8080 "127.0.0.1:8080-8090" "127.0.0.1" "8080-8090" "8080" "8090" [] 8080 8090
    eq_refl eq_refl eq_refl eq_refl ltac:(vm_compute; lia)) as H.
  vm_compute in H |- *. reflexivity.
Defined.

(** An IPv6 address needs brackets before a port is appended; the address of all
    interfaces is replaced by the private address of the machine. *)
Example HostPort_ipv6 : HostPort "::1" (PortNum 80) = "[::1]:80".
Proof. reflexivity. Qed.

Example Extract_private :
  Extract (inr [mkIface true (Some [IPNet (mkIP "127.0.0.1" true false)]);
                mkIface false (Some [IPNet (mkIP "8.8.4.4" false false); IPNet (mkIP "10.0.0.7" false true)])]) "[::]"
  = inr "10.0.0.7".
Proof. reflexivity. Qed.
