(* ===== verification/RpcRouter.v ===== *)
(** * The RPC router: [server/rpc_router.go], [extractor.go], [rpc_handler.go], [subscriber.go]

    Handlers and subscribers are Go values inspected with [reflect]: here, the
    description of a method by its parameter and result types. Which types
    implement [Stream] and which is [error] are parameters, and so is what a
    handler does when it is called. Names are ASCII. *)
From S2P Require Import Prelude GoStrings GoIO Codec RpcCodec RpcStream Registry.

(** ** Types and methods *)

(** Unnamed pointers and slices nest; any other type is a reference to its
    description, so that types may be recursive. Named pointer types are left out. *)
Inductive rtype :=
| TPtr (elem : rtype)
| TSlice (elem : rtype)
| TRef (id : nat).

Inductive kind := KStruct | KInterface | KFunc | KSlice (elem : rtype) | KOtherKind.

#[export] Instance rtype_eq_dec : EqDecision rtype.
Proof. solve_decision. Defined.

Record field := mkField { f_Name : string; f_PkgPath : string; f_Type : rtype; f_json : string }.

Record tdesc := mkTdesc { d_kind : kind; d_Name : string; d_PkgPath : string; d_fields : list field }.

(** [In] of a method includes its receiver. *)
Record rmethod := mkMethod {
  me_Name : string;
  me_PkgPath : string;
  me_In : list rtype;
  me_Out : list rtype;
}.

Definition is_upper (a : ascii) : bool := let n := nat_of_ascii a in (65 <=? n) && (n <=? 90).

Definition isExported (name : string) : bool :=
  match name with String a _ => is_upper a | "" => false end.

Record methodType := mkMethodType {
  mt_method : rmethod;
  mt_ArgType : rtype;
  mt_ReplyType : option rtype;
  mt_ContextType : rtype;
  mt_stream : bool;
}.

Section types.
Context (types : nat -> tdesc) (implements_stream : rtype -> bool) (typeOfError : rtype).

Definition type_Name (t : rtype) : string :=
  match t with TRef i => d_Name (types i) | _ => "" end.

Definition type_PkgPath (t : rtype) : string :=
  match t with TRef i => d_PkgPath (types i) | _ => "" end.

Fixpoint isExportedOrBuiltinType (t : rtype) : bool :=
  match t with
  | TPtr t => isExportedOrBuiltinType t
  | _ => isExported (type_Name t) || String.eqb (type_PkgPath t) ""
  end.

Definition is_ptr (t : rtype) : bool := match t with TPtr _ => true | _ => false end.

Definition returns_error (out : list rtype) : bool :=
  match out with [t] => bool_decide (t = typeOfError) | _ => false end.

Definition prepareMethod (m : rmethod) : option methodType :=
  if negb (String.eqb (me_PkgPath m) "") then None
  else
    match me_In m with
    | [_; ctx; arg] =>
        if implements_stream arg && returns_error (me_Out m)
        then Some (mkMethodType m arg None ctx true) else None
    | [_; ctx; arg; reply] =>
        if isExportedOrBuiltinType arg && is_ptr reply && isExportedOrBuiltinType reply &&
           returns_error (me_Out m)
        then Some (mkMethodType m arg (Some reply) ctx false) else None
    | _ => None
    end.

(** ** Endpoint descriptions: [extractor.go] *)
Definition elem_name (t : rtype) : string := match t with TPtr t => type_Name t | _ => type_Name t end.

(** The name a field is listed under; [None] leaves it out. *)
Definition field_name (f : field) (name : string) : option string :=
  let named := if String.eqb name "" then f_Name f else name in
  let named := if String.eqb named "" then None else Some named in
  if String.eqb (f_json f) "" then named
  else
    let part := default "" (head (split_char "," (f_json f))) in
    if String.eqb part "-" || String.eqb part "omitempty" then None
    else if String.eqb part "" then (if String.eqb (f_Name f) "" then None else Some (f_Name f))
    else Some part.

(** [extractValue] stops at depth three; [rest] is the depth that remains. *)
Fixpoint extractValue (rest : nat) (v : rtype) : option Value :=
  match rest with
  | 0 => None
  | S rest =>
      let v := match v with TPtr v => v | _ => v end in
      let name := type_Name v in
      match v with
      | TRef i =>
          let fields :=
            match d_kind (types i) with
            | KStruct =>
                omap (fun f =>
                  if negb (String.eqb (f_PkgPath f) "") then None
                  else
                    val ← extractValue rest (f_Type f);
                    let 'mkValue n ty vs := val in
                    n ← field_name f n; Some (mkValue n ty vs)) (d_fields (types i))
            | _ => []
            end in
          let ty := match d_kind (types i) with KSlice e => "[]" +:+ elem_name e | _ => name end in
          Some (mkValue name ty fields)
      | TSlice e => Some (mkValue name ("[]" +:+ elem_name e) [])
      | TPtr _ => Some (mkValue name name [])
      end
  end.

Definition depth : nat := 3.

Definition is_stream_kind (t : rtype) : bool :=
  match t with
  | TRef i => match d_kind (types i) with KFunc | KInterface => true | _ => false end
  | _ => false
  end.

Definition endpoint_of (name : string) (req rsp : rtype) : Registry.Endpoint :=
  Registry.mkEndpoint (extractValue depth req) (extractValue depth rsp)
    (if is_stream_kind rsp then {["stream" := "true"]} else ∅) name.

Definition extractEndpoint (m : rmethod) : option Registry.Endpoint :=
  if negb (String.eqb (me_PkgPath m) "") then None
  else
    match me_In m with
    | [_; req; rsp] => Some (endpoint_of (me_Name m) req rsp)
    | [_; _; req; rsp] => Some (endpoint_of (me_Name m) req rsp)
    | _ => None
    end.

Definition extractSubValue (ins : list rtype) : option Value :=
  match ins with
  | [t] | [_; t] | [_; _; t] => extractValue depth t
  | _ => None
  end.

(** ** Handlers: [rpc_handler.go] *)
Record handler := mkHandler {
  h_Name : string;
  h_methods : list rmethod;
  h_rcvr : nat;
  h_Endpoints : list Registry.Endpoint;
  h_Internal : bool;
}.

(** The options' metadata of an endpoint is added to it. *)
Definition with_metadata (md : gmap string (gmap string string)) (e : Registry.Endpoint) : Registry.Endpoint :=
  Registry.mkEndpoint (e_Request e) (e_Response e) (default ∅ (md !! e_Name e) ∪ e_Metadata e) (e_Name e).

Definition NewRpcHandler (name : string) (methods : list rmethod) (rcvr : nat)
    (md : gmap string (gmap string string)) (internal : bool) : handler :=
  mkHandler name methods rcvr
    (omap (fun m =>
       e ← extractEndpoint m;
       Some (with_metadata md (Registry.mkEndpoint (e_Request e) (e_Response e) (e_Metadata e)
               (name +:+ "." +:+ e_Name e)))) methods)
    internal.

(** ** The router *)
Record service := mkService { sv_name : string; sv_rcvr : nat; sv_method : gmap string methodType }.

(** *** Subscribers: [subscriber.go] *)
Inductive sub_shape :=
| SubFunc (ins outs : list rtype)
| SubMethods (name : string) (methods : list rmethod).

Record sub_handler := mkSubHandler { sh_reqType : option rtype; sh_ctxType : option rtype }.

Record subscriber := mkSubscriber {
  sb_topic : string;
  sb_shape : sub_shape;
  sb_rcvr : nat;
  sb_handlers : list sub_handler;
  sb_endpoints : list Registry.Endpoint;
  sb_queue : string;
  sb_Internal : bool;
  sb_AutoAck : bool;
}.

Definition handler_of (ins : list rtype) : sub_handler :=
  match ins with
  | [t] => mkSubHandler (Some t) None
  | [c; t] => mkSubHandler (Some t) (Some c)
  | _ => mkSubHandler None None
  end.

Definition sub_endpoint (topic name : string) (ins : list rtype) : Registry.Endpoint :=
  Registry.mkEndpoint (extractSubValue ins) None
    (<["topic" := topic]> {["subscriber" := "true"]}) name.

(** A method's receiver is its first parameter. *)
Definition newSubscriber (topic : string) (shape : sub_shape) (rcvr : nat) (queue : string)
    (internal autoack : bool) : subscriber :=
  let '(hs, eps) :=
    match shape with
    | SubFunc ins _ => ([handler_of ins], [sub_endpoint topic "Func" ins])
    | SubMethods name ms =>
        (map (fun m => handler_of (tail (me_In m))) ms,
         map (fun m => sub_endpoint topic (name +:+ "." +:+ me_Name m) (me_In m)) ms)
    end in
  mkSubscriber topic shape rcvr hs eps queue internal autoack.

(** What is wrong with the signature of a subscriber, by the case of the message. *)
Inductive sub_error := WrongArgs | ArgNotExported | WrongOuts | NotError | NoHandlers.

Definition validate_signature (ins outs : list rtype) : option sub_error :=
  match ins with
  | [_; arg] =>
      if negb (isExportedOrBuiltinType arg) then Some ArgNotExported
      else match outs with
           | [t] => if bool_decide (t = typeOfError) then None else Some NotError
           | _ => Some WrongOuts
           end
  | _ => Some WrongArgs
  end.

Fixpoint validate_methods (ms : list rmethod) : option sub_error :=
  match ms with
  | [] => None
  | m :: ms =>
      match validate_signature (tail (me_In m)) (me_Out m) with
      | Some e => Some e
      | None => validate_methods ms
      end
  end.

Definition validateSubscriber (s : subscriber) : option sub_error :=
  match sb_shape s with
  | SubFunc ins outs => validate_signature ins outs
  | SubMethods _ ms => validate_methods ms
  end.

(** *** State *)
Record router := mkRouter {
  serviceMap : gmap string service;
  subscribers : gmap string (list subscriber);
}.

Definition newRpcRouter : router := mkRouter ∅ ∅.

Definition install (ms : list rmethod) : gmap string methodType :=
  foldl (fun acc m => match prepareMethod m with Some mt => <[me_Name m := mt]> acc | None => acc end) ∅ ms.

Definition Handle (h : handler) (r : router) : router * option string :=
  if String.eqb (h_Name h) "" then (r, Some "rpc.Handle: handler has no name")
  else if negb (isExported (h_Name h)) then (r, Some ("rpc.Handle: type " +:+ h_Name h +:+ " is not exported"))
  else if bool_decide (is_Some (serviceMap r !! h_Name h)) then
    (r, Some ("rpc.Handle: service already defined: " +:+ h_Name h))
  else
    let methods := install (h_methods h) in
    if bool_decide (methods = ∅) then
      (r, Some ("rpc Register: type " +:+ h_Name h +:+ " has no exported methods of suitable type"))
    else
      (mkRouter (<[h_Name h := mkService (h_Name h) (h_rcvr h) methods]> (serviceMap r)) (subscribers r), None).

Definition Subscribe (s : subscriber) (r : router) : router * option sub_error :=
  match sb_handlers s with
  | [] => (r, Some NoHandlers)
  | _ =>
      match validateSubscriber s with
      | Some e => (r, Some e)
      | None =>
          (mkRouter (serviceMap r)
             (<[sb_topic s := default [] (subscribers r !! sb_topic s) ++ [s]]> (subscribers r)), None)
      end
  end.

(** *** Finding the method of a request *)
Inductive router_error := RawError (e : rpc_error) | RouterError (text : string).

Inductive found :=
| Missing (keepReading : bool) (err : router_error)
| Found (svc : service) (mt : methodType) (msg : Message).

Definition rpc_error_text (e : rpc_error) : string :=
  match e with Raw e => error_text e | Internal _ detail => detail end.

Definition header_error (e : rpc_error) : router_error :=
  match e with
  | Raw EOF | Raw ErrUnexpectedEOF => RawError e
  | _ => RouterError ("rpc: router cannot decode request: " +:+ rpc_error_text e)
  end.

Definition readHeader (hdr : rpc_error + Message) (r : router) : found :=
  match hdr with
  | inl e => Missing false (header_error e)
  | inr msg =>
      match split_char "." (m_Endpoint msg) with
      | [svc; method] =>
          match serviceMap r !! svc with
          | None => Missing true (RouterError ("rpc: can't find service " +:+ svc))
          | Some s =>
              match sv_method s !! method with
              | None => Missing true (RouterError ("rpc: can't find method " +:+ method))
              | Some mt => Found s mt msg
              end
          end
      | _ => Missing true (RouterError ("rpc: service/endpoint request ill-formed: " +:+ m_Endpoint msg))
      end
  end.

(** *** Serving a request

    What the codec does on reading the header and the body is an argument: it may
    panic, as reading parameters that are missing does in the json-rpc codec, and so
    may the method. The log lists the reads (into a fresh value of a type, or
    discarded, whose errors are ignored) and the responses written. *)
Inductive action :=
| DiscardBody
| ReadBodyInto (t : rtype)
| Respond (id : string).

Definition deref (t : rtype) : rtype := match t with TPtr t => t | _ => t end.

Definition readRequest (codec : string) (hdr : outcome rpc_error Message) (body : outcome rpc_error unit) (r : router) :
    list action * outcome router_error (service * methodType * Message) :=
  let discard {A} (then_ : outcome router_error A) := match body with Panic => Panic | _ => then_ end in
  let go (h : rpc_error + Message) :=
    match readHeader h r with
    | Missing false e => ([], Fail e)
    | Missing true e => ([DiscardBody], discard (Fail e))
    | Found s mt msg =>
        if mt_stream mt then
          if String.eqb codec "grpc" then ([], Ret (s, mt, msg)) else ([DiscardBody], discard (Ret (s, mt, msg)))
        else
          ([ReadBodyInto (deref (mt_ArgType mt))],
           match body with
           | Ret _ => Ret (s, mt, msg)
           | Fail e => Fail (RawError e)
           | Panic => Panic
           end)
    end in
  match hdr with
  | Ret msg => go (inr msg)
  | Fail e => go (inl e)
  | Panic => ([], Panic)
  end.

(** What the method does: for a call, the error it returns; for a stream, that and
    the error its stream is left with. The response of a call may fail to be
    written. *)
Record behaviour := mkBehaviour {
  b_run : service -> methodType -> Message -> outcome router_error unit;
  b_stream_err : option stream_error;
  b_write : outcome rpc_error unit;
}.

Definition eos_error : router_error := RouterError lastStreamResponseError.

Definition call (b : behaviour) (s : service) (mt : methodType) (msg : Message) :
    list action * outcome router_error unit :=
  match b_run b s mt msg with
  | Fail e => ([], Fail e)
  | Panic => ([], Panic)
  | Ret _ =>
      if mt_stream mt then
        ([], match b_stream_err b with
             | Some StreamEOF | Some UnexpectedEOF | Some (CodecError (Raw EOF))
             | Some (CodecError (Raw ErrUnexpectedEOF)) => Ret ()
             | _ => Fail eos_error
             end)
      else ([Respond (m_Id msg)], match b_write b with Ret _ => Ret () | Fail e => Fail (RawError e) | Panic => Panic end)
  end.

Definition ServeRequest (codec : string) (hdr : outcome rpc_error Message) (body : outcome rpc_error unit)
    (b : behaviour) (r : router) : list action * outcome router_error unit :=
  match readRequest codec hdr body r with
  | (log, Fail e) => (log, Fail e)
  | (log, Panic) => (log, Panic)
  | (log, Ret (s, mt, msg)) => let '(log', e) := call b s mt msg in (log ++ log', e)
  end.

(** *** Delivering an event

    Each handler of each subscriber gets the body decoded afresh. [decode] is how
    that ends for a handler, [run] what the handler does. *)
Record delivery := mkDelivery {
  dl_decode : subscriber -> sub_handler -> option error;
  dl_run : subscriber -> sub_handler -> outcome error unit;
}.

Inductive processed :=
| Processed (errs : list string)
| DecodeFailed (e : error)
| Recovered.

Definition message_handlers (topic : string) (r : router) : list (subscriber * sub_handler) :=
  concat (map (fun s => map (pair s) (sb_handlers s)) (default [] (subscribers r !! topic))).

(** The handlers called, in order, and how it ends. *)
Fixpoint deliver (d : delivery) (hs : list (subscriber * sub_handler)) (errs : list string) :
    list (subscriber * sub_handler) * processed :=
  match hs with
  | [] => ([], Processed errs)
  | (s, h) :: hs =>
      match dl_decode d s h with
      | Some e => ([], DecodeFailed e)
      | None =>
          match dl_run d s h with
          | Panic => ([(s, h)], Recovered)
          | Ret _ => let '(calls, r) := deliver d hs errs in ((s, h) :: calls, r)
          | Fail e => let '(calls, r) := deliver d hs (errs ++ [error_text e]) in ((s, h) :: calls, r)
          end
      end
  end.

Definition newline : string := String (ascii_of_nat 10) "".

(** [None] is nil; a panic of a handler becomes an error. *)
Definition ProcessMessage (d : delivery) (topic : string) (r : router) :
    list (subscriber * sub_handler) * option rpc_error :=
  let '(calls, res) := deliver d (message_handlers topic r) [] in
  (calls,
   match res with
   | Processed [] => None
   | Processed errs => Some (Internal "go.micro.server" ("subscriber error: " +:+ join newline errs))
   | DecodeFailed e => Some (Raw e)
   | Recovered => Some (Internal "go.micro.server" "panic recovered")
   end).

(** ** Installing methods *)
Lemma install_snoc ms m :
  install (ms ++ [m]) =
  match prepareMethod m with Some mt => <[me_Name m := mt]> (install ms) | None => install ms end.
Proof. unfold install. by rewrite foldl_snoc. Qed.

Lemma prepareMethod_method m mt : prepareMethod m = Some mt -> mt_method mt = m.
Proof. unfold prepareMethod. repeat case_match; by intros [= <-]. Qed.

(** The methods installed are the suitable ones, under their names. *)
Lemma install_lookup ms n mt :
  NoDup (map me_Name ms) ->
  install ms !! n = Some mt <-> exists m, m ∈ ms /\ me_Name m = n /\ prepareMethod m = Some mt.
Proof.
  induction ms as [|m ms IH] using rev_ind; intros Hnd.
  { split; [done|]. by intros (m & Hm%not_elem_of_nil & _). }
  rewrite map_app in Hnd. apply NoDup_app in Hnd as (Hnd & Hm & _). specialize (IH Hnd).
  assert (forall m', m' ∈ ms -> me_Name m' <> me_Name m) as Hne.
  { intros m' Hin Heq. apply (Hm (me_Name m')); [|rewrite Heq; left].
    apply list_elem_of_fmap. by exists m'. }
  rewrite install_snoc. setoid_rewrite elem_of_app. setoid_rewrite list_elem_of_singleton.
  destruct (prepareMethod m) as [mt'|] eqn:Hp.
  - rewrite lookup_insert_Some, IH. split.
    + intros [[<- <-]|[Hn (m' & Hin & Hm' & Hp')]]; [by exists m; eauto|exists m'; eauto].
    + intros (m' & [Hin| ->] & Hn & Hp').
      * right. split; [|by exists m']. rewrite <- Hn. by apply not_eq_sym, Hne.
      * left. split; congruence.
  - rewrite IH. split.
    + intros (m' & Hin & Hm'). exists m'. eauto.
    + intros (m' & [Hin| ->] & Hn & Hp'); [by exists m'|congruence].
Qed.

Lemma Handle_cases h r :
  (exists e, Handle h r = (r, Some e)) \/
  (isExported (h_Name h) = true /\ serviceMap r !! h_Name h = None /\ install (h_methods h) <> ∅ /\
   Handle h r = (mkRouter (<[h_Name h := mkService (h_Name h) (h_rcvr h) (install (h_methods h))]>
                             (serviceMap r)) (subscribers r), None)).
Proof.
  unfold Handle. destruct (String.eqb (h_Name h) ""); [left; by eexists|].
  destruct (isExported (h_Name h)); cbn [negb]; [|left; by eexists].
  case_bool_decide as Hs; [left; by eexists|]. case_bool_decide; [left; by eexists|].
  right. split_and!; try done. apply eq_None_not_Some. done.
Qed.

Lemma split_endpoint name m :
  str_has "." name = false -> str_has "." m = false -> split_char "." (name +:+ "." +:+ m) = [name; m].
Proof.
  intros Hn Hm. change ("." +:+ m) with (String "." m). by rewrite split_char_app, split_char_id.
Qed.

(** C15: registering a handler. It fails and changes nothing, or the name was free
    and exported and from then on a request header names one of the handler's
    methods exactly when its endpoint is "Name.Method" for a method of suitable
    signature; requests for other services find what they found before. *)
Theorem Handle_spec h r r' e :
  NoDup (map me_Name (h_methods h)) -> str_has "." (h_Name h) = false ->
  Forall (fun m => str_has "." (me_Name m) = false) (h_methods h) ->
  Handle h r = (r', e) ->
  match e with
  | Some _ => r' = r
  | None =>
      isExported (h_Name h) = true /\ serviceMap r !! h_Name h = None /\ subscribers r' = subscribers r /\
      (forall msg svc mt, (exists m, split_char "." (m_Endpoint msg) = [h_Name h; m]) ->
         readHeader (inr msg) r' = Found svc mt msg <->
         svc = mkService (h_Name h) (h_rcvr h) (install (h_methods h)) /\
         exists m, m ∈ h_methods h /\ m_Endpoint msg = h_Name h +:+ "." +:+ me_Name m /\
           prepareMethod m = Some mt) /\
      (forall msg, head (split_char "." (m_Endpoint msg)) <> Some (h_Name h) ->
         readHeader (inr msg) r' = readHeader (inr msg) r)
  end.
Proof.
  intros Hnd Hdot Hdots HH. destruct (Handle_cases h r) as [[e' He]|(Hex & Hfree & _ & He)]; rewrite HH in He.
  { injection He as -> ->. done. }
  injection He as -> ->. split_and!; [done|done|done| |].
  - intros msg svc mt [m Hsplit]. unfold readHeader. rewrite Hsplit. cbn.
    rewrite lookup_insert_eq. cbn.
    assert (m_Endpoint msg = h_Name h +:+ "." +:+ m) as Hep
      by (by rewrite <- (join_split "." (m_Endpoint msg)), Hsplit).
    assert (forall m', m' ∈ h_methods h -> m_Endpoint msg = h_Name h +:+ "." +:+ me_Name m' ->
      prepareMethod m' = Some mt -> install (h_methods h) !! m = Some mt) as Hin.
    { intros m' Hin Hep' Hp. apply install_lookup; [done|]. exists m'. split_and!; [done| |done].
      rewrite Forall_forall in Hdots. rewrite Hep', split_endpoint in Hsplit by (done || by apply Hdots).
      congruence. }
    destruct (install (h_methods h) !! m) as [mt'|] eqn:Hm; split.
    + intros [= <- <-]. split; [done|].
      apply install_lookup in Hm as (m' & ? & <- & Hp); [|done]. by exists m'.
    + intros (-> & m' & ? & ? & ?). enough (Some mt' = Some mt) by congruence. by eapply Hin.
    + done.
    + intros (-> & m' & ? & ? & ?). enough (None = Some mt) by done. by eapply Hin.
  - intros msg Hhead. unfold readHeader. cbn.
    destruct (split_char "." (m_Endpoint msg)) as [|svc [|m [|? ?]]]; try done.
    rewrite lookup_insert_ne; [done|]. cbn in Hhead. congruence.
Qed.

(** ** What a handler advertises *)

(** Every method that can be called is advertised, as what it is. After a
    handler was registered, each method installed appears among the handler's
    endpoints as "Name.Method", marked as a stream exactly when calls to it are
    streams, provided stream arguments have interface types, as [Stream] does, and
    no "stream" metadata is given by hand. *)
Theorem callable_advertised name ms rcvr md internal r r' svc n mt :
  NoDup (map me_Name ms) -> str_has "." name = false ->
  (forall t, implements_stream t = true -> is_stream_kind t = true) ->
  (forall m, default ∅ (md !! (name +:+ "." +:+ m)) !! "stream" = None) ->
  Handle (NewRpcHandler name ms rcvr md internal) r = (r', None) ->
  serviceMap r' !! name = Some svc -> sv_method svc !! n = Some mt ->
  exists e, e ∈ h_Endpoints (NewRpcHandler name ms rcvr md internal) /\ e_Name e = name +:+ "." +:+ n /\
    (e_Metadata e !! "stream" = Some "true" <-> mt_stream mt = true).
Proof.
  intros Hnd Hdot Hstream Hmd HH Hsvc Hmt.
  destruct (Handle_cases (NewRpcHandler name ms rcvr md internal) r) as [[e' He]|(_ & _ & _ & He)];
    rewrite HH in He; [done|]. injection He as ->. cbn in Hsvc. rewrite lookup_insert_eq in Hsvc.
  injection Hsvc as <-. cbn in Hmt. apply install_lookup in Hmt as (m & Hin & <- & Hp); [|done].
  assert (exists e, extractEndpoint m = Some e /\ e_Name e = me_Name m /\
    (e_Metadata e !! "stream" = Some "true" <-> mt_stream mt = true)) as (e & He & Hn & Hs).
  { unfold prepareMethod in Hp. unfold extractEndpoint. destruct (String.eqb _ _); cbn [negb] in Hp |- *; [|done].
    destruct (me_In m) as [|? [|ctx [|arg [|reply [|? ?]]]]]; try done.
    - destruct (implements_stream arg) eqn:Ha; [|done]. destruct (returns_error _); [|done]. injection Hp as <-.
      eexists. split; [done|]. cbn. rewrite (Hstream arg Ha). by rewrite lookup_singleton_eq.
    - destruct (isExportedOrBuiltinType arg); [|done]. destruct reply as [t| |]; cbn in Hp; try done.
      destruct (_ && _); [|done]. injection Hp as <-. eexists. split; [done|]. cbn. by rewrite lookup_empty. }
  exists (with_metadata md (Registry.mkEndpoint (e_Request e) (e_Response e) (e_Metadata e)
    (name +:+ "." +:+ e_Name e))).
  split_and!.
  - cbn. apply list_elem_of_omap. exists m. split; [done|]. by rewrite He.
  - cbn. by rewrite Hn.
  - cbn. rewrite Hn, lookup_union_r by apply Hmd. exact Hs.
Qed.

Fixpoint vdepth (v : Value) : nat :=
  let 'mkValue _ _ vs := v in
  S ((fix go vs := match vs with [] => 0 | v :: vs => max (vdepth v) (go vs) end) vs).

(** Descriptions of recursive types end: no value is nested deeper than the bound. *)
Lemma extractValue_depth n t v : extractValue n t = Some v -> vdepth v <= n.
Proof.
  revert t v. induction n as [|n IH]; intros t v; cbn; [done|].
  destruct (match t with TPtr v => v | _ => t end) as [t'|t'|i]; [intros [= <-]; cbn; lia..|].
  intros [= <-]. cbn. apply le_n_S. destruct (d_kind (types i)); try lia.
  induction (d_fields (types i)) as [|f fs IHf]; cbn; [lia|].
  destruct (negb _); [exact IHf|]. destruct (extractValue n (f_Type f)) as [[n' ty vs]|] eqn:Hv; cbn; [|exact IHf].
  destruct (field_name f n'); cbn; [|exact IHf]. apply IH in Hv. cbn in Hv.
  apply Nat.max_lub; [exact Hv|exact IHf].
Qed.

(** ** Subscribers *)

(** The functions of a subscriber: their parameters, without the receiver, and results. *)
Definition signatures (shape : sub_shape) : list (list rtype * list rtype) :=
  match shape with
  | SubFunc ins outs => [(ins, outs)]
  | SubMethods _ ms => map (fun m => (tail (me_In m), me_Out m)) ms
  end.

(** Two parameters, the second of an exported or builtin type, and an error. *)
Definition accepted_signature (sig : list rtype * list rtype) : Prop :=
  exists first arg, sig = ([first; arg], [typeOfError]) /\ isExportedOrBuiltinType arg = true.

Lemma validate_signature_ok ins outs : validate_signature ins outs = None <-> accepted_signature (ins, outs).
Proof.
  unfold accepted_signature. split.
  - unfold validate_signature. destruct ins as [|c [|arg [|? ?]]]; try done.
    destruct (isExportedOrBuiltinType arg) eqn:Ha; cbn; [|done].
    destruct outs as [|t [|? ?]]; try done. case_bool_decide; [|done]. intros _. subst. by exists c, arg.
  - intros (c & arg & [= -> ->] & Ha). cbn. rewrite Ha. cbn. by rewrite bool_decide_true.
Qed.

Lemma validate_methods_ok ms :
  validate_methods ms = None <-> Forall accepted_signature (map (fun m => (tail (me_In m), me_Out m)) ms).
Proof.
  clear implements_stream. induction ms as [|m ms IH]; cbn; [by split; [constructor|]|]. rewrite Forall_cons, <- IH, <- validate_signature_ok.
  destruct (validate_signature _ _); [split; [done|by intros [? _]]|tauto].
Qed.

(** C17: which subscribers are accepted. A subscriber is valid exactly when each of its
    functions has two parameters, the second of an exported or builtin type, and
    returns exactly an error. Its handlers then pass their first argument and have, in
    the order of the functions, the types of the two parameters: the body of an event
    is decoded into a value of the second. The first parameter is only counted: nothing
    checks that it is a context, although the context is what it is called with. *)
Theorem validated_well_typed topic shape rcvr queue internal autoack :
  let s := newSubscriber topic shape rcvr queue internal autoack in
  (validateSubscriber s = None <-> Forall accepted_signature (signatures shape)) /\
  (validateSubscriber s = None ->
   Forall2 (fun sig h => exists first arg, sig.1 = [first; arg] /\ h = mkSubHandler (Some arg) (Some first))
     (signatures shape) (sb_handlers s)).
Proof.
  assert (validateSubscriber (newSubscriber topic shape rcvr queue internal autoack) = None <->
    Forall accepted_signature (signatures shape)) as Hv.
  { unfold validateSubscriber. destruct shape as [ins outs|name ms]; cbn; [|apply validate_methods_ok].
    by rewrite validate_signature_ok, Forall_singleton. }
  split; [exact Hv|]. intros Hs%Hv. clear Hv. destruct shape as [ins outs|name ms]; cbn in *.
  - apply Forall_singleton in Hs as (c & arg & [= -> ->] & _). constructor; [|constructor]. by exists c, arg.
  - induction ms as [|m ms IH]; cbn in *; [constructor|]. apply Forall_cons in Hs as [(c & arg & [= Hin Hout] & _) Hs].
    constructor; [|by apply IH]. exists c, arg. cbn. by rewrite Hin.
Qed.

(** ** Delivery *)
Lemma deliver_prefix d hs errs : fst (deliver d hs errs) `prefix_of` hs.
Proof.
  revert errs. induction hs as [|[s h] hs IH]; intros errs; cbn; [done|].
  destruct (dl_decode d s h); [apply prefix_nil|].
  destruct (dl_run d s h) as [[]|e|].
  - specialize (IH errs). destruct (deliver d hs errs). by apply prefix_cons.
  - specialize (IH (errs ++ [error_text e])). destruct (deliver d hs _). by apply prefix_cons.
  - apply prefix_cons, prefix_nil.
Qed.

Definition error_of (d : delivery) (h : subscriber * sub_handler) : option string :=
  match dl_run d h.1 h.2 with Fail e => Some (error_text e) | _ => None end.

Lemma deliver_all d hs errs :
  Forall (fun h => dl_decode d h.1 h.2 = None /\ dl_run d h.1 h.2 <> Panic) hs ->
  deliver d hs errs = (hs, Processed (errs ++ omap (error_of d) hs)).
Proof.
  intros Hhs. revert errs. induction Hhs as [|[s h] hs [Hd Hr] _ IH]; intros errs; cbn.
  - by rewrite app_nil_r.
  - unfold error_of at 1. cbn in Hd, Hr |- *. rewrite Hd. destruct (dl_run d s h) as [[]|e|]; [| |done].
    + by rewrite IH.
    + by rewrite IH, <- app_assoc.
Qed.

(** An event is delivered to every handler of its topic. When the body decodes
    and no handler panics, each handler of each subscriber of the topic is called
    once, in the order of subscription; the result is nil exactly when all of them
    succeed, and otherwise an internal error that joins all their messages. In any
    case the handlers called are a prefix of these, and a topic without
    subscribers succeeds without a call. *)
Theorem ProcessMessage_spec d topic r :
  let hs := message_handlers topic r in
  fst (ProcessMessage d topic r) `prefix_of` hs /\
  (subscribers r !! topic = None -> ProcessMessage d topic r = ([], None)) /\
  (Forall (fun h => dl_decode d h.1 h.2 = None /\ dl_run d h.1 h.2 <> Panic) hs ->
   ProcessMessage d topic r =
   (hs, match omap (error_of d) hs with
        | [] => None
        | errs => Some (Internal "go.micro.server" ("subscriber error: " +:+ join newline errs))
        end)).
Proof.
  cbv zeta. split_and!.
  - pose proof (deliver_prefix d (message_handlers topic r) []) as Hp. unfold ProcessMessage.
    by destruct (deliver _ _ _).
  - intros Hs. unfold ProcessMessage, message_handlers. by rewrite Hs.
  - intros Hhs. unfold ProcessMessage. rewrite deliver_all by done. cbn [app]. by destruct (omap _ _).
Qed.

(** ** Requests *)
Definition responses (log : list action) : list string :=
  omap (fun a => match a with Respond id => Some id | _ => None end) log.

(** What a header that was read, or not, names. *)
Definition finds (hdr : outcome rpc_error Message) (r : router) : option (service * methodType * Message) :=
  match hdr with
  | Ret m => match readHeader (inr m) r with Found s mt msg => Some (s, mt, msg) | _ => None end
  | _ => None
  end.

(** Whether serving a request reads its body: into an argument, or to discard it. *)
Definition reads_body (codec : string) (hdr : outcome rpc_error Message) (r : router) : bool :=
  match hdr with
  | Ret m =>
      match readHeader (inr m) r with
      | Missing keep _ => keep
      | Found _ mt _ => negb (mt_stream mt && String.eqb codec "grpc")
      end
  | _ => false
  end.

(** Reading a request: whether it panics, and what it found. *)
Lemma readRequest_spec codec hdr body r log res :
  readRequest codec hdr body r = (log, res) ->
  responses log = [] /\
  (res = Panic <-> hdr = Panic \/ reads_body codec hdr r = true /\ body = Panic) /\
  (forall s mt msg, res = Ret (s, mt, msg) ->
     finds hdr r = Some (s, mt, msg) /\ (mt_stream mt = false -> body = Ret ())) /\
  (forall s mt msg, res <> Panic -> finds hdr r = Some (s, mt, msg) -> (mt_stream mt = false -> body = Ret ()) ->
     res = Ret (s, mt, msg)).
Proof.
  clear types implements_stream typeOfError. unfold readRequest, reads_body, finds. destruct hdr as [m|e|].
  - destruct (readHeader (inr m) r) as [keep e|s mt msg] eqn:Hh.
    + destruct keep; [destruct body|]; intros [= <- <-]; split_and!; naive_solver.
    + destruct (mt_stream mt) eqn:Hst; cbn [andb negb].
      * destruct (String.eqb codec "grpc"); cbn [negb]; [|destruct body as [[]| |]]; intros [= <- <-];
          split_and!; naive_solver congruence.
      * destruct body as [[]| |]; intros [= <- <-]; split_and!; naive_solver congruence.
  - cbn. intros [= <- <-]. split_and!; naive_solver.
  - intros [= <- <-]. split_and!; naive_solver.
Qed.

(** A request is answered once or fails. [ServeRequest] writes at most one
    response; if it returns nil for a call, exactly one was written, with the
    request's identifier, after the argument was read and the method returned nil; if
    it returns an error, or panics, without the write having done so, none was. *)
Lemma ServeRequest_spec codec hdr body b r log res :
  b_write b = Ret () -> ServeRequest codec hdr body b r = (log, res) ->
  match res with
  | Ret _ => exists s mt msg, finds hdr r = Some (s, mt, msg) /\ b_run b s mt msg = Ret () /\
      (mt_stream mt = false -> body = Ret ()) /\ responses log = if mt_stream mt then [] else [m_Id msg]
  | Fail _ => responses log = []
  | Panic => responses log = []
  end /\
  (res = Panic <-> hdr = Panic \/ reads_body codec hdr r = true /\ body = Panic \/
     exists s mt msg, finds hdr r = Some (s, mt, msg) /\ (mt_stream mt = false -> body = Ret ()) /\ b_run b s mt msg = Panic).
Proof.
  clear types implements_stream typeOfError. intros Hw. unfold ServeRequest. destruct (readRequest codec hdr body r) as [l res0] eqn:HR.
  destruct (readRequest_spec _ _ _ _ _ _ HR) as (Hl & Hp & Hf & Hc).
  destruct res0 as [[[s mt] msg]|e|].
  - destruct (Hf s mt msg eq_refl) as [Hfind Hbody]. unfold call. rewrite Hw.
    assert (~ (hdr = Panic \/ reads_body codec hdr r = true /\ body = Panic)) as Hnp by (intros HP%Hp; done).
    assert (forall P : Prop, (b_run b s mt msg = Panic <-> P) ->
      (P <-> hdr = Panic \/ reads_body codec hdr r = true /\ body = Panic \/ exists s mt msg, finds hdr r = Some (s, mt, msg) /\
         (mt_stream mt = false -> body = Ret ()) /\ b_run b s mt msg = Panic)) as Hiff.
    { intros P <-. split; [intros HP; right; right; by exists s, mt, msg|].
      intros [?|[?|(s' & mt' & msg' & Hf' & Hb' & HP)]]; [tauto..|].
      assert (Ret (E:=router_error) (s, mt, msg) = Ret (s', mt', msg')) as [= <- <- <-] by (by apply Hc). done. }
    destruct (b_run b s mt msg) as [[]|e|] eqn:Hrun.
    + destruct (mt_stream mt) eqn:Hst.
      * intros [= <- Hres]. rewrite app_nil_r, Hl. split.
        -- assert (res <> Panic) as Hres' by (subst res; by repeat case_match).
           destruct res; [|done..]. exists s, mt, msg. by rewrite Hst.
        -- apply Hiff. split; [done|]. intros ->. by repeat case_match.
      * intros [= <- <-]. split; [|by apply Hiff]. exists s, mt, msg. rewrite Hst. split_and!; try done.
        unfold responses in *. by rewrite omap_app, Hl.
    + intros [= <- <-]. rewrite app_nil_r. split; [done|by apply Hiff].
    + intros [= <- <-]. rewrite app_nil_r. split; [done|by apply Hiff].
  - intros [= <- <-]. split; [done|]. split; [done|].
    assert (~ (hdr = Panic \/ reads_body codec hdr r = true /\ body = Panic)) as Hnp by (intros HP%Hp; done).
    intros [HP|[HP|(s & mt & msg & Hfind & Hb & _)]]; [tauto..|]. by specialize (Hc s mt msg ltac:(done) Hfind Hb).
  - intros [= <- <-]. split; [done|]. split; [|done]. intros _. destruct (proj1 Hp eq_refl) as [?|?]; tauto.
Qed.

(** *** [serveReq] of [server/rpc_server.go]

    An error of the router is written as an error message with the headers of the
    request; [text] is [Error()]. A panic ends the goroutine, whose deferred function
    recovers it and writes nothing: then there is no reply. *)
Inductive served := Served (reply : option Message) | Panicked.

Definition serveReq (text : router_error -> string) (msg : Message) (codec : string) (hdr : outcome rpc_error Message)
    (body : outcome rpc_error unit) (b : behaviour) (r : router) : list action * served :=
  let '(log, res) := ServeRequest codec hdr body b r in
  (log,
   match res with
   | Ret _ => Served None
   | Fail e => Served (Some (mkMessage (m_Header msg) "" "" "" "" (text e) "" TypeError))
   | Panic => Panicked
   end).

(** C24: every request is answered, and once, unless something panics. If responses can
    be written, serving a request ends in exactly one of four ways: an error message and
    no response; for a call whose argument was decoded, exactly one response, which
    carries the identifier of the request; for a stream that was ended by its peer,
    neither; after a panic, neither, and nobody is told. It panics exactly when reading
    the header does, or the body if it is read, or the method that is called. *)
Theorem serveReq_answers text msg0 codec hdr body b r :
  b_write b = Ret () ->
  forall log res, serveReq text msg0 codec hdr body b r = (log, res) ->
  match res with
  | Served (Some m) => responses log = [] /\ m_Type m = TypeError /\ m_Header m = m_Header msg0
  | Served None =>
      exists s mt msg, finds hdr r = Some (s, mt, msg) /\ b_run b s mt msg = Ret () /\
        (mt_stream mt = false -> body = Ret ()) /\ responses log = if mt_stream mt then [] else [m_Id msg]
  | Panicked => responses log = []
  end /\
  (res = Panicked <-> hdr = Panic \/ reads_body codec hdr r = true /\ body = Panic \/
     exists s mt msg, finds hdr r = Some (s, mt, msg) /\ (mt_stream mt = false -> body = Ret ()) /\ b_run b s mt msg = Panic).
Proof.
  intros Hw log res. unfold serveReq. destruct (ServeRequest codec hdr body b r) as [l out] eqn:HS.
  destruct (ServeRequest_spec codec hdr body b r l out Hw HS) as [Hout Hp]. intros [= <- <-]. rewrite <- Hp.
  destruct out; by split.
Qed.
End types.

(** ** Concrete runs *)
Definition ex_types (i : nat) : tdesc :=
  match i with
  | 0 => mkTdesc KStruct "Greeter" "main" []
  | 1 => mkTdesc KInterface "Context" "context" []
  | 2 => mkTdesc KStruct "HelloRequest" "main"
           [mkField "Name" "" (TRef 6) "name,omitempty"; mkField "Next" "" (TPtr (TRef 2)) ""]
  | 3 => mkTdesc KStruct "HelloReply" "main" [mkField "msg" "main" (TRef 6) ""]
  | 4 => mkTdesc KInterface "error" "" []
  | 5 => mkTdesc KInterface "Greeter_ChatStream" "main" []
  | 6 => mkTdesc KOtherKind "string" "" []
  | _ => mkTdesc KOtherKind "" "" []
  end.

Definition ex_stream (t : rtype) : bool := bool_decide (t = TRef 5).

Definition ex_error : rtype := TRef 4.

Definition hello_method : rmethod :=
  mkMethod "Hello" "" [TPtr (TRef 0); TRef 1; TPtr (TRef 2); TPtr (TRef 3)] [ex_error].
Definition chat_method : rmethod := mkMethod "Chat" "" [TPtr (TRef 0); TRef 1; TRef 5] [ex_error].
Definition close_method : rmethod := mkMethod "Close" "" [TPtr (TRef 0)] [ex_error].

Definition greeter : handler :=
  NewRpcHandler ex_types "Greeter" [hello_method; chat_method; close_method] 0 ∅ false.

Definition ex_Handle := Handle ex_types ex_stream ex_error.

Definition greeting (endpoint : string) : Message :=
  mkMessage (Some ∅) "9" "greeter" endpoint endpoint "" "hi" TypeRequest.

Definition hello_mt : methodType :=
  mkMethodType hello_method (TPtr (TRef 2)) (Some (TPtr (TRef 3))) (TRef 1) false.

(** The request type is recursive; its description stops at the third level. *)
Example describe_recursive :
  extractValue ex_types 2 (TPtr (TRef 2)) =
  Some (mkValue "HelloRequest" "HelloRequest"
    [mkValue "name" "string" []; mkValue "HelloRequest" "HelloRequest" []]).
Proof. reflexivity. Qed.

Lemma Handle_spec_witness :
  exists svc, readHeader (inr (greeting "Greeter.Hello")) (ex_Handle greeter newRpcRouter).1 =
    Found svc hello_mt (greeting "Greeter.Hello").
Proof.
  destruct (Handle_spec ex_types ex_stream ex_error greeter newRpcRouter (ex_Handle greeter newRpcRouter).1 None)
    as (_ & _ & _ & Hfind & _).
  - vm_compute. repeat (constructor; [set_solver|]). constructor.
  - reflexivity.
  - repeat (constructor; [reflexivity|]). constructor.
  - vm_compute. reflexivity.
  - eexists. apply Hfind; [by exists "Hello"|]. split; [reflexivity|].
    exists hello_method. split_and!; [left|reflexivity|reflexivity].
Defined.

Lemma callable_advertised_witness :
  exists e, e ∈ h_Endpoints greeter /\ e_Name e = "Greeter.Chat" /\
    (e_Metadata e !! "stream" = Some "true" <-> true = true).
Proof.
  apply (callable_advertised ex_types ex_stream ex_error "Greeter" [hello_method; chat_method; close_method] 0 ∅
    false newRpcRouter (ex_Handle greeter newRpcRouter).1
    (default (mkService "" 0 ∅) (serviceMap (ex_Handle greeter newRpcRouter).1 !! "Greeter"))
    "Chat" (mkMethodType chat_method (TRef 5) None (TRef 1) true)).
  - vm_compute. repeat (constructor; [set_solver|]). constructor.
  - reflexivity.
  - unfold ex_stream. intros t Ht%bool_decide_eq_true. by subst.
  - intros m. by rewrite lookup_empty.
  - vm_compute. reflexivity.
  - vm_compute. reflexivity.
  - vm_compute. reflexivity.
Defined.

Definition on_hello : subscriber :=
  newSubscriber ex_types "hello" (SubFunc [TRef 1; TPtr (TRef 2)] [ex_error]) 0 "" false true.

Lemma validated_well_typed_witness :
  validateSubscriber ex_types ex_error on_hello = None /\
  Forall2 (fun sig h => exists first arg, sig.1 = [first; arg] /\ h = mkSubHandler (Some arg) (Some first))
    (signatures (SubFunc [TRef 1; TPtr (TRef 2)] [ex_error])) (sb_handlers on_hello).
Proof.
  destruct (validated_well_typed ex_types ex_error "hello" (SubFunc [TRef 1; TPtr (TRef 2)] [ex_error]) 0 "" false true)
    as [_ Hh].
  split; [vm_compute; reflexivity|]. apply Hh. vm_compute. reflexivity.
Defined.

(** A function of a string and a request is accepted; calling it with a context panics. *)
Example context_not_checked :
  validateSubscriber ex_types ex_error
    (newSubscriber ex_types "hello" (SubFunc [TRef 6; TPtr (TRef 2)] [ex_error]) 0 "" false true) = None.
Proof. vm_compute. reflexivity. Qed.

Definition router_text (e : router_error) : string :=
  match e with RawError _ => "rpc error" | RouterError text => text end.

Definition ok_behaviour : behaviour := mkBehaviour (fun _ _ _ => Ret ()) None (Ret ()).

Lemma serveReq_answers_witness :
  exists x, finds (Ret (greeting "Greeter.Hello")) (ex_Handle greeter newRpcRouter).1 = Some x.
Proof.
  destruct (serveReq_answers router_text (greeting "Greeter.Hello") "proto" (Ret (greeting "Greeter.Hello")) (Ret ())
    ok_behaviour (ex_Handle greeter newRpcRouter).1 eq_refl [ReadBodyInto (TRef 2); Respond "9"] (Served None))
    as [(s & mt & msg & Hf & _) _].
  - vm_compute. reflexivity.
  - by exists (s, mt, msg).
Defined.

(** A method that panics: its caller gets no answer. *)
Example panic_unanswered :
  serveReq router_text (greeting "Greeter.Hello") "proto" (Ret (greeting "Greeter.Hello")) (Ret ())
    (mkBehaviour (fun _ _ _ => Panic) None (Ret ())) (ex_Handle greeter newRpcRouter).1 =
  ([ReadBodyInto (TRef 2)], Panicked).
Proof. vm_compute. reflexivity. Qed.
