(* ===== verification/RpcServer.v ===== *)
(** * The RPC server: [server/rpc_server.go], [rpc_helper.go], [rpc_events.go]

    Registration with the registry and the broker, and the loop that keeps a service
    registered. What the registry, the broker and the register check answer is an
    argument; what reaches the registry and the broker is logged. The options the
    server reads are fields of its state. [Register] and [Deregister] are given as
    they run alone, and in sections that other calls come in between: everything
    between two takings of the lock is a step of its own. *)
From S2P Require Import Prelude GoStrings GoIO Codec RpcCodec RpcStream Registry NetUtil RpcRouter.

(** ** State *)

(** What is logged. A subscription that could not be ended is dropped all the same;
    [AForget] is no call: it marks a handle that another value took the place of. *)
Inductive action :=
| ARegister (s : Service)
| ADeregister (s : Service)
| ASubscribe (topic : string) (id : nat)
| AUnsubscribe (id : nat)
| AUnsubscribeFailed (id : nat)
| AForget (id : nat).

(** [subscribers] is keyed by the pointer to the subscriber; the list holds its
    broker subscriptions. *)
Record rpcServer := mkServer {
  o_Name : string;
  o_Id : string;
  o_Version : string;
  o_Address : string;
  o_Advertise : string;
  o_Metadata : gmap string string;
  o_plugins : gmap string string;
  o_Router : bool;
  handlers : gmap string handler;
  s_subscribers : gmap nat (subscriber * list nat);
  s_subscriber : option nat;
  s_registered : bool;
  s_started : bool;
  s_rsvc : option Service;
  s_router : router;
  s_next : nat;
  s_log : list action;
}.

Definition upd (advertise : string) (subs : gmap nat (subscriber * list nat)) (sub : option nat)
    (registered : bool) (rsvc : option Service) (rt : router) (next : nat) (log : list action)
    (s : rpcServer) : rpcServer :=
  mkServer (o_Name s) (o_Id s) (o_Version s) (o_Address s) advertise (o_Metadata s) (o_plugins s)
    (o_Router s) (handlers s) subs sub registered (s_started s) rsvc rt next log.

Definition logged (l : list action) (s : rpcServer) : rpcServer :=
  upd (o_Advertise s) (s_subscribers s) (s_subscriber s) (s_registered s) (s_rsvc s) (s_router s)
    (s_next s) (s_log s ++ l) s.

Definition set_started (b : bool) (s : rpcServer) : rpcServer :=
  mkServer (o_Name s) (o_Id s) (o_Version s) (o_Address s) (o_Advertise s) (o_Metadata s) (o_plugins s)
    (o_Router s) (handlers s) (s_subscribers s) (s_subscriber s) (s_registered s) b (s_rsvc s)
    (s_router s) (s_next s) (s_log s).

Definition set_address (a : string) (s : rpcServer) : rpcServer :=
  mkServer (o_Name s) (o_Id s) (o_Version s) a (o_Advertise s) (o_Metadata s) (o_plugins s)
    (o_Router s) (handlers s) (s_subscribers s) (s_subscriber s) (s_registered s) (s_started s) (s_rsvc s)
    (s_router s) (s_next s) (s_log s).

(** What the environment answers: the registry to each attempt, the broker to each
    subscription and to the ending of each; [e_order] is the order in which the maps
    are visited. *)
Record env := mkEnv {
  e_interfaces : string + list iface;
  e_register : nat -> option string;
  e_deregister : option string;
  e_subscribe : string -> option string;
  e_unsubscribe : nat -> option string;
  e_order : map_order;
}.

Section server.
Context {net : Net} (types : nat -> tdesc) (typeOfError : rtype).

(** ** Addresses and service data *)
Definition getAddr (e : env) (s : rpcServer) : string + string * bool :=
  let advt := if String.eqb (o_Advertise s) "" then o_Address s else o_Advertise s in
  match (if 1 <=? count ":" advt then SplitHostPort advt else inr (advt, "")) with
  | inl err => inl err
  | inr (host, port) =>
      match Extract (e_interfaces e) host with
      | inl err => inl err
      | inr addr =>
          inr (if String.eqb port "" then addr else HostPort addr (PortText port), ParseIP host)
      end
  end.

(** The names of the transport, broker, server, registry and protocol replace what
    the service's metadata says of them. *)
Definition newNodeMetedata (s : rpcServer) : gmap string string :=
  <["protocol" := "mucp"]> (<["server" := "mucp"]> (o_plugins s ∪ o_Metadata s)).

Definition node_id (s : rpcServer) : string := o_Name s +:+ "-" +:+ o_Id s.

(** Handler names ascending, subscriber topics descending. *)
Fixpoint insert_by {A} (lt : A -> A -> bool) (x : A) (l : list A) : list A :=
  match l with
  | [] => [x]
  | y :: l => if lt y x then y :: insert_by lt x l else x :: y :: l
  end.

Definition sort_by {A} (lt : A -> A -> bool) (l : list A) : list A := foldr (insert_by lt) [] l.

Definition getEndpoints (o : map_order) (s : rpcServer) : list Registry.Endpoint :=
  let handlerList := omap (fun e => if h_Internal e.2 then None else Some e.1) (map_range o (handlers s)) in
  let subscriberList :=
    omap (fun e => if sb_Internal e.2.1 then None else Some e.2.1) (map_range o (s_subscribers s)) in
  concat (map (fun n => match handlers s !! n with Some h => h_Endpoints h | None => [] end)
            (sort_by str_ltb handlerList)) ++
  concat (map sb_endpoints (sort_by (fun a b => str_ltb (sb_topic b) (sb_topic a)) subscriberList)).

(** From a copy of the options and from the handlers and subscribers there are. *)
Definition service_data (e : env) (addr : string) (cfg s : rpcServer) : Service :=
  Registry.mkService (o_Name cfg) (o_Version cfg) ∅ (getEndpoints (e_order e) s)
    [mkNode (Some (newNodeMetedata cfg)) (node_id cfg) addr].

(** ** Registration *)

(** Three attempts; the error of the last one is returned. *)
Definition regFunc (e : env) (svc : Service) (s : rpcServer) : rpcServer * option string :=
  match e_register e 0 with
  | None => (logged [ARegister svc] s, None)
  | Some _ =>
      match e_register e 1 with
      | None => (logged [ARegister svc; ARegister svc] s, None)
      | Some _ => (logged [ARegister svc; ARegister svc; ARegister svc] s, e_register e 2)
      end
  end.

(** [cfg] is a copy of the options, taken earlier: a server of which only the options
    are read. What was subscribed before is forgotten. *)
Definition subscribeServer (e : env) (cfg s : rpcServer) : rpcServer * option string :=
  if negb (o_Router s) then (s, None)
  else
    match e_subscribe e (o_Name cfg) with
    | Some err => (s, Some err)
    | None =>
        (upd (o_Advertise s) (s_subscribers s) (Some (s_next s)) (s_registered s) (s_rsvc s) (s_router s)
           (S (s_next s))
           (s_log s ++ ASubscribe (o_Name cfg) (s_next s) :: map AForget (option_list (s_subscriber s))) s, None)
    end.

(** The handles of a subscriber. *)
Definition handles (k : nat) (s : rpcServer) : list nat :=
  match s_subscribers s !! k with Some (_, ids) => ids | None => [] end.

Definition resubscribe_one (e : env) (acc : rpcServer * option string) (entry : nat * (subscriber * list nat)) :
    rpcServer * option string :=
  match acc with
  | (s, Some err) => (s, Some err)
  | (s, None) =>
      let '(k, (sb, _)) := entry in
      match e_subscribe e (sb_topic sb) with
      | Some err => (s, Some err)
      | None =>
          (upd (o_Advertise s) (<[k := (sb, [s_next s])]> (s_subscribers s)) (s_subscriber s)
             (s_registered s) (s_rsvc s) (Subscribe types typeOfError sb (s_router s)).1 (S (s_next s))
             (s_log s ++ ASubscribe (sb_topic sb) (s_next s) :: map AForget (handles k s)) s, None)
      end
  end.

Definition reSubscribe (e : env) (s : rpcServer) : rpcServer * option string :=
  foldl (resubscribe_one e) (s, None) (map_range (e_order e) (s_subscribers s)).

(** What [Register] does once it has taken the lock. *)
Definition register_locked (e : env) (cfg : rpcServer) (addr : string) (cacheService : bool) (svc : Service)
    (s : rpcServer) : rpcServer * option string :=
  let s := upd addr (s_subscribers s) (s_subscriber s) true (if cacheService then Some svc else s_rsvc s)
             (s_router s) (s_next s) (s_log s) s in
  match subscribeServer e cfg s with
  | (s, Some err) => (s, Some ("failed to subscribe to service name topic: " +:+ err))
  | (s, None) =>
      let '(s, err) := reSubscribe e s in
      (s, String.append "failed to resubscribe: " <$> err)
  end.

(** [Register] with nothing between its sections. *)
Definition Register (e : env) (s : rpcServer) : rpcServer * option string :=
  match s_rsvc s with
  | Some rsvc =>
      let '(s, err) := regFunc e rsvc s in
      (s, String.append "failed to register service: " <$> err)
  | None =>
      match getAddr e s with
      | inl err => (s, Some err)
      | inr (addr, cacheService) =>
          let svc := service_data e addr s s in
          let registered := s_registered s in
          match regFunc e svc s with
          | (s', Some err) => (s', Some ("failed to register service: " +:+ err))
          | (s', None) => if registered then (s', None) else register_locked e s addr cacheService svc s'
          end
      end
  end.

(** Failures of unsubscribing are reported to the log only, and the handle is dropped. *)
Definition unsubscribe (e : env) (i : nat) : action :=
  match e_unsubscribe e i with None => AUnsubscribe i | Some _ => AUnsubscribeFailed i end.

Definition unsubscribe_one (e : env) (s : rpcServer) (entry : nat * (subscriber * list nat)) : rpcServer :=
  let '(k, (sb, subs)) := entry in
  upd (o_Advertise s) (<[k := (sb, [])]> (s_subscribers s)) (s_subscriber s) (s_registered s) (s_rsvc s)
    (s_router s) (s_next s) (s_log s ++ map (unsubscribe e) subs) s.

(** What [Deregister] does once it has taken the lock. *)
Definition deregister_locked (e : env) (s : rpcServer) : rpcServer :=
  let s := upd (o_Advertise s) (s_subscribers s) (s_subscriber s) (s_registered s) None (s_router s)
             (s_next s) (s_log s) s in
  if negb (s_registered s) then s
  else
    let s := upd (o_Advertise s) (s_subscribers s) None false None (s_router s) (s_next s)
               (s_log s ++ map (unsubscribe e) (option_list (s_subscriber s))) s in
    foldl (unsubscribe_one e) s (map_range (e_order e) (s_subscribers s)).

Definition node_only (addr : string) (cfg : rpcServer) : Service :=
  Registry.mkService (o_Name cfg) (o_Version cfg) ∅ [] [mkNode None (node_id cfg) addr].

(** [Deregister] with nothing between its sections. *)
Definition Deregister (e : env) (s : rpcServer) : rpcServer * option string :=
  match getAddr e s with
  | inl err => (s, Some err)
  | inr (addr, _) =>
      let s := logged [ADeregister (node_only addr s)] s in
      match e_deregister e with
      | Some err => (s, Some err)
      | None => (deregister_locked e s, None)
      end
  end.

(** ** Calls in sections

    Where a call of [Register] or [Deregister] is: after it was called, with its copy
    of the options, with its address, with its service data, at an attempt to register
    ([locks]: what it goes on with under the lock, if it does), about to take the lock,
    returned. *)
Inductive call :=
| RBegin
| RCached (cfg : rpcServer)
| REndpoints (cfg : rpcServer) (addr : string) (cacheService : bool)
| RFlag (cfg : rpcServer) (addr : string) (cacheService : bool) (svc : Service)
| RAttempt (n : nat) (svc : Service) (locks : option (rpcServer * string * bool))
| RLock (cfg : rpcServer) (addr : string) (cacheService : bool) (svc : Service)
| DBegin
| DCall (cfg : rpcServer)
| DLock
| Returned (err : option string).

Definition advance (e : env) (s : rpcServer) (c : call) : rpcServer * call :=
  match c with
  | RBegin => (s, RCached s)
  | RCached cfg =>
      match s_rsvc s with
      | Some rsvc => (s, RAttempt 0 rsvc None)
      | None =>
          match getAddr e cfg with
          | inl err => (s, Returned (Some err))
          | inr (addr, cacheService) => (s, REndpoints cfg addr cacheService)
          end
      end
  | REndpoints cfg addr cacheService => (s, RFlag cfg addr cacheService (service_data e addr cfg s))
  | RFlag cfg addr cacheService svc =>
      (s, RAttempt 0 svc (if s_registered s then None else Some (cfg, addr, cacheService)))
  | RAttempt n svc locks =>
      (logged [ARegister svc] s,
       match e_register e n with
       | None => match locks with Some (cfg, addr, cacheService) => RLock cfg addr cacheService svc | None => Returned None end
       | Some err => if n <? 2 then RAttempt (S n) svc locks else Returned (Some ("failed to register service: " +:+ err))
       end)
  | RLock cfg addr cacheService svc =>
      let '(s, err) := register_locked e cfg addr cacheService svc s in (s, Returned err)
  | DBegin => (s, DCall s)
  | DCall cfg =>
      match getAddr e cfg with
      | inl err => (s, Returned (Some err))
      | inr (addr, _) =>
          (logged [ADeregister (node_only addr cfg)] s,
           match e_deregister e with Some err => Returned (Some err) | None => DLock end)
      end
  | DLock => (deregister_locked e s, Returned None)
  | Returned err => (s, Returned err)
  end.

(** One tick of the loop that keeps the service registered. *)
Definition registrar_tick (check : option string) (e1 e2 : env) (s : rpcServer) : rpcServer :=
  match check with
  | Some _ => if s_registered s then (Register e2 (Deregister e1 s).1).1 else s
  | None => (Register e2 s).1
  end.

(** [Start], once the transport listens on [laddr] and the broker is connected, up
    to the goroutines; [None] results: the listener or the broker failed. *)
Definition Start (listen : option string) (connected : bool) (check : option string) (e : env) (s : rpcServer) :
    rpcServer * bool :=
  if s_started s then (s, true)
  else
    match listen with
    | None => (s, false)
    | Some laddr =>
        let s := set_address laddr s in
        if negb connected then (s, false)
        else
          let s := match check with Some _ => s | None => (Register e s).1 end in
          (set_started true s, true)
    end.

(** The end of the loop, on [Stop]. *)
Definition Stop (addr : string) (e : env) (s : rpcServer) : rpcServer :=
  if negb (s_started s) then s
  else
    let s := if s_registered s then (Deregister e s).1 else s in
    set_started false (set_address addr s).

Definition server_Handle (implements_stream : rtype -> bool) (h : handler) (s : rpcServer) :
    rpcServer * option string :=
  match Handle types implements_stream typeOfError h (s_router s) with
  | (_, Some err) => (s, Some err)
  | (rt, None) =>
      (mkServer (o_Name s) (o_Id s) (o_Version s) (o_Address s) (o_Advertise s) (o_Metadata s) (o_plugins s)
         (o_Router s) (<[h_Name h := h]> (handlers s)) (s_subscribers s) (s_subscriber s) (s_registered s)
         (s_started s) (s_rsvc s) rt (s_next s) (s_log s), None)
  end.

(** [k] identifies the subscriber, whose handles are forgotten if it was there. *)
Definition server_Subscribe (k : nat) (sb : subscriber) (s : rpcServer) : rpcServer * option sub_error :=
  match sb_handlers sb with
  | [] => (s, Some NoHandlers)
  | _ =>
      match validateSubscriber types typeOfError sb with
      | Some err => (s, Some err)
      | None =>
          (upd (o_Advertise s) (<[k := (sb, [])]> (s_subscribers s)) (s_subscriber s) (s_registered s)
             (s_rsvc s) (s_router s) (s_next s) (s_log s ++ map AForget (handles k s)) s, None)
      end
  end.

(** The options of [cfg]. *)
Definition with_options (cfg s : rpcServer) : rpcServer :=
  mkServer (o_Name cfg) (o_Id cfg) (o_Version cfg) (o_Address cfg) (o_Advertise cfg) (o_Metadata cfg)
    (o_plugins cfg) (o_Router cfg) (handlers s) (s_subscribers s) (s_subscriber s) (s_registered s)
    (s_started s) (s_rsvc s) (s_router s) (s_next s) (s_log s).

(** [Init] applies its options, which are then those of [cfg]. Without a router of its
    own the server gets a new one that keeps the handlers; the cached service is
    forgotten. *)
Definition Init (cfg s : rpcServer) : rpcServer :=
  let s := with_options cfg s in
  upd (o_Advertise s) (s_subscribers s) (s_subscriber s) (s_registered s) None
    (if o_Router s then s_router s else mkRouter (serviceMap (s_router s)) ∅) (s_next s) (s_log s) s.

(** Run alone, the sections make up the calls. *)
Lemma Register_sections e s :
  exists n, Nat.iter n (fun w => advance e w.1 w.2) (s, RBegin) = ((Register e s).1, Returned (Register e s).2).
Proof.
  assert (forall n m w w' w'', Nat.iter n (fun w => advance e w.1 w.2) w = w' ->
    Nat.iter m (fun w => advance e w.1 w.2) w' = w'' -> Nat.iter (m + n) (fun w => advance e w.1 w.2) w = w'') as Htrans.
  { intros n m w w' w'' <-. by rewrite Nat.iter_add. }
  assert (forall l l' s0, logged l' (logged l s0) = logged (l ++ l') s0) as Hlog
    by (intros l l' s0; unfold logged; cbn; by rewrite <- app_assoc).
  assert (forall svc locks s0, exists n, Nat.iter n (fun w => advance e w.1 w.2) (s0, RAttempt 0 svc locks) =
    ((regFunc e svc s0).1, match (regFunc e svc s0).2 with
       | None => match locks with Some (cfg, addr, cached) => RLock cfg addr cached svc | None => Returned None end
       | Some err => Returned (Some ("failed to register service: " +:+ err))
       end)) as Hreg.
  { intros svc locks s0. unfold regFunc. destruct (e_register e 0) eqn:H0; [|exists 1; cbn; by rewrite H0].
    destruct (e_register e 1) eqn:H1; [|exists 2; cbn; rewrite H0; cbn; rewrite H1; cbn; by rewrite Hlog].
    exists 3. cbn. rewrite H0; cbn; rewrite H1; cbn. rewrite !Hlog. by destruct (e_register e 2). }
  unfold Register. destruct (s_rsvc s) as [rsvc|] eqn:Hr.
  { destruct (Hreg rsvc None s) as [n Hn]. exists (n + 2). eapply Htrans; [cbn; rewrite Hr; reflexivity|]. rewrite Hn.
    by destruct (regFunc e rsvc s) as [s1 [err|]]. }
  destruct (getAddr e s) as [err|[addr cached]] eqn:Ha; [exists 2; cbn; by rewrite Hr, Ha|].
  set (svc := service_data e addr s s).
  destruct (Hreg svc (if s_registered s then None else Some (s, addr, cached)) s) as [n Hn].
  assert (Nat.iter 4 (fun w => advance e w.1 w.2) (s, RBegin) =
    (s, RAttempt 0 svc (if s_registered s then None else Some (s, addr, cached)))) as H4 by (cbn; by rewrite Hr, Ha).
  pose proof (Htrans _ _ _ _ _ H4 Hn) as Hrun. destruct (regFunc e svc s) as [s1 [err|]]; [by exists (n + 4)|].
  destruct (s_registered s); [by exists (n + 4)|]. exists (1 + (n + 4)). eapply Htrans; [exact Hrun|]. cbn.
  by destruct (register_locked e s addr cached svc s1).
Qed.

Lemma Deregister_sections e s :
  exists n, Nat.iter n (fun w => advance e w.1 w.2) (s, DBegin) = ((Deregister e s).1, Returned (Deregister e s).2).
Proof.
  unfold Deregister. destruct (getAddr e s) as [err|[addr c]] eqn:Ha; [exists 2; cbn; by rewrite Ha|].
  destruct (e_deregister e) as [err|] eqn:He; [exists 2; cbn; by rewrite Ha, He|].
  exists 3. cbn. by rewrite Ha, He.
Qed.

(** ** The broker subscriptions a server holds *)
Definition live_step (acc : gset nat) (a : action) : gset nat :=
  match a with
  | ASubscribe _ i => {[i]} ∪ acc
  | AUnsubscribe i => acc ∖ {[i]}
  | _ => acc
  end.

(** Subscribed and not ended since. *)
Definition live (log : list action) : gset nat := foldl live_step ∅ log.

Definition gone_step (acc : gset nat) (a : action) : gset nat :=
  match a with AUnsubscribeFailed i | AForget i => {[i]} ∪ acc | _ => acc end.

(** Given up without being ended: the broker failed to end it, or its handle was
    replaced. *)
Definition gone (log : list action) : gset nat := foldl gone_step ∅ log.

(** The handles of a server: of its own topic and of its subscribers. *)
Definition holders (sub : option nat) (subs : gmap nat (subscriber * list nat)) : list nat :=
  option_list sub ++ concat (map (fun e => e.2.2) (map_to_list subs)).

Definition held (s : rpcServer) : list nat := holders (s_subscriber s) (s_subscribers s).

(** The handles [H] against a log. *)
Record core (H : list nat) (log : list action) (next : nat) : Prop := {
  core_nodup : NoDup H;
  core_live : forall i, i ∈ live log <-> i ∈ H \/ i ∈ gone log;
  core_apart : forall i, i ∈ H -> i ∉ gone log;
  core_next : forall i, i ∈ live log -> i < next;
}.

Definition server_inv (s : rpcServer) : Prop :=
  core (held s) (s_log s) (s_next s) /\ (s_registered s = false -> held s = []).

Lemma live_app l a : live (l ++ a) = foldl live_step (live l) a.
Proof. apply foldl_app. Qed.

Lemma gone_app l a : gone (l ++ a) = foldl gone_step (gone l) a.
Proof. apply foldl_app. Qed.

Definition quiet_action (a : action) : Prop :=
  match a with ARegister _ | ADeregister _ => True | _ => False end.

Lemma core_perm H H' log next : H ≡ₚ H' -> core H log next -> core H' log next.
Proof.
  intros Hp [Hnd Hl Ha Hn]. split; [by rewrite <- Hp| |intros i; rewrite <- Hp; apply Ha|done].
  intros i. by rewrite <- Hp.
Qed.

Lemma core_quiet H log next l : Forall quiet_action l -> core H log next -> core H (log ++ l) next.
Proof.
  intros Hq [Hnd Hl Ha Hn].
  assert (live (log ++ l) = live log) as Hl' by (rewrite live_app; induction Hq as [|[] l' Hx _ IH]; done || exact IH).
  assert (gone (log ++ l) = gone log) as Hg' by (rewrite gone_app; clear Hl'; induction Hq as [|[] l' Hx _ IH]; done || exact IH).
  split; rewrite ?Hl', ?Hg'; done.
Qed.

Lemma core_add H log next t : core H log next -> core (next :: H) (log ++ [ASubscribe t next]) (S next).
Proof.
  intros [Hnd Hl Ha Hn]. assert (next ∉ live log) as Hfresh by (intros ?%Hn; lia).
  assert (next ∉ H /\ next ∉ gone log) as [Hf1 Hf2] by (rewrite Hl in Hfresh; naive_solver).
  split; rewrite ?live_app, ?gone_app; cbn.
  - by constructor.
  - intros i. rewrite elem_of_union, elem_of_singleton, elem_of_cons, Hl. tauto.
  - intros i [->|Hi]%elem_of_cons; [done|by apply Ha].
  - intros i [->%elem_of_singleton|Hi%Hn]%elem_of_union; lia.
Qed.

(** An action that ends or gives up one handle. *)
Definition drops (a : action) (i : nat) : Prop := a = AUnsubscribe i \/ a = AUnsubscribeFailed i \/ a = AForget i.

Lemma core_drop1 i H log next a : drops a i -> core (i :: H) log next -> core H (log ++ [a]) next.
Proof.
  intros Ha [[Hi Hnd]%NoDup_cons Hl Hg Hn]. assert (i ∉ gone log) as Hig by (apply Hg; left).
  assert (forall j, j ∈ H -> j <> i) as Hne by (intros j Hj ->; done).
  assert (forall j, j ∈ H -> j ∉ gone log) as Hg' by (intros j Hj; apply Hg; by right).
  split; rewrite ?live_app, ?gone_app; cbn; [done|..];
    destruct Ha as [->|[->| ->]]; cbn; intros j; rewrite ?elem_of_difference, ?elem_of_union, ?elem_of_singleton, ?Hl, ?elem_of_cons.
  all: try (specialize (Hn j); rewrite Hl, elem_of_cons in Hn); specialize (Hne j); specialize (Hg' j);
    destruct (decide (j = i)) as [->|]; tauto.
Qed.

Lemma core_drop ids H log next f :
  (forall i, drops (f i) i) -> core (ids ++ H) log next -> core H (log ++ map f ids) next.
Proof.
  intros Hf. revert log. induction ids as [|i ids IH]; intros log Hc; cbn; [by rewrite app_nil_r|].
  change (f i :: map f ids) with ([f i] ++ map f ids). rewrite app_assoc. apply IH. by eapply core_drop1.
Qed.

Lemma core_replace ids H log next t f :
  (forall i, drops (f i) i) -> core (ids ++ H) log next ->
  core (next :: H) (log ++ ASubscribe t next :: map f ids) (S next).
Proof.
  intros Hf Hc. change (ASubscribe t next :: map f ids) with ([ASubscribe t next] ++ map f ids). rewrite app_assoc.
  apply core_drop; [done|]. apply (core_perm (next :: ids ++ H)); [apply Permutation_middle|by apply core_add].
Qed.

Lemma forgets i : drops (AForget i) i.
Proof. by right; right. Qed.

Lemma unsubscribe_drops e i : drops (unsubscribe e i) i.
Proof. unfold unsubscribe, drops. destruct (e_unsubscribe e i); auto. Qed.

(** The handles when those of one subscriber change. *)
Lemma holders_delete sub subs k sb ids :
  subs !! k = Some (sb, ids) -> holders sub subs ≡ₚ ids ++ holders sub (delete k subs).
Proof.
  intros Hk. unfold holders. rewrite <- (insert_delete_id _ _ _ Hk) at 1.
  rewrite (map_to_list_insert (delete k subs)) by apply lookup_delete_eq. cbn. rewrite !app_assoc.
  f_equiv. apply Permutation_app_comm.
Qed.

Lemma holders_insert sub subs k sb ids :
  holders sub (<[k := (sb, ids)]> subs) ≡ₚ ids ++ holders sub (delete k subs).
Proof.
  rewrite (holders_delete _ _ k sb ids) by apply lookup_insert_eq. by rewrite delete_insert_eq.
Qed.

Lemma holders_handles s k : held s ≡ₚ handles k s ++ holders (s_subscriber s) (delete k (s_subscribers s)).
Proof.
  unfold held, handles. destruct (s_subscribers s !! k) as [[sb ids]|] eqn:Hk; [by eapply holders_delete|].
  by rewrite delete_id.
Qed.

(** Steps that log only calls to the registry keep the invariant. *)
Lemma server_inv_same s s' l :
  s_log s' = s_log s ++ l -> Forall quiet_action l -> s_subscribers s' = s_subscribers s ->
  s_subscriber s' = s_subscriber s -> s_next s' = s_next s ->
  (s_registered s' = false -> s_registered s = false) -> server_inv s -> server_inv s'.
Proof.
  intros Hlog Hl Hsubs Hsub Hnext Hreg [Hc Hu].
  assert (held s' = held s) as Hh by (unfold held; by rewrite Hsubs, Hsub).
  split; rewrite Hh; [rewrite Hlog, Hnext; by apply core_quiet|]. intros Hr%Hreg. by apply Hu.
Qed.

Lemma regFunc_same e svc s s' err :
  regFunc e svc s = (s', err) -> exists l, s' = logged l s /\ Forall quiet_action l.
Proof.
  unfold regFunc. destruct (e_register e 0), (e_register e 1); intros [= <- _];
    eexists; (split; [reflexivity|repeat constructor]).
Qed.

(** The lock sections. *)
Definition counted (s : rpcServer) : Prop := core (held s) (s_log s) (s_next s) /\ s_registered s = true.

Lemma subscribeServer_counted e cfg s : counted s -> counted (subscribeServer e cfg s).1.
Proof.
  intros [Hc Hr]. unfold subscribeServer. destruct (negb _); [done|]. destruct (e_subscribe e _); [done|]. split; [|done].
  unfold held in *. cbn [fst s_log s_next s_subscriber s_subscribers upd]. by apply core_replace; [apply forgets|].
Qed.

Lemma resubscribe_one_counted e acc en : counted acc.1 -> counted (resubscribe_one e acc en).1.
Proof.
  destruct acc as [s [err|]], en as [k [sb ids]]; cbn [fst resubscribe_one]; [done|]. intros [Hc Hr].
  destruct (e_subscribe e _); [done|]. split; [|done]. unfold held. cbn [fst s_log s_next s_subscriber s_subscribers upd].
  eapply core_perm; [symmetry; apply holders_insert|]. apply core_replace; [apply forgets|].
  eapply core_perm; [apply holders_handles|done].
Qed.

Lemma fold_counted {A B} (f : A -> B -> A) (P : A -> Prop) l a :
  (forall a b, P a -> P (f a b)) -> P a -> P (foldl f a l).
Proof. intros Hf. revert a. induction l as [|b l IH]; intros a Ha; cbn; [done|]. by apply IH, Hf. Qed.

Lemma register_locked_inv e cfg addr cached svc s :
  server_inv s -> server_inv (register_locked e cfg addr cached svc s).1.
Proof.
  intros [Hc _]. unfold register_locked. set (s1 := upd addr _ _ true _ _ _ _ _).
  assert (counted s1) as H1 by done. apply (subscribeServer_counted e cfg) in H1.
  assert (forall s, counted s -> server_inv s) as Hinv by (intros s2 [? Hr]; split; [done|congruence]).
  destruct (subscribeServer e cfg s1) as [s2 [err|]]; cbn [fst] in *; [by apply Hinv|].
  unfold reSubscribe. pose proof (fold_counted (resubscribe_one e) (fun acc => counted acc.1)
    (map_range (e_order e) (s_subscribers s2)) (s2, None) (resubscribe_one_counted e) H1) as H2.
  destruct (foldl _ _ _) as [s3 err]. by apply Hinv.
Qed.

Lemma unsubscribe_fold e l s :
  NoDup l.*1 -> (forall k en, (k, en) ∈ l -> s_subscribers s !! k = Some en) ->
  let s' := foldl (unsubscribe_one e) s l in
  (core (held s) (s_log s) (s_next s) -> core (held s') (s_log s') (s_next s')) /\
  s_registered s' = s_registered s /\ s_router s' = s_router s /\ s_rsvc s' = s_rsvc s /\
  s_subscriber s' = s_subscriber s /\
  (forall k, s_subscribers s' !! k =
     if decide (k ∈ l.*1) then (fun en => (en.1, [])) <$> s_subscribers s !! k else s_subscribers s !! k).
Proof.
  revert s. induction l as [|[k [sb ids]] l IH]; intros s Hnd Hl.
  { by split_and!. }
  apply NoDup_cons in Hnd as [Hk Hnd]. cbn [foldl]. pose proof (Hl k (sb, ids) ltac:(left)) as Hk0.
  destruct (IH (unsubscribe_one e s (k, (sb, ids))) Hnd) as (Hc' & Hr & Hrt & Hv & Hs & Hsubs).
  { intros k' en Hin. cbn. rewrite lookup_insert_ne; [apply Hl; by right|].
    intros <-. apply Hk, list_elem_of_fmap. by exists (k, en). }
  split_and!; try done.
  - intros Hc. apply Hc'. unfold held. cbn [unsubscribe_one s_log s_next s_subscriber s_subscribers upd].
    eapply core_perm; [symmetry; apply holders_insert|]. apply core_drop; [apply unsubscribe_drops|].
    eapply core_perm; [|exact Hc]. by eapply holders_delete.
  - intros k'. rewrite Hsubs. cbn [unsubscribe_one s_subscribers upd]. destruct (decide (k' = k)) as [->|Hne].
    + rewrite (decide_False _ _ Hk), lookup_insert_eq, decide_True by (cbn; left). by rewrite Hk0.
    + rewrite lookup_insert_ne by done. cbn.
      destruct (decide (k' ∈ l.*1)), (decide (k' ∈ k :: l.*1)); try done; set_solver.
Qed.

(** The loop over all subscribers. *)
Lemma unsubscribe_rest e s :
  let s' := foldl (unsubscribe_one e) s (map_range (e_order e) (s_subscribers s)) in
  s_registered s' = s_registered s /\ s_router s' = s_router s /\ s_rsvc s' = s_rsvc s /\
  s_subscribers s' = (fun en => (en.1, [])) <$> s_subscribers s /\ s_subscriber s' = s_subscriber s /\
  (core (held s) (s_log s) (s_next s) -> core (held s') (s_log s') (s_next s')).
Proof.
  destruct (unsubscribe_fold e (map_range (e_order e) (s_subscribers s)) s) as (Hc' & Hr & Hrt & Hv & Hs & Hsubs).
  { apply NoDup_map_range. }
  { by intros k en Hin%elem_of_map_range. }
  split_and!; try done. apply map_eq. intros k. rewrite Hsubs, lookup_fmap.
  destruct (decide _) as [_|Hk]; [done|]. destruct (s_subscribers s !! k) as [en|] eqn:Hen; [|done].
  exfalso. apply Hk, list_elem_of_fmap. exists (k, en). split; [done|]. by apply elem_of_map_range.
Qed.

Lemma no_handles (subs : gmap nat (subscriber * list nat)) : holders None ((fun en => (en.1, [])) <$> subs) = [].
Proof.
  unfold holders. cbn. rewrite map_to_list_fmap, map_map. cbn. by induction (map_to_list subs).
Qed.

(** The lock section of deregistering a registered server. *)
Lemma deregister_locked_spec e s :
  core (held s) (s_log s) (s_next s) -> s_registered s = true ->
  let s' := deregister_locked e s in core (held s') (s_log s') (s_next s') /\ held s' = [].
Proof.
  intros Hc Hreg. unfold deregister_locked. cbn [s_registered upd]. rewrite Hreg. cbn [negb].
  set (s2 := upd _ _ None false None _ _ _ _).
  destruct (unsubscribe_rest e s2) as (_ & _ & _ & Hsubs & Hsub & Hc'). split.
  - apply Hc'. unfold held. cbn [s_log s_next s_subscriber s_subscribers upd s2].
    by apply core_drop; [apply unsubscribe_drops|].
  - unfold held. change (s_subscribers s) with (s_subscribers s2). rewrite Hsubs, Hsub. apply no_handles.
Qed.

Lemma deregister_locked_unregistered e s :
  s_registered s = false ->
  deregister_locked e s =
    upd (o_Advertise s) (s_subscribers s) (s_subscriber s) false None (s_router s) (s_next s) (s_log s) s.
Proof. intros Hr. unfold deregister_locked. cbn [s_registered upd]. by rewrite Hr. Qed.

Lemma deregister_locked_inv e s : server_inv s -> server_inv (deregister_locked e s).
Proof.
  intros Hi. destruct (s_registered s) eqn:Hr.
  - by destruct (deregister_locked_spec e s (proj1 Hi) Hr).
  - rewrite deregister_locked_unregistered by done. by apply (server_inv_same s _ []); [cbn; by rewrite app_nil_r|..].
Qed.

Lemma advance_inv e s c : server_inv s -> server_inv (advance e s c).1.
Proof.
  assert (forall s l, Forall quiet_action l -> server_inv s -> server_inv (logged l s)) as Hlog
    by (intros s0 l Hl Hi; by eapply (server_inv_same s0 _ l)).
  intros Hi. destruct c as [|cfg|cfg addr cached|cfg addr cached svc|n svc locks|cfg addr cached svc| |cfg| |err];
    cbn [advance]; try done.
  - destruct (s_rsvc s); [done|]. by destruct (getAddr e cfg) as [|[]].
  - apply Hlog; [by repeat constructor|done].
  - pose proof (register_locked_inv e cfg addr cached svc s Hi) as Hr. by destruct (register_locked _ _ _ _ _ _).
  - destruct (getAddr e cfg) as [|[]]; [done|]. apply Hlog; [by repeat constructor|done].
  - by apply deregister_locked_inv.
Qed.

(** ** Every history

    A server and the calls of [Register] and [Deregister] that were made: by [Start],
    by the loop that keeps it registered, on [Stop], and by anyone else. In between,
    [Start] and [Stop] set the address and the flag, and options, handlers and
    subscribers change. *)
Record world := mkWorld { w_server : rpcServer; w_calls : list call }.

Definition called (c : call) : Prop := c = RBegin \/ c = DBegin.

Inductive wstep (w : world) : world -> Prop :=
| w_call c : called c -> wstep w (mkWorld (w_server w) (w_calls w ++ [c]))
| w_advance i c e s' c' : w_calls w !! i = Some c -> advance e (w_server w) c = (s', c') ->
    wstep w (mkWorld s' (<[i := c']> (w_calls w)))
| w_address a : wstep w (mkWorld (set_address a (w_server w)) (w_calls w))
| w_started b : wstep w (mkWorld (set_started b (w_server w)) (w_calls w))
| w_Init cfg : wstep w (mkWorld (Init cfg (w_server w)) (w_calls w))
| w_Handle impl h : wstep w (mkWorld (server_Handle impl h (w_server w)).1 (w_calls w))
| w_Subscribe k sb : wstep w (mkWorld (server_Subscribe k sb (w_server w)).1 (w_calls w)).

(** [NewRPCServer]: nothing is registered, held or called yet. *)
Definition fresh (s : rpcServer) : Prop :=
  s_subscribers s = ∅ /\ s_subscriber s = None /\ s_registered s = false /\ s_log s = [].

Lemma wstep_inv w w' : server_inv (w_server w) -> wstep w w' -> server_inv (w_server w').
Proof.
  assert (forall s s', s_log s' = s_log s -> s_subscribers s' = s_subscribers s -> s_subscriber s' = s_subscriber s ->
    s_next s' = s_next s -> s_registered s' = s_registered s -> server_inv s -> server_inv s') as Hsame.
  { intros s s' Hl Hs1 Hs2 Hn Hr. apply (server_inv_same s s' []); try done; [by rewrite app_nil_r|congruence]. }
  intros Hi Hs. destruct Hs as [c _|i c e s' c' _ Ha|a|b|cfg|impl h|k sb]; cbn [w_server]; try done.
  - pose proof (advance_inv e (w_server w) c Hi) as H'. by rewrite Ha in H'.
  - unfold server_Handle. destruct (Handle _ _ _ h _) as [rt [er|]]; [done|]. by apply (Hsame (w_server w)).
  - unfold server_Subscribe. destruct (sb_handlers sb); [done|]. destruct (validateSubscriber _ _ sb); [done|].
    destruct Hi as [Hc Hu]. split; cbn [fst s_log s_next s_registered upd]; unfold held; cbn [s_subscriber s_subscribers upd].
    + eapply core_perm; [symmetry; apply holders_insert|]. cbn. apply core_drop; [apply forgets|].
      eapply core_perm; [apply holders_handles|done].
    + intros Hr%Hu. apply Permutation_nil_r. rewrite holders_insert. cbn.
      pose proof (holders_handles (w_server w) k) as Hh. rewrite Hr in Hh. apply Permutation_nil_l in Hh. by destruct (proj1 (app_nil _ _) (eq_sym Hh)) as [_ ->].
Qed.

(** C14: a server's broker subscriptions, whatever the registry and the broker answer and
    however calls of [Register] and [Deregister], in their sections, and changes of
    options, handlers and subscribers come between each other. The subscriptions that
    were made and not ended are those the server holds the handle of, each once, and
    those it gave up: the broker failed to end them, and their handle was dropped all
    the same, or their handle was replaced, as happens when a subscriber that is
    subscribed is added again or two registrations overlap. So where nothing was given
    up, the live subscriptions are those that are held. An unregistered server holds
    none. *)
Theorem subscriptions_inv s w :
  fresh s -> rtc wstep (mkWorld s []) w ->
  let t := w_server w in
  NoDup (held t) /\
  (forall i, i ∈ live (s_log t) <-> i ∈ held t \/ i ∈ gone (s_log t)) /\
  (forall i, i ∈ held t -> i ∉ gone (s_log t)) /\
  (gone (s_log t) = ∅ -> live (s_log t) = list_to_set (held t)) /\
  (s_registered t = false -> held t = []).
Proof.
  intros (H1 & H2 & H3 & H4) Hr.
  assert (server_inv (w_server w)) as [[Hnd Hl Ha _] Hu].
  { remember (mkWorld s []) as w0 eqn:Hw. assert (server_inv (w_server w0)) as Hi.
    { subst w0. assert (held s = []) as Hh by (unfold held; by rewrite H1, H2).
      split; cbn; rewrite ?Hh; [|done]. split; rewrite ?H4; [constructor|..]; set_solver. }
    clear Hw. induction Hr as [|w1 w2 w3 Hst _ IH]; [done|]. apply IH. by eapply wstep_inv. }
  split_and!; [done|done|done| |done]. intros Hg. apply set_eq. intros i. rewrite Hl, Hg. set_solver.
Qed.

Lemma Register_pair e s : Register e s = ((Register e s).1, (Register e s).2).
Proof. by destruct (Register e s). Qed.

Lemma Deregister_pair e s : Deregister e s = ((Deregister e s).1, (Deregister e s).2).
Proof. by destruct (Deregister e s). Qed.

(** ** What the loop and the retries do *)

(** The lock section of [Register] registers, adds to the log, and keeps what it
    should. *)
Lemma register_locked_registered e cfg addr cached svc s :
  s_registered (register_locked e cfg addr cached svc s).1 = true /\
  exists l, s_log (register_locked e cfg addr cached svc s).1 = s_log s ++ l.
Proof.
  set (P := fun t : rpcServer => s_registered t = true /\ exists l, s_log t = s_log s ++ l).
  assert (forall t t' l, P t -> s_registered t' = s_registered t -> s_log t' = s_log t ++ l -> P t') as Hadd.
  { intros t t' l [Hr [l0 Hl]] Hr' Hl'. split; [congruence|]. exists (l0 ++ l). by rewrite Hl', Hl, app_assoc. }
  change (P (register_locked e cfg addr cached svc s).1). unfold register_locked. set (s2 := upd addr _ _ true _ _ _ _ _).
  assert (P s2) as H2 by (split; [done|exists []; by rewrite app_nil_r]).
  assert (P (subscribeServer e cfg s2).1) as H3.
  { unfold subscribeServer. destruct (negb _); [done|]. destruct (e_subscribe e _); [done|]. by eapply Hadd; [exact H2|..]. }
  destruct (subscribeServer e cfg s2) as [s3 [er|]]; [done|]. cbn [fst] in H3. unfold reSubscribe.
  assert (P (foldl (resubscribe_one e) (s3, None) (map_range (e_order e) (s_subscribers s3))).1) as H4.
  { apply (fold_counted _ (fun acc => P acc.1)); [|done]. intros [t [er|]] [k [sb ids]]; cbn [fst resubscribe_one]; [done|].
    intros Ht. destruct (e_subscribe e _); [done|]. by eapply Hadd; [exact Ht|..]. }
  by destruct (foldl _ _ _).
Qed.

(** [Register] of a server that has no cached service data. *)
Lemma Register_registered e s s' :
  e_register e 0 = None -> (s_rsvc s = None -> exists p, getAddr e s = inr p) ->
  (Register e s).1 = s' -> s_rsvc s = None -> s_registered s' = true.
Proof.
  intros Hreg Haddr <- Hr. unfold Register. rewrite Hr. destruct (Haddr Hr) as [[addr cached] ->].
  unfold regFunc. rewrite Hreg. destruct (s_registered s) eqn:Hreg0; [done|]. apply register_locked_registered.
Qed.

(** A failing register check does not keep a service out of the registry. When
    the check fails on a registered service, the loop deregisters it and, in the
    same round, registers it again: as soon as the registry accepts, the service is
    registered at the end of a round whose check failed. *)
Theorem failed_check_reregisters err e1 e2 s addr p :
  s_registered s = true -> getAddr e1 s = inr addr -> e_deregister e1 = None ->
  getAddr e2 (Deregister e1 s).1 = inr p -> e_register e2 0 = None ->
  let s' := registrar_tick (Some err) e1 e2 s in
  s_registered s' = true /\ exists svc1 svc2, ADeregister svc1 ∈ s_log s' /\ ARegister svc2 ∈ s_log s'.
Proof.
  intros Hreg Haddr Hder Haddr2 Hreg2. cbv zeta. unfold registrar_tick. rewrite Hreg.
  destruct addr as [a0 c0]. unfold Deregister in *. rewrite Haddr, Hder in *. cbn [fst] in *.
  set (svc1 := node_only a0 s) in *. set (s1 := deregister_locked e1 (logged [ADeregister svc1] s)) in *.
  assert (s_rsvc s1 = None /\ exists l, s_log s1 = s_log s ++ ADeregister svc1 :: l) as (Hr & l & Hl).
  { unfold s1, deregister_locked. cbn [s_registered upd logged]. rewrite Hreg. cbn [negb].
    apply (fold_counted (unsubscribe_one e1)
      (fun t => s_rsvc t = None /\ exists l, s_log t = s_log s ++ ADeregister svc1 :: l)).
    - intros t [k [sb ids]] (Ht & l & Hl). split; [done|]. cbn. rewrite Hl. eexists. by rewrite <- app_assoc.
    - split; [done|]. cbn. rewrite <- app_assoc. by eexists. }
  split; [by eapply Register_registered; [exact Hreg2|intros _; by exists p|done|]|].
  exists svc1. unfold Register. rewrite Hr, Haddr2. destruct p as [a cached]. unfold regFunc. rewrite Hreg2.
  set (svc2 := service_data e2 a s1 s1). exists svc2.
  assert (forall s2 l2, s_log s2 = s_log (logged [ARegister svc2] s1) ++ l2 ->
    ADeregister svc1 ∈ s_log s2 /\ ARegister svc2 ∈ s_log s2) as Hin.
  { intros s2 l2 ->. cbn. rewrite Hl. set_solver. }
  destruct (s_registered s1); [by apply (Hin _ []); rewrite app_nil_r|].
  destruct (register_locked_registered e2 s1 a cached svc2 (logged [ARegister svc2] s1)) as [_ [l2 Hl2]]. by eapply Hin.
Qed.

(** A subscription that failed is never made up for. When registration got as
    far as the registry and then a broker subscription failed, the service counts
    as registered, and however often [Register] is called again, it subscribes to
    nothing. *)
Theorem failed_subscription_sticks e s s1 err e' :
  s_registered s = false -> s_rsvc s = None -> e_register e 0 = None -> (exists p, getAddr e s = inr p) ->
  Register e s = (s1, Some err) ->
  s_registered s1 = true /\
  s_subscribers (Register e' s1).1 = s_subscribers s1 /\ s_subscriber (Register e' s1).1 = s_subscriber s1 /\
  s_registered (Register e' s1).1 = true.
Proof.
  intros Hreg Hrsvc Hok Haddr HR.
  assert (s_registered s1 = true) as Hr1.
  { eapply (Register_registered e s); [done|done|by rewrite HR|done]. }
  assert (forall svc s2 er, regFunc e' svc s1 = (s2, er) ->
    s_subscribers s2 = s_subscribers s1 /\ s_subscriber s2 = s_subscriber s1 /\ s_registered s2 = true) as Hf.
  { intros svc s2 er Hr. apply regFunc_same in Hr as (l & -> & _). done. }
  split; [done|]. unfold Register. destruct (s_rsvc s1) as [rsvc|].
  - destruct (regFunc e' rsvc s1) eqn:Hr. by apply Hf in Hr.
  - destruct (getAddr e' s1) as [er|[a c]]; [done|].
    destruct (regFunc e' _ s1) as [s2 er] eqn:Hr. apply Hf in Hr. destruct er; [done|]. by rewrite Hr1.
Qed.

(** ** Registering again *)

(** What the handlers of a subscriber contribute to a topic. *)
Definition handlers_for (topic : string) (sb : subscriber) : list (subscriber * sub_handler) :=
  if String.eqb (sb_topic sb) topic then map (pair sb) (sb_handlers sb) else [].

Definition calls_of (topic : string) (subs : gmap nat (subscriber * list nat)) : list (subscriber * sub_handler) :=
  concat (map (fun e => handlers_for topic e.2.1) (map_to_list subs)).

Definition subs_valid (s : rpcServer) : Prop :=
  forall k en, s_subscribers s !! k = Some en ->
    sb_handlers en.1 <> [] /\ validateSubscriber types typeOfError en.1 = None.

Lemma Subscribe_handlers sb r topic :
  sb_handlers sb <> [] -> validateSubscriber types typeOfError sb = None ->
  message_handlers topic (Subscribe types typeOfError sb r).1 =
  message_handlers topic r ++ handlers_for topic sb.
Proof.
  intros Hh Hv. unfold Subscribe. destruct (sb_handlers sb) eqn:Hhs; [done|]. rewrite Hv.
  unfold message_handlers, handlers_for. cbn [fst subscribers].
  destruct (String.eqb_spec (sb_topic sb) topic) as [<-|Ht].
  - rewrite lookup_insert_eq. cbn. rewrite map_app, concat_app. cbn. by rewrite app_nil_r.
  - rewrite lookup_insert_ne by done. by rewrite app_nil_r.
Qed.

Lemma resubscribe_stuck e l s err : foldl (resubscribe_one e) (s, Some err) l = (s, Some err).
Proof. by induction l. Qed.

Lemma resubscribe_handlers e topic l s s' :
  (forall k en, (k, en) ∈ l -> sb_handlers en.1 <> [] /\ validateSubscriber types typeOfError en.1 = None) ->
  (forall k en, (k, en) ∈ l -> exists ids, s_subscribers s !! k = Some (en.1, ids)) ->
  foldl (resubscribe_one e) (s, None) l = (s', None) ->
  message_handlers topic (s_router s') =
    message_handlers topic (s_router s) ++ concat (map (fun e => handlers_for topic e.2.1) l) /\
  fst <$> s_subscribers s' = fst <$> s_subscribers s /\ s_registered s' = s_registered s.
Proof.
  revert s. induction l as [|[k [sb ids]] l IH]; intros s Hv Hk; cbn [foldl resubscribe_one].
  { intros [= <-]. cbn. by rewrite app_nil_r. }
  destruct (e_subscribe e (sb_topic sb)) as [er|]; [by rewrite resubscribe_stuck|].
  intros HF. destruct (Hv k (sb, ids) ltac:(left)) as [Hh Hval]. cbn in Hh, Hval.
  destruct (Hk k (sb, ids) ltac:(left)) as [ids0 Hk0]. cbn in Hk0.
  apply IH in HF as (Hm & Hsubs & Hr); cycle 1.
  - intros k' en Hin. apply (Hv k'). by right.
  - intros k' en Hin. cbn. destruct (Hk k' en ltac:(by right)) as [ids' Hk'].
    destruct (decide (k' = k)) as [->|Hne].
    + rewrite lookup_insert_eq. rewrite Hk0 in Hk'. injection Hk' as <- _. by eexists.
    + rewrite lookup_insert_ne by done. by exists ids'.
  - cbn in Hm, Hsubs, Hr. split_and!; [|rewrite Hsubs|done].
    + rewrite Hm, Subscribe_handlers by done. cbn. by rewrite app_assoc.
    + rewrite fmap_insert. cbn. apply insert_id. by rewrite lookup_fmap, Hk0.
Qed.

Lemma calls_of_fst topic m m' :
  (fst <$> m : gmap nat subscriber) = fst <$> m' -> calls_of topic m ≡ₚ calls_of topic m'.
Proof.
  intros Heq. unfold calls_of.
  assert (forall m : gmap nat (subscriber * list nat),
    map (fun e => handlers_for topic e.2.1) (map_to_list m) =
    map (fun e => handlers_for topic e.2) (map_to_list (fst <$> m))) as Hm.
  { intros m0. rewrite map_to_list_fmap, map_map. by apply map_ext. }
  by rewrite !Hm, Heq.
Qed.

Lemma concat_map_perm {A B} (f : A -> list B) l l' :
  l ≡ₚ l' -> concat (map f l) ≡ₚ concat (map f l').
Proof.
  induction 1 as [|x l l' _ IH|x y l|l1 l2 l3 _ IH1 _ IH2]; cbn.
  - done.
  - by rewrite IH.
  - rewrite !app_assoc. by rewrite (Permutation_app_comm (f y)).
  - by rewrite IH1.
Qed.

(** A registration from scratch that succeeds adds every subscriber to the router. *)
Lemma Register_adds e s s' topic :
  s_registered s = false -> s_rsvc s = None -> subs_valid s -> Register e s = (s', None) ->
  message_handlers topic (s_router s') ≡ₚ message_handlers topic (s_router s) ++ calls_of topic (s_subscribers s) /\
  fst <$> s_subscribers s' = fst <$> s_subscribers s /\ s_registered s' = true.
Proof.
  intros Hreg Hr Hv. unfold Register. rewrite Hr. destruct (getAddr e s) as [er|[addr cached]]; [done|].
  destruct (regFunc e _ s) as [s1 er] eqn:Hrf. apply regFunc_same in Hrf as (l & -> & _).
  destruct er as [er|]; [done|]. rewrite Hreg. unfold register_locked. set (s2 := upd addr _ _ true _ _ _ _ _).
  assert (forall s3, subscribeServer e s s2 = (s3, None) ->
    s_router s3 = s_router s /\ s_subscribers s3 = s_subscribers s /\ s_registered s3 = true) as Hss.
  { intros s3. unfold subscribeServer. destruct (negb _); [by intros [= <-]|].
    destruct (e_subscribe e _); [done|]. by intros [= <-]. }
  destruct (subscribeServer e s s2) as [s3 er]. destruct er as [er|]; [done|].
  destruct (Hss s3 eq_refl) as (Hrt & Hsubs & Hreg3). unfold reSubscribe.
  destruct (foldl _ _ _) as [s4 er] eqn:HF. intros [= <- Her]. destruct er; [done|].
  apply (resubscribe_handlers e topic) in HF as (Hm & Hsubs4 & Hreg4).
  - rewrite Hm, Hrt. rewrite Hsubs4, Hsubs, Hreg4. split_and!; [|done|done].
    f_equiv. unfold calls_of. apply concat_map_perm. by apply map_range_perm.
  - intros k en Hin%elem_of_map_range. rewrite Hsubs in Hin. by apply (Hv k).
  - intros k [sb ids] Hin%elem_of_map_range. by exists ids.
Qed.

(** What deregistering a registered server leaves. *)
Lemma Deregister_rest e s s' :
  Deregister e s = (s', None) -> s_registered s = true ->
  s_registered s' = false /\ s_router s' = s_router s /\ s_rsvc s' = None /\
  s_subscribers s' = (fun en => (en.1, [])) <$> s_subscribers s.
Proof.
  unfold Deregister. destruct (getAddr e s) as [er|[addr c]]; [done|]. destruct (e_deregister e); [done|].
  intros [= <-] Hreg. unfold deregister_locked. cbn [s_registered upd logged]. rewrite Hreg. cbn [negb].
  set (s2 := upd _ _ None false None _ _ _ _). destruct (unsubscribe_rest e s2) as (Hr & Hrt & Hv & Hs & _).
  split_and!; [exact Hr|exact Hrt|exact Hv|exact Hs].
Qed.

(** A service that is registered, deregistered and registered again handles
    every event twice. Registration adds the server's subscribers to its router and
    deregistration does not take them out: after the second registration the
    router's handlers of a topic are those it had, and each handler of each of the
    server's subscribers two times. *)
Theorem reregistered_twice e s s1 s2 s3 topic :
  s_registered s = false -> s_rsvc s = None -> subs_valid s ->
  Register e s = (s1, None) -> Deregister e s1 = (s2, None) -> Register e s2 = (s3, None) ->
  message_handlers topic (s_router s3) ≡ₚ
    message_handlers topic (s_router s) ++ calls_of topic (s_subscribers s) ++ calls_of topic (s_subscribers s).
Proof.
  intros Hreg Hr Hv HR1 HD HR2.
  destruct (Register_adds e s s1 topic Hreg Hr Hv HR1) as (Hm1 & Hs1 & Hreg1).
  destruct (Deregister_rest _ _ _ HD Hreg1) as (Hreg2 & Hrt2 & Hr2 & Hs2).
  assert (fst <$> s_subscribers s2 = fst <$> s_subscribers s) as Hs2'.
  { rewrite Hs2, <- Hs1, <- map_fmap_compose. by apply map_fmap_ext. }
  assert (subs_valid s2) as Hv2.
  { intros k [sb ids] Hk. assert ((fst <$> s_subscribers s2) !! k = Some sb) as Hk2 by by rewrite lookup_fmap, Hk.
    rewrite Hs2', lookup_fmap in Hk2. apply fmap_Some in Hk2 as (en & Hen & ->). exact (Hv k en Hen). }
  destruct (Register_adds e s2 s3 topic Hreg2 Hr2 Hv2 HR2) as (Hm3 & _ & _).
  rewrite Hm3, Hrt2, Hm1, <- app_assoc. do 2 f_equiv. by apply calls_of_fst.
Qed.
End server.

(** ** Concrete runs *)
Definition host_and_port (s : string) : string + string * string :=
  match split_char ":" s with [host; p] => inr (host, p) | _ => inl "missing port in address" end.

#[local] Instance ex_Net : Net := {| SplitHostPort := host_and_port; ParseIP := fun s => negb (String.eqb s "") |}.

Definition ex_Register := Register ex_types ex_error.
Definition ex_tick := registrar_tick ex_types ex_error.

(** A registry and a broker that accept everything, and a broker that does not. *)
Definition all_well : env := mkEnv (inr []) (fun _ => None) None (fun _ => None) (fun _ => None) order_id.
Definition no_broker : env := mkEnv (inr []) (fun _ => None) None (fun _ => Some "no broker") (fun _ => None) order_id.

Definition greeter_server : rpcServer :=
  mkServer "greeter" "1" "v1" "127.0.0.1:8080" "" ∅ ∅ false {["Greeter" := greeter]} {[ 7%nat := (on_hello, []) ]}
    None false false None newRpcRouter 0 [].

Lemma subs_valid_ex s : s_subscribers s = {[ 7%nat := (on_hello, []) ]} -> subs_valid ex_types ex_error s.
Proof. intros Hs k en. rewrite Hs. intros [<- <-]%lookup_singleton_Some. by split. Qed.

(** Two registrations that overlap: both find the server unregistered. *)
Definition bare_server : rpcServer :=
  mkServer "greeter" "1" "v1" "127.0.0.1:8080" "" ∅ ∅ false ∅ ∅ None false false None newRpcRouter 0 [].

Definition ex_turn (w : world) (i : nat) : world :=
  match w_calls w !! i with
  | Some c => let '(s, c') := advance ex_types ex_error all_well (w_server w) c in mkWorld s (<[i := c']> (w_calls w))
  | None => w
  end.

Definition overlapping : world :=
  foldl ex_turn
    (mkWorld (server_Subscribe ex_types ex_error 7 on_hello bare_server).1 [RBegin; RBegin])
    [0; 0; 0; 0; 1; 1; 1; 1; 0; 1; 0; 1].

Lemma ex_turns_reachable l w : rtc (wstep ex_types ex_error) w (foldl ex_turn w l).
Proof.
  revert w. induction l as [|i l IH]; intros w; cbn; [apply rtc_refl|].
  transitivity (ex_turn w i); [|apply IH]. unfold ex_turn. destruct (w_calls w !! i) as [c|] eqn:Hc; [|apply rtc_refl].
  destruct (advance _ _ _ _ c) as [s' c'] eqn:Ha. apply rtc_once. by eapply w_advance.
Qed.

Lemma overlapping_reachable : rtc (wstep ex_types ex_error) (mkWorld bare_server []) overlapping.
Proof.
  eapply rtc_l; [apply (w_Subscribe _ _ _ 7 on_hello)|]. eapply rtc_l; [apply (w_call _ _ _ RBegin); by left|].
  eapply rtc_l; [apply (w_call _ _ _ RBegin); by left|]. apply ex_turns_reachable.
Qed.

(** Each of the two subscribes. The server keeps the second subscription only; the
    first stays at the broker for good. *)
Example overlapping_registrations :
  w_calls overlapping = [Returned None; Returned None] /\
  held (w_server overlapping) = [1] /\ live (s_log (w_server overlapping)) = {[0; 1]}.
Proof. split_and!; vm_compute; reflexivity. Qed.

Lemma subscriptions_inv_witness :
  let t := w_server overlapping in
  NoDup (held t) /\ (forall i, i ∈ live (s_log t) <-> i ∈ held t \/ i ∈ gone (s_log t)) /\
  (s_registered t = false -> held t = []).
Proof.
  destruct (subscriptions_inv ex_types ex_error bare_server overlapping) as (Hn & Hl & _ & _ & Hu);
    [by split_and!|exact overlapping_reachable|exact (conj Hn (conj Hl Hu))].
Defined.

Lemma failed_check_reregisters_witness :
  let s := (ex_Register all_well greeter_server).1 in
  s_registered (ex_tick (Some "unhealthy") all_well all_well s) = true.
Proof.
  apply (failed_check_reregisters ex_types ex_error "unhealthy" all_well all_well
    (ex_Register all_well greeter_server).1 ("127.0.0.1:8080", true) ("127.0.0.1:8080", true)).
  all: vm_compute; reflexivity.
Defined.

Lemma failed_subscription_sticks_witness :
  s_registered (ex_Register all_well (ex_Register no_broker greeter_server).1).1 = true /\
  s_log (ex_Register all_well (ex_Register no_broker greeter_server).1).1 !! 2 = None.
Proof.
  split; [|vm_compute; reflexivity].
  apply (failed_subscription_sticks ex_types ex_error no_broker greeter_server
    (ex_Register no_broker greeter_server).1 "failed to resubscribe: no broker" all_well).
  4: by exists ("127.0.0.1:8080", true).
  all: vm_compute; reflexivity.
Defined.

Lemma reregistered_twice_witness :
  let s1 := (ex_Register all_well greeter_server).1 in
  let s2 := (Deregister all_well s1).1 in
  let s3 := (ex_Register all_well s2).1 in
  length (message_handlers "hello" (s_router s3)) = 2.
Proof.
  cbv zeta. pose proof (reregistered_twice ex_types ex_error all_well greeter_server
    (ex_Register all_well greeter_server).1
    (Deregister all_well (ex_Register all_well greeter_server).1).1
    (ex_Register all_well (Deregister all_well (ex_Register all_well greeter_server).1).1).1 "hello") as H.
  rewrite H; [vm_compute; reflexivity|reflexivity|reflexivity|by apply subs_valid_ex|vm_compute; reflexivity..].
Defined.
