(* ===== verification/RpcConn.v ===== *)
(** * Serving a connection: [server/rpc_server.go], [rpc_events.go]

    [ServeConn] reads the messages of one connection and distributes them: events
    are handled at once and acknowledged, every other message goes to the pseudo
    socket of its stream or request, which is made, with two goroutines, when there
    is none. One goroutine serves the request, the other forwards what it answers
    to the connection. The loop and the goroutines are the rules of a step relation;
    the wrappers and the handlers are arguments. *)
From S2P Require Import Prelude GoStrings GoStrconv Socket RpcCodec RpcRouter.

(** [strconv.ParseUint(s, 10, 64)]; converting to a duration wraps. *)
Definition ParseUint (s : string) : option Z :=
  match digits s with
  | Some n => if (Z.of_N n <? 2 ^ 64)%Z then Some (Z.of_N n) else None
  | None => None
  end.

Definition hdr (m : tmsg) : gmap string string := default ∅ (t_Header m).

Definition HConnection : string := "Connection".
Definition HTimeout : string := "Timeout".
Definition eos : string := "EOS".

(** ** Events *)
Record rpcMessage := mkRpcMessage {
  rm_topic : string;
  rm_contentType : string;
  rm_codec : codec_kind;
  rm_header : gmap string string;
  rm_body : string;
}.

Section server.
Context (codecs : gmap string codec_kind).

(** The router that processes events: [opts.Router] inside the wrappers, the first
    of which is the outermost, or else the server's own router, which the wrappers
    do not see. *)
Definition event_router (own : rpcMessage -> option string) (router : option (rpcMessage -> option string))
    (wrappers : list ((rpcMessage -> option string) -> rpcMessage -> option string)) :
    rpcMessage -> option string :=
  match router with
  | Some handler => foldr (fun w h => w h) handler wrappers
  | None => own
  end.

(** The event's headers, which get a content type when they have none, and the error
    of the event. *)
Definition HandleEvent (process : rpcMessage -> option string) (m : tmsg) : tmsg * option string :=
  let h := hdr m in
  let ct := default "" (h !! HContentType) in
  let h := if String.eqb ct "" then <[HContentType := "application/protobuf"]> h else h in
  let ct := if String.eqb ct "" then "application/protobuf" else ct in
  let m := mkTmsg (Some h) (t_Body m) in
  match newCodec codecs ct with
  | None => (m, Some ("unsupported Content-Type: " +:+ ct))
  | Some k => (m, process (mkRpcMessage (theader m HMessage) ct k h (t_Body m)))
  end.

(** ** State *)

(** A session: its pseudo socket, by address, what its request handler is given, and
    which of its two goroutines still run. *)
Record session := mkSession {
  ss_sock : nat;
  ss_ctx : gmap string string;
  ss_timeout : option Z;
  ss_contentType : string;
  ss_request : tmsg;
  ss_stream : bool;
  ss_codec : codec_kind;
  ss_out : bool;
  ss_serving : bool;
}.

(** What a history records of an arrived message: an event was [Handled], any other
    message [Routed] to a socket, [Lost] because its socket was closed, or taken for
    the [Ended] mark of a stream that no socket is for. *)
Inductive event :=
| Arrived (m : tmsg)
| Handled (m : tmsg)
| Ended (m : tmsg)
| Lost (a : nat) (m : tmsg)
| Routed (a : nat) (m : tmsg)
| Taken (a : nat) (m : tmsg)
| Given (a : nat) (m : tmsg)
| Forwarded (a : nat) (m : tmsg)
| Dropped (a : nat) (m : tmsg)
| Replied (m : tmsg).

(** [stopped]: the loop was left; [finished]: its deferred function is through. *)
Record serving := mkServing {
  closeConn : bool;
  gerr : option string;
  socks : Pool tmsg;
  sessions : list session;
  stopped : bool;
  finished : bool;
  sock_closed : bool;
  log : list event;
}.

Definition new_conn : serving := mkServing false None (NewPool (Message:=tmsg)) [] false false false [].

Definition set_socks (p : Pool tmsg) (l : list event) (c : serving) : serving :=
  mkServing (closeConn c) (gerr c) p (sessions c) (stopped c) (finished c) (sock_closed c) (log c ++ l).

Definition set_sessions (ss : list session) (c : serving) : serving :=
  mkServing (closeConn c) (gerr c) (socks c) ss (stopped c) (finished c) (sock_closed c) (log c).

Definition set_gerr (e : string) (c : serving) : serving :=
  mkServing (closeConn c) (Some e) (socks c) (sessions c) (stopped c) (finished c) (sock_closed c) (log c).

Definition stop (c : serving) : serving :=
  mkServing (closeConn c) (gerr c) (socks c) (sessions c) true (finished c) (sock_closed c) (log c).

Definition close_sock (c : serving) : serving :=
  mkServing (closeConn c) (gerr c) (socks c) (sessions c) (stopped c) (finished c) true (log c).

Definition arrive (m : tmsg) (c : serving) : serving :=
  mkServing (String.eqb (theader m HConnection) "close" || closeConn c) (gerr c) (socks c) (sessions c)
    (stopped c) (finished c) (sock_closed c) (log c ++ [Arrived m]).

(** ** The loop *)
Context (Local Remote : string) (process : rpcMessage -> option string).

(** An event is answered with its own headers, and its error among them; if that
    cannot be sent, the loop is left. *)
Definition serve_event (m : tmsg) (send : option string) (c : serving) : serving :=
  let '(m', err) := HandleEvent process m in
  let h := match err with Some e => <[HError := e]> (hdr m') | None => hdr m' end in
  match send with
  | Some e => stop (set_gerr e (set_socks (socks c) [Handled m] c))
  | None => set_socks (socks c) [Handled m; Replied (mkTmsg (Some h) "")] c
  end.

(** The stream or request a message belongs to. *)
Definition is_stream (m : tmsg) : bool := negb (String.eqb (getHeader HStream (hdr m)) "").
Definition msg_id (m : tmsg) : string := if is_stream m then getHeader HStream (hdr m) else theader m HID.

Definition Get (i : string) (p : Pool tmsg) : Pool tmsg * nat * bool :=
  match get_read p i with Some a => (p, a, true) | None => get_write p i end.

Definition put (a : nat) (s : Socket tmsg) (p : Pool tmsg) : Pool tmsg := mkPool (pool p) (<[a := s]> (heap p)).

(** A message for a socket that exists. A full queue blocks the loop. *)
Definition serve_known (p : Pool tmsg) (a : nat) (m : tmsg) (c : serving) : list serving :=
  match heap p !! a with
  | None => []
  | Some s =>
      Accept s m ≫= fun '(r, s') =>
        match r with
        | Ret _ => [set_socks (put a s' p) [Routed a m] c]
        | _ => match Release p a with Ret p' => [set_socks p' [Lost a m] c] | _ => [] end
        end
  end.

Definition unsupported (ct : string) : tmsg :=
  mkTmsg (Some {[HContentType := "text/plain"]}) ("unsupported Content-Type: " +:+ ct).

(** The message is queued with the headers as they are when the session starts:
    the content type defaulted, the method or endpoint filled in. A message without
    any headers makes the loop panic, which leaves it. *)
Definition open_session (p : Pool tmsg) (a : nat) (m : tmsg) (send : option string) (c : serving) : list serving :=
  let s := SetRemote (SetLocal (New (msg_id m)) Local) Remote in
  match t_Header m with
  | None => [stop (set_socks (put a (set_recv s [m]) p) [Routed a m] c)]
  | Some h =>
      let '(h', kind) := server_codec codecs h in
      let m' := mkTmsg (Some h') (t_Body m) in
      let p := put a (set_recv s [m']) p in
      let ct := default "" (h' !! HContentType) in
      match kind with
      | None =>
          match Release p a with
          | Ret p' =>
              [match send with
               | Some e => set_gerr e (set_socks p' [Routed a m'] c)
               | None => set_socks p' [Routed a m'; Replied (unsupported ct)] c
               end]
          | _ => []
          end
      | Some k =>
          let to := theader m HTimeout in
          let ctx := <["Remote" := Remote]> (<["Local" := Local]> h) in
          let timeout := if String.eqb to "" then None else wrap64 <$> ParseUint to in
          let ss := mkSession a ctx timeout ct m' (is_stream m) k true true in
          [set_sessions (sessions c ++ [ss]) (set_socks p [Routed a m'] c)]
      end
  end.

Definition serve_message (m : tmsg) (send : option string) (c : serving) : list serving :=
  let '(p, a, ok) := Get (msg_id m) (socks c) in
  if ok then serve_known p a m c
  else if is_stream m && String.eqb (theader m HError) eos then
    match Release p a with Ret p' => [set_socks p' [Ended m] c] | _ => [] end
  else open_session p a m send c.

(** One round: what [Recv] returned, and how a [Send] on the connection ends. *)
Definition round (recv : string + tmsg) (send : option string) (c : serving) : list serving :=
  if closeConn c then [stop c]
  else
    match recv with
    | inl e => [stop (set_gerr e c)]
    | inr m =>
        let c := arrive m c in
        if negb (String.eqb (theader m HMessage) "") then [serve_event m send c]
        else serve_message m send c
    end.

(** ** The goroutines *)
Definition end_out (ss : session) : session :=
  mkSession (ss_sock ss) (ss_ctx ss) (ss_timeout ss) (ss_contentType ss) (ss_request ss) (ss_stream ss)
    (ss_codec ss) false (ss_serving ss).
Definition end_serving (ss : session) : session :=
  mkSession (ss_sock ss) (ss_ctx ss) (ss_timeout ss) (ss_contentType ss) (ss_request ss) (ss_stream ss)
    (ss_codec ss) (ss_out ss) false.

(** The forwarding goroutine of a grpc session closes the connection. *)
Definition leave_out (ss : session) (c : serving) : serving :=
  if decide (ss_codec ss = KGrpc) then close_sock c else c.

Definition idle (ss : session) : bool := negb (ss_out ss) && negb (ss_serving ss).

Inductive step (c : serving) : serving -> Prop :=
| step_round recv send c' : stopped c = false -> c' ∈ round recv send c -> step c c'
| step_take i ss s m s' : sessions c !! i = Some ss -> ss_serving ss = true ->
    heap (socks c) !! ss_sock ss = Some s -> (Ret m, s') ∈ Recv s ->
    step c (set_socks (put (ss_sock ss) s' (socks c)) [Taken (ss_sock ss) m] c)
| step_give i ss s m s' : sessions c !! i = Some ss -> ss_serving ss = true ->
    heap (socks c) !! ss_sock ss = Some s -> (Ret (), s') ∈ Send s m ->
    step c (set_socks (put (ss_sock ss) s' (socks c)) [Given (ss_sock ss) m] c)
| step_close i ss s s' : sessions c !! i = Some ss -> ss_serving ss = true ->
    heap (socks c) !! ss_sock ss = Some s -> Close s = Ret s' ->
    step c (set_socks (put (ss_sock ss) s' (socks c)) [] c)
| step_served i ss p' : sessions c !! i = Some ss -> ss_serving ss = true ->
    Release (socks c) (ss_sock ss) = Ret p' ->
    step c (set_sessions (<[i := end_serving ss]> (sessions c)) (set_socks p' [] c))
| step_forward i ss s m s' : sessions c !! i = Some ss -> ss_out ss = true ->
    heap (socks c) !! ss_sock ss = Some s -> (Ret m, s') ∈ Process s ->
    step c (set_socks (put (ss_sock ss) s' (socks c)) [Forwarded (ss_sock ss) m] c)
| step_forward_failed i ss s m s' p' : sessions c !! i = Some ss -> ss_out ss = true ->
    heap (socks c) !! ss_sock ss = Some s -> (Ret m, s') ∈ Process s ->
    Release (put (ss_sock ss) s' (socks c)) (ss_sock ss) = Ret p' ->
    step c (leave_out ss (set_sessions (<[i := end_out ss]> (sessions c))
                            (set_socks p' [Dropped (ss_sock ss) m] c)))
| step_out_end i ss s s' p' : sessions c !! i = Some ss -> ss_out ss = true ->
    heap (socks c) !! ss_sock ss = Some s -> (Fail EOF, s') ∈ Process s ->
    Release (socks c) (ss_sock ss) = Ret p' ->
    step c (leave_out ss (set_sessions (<[i := end_out ss]> (sessions c)) (set_socks p' [] c)))
| step_finish o p' : stopped c = true -> finished c = false ->
    (gerr c = None -> forallb idle (sessions c) = true) -> Pool_Close o (socks c) = Ret p' ->
    step c (mkServing (closeConn c) (gerr c) p' (sessions c) true true true (log c)).

Inductive reachable : serving -> Prop :=
| reach_new : reachable new_conn
| reach_step c c' : reachable c -> step c c' -> reachable c'.

(** ** What a history says *)
Definition at_sock (f : event -> option (nat * tmsg)) (a : nat) (l : list event) : list tmsg :=
  omap (fun e => match f e with Some (b, m) => if decide (b = a) then Some m else None | None => None end) l.

Definition routed := at_sock (fun e => match e with Routed a m => Some (a, m) | _ => None end).
Definition taken := at_sock (fun e => match e with Taken a m => Some (a, m) | _ => None end).
Definition given := at_sock (fun e => match e with Given a m => Some (a, m) | _ => None end).
Definition emitted :=
  at_sock (fun e => match e with Forwarded a m | Dropped a m => Some (a, m) | _ => None end).
Definition forwarded := at_sock (fun e => match e with Forwarded a m => Some (a, m) | _ => None end).

Definition arrivals (l : list event) : list tmsg := omap (fun e => match e with Arrived m => Some m | _ => None end) l.

(** What became of the arrivals. *)
Definition dealt (l : list event) : list tmsg :=
  omap (fun e => match e with Handled m | Ended m | Lost _ m | Routed _ m => Some m | _ => None end) l.

Definition closes (m : tmsg) : Prop := theader m HConnection = "close".

(** ** The sockets of a history *)
Definition view (s : Socket tmsg) : list tmsg * list tmsg * string := (recv s, send s, id s).

(** What was routed to a socket was taken from it or is queued, in order, likewise
    for what it was given to send, and all it got is for it. *)
Definition sock_ok (v : option (list tmsg * list tmsg * string)) (a : nat) (l : list event) : Prop :=
  routed a l = taken a l ++ default [] ((fun v => v.1.1) <$> v) /\
  given a l = emitted a l ++ default [] ((fun v => v.1.2) <$> v) /\
  forall m, m ∈ routed a l -> exists r, v = Some r /\ msg_id m = r.2.

Definition inv (p : Pool tmsg) (l : list event) : Prop :=
  pool_ok p /\ forall a, sock_ok (view <$> heap p !! a) a l.

(** What one operation does to a socket, and what it logs. *)
Inductive moves (a : nat) (s : Socket tmsg) : list event -> Socket tmsg -> Prop :=
| mv_route m : msg_id m = id s -> moves a s [Routed a m] (set_recv s (recv s ++ [m]))
| mv_take m q : recv s = m :: q -> moves a s [Taken a m] (set_recv s q)
| mv_give m : moves a s [Given a m] (set_send s (send s ++ [m]))
| mv_forward m q : send s = m :: q -> moves a s [Forwarded a m] (set_send s q)
| mv_drop m q : send s = m :: q -> moves a s [Dropped a m] (set_send s q).

Lemma at_sock_app f a l l' : at_sock f a (l ++ l') = at_sock f a l ++ at_sock f a l'.
Proof. apply omap_app. Qed.

Lemma moves_ok a s es s' l :
  sock_ok (Some (view s)) a l -> moves a s es s' -> sock_ok (Some (view s')) a (l ++ es).
Proof.
  unfold sock_ok, routed, taken, given, emitted. rewrite !at_sock_app. cbn. intros (Hr & Hg & Hid) Hm.
  destruct Hm as [m Hm|m q Hq|m|m q Hq|m q Hq]; cbn; rewrite decide_True by done; rewrite ?app_nil_r;
    (split_and!; [try done| |intros m' Hin; eexists; split; [done|]]); try done;
    try (by destruct (Hid m' Hin) as (r & [= <-] & ->)).
  - by rewrite Hr, <- app_assoc.
  - apply elem_of_app in Hin as [Hin|<-%list_elem_of_singleton]; [|done].
    by destruct (Hid m' Hin) as (r & [= <-] & ->).
  - by rewrite Hr, Hq, <- app_assoc.
  - by rewrite Hg, <- app_assoc.
  - by rewrite Hg, Hq, <- app_assoc.
  - by rewrite Hg, Hq, <- app_assoc.
Qed.

Lemma moves_other a b s es s' l v : a <> b -> moves a s es s' -> sock_ok v b l -> sock_ok v b (l ++ es).
Proof.
  unfold sock_ok, routed, taken, given, emitted. rewrite !at_sock_app. intros Hab Hm.
  by destruct Hm; cbn; rewrite decide_False by done; rewrite !app_nil_r.
Qed.

Lemma moves_id a s es s' : moves a s es s' -> id s' = id s.
Proof. by destruct 1. Qed.

Lemma inv_moves p l a s es s1 s' :
  inv p l -> heap p !! a = Some s -> moves a s es s1 -> view s' = view s1 -> inv (put a s' p) (l ++ es).
Proof.
  intros [Hp Ha] Hs Hm Hv. split.
  - intros i b Hi. destruct (Hp i b Hi) as (t & Ht & <-). cbn.
    destruct (decide (a = b)) as [<-|Hab].
    + exists s'. rewrite list_lookup_insert_eq by (by eapply lookup_lt_Some). split; [done|].
      rewrite Hs in Ht. injection Ht as <-. apply moves_id in Hm. injection Hv as _ _ Hv. congruence.
    + exists t. by rewrite list_lookup_insert_ne.
  - intros b. cbn. specialize (Ha b). destruct (decide (a = b)) as [<-|Hab].
    + rewrite list_lookup_insert_eq by (by eapply lookup_lt_Some). rewrite Hs in Ha. cbn in *. rewrite Hv.
      by eapply moves_ok.
    + rewrite list_lookup_insert_ne by done. by eapply moves_other.
Qed.

Lemma closed_on_view P (h h' : list (Socket tmsg)) a :
  closed_on P h h' -> view <$> h' !! a = view <$> h !! a.
Proof.
  intros [Hlen H]. destruct (h !! a) as [s|] eqn:Hs.
  - destruct (H a s Hs) as (s' & -> & Hid & Hse & Hre & _). cbn. unfold view. congruence.
  - apply lookup_ge_None in Hs. by rewrite lookup_ge_None_2 by lia.
Qed.

Lemma inv_view (p p' : Pool tmsg) l :
  pool_ok p' -> (forall a, view <$> heap p' !! a = view <$> heap p !! a) -> inv p l -> inv p' l.
Proof. intros Hp Hv [_ Ha]. split; [done|]. intros a. rewrite Hv. apply Ha. Qed.

Lemma Release_cases (p : Pool tmsg) a p' :
  pool_ok p -> Release p a = Ret p' ->
  exists s, heap p !! a = Some s /\ pool_ok p' /\ closed_on (eq a) (heap p) (heap p').
Proof.
  intros Hp HR. destruct (heap p !! a) as [s|] eqn:Hs; [|by unfold Release in HR; rewrite Hs in HR].
  destruct (Release_spec p a s Hp Hs) as (q & Hq & Hok & _ & Hcl & _). rewrite HR in Hq. injection Hq as <-.
  by exists s.
Qed.

Lemma inv_release p l a p' : inv p l -> Release p a = Ret p' -> inv p' l.
Proof.
  intros Hi HR. destruct (Release_cases p a p' (proj1 Hi) HR) as (s & _ & Hok & Hcl).
  eapply inv_view; [done| |exact Hi]. intros b. by eapply closed_on_view.
Qed.

Lemma inv_get i p l p' a ok :
  inv p l -> Get i p = (p', a, ok) ->
  inv p' l /\ (ok = true -> p' = p /\ exists s, heap p !! a = Some s /\ id s = i) /\
  (ok = false -> heap p' = heap p ++ [New i] /\ a = length (heap p)).
Proof.
  intros Hi. unfold Get, get_read, get_write. destruct (pool p !! i) as [b|] eqn:Hb.
  - intros [= <- <- <-]. split_and!; [done| |done]. intros _. split; [done|].
    destruct (proj1 Hi i b Hb) as (s & ? & ?). by exists s.
  - intros [= <- <- <-]. split_and!; [|done|done]. split.
    + apply (get_write_ok p i _ (length (heap p)) false); [apply Hi|]. unfold get_write. by rewrite Hb.
    + intros a. cbn. destruct Hi as [_ Hi]. specialize (Hi a).
      destruct (decide (a = length (heap p))) as [->|Hne].
      * rewrite lookup_ge_None_2 in Hi by lia. rewrite lookup_app_r, Nat.sub_diag by lia. cbn.
        destruct Hi as (Hr & Hg & Hno). split_and!; [done|done|]. intros m Hm%Hno. by destruct Hm as (? & ? & _).
      * destruct (decide (a < length (heap p))) as [Hlt|Hge].
        -- by rewrite lookup_app_l.
        -- rewrite lookup_ge_None_2 in Hi by lia. by rewrite lookup_ge_None_2 by (rewrite length_app; cbn; lia).
Qed.

(** Events that concern no socket. *)
Lemma sockets_quiet p l es :
  Forall (fun e => match e with Arrived _ | Handled _ | Ended _ | Lost _ _ | Replied _ => True | _ => False end) es -> inv p l -> inv p (l ++ es).
Proof.
  intros Hes [Hp Ha]. split; [done|]. intros a. specialize (Ha a). unfold sock_ok, routed, taken, given, emitted in *.
  rewrite !at_sock_app. assert (forall f, (forall b m, f (Arrived m) = None /\ f (Handled m) = None /\ f (Ended m) = None /\
    f (Lost b m) = None /\ f (Replied m) = None) -> at_sock f a es = []) as Hnil.
  { intros f Hf. induction Hes as [|e es He _ IH]; [done|]. cbn.
    destruct e as [m|m|m|b m| | | | | |m]; try done; destruct (Hf 0 m) as (Hf1 & Hf2 & Hf3 & Hf4 & Hf5);
      [rewrite Hf1|rewrite Hf2|rewrite Hf3|destruct (Hf b m) as (_ & _ & _ & -> & _)|rewrite Hf5]; exact IH. }
  by rewrite !Hnil, !app_nil_r.
Qed.

(** ** Every step keeps the sockets in order *)
Definition conn_ok (c : serving) : Prop := inv (socks c) (log c).

Lemma setup_keeps h k :
  k <> HContentType -> k <> HMethod -> k <> HEndpoint -> (server_codec codecs h).1 !! k = h !! k.
Proof.
  intros H1 H2 H3. unfold server_codec, server_setupProtocol.
  repeat (case_match; simplify_eq/=); rewrite ?lookup_insert_ne by done; done.
Qed.

Lemma prepared_id m h h' kind :
  t_Header m = Some h -> server_codec codecs h = (h', kind) -> msg_id (mkTmsg (Some h') (t_Body m)) = msg_id m.
Proof.
  intros Hh Hc. assert (forall k, k <> HContentType -> k <> HMethod -> k <> HEndpoint -> h' !! k = h !! k) as Hk.
  { intros k ? ? ?. rewrite <- (setup_keeps h) by done. by rewrite Hc. }
  unfold msg_id, is_stream, theader, hdr, getHeader. cbn. rewrite Hh. cbn. by rewrite !Hk.
Qed.

Lemma Release_put (p : Pool tmsg) a s p' l es s0 s1 :
  inv p l -> heap p !! a = Some s0 -> moves a s0 es s1 -> view s = view s1 ->
  Release (put a s p) a = Ret p' -> inv p' (l ++ es).
Proof. intros Hi Ha Hm Hv HR. eapply inv_release; [|exact HR]. by eapply inv_moves. Qed.

Lemma serve_message_ok m send c c' : conn_ok c -> c' ∈ serve_message m send c -> conn_ok c'.
Proof.
  unfold conn_ok, serve_message. intros Hi. destruct (Get (msg_id m) (socks c)) as [[p a] ok] eqn:HG.
  destruct (inv_get _ _ _ _ _ _ Hi HG) as (Hip & Hold & Hnew). destruct ok.
  - destruct (Hold eq_refl) as (-> & s & Hs & Hid). unfold serve_known. rewrite Hs.
    intros ([r s'] & Hc' & Hr)%list_elem_of_bind.
    apply Accept_cases in Hr as [(_ & -> & ->)|(_ & -> & ->)]; cbn in Hc'.
    + apply list_elem_of_singleton in Hc' as ->. cbn. by eapply inv_moves; [exact Hi| |by constructor|].
    + destruct (Release _ a) as [p'| |] eqn:HR; cbn in Hc'; [|by apply not_elem_of_nil in Hc'..].
      apply list_elem_of_singleton in Hc' as ->. cbn. apply sockets_quiet; [by repeat constructor|by eapply inv_release].
  - destruct (Hnew eq_refl) as [Hheap ->]. destruct (is_stream m && _).
    { destruct (Release p _) as [p'| |] eqn:HR; cbn; [|by intros ?%not_elem_of_nil..].
      intros ->%list_elem_of_singleton. cbn. apply sockets_quiet; [by repeat constructor|by eapply inv_release]. }
    assert (heap p !! length (heap (socks c)) = Some (New (msg_id m))) as Hs
      by (by rewrite Hheap, lookup_app_r, Nat.sub_diag by lia).
    unfold open_session. destruct (t_Header m) as [h|] eqn:Hh.
    + destruct (server_codec codecs h) as [h' kind] eqn:Hc. pose proof (prepared_id m h h' kind Hh Hc) as Hid.
      destruct kind as [k|].
      * intros ->%list_elem_of_singleton. cbn. by eapply inv_moves; [exact Hip|exact Hs|by constructor|].
      * destruct (Release _ _) as [p'| |] eqn:HR; cbn; [|by intros ?%not_elem_of_nil..].
        intros ->%list_elem_of_singleton. eapply Release_put in HR; [|exact Hip|exact Hs|by constructor|done].
        destruct send; cbn; [exact HR|]. 
        match goal with |- inv _ (_ ++ [?x; ?y]) => change [x; y] with ([x] ++ [y]) end. rewrite app_assoc.
        apply sockets_quiet; [by repeat constructor|exact HR].
    + intros ->%list_elem_of_singleton. cbn. by eapply inv_moves; [exact Hip|exact Hs|by constructor|].
Qed.

Lemma round_ok recv send c c' : conn_ok c -> c' ∈ round recv send c -> conn_ok c'.
Proof.
  unfold round. intros Hi. destruct (closeConn c); [by intros ->%list_elem_of_singleton|].
  destruct recv as [e|m]; [by intros ->%list_elem_of_singleton|].
  assert (conn_ok (arrive m c)) as Hi' by (apply sockets_quiet; [by repeat constructor|exact Hi]).
  destruct (negb _); [|by apply serve_message_ok].
  intros ->%list_elem_of_singleton. unfold serve_event. destruct (HandleEvent process m) as [m' err].
  destruct send; (apply sockets_quiet; [by repeat constructor|exact Hi']).
Qed.

(** A socket that was released is closed. *)
Lemma Release_closed (p : Pool tmsg) a p' :
  pool_ok p -> Release p a = Ret p' -> exists s', heap p' !! a = Some s' /\ closed s' = true.
Proof.
  intros Hp HR. destruct (Release_cases p a p' Hp HR) as (s & Hs & _ & _ & Hcl).
  destruct (Hcl a s Hs) as (s' & ? & _ & _ & _ & Hc & _). exists s'. auto.
Qed.

(** Closing a socket in place. *)
Lemma close_put (p : Pool tmsg) a s s' :
  heap p !! a = Some s -> Close s = Ret s' ->
  closed_on (eq a) (heap p) (heap (put a s' p)) /\ pool (put a s' p) = pool p.
Proof.
  intros Hs Hc. destruct (close_at_ok p a s Hs) as (p' & Hp & _ & Hcl). unfold close_at in Hp.
  rewrite Hs, Hc in Hp. injection Hp as <-. by split.
Qed.

Lemma leave_out_same ss c : socks (leave_out ss c) = socks c /\ log (leave_out ss c) = log c.
Proof. unfold leave_out. by case_decide. Qed.

Lemma conn_step_ok c c' : conn_ok c -> step c c' -> conn_ok c'.
Proof.
  intros Hi Hs. destruct Hs as [rc sd c' _ Hin|i ss s m s' _ _ Hs Hr|i ss s m s' _ _ Hs Hr|i ss s s' _ _ Hs Hr
    |i ss p' _ _ HR|i ss s m s' _ _ Hs Hr|i ss s m s' p' _ _ Hs Hr HR|i ss s s' p' _ _ Hs Hr HR|o p' _ _ _ HP].
  - by eapply round_ok.
  - apply Recv_cases in Hr as [(m' & q & Hq & [= <-] & ->)|(_ & ? & _)]; [|done].
    by eapply inv_moves; [exact Hi|exact Hs|by constructor|].
  - apply Send_cases in Hr as [(_ & _ & ->)|(_ & ? & _)]; [|done].
    by eapply inv_moves; [exact Hi|exact Hs|by constructor|].
  - unfold conn_ok. cbn. rewrite app_nil_r. destruct (close_put _ _ _ _ Hs Hr) as [Hcl Hpool].
    eapply inv_view; [|intros b; by eapply closed_on_view|exact Hi]. eapply pool_ok_heap; [exact Hcl| |apply Hi]. done.
  - unfold conn_ok. cbn. rewrite app_nil_r. by eapply inv_release.
  - apply Process_cases in Hr as [(m' & q & Hq & [= <-] & ->)|(_ & _ & ? & _)]; [|done].
    by eapply inv_moves; [exact Hi|exact Hs|by constructor|].
  - apply Process_cases in Hr as [(m' & q & Hq & [= <-] & ->)|(_ & _ & ? & _)]; [|done].
    unfold conn_ok. destruct (leave_out_same ss (set_sessions (<[i:=end_out ss]> (sessions c))
      (set_socks p' [Dropped (ss_sock ss) m] c))) as [-> ->].
    cbn. by eapply Release_put; [exact Hi|exact Hs|by constructor| |exact HR].
  - unfold conn_ok. destruct (leave_out_same ss (set_sessions (<[i:=end_out ss]> (sessions c))
      (set_socks p' [] c))) as [-> ->]. cbn. rewrite app_nil_r. by eapply inv_release.
  - destruct (Pool_Close_spec o (socks c) (proj1 Hi)) as (q & Hq & Hnone & Hcl). rewrite HP in Hq. injection Hq as <-.
    eapply inv_view; [| |exact Hi]; cbn.
    + intros j b. by rewrite Hnone.
    + intros b. by eapply closed_on_view.
Qed.

(** Why a message did not reach a socket. *)
Definition fate_ok (h : list (Socket tmsg)) (e : event) : Prop :=
  match e with
  | Handled m => theader m HMessage <> ""
  | Ended m => is_stream m = true /\ theader m HError = eos
  | Lost a m => exists s, h !! a = Some s /\ closed s = true
  | _ => True
  end.

Definition keeps (h h' : list (Socket tmsg)) : Prop :=
  forall a s, h !! a = Some s -> exists s', h' !! a = Some s' /\ (closed s = true -> closed s' = true).

Lemma keeps_closed P h h' : closed_on P h h' -> keeps h h'.
Proof. intros [_ H] a s Hs. destruct (H a s Hs) as (s' & Hs' & _ & _ & _ & _ & Hc & _). by exists s'. Qed.

Lemma fate_keeps h h' e : keeps h h' -> fate_ok h e -> fate_ok h' e.
Proof. intros Hk. destruct e as [| | |a m| | | | | |]; try done. intros (s & Hs & Hc). destruct (Hk a s Hs) as (s' & ? & ?). exists s'. auto. Qed.

(** What a step adds to the history: at most one arrival, only while no message has
    asked to close the connection, and what became of it. *)
Definition adds (c c' : serving) (es : list event) : Prop :=
  log c' = log c ++ es /\ t_Body <$> dealt es = t_Body <$> arrivals es /\ Forall (fate_ok (heap (socks c'))) es /\
  ((arrivals es = [] /\ closeConn c' = closeConn c) \/
   exists m, arrivals es = [m] /\ closeConn c = false /\ (closeConn c' = true <-> closes m)).

Lemma adds_quiet c c' es :
  log c' = log c ++ es -> closeConn c' = closeConn c -> dealt es = [] -> arrivals es = [] ->
  Forall (fate_ok (heap (socks c'))) es -> adds c c' es.
Proof. intros Hl Hc Hr Ha Hf. split_and!; [done|by rewrite Hr, Ha|done|by left]. Qed.

Lemma adds_arrival c c' m es :
  closeConn c = false -> log c' = log c ++ Arrived m :: es -> closeConn c' = closeConn (arrive m c) ->
  arrivals es = [] -> t_Body <$> dealt es = [t_Body m] -> Forall (fate_ok (heap (socks c'))) es ->
  adds c c' (Arrived m :: es).
Proof.
  intros Hcl Hl Hc Ha Hr Hf. split_and!; [done|unfold arrivals, dealt in *; cbn; by rewrite Ha|by constructor|]. right. exists m.
  unfold arrivals in *. cbn. rewrite Ha, Hc. cbn. rewrite Hcl, orb_false_r. split_and!; [done|done|].
  unfold closes. apply String.eqb_eq.
Qed.

Lemma serve_message_adds m send c c' :
  conn_ok c -> closeConn c = false -> c' ∈ serve_message m send (arrive m c) ->
  exists es, adds c c' es.
Proof.
  intros [Hpool _] Hcl. unfold serve_message. destruct (Get _ _) as [[p a] ok] eqn:HG.
  assert (forall c' es, log c' = log (arrive m c) ++ es -> closeConn c' = closeConn (arrive m c) ->
    arrivals es = [] -> t_Body <$> dealt es = [t_Body m] -> Forall (fate_ok (heap (socks c'))) es ->
    exists es, adds c c' es) as Hadd.
  { intros c2 es Hl Hc Ha Hr Hf. exists (Arrived m :: es). apply adds_arrival; try done. rewrite Hl. cbn.
    by rewrite <- app_assoc. }
  destruct ok.
  - assert (p = socks c) as -> by (unfold Get, get_write in HG; repeat case_match; by simplify_eq).
    unfold serve_known. destruct (heap (socks c) !! a) as [s|] eqn:Hs; [|by intros ?%not_elem_of_nil].
    intros ([r s'] & Hc' & Hr)%list_elem_of_bind.
    destruct r as [[]| |]; [|destruct (Release _ a) as [p'| |] eqn:HR..]; cbn in Hc'; try by apply not_elem_of_nil in Hc'.
    all: apply list_elem_of_singleton in Hc' as ->; (eapply Hadd; [reflexivity|done..|]); repeat constructor; cbn.
    all: by eapply Release_closed.
  - destruct (is_stream m && _) eqn:He.
    { apply andb_true_iff in He as [He1 He2%String.eqb_eq]. destruct (Release p a); cbn; try by intros ?%not_elem_of_nil.
      intros ->%list_elem_of_singleton. eapply Hadd; [reflexivity|done..|]. by repeat constructor. }
    unfold open_session. destruct (t_Header m) as [h|] eqn:Hh;
      [|intros ->%list_elem_of_singleton; eapply Hadd; [reflexivity|done..|by repeat constructor]].
    destruct (server_codec codecs h) as [h' [k|]];
      [intros ->%list_elem_of_singleton; eapply Hadd; [reflexivity|done..|by repeat constructor]|].
    destruct (Release _ a); cbn; try by intros ?%not_elem_of_nil.
    intros ->%list_elem_of_singleton. destruct send; (eapply Hadd; [reflexivity|done..|by repeat constructor]).
Qed.

Lemma closeConn_leave ss c : closeConn (leave_out ss c) = closeConn c.
Proof. unfold leave_out. by case_decide. Qed.

Lemma step_adds c c' : conn_ok c -> step c c' -> exists es, adds c c' es.
Proof.
  intros Hok Hs. destruct Hs as [rc sd c' _ Hin|i ss s m s' _ _ Hs Hr|i ss s m s' _ _ Hs Hr|i ss s s' _ _ Hs Hr
    |i ss p' _ _ HR|i ss s m s' _ _ Hs Hr|i ss s m s' p' _ _ Hs Hr HR|i ss s s' p' _ _ Hs Hr HR|o p' _ _ _ HP].
  - unfold round in Hin. destruct (closeConn c) eqn:Hcl.
    { apply list_elem_of_singleton in Hin as ->. exists []. apply adds_quiet; [cbn; by rewrite app_nil_r|reflexivity..|by constructor]. }
    destruct rc as [e|m].
    { apply list_elem_of_singleton in Hin as ->. exists []. apply adds_quiet; [cbn; by rewrite app_nil_r|reflexivity..|by constructor]. }
    destruct (negb _) eqn:Hev; [|by eapply serve_message_adds].
    apply negb_true_iff, String.eqb_neq in Hev.
    apply list_elem_of_singleton in Hin as ->. unfold serve_event. destruct (HandleEvent process m) as [m' er].
    destruct sd as [e|]; (eexists (Arrived m :: Handled m :: _); apply (adds_arrival c _ m);
      [done|cbn; by rewrite <- app_assoc|reflexivity..|by repeat constructor]).
  - exists [Taken (ss_sock ss) m]. apply adds_quiet; [reflexivity..|by repeat constructor].
  - exists [Given (ss_sock ss) m]. apply adds_quiet; [reflexivity..|by repeat constructor].
  - exists []. apply adds_quiet; [reflexivity..|by constructor].
  - exists []. apply adds_quiet; [reflexivity..|by constructor].
  - exists [Forwarded (ss_sock ss) m]. apply adds_quiet; [reflexivity..|by repeat constructor].
  - exists [Dropped (ss_sock ss) m]. apply adds_quiet; [|by rewrite closeConn_leave|reflexivity..|by repeat constructor].
    by rewrite (proj2 (leave_out_same _ _)).
  - exists []. apply adds_quiet; [|by rewrite closeConn_leave|reflexivity..|by constructor].
    by rewrite (proj2 (leave_out_same _ _)).
  - exists []. apply adds_quiet; [cbn; by rewrite app_nil_r|reflexivity..|by constructor].
Qed.

Definition history_ok (c : serving) : Prop :=
  t_Body <$> dealt (log c) = t_Body <$> arrivals (log c) /\
  (forall i m, arrivals (log c) !! i = Some m -> closes m -> S i = length (arrivals (log c)) /\ closeConn c = true).

Lemma step_history c c' : conn_ok c -> history_ok c -> step c c' -> history_ok c'.
Proof.
  intros Hok [Hsub Hcl] (es & Hl & Hse & _ & Hes)%step_adds; [|done]. unfold history_ok. rewrite Hl.
  unfold dealt, arrivals in *. rewrite !omap_app, !fmap_app. split; [by rewrite Hsub, Hse|].
  destruct Hes as [[Hn Hc]|(m & Hm & Hc & Hc')].
  - rewrite Hn, app_nil_r, Hc. exact Hcl.
  - rewrite Hm. intros i m' Hi Hclo. destruct (decide (i < length (omap (fun e => match e with Arrived m => Some m | _ => None end) (log c)))) as [Hlt|Hge].
    + rewrite lookup_app_l in Hi by done. destruct (Hcl i m' Hi Hclo) as [_ Ht]. congruence.
    + rewrite lookup_app_r in Hi by lia. rewrite length_app. cbn.
      apply list_lookup_singleton_Some in Hi as [Hi <-]. split; [lia|by apply Hc'].
Qed.

(** ** When the connection is done *)

(** Every session's socket is closed or both its goroutines run; a finished
    connection has left its loop, and waited unless there was an error. *)
Definition sessions_ok (c : serving) : Prop :=
  (forall i ss, sessions c !! i = Some ss -> exists s, heap (socks c) !! ss_sock ss = Some s /\
     (closed s = true \/ ss_out ss = true /\ ss_serving ss = true)) /\
  (finished c = true -> stopped c = true /\ (gerr c = None -> forallb idle (sessions c) = true)).

Definition session_ok (h : list (Socket tmsg)) (ss : session) : Prop :=
  exists s, h !! ss_sock ss = Some s /\ (closed s = true \/ ss_out ss = true /\ ss_serving ss = true).

Lemma keeps_trans h1 h2 h3 : keeps h1 h2 -> keeps h2 h3 -> keeps h1 h3.
Proof.
  intros H1 H2 a s Hs. destruct (H1 a s Hs) as (s2 & Hs2 & Hc2). destruct (H2 a s2 Hs2) as (s3 & Hs3 & Hc3).
  exists s3. auto.
Qed.

Lemma keeps_put (p : Pool tmsg) a s s' :
  heap p !! a = Some s -> closed s' = closed s -> keeps (heap p) (heap (put a s' p)).
Proof.
  intros Hs Hc b t Ht. cbn. destruct (decide (a = b)) as [<-|Hb].
  - exists s'. rewrite list_lookup_insert_eq by (by eapply lookup_lt_Some). split; [done|]. congruence.
  - exists t. by rewrite list_lookup_insert_ne.
Qed.

Lemma keeps_app h l : keeps h (h ++ l).
Proof. intros a s Hs. exists s. split; [|done]. by apply lookup_app_l_Some. Qed.

Lemma session_keeps h h' ss : keeps h h' -> session_ok h ss -> session_ok h' ss.
Proof.
  intros Hk (s & Hs & Ho). destruct (Hk _ _ Hs) as (s' & Hs' & Hc). exists s'. split; [done|]. tauto.
Qed.

Lemma Release_keeps (p : Pool tmsg) a p' :
  pool_ok p -> Release p a = Ret p' ->
  keeps (heap p) (heap p') /\ exists s', heap p' !! a = Some s' /\ closed s' = true.
Proof.
  intros Hp HR. split; [|by eapply Release_closed].
  destruct (Release_cases p a p' Hp HR) as (s & Hs & _ & Hcl). by eapply keeps_closed.
Qed.

Lemma put_ok (p : Pool tmsg) a s s' : heap p !! a = Some s -> id s' = id s -> pool_ok p -> pool_ok (put a s' p).
Proof.
  intros Hs Hid Hp i b Hi. destruct (Hp i b Hi) as (t & Ht & <-). cbn. destruct (decide (a = b)) as [<-|Hb].
  - exists s'. rewrite list_lookup_insert_eq by (by eapply lookup_lt_Some). split; [done|]. congruence.
  - exists t. by rewrite list_lookup_insert_ne.
Qed.

(** What a round does to the sessions: it may add one that runs. *)
Lemma serve_message_sessions m send c c' :
  conn_ok c -> c' ∈ serve_message m send c ->
  keeps (heap (socks c)) (heap (socks c')) /\ finished c' = finished c /\
  (sessions c' = sessions c \/ exists ss, sessions c' = sessions c ++ [ss] /\ session_ok (heap (socks c')) ss).
Proof.
  unfold serve_message. intros Hi. destruct (Get (msg_id m) (socks c)) as [[p a] ok] eqn:HG.
  destruct (inv_get _ _ _ _ _ _ Hi HG) as ([Hp _] & Hold & Hnew). destruct ok.
  - destruct (Hold eq_refl) as (-> & s & Hs & Hid). unfold serve_known. rewrite Hs.
    intros ([r s'] & Hc' & Hr)%list_elem_of_bind.
    apply Accept_cases in Hr as [(_ & -> & ->)|(_ & -> & ->)]; cbn in Hc'.
    + apply list_elem_of_singleton in Hc' as ->. split_and!; [|done|by left]. by eapply keeps_put.
    + destruct (Release _ a) as [p'| |] eqn:HR; cbn in Hc'; [|by apply not_elem_of_nil in Hc'..].
      apply list_elem_of_singleton in Hc' as ->. split_and!; [|done|by left]. by eapply Release_keeps.
  - destruct (Hnew eq_refl) as [Hheap ->].
    assert (keeps (heap (socks c)) (heap p)) as Hk by (rewrite Hheap; apply keeps_app).
    assert (heap p !! length (heap (socks c)) = Some (New (msg_id m))) as Hs
      by (by rewrite Hheap, lookup_app_r, Nat.sub_diag by lia).
    destruct (is_stream m && _).
    { destruct (Release p _) as [p'| |] eqn:HR; cbn; [|by intros ?%not_elem_of_nil..].
      intros ->%list_elem_of_singleton. split_and!; [|done|by left].
      eapply keeps_trans; [exact Hk|by eapply Release_keeps]. }
    unfold open_session. set (a := length (heap (socks c))) in *.
    assert (forall q, keeps (heap (socks c))
      (heap (put a (set_recv (SetRemote (SetLocal (New (msg_id m)) Local) Remote) q) p))) as Hkp
      by (intros q; eapply keeps_trans; [exact Hk|by eapply keeps_put]).
    destruct (t_Header m) as [h|] eqn:Hh;
      [|intros ->%list_elem_of_singleton; split_and!; [apply Hkp|done|by left]].
    destruct (server_codec codecs h) as [h' [k|]].
    + intros ->%list_elem_of_singleton. split_and!; [apply Hkp|done|right]. eexists. split; [done|].
      eexists. cbn. rewrite list_lookup_insert_eq by (by eapply lookup_lt_Some). split; [done|by right].
    + destruct (Release _ _) as [p'| |] eqn:HR; cbn; [|by intros ?%not_elem_of_nil..].
      intros ->%list_elem_of_singleton. apply Release_keeps in HR as [HR _]; [|by eapply put_ok].
      destruct send; (split_and!; [eapply keeps_trans; [apply Hkp|exact HR]|done|by left]).
Qed.

Lemma round_sessions recv send c c' :
  conn_ok c -> c' ∈ round recv send c ->
  keeps (heap (socks c)) (heap (socks c')) /\ finished c' = finished c /\
  (sessions c' = sessions c \/ exists ss, sessions c' = sessions c ++ [ss] /\ session_ok (heap (socks c')) ss).
Proof.
  assert (forall h, keeps h h) as Hrefl by (intros h a s Hs; by exists s).
  unfold round. intros Hi. destruct (closeConn c); [by intros ->%list_elem_of_singleton; auto|].
  destruct recv as [e|m]; [by intros ->%list_elem_of_singleton; auto|].
  assert (conn_ok (arrive m c)) as Hi' by (apply sockets_quiet; [by repeat constructor|exact Hi]).
  destruct (negb _); [|by intros Hin%(serve_message_sessions _ _ _ _ Hi')].
  intros ->%list_elem_of_singleton. unfold serve_event. destruct (HandleEvent process m), send; auto.
Qed.

(** One session's goroutine ends, its socket closed. *)
Lemma sessions_end h h' (l : list session) i ss ss' :
  (forall j ss, l !! j = Some ss -> session_ok h ss) -> keeps h h' -> l !! i = Some ss -> ss_sock ss' = ss_sock ss ->
  (exists s, h' !! ss_sock ss = Some s /\ closed s = true) ->
  forall j ss, <[i := ss']> l !! j = Some ss -> session_ok h' ss.
Proof.
  intros Hall Hk Hi Hsock (s & Hs & Hc) j t. destruct (decide (i = j)) as [<-|Hij].
  - rewrite list_lookup_insert_eq by (by eapply lookup_lt_Some). intros [= <-]. exists s. rewrite Hsock. auto.
  - rewrite list_lookup_insert_ne by done. intros Ht. eapply session_keeps; [exact Hk|by eapply Hall].
Qed.

Lemma idle_end (l : list session) i ss ss' :
  l !! i = Some ss -> (idle ss = true -> idle ss' = true) -> forallb idle l = true -> forallb idle (<[i := ss']> l) = true.
Proof.
  intros Hi Hs Hl. rewrite !forallb_forall in *. intros x (j & Hj)%list_elem_of_In%list_elem_of_lookup_1.
  destruct (decide (i = j)) as [<-|Hij].
  - rewrite list_lookup_insert_eq in Hj by (by eapply lookup_lt_Some). injection Hj as <-. apply Hs, Hl.
    apply list_elem_of_In. by eapply list_elem_of_lookup_2.
  - rewrite list_lookup_insert_ne in Hj by done. apply Hl, list_elem_of_In. by eapply list_elem_of_lookup_2.
Qed.

Lemma Close_put_keeps (p : Pool tmsg) a s s' :
  heap p !! a = Some s -> Close s = Ret s' -> keeps (heap p) (heap (put a s' p)).
Proof. intros Hs Hc. destruct (close_put p a s s' Hs Hc) as [Hcl _]. by eapply keeps_closed. Qed.

Lemma leave_out_rest ss c :
  sessions (leave_out ss c) = sessions c /\ finished (leave_out ss c) = finished c /\
  stopped (leave_out ss c) = stopped c /\ gerr (leave_out ss c) = gerr c.
Proof. unfold leave_out. by case_decide. Qed.

(** The step of a goroutine that ends: it releases its socket. *)
Lemma end_ok c i ss ss' p0 p' l :
  conn_ok c -> sessions_ok c -> sessions c !! i = Some ss -> ss_sock ss' = ss_sock ss ->
  (idle ss = true -> idle ss' = true) -> pool_ok p0 -> keeps (heap (socks c)) (heap p0) ->
  Release p0 (ss_sock ss) = Ret p' ->
  sessions_ok (set_sessions (<[i := ss']> (sessions c)) (set_socks p' l c)).
Proof.
  intros Hc [Hss Hfin] Hi Hsock Hidle Hp0 Hk0 HR. destruct (Release_keeps _ _ _ Hp0 HR) as [Hk Hclosed].
  split; cbn.
  - eapply sessions_end; [exact Hss|eapply keeps_trans; [exact Hk0|exact Hk]|exact Hi|done|exact Hclosed].
  - intros [Hst Hall]%Hfin. split; [done|]. intros He. eapply idle_end; eauto.
Qed.

(** The step of a goroutine that goes on. *)
Lemma go_on_ok c p' l :
  sessions_ok c -> keeps (heap (socks c)) (heap p') -> sessions_ok (set_socks p' l c).
Proof.
  intros [Hss Hfin] Hk. split; [|exact Hfin]. intros i ss Hi. eapply session_keeps; [exact Hk|by eapply Hss].
Qed.

Lemma leave_out_ok ss c : sessions_ok c -> sessions_ok (leave_out ss c).
Proof.
  unfold sessions_ok. destruct (leave_out_same ss c) as [-> _].
  by destruct (leave_out_rest ss c) as (-> & -> & -> & ->).
Qed.

Lemma idle_out ss : idle ss = true -> idle (end_out ss) = true.
Proof. by intros [_ Hs]%andb_true_iff. Qed.

Lemma idle_serving ss : idle ss = true -> idle (end_serving ss) = true.
Proof. unfold idle. intros [Ho _]%andb_true_iff. cbn. by rewrite Ho. Qed.

Lemma step_sessions c c' : conn_ok c -> sessions_ok c -> step c c' -> sessions_ok c'.
Proof.
  intros Hc Hok Hs. destruct Hs as [rc sd c' Hst Hin|i ss s m s' _ _ Hs Hr|i ss s m s' _ _ Hs Hr|i ss s s' _ _ Hs Hr
    |i ss p' Hi _ HR|i ss s m s' _ _ Hs Hr|i ss s m s' p' Hi _ Hs Hr HR|i ss s s' p' Hi _ Hs Hr HR|o p' Hst Hf Hw HP].
  - destruct Hok as [Hss Hfin]. destruct (round_sessions _ _ _ _ Hc Hin) as (Hk & Hf & Hses). split.
    + intros i ss Hi. destruct Hses as [Heq|(new & Heq & Hnew)]; rewrite Heq in Hi.
      * eapply session_keeps; [exact Hk|by eapply Hss].
      * apply lookup_app_Some in Hi as [Hi|[_ Hi]]; [eapply session_keeps; [exact Hk|by eapply Hss]|].
        by apply list_lookup_singleton_Some in Hi as [_ <-].
    + rewrite Hf. intros [Hst' _]%Hfin. congruence.
  - apply Recv_cases in Hr as [(m' & q & Hq & _ & ->)|(_ & ? & _)]; [|done].
    apply go_on_ok; [done|by eapply keeps_put].
  - apply Send_cases in Hr as [(_ & _ & ->)|(_ & ? & _)]; [|done].
    apply go_on_ok; [done|by eapply keeps_put].
  - apply go_on_ok; [done|by eapply Close_put_keeps].
  - eapply end_ok; eauto using idle_serving; [apply Hc|by intros a s Hs; exists s].
  - apply Process_cases in Hr as [(m' & q & Hq & _ & ->)|(_ & _ & ? & _)]; [|done].
    apply go_on_ok; [done|by eapply keeps_put].
  - apply Process_cases in Hr as [(m' & q & Hq & _ & ->)|(_ & _ & ? & _)]; [|done].
    apply leave_out_ok. eapply end_ok; eauto using idle_out; [eapply put_ok; [exact Hs|done|apply Hc]|by eapply keeps_put].
  - apply leave_out_ok. eapply end_ok; eauto using idle_out; [apply Hc|by intros a t Ht; exists t].
  - destruct (Pool_Close_spec o (socks c) (proj1 Hc)) as (q & Hq & _ & Hcl). rewrite HP in Hq. injection Hq as <-.
    destruct Hok as [Hss Hfin]. split; [|done]. intros i ss Hi. cbn.
    eapply session_keeps; [by eapply keeps_closed|by eapply Hss].
Qed.

Lemma conn_step_keeps c c' : conn_ok c -> step c c' -> keeps (heap (socks c)) (heap (socks c')).
Proof.
  intros Hc Hs. destruct Hs as [rc sd c' Hst Hin|i ss s m s' _ _ Hs Hr|i ss s m s' _ _ Hs Hr|i ss s s' _ _ Hs Hr
    |i ss p' Hi _ HR|i ss s m s' _ _ Hs Hr|i ss s m s' p' Hi _ Hs Hr HR|i ss s s' p' Hi _ Hs Hr HR|o p' Hst Hf Hw HP].
  - by destruct (round_sessions _ _ _ _ Hc Hin).
  - apply Recv_cases in Hr as [(m' & q & Hq & _ & ->)|(_ & ? & _)]; [|done]. by eapply keeps_put.
  - apply Send_cases in Hr as [(_ & _ & ->)|(_ & ? & _)]; [|done]. by eapply keeps_put.
  - by eapply Close_put_keeps.
  - eapply Release_keeps; [apply Hc|exact HR].
  - apply Process_cases in Hr as [(m' & q & Hq & _ & ->)|(_ & _ & ? & _)]; [|done]. by eapply keeps_put.
  - apply Process_cases in Hr as [(m' & q & Hq & _ & ->)|(_ & _ & ? & _)]; [|done].
    destruct (leave_out_same ss (set_sessions (<[i:=end_out ss]> (sessions c))
      (set_socks p' [Dropped (ss_sock ss) m] c))) as [-> _].
    apply (keeps_trans _ (heap (put (ss_sock ss) (set_send s q) (socks c)))); [by eapply keeps_put|].
    eapply Release_keeps; [eapply put_ok; [exact Hs|done|apply Hc]|exact HR].
  - destruct (leave_out_same ss (set_sessions (<[i:=end_out ss]> (sessions c)) (set_socks p' [] c))) as [-> _].
    eapply Release_keeps; [apply Hc|exact HR].
  - destruct (Pool_Close_spec o (socks c) (proj1 Hc)) as (q & Hq & _ & Hcl). rewrite HP in Hq. injection Hq as <-.
    by eapply keeps_closed.
Qed.

Definition fates_ok (c : serving) : Prop := Forall (fate_ok (heap (socks c))) (log c).

Lemma step_fates c c' : conn_ok c -> fates_ok c -> step c c' -> fates_ok c'.
Proof.
  intros Hc Hf Hs. pose proof (conn_step_keeps _ _ Hc Hs) as Hk. destruct (step_adds _ _ Hc Hs) as (es & Hl & _ & Hes & _).
  unfold fates_ok. rewrite Hl. apply Forall_app_2; [|exact Hes]. eapply Forall_impl; [exact Hf|]. intros e. by apply fate_keeps.
Qed.

Lemma reachable_inv c : reachable c -> conn_ok c /\ history_ok c /\ fates_ok c /\ sessions_ok c.
Proof.
  induction 1 as [|c c' _ (IH1 & IH2 & IH3 & IH4) Hs].
  - split_and!; [split; [by intros i a Ha|]|split|constructor|split; [|done]]; try done.
    intros a. unfold sock_ok. cbn. split_and!; [done|done|]. by intros m Hm%not_elem_of_nil.
  - split_and!; [by eapply conn_step_ok|by eapply step_history|by eapply step_fates|by eapply step_sessions].
Qed.

(** C9: what becomes of a connection's messages, whatever the loop and the goroutines
    of the sessions have done. Every message that arrived, in the order of arrival and
    once, was handled as an event, routed to a pseudo socket, taken for the end of a
    stream that no socket is for, or lost because the socket of its identifier was
    already closed, and for no other reason. The messages routed to a socket are those
    its session has taken and then those still queued, in order, and all of them carry
    the identifier the socket was made for; the messages a session gave to its socket
    are those taken off for the connection and then those still queued, in order. *)
Theorem conn_orders c :
  reachable c ->
  t_Body <$> dealt (log c) = t_Body <$> arrivals (log c) /\
  (forall m, Handled m ∈ log c -> theader m HMessage <> "") /\
  (forall m, Ended m ∈ log c -> is_stream m = true /\ theader m HError = eos) /\
  (forall a m, Lost a m ∈ log c -> exists s, heap (socks c) !! a = Some s /\ closed s = true) /\
  (forall a s, heap (socks c) !! a = Some s ->
    routed a (log c) = taken a (log c) ++ recv s /\
    given a (log c) = emitted a (log c) ++ send s /\
    Forall (fun m => msg_id m = id s) (routed a (log c))).
Proof.
  intros ([_ Hi] & [Hsub _] & Hf & _)%reachable_inv. unfold fates_ok in Hf. rewrite Forall_forall in Hf.
  split_and!; [done|intros m Hm; by apply (Hf (Handled m))|intros m Hm; by apply (Hf (Ended m))
    |intros a m Hm; by apply (Hf (Lost a m))|].
  intros a s Hs. specialize (Hi a). rewrite Hs in Hi. destruct Hi as (Hr & Hg & Hid).
  split_and!; [done|done|]. apply Forall_forall. intros m Hm. by destruct (Hid m Hm) as (r & [= <-] & ->).
Qed.

(** A message that asks to close the connection is the last one read. *)
Theorem close_is_last c i m :
  reachable c -> arrivals (log c) !! i = Some m -> closes m -> S i = length (arrivals (log c)).
Proof. intros (_ & [_ Hcl] & _ & _)%reachable_inv Hi Hm. by destruct (Hcl i m Hi Hm). Qed.

(** A connection that ends without an error waits for its sessions. When its
    deferred function is through and no error was recorded, both goroutines of
    every session have ended and every session's socket is closed. *)
Theorem finished_waits c ss :
  reachable c -> finished c = true -> gerr c = None -> ss ∈ sessions c ->
  idle ss = true /\ exists s, heap (socks c) !! ss_sock ss = Some s /\ closed s = true.
Proof.
  intros (_ & _ & _ & Hss & Hfin)%reachable_inv Hf He Hin. destruct (Hfin Hf) as [_ Hall]. specialize (Hall He).
  rewrite forallb_forall in Hall. assert (idle ss = true) as Hidle by (by apply Hall, list_elem_of_In).
  split; [done|]. apply list_elem_of_lookup_1 in Hin as [i Hi]. destruct (Hss i ss Hi) as (s & Hs & Hc).
  exists s. split; [done|]. destruct Hc as [|[Ho _]]; [done|]. unfold idle in Hidle. by rewrite Ho in Hidle.
Qed.
End server.

(** ** Concrete runs *)
Definition no_router : rpcMessage -> option string := fun _ => None.

Definition ex_round := round ∅ "local" "remote" no_router.
Definition ex_step := step ∅ "local" "remote" no_router.
Definition ex_reachable := reachable ∅ "local" "remote" no_router.

Definition chat (body : string) : tmsg :=
  mkTmsg (Some {["Micro-Stream" := "1"; "Content-Type" := "application/json"; "Micro-Service" := "greeter";
                 "Micro-Endpoint" := "Greeter.Chat"]}) body.

Definition last_chat : tmsg :=
  mkTmsg (Some {["Micro-ID" := "7"; "Connection" := "close"; "Content-Type" := "application/json";
                 "Micro-Service" := "greeter"; "Micro-Endpoint" := "Greeter.Hello"]}) "bye".

Definition next_round (recv : string + tmsg) (c : serving) : serving := default c (head (ex_round recv None c)).

Definition released (a : nat) (c : serving) : Pool tmsg :=
  match Release (socks c) a with Ret p => p | _ => socks c end.

Definition next_end (i : nat) (f : session -> session) (c : serving) : serving :=
  match sessions c !! i with
  | Some ss => set_sessions (<[i := f ss]> (sessions c)) (set_socks (released (ss_sock ss) c) [] c)
  | None => c
  end.

Definition next_finish (c : serving) : serving :=
  match Pool_Close order_id (socks c) with
  | Ret p => mkServing (closeConn c) (gerr c) p (sessions c) true true true (log c)
  | _ => c
  end.

Lemma head_in {A} (x : A) l : head l = Some x -> x ∈ l.
Proof. destruct l; [done|]. intros [= ->]. left. Qed.

Lemma ex_step_round recv c : stopped c = false -> head (ex_round recv None c) = Some (next_round recv c) ->
  ex_reachable c -> ex_reachable (next_round recv c).
Proof. intros Hs Hh Hr. eapply reach_step; [exact Hr|]. eapply step_round; [exact Hs|by apply head_in]. Qed.

Lemma ex_step_out i ss s c :
  sessions c !! i = Some ss -> ss_out ss = true -> ss_codec ss <> KGrpc -> heap (socks c) !! ss_sock ss = Some s ->
  send s = [] /\ closed s = true -> Release (socks c) (ss_sock ss) = Ret (released (ss_sock ss) c) ->
  ex_reachable c -> ex_reachable (next_end i end_out c).
Proof.
  intros Hi Ho Hg Hs [Hse Hc] HR Hr. eapply reach_step; [exact Hr|]. unfold next_end. rewrite Hi.
  assert ((Fail EOF, s) ∈ Process s) as HP by (apply Process_cases; right; by split_and!).
  pose proof (step_out_end ∅ "local" "remote" no_router c i ss s s _ Hi Ho Hs HP HR) as Hst.
  unfold leave_out in Hst. by rewrite decide_False in Hst.
Qed.

Lemma ex_step_finish p c :
  stopped c = true -> finished c = false -> (gerr c = None -> forallb idle (sessions c) = true) ->
  Pool_Close order_id (socks c) = Ret p -> ex_reachable c -> ex_reachable (next_finish c).
Proof.
  intros Hs Hf Hw Hp Hr. eapply reach_step; [exact Hr|]. unfold next_finish. rewrite Hp.
  by apply (step_finish _ _ _ _ c order_id p).
Qed.

Definition chat1 : serving := next_round (inr (chat "a")) new_conn.
Definition chat2 : serving := next_end 0 end_serving chat1.
Definition chat3 : serving := next_round (inr (chat "b")) chat2.
Definition chat4 : serving := next_end 0 end_out chat3.
Definition chat5 : serving := next_round (inr (chat "c")) chat4.
Definition chat6 : serving := next_finish (next_round (inl "connection reset") chat4).

Lemma chat4_reachable : ex_reachable chat4.
Proof.
  assert (ex_reachable chat1) as H1 by (apply ex_step_round; [reflexivity|vm_compute; reflexivity|constructor]).
  assert (ex_reachable chat2) as H2.
  { eapply reach_step; [exact H1|]. eapply (step_served _ _ _ _ chat1 0); [vm_compute; reflexivity..]. }
  assert (ex_reachable chat3) as H3 by (apply ex_step_round; [vm_compute; reflexivity..|exact H2]).
  eapply (ex_step_out 0 _ _ chat3); [vm_compute; reflexivity..|vm_compute; discriminate|vm_compute; reflexivity
    |by split|vm_compute; reflexivity|exact H3].
Qed.

(** A session's two goroutines release its socket one after the other, by
    identifier. A session started for the same identifier in between loses its
    place in the pool: two sessions then serve the messages of one stream, each
    seeing a part of them. *)
Example split_stream :
  ex_reachable chat5 /\ ss_serving <$> sessions chat5 = [false; true; true] /\
  (fun s => (id s, closed s)) <$> heap (socks chat5) = [("1", true); ("1", false); ("1", false)] /\
  (fun a => t_Body <$> routed a (log chat5)) <$> [0; 1; 2] = [["a"]; ["b"]; ["c"]].
Proof.
  split_and!; [|vm_compute; reflexivity..].
  apply ex_step_round; [vm_compute; reflexivity..|exact chat4_reachable].
Qed.

(** If the connection fails then, the session that lost its place is not told: its
    socket stays open, with both goroutines waiting on it. *)
Example leaked_session :
  ex_reachable chat6 /\ finished chat6 = true /\
  (fun s => closed s) <$> heap (socks chat6) = [true; false] /\ idle <$> sessions chat6 = [true; false].
Proof.
  split_and!; [|vm_compute; reflexivity..].
  eapply ex_step_finish; [reflexivity|reflexivity|done|vm_compute; reflexivity|].
  apply (ex_step_round (inl "connection reset") chat4); [vm_compute; reflexivity..|exact chat4_reachable].
Qed.

Lemma conn_orders_witness :
  t_Body <$> dealt (log chat4) = ["a"; "b"] /\
  exists s, heap (socks chat4) !! 1 = Some s /\ t_Body <$> recv s = ["b"] /\
    routed 1 (log chat4) = taken 1 (log chat4) ++ recv s.
Proof.
  destruct (conn_orders ∅ "local" "remote" no_router chat4 chat4_reachable) as (Hd & _ & _ & _ & Hs).
  split; [rewrite Hd; vm_compute; reflexivity|].
  destruct (heap (socks chat4) !! 1) as [s|] eqn:H1; [|vm_compute in H1; discriminate]. exists s.
  split_and!; [done|vm_compute in H1; by injection H1 as <-|exact (proj1 (Hs 1 s H1))].
Defined.

Definition bye1 : serving := next_round (inr last_chat) new_conn.
Definition bye2 : serving := next_end 0 end_serving bye1.
Definition bye3 : serving := next_end 0 end_out bye2.
Definition bye4 : serving := next_finish (next_round (inr (chat "x")) bye3).

Lemma bye1_reachable : ex_reachable bye1.
Proof. apply ex_step_round; [reflexivity|vm_compute; reflexivity|constructor]. Qed.

Lemma bye4_reachable : ex_reachable bye4.
Proof.
  assert (ex_reachable bye2) as H2.
  { eapply reach_step; [exact bye1_reachable|]. eapply (step_served _ _ _ _ bye1 0); [vm_compute; reflexivity..]. }
  assert (ex_reachable bye3) as H3.
  { eapply (ex_step_out 0 _ _ bye2); [vm_compute; reflexivity..|vm_compute; discriminate|vm_compute; reflexivity
      |by split|vm_compute; reflexivity|exact H2]. }
  eapply ex_step_finish; [reflexivity|reflexivity|intros _; vm_compute; reflexivity|vm_compute; reflexivity|].
  apply (ex_step_round (inr (chat "x")) bye3); [vm_compute; reflexivity..|exact H3].
Qed.

Lemma close_is_last_witness : arrivals (log bye1) !! 0 = Some last_chat /\ 1 = length (arrivals (log bye1)).
Proof.
  split; [vm_compute; reflexivity|].
  exact (close_is_last ∅ "local" "remote" no_router bye1 0 last_chat bye1_reachable
    ltac:(vm_compute; reflexivity) ltac:(vm_compute; reflexivity)).
Defined.

Lemma finished_waits_witness :
  exists ss, ss ∈ sessions bye4 /\ idle ss = true /\
    exists s, heap (socks bye4) !! ss_sock ss = Some s /\ closed s = true.
Proof.
  destruct (sessions bye4) as [|ss l] eqn:Hs; [vm_compute in Hs; discriminate|]. exists ss. split; [left|].
  apply (finished_waits ∅ "local" "remote" no_router bye4 ss bye4_reachable); [vm_compute; reflexivity..|].
  rewrite Hs. left.
Defined.
