(* ===== verification/Runtime.v ===== *)
(** * The local runtime: [runtime/default.go], [runtime/service.go]

    The state machine of one service with the goroutines that wait for its
    processes, the runtime that keeps services by namespace and key, its management
    loop, and the check of archive names. What forking, killing and waiting for a
    process, checking out a source and the clock answer are arguments. *)
From S2P Require Import Prelude GoStrings GoPath.

(** ** Data *)
Record Service := mkService {
  sv_Name : string;
  sv_Version : string;
  sv_Source : string;
  sv_Metadata : option (gmap string string);
}.

Record Executable := mkExecutable {
  ex_Name : string;
  ex_Path : string;
  ex_Env : list string;
  ex_Args : list string;
  ex_Dir : string;
}.

Record CreateOptions := mkCreateOptions {
  co_Namespace : string;
  co_Command : list string;
  co_Args : list string;
  co_Env : list string;
  co_Retries : Z;
}.

(** [PID] is the identifier of the last process started. *)
Record service := mkservice {
  updated : Z;
  err : option string;
  closed : bool;
  sv : Service;
  Exec : Executable;
  PID : option string;
  retries : Z;
  maxRetries : Z;
  running : bool;
}.

Definition with_metadata (md : gmap string string) (s : Service) : Service :=
  mkService (sv_Name s) (sv_Version s) (sv_Source s) (Some md).

Definition with_source (src : string) (s : Service) : Service :=
  mkService (sv_Name s) (sv_Version s) src (sv_Metadata s).

(** ** One service *)
Definition newService (s : Service) (c : CreateOptions) (now : Z) : service :=
  mkservice now None false s
    (mkExecutable (sv_Name s) (join " " (co_Command c)) (co_Env c) (co_Args c) (sv_Source s))
    None 0 (co_Retries c) false.

Definition shouldStart (s : service) : bool :=
  if running s then false else (retries s <=? maxRetries s)%Z.

Definition serviceKey (s : Service) : string := sv_Name s +:+ ":" +:+ sv_Version s.

(** [Status], on metadata that was made; [stamp] is the formatted time. *)
Definition Status (status : string) (err : option string) (stamp : string) (md : gmap string string) :
    gmap string string :=
  let md := <["status" := status]> (<["lastStatusUpdate" := stamp]> md) in
  match err with
  | None => delete "error" md
  | Some e => <["error" := e]> md
  end.

(** The last component tells whether a goroutine was started that waits for the
    process. *)
Definition Start (fork : Executable -> string + string) (stamp : string) (s : service) :
    service * option string * bool :=
  if negb (shouldStart s) then (s, None, false)
  else
    let md := Status "starting" None stamp (default ∅ (sv_Metadata (sv s))) in
    match fork (Exec s) with
    | inl e =>
        (mkservice (updated s) None false (with_metadata (Status "error" (Some e) stamp md) (sv s)) (Exec s)
           (PID s) 0 (maxRetries s) (running s), Some e, false)
    | inr p =>
        let md := <["started" := stamp]> (Status "running" None stamp md) in
        (mkservice (updated s) None false (with_metadata md (sv s)) (Exec s) (Some p) 0 (maxRetries s) true,
         None, true)
    end.

(** Metadata that was never made cannot be written to. *)
Definition Stop (kill : string -> option string) (stamp : string) (s : service) :
    outcome Empty_set (service * option string) :=
  if closed s then Ret (s, None)
  else
    let stopped md := mkservice (updated s) (err s) true md (Exec s) (PID s) 0 (maxRetries s) false in
    match PID s with
    | None => Ret (stopped (sv s), None)
    | Some p =>
        match sv_Metadata (sv s) with
        | None => Panic
        | Some md =>
            let e := kill p in
            let md := Status "stopped" e stamp (Status "stopping" None stamp md) in
            Ret (stopped (with_metadata md (sv s)), e)
        end
    end.

(** The end of [Wait]: the process [thisPID] is gone, with an error or without. *)
Definition Wait (thisPID : string) (res : option string) (stamp itoa : string) (s : service) :
    outcome Empty_set service :=
  match PID s with
  | None => Panic
  | Some p =>
      if negb (String.eqb p thisPID) then Ret s
      else
        match sv_Metadata (sv s) with
        | None => Panic
        | Some md =>
            match res with
            | Some e =>
                let md := <["retries" := itoa]> (Status "error" (Some e) stamp md) in
                Ret (mkservice (updated s) (Some e) (closed s) (with_metadata md (sv s)) (Exec s) (PID s)
                       (wrap64 (retries s + 1)) (maxRetries s) false)
            | None =>
                Ret (mkservice (updated s) (err s) (closed s) (with_metadata (Status "done" None stamp md) (sv s))
                       (Exec s) (PID s) (retries s) (maxRetries s) false)
            end
        end
  end.

(** *** A service and the goroutines that wait for its processes

    [spawned] goroutines have not read the process identifier yet; those in
    [waiting] have. *)
Record watched := mkWatched { w_service : service; spawned : nat; waiting : list string }.

Inductive wstep (w : watched) : watched -> Prop :=
| w_start fork stamp s' e b : Start fork stamp (w_service w) = (s', e, b) ->
    wstep w (mkWatched s' (spawned w + (if b : bool then 1 else 0)) (waiting w))
| w_stop kill stamp s' e : Stop kill stamp (w_service w) = Ret (s', e) ->
    wstep w (mkWatched s' (spawned w) (waiting w))
| w_begin n p : spawned w = S n -> PID (w_service w) = Some p ->
    wstep w (mkWatched (w_service w) n (p :: waiting w))
| w_end l p l' res stamp itoa s' : waiting w = l ++ p :: l' ->
    Wait p res stamp itoa (w_service w) = Ret s' -> wstep w (mkWatched s' (spawned w) (l ++ l')).

Inductive wreachable : watched -> Prop :=
| w_new s c now : wreachable (mkWatched (newService s c now) 0 [])
| w_step w w' : wreachable w -> wstep w w' -> wreachable w'.

(** What holds of a service at any time. *)
Record service_ok (s : service) : Prop := {
  ok_metadata : PID s <> None -> is_Some (sv_Metadata (sv s));
  ok_running : running s = true ->
    is_Some (PID s) /\ closed s = false /\ retries s = 0%Z /\ err s = None /\
    (sv_Metadata (sv s) ≫= (.!! "status")) = Some "running";
}.

Lemma newService_ok s c now : service_ok (newService s c now).
Proof. by split. Qed.

Lemma Status_status st e stamp md : Status st e stamp md !! "status" = Some st.
Proof.
  unfold Status. destruct e; [rewrite lookup_insert_ne by done|rewrite lookup_delete_ne by done];
    by rewrite lookup_insert_eq.
Qed.

Lemma Start_ok fork stamp s s' e b : service_ok s -> Start fork stamp s = (s', e, b) -> service_ok s'.
Proof.
  intros Hok. unfold Start. destruct (shouldStart s) eqn:Hs; cbn [negb]; [|by intros [= <- _ _]].
  unfold shouldStart in Hs. destruct (running s) eqn:Hr; [done|].
  destruct (fork (Exec s)); intros [= <- _ _]; split; cbn; try done.
  intros _. split_and!; try done. rewrite lookup_insert_ne, lookup_delete_ne by done. apply lookup_insert_eq.
Qed.

Lemma Stop_ok kill stamp s s' e : service_ok s -> Stop kill stamp s = Ret (s', e) -> service_ok s'.
Proof.
  intros Hok. unfold Stop. destruct (closed s); [by intros [= <- _]|].
  destruct (PID s) as [p|] eqn:Hp; [|by intros [= <- _]; split; cbn].
  destruct (sv_Metadata (sv s)); [|done]. intros [= <- _]. by split; cbn.
Qed.

Lemma Wait_ok p res stamp itoa s s' : service_ok s -> Wait p res stamp itoa s = Ret s' -> service_ok s'.
Proof.
  intros Hok. unfold Wait. destruct (PID s) as [q|] eqn:Hp; [|done].
  destruct (String.eqb q p); cbn [negb]; [|by intros [= <-]].
  destruct (sv_Metadata (sv s)) eqn:Hm; [|done]. destruct res; intros [= <-]; split; cbn; done.
Qed.

Lemma Stop_total kill stamp s : service_ok s -> exists s' e, Stop kill stamp s = Ret (s', e) /\ running s' = false \/
  closed s = true /\ Stop kill stamp s = Ret (s, None).
Proof.
  intros [Hmd _]. unfold Stop. destruct (closed s); [exists s, None; by right|].
  destruct (PID s) as [p|]; [|by eexists _, _; left].
  destruct (Hmd ltac:(done)) as [md ->]. by eexists _, _; left.
Qed.

(** The waiting goroutines have a process to wait for, and a running service is
    waited for. *)
Definition watched_ok (w : watched) : Prop :=
  service_ok (w_service w) /\
  (0 < spawned w \/ waiting w <> [] -> is_Some (PID (w_service w))) /\
  (running (w_service w) = true ->
   0 < spawned w \/ exists p, PID (w_service w) = Some p /\ p ∈ waiting w).

Lemma Start_effect fork stamp s s' e b :
  Start fork stamp s = (s', e, b) ->
  (b = true -> running s' = true /\ is_Some (PID s')) /\ (b = false -> running s' = running s /\ PID s' = PID s).
Proof.
  unfold Start. destruct (negb _); [by intros [= <- _ <-]|].
  destruct (fork (Exec s)); intros [= <- _ <-]; by split_and!.
Qed.

Lemma wstep_ok w w' : watched_ok w -> wstep w w' -> watched_ok w'.
Proof.
  intros (Hok & Hpid & Hw) Hs. destruct Hs as [fork stamp s' e b Hst|kill stamp s' e Hst|n p Hn Hp|l p l' res stamp itoa s' Hl Hst].
  - pose proof (Start_ok _ _ _ _ _ _ Hok Hst) as Hok'. destruct (Start_effect _ _ _ _ _ _ Hst) as [Ht Hf].
    split; [done|]. cbn. destruct b.
    + destruct (Ht eq_refl) as [_ Hp]. split; [done|]. intros _. left. lia.
    + destruct (Hf eq_refl) as [Hr ->]. rewrite Hr, Nat.add_0_r. done.
  - pose proof (Stop_ok _ _ _ _ _ Hok Hst) as Hok'. split; [done|]. cbn.
    assert (PID s' = PID (w_service w) /\ (running s' = true -> running (w_service w) = true)) as [-> Hr].
    { unfold Stop in Hst. destruct (closed _); [by injection Hst as <- _|]. destruct (PID _) eqn:Hp.
      - destruct (sv_Metadata _); [|done]. by injection Hst as <- _.
      - by injection Hst as <- _. }
    split; [done|]. intros Hr'. apply Hw. auto.
  - split; [done|]. cbn. split; [by rewrite Hp|]. intros _. right. exists p. split; [done|left].
  - pose proof (Wait_ok _ _ _ _ _ _ Hok Hst) as Hok'. split; [done|]. cbn.
    unfold Wait in Hst. destruct (PID (w_service w)) as [q|] eqn:Hp; [|done].
    destruct (String.eqb_spec q p) as [<-|Hne]; cbn [negb] in Hst.
    + destruct (sv_Metadata _); [|done]. destruct res; injection Hst as <-; cbn; by split.
    + injection Hst as <-. rewrite Hp. split; [done|]. intros Hr. destruct (Hw Hr) as [|(p' & [= <-] & Hin)]; [by left|].
      right. exists q. split; [done|]. rewrite Hl in Hin. set_solver.
Qed.

(** C18: a running service is watched. In every history of starts, stops and
    processes that end, however the waiting goroutines are scheduled: a service that
    counts as running has a process, its status says so, it carries no error and no
    failed attempts, and some goroutine waits for its process or is about to; and
    none of the operations that can come next panics. *)
Theorem service_watched w :
  wreachable w ->
  let s := w_service w in
  (running s = true ->
     (sv_Metadata (sv s) ≫= (.!! "status")) = Some "running" /\ retries s = 0%Z /\ err s = None /\
     exists p, PID s = Some p /\ (0 < spawned w \/ p ∈ waiting w)) /\
  (forall kill stamp, Stop kill stamp s <> Panic) /\
  (forall p res stamp itoa, p ∈ waiting w -> Wait p res stamp itoa s <> Panic).
Proof.
  intros Hr. assert (watched_ok w) as (Hok & Hpid & Hw).
  { induction Hr as [s c now|w w' _ IH Hs]; [|by eapply wstep_ok]. split_and!; [apply newService_ok| |done].
    cbn. intros [?|?]; [lia|done]. }
  cbv zeta. split_and!.
  - intros Hrun. destruct (ok_running _ Hok Hrun) as ([p Hp] & _ & ? & ? & ?). split_and!; try done.
    exists p. split; [done|]. destruct (Hw Hrun) as [|(p' & Hp' & Hin)]; [by left|]. right. congruence.
  - intros kill stamp. unfold Stop. destruct (closed _); [done|]. destruct (PID _) eqn:Hp; [|done].
    destruct (ok_metadata _ Hok) as [md ->]; [by rewrite Hp|done].
  - intros p res stamp itoa Hin. destruct Hpid as [q Hp]; [right; by intros Hnil; rewrite Hnil in Hin; apply not_elem_of_nil in Hin|].
    unfold Wait. rewrite Hp. destruct (negb _); [done|].
    destruct (ok_metadata _ Hok) as [md ->]; [by rewrite Hp|]. by destruct res.
Qed.

(** *** Retries *)

(** The process of a running service fails, and the loop starts the service. *)
Definition crash_cycle (fork : Executable -> string + string) (e stamp itoa : string) (s : service) :
    option service :=
  match PID s with
  | None => None
  | Some p =>
      match Wait p (Some e) stamp itoa s with
      | Ret s => if shouldStart s then Some (Start fork stamp s).1.1 else None
      | _ => None
      end
  end.

Fixpoint crashes (n : nat) fork e stamp itoa (s : service) : option service :=
  match n with
  | 0 => Some s
  | S n => s ← crash_cycle fork e stamp itoa s; crashes n fork e stamp itoa s
  end.

Lemma Wait_failed p e stamp itoa s :
  service_ok s -> running s = true -> PID s = Some p ->
  exists s1, Wait p (Some e) stamp itoa s = Ret s1 /\ service_ok s1 /\ running s1 = false /\ retries s1 = 1%Z /\
    maxRetries s1 = maxRetries s.
Proof.
  intros Hok Hrun Hp. destruct (ok_running _ Hok Hrun) as (_ & _ & Hre & _ & _).
  destruct (ok_metadata _ Hok) as [md Hmd]; [by rewrite Hp|].
  destruct (Wait p (Some e) stamp itoa s) as [s1| |] eqn:HW.
  2,3: exfalso; unfold Wait in HW; by rewrite Hp, String.eqb_refl, Hmd in HW.
  exists s1. split; [done|]. split; [by eapply Wait_ok|]. unfold Wait in HW. rewrite Hp, String.eqb_refl, Hmd in HW.
  injection HW as <-. cbn. rewrite Hre. by split_and!.
Qed.

Lemma Start_runs fork stamp s :
  service_ok s -> shouldStart s = true -> (forall x, exists p, fork x = inr p) ->
  service_ok (Start fork stamp s).1.1 /\ running (Start fork stamp s).1.1 = true /\
  maxRetries (Start fork stamp s).1.1 = maxRetries s.
Proof.
  intros Hok Hs Hfork. destruct (Start fork stamp s) as [[s' e] b] eqn:HS.
  split; [by eapply Start_ok|]. unfold Start in HS. rewrite Hs in HS. cbn [negb] in HS.
  destruct (Hfork (Exec s)) as [p Hp]. rewrite Hp in HS. injection HS as <- _ _. by split.
Qed.

(** The number of retries is not a limit. A service created with at least one
    retry is started again after every crash, however many there were: each start
    forgets the attempts counted before it. *)
Theorem retries_no_limit n fork e stamp itoa s :
  service_ok s -> running s = true -> (1 <= maxRetries s)%Z -> (forall x, exists p, fork x = inr p) ->
  exists s', crashes n fork e stamp itoa s = Some s' /\ running s' = true /\ retries s' = 0%Z.
Proof.
  intros Hok Hrun Hmax Hfork. revert s Hok Hrun Hmax. induction n as [|n IH]; intros s Hok Hrun Hmax; cbn.
  - exists s. by destruct (ok_running _ Hok Hrun) as (_ & _ & ? & _).
  - destruct (ok_running _ Hok Hrun) as ([p Hp] & _).
    destruct (Wait_failed p e stamp itoa s Hok Hrun Hp) as (s1 & HW & Hok1 & Hr1 & Hre1 & Hm1).
    assert (shouldStart s1 = true) as Hs1 by (unfold shouldStart; rewrite Hr1, Hre1; apply Z.leb_le; lia).
    destruct (Start_runs fork stamp s1 Hok1 Hs1 Hfork) as (Hok2 & Hr2 & Hm2).
    unfold crash_cycle. rewrite Hp, HW, Hs1. cbn. apply IH; [done|done|lia].
Qed.

(** ** The runtime *)

(** What the environment answers to one operation: a checkout of a source at a
    version, a fork for the service with a key in a namespace, a kill; the clock. *)
Record env := mkEnv {
  e_checkout : string -> string -> string + string;
  e_fork : string -> string -> Executable -> string + string;
  e_kill : string -> option string;
  e_now : Z;
  e_stamp : string;
}.

Record runtime := mkRuntime {
  namespaces : gmap string (gmap string service);
  r_closed : bool;
  r_running : bool;
}.

Definition NewRuntime : runtime := mkRuntime ∅ false false.

Definition defaultNamespace : string := "default".

Definition namespace_or (ns : string) : string := if String.eqb ns "" then defaultNamespace else ns.

Definition with_namespaces (nss : gmap string (gmap string service)) (r : runtime) : runtime :=
  mkRuntime nss (r_closed r) (r_running r).

Definition lookup_service (ns k : string) (r : runtime) : option service :=
  services ← namespaces r !! ns; services !! k.

Definition put_service (ns k : string) (s : service) (r : runtime) : runtime :=
  with_namespaces (<[ns := <[k := s]> (default ∅ (namespaces r !! ns))]> (namespaces r)) r.

Definition checkoutSourceIfNeeded (e : env) (s : Service) : string + Service :=
  if String.eqb (sv_Source s) "" then inr s
  else
    match e_checkout e (sv_Source s) (sv_Version s) with
    | inl er => inl er
    | inr path => inr (with_source path s)
    end.

(** The log file is taken to open. *)
Definition Create (e : env) (s : Service) (c : CreateOptions) (r : runtime) : runtime * option string :=
  match checkoutSourceIfNeeded e s with
  | inl er => (r, Some er)
  | inr s =>
      let ns := namespace_or (co_Namespace c) in
      let c := match co_Command c with
               | [] => mkCreateOptions ns ["go"] ["run"; "."] (co_Env c) (co_Retries c)
               | _ => mkCreateOptions ns (co_Command c) (co_Args c) (co_Env c) (co_Retries c)
               end in
      let r := with_namespaces (<[ns := default ∅ (namespaces r !! ns)]> (namespaces r)) r in
      let k := serviceKey s in
      if bool_decide (is_Some (lookup_service ns k r)) then (r, Some "service already running")
      else
        match Start (e_fork e ns k) (e_stamp e) (newService s c (e_now e)) with
        | (_, Some er, _) => (r, Some er)
        | (svc, None, _) => (put_service ns k svc r, None)
        end
  end.

Definition matches_option (k v : string) : bool := String.eqb k "" || String.eqb k v.

Definition Read (o : map_order) (name version ns : string) (r : runtime) : list Service :=
  match namespaces r !! namespace_or ns with
  | None => []
  | Some services =>
      map (fun e => sv e.2)
        (filter (fun e => matches_option name (sv_Name (sv e.2)) && matches_option version (sv_Version (sv e.2)) = true)
           (map_range o services))
  end.

Definition no_such_process : string := "no such process".

(** Stopping and starting the service that is there. *)
Definition restart (e : env) (ns k : string) (r : runtime) : outcome Empty_set (runtime * option string) :=
  match lookup_service ns k r with
  | None => Ret (r, Some "Service not found")
  | Some s =>
      res <-! Stop (e_kill e) (e_stamp e) s;
      let '(s, er) := res in
      match er with
      | Some x => if String.eqb x no_such_process
                  then let '(s, er, _) := Start (e_fork e ns k) (e_stamp e) s in Ret (put_service ns k s r, er)
                  else Ret (put_service ns k s r, Some x)
      | None => let '(s, er, _) := Start (e_fork e ns k) (e_stamp e) s in Ret (put_service ns k s r, er)
      end
  end.

Definition Update (e : env) (s : Service) (ns : string) (r : runtime) : outcome Empty_set (runtime * option string) :=
  match checkoutSourceIfNeeded e s with
  | inl er => Ret (r, Some er)
  | inr s => restart e (namespace_or ns) (serviceKey s) r
  end.

Definition remove_service (ns k : string) (r : runtime) : runtime :=
  with_namespaces (<[ns := delete k (default ∅ (namespaces r !! ns))]> (namespaces r)) r.

Definition Delete (e : env) (s : Service) (ns : string) (r : runtime) : outcome Empty_set (runtime * option string) :=
  let ns := namespace_or ns in
  let k := serviceKey s in
  match lookup_service ns k r with
  | None => Ret (r, None)
  | Some svc =>
      if negb (running svc) then Ret (remove_service ns k r, None)
      else
        res <-! Stop (e_kill e) (e_stamp e) svc;
        let '(svc, er) := res in
        let r := put_service ns k svc r in
        match er with
        | Some x => Ret (r, Some x)
        | None => Ret (remove_service ns k r, None)
        end
  end.

Definition runtime_Start (r : runtime) : runtime :=
  if r_running r then r else mkRuntime (namespaces r) false true.

(** What happens to every service, each on its own. *)
Definition each_service (f : string -> string -> service -> service) (r : runtime) : runtime :=
  with_namespaces (map_imap (fun ns m => Some (map_imap (fun k s => Some (f ns k s)) m)) (namespaces r)) r.

Definition stop_panics (e : env) (s : service) : bool :=
  match Stop (e_kill e) (e_stamp e) s with Panic => true | _ => false end.

Definition runtime_Stop (e : env) (r : runtime) : outcome Empty_set runtime :=
  if negb (r_running r) || r_closed r then Ret r
  else if bool_decide (map_Forall (fun _ m => map_Forall (fun _ s => stop_panics e s = false) m) (namespaces r)) then
    Ret (each_service (fun _ _ s => match Stop (e_kill e) (e_stamp e) s with Ret (s, _) => s | _ => s end)
           (mkRuntime (namespaces r) true false))
  else Panic.

(** The loop's check of its services. *)
Definition tick (e : env) (r : runtime) : runtime :=
  each_service (fun ns k s => if shouldStart s then (Start (e_fork e ns k) (e_stamp e) s).1.1 else s) r.

(** *** Events *)
Inductive EventType := CreateEvent | UpdateEvent | DeleteEvent.

Record Event := mkEvent {
  ev_Type : EventType;
  ev_Timestamp : Z;
  ev_Service : option Service;
  ev_Namespace : string;
}.

Definition set_sv (v : Service) (s : service) : service :=
  mkservice (updated s) (err s) (closed s) v (Exec s) (PID s) (retries s) (maxRetries s) (running s).

(** The service's own data is updated, so a checkout changes it; the time of the
    last update is written back as it was. *)
Definition processEvent (e : env) (ts : Z) (ns : string) (svc : option service) (r : runtime) :
    outcome Empty_set runtime :=
  match svc with
  | None => Panic
  | Some s =>
      if (ts <=? updated s)%Z then Ret r
      else
        match checkoutSourceIfNeeded e (sv s) with
        | inl _ => Ret r
        | inr v =>
            let k := serviceKey (sv s) in
            let r := match lookup_service ns k r with Some s => put_service ns k (set_sv (with_source (sv_Source v) (sv s)) s) r | None => r end in
            res <-! restart e ns k r; Ret res.1
        end
  end.

Definition handle_event (o : map_order) (e : env) (ev : Event) (r : runtime) : outcome Empty_set runtime :=
  match ev_Type ev with
  | UpdateEvent =>
      match ev_Service ev with
      | Some s =>
          let ns := namespace_or (ev_Namespace ev) in
          match namespaces r !! ns with
          | None => Ret r
          | Some services => processEvent e (ev_Timestamp ev) ns (services !! serviceKey s) r
          end
      | None =>
          foldl (fun acc nm =>
            foldl (fun acc ks => r <-! acc; processEvent e (ev_Timestamp ev) nm.1 (Some ks.2) r) acc (map_range o nm.2))
            (Ret r) (map_range o (namespaces r))
      end
  | _ => Ret r
  end.

(** The process of a service ends. *)
Definition process_exit (ns k pid : string) (res : option string) (stamp itoa : string) (r : runtime) :
    outcome Empty_set runtime :=
  match lookup_service ns k r with
  | None => Ret r
  | Some s => s <-! Wait pid res stamp itoa s; Ret (put_service ns k s r)
  end.

Inductive reachable : runtime -> Prop :=
| reach_new : reachable NewRuntime
| reach_Create e s c r : reachable r -> reachable (Create e s c r).1
| reach_Update e s ns r r' er : reachable r -> Update e s ns r = Ret (r', er) -> reachable r'
| reach_Delete e s ns r r' er : reachable r -> Delete e s ns r = Ret (r', er) -> reachable r'
| reach_Start r : reachable r -> reachable (runtime_Start r)
| reach_Stop e r r' : reachable r -> runtime_Stop e r = Ret r' -> reachable r'
| reach_tick e r : reachable r -> reachable (tick e r)
| reach_event o e ev r r' : reachable r -> handle_event o e ev r = Ret r' -> reachable r'
| reach_exit ns k pid res stamp itoa r r' : reachable r -> process_exit ns k pid res stamp itoa r = Ret r' -> reachable r'.

(** *** Services by namespace and key *)
Lemma lookup_put ns k s r ns' k' :
  lookup_service ns' k' (put_service ns k s r) =
  if decide (ns = ns' /\ k = k') then Some s else lookup_service ns' k' r.
Proof.
  unfold lookup_service, put_service. cbn. destruct (decide (ns = ns')) as [<-|Hne].
  - rewrite lookup_insert_eq. cbn. destruct (decide (k = k')) as [<-|Hk].
    + rewrite lookup_insert_eq. by rewrite decide_True.
    + rewrite lookup_insert_ne, decide_False by (done || tauto). by destruct (namespaces r !! ns).
  - rewrite lookup_insert_ne, decide_False by (done || tauto). done.
Qed.

Lemma lookup_remove ns k r ns' k' :
  lookup_service ns' k' (remove_service ns k r) =
  if decide (ns = ns' /\ k = k') then None else lookup_service ns' k' r.
Proof.
  unfold lookup_service, remove_service. cbn. destruct (decide (ns = ns')) as [<-|Hne].
  - rewrite lookup_insert_eq. cbn. destruct (decide (k = k')) as [<-|Hk].
    + rewrite lookup_delete_eq. by rewrite decide_True.
    + rewrite lookup_delete_ne, decide_False by (done || tauto). by destruct (namespaces r !! ns).
  - rewrite lookup_insert_ne, decide_False by (done || tauto). done.
Qed.

Lemma lookup_each f r ns k : lookup_service ns k (each_service f r) = f ns k <$> lookup_service ns k r.
Proof.
  unfold lookup_service, each_service. cbn. rewrite map_lookup_imap.
  destruct (namespaces r !! ns) as [m|]; cbn; [|done]. rewrite map_lookup_imap. by destruct (m !! k).
Qed.

Lemma lookup_made ns r ns' k' :
  lookup_service ns' k' (with_namespaces (<[ns := default ∅ (namespaces r !! ns)]> (namespaces r)) r) =
  lookup_service ns' k' r.
Proof.
  unfold lookup_service. cbn. destruct (decide (ns = ns')) as [<-|Hne].
  - rewrite lookup_insert_eq. cbn. by destruct (namespaces r !! ns).
  - by rewrite lookup_insert_ne.
Qed.

(** No operation on a service changes its key. *)
Lemma Start_key fork stamp s : serviceKey (sv (Start fork stamp s).1.1) = serviceKey (sv s).
Proof. unfold Start. destruct (negb _); [done|]. by destruct (fork (Exec s)). Qed.

Lemma Stop_key kill stamp s s' e : Stop kill stamp s = Ret (s', e) -> serviceKey (sv s') = serviceKey (sv s).
Proof. unfold Stop. repeat (case_match; try done); by intros [= <- _]. Qed.

Lemma Wait_key p res stamp itoa s s' : Wait p res stamp itoa s = Ret s' -> serviceKey (sv s') = serviceKey (sv s).
Proof. unfold Wait. repeat (case_match; try done); by intros [= <-]. Qed.

Definition entry_ok (k : string) (s : service) : Prop := serviceKey (sv s) = k /\ service_ok s.

Definition all_ok (r : runtime) : Prop := forall ns k s, lookup_service ns k r = Some s -> entry_ok k s.

Lemma entry_Start k fork stamp s : entry_ok k s -> entry_ok k (Start fork stamp s).1.1.
Proof.
  intros [Hk Hok]. split; [by rewrite Start_key|]. destruct (Start fork stamp s) as [[s' e] b] eqn:HS.
  by eapply Start_ok.
Qed.

Lemma all_put ns k s r : all_ok r -> entry_ok k s -> all_ok (put_service ns k s r).
Proof.
  intros Hr Hs ns' k' s'. rewrite lookup_put. case_decide as Hd; [|by apply Hr].
  destruct Hd as [_ <-]. by intros [= <-].
Qed.

Lemma all_remove ns k r : all_ok r -> all_ok (remove_service ns k r).
Proof. intros Hr ns' k' s'. rewrite lookup_remove. case_decide; [done|]. by apply Hr. Qed.

Lemma all_each f r : all_ok r -> (forall ns k s, entry_ok k s -> entry_ok k (f ns k s)) -> all_ok (each_service f r).
Proof.
  intros Hr Hf ns k s. rewrite lookup_each. intros (s0 & Hs0 & ->)%fmap_Some. apply Hf. by eapply Hr.
Qed.

(** [Stop] of a service that is fine: it stops, and is fine. *)
Lemma Stop_entry kill stamp k s :
  entry_ok k s -> exists s' e, Stop kill stamp s = Ret (s', e) /\ entry_ok k s' /\ running s' = false.
Proof.
  intros [Hk Hok]. destruct (Stop kill stamp s) as [[s' e]|[]|] eqn:HS.
  - exists s', e. split_and!; [done|split; [|by eapply Stop_ok]|].
    + rewrite <- Hk. by eapply Stop_key.
    + unfold Stop in HS. destruct (closed s) eqn:Hc.
      * injection HS as <- _. destruct (running s) eqn:Hr; [|done].
        destruct (ok_running _ Hok Hr) as (_ & Hc' & _). congruence.
      * destruct (PID s); [destruct (sv_Metadata (sv s)); [|done]|]; by injection HS as <- _.
  - exfalso. unfold Stop in HS. destruct (closed s); [done|]. destruct (PID s) eqn:Hp; [|done].
    destruct (ok_metadata _ Hok) as [md Hmd]; [by rewrite Hp|]. by rewrite Hmd in HS.
Qed.

Lemma restart_ok e ns k r :
  all_ok r -> exists r' er, restart e ns k r = Ret (r', er) /\ all_ok r'.
Proof.
  intros Hr. unfold restart. destruct (lookup_service ns k r) as [s|] eqn:Hs; [|by eexists _, _].
  destruct (Stop_entry (e_kill e) (e_stamp e) k s) as (s' & er & -> & Hs' & _); [by eapply Hr|]. cbn.
  pose proof (entry_Start k (e_fork e ns k) (e_stamp e) s' Hs') as Hst.
  destruct (Start _ _ s') as [[s2 er2] b]. cbn in Hst.
  destruct er as [x|]; [destruct (String.eqb x _)|]; eexists _, _; (split; [done|by apply all_put]).
Qed.

Lemma processEvent_ok e ts ns s r :
  all_ok r -> exists r', processEvent e ts ns (Some s) r = Ret r' /\ all_ok r'.
Proof.
  intros Hr. unfold processEvent. destruct (ts <=? updated s)%Z; [by eexists|].
  destruct (checkoutSourceIfNeeded e (sv s)) as [er|v] eqn:Hc; [by eexists|].
  set (r1 := match lookup_service ns _ r with Some _ => _ | None => _ end).
  assert (all_ok r1) as Hr1.
  { unfold r1. destruct (lookup_service ns _ r) as [s0|] eqn:Hl; [|done]. apply all_put; [done|].
    destruct (Hr _ _ _ Hl) as [Hk [Hmd Hrun]]. split; [exact Hk|]. by split. }
  destruct (restart_ok e ns (serviceKey (sv s)) r1 Hr1) as (r' & er & -> & Hr'). cbn. by eexists.
Qed.

Definition runtime_ok (r : runtime) : Prop := all_ok r /\ (r_running r = true -> r_closed r = false).

Lemma foldl_outcome {E A B} (P : A -> Prop) (f : A -> B -> outcome E A) l a :
  P a -> (forall a b, P a -> exists a', f a b = Ret a' /\ P a') ->
  exists a', foldl (fun acc b => x <-! acc; f x b) (Ret a) l = Ret a' /\ P a'.
Proof.
  intros Ha Hf. revert a Ha. induction l as [|b l IH]; intros a Ha; cbn; [by exists a|].
  destruct (Hf a b Ha) as (a' & -> & Ha'). by apply IH.
Qed.

Lemma processEvent_flags e ts ns s r r' :
  processEvent e ts ns s r = Ret r' -> r_running r' = r_running r /\ r_closed r' = r_closed r.
Proof.
  unfold processEvent. destruct s as [s|]; [|done]. destruct (_ <=? _)%Z; [by intros [= <-]|].
  destruct (checkoutSourceIfNeeded e (sv s)); [by intros [= <-]|].
  set (r1 := match lookup_service ns _ r with Some _ => _ | None => _ end).
  assert (r_running r1 = r_running r /\ r_closed r1 = r_closed r) as [H1 H2] by (unfold r1; by case_match).
  unfold restart. rewrite <- H1, <- H2. clearbody r1. destruct (lookup_service _ _ r1); [|by intros [= <-]].
  destruct (Stop _ _ _) as [[s' er]| |]; [|done|done]. cbn. destruct (Start _ _ s') as [[? ?] ?].
  destruct er; [case_match|]; cbn; by intros [= <-].
Qed.

(** Events are handled without a panic unless they name a service the namespace
    does not have. *)
Lemma handle_event_ok o e ev r :
  runtime_ok r ->
  (exists r', handle_event o e ev r = Ret r' /\ runtime_ok r') \/
  (handle_event o e ev r = Panic /\ ev_Type ev = UpdateEvent /\
   exists s services, ev_Service ev = Some s /\ namespaces r !! namespace_or (ev_Namespace ev) = Some services /\
     services !! serviceKey s = None).
Proof.
  intros Hr. unfold handle_event. destruct (ev_Type ev); [left; by eexists| |left; by eexists].
  assert (forall ts ns s r, runtime_ok r -> exists r', processEvent e ts ns (Some s) r = Ret r' /\ runtime_ok r') as Hpe.
  { intros ts ns s r0 [Ha Hf]. destruct (processEvent_ok e ts ns s r0 Ha) as (r' & Hp & Ha'). exists r'.
    split; [done|]. destruct (processEvent_flags _ _ _ _ _ _ Hp) as [H1 H2]. split; [done|]. by rewrite H1, H2. }
  destruct (ev_Service ev) as [s|].
  - destruct (namespaces r !! _) as [services|] eqn:Hns; [|left; by eexists].
    destruct (services !! serviceKey s) as [svc|] eqn:Hs; [left; by apply Hpe|].
    right. split_and!; [done|done|]. exists s, services. done.
  - left. set (g := fun r (nm : string * gmap string service) => foldl (fun acc ks => r <-! acc; processEvent e (ev_Timestamp ev) nm.1 (Some ks.2) r)
      (Ret r) (map_range o nm.2)).
    assert (forall l acc,
      foldl (fun acc nm => foldl (fun acc ks => r <-! acc; processEvent e (ev_Timestamp ev) nm.1 (Some ks.2) r) acc
        (map_range o nm.2)) acc l =
      foldl (fun acc nm => r <-! acc; g r nm) acc l) as ->.
    { assert (forall (x : outcome Empty_set runtime) (nm : string * gmap string service), foldl (fun acc ks => r <-! acc;
          processEvent e (ev_Timestamp ev) nm.1 (Some ks.2) r) x (map_range o nm.2) = (r <-! x; g r nm)) as Hx.
      { intros [r0|[]|] nm; [done|]. cbn. by induction (map_range o nm.2). }
      induction l as [|nm l IH]; intros acc; cbn [foldl]; [done|]. by rewrite Hx, IH. }
    apply foldl_outcome; [done|]. intros r0 nm Hr0. unfold g. apply foldl_outcome; [done|].
    intros r1 ks Hr1. by apply Hpe.
Qed.

Lemma Create_ok e s c r : runtime_ok r -> runtime_ok (Create e s c r).1.
Proof.
  intros [Hr Hf]. unfold Create. destruct (checkoutSourceIfNeeded e s) as [er|s']; [done|].
  set (ns := namespace_or _). set (c' := match co_Command c with [] => _ | _ => _ end).
  set (r1 := with_namespaces _ r). assert (all_ok r1) as Hr1.
  { intros ns' k' s0. unfold r1. rewrite lookup_made. apply Hr. }
  case_bool_decide; [done|].
  pose proof (entry_Start (serviceKey s') (e_fork e ns (serviceKey s')) (e_stamp e) (newService s' c' (e_now e))) as Hst.
  destruct (Start _ _ (newService s' c' _)) as [[svc er] b]. cbn in Hst. destruct er; [done|]. split; [|exact Hf].
  apply all_put; [done|]. apply Hst. split; [done|apply newService_ok].
Qed.

Lemma Delete_ok e s ns r :
  runtime_ok r -> exists r' er, Delete e s ns r = Ret (r', er) /\ runtime_ok r'.
Proof.
  intros [Hr Hf]. unfold Delete. destruct (lookup_service _ _ r) as [svc|] eqn:Hs; [|by eexists _, _].
  destruct (running svc); cbn [negb]; [|eexists _, _; split; [done|split; [by apply all_remove|exact Hf]]].
  destruct (Stop_entry (e_kill e) (e_stamp e) _ _ (Hr _ _ _ Hs)) as (s' & er & -> & Hs' & _). cbn.
  destruct er; eexists _, _; (split; [done|split; [|exact Hf]]); [|apply all_remove]; by apply all_put.
Qed.

Lemma Update_ok e s ns r :
  runtime_ok r -> exists r' er, Update e s ns r = Ret (r', er) /\ runtime_ok r'.
Proof.
  intros H. destruct (H) as [Hr Hf]. unfold Update. destruct (checkoutSourceIfNeeded e s) as [er|s']; [by eexists _, _|].
  destruct (restart_ok e (namespace_or ns) (serviceKey s') r Hr) as (r' & er & HR & Hr'). rewrite HR.
  eexists _, _. split; [done|]. split; [done|]. unfold restart in HR.
  destruct (lookup_service _ _ r); [|injection HR as <- _; apply H].
  destruct (Stop _ _ _) as [[s1 e1]| |]; [|done|done].
  cbn in HR. destruct (Start _ _ s1) as [[? ?] ?]. destruct e1; [case_match|]; injection HR as <- _; apply H.
Qed.

Lemma runtime_Stop_ok e r :
  runtime_ok r -> exists r', runtime_Stop e r = Ret r' /\ runtime_ok r' /\
    (r_running r = true -> r_running r' = false /\
       forall ns k, (running <$> lookup_service ns k r') = (fun _ => false) <$> lookup_service ns k r).
Proof.
  intros H. pose proof H as [Hr Hf]. unfold runtime_Stop. destruct (r_running r) eqn:Hrun; cbn [negb orb]; [|by exists r].
  rewrite (Hf eq_refl). rewrite bool_decide_true.
  2:{ intros ns m Hm k s Hs. destruct (Stop_entry (e_kill e) (e_stamp e) k s) as (s' & er & HS & _).
      - apply (Hr ns). unfold lookup_service. by rewrite Hm.
      - unfold stop_panics. by rewrite HS. }
  eexists. split; [done|]. split; [split; [|done]|].
  - apply all_each; [exact Hr|]. intros ns k s Hs.
    destruct (Stop_entry (e_kill e) (e_stamp e) k s Hs) as (s' & er & -> & Hs' & _). done.
  - intros _. split; [done|]. intros ns k. rewrite lookup_each.
    change (lookup_service ns k (mkRuntime _ _ _)) with (lookup_service ns k r).
    destruct (lookup_service ns k r) as [s|] eqn:Hs; cbn; [|done].
    destruct (Stop_entry (e_kill e) (e_stamp e) k s (Hr _ _ _ Hs)) as (s' & er & -> & _ & ->). done.
Qed.

Lemma process_exit_ok ns k pid res stamp itoa r r' :
  runtime_ok r -> process_exit ns k pid res stamp itoa r = Ret r' -> runtime_ok r'.
Proof.
  intros [Hr Hf]. unfold process_exit. destruct (lookup_service ns k r) as [s|] eqn:Hs; [|by intros [= <-]].
  destruct (Wait pid res stamp itoa s) as [s'| |] eqn:HW; [|done|done]. cbn. intros [= <-].
  split; [|exact Hf]. apply all_put; [done|]. destruct (Hr _ _ _ Hs) as [Hk Hok].
  split; [rewrite <- Hk; by eapply Wait_key|by eapply Wait_ok].
Qed.

Lemma runtime_reachable_ok r : reachable r -> runtime_ok r.
Proof.
  induction 1 as [|e s c r _ IH|e s ns r r' er _ IH HU|e s ns r r' er _ IH HD|r _ IH|e r r' _ IH HS|e r _ IH
    |o e ev r r' _ IH HE|ns k pid res stamp itoa r r' _ IH HP].
  - split; [|done]. intros ns k s Hs. by vm_compute in Hs.
  - by apply Create_ok.
  - destruct (Update_ok e s ns r IH) as (r1 & e1 & H1 & Hok). rewrite HU in H1. by injection H1 as <- _.
  - destruct (Delete_ok e s ns r IH) as (r1 & e1 & H1 & Hok). rewrite HD in H1. by injection H1 as <- _.
  - unfold runtime_Start. destruct (r_running r) eqn:Hr; [done|]. split; [apply IH|done].
  - destruct (runtime_Stop_ok e r IH) as (r1 & H1 & Hok & _). rewrite HS in H1. by injection H1 as <-.
  - split; [|apply IH]. apply all_each; [apply IH|]. intros ns k s Hs. destruct (shouldStart s); [|done].
    by apply entry_Start.
  - destruct (handle_event_ok o e ev r IH) as [(r1 & H1 & Hok)|(H1 & _)]; rewrite HE in H1; [|done].
    by injection H1 as <-.
  - by eapply process_exit_ok.
Qed.

(** ** What the operations guarantee *)

(** The runtime's services stay in order. In every reachable state a service is
    filed under the key of its own name and version and is well-formed; creating,
    updating, deleting and stopping never panic, and stopping a running runtime
    leaves every service it has not running. *)
Theorem runtime_invariant r :
  reachable r ->
  (forall ns k s, lookup_service ns k r = Some s -> serviceKey (sv s) = k /\ service_ok s) /\
  (forall e s ns, Update e s ns r <> Panic /\ Delete e s ns r <> Panic) /\
  (forall e, exists r', runtime_Stop e r = Ret r' /\
     (r_running r = true -> r_running r' = false /\
        forall ns k, running <$> lookup_service ns k r' = (fun _ => false) <$> lookup_service ns k r)).
Proof.
  intros Hok%runtime_reachable_ok. split_and!.
  - apply Hok.
  - intros e s ns. destruct (Update_ok e s ns r Hok) as (r1 & e1 & -> & _).
    by destruct (Delete_ok e s ns r Hok) as (r2 & e2 & -> & _).
  - intros e. destruct (runtime_Stop_ok e r Hok) as (r' & HS & _ & Hall). by exists r'.
Qed.

(** An update event for a service the runtime does not have stops it. In a
    reachable state handling an event panics exactly when it is an update event that
    names a service which its namespace, a namespace the runtime knows, lacks. *)
Theorem event_panics o e ev r :
  reachable r ->
  handle_event o e ev r = Panic <->
  ev_Type ev = UpdateEvent /\
  exists s services, ev_Service ev = Some s /\ namespaces r !! namespace_or (ev_Namespace ev) = Some services /\
    services !! serviceKey s = None.
Proof.
  intros Hok%runtime_reachable_ok. split.
  - intros HP. destruct (handle_event_ok o e ev r Hok) as [(r' & Hr & _)|(_ & H)]; [by rewrite HP in Hr|done].
  - intros (Ht & s & services & Hs & Hns & Hk). unfold handle_event. by rewrite Ht, Hs, Hns, Hk.
Qed.

(** Creating a service. If it fails no service changes; otherwise the key was
    free in the namespace, the new service is there, as its source was checked out,
    and no other service changes. It runs, unless its number of retries is negative:
    then it is kept without ever being started. *)
Theorem Create_spec e s c r r' er :
  Create e s c r = (r', er) ->
  match er with
  | Some _ => forall ns k, lookup_service ns k r' = lookup_service ns k r
  | None =>
      let ns := namespace_or (co_Namespace c) in
      exists v svc, checkoutSourceIfNeeded e s = inr v /\ lookup_service ns (serviceKey v) r = None /\
        (forall ns' k', lookup_service ns' k' r' =
           if decide (ns = ns' /\ serviceKey v = k') then Some svc else lookup_service ns' k' r) /\
        serviceKey (sv svc) = serviceKey v /\ sv_Source (sv svc) = sv_Source v /\
        running svc = (0 <=? co_Retries c)%Z
  end.
Proof.
  unfold Create. destruct (checkoutSourceIfNeeded e s) as [x|v] eqn:Hc; [by intros [= <- <-]|].
  set (ns := namespace_or _). set (c' := match co_Command c with [] => _ | _ => _ end).
  set (r1 := with_namespaces _ r).
  assert (forall ns' k', lookup_service ns' k' r1 = lookup_service ns' k' r) as Hr1 by (intros; apply lookup_made).
  assert (co_Retries c' = co_Retries c) as Hret by (unfold c'; by destruct (co_Command c)).
  case_bool_decide as Hin; [by intros [= <- <-]|].
  destruct (Start _ _ (newService v c' _)) as [[svc x] b] eqn:HS. destruct x; intros [= <- <-]; [done|].
  exists v, svc. rewrite Hr1 in Hin. split_and!; [done|by apply eq_None_not_Some| | | |].
  - intros ns' k'. by rewrite lookup_put, Hr1.
  - pose proof (Start_key (e_fork e ns (serviceKey v)) (e_stamp e) (newService v c' (e_now e))) as Hk.
    rewrite HS in Hk. exact Hk.
  - unfold Start in HS. destruct (negb _); [by injection HS as <- _|].
    destruct (e_fork _ _ _ _); [done|by injection HS as <- _].
  - unfold Start, shouldStart in HS. cbn in HS. rewrite Hret in HS.
    destruct (0 <=? co_Retries c)%Z; cbn in HS; [|by injection HS as <- _].
    destruct (e_fork _ _ _ _); [done|by injection HS as <- _].
Qed.

(** What an update leaves as it was. *)
Definition same_build (s s' : service) : Prop := updated s' = updated s /\ Exec s' = Exec s.

Lemma Start_build fork stamp s : same_build s (Start fork stamp s).1.1.
Proof. unfold Start. destruct (negb _); [done|]. by destruct (fork (Exec s)). Qed.

Lemma Stop_build kill stamp s s' e : Stop kill stamp s = Ret (s', e) -> same_build s s'.
Proof. unfold Stop. repeat (case_match; try done); by intros [= <- _]. Qed.

Definition builds_kept (r r' : runtime) : Prop :=
  forall ns k s', lookup_service ns k r' = Some s' ->
    exists s, lookup_service ns k r = Some s /\ same_build s s' /\ (sv_Source (sv s') = sv_Source (sv s)).

Lemma restart_build e ns k r r' er : restart e ns k r = Ret (r', er) -> builds_kept r r'.
Proof.
  unfold restart. destruct (lookup_service ns k r) as [s|] eqn:Hs.
  2:{ intros [= <- _] ns' k' s' Hs'. by exists s'. }
  destruct (Stop (e_kill e) (e_stamp e) s) as [[s1 e1]| |] eqn:HS; [|done|done]. cbn.
  pose proof (Stop_build _ _ _ _ _ HS) as [Hu1 Hx1].
  assert (sv_Source (sv s1) = sv_Source (sv s)) as Hsrc1.
  { unfold Stop in HS. repeat (case_match; try done); by injection HS as <- _. }
  pose proof (Start_build (e_fork e ns k) (e_stamp e) s1) as [Hu2 Hx2].
  assert (sv_Source (sv (Start (e_fork e ns k) (e_stamp e) s1).1.1) = sv_Source (sv s1)) as Hsrc2.
  { unfold Start. destruct (negb _); [done|]. by destruct (e_fork _ _ _ _). }
  destruct (Start _ _ s1) as [[s2 e2] b]. cbn in *.
  assert (forall s', same_build s s' -> sv_Source (sv s') = sv_Source (sv s) -> builds_kept r (put_service ns k s' r)) as Hput.
  { intros s' Hb Hsrc ns' k' t. rewrite lookup_put. case_decide as Hd; [|by exists t].
    destruct Hd as [<- <-]. intros [= <-]. by exists s. }
  destruct e1; [case_match|]; intros [= <- _]; apply Hput; try done; (split; congruence) || congruence.
Qed.

(** An update restarts what was there. The source that [Update] checks out for
    the service it is given is not used: afterwards every service has the executable,
    directory, source and time of update it had before. *)
Theorem Update_keeps_build e s ns r r' er :
  Update e s ns r = Ret (r', er) -> builds_kept r r'.
Proof.
  unfold Update. destruct (checkoutSourceIfNeeded e s); [|by apply restart_build].
  intros [= <- _] ns' k' s' Hs'. by exists s'.
Qed.

(** A service whose process could not be killed is forgotten. [Delete] returns
    the error and keeps the service, which no longer counts as running; deleting it
    again removes it without another attempt, and the process is left behind. *)
Theorem failed_kill_leaks e e2 s ns r svc p x :
  let n := namespace_or ns in let k := serviceKey s in
  reachable r -> lookup_service n k r = Some svc -> running svc = true -> PID svc = Some p ->
  e_kill e p = Some x ->
  exists r1 r2, Delete e s ns r = Ret (r1, Some x) /\ Delete e2 s ns r1 = Ret (r2, None) /\
    lookup_service n k r2 = None.
Proof.
  cbv zeta. intros Hok%runtime_reachable_ok Hs Hrun Hp Hkill. destruct (proj1 Hok _ _ _ Hs) as [_ Hsok].
  destruct (ok_running _ Hsok Hrun) as (_ & Hcl & _). destruct (ok_metadata _ Hsok) as [md Hmd]; [by rewrite Hp|].
  unfold Delete at 1. rewrite Hs, Hrun. cbn [negb]. unfold Stop. rewrite Hcl, Hp, Hmd, Hkill. cbn.
  eexists _, _. split; [done|]. unfold Delete. rewrite lookup_put, decide_True by done. cbn.
  split; [done|]. by rewrite lookup_remove, decide_True.
Qed.

(** ** Names in an archive: [validRelPath] *)

(** [strings.Contains] *)
Fixpoint contains (s p : string) : bool :=
  has_prefix s p || match s with "" => false | String _ s => contains s p end.

Definition backslash : string := String (ascii_of_nat 92) "".

Definition validRelPath (p : string) : bool :=
  negb (String.eqb p "" || contains p backslash || has_prefix p "/" || contains p "../").

Lemma contains_app x p y : contains (x +:+ p +:+ y) p = true.
Proof.
  induction x as [|a x IH]; cbn.
  - pose proof (has_prefix_app p y) as Hp. unfold contains. destruct (p +:+ y); by rewrite Hp.
  - rewrite IH. apply orb_true_r.
Qed.

Lemma dotdot_last name :
  contains name "../" = false -> ".." ∈ split_char "/" name -> last (split_char "/" name) = Some "..".
Proof.
  intros Hc (l1 & l2 & Hl)%list_elem_of_split. rewrite Hl. destruct l2 as [|w l2]; [by rewrite last_snoc|].
  exfalso. enough (contains name "../" = true) by congruence.
  rewrite <- (join_split "/" name), Hl. destruct l1 as [|v l1].
  - cbn [app]. rewrite join_cons by done. exact (contains_app "" "../" (join "/" (w :: l2))).
  - rewrite join_app, (join_cons "/" "..") by done.
    replace (join "/" (v :: l1) +:+ "/" +:+ ".." +:+ "/" +:+ join "/" (w :: l2)) with
      ((join "/" (v :: l1) +:+ "/") +:+ "../" +:+ join "/" (w :: l2)) by (by rewrite !str_app_assoc).
    apply contains_app.
Qed.

Lemma clean_downwards comps stack :
  Forall (fun c => c <> ".." /\ str_has "/" c = false) comps ->
  exists rest, Forall plain rest /\ foldl (clean_step true) stack comps = rev rest ++ stack.
Proof.
  intros Hc. revert stack. induction Hc as [|c comps [Hc Hs] _ IH]; intros stack; cbn; [by exists []|].
  unfold clean_step at 2. destruct (String.eqb_spec c ""); [by apply IH|].
  destruct (String.eqb_spec c "."); [by apply IH|]. cbn. rewrite (proj2 (String.eqb_neq c "..") Hc).
  destruct (IH (c :: stack)) as (rest & Hr & ->). exists (c :: rest). cbn. split; [|by rewrite <- app_assoc].
  constructor; [|done]. split; [set_solver|done].
Qed.

(** An accepted name stays under the directory, ".." at its end apart. For a
    destination directory and a name that [validRelPath] accepts and whose last
    component is not "..", the file extracted is at the destination or below it. *)
Theorem validRelPath_contained base name :
  base <> [] -> Forall plain base ->
  validRelPath name = true -> last (split_char "/" name) <> Some ".." ->
  exists rest, Forall plain rest /\
    Join ["/" +:+ join "/" base; name] = "/" +:+ join "/" (base ++ rest).
Proof.
  intros Hne Hbase Hv Hlast. unfold validRelPath in Hv. apply negb_true_iff in Hv.
  apply orb_false_iff in Hv as [Hv Hdd]. apply orb_false_iff in Hv as [Hv _]. apply orb_false_iff in Hv as [Hn _].
  apply String.eqb_neq in Hn.
  assert (Forall (fun c => c <> ".." /\ str_has "/" c = false) (split_char "/" name)) as Hcomps.
  { pose proof (split_char_free "/" name) as Hfree. rewrite Forall_forall in Hfree |- *. intros c Hin.
    split; [|by apply Hfree]. intros ->. by apply Hlast, dotdot_last. }
  destruct (clean_downwards _ (rev base) Hcomps) as (rest & Hr & Hfold). exists rest. split; [done|].
  unfold Join. rewrite filter_cons_True by (by destruct (join "/" base)). rewrite filter_cons_True by done.
  cbn [filter list_filter]. unfold Clean. set (p := join "/" ["/" +:+ join "/" base; name]).
  assert (p = "/" +:+ (join "/" base +:+ String "/" name)) as Hp.
  { unfold p. rewrite join_cons by done. by rewrite !str_app_assoc. }
  rewrite Hp, has_prefix_app. cbn [String.append split_char Ascii.eqb Bool.eqb]. rewrite split_char_mid.
  rewrite plain_split by done. cbn [foldl]. change (clean_step true [] "") with (@nil string).
  rewrite foldl_app, (clean_plain_fold true base []), app_nil_r, Hfold by done.
  rewrite <- rev_app_distr, rev_involutive. done.
Qed.

(** The last component is not looked at: such a name leads to the parent of the
    destination. *)
Example parent_accepted : validRelPath ".." = true /\ Join ["/tmp/uploads"; ".."] = "/tmp".
Proof. by split. Qed.

(** ** Concrete runs *)
Definition ex_env : env :=
  mkEnv (fun src _ => inr src) (fun _ _ _ => inr "4711") (fun _ => None) 100 "2024-01-01T00:00:00Z".

(** Killing fails. *)
Definition stuck_env : env :=
  mkEnv (fun src _ => inr src) (fun _ _ _ => inr "4712") (fun _ => Some "operation not permitted") 200
    "2024-01-02T00:00:00Z".

Definition greeter : Service := mkService "greeter" "latest" "" None.
Definition one_retry : CreateOptions := mkCreateOptions "" ["greeter"] [] [] 1.

Definition ex_runtime : runtime := (Create ex_env greeter one_retry NewRuntime).1.

Lemma ex_runtime_reachable : reachable ex_runtime.
Proof. apply reach_Create, reach_new. Qed.

Definition ex_service : service :=
  (Start (fun _ => inr "4711") "t" (newService greeter one_retry 100)).1.1.

Lemma ex_service_reachable : wreachable (mkWatched ex_service 1 []).
Proof.
  eapply w_step; [apply (w_new greeter one_retry 100)|].
  apply (w_start (mkWatched _ 0 []) (fun _ => inr "4711") "t" ex_service None true). reflexivity.
Qed.

Lemma service_watched_witness :
  running ex_service = true /\ exists p, PID ex_service = Some p /\ (0 < 1 \/ p ∈ @nil string).
Proof.
  split; [reflexivity|].
  destruct (service_watched _ ex_service_reachable) as (Hrun & _). by destruct (Hrun eq_refl) as (_ & _ & _ & Hp).
Defined.

Lemma retries_no_limit_witness :
  exists s', crashes 1000 (fun _ => inr "4711") "exit status 1" "t" "1" ex_service = Some s' /\
    running s' = true /\ retries s' = 0%Z.
Proof.
  apply (retries_no_limit 1000 (fun _ => inr "4711") "exit status 1" "t" "1" ex_service).
  - by apply (Start_ok (fun _ => inr "4711") "t" (newService greeter one_retry 100) _ None true (newService_ok _ _ _)).
  - reflexivity.
  - vm_compute. discriminate.
  - intros x. by exists "4711".
Defined.

Lemma runtime_invariant_witness :
  exists s, lookup_service "default" "greeter:latest" ex_runtime = Some s /\ serviceKey (sv s) = "greeter:latest".
Proof.
  destruct (lookup_service "default" "greeter:latest" ex_runtime) as [s|] eqn:Hs; [|vm_compute in Hs; discriminate].
  exists s. split; [reflexivity|]. exact (proj1 (proj1 (runtime_invariant ex_runtime ex_runtime_reachable) _ _ _ Hs)).
Defined.

Definition unknown_service_event : Event :=
  mkEvent UpdateEvent 500 (Some (mkService "greeter" "v2" "" None)) "".

Lemma event_panics_witness : handle_event order_id ex_env unknown_service_event ex_runtime = Panic.
Proof.
  apply (event_panics order_id ex_env unknown_service_event ex_runtime ex_runtime_reachable).
  split; [reflexivity|]. eexists _, _. split_and!; vm_compute; reflexivity.
Defined.

Lemma Create_spec_witness :
  exists svc, lookup_service "default" "greeter:latest" ex_runtime = Some svc /\ running svc = true.
Proof.
  destruct (Create_spec ex_env greeter one_retry NewRuntime ex_runtime None ltac:(vm_compute; reflexivity))
    as (v & svc & Hv & _ & Hl & _ & _ & Hr).
  injection Hv as <-. exists svc. rewrite Hl. split; [reflexivity|exact Hr].
Defined.

Lemma failed_kill_leaks_witness :
  exists r1 r2, Delete stuck_env greeter "" ex_runtime = Ret (r1, Some "operation not permitted") /\
    Delete ex_env greeter "" r1 = Ret (r2, None) /\ lookup_service "default" "greeter:latest" r2 = None.
Proof.
  destruct (lookup_service "default" "greeter:latest" ex_runtime) as [svc|] eqn:Hs; [|vm_compute in Hs; discriminate].
  eapply (failed_kill_leaks stuck_env ex_env greeter "" ex_runtime svc "4711"); [exact ex_runtime_reachable|exact Hs|..].
  - vm_compute in Hs. by injection Hs as <-.
  - vm_compute in Hs. by injection Hs as <-.
  - reflexivity.
Defined.

Lemma Update_keeps_build_witness :
  match Update stuck_env (mkService "greeter" "latest" "github.com/greeter" None) "" ex_runtime with
  | Ret (r', _) => builds_kept ex_runtime r'
  | _ => False
  end.
Proof.
  destruct (Update stuck_env _ "" ex_runtime) as [[r' er]| |] eqn:HU; [|vm_compute in HU; discriminate..].
  exact (Update_keeps_build stuck_env _ "" ex_runtime r' er HU).
Defined.

Lemma validRelPath_contained_witness :
  exists rest, Forall plain rest /\ Join ["/" +:+ join "/" ["tmp"; "uploads"]; "a/./b..c"] = "/" +:+ join "/" (["tmp"; "uploads"] ++ rest).
Proof.
  apply (validRelPath_contained ["tmp"; "uploads"] "a/./b..c"); [done| |reflexivity|vm_compute; discriminate].
  repeat (constructor; [split; [set_solver|reflexivity]|]). constructor.
Defined.

(** An update event is handled again when it arrives again: what the service
    remembers of its last update does not change. *)
Example event_handled_twice :
  (fun r => (fun s => (PID s, updated s)) <$> lookup_service "default" "greeter:latest" r) <$>
  match handle_event order_id (mkEnv (fun src _ => inr src) (fun _ _ _ => inr "2") (fun _ => None) 600 "t")
          (mkEvent UpdateEvent 500 (Some greeter) "") ex_runtime with
  | Ret r => match handle_event order_id (mkEnv (fun src _ => inr src) (fun _ _ _ => inr "3") (fun _ => None) 700 "t")
                     (mkEvent UpdateEvent 500 (Some greeter) "") r with
             | Ret r' => [r; r'] | _ => [] end
  | _ => [] end
  = [Some (Some "2", 100%Z); Some (Some "3", 100%Z)].
Proof. vm_compute. reflexivity. Qed.

(** Two services with one key: the second cannot be created. *)
Example key_collision :
  (Create ex_env (mkService "a" "b:c" "" None) one_retry
     (Create ex_env (mkService "a:b" "c" "" None) one_retry NewRuntime).1).2 = Some "service already running".
Proof. vm_compute. reflexivity. Qed.
