(* ===== verification/ConfigLoader.v ===== *)
(** * Dynamic configuration: [config/loader/memory/memory.go], [config/default.go],
    [config/reader/json/json.go]

    The loader that merges the change sets of its sources, the watchers it sends new
    values to, the configuration that follows the loader, and the json reader. A
    reader is the class [Reader]; what sources return is an argument. The version of
    a snapshot is the clock as text, compared as text. Timestamps, which nothing
    reads, are left out. *)
From Stdlib Require Import Sorted.
From S2P Require Import Prelude GoStrings.

(** ** Data *)
Record ChangeSet := mkChangeSet {
  cs_Data : string;
  cs_Checksum : string;
  cs_Format : string;
  cs_Source : string;
}.

Record Snapshot := mkSnapshot { sn_ChangeSet : ChangeSet; sn_Version : string }.

(** The interfaces [reader.Reader], [reader.Values] and [reader.Value]; [V] are
    values, [X] is the value at a path. *)
Class Reader (V X : Type) := {
  Merge : list (option ChangeSet) -> string + ChangeSet;
  Values : ChangeSet -> string + V;
  vget : V -> list string -> X;
  vset : V -> list string -> string -> V;
  vdel : V -> list string -> V;
  vbytes : X -> string;
  reader_String : string;
}.

Definition ver_le (a b : string) : bool := negb (str_ltb b a).

(** ** The loader *)
Section loader.
Context {V X : Type} `{Reader V X} (Sum : string -> string).

Record updateValue := mkUpdate { u_value : X; u_version : string }.

(** [w_updates] is a channel with room for one update. *)
Record watcher := mkWatcher {
  w_value : X;
  w_version : string;
  w_exit : bool;
  w_updates : option updateValue;
  w_path : list string;
}.

(** [watchers] holds addresses of [heap]: a watcher leaves the list some time after
    it was stopped. *)
Record memory := mkMemory {
  vals : option V;
  exit : bool;
  snap : option Snapshot;
  watchers : list nat;
  sets : list (option ChangeSet);
  sources : list nat;
  disabled : bool;
  heap : list watcher;
}.

Definition set_config (v : option V) (s : option Snapshot) (m : memory) : memory :=
  mkMemory v (exit m) s (watchers m) (sets m) (sources m) (disabled m) (heap m).
Definition set_sets (ss : list (option ChangeSet)) (srcs : list nat) (m : memory) : memory :=
  mkMemory (vals m) (exit m) (snap m) (watchers m) ss srcs (disabled m) (heap m).
Definition set_watchers (ws : list nat) (h : list watcher) (m : memory) : memory :=
  mkMemory (vals m) (exit m) (snap m) ws (sets m) (sources m) (disabled m) h.

(** Sources given as options are named by their index; [name] is their [String()]. *)
Definition NewLoader (srcs : list nat) (name : nat -> string) (dis : bool) : memory :=
  mkMemory None false None [] (map (fun s => Some (mkChangeSet "" "" "" (name s))) srcs) srcs dis [].

(** A source's watcher returned a change set. The values are nil when they cannot be
    read. *)
Definition save (idx : nat) (cs : option ChangeSet) (ver : string) (m : memory) : memory * option string :=
  let m := set_sets (<[idx := cs]> (sets m)) (sources m) m in
  match Merge (sets m) with
  | inl e => (m, Some e)
  | inr set =>
      let v := match Values set with inr v => Some v | inl _ => None end in
      (set_config v (Some (mkSnapshot set ver)) m, None)
  end.

(** The values read are kept when reading them failed. *)
Definition reload (ver : string) (m : memory) : memory * option string :=
  match Merge (sets m) with
  | inl e => (m, Some e)
  | inr set =>
      let v := match Values set with inl _ => None | inr _ => vals m end in
      (set_config v (Some (mkSnapshot set ver)) m, None)
  end.

(** [Load] before the watchers are updated: what each new source's [Read] returned, or
    the message of its error. The messages are kept apart; the code joins them. *)
Definition load_one (acc : memory * list string) (read : nat * (string + option ChangeSet)) : memory * list string :=
  let '(m, errs) := acc in
  match read with
  | (_, inl e) => (m, errs ++ [e])
  | (s, inr cs) => (set_sets (sets m ++ [cs]) (sources m ++ [s]) m, errs)
  end.

Definition Load (reads : list (nat * (string + option ChangeSet))) (ver : string) (m : memory) :
    memory * list string :=
  let '(m, errs) := foldl load_one (m, []) reads in
  match reload ver m with
  | (m, Some e) => (m, errs ++ [e])
  | (m, None) => (m, errs)
  end.

(** [Sync] before the watchers are updated: it reads every source. *)
Definition Sync (read : nat -> string + option ChangeSet) (ver : string) (m : memory) : memory * list string :=
  let rs := map read (sources m) in
  let gerr := omap (fun r => match r with inl e => Some e | inr _ => None end) rs in
  let got := omap (fun r => match r with inl _ => None | inr cs => Some cs end) rs in
  match Merge got with
  | inl e => (m, [e])
  | inr set =>
      match Values set with
      | inl e => (m, [e])
      | inr v => (set_config (Some v) (Some (mkSnapshot set ver)) m, gerr)
      end
  end.

(** [Get]: the loader is synchronised first when it has no values. *)
Definition Get (path : list string) (read : nat -> string + option ChangeSet) (ver : string) (m : memory) :
    memory * outcome string X :=
  let '(m, errs) := match vals m with Some _ => (m, []) | None => Sync read ver m end in
  match errs with
  | e :: _ => (m, Fail e)
  | [] =>
      match vals m with
      | Some v => (m, Ret (vget v path))
      | None =>
          match snap m with
          | None => (m, Panic)
          | Some s =>
              match Values (sn_ChangeSet s) with
              | inl e => (m, Fail e)
              | inr v => (set_config (Some v) (snap m) m, Ret (vget v path))
              end
          end
      end
  end.

Definition take_Snapshot (read : nat -> string + option ChangeSet) (ver : string) (m : memory) :
    memory * outcome string Snapshot :=
  let '(m, errs) := match vals m with Some _ => (m, []) | None => Sync read ver m end in
  match errs with
  | e :: _ => (m, Fail e)
  | [] => (m, match snap m with Some s => Ret s | None => Panic end)
  end.

Definition Watch (path : list string) (read : nat -> string + option ChangeSet) (ver : string) (m : memory) :
    memory * outcome string nat :=
  if disabled m then (m, Fail "watcher is disabled")
  else
    match Get path read ver m with
    | (m, Fail e) => (m, Fail e)
    | (m, Panic) => (m, Panic)
    | (m, Ret value) =>
        match snap m with
        | None => (m, Panic)
        | Some s =>
            let a := length (heap m) in
            (set_watchers (watchers m ++ [a]) (heap m ++ [mkWatcher value (sn_Version s) false None path]) m, Ret a)
        end
    end.

(** *** Sending updates

    [update] takes the watchers, the values and the snapshot under the lock and then
    sends one by one, with the version the loader has at that moment. *)
Record job := mkJob { j_watchers : list nat; j_vals : option V; j_version : string }.

Definition update_begin (m : memory) : outcome string job :=
  match snap m, watchers m with
  | Some s, ws => Ret (mkJob ws (vals m) (sn_Version s))
  | None, [] => Ret (mkJob [] (vals m) "")
  | None, _ => Panic
  end.

Definition set_watcher (a : nat) (w : watcher) (m : memory) : memory :=
  set_watchers (watchers m) (<[a := w]> (heap m)) m.

Definition with_updates (u : option updateValue) (w : watcher) : watcher :=
  mkWatcher (w_value w) (w_version w) (w_exit w) u (w_path w).

(** A stopped watcher's channel is closed: sending on it panics. *)
Definition send_one (j : job) (a : nat) (m : memory) : outcome string memory :=
  match heap m !! a with
  | None => Panic
  | Some w =>
      if ver_le (j_version j) (w_version w) then Ret m
      else
        match snap m, j_vals j with
        | Some s, Some v =>
            if w_exit w then Panic
            else
              match w_updates w with
              | Some _ => Ret m
              | None => Ret (set_watcher a (with_updates (Some (mkUpdate (vget v (w_path w)) (sn_Version s))) w) m)
              end
        | _, _ => Panic
        end
  end.

Definition update (m : memory) : outcome string memory :=
  j <-! update_begin m; foldl (fun acc a => m <-! acc; send_one j a m) (Ret m) (j_watchers j).

(** *** The watcher's side *)

(** [Next] took an update from the channel: it goes on, or returns a snapshot. *)
Definition next_update (u : updateValue) (w : watcher) : watcher * option Snapshot :=
  let w := with_updates None w in
  if ver_le (u_version u) (w_version w) then (w, None)
  else
    let w := mkWatcher (w_value w) (u_version u) (w_exit w) (w_updates w) (w_path w) in
    if String.eqb (vbytes (w_value w)) (vbytes (u_value u)) then (w, None)
    else
      let data := vbytes (u_value u) in
      (mkWatcher (u_value u) (w_version w) (w_exit w) (w_updates w) (w_path w),
       Some (mkSnapshot (mkChangeSet data (Sum data) reader_String "memory") (w_version w))).

Definition Stop (a : nat) (m : memory) : memory * option string :=
  match heap m !! a with
  | Some w => (set_watcher a (mkWatcher (w_value w) (w_version w) true (w_updates w) (w_path w)) m, None)
  | None => (m, None)
  end.

(** The goroutine that takes a stopped watcher out of the list. *)
Definition remove (a : nat) (m : memory) : memory :=
  set_watchers (filter (fun b => b <> a) (watchers m)) (heap m) m.

Definition Close (m : memory) : memory :=
  mkMemory (vals m) true (snap m) (watchers m) (sets m) (sources m) (disabled m) (heap m).

(** ** Every history *)

(** The loader, the updates under way and the snapshots watchers have returned. *)
Record run := mkRun { r_m : memory; r_jobs : list job; r_out : list (nat * Snapshot) }.

Definition start_job (m : memory) (j : outcome string job) (r : run) : run :=
  mkRun m (match j with Ret j => r_jobs r ++ [j] | _ => r_jobs r end) (r_out r).

(** An operation that may update the watchers is followed by the start of an update,
    whether it gets that far or not. *)
Inductive step (r : run) : run -> Prop :=
| s_save idx cs ver m : idx < length (sets (r_m r)) -> save idx cs ver (r_m r) = (m, None) ->
    step r (start_job m (update_begin m) r)
| s_save_failed idx cs ver m e : idx < length (sets (r_m r)) -> save idx cs ver (r_m r) = (m, Some e) -> step r (mkRun m (r_jobs r) (r_out r))
| s_Load reads ver m errs : Load reads ver (r_m r) = (m, errs) -> step r (start_job m (update_begin m) r)
| s_Sync read ver m errs : Sync read ver (r_m r) = (m, errs) -> step r (start_job m (update_begin m) r)
| s_Get path read ver m res : Get path read ver (r_m r) = (m, res) -> step r (start_job m (update_begin m) r)
| s_Watch path read ver m res : Watch path read ver (r_m r) = (m, res) -> step r (mkRun m (r_jobs r) (r_out r))
| s_send i j a ws m : r_jobs r !! i = Some j -> j_watchers j = a :: ws -> send_one j a (r_m r) = Ret m ->
    step r (mkRun m (<[i := mkJob ws (j_vals j) (j_version j)]> (r_jobs r)) (r_out r))
| s_next a w u w' s : heap (r_m r) !! a = Some w -> w_updates w = Some u -> next_update u w = (w', s) ->
    step r (mkRun (set_watcher a w' (r_m r)) (r_jobs r) (r_out r ++ map (pair a) (option_list s)))
| s_Stop a : step r (mkRun (Stop a (r_m r)).1 (r_jobs r) (r_out r))
| s_remove a : step r (mkRun (remove a (r_m r)) (r_jobs r) (r_out r))
| s_Close : step r (mkRun (Close (r_m r)) (r_jobs r) (r_out r)).

Inductive reachable : run -> Prop :=
| reach_new srcs name dis : reachable (mkRun (NewLoader srcs name dis) [] [])
| reach_step r r' : reachable r -> step r r' -> reachable r'.

(** What one watcher has returned. *)
Definition returned (a : nat) (l : list (nat * Snapshot)) : list Snapshot :=
  omap (fun d => if decide (d.1 = a) then Some d.2 else None) l.

Definition data (s : Snapshot) : string := cs_Data (sn_ChangeSet s).

(** Versions increase, and no value is reported twice in a row. *)
Definition advances (s t : Snapshot) : Prop :=
  str_ltb (sn_Version s) (sn_Version t) = true /\ data s <> data t.

(** What a watcher returned last is the value it holds, at its version or before. *)
Definition watcher_ok (w : watcher) (l : list Snapshot) : Prop :=
  Sorted advances l /\
  match last l with
  | None => True
  | Some s => data s = vbytes (w_value w) /\
      (sn_Version s = w_version w \/ str_ltb (sn_Version s) (w_version w) = true)
  end.

Definition heap_ok (h : list watcher) (out : list (nat * Snapshot)) : Prop :=
  forall a, match h !! a with Some w => watcher_ok w (returned a out) | None => returned a out = [] end.

(** Operations that leave every watcher's value and version alone, or add one. *)
Definition same_watchers (h h' : list watcher) : Prop :=
  forall a, match h !! a with
            | Some w => exists w', h' !! a = Some w' /\ w_value w' = w_value w /\ w_version w' = w_version w
            | None => True
            end.

Lemma heap_ok_same h h' out : same_watchers h h' -> heap_ok h out -> heap_ok h' out.
Proof.
  intros Hs Hok a. specialize (Hs a). specialize (Hok a). destruct (h !! a) as [w|].
  - destruct Hs as (w' & -> & Hv & Hr). unfold watcher_ok in *. by rewrite Hv, Hr.
  - rewrite Hok. destruct (h' !! a); [|done]. split; [constructor|done].
Qed.

Lemma same_refl h : same_watchers h h.
Proof. intros a. destruct (h !! a) as [w|]; [by exists w|done]. Qed.

Lemma same_set a w w' (m : memory) :
  heap m !! a = Some w -> w_value w' = w_value w -> w_version w' = w_version w ->
  same_watchers (heap m) (heap (set_watcher a w' m)).
Proof.
  intros Ha Hv Hr b. cbn. destruct (heap m !! b) as [w0|] eqn:Hb; [|done].
  destruct (decide (a = b)) as [<-|Hab].
  - exists w'. rewrite list_lookup_insert_eq by (by eapply lookup_lt_Some). rewrite Ha in Hb. by injection Hb as <-.
  - exists w0. by rewrite list_lookup_insert_ne.
Qed.

Lemma load_fold_heap reads m errs : heap (foldl load_one (m, errs) reads).1 = heap m.
Proof.
  revert m errs. induction reads as [|[s [e|cs]] reads IH]; intros m errs; cbn; [done|apply IH|].
  by rewrite IH.
Qed.

Lemma save_heap idx cs ver m m' e : save idx cs ver m = (m', e) -> heap m' = heap m.
Proof. unfold save. by destruct (Merge _); intros [= <- _]. Qed.

Lemma Load_heap reads ver m m' errs : Load reads ver m = (m', errs) -> heap m' = heap m.
Proof.
  unfold Load. pose proof (load_fold_heap reads m []) as Hh. destruct (foldl _ _ _) as [m1 e1]. cbn in Hh.
  unfold reload. by destruct (Merge _); intros [= <- _].
Qed.

Lemma Sync_heap read ver m m' errs : Sync read ver m = (m', errs) -> heap m' = heap m.
Proof.
  unfold Sync. destruct (Merge _); [by intros [= <- _]|]. by destruct (Values _); intros [= <- _].
Qed.

Lemma Get_heap path read ver m m' res : Get path read ver m = (m', res) -> heap m' = heap m.
Proof.
  unfold Get. assert (forall m1 errs, match vals m with Some _ => (m, []) | None => Sync read ver m end = (m1, errs) ->
    heap m1 = heap m) as H1.
  { intros m1 errs. destruct (vals m); [by intros [= <- _]|apply Sync_heap]. }
  destruct (match vals m with Some _ => _ | None => _ end) as [m1 errs]. specialize (H1 m1 errs eq_refl).
  destruct errs; [|by intros [= <- _]]. destruct (vals m1); [by intros [= <- _]|].
  destruct (snap m1); [|by intros [= <- _]]. destruct (Values _); by intros [= <- _].
Qed.

Lemma Watch_same path read ver m m' res : Watch path read ver m = (m', res) -> same_watchers (heap m) (heap m').
Proof.
  unfold Watch. destruct (disabled m); [intros [= <- _]; apply same_refl|].
  destruct (Get path read ver m) as [m1 r] eqn:HG. apply Get_heap in HG. rewrite <- HG.
  destruct r; [|intros [= <- _]; apply same_refl..]. destruct (snap m1); intros [= <- _]; [|apply same_refl].
  intros b. cbn. destruct (heap m1 !! b) as [w|] eqn:Hb; [|done]. exists w. split; [|done]. by apply lookup_app_l_Some.
Qed.

Lemma send_one_same j a m m' : send_one j a m = Ret m' -> same_watchers (heap m) (heap m').
Proof.
  unfold send_one. destruct (heap m !! a) as [w|] eqn:Ha; [|done].
  destruct (ver_le _ _); [intros [= <-]; apply same_refl|]. destruct (snap m), (j_vals j); try done.
  destruct (w_exit w); [done|]. destruct (w_updates w); intros [= <-]; [apply same_refl|]. by eapply same_set.
Qed.

Lemma returned_app a l l' : returned a (l ++ l') = returned a l ++ returned a l'.
Proof. apply omap_app. Qed.

Lemma Sorted_snoc_last {A} (R : A -> A -> Prop) l x :
  Sorted R l -> match last l with Some y => R y x | None => True end -> Sorted R (l ++ [x]).
Proof.
  intros Hs Hl. destruct l as [|y l _] using rev_ind; [by repeat constructor|]. rewrite last_snoc in Hl.
  clear -Hs Hl. rewrite <- app_assoc. cbn. induction l as [|z l IH]; cbn in *.
  - repeat constructor. done.
  - apply Sorted_inv in Hs as [Hs Hd]. constructor; [by apply IH|]. destruct l; cbn in *; by inversion Hd; constructor.
Qed.

Lemma next_update_ok a w u w' s (m : memory) out :
  heap m !! a = Some w -> next_update u w = (w', s) -> heap_ok (heap m) out ->
  heap_ok (heap (set_watcher a w' m)) (out ++ map (pair a) (option_list s)).
Proof.
  intros Ha Hn Hok b. cbn. rewrite returned_app. destruct (decide (a = b)) as [<-|Hab].
  2:{ rewrite list_lookup_insert_ne by done. specialize (Hok b).
      assert (returned b (map (pair a) (option_list s)) = []) as -> by (destruct s; cbn; by rewrite ?decide_False).
      by rewrite app_nil_r. }
  rewrite list_lookup_insert_eq by (by eapply lookup_lt_Some). specialize (Hok a). rewrite Ha in Hok.
  destruct Hok as [Hs Hl]. unfold next_update in Hn. cbn in Hn.
  destruct (ver_le (u_version u) (w_version w)) eqn:Hv; [injection Hn as <- <-; cbn; by rewrite app_nil_r|].
  apply negb_false_iff in Hv.
  assert (forall t, last (returned a out) = Some t -> str_ltb (sn_Version t) (u_version u) = true) as Hlt.
  { intros t Ht. rewrite Ht in Hl. destruct Hl as [_ [-> |Hlt]]; [done|]. by eapply str_ltb_trans. }
  destruct (String.eqb_spec (vbytes (w_value w)) (vbytes (u_value u))) as [Heq|Hne]; injection Hn as <- <-; cbn.
  - rewrite app_nil_r. split; [done|]. destruct (last (returned a out)) as [t|]; [|done]. cbn.
    destruct Hl as [Hd _]. split; [done|]. right. by apply Hlt.
  - rewrite decide_True by done. split.
    + apply Sorted_snoc_last; [done|]. destruct (last (returned a out)) as [t|]; [|done].
      destruct Hl as [Hd _]. split; [by apply Hlt|]. cbn. unfold data in Hd |- *. congruence.
    + rewrite last_snoc. cbn. split; [done|by left].
Qed.

Lemma step_heap_ok r r' : heap_ok (heap (r_m r)) (r_out r) -> step r r' -> heap_ok (heap (r_m r')) (r_out r').
Proof.
  intros Hok Hs. destruct Hs as [idx cs ver m _ Hm|idx cs ver m e _ Hm|reads ver m errs Hm|read ver m errs Hm|path read ver m res Hm
    |path read ver m res Hm|i j a ws m _ _ Hm|a w u w' s Ha _ Hn|a|a|]; cbn.
  - by rewrite (save_heap _ _ _ _ _ _ Hm).
  - by rewrite (save_heap _ _ _ _ _ _ Hm).
  - by rewrite (Load_heap _ _ _ _ _ Hm).
  - by rewrite (Sync_heap _ _ _ _ _ Hm).
  - by rewrite (Get_heap _ _ _ _ _ _ Hm).
  - eapply heap_ok_same; [by eapply Watch_same|done].
  - eapply heap_ok_same; [by eapply send_one_same|done].
  - by eapply next_update_ok.
  - unfold Stop. destruct (heap (r_m r) !! a) as [w|] eqn:Ha; [|done].
    eapply heap_ok_same; [by eapply same_set|done].
  - done.
  - done.
Qed.

(** C19: a watcher moves forward. In every history of the loader, however updates to
    the watchers interleave with new change sets, the snapshots a watcher returns have
    increasing versions, and none repeats the value of the one before it. *)
Theorem watcher_advances r a : reachable r -> Sorted advances (returned a (r_out r)).
Proof.
  intros Hr. assert (heap_ok (heap (r_m r)) (r_out r)) as Hok.
  { induction Hr as [srcs name dis|r r' _ IH Hs]; [|by eapply step_heap_ok]. intros b. by destruct b. }
  specialize (Hok a). destruct (_ !! a); [apply Hok|]. rewrite Hok. constructor.
Qed.

(** ** One update *)

Definition deliver (s : Snapshot) (v : V) (w : watcher) : watcher :=
  if ver_le (sn_Version s) (w_version w) then w
  else
    match w_updates w with
    | Some _ => w
    | None => with_updates (Some (mkUpdate (vget v (w_path w)) (sn_Version s))) w
    end.

Definition set_heap (h : list watcher) (m : memory) : memory := set_watchers (watchers m) h m.

Definition live (h : list watcher) (a : nat) : Prop := exists w, h !! a = Some w /\ w_exit w = false.

Lemma send_one_live ws v s a m w :
  snap m = Some s -> heap m !! a = Some w -> w_exit w = false ->
  send_one (mkJob ws (Some v) (sn_Version s)) a m = Ret (set_watcher a (deliver s v w) m).
Proof.
  intros Hs Ha Hx. unfold send_one, deliver. rewrite Ha. cbn.
  assert (set_watcher a w m = m) as Hid by (unfold set_watcher, set_watchers; rewrite list_insert_id by done; by destruct m).
  destruct (ver_le _ _); [by rewrite Hid|]. rewrite Hs, Hx. by destruct (w_updates w); rewrite ?Hid.
Qed.

Lemma sends_live ws v s l m :
  snap m = Some s -> NoDup l -> Forall (live (heap m)) l ->
  exists h, foldl (fun acc a => m <-! acc; send_one (mkJob ws (Some v) (sn_Version s)) a m) (Ret m) l = Ret (set_heap h m) /\
    forall b, h !! b = (if decide (b ∈ l) then deliver s v <$> heap m !! b else heap m !! b).
Proof.
  revert m. induction l as [|a l IH]; intros m Hs Hnd Hl.
  { exists (heap m). split; [by destruct m|]. intros b. by rewrite decide_False by inversion 1. }
  apply NoDup_cons in Hnd as [Hal Hnd]. apply Forall_cons in Hl as [(w & Ha & Hx) Hl].
  cbn. rewrite (send_one_live _ _ _ _ _ w) by done. destruct (IH (set_watcher a (deliver s v w) m)) as (h & Hh & Hb); [done..| |].
  { apply Forall_forall. intros b Hin. rewrite Forall_forall in Hl. destruct (Hl b Hin) as (w' & Hb & Hx').
    exists w'. cbn. rewrite list_lookup_insert_ne by (by intros ->). done. }
  exists h. split; [rewrite Hh; by destruct m|]. intros b. rewrite Hb. cbn. destruct (decide (a = b)) as [<-|Hab].
  - rewrite decide_False by done. rewrite decide_True by (apply elem_of_cons; by left).
    rewrite list_lookup_insert_eq by (by eapply lookup_lt_Some). by rewrite Ha.
  - rewrite list_lookup_insert_ne by done.
    destruct (decide (b ∈ l)) as [Hin|Hin], (decide (b ∈ a :: l)) as [Hin'|Hin']; try done.
    + destruct Hin'. apply elem_of_cons. by right.
    + by apply elem_of_cons in Hin' as [->|?].
Qed.

(** An update reaches every watcher. When no watcher is stopped and nothing else
    runs meanwhile, [update] does not fail; it puts the value at its path, at the
    current version, into the channel of every watcher that is behind and whose
    channel is empty, and changes nothing else. *)
Theorem update_delivers m s v :
  snap m = Some s -> vals m = Some v -> NoDup (watchers m) -> Forall (live (heap m)) (watchers m) ->
  exists h, update m = Ret (set_heap h m) /\
    forall a, h !! a = (if decide (a ∈ watchers m) then deliver s v <$> heap m !! a else heap m !! a).
Proof.
  intros Hs Hv Hnd Hl. unfold update, update_begin. rewrite Hs, Hv. cbn. by apply sends_live.
Qed.

(** What [Next] makes of a delivered update. *)
Lemma next_deliver s v w u :
  w_updates w = None -> w_updates (deliver s v w) = Some u ->
  str_ltb (w_version w) (sn_Version s) = true /\ u = mkUpdate (vget v (w_path w)) (sn_Version s) /\
  w_version (next_update u (deliver s v w)).1 = sn_Version s /\
  option_map data (next_update u (deliver s v w)).2 =
    (if String.eqb (vbytes (w_value w)) (vbytes (vget v (w_path w))) then None else Some (vbytes (vget v (w_path w)))).
Proof.
  unfold deliver. intros Hu. rewrite Hu. destruct (ver_le _ _) eqn:Hv; [congruence|]. intros [= <-].
  unfold ver_le in Hv. apply negb_false_iff in Hv. split; [done|]. split; [done|]. unfold next_update, ver_le. cbn. rewrite Hv. cbn.
  by destruct (String.eqb _ _).
Qed.

(** What [Load] brings does not reach the watchers. When the merged change set can
    be read, [Load] leaves the loader with the values it had before, under a new
    snapshot; a watcher that holds the value at its path is sent the same value under
    the new version, and [Next] drops it and takes the version. *)
Theorem Load_skips_watchers reads ver m v set v' a w :
  vals m = Some v -> Merge (sets (Load reads ver m).1) = inr set -> Values set = inr v' ->
  NoDup (watchers m) -> Forall (live (heap m)) (watchers m) ->
  a ∈ watchers m -> heap m !! a = Some w -> w_updates w = None ->
  str_ltb (w_version w) ver = true -> vbytes (w_value w) = vbytes (vget v (w_path w)) ->
  snap (Load reads ver m).1 = Some (mkSnapshot set ver) /\ vals (Load reads ver m).1 = Some v /\
  exists m' w' u, update (Load reads ver m).1 = Ret m' /\ heap m' !! a = Some w' /\ w_updates w' = Some u /\
    (next_update u w').2 = None /\ w_version (next_update u w').1 = ver.
Proof.
  intros Hv Hm Hset Hnd Hl Ha Hw Hu Hlt Heq.
  assert (snap (Load reads ver m).1 = Some (mkSnapshot set ver) /\ vals (Load reads ver m).1 = Some v /\
    heap (Load reads ver m).1 = heap m /\ watchers (Load reads ver m).1 = watchers m) as (Hs & Hv1 & Hh & Hws).
  { assert (vals (foldl load_one (m, []) reads).1 = vals m /\ heap (foldl load_one (m, []) reads).1 = heap m /\
      watchers (foldl load_one (m, []) reads).1 = watchers m) as (H1 & H2 & H3).
    { clear. generalize (@nil string). revert m. induction reads as [|[s [e|cs]] reads IH]; intros m errs; cbn; [done|apply IH|].
      by destruct (IH (set_sets (sets m ++ [cs]) (sources m ++ [s]) m) errs) as (-> & -> & ->). }
    unfold Load in *. destruct (foldl load_one (m, []) reads) as [m1 e1]. cbn in *. unfold reload in *.
    destruct (Merge (sets m1)) as [e|set'] eqn:Hm1; cbn in Hm; rewrite Hm1 in Hm; [done|]. injection Hm as ->.
    cbn. rewrite Hset. by rewrite H1, H2, H3. }
  split; [done|]. split; [done|].
  destruct (sends_live (watchers m) v _ (watchers m) _ Hs) as (h & Hup & Hb); [done|by rewrite Hh|].
  specialize (Hb a). rewrite decide_True, Hh, Hw in Hb by done. cbn in Hb.
  assert (w_updates (deliver (mkSnapshot set ver) v w) = Some (mkUpdate (vget v (w_path w)) ver)) as Hd.
  { unfold deliver, ver_le. cbn. by rewrite Hlt, Hu. }
  destruct (next_deliver _ _ _ _ Hu Hd) as (_ & _ & H1 & H2).
  eexists _, _, _. split; [unfold update, update_begin; rewrite Hs, Hv1, Hws; exact Hup|].
  split; [done|]. split; [done|]. split; [|done].
  rewrite Heq, String.eqb_refl in H2. by destruct (next_update _ _).2.
Qed.

(** What [Sync] reads is forgotten at the next change set. [Sync] does not keep
    what the sources returned, so that when a source's watcher brings a change set the
    loader is left as if [Sync] had never run. *)
Theorem Sync_forgotten read ver m idx cs ver' set :
  Merge (<[idx := cs]> (sets m)) = inr set ->
  save idx cs ver' (Sync read ver m).1 = save idx cs ver' m.
Proof.
  intros Hm. assert (exists v s, (Sync read ver m).1 = set_config v s m) as (v & s & ->).
  { clear Hm. unfold Sync. destruct (Merge _); [by exists (vals m), (snap m); destruct m|].
    destruct (Values _) as [e|v]; [by exists (vals m), (snap m); destruct m|]. cbn. by eexists (Some v), (Some (mkSnapshot _ ver)). }
  unfold save. cbn. rewrite Hm. by destruct (Values set).
Qed.

(** ** What can fail *)

(** Every merged change set can be read. *)
Definition reads_merged : Prop := forall l set, Merge l = inr set -> exists v, Values set = inr v.

Definition known (m : memory) (ws : list nat) : Prop := Forall (fun a => a < length (heap m)) ws.

(** Values come with a snapshot, and watchers with values. *)
Definition memory_ok (m : memory) : Prop :=
  NoDup (watchers m) /\ known m (watchers m) /\ (vals m <> None -> snap m <> None) /\ (heap m <> [] -> vals m <> None).

Definition job_ok (m : memory) (j : job) : Prop :=
  known m (j_watchers j) /\ (j_watchers j <> [] -> j_vals j <> None).

Definition run_ok (r : run) : Prop := memory_ok (r_m r) /\ Forall (job_ok (r_m r)) (r_jobs r).

(** Operations that do not touch the watchers and do not lose the values. *)
Definition keeps (m m' : memory) : Prop :=
  heap m' = heap m /\ watchers m' = watchers m /\ (vals m <> None -> vals m' <> None) /\
  ((vals m <> None -> snap m <> None) -> vals m' <> None -> snap m' <> None).

Lemma keeps_refl m : keeps m m.
Proof. done. Qed.

Lemma keeps_ok m m' : keeps m m' -> memory_ok m -> memory_ok m'.
Proof. intros (Hh & Hw & Hv & Hs) (H1 & H2 & H3 & H4). unfold memory_ok, known. rewrite Hh, Hw. split_and!; [done..|by apply Hs|]. intros Hn. by apply Hv, H4. Qed.

Lemma save_keeps idx cs ver m m' e : reads_merged -> save idx cs ver m = (m', e) -> keeps m m'.
Proof.
  intros Ht. unfold save. destruct (Merge _) as [|set] eqn:Hm; intros [= <- _]; [done|].
  destruct (Ht _ _ Hm) as [v ->]. done.
Qed.

Lemma Load_keeps reads ver m m' errs : reads_merged -> Load reads ver m = (m', errs) -> keeps m m'.
Proof.
  intros Ht. unfold Load. assert (forall errs, keeps m (foldl load_one (m, errs) reads).1) as Hk.
  { clear -H. revert m. induction reads as [|[s [e|cs]] reads IH]; intros m errs; cbn; [apply keeps_refl|apply IH|].
    apply (IH (set_sets (sets m ++ [cs]) (sources m ++ [s]) m)). }
  specialize (Hk []). destruct (foldl _ _ _) as [m1 e1]. cbn in Hk. unfold reload.
  destruct (Merge (sets m1)) as [e|set] eqn:Hm; intros [= <- _]; [done|].
  destruct (Ht _ _ Hm) as [v ->]. destruct Hk as (Hh & Hw & Hv & _). by repeat split.
Qed.

Lemma Sync_keeps read ver m m' errs : Sync read ver m = (m', errs) -> keeps m m'.
Proof. unfold Sync. destruct (Merge _); [by intros [= <- _]|]. by destruct (Values _); intros [= <- _]. Qed.

Lemma Get_keeps path read ver m m' res : Get path read ver m = (m', res) -> keeps m m'.
Proof.
  unfold Get. assert (forall m1 errs, match vals m with Some _ => (m, []) | None => Sync read ver m end = (m1, errs) ->
    keeps m m1) as H1.
  { intros m1 errs. destruct (vals m); [by intros [= <- _]|apply Sync_keeps]. }
  destruct (match vals m with Some _ => _ | None => _ end) as [m1 errs]. specialize (H1 m1 errs eq_refl).
  destruct errs; [|by intros [= <- _]]. destruct (vals m1) eqn:Hv1; [by intros [= <- _]|].
  destruct (snap m1) as [s|] eqn:Hs1; [|by intros [= <- _]]. destruct (Values _) as [e|v]; intros [= <- _]; [done|].
  destruct H1 as (Hh & Hw & _ & _). by repeat split.
Qed.

Lemma Get_vals path read ver m m' x : Get path read ver m = (m', Ret x) -> vals m' <> None.
Proof.
  unfold Get. destruct (match vals m with Some _ => _ | None => _ end) as [m1 [|e errs]]; [|done].
  destruct (vals m1) eqn:Hv1; [intros [= <- _]; congruence|].
  destruct (snap m1); [|done]. by destruct (Values _); intros [= <- _].
Qed.

Lemma start_job_ok m m' r j :
  run_ok r -> r_m r = m -> keeps m m' -> j = update_begin m' -> run_ok (start_job m' j r).
Proof.
  intros [Hm Hj] <- Hk ->. pose proof (keeps_ok _ _ Hk Hm) as Hm'. destruct Hk as (Hh & _). split; [done|].
  assert (Forall (job_ok m') (r_jobs r)) as Hj' by (unfold job_ok, known; by rewrite Hh).
  cbn. unfold update_begin. destruct Hm' as (_ & Hw & _ & Hv).
  destruct (snap m') as [s|], (watchers m') as [|b ws] eqn:Hws; try done; apply Forall_app; (split; [done|]); repeat constructor; try done.
  - by inversion Hw.
  - by inversion Hw.
  - cbn. intros _. apply Hv. inversion Hw as [|? ? Hb]; subst. intros Hn. rewrite Hn in Hb. cbn in Hb. lia.
Qed.

Lemma run_ok_heap r m :
  run_ok r -> watchers m = watchers (r_m r) -> length (heap m) = length (heap (r_m r)) ->
  vals m = vals (r_m r) -> snap m = snap (r_m r) -> forall out, run_ok (mkRun m (r_jobs r) out).
Proof.
  intros [(H1 & H2 & H3 & H4) Hj] Hw Hh Hv Hs out. unfold run_ok, memory_ok, job_ok, known in *. cbn.
  rewrite Hw, Hh, Hv, Hs. repeat split; try done. intros Hne. apply H4. intros Hn. rewrite Hn in Hh. by destruct (heap m).
Qed.

Lemma keeps_job m m' j : length (heap m) <= length (heap m') -> job_ok m j -> job_ok m' j.
Proof. intros Hl [Hk Hv]. split; [|done]. eapply Forall_impl; [exact Hk|]. cbn. lia. Qed.

Lemma Watch_run_ok path read ver r m res :
  run_ok r -> Watch path read ver (r_m r) = (m, res) -> run_ok (mkRun m (r_jobs r) (r_out r)).
Proof.
  intros [Hm Hj] Hw. destruct r as [m0 jobs out]. cbn in *. unfold Watch in Hw.
  destruct (disabled m0); [by injection Hw as <- _|]. destruct (Get path read ver m0) as [m1 x] eqn:HG.
  pose proof (Get_keeps _ _ _ _ _ _ HG) as Hk. pose proof (keeps_ok _ _ Hk Hm) as Hm1. destruct Hk as (Hh & _ & _).
  assert (Forall (job_ok m1) jobs) as Hj1 by (unfold job_ok, known; by rewrite Hh).
  destruct x as [x|e|]; [|by injection Hw as <- _..]. pose proof (Get_vals _ _ _ _ _ _ HG) as Hv.
  destruct (snap m1) as [s|] eqn:Hs; injection Hw as <- _; [|done]. destruct Hm1 as (H1 & H2 & H3 & _).
  split; cbn.
  - unfold memory_ok, known. cbn. rewrite length_app. cbn. split_and!; [|apply Forall_app; split| |done].
    + apply NoDup_app. split; [done|]. split; [|apply NoDup_singleton]. intros b Hb Hb'%list_elem_of_singleton. subst.
      unfold known in H2. rewrite Forall_forall in H2. specialize (H2 _ Hb). lia.
    + eapply Forall_impl; [exact H2|]. cbn. lia.
    + repeat constructor. lia.
    + by rewrite Hs.
  - eapply Forall_impl; [exact Hj1|]. intros j. apply keeps_job. cbn. rewrite length_app. lia.
Qed.

Lemma send_one_frame j a m m' : send_one j a m = Ret m' ->
  watchers m' = watchers m /\ length (heap m') = length (heap m) /\ vals m' = vals m /\ snap m' = snap m.
Proof.
  unfold send_one. destruct (heap m !! a) as [w|]; [|done]. destruct (ver_le _ _); [by intros [= <-]|].
  destruct (snap m) eqn:Hs, (j_vals j); try done. destruct (w_exit w); [done|].
  destruct (w_updates w); intros [= <-]; [done|]. cbn. by rewrite length_insert.
Qed.

Lemma step_run_ok r r' : reads_merged -> run_ok r -> step r r' -> run_ok r'.
Proof.
  intros Ht Hok Hs. destruct Hs as [idx cs ver m _ Hm|idx cs ver m e _ Hm|reads ver m errs Hm|read ver m errs Hm|path read ver m res Hm
    |path read ver m res Hm|i j a ws m Hi Hj Hm|a w u w' s Ha _ Hn|a|a|].
  - eapply start_job_ok; [done..|by eapply save_keeps|done].
  - apply save_keeps in Hm; [|done]. destruct Hok as [H1 H2]. split; [by eapply keeps_ok|]. cbn.
    destruct Hm as (Hh & _). unfold job_ok, known. by rewrite Hh.
  - eapply start_job_ok; [done..|by eapply Load_keeps|done].
  - eapply start_job_ok; [done..|by eapply Sync_keeps|done].
  - eapply start_job_ok; [done..|by eapply Get_keeps|done].
  - by eapply Watch_run_ok.
  - apply send_one_frame in Hm as (H1 & H2 & H3 & H4). destruct (run_ok_heap _ m Hok H1 H2 H3 H4 (r_out r)) as [H5 H6].
    split; [done|]. cbn in *. apply Forall_insert; [done|]. eapply Forall_lookup_1 in H6 as [Hk Hv]; [|done].
    rewrite Hj in Hk, Hv. split; [by inversion Hk|]. intros _. by apply Hv.
  - apply run_ok_heap; [done..| |done|done]. cbn. by rewrite length_insert.
  - unfold Stop. destruct (heap (r_m r) !! a); apply run_ok_heap; try done. cbn. by rewrite length_insert.
  - destruct Hok as [(H1 & H2 & H3) H4]. split; [|done]. split_and!; [by apply NoDup_filter| |apply H3..].
    unfold known in *. cbn. rewrite Forall_forall in *. intros b [_ Hb]%list_elem_of_filter. by apply H2.
  - apply run_ok_heap; done.
Qed.

(** Only a stopped watcher brings the loader down. If merged change sets can be
    read, then in every history the start of an update does not panic, and a send of
    one panics only when the watcher it goes to was stopped meanwhile. *)
Theorem only_stopped_panics r j a ws :
  reads_merged -> reachable r -> j ∈ r_jobs r -> j_watchers j = a :: ws ->
  update_begin (r_m r) <> Panic /\
  (send_one j a (r_m r) = Panic -> exists w, heap (r_m r) !! a = Some w /\ w_exit w = true).
Proof.
  intros Ht Hr Hj Ha. assert (run_ok r) as [(_ & Hw & Hs & Hv) Hjs].
  { clear Hj Ha. induction Hr as [srcs name dis|r r' _ IH Hst]; [|by eapply step_run_ok].
    split; [|constructor]. split_and!; [constructor|constructor|done|done]. }
  assert (heap (r_m r) <> [] -> snap (r_m r) <> None) as Hhs by auto. split.
  - unfold update_begin. destruct (snap (r_m r)) as [s|]; [by destruct (watchers _)|]. destruct (watchers (r_m r)) as [|b l]; [done|].
    intros _. inversion Hw as [|? ? Hb]; subst. destruct (heap (r_m r)); [cbn in Hb; lia|]. by apply Hhs.
  - rewrite Forall_forall in Hjs. destruct (Hjs j Hj) as [Hk Hjv]. rewrite Ha in Hk, Hjv. inversion Hk as [|? ? Hb]; subst.
    apply lookup_lt_is_Some in Hb as [w Hw']. unfold send_one. rewrite Hw'. destruct (ver_le _ _); [done|].
    destruct (snap (r_m r)) eqn:Hsn.
    2:{ exfalso. apply Hhs; [|done]. by intros Hn; rewrite Hn in Hw'. }
    destruct (j_vals j); [|by destruct Hjv]. destruct (w_exit w) eqn:Hx; [by exists w|]. by destruct (w_updates w).
Qed.
End loader.

(** ** Examples *)

(** A reader whose values are the data of the change sets, one after the other. *)
Definition cat_reader : Reader string string := {|
  Merge l := inr (mkChangeSet (foldr (fun c s => match c with Some c => cs_Data c +:+ s | None => s end) "" l) "" "json" "json");
  Values cs := inr (cs_Data cs);
  vget v _ := v;
  vset _ _ x := x;
  vdel _ _ := "";
  vbytes x := x;
  reader_String := "json";
|}.
#[local] Existing Instance cat_reader.

Definition raw (d : string) : option ChangeSet := Some (mkChangeSet d "" "json" "file").
Definition read_ex (d : string) (s : nat) : string + option ChangeSet := inr (raw d).
Definition sum_ex (d : string) : string := "sum".

(** A loader with one source, its values read, and one watcher of everything. *)
Definition watched_ex : @memory string string := (Watch [] (read_ex "a") "1" (NewLoader [0] (fun _ => "file") false)).1.
Definition saved_ex (d ver : string) (m : @memory string string) : @memory string string := (save 0 (raw d) ver m).1.
Definition updated_ex (m : @memory string string) : @memory string string := match update m with Ret m => m | _ => m end.
Definition next_ex (m : @memory string string) : @memory string string * option Snapshot :=
  match heap m !! 0 with
  | Some w =>
      match w_updates w with
      | Some u => let '(w, s) := next_update sum_ex u w in (set_watcher 0 w m, s)
      | None => (m, None)
      end
  | None => (m, None)
  end.

Definition head_ex (m : @memory string string) : option (string * string * bool) :=
  match heap m !! 0 with
  | Some w => Some (w_value w, w_version w, match w_updates w with Some _ => true | None => false end)
  | None => None
  end.

(** The channel has room for one update: the newer one is dropped, the watcher reads
    the older one and then waits, behind the loader. *)
Example lost_update :
  let m := updated_ex (saved_ex "c" "3" (updated_ex (saved_ex "b" "2" watched_ex))) in
  vals m = Some "c" /\ option_map data (next_ex m).2 = Some "b" /\ head_ex (next_ex m).1 = Some ("b", "2", false).
Proof. vm_compute. by split_and!. Qed.

(** [update] reads the version when it sends, the values before: a change set saved in
    between leaves the watcher with the old value under the new version, and no later
    update of that version reaches it. *)
Example stale_value :
  exists j m, update_begin (saved_ex "b" "2" watched_ex) = Ret j /\
    send_one j 0 (saved_ex "c" "3" (saved_ex "b" "2" watched_ex)) = Ret m /\
    vals m = Some "c" /\ head_ex (next_ex m).1 = Some ("b", "3", false) /\
    head_ex (updated_ex (next_ex m).1) = Some ("b", "3", false).
Proof. eexists _, _. vm_compute. by split_and!. Qed.

(** A watcher stopped while an update is under way. *)
Example stopped_watcher_panics :
  let m := saved_ex "b" "2" watched_ex in
  exists j, update_begin m = Ret j /\ send_one j 0 (Stop 0 m).1 = Panic.
Proof. eexists _. vm_compute. by split. Qed.

(** Two sources are read by [Sync]; when the first changes, the second's data is gone. *)
Example Sync_loses_source :
  let m := NewLoader [0; 1] (fun _ => "file") false in
  let m := (Sync (fun s => if Nat.eqb s 0 then inr (raw "a") else inr (raw "b")) "1" m).1 in
  vals m = Some "ab" /\ vals (save 0 (raw "c") "2" m).1 = Some "c".
Proof. vm_compute. by split. Qed.

(** ** Witnesses *)
Definition job_ex : @job string := mkJob [0] (Some "b") "2".

Definition run_ex : @run string string :=
  mkRun (mkMemory (Some "b") false (Some (mkSnapshot (mkChangeSet "b" "" "json" "json") "2")) [0] [raw "b"] [0] false
    [mkWatcher "b" "2" false None []])
    [mkJob [] (Some "b") "2"] [(0, mkSnapshot (mkChangeSet "b" "sum" "json" "memory") "2")].

Lemma sending_reachable : reachable sum_ex (mkRun (saved_ex "b" "2" watched_ex) [job_ex] []).
Proof.
  eapply (reach_step _ (mkRun watched_ex [] [])).
  - eapply (reach_step _ (mkRun (NewLoader [0] (fun _ => "file") false) [] [])); [constructor|].
    eapply (s_Watch sum_ex (mkRun (NewLoader [0] (fun _ => "file") false) [] []) [] (read_ex "a") "1" watched_ex).
    reflexivity.
  - eapply (s_save sum_ex (mkRun watched_ex [] []) 0 (raw "b") "2" (saved_ex "b" "2" watched_ex)); [vm_compute; lia|reflexivity].
Qed.

Lemma run_ex_reachable : reachable sum_ex run_ex.
Proof.
  eapply (reach_step _ (mkRun (updated_ex (saved_ex "b" "2" watched_ex)) [mkJob [] (Some "b") "2"] [])).
  - eapply (reach_step _ _ _ sending_reachable).
    eapply (s_send sum_ex (mkRun (saved_ex "b" "2" watched_ex) [job_ex] []) 0 job_ex 0 []); reflexivity.
  - eapply (s_next sum_ex (mkRun (updated_ex (saved_ex "b" "2" watched_ex)) [mkJob [] (Some "b") "2"] [])
      0 (mkWatcher "a" "1" false (Some (mkUpdate "b" "2")) []) (mkUpdate "b" "2") (mkWatcher "b" "2" false None [])
      (Some (mkSnapshot (mkChangeSet "b" "sum" "json" "memory") "2"))); reflexivity.
Qed.

Lemma watcher_advances_witness :
  reachable sum_ex run_ex /\ returned 0 (r_out run_ex) <> [] /\ Sorted advances (returned 0 (r_out run_ex)).
Proof. split; [apply run_ex_reachable|]. split; [done|]. apply (watcher_advances sum_ex run_ex 0 run_ex_reachable). Defined.

Lemma update_delivers_witness :
  exists h, update (saved_ex "b" "2" watched_ex) = Ret (set_heap h (saved_ex "b" "2" watched_ex)) /\
    forall a, h !! a = (if decide (a ∈ watchers (saved_ex "b" "2" watched_ex))
      then deliver (mkSnapshot (mkChangeSet "b" "" "json" "json") "2") "b" <$> heap (saved_ex "b" "2" watched_ex) !! a
      else heap (saved_ex "b" "2" watched_ex) !! a).
Proof.
  apply (update_delivers (saved_ex "b" "2" watched_ex)); [reflexivity|reflexivity|apply NoDup_singleton|].
  repeat constructor. eexists. split; reflexivity.
Defined.

Lemma Load_skips_watchers_witness :
  let m := (Load [(1, inr (raw "z"))] "2" watched_ex).1 in
  snap m = Some (mkSnapshot (mkChangeSet "z" "" "json" "json") "2") /\ vals m = Some "a" /\
  exists m' w' u, update m = Ret m' /\ heap m' !! 0 = Some w' /\ w_updates w' = Some u /\
    (next_update sum_ex u w').2 = None /\ w_version (next_update sum_ex u w').1 = "2".
Proof.
  eapply (Load_skips_watchers sum_ex [(1, inr (raw "z"))] "2" watched_ex "a" _ "z" 0 (mkWatcher "a" "1" false None []));
    try reflexivity.
  - apply NoDup_singleton.
  - repeat constructor. eexists. split; reflexivity.
  - apply list_elem_of_singleton. reflexivity.
Defined.

Lemma Sync_forgotten_witness :
  save 0 (raw "c") "3" (Sync (read_ex "b") "2" watched_ex).1 = save 0 (raw "c") "3" watched_ex.
Proof. eapply Sync_forgotten. reflexivity. Defined.

Lemma only_stopped_panics_witness :
  let m := saved_ex "b" "2" watched_ex in
  update_begin m <> Panic /\ (send_one job_ex 0 m = Panic -> exists w, heap m !! 0 = Some w /\ w_exit w = true).
Proof.
  apply (only_stopped_panics sum_ex (mkRun (saved_ex "b" "2" watched_ex) [job_ex] []) job_ex 0 []).
  - intros l set _. by exists (cs_Data set).
  - apply sending_reachable.
  - apply list_elem_of_singleton. reflexivity.
  - reflexivity.
Defined.
