(* ===== verification/Config.v ===== *)
(** * The configuration and its sources: [config/default.go],
    [config/reader/json/json.go], [config/reader/preprocessor.go],
    [config/source/env], [config/source/memory], [config/source/file/format.go]

    The configuration that follows a loader, the json reader, the replacement of
    environment variables in the data, and two sources. The json library and mergo are
    parameters. *)
From S2P Require Import Prelude GoStrings GoStrconv ConfigLoader.

(** ** Environment variables in the data

    [ReplaceEnvVars] replaces the matches of [\$\{([A-Za-z0-9_]+)\}]. *)
Definition var_char (a : ascii) : bool :=
  let n := nat_of_ascii a in
  ((65 <=? n) && (n <=? 90)) || ((97 <=? n) && (n <=? 122)) || ((48 <=? n) && (n <=? 57)) || Ascii.eqb a "_".

(** The name that starts [s], if a closing brace follows it. *)
Fixpoint closed_name (s : string) : option string :=
  match s with
  | EmptyString => None
  | String a r => if Ascii.eqb a "}" then Some "" else if var_char a then String a <$> closed_name r else None
  end.

(** A match at the start of [s]: its name. *)
Definition var_at (s : string) : option string :=
  match s with
  | String "$" (String "{" r) =>
      match closed_name r with
      | Some "" => None
      | o => o
      end
  | _ => None
  end.

(** [k] characters belong to the last match. *)
Fixpoint replace_from (getenv : string -> string) (k : nat) (s : string) : string :=
  match s with
  | EmptyString => ""
  | String a r =>
      match k with
      | S k => replace_from getenv k r
      | O =>
          match var_at s with
          | Some name => getenv name +:+ replace_from getenv (String.length name + 2) r
          | None => String a (replace_from getenv 0 r)
          end
      end
  end.

Definition ReplaceEnvVars (getenv : string -> string) (raw : string) : string := replace_from getenv 0 raw.

(** A template: text without dollar signs, and variables. *)
Inductive segment := Text (s : string) | Var (name : string).

Definition segment_ok (g : segment) : Prop :=
  match g with
  | Text s => str_has "$" s = false
  | Var name => name <> "" /\ str_forall var_char name = true
  end.

Definition render (l : list segment) : string :=
  foldr (fun g r => match g with Text s => s +:+ r | Var n => "${" +:+ n +:+ "}" +:+ r end) "" l.

Definition subst_vars (getenv : string -> string) (l : list segment) : string :=
  foldr (fun g r => match g with Text s => s +:+ r | Var n => getenv n +:+ r end) "" l.

Lemma replace_text getenv s r : str_has "$" s = false -> replace_from getenv 0 (s +:+ r) = s +:+ replace_from getenv 0 r.
Proof.
  induction s as [|a s IH]; [done|]. rewrite str_has_cons. intros [Ha Hs]%orb_false_iff.
  cbn [String.append]. assert (var_at (String a (s +:+ r)) = None) as Hv.
  { unfold var_at. by destruct a as [[] [] [] [] [] [] [] []]. }
  cbn [replace_from]. rewrite Hv. by rewrite IH.
Qed.

Lemma closed_name_app n r : str_forall var_char n = true -> closed_name (n +:+ String "}" r) = Some n.
Proof.
  induction n as [|a n IH]; [done|]. cbn [str_forall]. intros [Ha Hn]%andb_true_iff. cbn [String.append closed_name].
  rewrite IH by done. rewrite Ha. cbn. destruct (Ascii.eqb_spec a "}") as [->|]; done.
Qed.

Lemma replace_skip getenv s r : replace_from getenv (String.length s) (s +:+ r) = replace_from getenv 0 r.
Proof. by induction s. Qed.

Lemma replace_var getenv n r :
  segment_ok (Var n) -> replace_from getenv 0 ("${" +:+ n +:+ "}" +:+ r) = getenv n +:+ replace_from getenv 0 r.
Proof.
  intros [Hne Hn]. assert (var_at ("${" +:+ n +:+ "}" +:+ r) = Some n) as Hv.
  { cbn [String.append var_at]. rewrite closed_name_app by done. by destruct n. }
  cbn [String.append] in *. cbn [replace_from]. rewrite Hv. f_equal.
  pose proof (replace_skip getenv (String "{" (n +:+ "}")) r) as Hs. cbn [String.append] in Hs.
  rewrite str_app_assoc in Hs. cbn [String.append] in Hs.
  rewrite <- Hs. cbn [String.length]. rewrite str_length_app, Nat.add_succ_r. done.
Qed.

(** Environment variables. In data made of text without dollar signs and of
    variables [${NAME}], [ReplaceEnvVars] replaces every variable by its value, once,
    whatever the values contain, and leaves the text as it is. *)
Theorem ReplaceEnvVars_template getenv l :
  Forall segment_ok l -> ReplaceEnvVars getenv (render l) = subst_vars getenv l.
Proof.
  unfold ReplaceEnvVars. intros Hl. induction Hl as [|g l Hg Hl IH]; [done|]. cbn [render subst_vars foldr].
  fold (render l) (subst_vars getenv l). destruct g as [s|n].
  - by rewrite replace_text, IH.
  - by rewrite replace_var, IH.
Qed.

(** ** The json reader *)
Section json.
(** [D] are Go maps, nil included; [J] is simplejson's tree. *)
Context {D J X : Type} (nil_map : D) (mergo_override : D -> D -> string + D).
Context (json_Decode : string -> string + D) (json_Encode : D -> string + string).
Context (Encoding : string -> option (string -> string + D)) (Sum : string -> string).
Context (UnmarshalJSON : string -> option J) (raw_string : string -> J) (getenv : string -> string).
Context (GetPath : J -> list string -> X) (SetPath : J -> list string -> string -> J) (Del_path : J -> list string -> J).
Context (Value_Bytes : X -> string).

Definition merge_one (merged : D) (m : option ChangeSet) : string + D :=
  match m with
  | None => inr merged
  | Some cs =>
      if String.eqb (cs_Data cs) "" then inr merged
      else
        match (match Encoding (cs_Format cs) with Some decode => decode | None => json_Decode end) (cs_Data cs) with
        | inl e => inl e
        | inr data => mergo_override merged data
        end
  end.

Fixpoint merge_all (merged : D) (l : list (option ChangeSet)) : string + D :=
  match l with
  | [] => inr merged
  | m :: l =>
      match merge_one merged m with
      | inl e => inl e
      | inr d => merge_all d l
      end
  end.

Definition json_Merge (changes : list (option ChangeSet)) : string + ChangeSet :=
  match merge_all nil_map changes with
  | inl e => inl e
  | inr merged =>
      match json_Encode merged with
      | inl e => inl e
      | inr b => inr (mkChangeSet b (Sum b) "json" "json")
      end
  end.

Definition newValues (ch : ChangeSet) : J :=
  match UnmarshalJSON (ReplaceEnvVars getenv (cs_Data ch)) with
  | Some sj => sj
  | None => raw_string (cs_Data ch)
  end.

Definition json_Values (ch : option ChangeSet) : string + J :=
  match ch with
  | None => inl "changeset is nil"
  | Some ch => if String.eqb (cs_Format ch) "json" then inr (newValues ch) else inl "unsupported format"
  end.

Definition json_reader : Reader J X := {|
  Merge := json_Merge;
  Values cs := json_Values (Some cs);
  vget := GetPath;
  vset := SetPath;
  vdel := Del_path;
  vbytes := Value_Bytes;
  reader_String := "json";
|}.

(** What the json reader merges it can read: the loader's other promise. *)
Lemma json_reads_merged : @reads_merged J X json_reader.
Proof.
  intros l set. cbn. unfold json_Merge. destruct (merge_all _ _); [done|]. destruct (json_Encode _); [done|].
  intros [= <-]. by eexists.
Qed.

(** Change sets that are nil or have no data. *)
Definition has_data (m : option ChangeSet) : bool :=
  match m with Some cs => negb (String.eqb (cs_Data cs) "") | None => false end.

Lemma merge_all_app d l l' :
  merge_all d (l ++ l') = match merge_all d l with inl e => inl e | inr d => merge_all d l' end.
Proof. revert d. induction l as [|m l IH]; intros d; cbn; [done|]. by destruct (merge_one d m). Qed.

Lemma merge_all_data d l : merge_all d l = merge_all d (filter (fun m => has_data m = true) l).
Proof.
  revert d. induction l as [|m l IH]; intros d; [done|]. rewrite filter_cons. destruct (decide _) as [Hm|Hm]; cbn.
  - by destruct (merge_one d m).
  - enough (merge_one d m = inr d) as -> by done. destruct m as [cs|]; [|done]. cbn in *. by destruct (String.eqb _ _).
Qed.

(** Merging. Empty change sets do not count, the result is json whose checksum is
    that of its data, and merging the result of a merge with more change sets is
    merging them all, if the json printer and parser invert each other and merging into
    a nil map changes nothing. *)
Theorem json_Merge_assoc l l' set :
  Encoding "json" = Some json_Decode ->
  (forall d b, json_Encode d = inr b -> b <> "" /\ json_Decode b = inr d) ->
  (forall d, mergo_override nil_map d = inr d) ->
  json_Merge l = inr set ->
  cs_Format set = "json" /\ cs_Checksum set = Sum (cs_Data set) /\
  json_Merge (Some set :: l') = json_Merge (l ++ l') /\
  json_Merge (filter (fun m => has_data m = true) l) = inr set.
Proof.
  intros Henc Hdec Hnil Hl. unfold json_Merge in Hl |- *. rewrite <- merge_all_data, merge_all_app.
  destruct (merge_all nil_map l) as [|d]; [done|]. destruct (json_Encode d) as [|b] eqn:Hb; [done|].
  injection Hl as <-. destruct (Hdec _ _ Hb) as [Hne Hd]. cbn. split_and!; try done.
  rewrite (proj2 (String.eqb_neq b "") Hne), Henc, Hd, Hnil. done.
Qed.
End json.

(** ** The configuration *)
Section config.
Context {V X : Type} `{Reader V X} (Sum : string -> string) (empty_value : X).

Record config := mkConfig { c_vals : option V; c_exit : bool; c_snap : option Snapshot }.

(** The loader's new snapshot, in [Sync] and [Load]. *)
Definition adopt (s : Snapshot) (c : config) : config * outcome (list string) unit :=
  match Values (sn_ChangeSet s) with
  | inl e => (mkConfig (c_vals c) (c_exit c) (Some s), Fail [e])
  | inr v => (mkConfig (Some v) (c_exit c) (Some s), Ret tt)
  end.

(** What follows the loader's [Load] or [Sync], whose errors are [errs]. The updates
    the loader sends its watchers are steps of its own. *)
Definition after_loader (errs : list string) (read : nat -> string + option ChangeSet) (ver : string)
    (c : config) (m : memory) : config * memory * outcome (list string) unit :=
  match errs with
  | _ :: _ => (c, m, Fail errs)
  | [] =>
      match take_Snapshot read ver m with
      | (m, Fail e) => (c, m, Fail [e])
      | (m, Panic) => (c, m, Panic)
      | (m, Ret s) => let '(c, r) := adopt s c in (c, m, r)
      end
  end.

Definition config_Load (reads : list (nat * (string + option ChangeSet))) (ver : string)
    (read : nat -> string + option ChangeSet) (ver' : string) (c : config) (m : memory) :=
  let '(m, errs) := Load reads ver m in after_loader errs read ver' c m.

Definition config_Sync (read : nat -> string + option ChangeSet) (ver : string) (ver' : string) (c : config) (m : memory) :=
  let '(m, errs) := Sync read ver m in after_loader errs read ver' c m.

(** [newConfig] and [Init], with the loader that they make. *)
Definition Init (dis : bool) (reads : list (nat * (string + option ChangeSet))) (ver : string)
    (read : nat -> string + option ChangeSet) (ver' : string) :=
  config_Load reads ver read ver' (mkConfig None false None) (NewLoader [] (fun _ => "") dis).

(** The loop of [run] got a snapshot from the loader's watcher. *)
Definition follow (c : config) (s : Snapshot) : outcome (list string) config :=
  match c_snap c with
  | None => Panic
  | Some old =>
      if ver_le (sn_Version s) (sn_Version old) then Ret c
      else Ret (mkConfig (match Values (sn_ChangeSet s) with inr v => Some v | inl _ => None end) (c_exit c) (Some s))
  end.

(** The goroutine that stops the loader's watcher prints the error it returned. *)
Definition stop_watch (a : nat) (m : memory) : outcome string memory :=
  match Stop (V := V) (X := X) a m with
  | (m, Some e) => Ret m
  | (_, None) => Panic
  end.

Definition config_Get (path : list string) (c : config) : X :=
  match c_vals c with Some v => vget v path | None => empty_value end.

Definition config_Set (val : string) (path : list string) (c : config) : config :=
  match c_vals c with Some v => mkConfig (Some (vset v path val)) (c_exit c) (c_snap c) | None => c end.

Definition config_Del (path : list string) (c : config) : config :=
  match c_vals c with Some v => mkConfig (Some (vdel v path)) (c_exit c) (c_snap c) | None => c end.

Definition config_Close (c : config) : config := mkConfig (c_vals c) true (c_snap c).

(** The configuration's watcher: [Next] got a snapshot of the loader's watcher; it goes
    on, or returns. *)
Definition config_next (s : Snapshot) (value : X) : X * option (string + X) :=
  if String.eqb (vbytes value) (cs_Data (sn_ChangeSet s)) then (value, None)
  else
    match Values (sn_ChangeSet s) with
    | inl e => (value, Some (inl e))
    | inr v => (vget v [], Some (inr (vget v [])))
    end.
End config.

(** *** Versions *)
Lemma str_ltb_total s t : str_ltb s t = true \/ s = t \/ str_ltb t s = true.
Proof.
  revert t. induction s as [|a s IH]; intros [|b t]; [by right; left|by left|by right; right|].
  rewrite !str_ltb_cons. destruct (N.lt_trichotomy (N_of_ascii a) (N_of_ascii b)) as [?|[Hab|?]]; [by left; left| |by right; right; left].
  apply (f_equal ascii_of_N) in Hab. rewrite !ascii_N_embedding in Hab. subst.
  destruct (IH t) as [?|[->|?]]; [by left; right|by right; left|by right; right; right].
Qed.

Lemma ver_le_lt s t : str_ltb s t = true -> ver_le s t = true.
Proof.
  unfold ver_le. intros Hst. destruct (str_ltb t s) eqn:Hts; [|done].
  pose proof (str_ltb_trans _ _ _ Hst Hts) as Hss. by rewrite str_ltb_irrefl in Hss.
Qed.

Lemma ver_le_refl s : ver_le s s = true.
Proof. unfold ver_le. by rewrite str_ltb_irrefl. Qed.

Lemma ver_le_cases s t : ver_le s t = true <-> s = t \/ str_ltb s t = true.
Proof.
  split; [|intros [->|?]; [apply ver_le_refl|by apply ver_le_lt]].
  unfold ver_le. intros Hn%negb_true_iff. destruct (str_ltb_total s t) as [?|[?|?]]; [by right|by left|congruence].
Qed.

Lemma ver_le_trans s t u : ver_le s t = true -> ver_le t u = true -> ver_le s u = true.
Proof.
  rewrite !ver_le_cases. intros [->|Hst] [->|Htu]; [by left|by right|by right|]. right. by eapply str_ltb_trans.
Qed.

Section config_theorems.
Context {V X : Type} `{Reader V X} (Sum : string -> string) (empty_value : X).

(** The values are those of the snapshot. *)
Definition config_ok (c : @config V) : Prop :=
  match c_snap c with
  | Some s => match Values (sn_ChangeSet s) with inr v => c_vals c = Some v | inl _ => True end
  | None => c_vals c = None
  end.

Definition follow_all (c : config) (l : list Snapshot) : outcome (list string) config :=
  foldl (fun c s => c <-! c; follow c s) (Ret c) l.

Lemma follow_some c s s0 :
  c_snap c = Some s0 -> exists c' s', follow c s = Ret c' /\ c_snap c' = Some s' /\
    ver_le (sn_Version s0) (sn_Version s') = true /\ ver_le (sn_Version s) (sn_Version s') = true /\
    (s' = s0 \/ s' = s) /\ (config_ok c -> config_ok c').
Proof.
  intros Hc. unfold follow. rewrite Hc. destruct (ver_le (sn_Version s) (sn_Version s0)) eqn:Hv.
  - exists c, s0. split_and!; try done; [apply ver_le_refl|by left].
  - eexists _, s. split; [done|]. cbn. split_and!; try done; [|apply ver_le_refl|by right|].
    + apply negb_false_iff in Hv. by apply ver_le_lt.
    + unfold config_ok. cbn. by destruct (Values _).
Qed.

(** The configuration follows the loader. Whatever order snapshots arrive in, the
    loop of [run] ends with one whose version is at least that of every snapshot it
    got and of the one it started from, and with the values of that snapshot. *)
Theorem follow_newest l c s0 :
  c_snap c = Some s0 -> config_ok c ->
  exists c' s', follow_all c l = Ret c' /\ config_ok c' /\ c_snap c' = Some s' /\ (s' = s0 \/ s' ∈ l) /\
    Forall (fun s => ver_le (sn_Version s) (sn_Version s') = true) (s0 :: l).
Proof.
  revert c s0. induction l as [|s l IH]; intros c s0 Hc Hok.
  { exists c, s0. split_and!; try done; [by left|]. repeat constructor. apply ver_le_refl. }
  destruct (follow_some c s s0 Hc) as (c1 & s1 & Hf & Hc1 & H1 & H2 & H3 & H4).
  destruct (IH c1 s1 Hc1 (H4 Hok)) as (c' & s' & Hl & Hok' & Hc' & Hin & Hall).
  apply Forall_cons in Hall as [Hs1 Hall]. exists c', s'. unfold follow_all. cbn. rewrite Hf. split_and!; try done.
  - rewrite elem_of_cons. destruct Hin as [->|Hin]; [|by right; right]. destruct H3 as [->| ->]; [by left|by right; left].
  - repeat constructor; [by eapply ver_le_trans..|done].
Qed.

(** Where [take_Snapshot] finds the loader's snapshot. *)
Lemma take_Snapshot_snap read ver m m' s : take_Snapshot read ver m = (m', Ret s) -> snap m' = Some s.
Proof.
  unfold take_Snapshot. destruct (match vals m with Some _ => _ | None => _ end) as [m1 [|e errs]]; [|done].
  destruct (snap m1) eqn:Hs; [|done]. by intros [= <- <-].
Qed.

Lemma after_loader_ok errs read ver c m c' m' :
  after_loader errs read ver c m = (c', m', Ret tt) ->
  exists s v, snap m' = Some s /\ Values (sn_ChangeSet s) = inr v /\ c' = mkConfig (Some v) (c_exit c) (Some s).
Proof.
  unfold after_loader. destruct errs; [|done]. destruct (take_Snapshot read ver m) as [m1 [s|e|]] eqn:Hs; [|done..].
  apply take_Snapshot_snap in Hs. unfold adopt. destruct (Values (sn_ChangeSet s)) as [|v] eqn:Hv; [done|].
  intros [= <- <-]. by exists s, v.
Qed.

(** After [Load] or [Sync] the configuration has the loader's snapshot and answers
    from the values of that snapshot. *)
Theorem config_agrees reads ver read ver' c m c' m' path :
  config_Load reads ver read ver' c m = (c', m', Ret tt) \/ config_Sync read ver ver' c m = (c', m', Ret tt) ->
  config_ok c' /\ c_snap c' = snap m' /\
  exists s v, snap m' = Some s /\ Values (sn_ChangeSet s) = inr v /\ config_Get empty_value path c' = vget v path.
Proof.
  intros Hl. assert (exists errs m1, after_loader errs read ver' c m1 = (c', m', Ret tt)) as (errs & m1 & Ha).
  { destruct Hl as [Hl|Hl]; [unfold config_Load in Hl; destruct (Load reads ver m) as [m1 errs]
      |unfold config_Sync in Hl; destruct (Sync read ver m) as [m1 errs]]; by exists errs, m1. }
  apply after_loader_ok in Ha as (s & v & Hs & Hv & ->). unfold config_ok. cbn. rewrite Hv.
  split_and!; try done. by exists s, v.
Qed.

(** Closing a configuration that watches takes the program down. The loader's
    watcher stops without an error, and the goroutine that stopped it calls a method
    of that error. *)
Theorem close_panics a (m : @memory V X) : stop_watch a m = Panic.
Proof. unfold stop_watch, Stop. by destruct (heap m !! a). Qed.
End config_theorems.

(** ** The environment source *)
Section env.
(** [C] are the changes gathered so far; [mergo_Map] does not override. *)
Inductive env_value := IntValue (z : Z) | BoolValue (b : bool) | StringValue (s : string).

(** A map with one key, nested. *)
Inductive nested := One (k : string) (v : env_value) | Under (k : string) (t : nested).

Context {C : Type} (nil_changes : C) (mergo_Map : C -> nested -> string + C) (Encode : C -> string + string).

Record env := mkEnv { prefixes : list string; strippedPrefixes : list string }.

Definition appendUnderscore (ps : list string) : list string :=
  map (fun p => if has_suffix p "_" then p else p +:+ "_") ps.

Fixpoint matchPrefix (pre : list string) (s : string) : option string :=
  match pre with
  | [] => None
  | p :: pre => if has_prefix s p then Some p else matchPrefix pre s
  end.

Definition swap (i j : nat) (ss : list string) : list string :=
  match ss !! i, ss !! j with
  | Some a, Some b => <[j := a]> (<[i := b]> ss)
  | _, _ => ss
  end.

(** The loop of [reverse], from [i - 1] down to 0. *)
Fixpoint reverse_loop (i : nat) (ss : list string) : list string :=
  match i with
  | O => ss
  | S i => reverse_loop i (swap i (length ss - 1 - i) ss)
  end.

Definition reverse (ss : list string) : list string := reverse_loop (length ss / 2) ss.

(** [strconv.ParseBool]. *)
Definition ParseBool (s : string) : option bool :=
  if existsb (String.eqb s) ["1"; "t"; "T"; "TRUE"; "true"; "True"] then Some true
  else if existsb (String.eqb s) ["0"; "f"; "F"; "FALSE"; "false"; "False"] then Some false
  else None.

Definition read_value (value : string) : env_value :=
  match ParseInt value with
  | inr z => IntValue z
  | inl _ => match ParseBool value with Some b => BoolValue b | None => StringValue value end
  end.

(** The loop over the keys, the innermost first. *)
Definition nest (keys : list string) (v : env_value) : option nested :=
  match keys with
  | [] => None
  | k :: keys => Some (foldl (fun tmp k => Under k tmp) (One k v) keys)
  end.

(** [None]: the variable is left out. *)
Definition keep (e : env) (kv : string) : option string :=
  match prefixes e, strippedPrefixes e with
  | [], [] => Some kv
  | _, _ =>
      match matchPrefix (strippedPrefixes e) kv with
      | Some p => Some (trim_prefix kv p)
      | None => match matchPrefix (prefixes e) kv with Some _ => Some kv | None => None end
      end
  end.

(** [strings.SplitN(env, "=", 2)]; [None] when there is no second part. *)
Definition SplitN_eq (kv : string) : option (string * string) :=
  match index_where (fun a => Ascii.eqb a "=") kv with
  | Some i => Some (str_take i kv, str_drop (S i) kv)
  | None => None
  end.

Definition entry (kv : string) : outcome string nested :=
  match SplitN_eq kv with
  | None => Panic
  | Some (name, value) =>
      match nest (reverse (split_char "_" (to_lower name))) (read_value value) with
      | Some t => Ret t
      | None => Panic
      end
  end.

Definition env_one (e : env) (acc : outcome string C) (kv : string) : outcome string C :=
  changes <-! acc;
  match keep e kv with
  | None => Ret changes
  | Some kv =>
      tmp <-! entry kv;
      match mergo_Map changes tmp with
      | inl err => Fail err
      | inr changes => Ret changes
      end
  end.

Definition env_Read (Environ : list string) (name : string) (Sum : string -> string) (e : env) : outcome string ChangeSet :=
  changes <-! foldl (env_one e) (Ret nil_changes) Environ;
  match Encode changes with
  | inl err => Fail err
  | inr b => Ret (mkChangeSet b (Sum b) name "env")
  end.
End env.

(** *** The order of the keys *)
Lemma swap_lookup i j ss k :
  i < j -> j < length ss ->
  swap i j ss !! k = if decide (k = i) then ss !! j else if decide (k = j) then ss !! i else ss !! k.
Proof.
  intros Hij Hj. destruct (lookup_lt_is_Some_2 ss j Hj) as [b Hb]. destruct (lookup_lt_is_Some_2 ss i ltac:(lia)) as [a Ha].
  unfold swap. rewrite Ha, Hb. destruct (decide (k = i)) as [->|Hi]; [|destruct (decide (k = j)) as [->|Hj']].
  - rewrite list_lookup_insert_ne, list_lookup_insert_eq by lia. done.
  - rewrite list_lookup_insert_eq by (rewrite length_insert; lia). done.
  - by rewrite !list_lookup_insert_ne.
Qed.

Lemma swap_length i j ss : length (swap i j ss) = length ss.
Proof. unfold swap. destruct (ss !! i), (ss !! j); by rewrite ?length_insert. Qed.

Lemma reverse_loop_lookup i ss k :
  2 * i <= length ss -> k < length ss ->
  reverse_loop i ss !! k = if decide (k < i \/ length ss - i <= k) then ss !! (length ss - 1 - k) else ss !! k.
Proof.
  revert ss. induction i as [|i IH]; intros ss Hi Hk; cbn [reverse_loop].
  { destruct (decide _); [lia|done]. }
  rewrite IH by (rewrite swap_length; lia). rewrite swap_length, !swap_lookup by lia.
  repeat destruct (decide _); try lia; f_equal; lia.
Qed.

Lemma reverse_loop_length i ss : length (reverse_loop i ss) = length ss.
Proof. revert ss. induction i as [|i IH]; intros ss; [done|]. cbn. by rewrite IH, swap_length. Qed.

Lemma rev_lookup_lt {A} (l : list A) k : k < length l -> rev l !! k = l !! (length l - 1 - k).
Proof.
  intros Hk. rewrite rev_alt. fold (list.reverse l). rewrite reverse_lookup by done. f_equal. lia.
Qed.

(** The in-place [reverse] of the environment source, which swaps from the middle
    outwards, reverses the list, whatever its length. *)
Theorem reverse_is_rev ss : reverse ss = rev ss.
Proof.
  apply list_eq. intros k. destruct (decide (k < length ss)) as [Hk|Hk].
  - rewrite rev_lookup_lt by done. unfold reverse. pose proof (Nat.div_mod_eq (length ss) 2).
    pose proof (Nat.mod_upper_bound (length ss) 2 ltac:(lia)). rewrite reverse_loop_lookup by lia.
    destruct (decide _); [done|]. f_equal. lia.
  - rewrite !lookup_ge_None_2; [done|rewrite length_rev; lia|unfold reverse; rewrite reverse_loop_length; lia].
Qed.

(** *** Where a variable ends up *)
Fixpoint value_at (path : list string) (t : nested) : option env_value :=
  match path, t with
  | [k], One k' v => if String.eqb k k' then Some v else None
  | k :: path, Under k' t => if String.eqb k k' then value_at path t else None
  | _, _ => None
  end.

Lemma nest_snoc init k v : nest (rev (init ++ [k])) v = Some (foldr Under (One k v) init).
Proof.
  rewrite rev_app_distr. cbn. f_equal. revert k. induction init as [|k' init IH]; intros k; [done|].
  cbn. rewrite foldl_app. cbn. by rewrite IH.
Qed.

Lemma value_at_under p path k' t :
  value_at (p :: path) (Under k' t) = if String.eqb p k' then value_at path t else None.
Proof. by destruct path. Qed.

Lemma value_at_nil t : value_at [] t = None.
Proof. by destruct t. Qed.

Lemma value_at_chain init k v path :
  value_at path (foldr Under (One k v) init) = if decide (path = init ++ [k]) then Some v else None.
Proof.
  revert path. induction init as [|k' init IH]; intros [|p path].
  - by rewrite decide_False, value_at_nil.
  - cbn. destruct path as [|q path]; [|by rewrite decide_False by (cbn; congruence)].
    destruct (String.eqb_spec p k) as [->|Hp]; [by rewrite decide_True|by rewrite decide_False by (cbn; congruence)].
  - by rewrite decide_False, value_at_nil.
  - cbn [foldr]. rewrite value_at_under, IH. destruct (String.eqb_spec p k') as [->|Hp].
    + destruct (decide (path = init ++ [k])) as [->|]; [by rewrite decide_True|by rewrite decide_False by (cbn; congruence)].
    + rewrite decide_False by (cbn; congruence). done.
Qed.

(** A variable of the environment. [NAME=value], where NAME has no equals sign and
    the value may have some, becomes a tree whose one value is found under the parts of
    the lower-case name between underscores, the first part outermost. *)
Theorem entry_path name value :
  str_has "=" name = false ->
  exists t, entry (name +:+ "=" +:+ value) = Ret t /\
    forall path, value_at path t = if decide (path = split_char "_" (to_lower name)) then Some (read_value value) else None.
Proof.
  intros Hn. assert (SplitN_eq (name +:+ "=" +:+ value) = Some (name, value)) as Hs.
  { unfold SplitN_eq. cbn [String.append]. rewrite index_where_app; [|by apply negb_false_iff in Hn|done].
    rewrite str_take_app. f_equal. f_equal.
    assert (name +:+ String "=" value = (name +:+ "=") +:+ value) as -> by (by rewrite str_app_assoc).
    assert (S (String.length name) = String.length (name +:+ "=")) as -> by (rewrite str_length_app; cbn; lia).
    apply str_drop_app. }
  unfold entry. rewrite Hs, reverse_is_rev.
  pose proof (split_char_nonnil "_" (to_lower name)) as Hne.
  destruct (split_char "_" (to_lower name)) as [|k0 init _] eqn:Hk using rev_ind; [done|].
  rewrite nest_snoc. eexists. split; [done|]. intros path. apply value_at_chain.
Qed.

(** ** The memory source *)
Section source_memory.
Context (Sum : string -> string).

(** The change sets waiting in each watcher's channel, which has room for a hundred,
    and the watchers that have not been stopped. *)
Record msource := mkSource {
  ms_ChangeSet : option ChangeSet;
  ms_queues : gmap string (list ChangeSet);
  ms_Watchers : gset string;
}.

Definition source_Read (s : msource) : outcome string ChangeSet :=
  match ms_ChangeSet s with None => Panic | Some cs => Ret cs end.

Definition source_Watch (id : string) (s : msource) : msource :=
  mkSource (ms_ChangeSet s) (<[id := []]> (ms_queues s)) ({[id]} ∪ ms_Watchers s).

Definition offer (cs : ChangeSet) (q : list ChangeSet) : list ChangeSet :=
  if length q <? 100 then q ++ [cs] else q.

Definition source_Update (c : option ChangeSet) (s : msource) : msource :=
  match c with
  | None => s
  | Some c =>
      let cs := mkChangeSet (cs_Data c) (Sum (cs_Data c)) (cs_Format c) "memory" in
      mkSource (Some cs)
        (map_imap (fun id q => Some (if decide (id ∈ ms_Watchers s) then offer cs q else q)) (ms_queues s))
        (ms_Watchers s)
  end.

Definition source_Next (id : string) (s : msource) : option (ChangeSet * msource) :=
  match ms_queues s !! id with
  | Some (cs :: q) => Some (cs, mkSource (ms_ChangeSet s) (<[id := q]> (ms_queues s)) (ms_Watchers s))
  | _ => None
  end.

Definition source_Stop (id : string) (s : msource) : msource :=
  mkSource (ms_ChangeSet s) (ms_queues s) (ms_Watchers s ∖ {[id]}).

Definition NewSource (c : option ChangeSet) : msource := source_Update c (mkSource None ∅ ∅).

(** A memory source gives its watchers every change set in the order they were
    written, as long as no more than a hundred are waiting, and [Read] the last. *)
Theorem source_Update_queue cs l id s q :
  ms_queues s !! id = Some q -> id ∈ ms_Watchers s -> length q + length l < 100 ->
  let stamp c := mkChangeSet (cs_Data c) (Sum (cs_Data c)) (cs_Format c) "memory" in
  let s' := foldl (fun s c => source_Update (Some c) s) s (l ++ [cs]) in
  ms_queues s' !! id = Some (q ++ map stamp (l ++ [cs])) /\ source_Read s' = Ret (stamp cs).
Proof.
  intros Hq Hw Hl stamp s'. split.
  - subst s'. assert (length q + length (l ++ [cs]) <= 100) as Hl' by (rewrite length_app; cbn; lia).
    clear Hl. revert s q Hq Hw Hl'. generalize (l ++ [cs]). clear l. induction l as [|c l IH]; intros s q Hq Hw Hl; cbn.
    { by rewrite app_nil_r. }
    cbn in Hl. rewrite (IH _ (q ++ [stamp c])); [by rewrite <- app_assoc| |done|rewrite length_app; cbn; lia].
    cbn. rewrite map_lookup_imap, Hq. cbn. rewrite decide_True by done. unfold offer.
    destruct (Nat.ltb_spec (length q) 100); [done|lia].
  - subst s'. by rewrite foldl_app.
Qed.

(** [format] of the file source: the extension, or the encoder's format. *)
Definition format (p enc : string) : string :=
  let parts := split_char "." p in
  if 1 <? length parts then List.last parts "" else enc.
End source_memory.

(** ** Examples and witnesses *)
#[local] Existing Instance cat_reader.

Definition getenv_ex (name : string) : string := if String.eqb name "myBar" then "${X}" else "".

(** The cases of the tests: names with other characters, empty names and unclosed
    braces stay; a value is not read again. *)
Example replace_cases :
  ReplaceEnvVars getenv_ex "a ${myBar} $${myBar}" = "a ${X} $${X}" /\
  ReplaceEnvVars getenv_ex "${myBar-} ${} $sss} ${sss {x}" = "${myBar-} ${} $sss} ${sss {x}".
Proof. by split. Qed.

Lemma ReplaceEnvVars_template_witness :
  ReplaceEnvVars getenv_ex "bar: ${myBar}, ${unset_1}." = "bar: ${X}, .".
Proof.
  apply (ReplaceEnvVars_template getenv_ex [Text "bar: "; Var "myBar"; Text ", "; Var "unset_1"; Text "."]).
  repeat constructor; done.
Defined.

(** Maps written as text; merging appends. *)
Definition append_ex (d e : string) : string + string := inr (d +:+ e).
Definition decode_ex (s : string) : string + string := match s with String _ d => inr d | "" => inl "EOF" end.
Definition encode_ex (d : string) : string + string := inr ("{" +:+ d).
Definition encoding_ex (f : string) : option (string -> string + string) :=
  if String.eqb f "json" then Some decode_ex else None.
Definition merge_ex : list (option ChangeSet) -> string + ChangeSet :=
  json_Merge "" append_ex decode_ex encode_ex encoding_ex sum_ex.

Lemma json_Merge_assoc_witness :
  merge_ex [raw "{a"; None; raw ""; raw "{b"] = inr (mkChangeSet "{ab" "sum" "json" "json") /\
  merge_ex [Some (mkChangeSet "{ab" "sum" "json" "json"); raw "{c"] = merge_ex [raw "{a"; None; raw ""; raw "{b"; raw "{c"].
Proof.
  split; [reflexivity|].
  apply (json_Merge_assoc "" append_ex decode_ex encode_ex encoding_ex sum_ex [raw "{a"; None; raw ""; raw "{b"] [raw "{c"]).
  - reflexivity.
  - intros d b [= <-]. split; [discriminate|reflexivity].
  - intros d. reflexivity.
  - reflexivity.
Defined.

Definition config_ex : @config string :=
  mkConfig (Some "a") false (Some (mkSnapshot (mkChangeSet "a" "" "json" "json") "1")).
Definition snap_ex (d ver : string) : Snapshot := mkSnapshot (mkChangeSet d "" "json" "json") ver.

Lemma follow_newest_witness :
  exists c' s', follow_all config_ex [snap_ex "c" "3"; snap_ex "b" "2"] = Ret c' /\ config_ok c' /\ c_snap c' = Some s' /\
    (s' = snap_ex "a" "1" \/ s' ∈ [snap_ex "c" "3"; snap_ex "b" "2"]) /\
    Forall (fun s => ver_le (sn_Version s) (sn_Version s') = true) [snap_ex "a" "1"; snap_ex "c" "3"; snap_ex "b" "2"].
Proof. apply (follow_newest [snap_ex "c" "3"; snap_ex "b" "2"] config_ex (snap_ex "a" "1")); reflexivity. Defined.

(** A first source is loaded with [Init], a second with [Load]. *)
Definition init_ex := Init (V := string) (X := string) false [(0, inr (raw "a"))] "1" (read_ex "a") "2".
Definition load_ex := config_Load [(1, inr (raw "b"))] "3" (read_ex "ab") "4" init_ex.1.1 init_ex.1.2.

Lemma config_agrees_witness :
  config_ok load_ex.1.1 /\ c_snap load_ex.1.1 = snap load_ex.1.2 /\
  exists s v, snap load_ex.1.2 = Some s /\ Values (sn_ChangeSet s) = inr v /\ config_Get "" ["k"] load_ex.1.1 = vget v ["k"].
Proof.
  apply (config_agrees "" [(1, inr (raw "b"))] "3" (read_ex "ab") "4" init_ex.1.1 init_ex.1.2 load_ex.1.1 load_ex.1.2 ["k"]).
  left. reflexivity.
Defined.

(** The configuration then has both sources, the loader's own values only the first. *)
Example loader_keeps_old_values :
  config_Get "" [] load_ex.1.1 = "ab" /\ (Get [] (read_ex "ab") "5" load_ex.1.2).2 = Ret "a".
Proof. by split. Qed.

(** The example of [NewSource] of the environment source. *)
Example env_doc :
  entry "DATABASE_SERVER_HOST=localhost" = Ret (Under "database" (Under "server" (One "host" (StringValue "localhost")))).
Proof. reflexivity. Qed.

Lemma entry_path_witness :
  exists t, entry "A_PORT=80=80" = Ret t /\
    forall path, value_at path t = if decide (path = ["a"; "port"]) then Some (StringValue "80=80") else None.
Proof. apply (entry_path "A_PORT" "80=80"). reflexivity. Defined.

Lemma source_Update_queue_witness :
  let s := source_Watch "w" (NewSource sum_ex (raw "a")) in
  let s' := source_Update sum_ex (raw "c") (source_Update sum_ex (raw "b") s) in
  ms_queues s' !! "w" = Some [mkChangeSet "b" "sum" "json" "memory"; mkChangeSet "c" "sum" "json" "memory"] /\
  source_Read s' = Ret (mkChangeSet "c" "sum" "json" "memory").
Proof.
  apply (source_Update_queue sum_ex (mkChangeSet "c" "" "json" "file") [mkChangeSet "b" "" "json" "file"] "w"
    (source_Watch "w" (NewSource sum_ex (raw "a"))) []); [reflexivity|set_solver|cbn; lia].
Defined.
