(* ===== verification/RpcCall.v ===== *)
(** * One call and one stream of the RPC client: [client/rpc_client.go]

    What [call] and [stream] prepare (headers, codec, dialling), the exchange of a
    call as a step relation between the goroutine that sends and receives and the
    code that waits for it with a timeout, the opening of a stream, [Publish] and
    [Init]. The exchange runs on the stream of RpcStream and ends with the release of
    the connection, to the pool of ConnPool. *)
From S2P Require Import Prelude GoStrings GoStrconv GoIO Codec RpcCodec RpcStream.
From S2P Require ConnPool.

(** ** Preparation *)
Definition DefaultConnectionTimeout : Z := 5000000000.

Record CallOptions := mkCallOptions {
  ConnectionTimeout : Z;
  StreamTimeout : Z;
  DialTimeout : Z;
  ConnClose : bool;
}.

Record DialOptions := mkDialOptions { d_Stream : bool; d_Timeout : option Z; d_ConnClose : bool }.

(** [md] is what [metadata.FromContext] returned. *)
Definition content_headers (ctype : string) (h : gmap string string) : gmap string string :=
  <["Accept" := ctype]> (<[HContentType := ctype]> h).

Definition call_timeout (o : CallOptions) : Z :=
  if (ConnectionTimeout o =? 0)%Z then DefaultConnectionTimeout else ConnectionTimeout o.

Definition call_headers (md : option (gmap string string)) (o : CallOptions) (ctype : string) : gmap string string :=
  content_headers ctype (<["Timeout" := fmt_Z (call_timeout o)]> (delete HMessage (default ∅ md))).

Definition stream_headers (md : option (gmap string string)) (o : CallOptions) (ctype : string) : gmap string string :=
  let h := default ∅ md in
  content_headers ctype (if (0 <? StreamTimeout o)%Z then <["Timeout" := fmt_Z (StreamTimeout o)]> h else h).

Definition packageID : string := "go.micro.client".

Definition unsupported (ctype : string) : rpc_error := Internal packageID ("unsupported Content-Type: " +:+ ctype).

Definition dial_timeout (o : CallOptions) : option Z :=
  if (0 <=? DialTimeout o)%Z then Some (DialTimeout o) else None.

(** What is sent to a node and how, or the error. *)
Definition prepare (codecs : gmap string codec_kind) (node_md h : gmap string string) (ctype : string) (d : DialOptions) :
    rpc_error + gmap string string * codec_kind * DialOptions :=
  match client_codec codecs h node_md with
  | (_, None) => inl (unsupported ctype)
  | (h, Some k) => inr (h, k, d)
  end.

Definition call_prepare (codecs : gmap string codec_kind) (md : option (gmap string string)) (node_md : gmap string string)
    (o : CallOptions) (ctype : string) :=
  prepare codecs node_md (call_headers md o ctype) ctype (mkDialOptions true (dial_timeout o) (ConnClose o)).

Definition stream_prepare (codecs : gmap string codec_kind) (md : option (gmap string string)) (node_md : gmap string string)
    (o : CallOptions) (ctype : string) :=
  prepare codecs node_md (stream_headers md o ctype) ctype (mkDialOptions true (dial_timeout o) false).

(** The sequence number taken, and the counter after it; unsigned, of 64 bits. *)
Definition next_seq (seq : N) : string * N := (fmt_N seq, N.modulo (seq + 1) (2 ^ 64)).

(** ** The exchange of a call *)

Inductive call_error := StreamErr (e : stream_error) | Recovered (detail : string).

(** The goroutine: about to send, about to start receiving, waiting for the header,
    reading the body, gone. *)
Inductive gpc := GSend | GBegin | GHeader | GBody | GExit.

(** The caller: in the select, about to set the stream's error, about to close the
    stream, in the sections of closing, done. *)
Inductive mpc := MWait | MSet (detail : string) | MClose | MEOS | MCodec | MRelease | MEnd.

Record exchange := mkExchange {
  k_stream : rpcStream;
  k_g : gpc;
  k_m : mpc;
  k_ch : option (option call_error);
  k_result : option (option call_error);
}.

Definition at_g (g : gpc) (s : rpcStream) (x : exchange) : exchange := mkExchange s g (k_m x) (k_ch x) (k_result x).
Definition at_m (m : mpc) (s : rpcStream) (x : exchange) : exchange := mkExchange s (k_g x) m (k_ch x) (k_result x).
Definition report (r : option call_error) (s : rpcStream) (x : exchange) : exchange :=
  mkExchange s GExit (k_m x) (Some r) (k_result x).

Section exchange.
Context (q : Request).

(** [call] makes its stream without an end-of-stream message. *)
Definition call_start (o : CallOptions) (id : string) : exchange :=
  mkExchange (opened (ConnClose o) false id) GSend MWait None None.

Definition g_next (g : gpc) (x : exchange) (r : rpcStream * option stream_error) : exchange :=
  match r with
  | (s, Some e) => report (Some (StreamErr e)) s x
  | (s, None) => at_g g s x
  end.

Inductive xstep (x : exchange) : exchange -> Prop :=
| x_send w : k_g x = GSend -> xstep x (g_next GBegin x (Send q w (k_stream x)))
| x_begin : k_g x = GBegin -> xstep x (g_next GHeader x (recv_begin (k_stream x)))
| x_header hdr : k_g x = GHeader ->
    xstep x (match recv_header hdr (k_stream x) with
             | (s, Done e) => report (Some (StreamErr e)) s x
             | (s, _) => at_g GBody s x
             end)
| x_body body s r : k_g x = GBody -> recv_body body (k_stream x) = (s, r) -> xstep x (report (StreamErr <$> r) s x)
| x_panic detail : k_g x <> GExit -> xstep x (report (Some (Recovered detail)) (k_stream x) x)
| x_answer r : k_m x = MWait -> k_ch x = Some r ->
    xstep x (mkExchange (k_stream x) (k_g x) MClose None (Some r))
| x_timeout detail : k_m x = MWait ->
    xstep x (mkExchange (k_stream x) (k_g x) (MSet detail) (k_ch x) (Some (Some (StreamErr (TimedOut detail)))))
| x_set detail : k_m x = MSet detail -> xstep x (at_m MClose (set_err (Some (TimedOut detail)) (k_stream x)) x)
| x_close s started : k_m x = MClose -> close_begin (k_stream x) = (s, started) ->
    xstep x (at_m (if started : bool then MEOS else MEnd) s x)
| x_eos : k_m x = MEOS -> xstep x (at_m MCodec (close_send q (k_stream x)) x)
| x_codec : k_m x = MCodec -> xstep x (at_m MRelease (close_codec (k_stream x)) x)
| x_release : k_m x = MRelease -> xstep x (at_m MEnd (close_release (k_stream x)) x).

Definition is_closed_pc (m : mpc) : bool := match m with MWait | MSet _ | MClose => false | _ => true end.

(** Before the result, and between a timeout and what it sets. *)
Definition undecided (m : mpc) : bool := match m with MWait | MSet _ => true | _ => false end.

(** What closing has logged, given what the connection was released with. *)
Definition closing_log (m : mpc) (e : option stream_error) : list event :=
  match m with
  | MRelease => [CodecClosed]
  | MEnd => [CodecClosed; Released e]
  | _ => []
  end.

(** No error was set, unless it is the one that the header of the answer carried. *)
Definition clean (r : rpcStream) : Prop :=
  match s_err r with
  | None | Some StreamEOF | Some (ServerError _) => True
  | Some _ => False
  end.

(** The error that closing a stream releases its connection with. *)
Definition released_with (o : CallOptions) (r : rpcStream) : option stream_error :=
  match s_err r with Some e => Some e | None => if ConnClose o then Some CloseHeader else None end.

(** The result, the stream's error and what the connection is released with. *)
Definition result_ok (o : CallOptions) (x : exchange) (e : option stream_error) : Prop :=
  match k_result x with
  | None => k_m x = MWait
  | Some None =>
      undecided (k_m x) = false /\ k_g x = GExit /\ s_err (k_stream x) = None /\
      (k_m x = MEnd -> e = if ConnClose o then Some CloseHeader else None)
  | Some (Some (Recovered _)) =>
      undecided (k_m x) = false /\ k_g x = GExit /\ clean (k_stream x) /\ (k_m x = MEnd -> e = released_with o (k_stream x))
  | Some (Some (StreamErr _)) =>
      match k_m x with
      | MWait => False
      | MSet _ => True
      | MEnd => e <> None
      | _ => s_err (k_stream x) <> None
      end
  end.

Definition channel_ok (x : exchange) : Prop :=
  match k_ch x with
  | None => True
  | Some r =>
      k_g x = GExit /\
      match r with
      | None => k_m x = MWait -> s_err (k_stream x) = None
      | Some (StreamErr _) => s_err (k_stream x) <> None
      | Some (Recovered _) => k_m x = MWait -> clean (k_stream x)
      end
  end.

(** The request went out. *)
Definition was_sent (x : exchange) : Prop :=
  k_g x = GBegin \/ k_g x = GHeader \/ k_g x = GBody \/ k_ch x = Some None \/ k_result x = Some None.

Record exchange_ok (o : CallOptions) (x : exchange) : Prop := {
  xo_flags : s_close (k_stream x) = ConnClose o /\ s_sendEOS (k_stream x) = false;
  xo_closed : s_closed (k_stream x) = is_closed_pc (k_m x);
  xo_channel : channel_ok x;
  xo_clean : k_m x = MWait -> k_g x <> GExit -> clean (k_stream x);
  xo_log : exists sents e, s_log (k_stream x) = sents ++ closing_log (k_m x) e /\ Forall is_sent sents /\
    length sents <= 1 /\ (k_g x = GSend -> sents = []) /\ (was_sent x -> length sents = 1) /\ result_ok o x e;
}.

(** A step of the goroutine that sends nothing and keeps an error once there. *)
Record quiet (r r' : rpcStream) : Prop := {
  qt_close : s_close r' = s_close r;
  qt_eos : s_sendEOS r' = s_sendEOS r;
  qt_closed : s_closed r' = s_closed r;
  qt_log : s_log r' = s_log r;
  qt_err : s_err r <> None -> s_err r' <> None;
}.

Lemma quiet_refl r : quiet r r.
Proof. by split. Qed.

Lemma quiet_set_err e r : quiet r (set_err (Some e) r).
Proof. by split. Qed.

Lemma recv_header_quiet hdr r : quiet r (recv_header hdr r).1.
Proof. unfold recv_header. destruct hdr as [e|m]; [apply quiet_set_err|]. destruct (negb _); [apply quiet_set_err|apply quiet_refl]. Qed.

Lemma recv_header_done hdr r s e : recv_header hdr r = (s, Done e) -> s_err s <> None.
Proof. unfold recv_header. destruct hdr; [by intros [= <- _]|]. by destruct (negb _). Qed.

Lemma recv_header_clean hdr r s a : recv_header hdr r = (s, a) -> (forall e, a <> Done e) -> clean r -> clean s.
Proof.
  unfold recv_header. destruct hdr as [e|m]; [naive_solver|]. destruct (negb _); [|by intros [= <- _]].
  intros [= <- <-] _ _. unfold clean. cbn. destruct (String.eqb _ _); cbn; by eauto.
Qed.

Lemma recv_body_quiet body r : quiet r (recv_body body r).1.
Proof. unfold recv_body. destruct body; [apply quiet_set_err|apply quiet_refl]. Qed.

(** The goroutine goes on without leaving. *)
Lemma ok_move o x g s :
  exchange_ok o x -> quiet (k_stream x) s -> (clean (k_stream x) -> clean s) ->
  k_g x <> GExit -> k_g x <> GSend -> g <> GExit -> g <> GSend -> exchange_ok o (at_g g s x).
Proof.
  intros [[Hc He] Hcl Hch Hcln (sents & e & Hl & Hs & Hn & _ & Hw & Hr)] [Qc Qe Qcl Ql Qerr] Qnone Hg Hg' Hgn Hgn'.
  assert (k_ch x = None) as Hnone by (unfold channel_ok in Hch; destruct (k_ch x); [by destruct Hch|done]).
  split; cbn.
  - by rewrite Qc, Qe.
  - by rewrite Qcl.
  - unfold channel_ok. cbn. by rewrite Hnone.
  - intros Hm _. by apply Qnone, Hcln.
  - exists sents, e. rewrite Ql. split_and!; try done.
    + intros _. apply Hw. unfold was_sent. destruct (k_g x); naive_solver.
    + unfold result_ok in *. cbn. destruct (k_result x) as [[[]|]|]; [|naive_solver..].
      destruct (k_m x); auto.
Qed.

(** The goroutine reports and leaves. *)
Lemma ok_report o x r s :
  exchange_ok o x -> quiet (k_stream x) s -> k_g x <> GExit ->
  match r with
  | None => s_err s = None /\ k_g x <> GSend
  | Some (StreamErr _) => s_err s <> None
  | Some (Recovered _) => s = k_stream x
  end -> exchange_ok o (report r s x).
Proof.
  intros [[Hc He] Hcl Hch Hcln (sents & e & Hl & Hs & Hn & H0 & Hw & Hr)] [Qc Qe Qcl Ql Qerr] Hg Hres.
  split; cbn.
  - by rewrite Qc, Qe.
  - by rewrite Qcl.
  - unfold channel_ok. cbn. split; [done|]. destruct r as [[]|]; naive_solver.
  - done.
  - exists sents, e. rewrite Ql. split_and!; try done.
    + intros Hsent. apply Hw. unfold was_sent in *. cbn in Hsent.
      destruct Hsent as [?|[?|[?|[[= ->]|Hres']]]]; [done..| |naive_solver].
      destruct Hres as [_ Hgs]. destruct (k_g x); naive_solver.
    + unfold result_ok in *. cbn. destruct (k_result x) as [[[]|]|]; [|naive_solver..].
      destruct (k_m x); auto.
Qed.

Lemma ok_send o w x : exchange_ok o x -> k_g x = GSend -> exchange_ok o (g_next GBegin x (Send q w (k_stream x))).
Proof.
  intros Hok Hg. unfold Send. destruct (s_closed (k_stream x)) eqn:Hcl.
  { apply ok_report; [done|apply quiet_set_err|by rewrite Hg|done]. }
  destruct w; [apply ok_report; [done|apply quiet_set_err|by rewrite Hg|done]|].
  destruct Hok as [[Hc He] Hcl' Hch Hcln (sents & e & Hl & Hs & Hn & H0 & Hw & Hr)]. rewrite (H0 Hg) in *. rewrite Hcl in Hcl'.
  assert (k_ch x = None) as Hnone.
  { unfold channel_ok in Hch. destruct (k_ch x); [destruct Hch; congruence|done]. }
  split; cbn; [done|congruence|unfold channel_ok; cbn; by rewrite Hnone|by intros Hm _; apply Hcln; rewrite ?Hg|].
  eexists [_], e. split; [rewrite Hl; by destruct (k_m x)|]. split; [by repeat constructor|].
  split; [done|]. split; [done|]. split; [done|].
  unfold result_ok in *. cbn. destruct (k_result x) as [[[]|]|]; [done| | |done]; destruct Hr as (_ & Hr & _); congruence.
Qed.

(** The caller moves on and logs nothing. *)
Lemma ok_main o x m s ch res :
  exchange_ok o x -> s_close s = s_close (k_stream x) -> s_sendEOS s = s_sendEOS (k_stream x) ->
  s_log s = s_log (k_stream x) -> s_closed s = is_closed_pc m ->
  (forall e, closing_log (k_m x) e = []) -> (forall e, closing_log m e = []) ->
  channel_ok (mkExchange s (k_g x) m ch res) -> m <> MWait -> (was_sent (mkExchange s (k_g x) m ch res) -> was_sent x) ->
  (forall e, result_ok o x e -> result_ok o (mkExchange s (k_g x) m ch res) e) ->
  exchange_ok o (mkExchange s (k_g x) m ch res).
Proof.
  intros [[Hc He] Hcl Hch Hcln (sents & e & Hl & Hs & Hn & H0 & Hw & Hr)] Qc Qe Ql Qcl Hm Hm' Qch Qm Qw Qr.
  split; cbn; [by rewrite Qc, Qe|done|done|done|]. exists sents, e. rewrite Ql, Hl, Hm, Hm'. split_and!; auto.
Qed.

Lemma channel_ok_main x m s res :
  channel_ok x -> (s_err (k_stream x) <> None -> s_err s <> None) -> m <> MWait ->
  channel_ok (mkExchange s (k_g x) m (k_ch x) res).
Proof.
  unfold channel_ok. cbn. intros Hch Herr Hm. destruct (k_ch x) as [r|]; [|done]. destruct Hch as [Hg Hch].
  split; [done|]. destruct r as [[]|]; [by apply Herr|done|done].
Qed.

Lemma xstep_ok o x x' : exchange_ok o x -> xstep x x' -> exchange_ok o x'.
Proof.
  intros Hok Hst. pose proof Hok as [[Hc He] Hcl Hch Hcln Hlog].
  destruct Hst as [w Hg|Hg|hdr Hg|body s r Hg Hb|detail Hg|r Hm Hr|detail Hm|detail Hm|s st Hm Hb|Hm|Hm|Hm].
  - by apply ok_send.
  - unfold recv_begin. destruct (s_closed _); [apply ok_report|apply ok_move]; try done; by rewrite ?Hg.
  - pose proof (recv_header_quiet hdr (k_stream x)) as Hq. destruct (recv_header hdr _) as [s a] eqn:Hh.
    destruct a as [e| |]; [apply ok_report|apply ok_move..]; rewrite ?Hg; try done; [by eapply recv_header_done|..];
      eapply recv_header_clean; naive_solver.
  - pose proof (recv_body_quiet body (k_stream x)) as Hq. rewrite Hb in Hq. apply ok_report; rewrite ?Hg; try done.
    unfold recv_body in Hb. injection Hb as <- <-. destruct body; cbn; [done|]. by destruct (s_err (k_stream x)).
  - apply ok_report; [done|apply quiet_refl|done|done].
  - rewrite Hm in Hcl. unfold channel_ok in Hch. rewrite Hr in Hch. destruct Hch as [Hg Hch].
    apply ok_main; rewrite ?Hm; try done.
    + unfold was_sent. cbn. naive_solver.
    + intros e _. clear Hlog Hok. unfold result_ok. cbn. destruct r as [[]|]; naive_solver.
  - rewrite Hm in Hcl. apply ok_main; rewrite ?Hm; try done.
    + by apply channel_ok_main.
    + unfold was_sent. cbn. naive_solver.
  - rewrite Hm in Hcl. apply ok_main; rewrite ?Hm; try done.
    + by apply channel_ok_main.
    + intros e. clear Hch Hlog Hok. unfold result_ok. cbn. rewrite Hm. destruct (k_result x) as [[[]|]|]; naive_solver.
  - rewrite Hm in Hcl. unfold close_begin in Hb. rewrite Hcl in Hb. injection Hb as <- <-. apply ok_main; rewrite ?Hm; try done.
    + by apply channel_ok_main.
    + intros e. clear Hch Hlog Hok. unfold result_ok. cbn. rewrite Hm. destruct (k_result x) as [[[]|]|]; naive_solver.
  - rewrite Hm in Hcl. assert (close_send q (k_stream x) = k_stream x) as -> by (unfold close_send; by rewrite He).
    apply ok_main; rewrite ?Hm; try done.
    + by apply channel_ok_main.
    + intros e. clear Hch Hlog Hok. unfold result_ok. cbn. rewrite Hm. destruct (k_result x) as [[[]|]|]; naive_solver.
  - destruct Hlog as (sents & e & Hl & Hs & Hn & H0 & Hw & Hr). rewrite Hm in *. split; cbn; try done.
    + by apply channel_ok_main.
    + exists sents, e. rewrite Hl, app_nil_r. split_and!; try done.
      clear Hch Hok. unfold result_ok in *. cbn. rewrite Hm in Hr. destruct (k_result x) as [[[]|]|]; naive_solver.
  - destruct Hlog as (sents & e & Hl & Hs & Hn & H0 & Hw & Hr). rewrite Hm in *. split; cbn; try done.
    + by apply channel_ok_main.
    + exists sents, (match s_err (k_stream x) with Some e => Some e | None => if s_close (k_stream x) then Some CloseHeader else None end).
      rewrite Hl, <- app_assoc. split_and!; try done.
      clear Hch Hok. unfold result_ok in *. cbn. rewrite Hm in Hr.
      unfold released_with, clean, close_release in *. cbn. rewrite Hc. destruct (s_err (k_stream x)), (k_result x) as [[[]|]|], (ConnClose o); naive_solver.
Qed.

Lemma call_start_ok o id : exchange_ok o (call_start o id).
Proof.
  split; cbn; try done. exists [], None. split_and!; try done; [cbn; lia|]. unfold was_sent. cbn. naive_solver.
Qed.

Lemma reachable_exchange_ok o id x : rtc xstep (call_start o id) x -> exchange_ok o x.
Proof.
  intros Hr. remember (call_start o id) as x0 eqn:Hx0. assert (exchange_ok o x0) as Hok by (subst; apply call_start_ok).
  clear Hx0. induction Hr as [|x1 x2 x3 Hst _ IH]; [done|]. apply IH. by eapply xstep_ok.
Qed.

(** C8: how a call ends. However the goroutine that exchanges the messages interleaves
    with the caller, its timeout and its closing of the stream: at most one request was
    sent, the codec was closed and the connection released once; a call that succeeded
    has sent its request and releases the connection without an error, unless it is to
    be closed; a call that failed with an error of its stream or timed out releases it
    with an error; one whose goroutine panicked, and was recovered, sets no error: it
    releases the connection with the error that the header of the answer carried, if
    one had arrived, and else as a call that succeeded does. *)
Theorem call_ends o id x :
  rtc xstep (call_start o id) x -> k_m x = MEnd ->
  exists r sents e, k_result x = Some r /\ s_log (k_stream x) = sents ++ [CodecClosed; Released e] /\
    Forall is_sent sents /\ length sents <= 1 /\
    match r with
    | None => length sents = 1 /\ e = if ConnClose o then Some CloseHeader else None
    | Some (StreamErr _) => e <> None
    | Some (Recovered _) => clean (k_stream x) /\ e = released_with o (k_stream x)
    end.
Proof.
  intros Hr Hm. apply reachable_exchange_ok in Hr as [_ _ _ _ (sents & e & Hl & Hs & Hn & _ & Hw & Hres)].
  unfold result_ok in Hres. rewrite Hm in Hl, Hres. destruct (k_result x) as [r|] eqn:Hk; [|done].
  exists r, sents, e. split; [done|]. split; [done|]. split; [done|]. split; [done|].
  destruct r as [[]|]; [done|naive_solver|]. split; [apply Hw; by do 4 right|by apply Hres].
Qed.

(** What the releases of a log do to the pool. *)
Definition pool_after (close : ConnPool.closer) (p : ConnPool.pool) (c : ConnPool.poolConn) (l : list event) :
    ConnPool.pool :=
  foldl (fun p ev => match ev with Released e => (ConnPool.Release close p c e).1.1 | _ => p end) p l.

Lemma pool_after_app close p c l l' : pool_after close p c (l ++ l') = pool_after close (pool_after close p c l) c l'.
Proof. apply foldl_app. Qed.

Lemma pool_after_sent close p c l : Forall is_sent l -> pool_after close p c l = p.
Proof. induction 1 as [|ev l He Hl IH]; [done|]. by destruct ev. Qed.

(** C7: a connection goes back to the pool only when nothing uses it. If the release of
    a call put its connection into the pool, the goroutine of the call has gone, and
    the call ended with the whole answer read, or with a panic that was recovered. *)
Theorem call_returns_idle o id x close p c :
  rtc xstep (call_start o id) x ->
  c ∉ ConnPool.conns_at p (ConnPool.Remote c) ->
  c ∈ ConnPool.conns_at (pool_after close p c (s_log (k_stream x))) (ConnPool.Remote c) ->
  k_g x = GExit /\ k_m x = MEnd /\ ConnClose o = false /\
  (k_result x = Some None \/ exists d, k_result x = Some (Some (Recovered d))).
Proof.
  intros Hr Hp Hc. apply reachable_exchange_ok in Hr as [_ _ _ _ (sents & e & Hl & Hs & _ & _ & _ & Hres)].
  rewrite Hl, pool_after_app, (pool_after_sent _ _ _ sents) in Hc by done.
  unfold closing_log in Hc. destruct (k_m x) eqn:Hm; try done. cbn in Hc.
  destruct e as [e|]; [done|]. unfold result_ok in Hres. rewrite Hm in Hres.
  destruct (k_result x) as [[[e|d]|]|]; [done| | |done].
  - destruct Hres as (_ & Hg & _ & Hcl). repeat split; [done| |right; by exists d]. specialize (Hcl eq_refl).
    unfold released_with in Hcl. by destruct (s_err _), (ConnClose o).
  - destruct Hres as (_ & Hg & _ & Hcl). repeat split; [done| |by left]. specialize (Hcl eq_refl). by destruct (ConnClose o).
Qed.
End exchange.

(** ** The opening of a stream

    A goroutine sends the first message; the caller waits for it or for its context. *)
Inductive omc := OWait | OSet (e : stream_error) | OClose | OEOS | OCodec | ORelease | OEnd.

Record opening := mkOpening {
  y_stream : rpcStream;
  y_sent : bool;
  y_ch : option (option stream_error);
  y_m : omc;
  y_result : option (option stream_error);
}.

Section opening.
Context (q : Request).

Definition stream_start (id : string) : opening := mkOpening (opened false true id) false None OWait None.

Definition at_o (m : omc) (s : rpcStream) (y : opening) : opening := mkOpening s (y_sent y) (y_ch y) m (y_result y).

Inductive ystep (y : opening) : opening -> Prop :=
| y_send w s r : y_sent y = false -> Send q w (y_stream y) = (s, r) ->
    ystep y (mkOpening s true (Some r) (y_m y) (y_result y))
| y_answer r : y_m y = OWait -> y_ch y = Some r ->
    ystep y (mkOpening (y_stream y) (y_sent y) None (match r with Some e => OSet e | None => OEnd end) (Some r))
| y_done detail : y_m y = OWait ->
    ystep y (mkOpening (y_stream y) (y_sent y) (y_ch y) (OSet (TimedOut detail)) (Some (Some (TimedOut detail))))
| y_set e : y_m y = OSet e -> ystep y (at_o OClose (set_err (Some e) (y_stream y)) y)
| y_close s started : y_m y = OClose -> close_begin (y_stream y) = (s, started) ->
    ystep y (at_o (if started : bool then OEOS else OEnd) s y)
| y_eos : y_m y = OEOS -> ystep y (at_o OCodec (close_send q (y_stream y)) y)
| y_codec : y_m y = OCodec -> ystep y (at_o ORelease (close_codec (y_stream y)) y)
| y_release : y_m y = ORelease -> ystep y (at_o OEnd (close_release (y_stream y)) y).

Definition eos_of (id : string) : event := SentEOS (message q id lastStreamResponseError TypeError).

Definition opening_log (id : string) (m : omc) (failed : bool) (e : option stream_error) : list event :=
  match m with
  | OCodec => [eos_of id]
  | ORelease => [eos_of id; CodecClosed]
  | OEnd => if failed then [eos_of id; CodecClosed; Released e] else []
  | _ => []
  end.

Definition failed (y : opening) : bool := match y_result y with Some (Some _) => true | _ => false end.

Definition o_closed (m : omc) (failed : bool) : bool :=
  match m with OWait | OSet _ | OClose => false | OEnd => failed | _ => true end.

(** Where the caller is, its result and the stream's error. *)
Definition outcome_ok (y : opening) : Prop :=
  match y_m y with
  | OWait => y_result y = None
  | OSet e => y_result y = Some (Some e)
  | OEnd => y_result y <> None
  | _ => failed y = true /\ s_err (y_stream y) <> None
  end.

(** The first message was written, and nothing went wrong since. *)
Definition first_ok (y : opening) (sents : list event) : Prop :=
  y_ch y = Some None \/ y_result y = Some None ->
  y_sent y = true /\ length sents = 1 /\ (failed y = false -> s_err (y_stream y) = None).

Record opening_ok (id : string) (y : opening) : Prop := {
  yo_flags : s_id (y_stream y) = id /\ s_sendEOS (y_stream y) = true;
  yo_closed : s_closed (y_stream y) = o_closed (y_m y) (failed y);
  yo_outcome : outcome_ok y;
  yo_new : y_sent y = false -> y_ch y = None /\ (failed y = false -> s_err (y_stream y) = None);
  yo_log : exists sents e, s_log (y_stream y) = sents ++ opening_log id (y_m y) (failed y) e /\ Forall is_sent sents /\
    length sents <= 1 /\ (y_sent y = false -> sents = []) /\ first_ok y sents /\ (y_m y = OEnd -> failed y = true -> e <> None);
}.

Lemma stream_start_ok id : opening_ok id (stream_start id).
Proof.
  split; cbn; try done. exists [], None. split_and!; try done; [cbn; lia|]. unfold first_ok. cbn. by intros [|].
Qed.

Lemma opening_send_ok id y w s r :
  opening_ok id y -> y_sent y = false -> Send q w (y_stream y) = (s, r) ->
  opening_ok id (mkOpening s true (Some r) (y_m y) (y_result y)).
Proof.
  intros [[Hi He] Hcl Ho Hn (sents & e & Hl & Hs & Hlen & H0 & Hf & Hend)] Hns Hsend.
  destruct (Hn Hns) as [Hch Herr]. rewrite (H0 Hns) in *. unfold Send in Hsend.
  assert (s_log s = s_log (y_stream y) /\ r <> None /\ s_err s <> None \/
    s_closed (y_stream y) = false /\ s_log s = s_log (y_stream y) ++ [Sent (message q (s_id (y_stream y)) "" TypeRequest)] /\
    r = None /\ s_err s = s_err (y_stream y)) as Hcases.
  { destruct (s_closed (y_stream y)); [by injection Hsend as <- <-; left|].
    destruct w; injection Hsend as <- <-; [by left|by right]. }
  assert (s_id s = s_id (y_stream y) /\ s_sendEOS s = s_sendEOS (y_stream y) /\ s_closed s = s_closed (y_stream y)) as (Qi & Qe & Qc).
  { destruct (s_closed (y_stream y)) eqn:Hc0; [|destruct w]; injection Hsend as <- _; by rewrite <- ?Hc0. }
  assert (y_result y <> Some None) as Hnr.
  { intros Hr. destruct Hf as [Hst _]; [by right|]. congruence. }
  split; cbn.
  - by rewrite Qi, Qe.
  - by rewrite Qc.
  - unfold outcome_ok, failed in *. cbn. destruct (y_m y); try done;
      (split; [apply Ho|]; destruct Hcases as [(_ & _ & ?)|(_ & _ & _ & ->)]; [done|apply Ho]).
  - done.
  - destruct Hcases as [(-> & Hr & Hse)|(Hcl0 & -> & -> & Hse)].
    + exists [], e. rewrite Hl. split_and!; try done. unfold first_ok. cbn. intros [[= ->]|?]; done.
    + eexists [_], e. rewrite Hcl0 in Hcl. split; [rewrite Hl|].
      { unfold failed in *. cbn. destruct (y_m y); try done. cbn in Hcl. by rewrite <- Hcl. }
      split; [by repeat constructor|]. split; [done|]. split; [done|]. split; [|done].
      unfold first_ok. cbn. intros _. split_and!; [done|done|]. intros Hfl. rewrite Hse. by apply Herr.
Qed.

(** The caller moves on, and logs what closing logs next. *)
Lemma opening_main_ok id y m s ch res l :
  opening_ok id y -> s_id s = s_id (y_stream y) -> s_sendEOS s = s_sendEOS (y_stream y) ->
  s_log s = s_log (y_stream y) ++ l ->
  let y' := mkOpening s (y_sent y) ch m res in
  s_closed s = o_closed m (failed y') -> outcome_ok y' ->
  (y_ch y = None -> ch = None) -> (failed y' = false -> s_err s = s_err (y_stream y) /\ failed y = false) ->
  (forall e, exists e', opening_log id m (failed y') e' = opening_log id (y_m y) (failed y) e ++ l /\
     (m = OEnd -> failed y' = true -> e' <> None)) ->
  (ch = Some None \/ res = Some None -> y_ch y = Some None \/ y_result y = Some None) ->
  opening_ok id y'.
Proof.
  intros [[Hi He] Hcl Ho Hn (sents & e & Hl & Hs & Hlen & H0 & Hf & Hend)] Qi Qe Ql y' Hcl' Ho' Hch' Herr' Hlog' Hfst'.
  subst y'. cbn in Herr', Hlog'. split; cbn.
  - by rewrite Qi, Qe.
  - done.
  - done.
  - intros Hns. destruct (Hn Hns) as [Hch Herr]. split; [by apply Hch'|]. intros Hfl. destruct (Herr' Hfl) as [-> Hfl']. by apply Herr.
  - destruct (Hlog' e) as (e' & Hlg & He'). exists sents, e'. split_and!; try done.
    + rewrite Ql, Hl, <- app_assoc. by rewrite Hlg.
    + intros Hc. destruct (Hf (Hfst' Hc)) as (H1 & H2 & H3). split_and!; [done|done|].
      cbn. intros Hfl. destruct (Herr' Hfl) as [-> Hfl']. by apply H3.
Qed.

Lemma ystep_ok id y y' : opening_ok id y -> ystep y y' -> opening_ok id y'.
Proof.
  intros Hok Hst. pose proof Hok as [[Hi He] Hcl Ho Hn Hlog]. unfold outcome_ok in Ho.
  destruct Hst as [w s r Hns Hs|r Hm Hr|detail Hm|e Hm|s st Hm Hb|Hm|Hm|Hm].
  - by eapply opening_send_ok.
  - rewrite Hm in Hcl, Ho. eapply (opening_main_ok id y _ _ _ _ []); try done; rewrite ?app_nil_r; try done.
    + by destruct r.
    + by destruct r.
    + unfold failed. rewrite Ho. by destruct r.
    + intros e. exists e. rewrite Hm. by destruct r.
    + rewrite Hr. intros [?|[= ->]]; [done|by left].
  - rewrite Hm in Hcl, Ho. eapply (opening_main_ok id y _ _ _ _ []); try done; rewrite ?app_nil_r; try done.
    + intros e. exists e. by rewrite Hm.
    + intros [?|?]; [by left|done].
  - rewrite Hm in Hcl, Ho. eapply (opening_main_ok id y _ _ _ _ []); try done; rewrite ?app_nil_r; try done.
    + unfold outcome_ok, failed. cbn. by rewrite Ho.
    + unfold failed. cbn. by rewrite Ho.
    + intros e'. exists e'. by rewrite Hm.
  - rewrite Hm in Hcl, Ho. unfold close_begin in Hb. rewrite Hcl in Hb. injection Hb as <- <-.
    eapply (opening_main_ok id y _ _ _ _ []); try done; rewrite ?app_nil_r; try done.
    intros e'. exists e'. by rewrite Hm.
  - rewrite Hm in Hcl, Ho. assert (close_send q (y_stream y) = log (eos_of id) (y_stream y)) as -> by (unfold close_send, eos_of; by rewrite He, Hi).
    eapply (opening_main_ok id y _ _ _ _ [_]); try done.
    intros e'. exists e'. by rewrite Hm.
  - rewrite Hm in Hcl, Ho. eapply (opening_main_ok id y _ _ _ _ [_]); try done.
    intros e'. exists e'. by rewrite Hm.
  - rewrite Hm in Hcl, Ho. destruct Ho as [Hfl Herr]. eapply (opening_main_ok id y _ _ _ _ [_]); try done.
    + unfold failed in *. cbn in *. by rewrite Hfl.
    + unfold outcome_ok, failed in *. cbn. intros Hr. by rewrite Hr in Hfl.
    + intros e'. eexists. rewrite Hm. unfold failed in *. cbn. rewrite Hfl. cbn. split; [done|].
      intros _ _. by destruct (s_err (y_stream y)).
Qed.

(** How opening a stream ends. The caller gets the stream only when its first
    message was written, and then it is open and carries no error; otherwise the
    message was written at most once, and the end of the stream was written, the codec
    closed and the connection released with an error. *)
Theorem stream_opens id y :
  rtc ystep (stream_start id) y -> y_m y = OEnd ->
  exists r sents, y_result y = Some r /\ Forall is_sent sents /\
    match r with
    | None => length sents = 1 /\ s_log (y_stream y) = sents /\ s_closed (y_stream y) = false /\ s_err (y_stream y) = None
    | Some _ => length sents <= 1 /\ s_closed (y_stream y) = true /\
        exists e, s_log (y_stream y) = sents ++ [eos_of id; CodecClosed; Released (Some e)]
    end.
Proof.
  intros Hr Hm. remember (stream_start id) as y0 eqn:Hy0.
  assert (opening_ok id y0) as Hok by (subst; apply stream_start_ok). clear Hy0.
  induction Hr as [y|y1 y2 y3 Hst _ IH]; [|apply IH; [done|by eapply ystep_ok]].
  destruct Hok as [_ Hcl Ho _ (sents & e & Hl & Hs & Hlen & _ & Hf & Hend)].
  unfold outcome_ok in Ho. rewrite Hm in Ho, Hl, Hcl. destruct (y_result y) as [r|] eqn:Hres; [|done].
  exists r, sents. split; [done|]. split; [done|]. unfold failed in *. rewrite Hres in *. destruct r as [x|]; cbn in *.
  - split; [done|]. split; [done|]. destruct e as [e|]; [by exists e|by destruct Hend].
  - destruct Hf as (_ & H1 & H2); [by right|]. rewrite app_nil_r in Hl. split_and!; try done.
    apply H2. unfold failed. by rewrite Hres.
Qed.
End opening.

(** ** What the server will take a message for

    A message that carries a topic is an event to the server. *)
Lemma setupProtocol_topic h node_md h' k :
  client_setupProtocol h node_md = (h', k) -> h' !! HMessage = h !! HMessage.
Proof.
  unfold client_setupProtocol. destruct (negb _); [by intros [= <- _]|]. destruct (negb _); [by intros [= <- _]|].
  destruct (String.eqb _ _); [|destruct (String.eqb _ _)]; intros [= <- _]; try done; by rewrite lookup_insert_ne.
Qed.

Lemma prepare_topic codecs node_md h ctype d h' k d' :
  prepare codecs node_md h ctype d = inr (h', k, d') -> h' !! HMessage = h !! HMessage.
Proof.
  unfold prepare, client_codec. destruct (client_setupProtocol h node_md) as [h1 o] eqn:Hs.
  apply setupProtocol_topic in Hs. destruct o; [|destruct (newCodec _ _)]; by intros [= <- _ _].
Qed.

Lemma content_headers_topic ctype h : content_headers ctype h !! HMessage = h !! HMessage.
Proof. unfold content_headers. by rewrite !lookup_insert_ne. Qed.

Lemma outgoing_topic {M V S} `{CodecOps M V S} (c : Client.rpcCodec S) m :
  m_Header m = None -> default ∅ (m_Header (Client.outgoing m c)) !! HMessage = default ∅ (Client.req c) !! HMessage.
Proof.
  intros Hm. unfold Client.outgoing. rewrite Hm. cbn [default from_option]. rewrite map_union_empty.
  unfold Client.setHeaders. etrans; [apply (foldl_lookup_other Client.set_nonempty); keeps_header|done].
Qed.

(** The topic of the context. The messages of a call never carry the topic that the
    metadata of its context has, so the server does not take them for events; the
    messages of a stream carry it. *)
Theorem topic_on_the_wire {M V S} `{CodecOps M V S} codecs md node_md o ctype q id err t h k d (c : Client.rpcCodec S) :
  Client.req c = Some h ->
  let sent := default ∅ (m_Header (Client.outgoing (message q id err t) c)) in
  (call_prepare codecs md node_md o ctype = inr (h, k, d) -> sent !! HMessage = None) /\
  (stream_prepare codecs md node_md o ctype = inr (h, k, d) -> sent !! HMessage = default ∅ md !! HMessage).
Proof.
  intros Hc sent. assert (sent !! HMessage = h !! HMessage) as ->.
  { subst sent. rewrite outgoing_topic by done. by rewrite Hc. }
  split; intros Hp%prepare_topic; rewrite Hp; unfold call_headers, stream_headers; rewrite content_headers_topic.
  - by rewrite lookup_insert_ne, lookup_delete_eq.
  - destruct (0 <? StreamTimeout o)%Z; [|done]. by rewrite lookup_insert_ne.
Qed.

(** ** Publishing *)
Section publish.
(** [Write] of the codec of a kind, into an empty buffer. *)
Context {M V : Type} (write : codec_kind -> Message -> value M V -> error + string).

Record bmsg := mkBmsg { b_Header : gmap string string; b_Body : string }.

Definition publish_headers (md : option (gmap string string)) (ctype topic id : string) : gmap string string :=
  <[HID := id]> (<[HMessage := topic]> (<[HContentType := ctype]> (default ∅ md))).

Definition publish_body (k : codec_kind) (topic mtopic id : string) (payload : value M V) : rpc_error + string :=
  match payload with
  | VFrame d => inr d
  | _ =>
      let m := mkMessage (Some {[HID := id; HMessage := mtopic]}) "" topic "" "" "" "" TypeEvent in
      match write k m payload with
      | inl e => inl (Internal packageID (error_text e))
      | inr b => inr b
      end
  end.

(** What reaches the broker, how the call ends, and whether the broker is connected
    afterwards. [connect] and [publish] are the broker's answers. *)
Definition Publish (codecs : gmap string codec_kind) (md : option (gmap string string)) (mtopic ctype exchange id : string)
    (payload : value M V) (connect publish : option string) (connected : bool) :
    option (string * bmsg) * option rpc_error * bool :=
  let topic := if String.eqb exchange "" then mtopic else exchange in
  match newCodec codecs ctype with
  | None => (None, Some (unsupported ctype), connected)
  | Some k =>
      match publish_body k topic mtopic id payload with
      | inl e => (None, Some e, connected)
      | inr body =>
          let msg := (topic, mkBmsg (publish_headers md ctype mtopic id) body) in
          match connected, connect with
          | false, Some e => (None, Some (Internal packageID e), false)
          | _, _ => (Some msg, (fun e => Raw (ErrMsg e)) <$> publish, true)
          end
      end
  end.
End publish.

(** ** New options *)
Record ClientOptions := mkClientOptions { PoolSize : Z; PoolTTL : Z; Transport : string }.

#[export] Instance ClientOptions_eq_dec : EqDecision ClientOptions.
Proof. solve_decision. Defined.

(** The client's options and its pool, and the clients closed. *)
Definition client_Init {E} (o : map_order) (close : ConnPool.closer (E := E)) (f : ClientOptions -> ClientOptions)
    (opts : ClientOptions) (p : ConnPool.pool) : ClientOptions * ConnPool.pool * list ConnPool.poolConn * option E :=
  let opts' := f opts in
  if bool_decide (opts' = opts) then (opts', p, [], None)
  else
    match ConnPool.Close o close p with
    | (p, closed, Some e) => (opts', p, closed, Some e)
    | (_, closed, None) => (opts', ConnPool.NewPool [ConnPool.Size (PoolSize opts'); ConnPool.TTL (PoolTTL opts')], closed, None)
    end.

(** ** Examples and witnesses *)
#[local] Existing Instances text_marshalling text_marshalling_ok.

Definition say_hello : Request := mkRequest "greeter" "Say.Hello" "".
Definition no_timeouts : CallOptions := mkCallOptions 0 0 0 false.

(** A subscriber's context. *)
Definition event_md : option (gmap string string) := Some {[HMessage := "updates"]}.
Definition mucp_node : gmap string string := {["protocol" := "mucp"]}.

Definition prepared_ex : gmap string string :=
  match call_prepare ∅ event_md mucp_node no_timeouts "application/protobuf" with inr (h, _, _) => h | inl _ => ∅ end.

Lemma topic_on_the_wire_witness :
  default ∅ (m_Header (Client.outgoing (message say_hello "" "" TypeRequest)
    (Client.newRPCCodec (M := string) (V := unit) (S := protobufCodec) (Some prepared_ex) ""))) !! HMessage = None.
Proof.
  eapply (topic_on_the_wire (M := string) (V := unit) ∅ event_md mucp_node no_timeouts "application/protobuf" say_hello "" ""
    TypeRequest prepared_ex); [reflexivity|]. vm_compute. reflexivity.
Defined.

(** The request is sent and answered. *)
Definition answered_ex : exchange :=
  mkExchange
    (mkRpcStream None true false false ""
       [Sent (message say_hello "" "" TypeRequest); CodecClosed; Released None])
    GExit MEnd None (Some None).

Lemma answered_reachable : rtc (xstep say_hello) (call_start no_timeouts "") answered_ex.
Proof.
  eapply rtc_l; [apply (x_send _ _ None); reflexivity|]. eapply rtc_l; [apply x_begin; reflexivity|].
  eapply rtc_l; [apply (x_header _ _ (inr (message say_hello "" "" TypeResponse))); reflexivity|].
  eapply rtc_l; [eapply (x_body _ _ None); reflexivity|]. eapply rtc_l; [eapply x_answer; reflexivity|].
  eapply rtc_l; [eapply x_close; reflexivity|]. eapply rtc_l; [apply x_eos; reflexivity|].
  eapply rtc_l; [apply x_codec; reflexivity|]. eapply rtc_l; [apply x_release; reflexivity|]. apply rtc_refl.
Qed.

Lemma call_ends_witness :
  exists r sents e, k_result answered_ex = Some r /\
    s_log (k_stream answered_ex) = sents ++ [CodecClosed; Released e] /\ Forall is_sent sents /\ length sents <= 1 /\
    match r with
    | None => length sents = 1 /\ e = None
    | Some (StreamErr _) => e <> None
    | Some (Recovered _) => clean (k_stream answered_ex) /\ e = released_with no_timeouts (k_stream answered_ex)
    end.
Proof. apply (call_ends say_hello no_timeouts "" answered_ex answered_reachable eq_refl). Defined.

Definition conn_ex : ConnPool.poolConn := ConnPool.mkConn 5 "u1" "h:1".
Definition empty_pool : ConnPool.pool := ConnPool.NewPool [ConnPool.Size 1; ConnPool.TTL 100].

Lemma call_returns_idle_witness :
  conn_ex ∈ ConnPool.conns_at (pool_after (fun _ => None) empty_pool conn_ex (s_log (k_stream answered_ex))) "h:1" /\
  k_g answered_ex = GExit /\ k_m answered_ex = MEnd /\ ConnClose no_timeouts = false /\
  (k_result answered_ex = Some None \/ exists d, k_result answered_ex = Some (Some (Recovered d))).
Proof.
  assert (conn_ex ∈ ConnPool.conns_at (pool_after (fun _ => None) empty_pool conn_ex (s_log (k_stream answered_ex))) "h:1") as Hin
    by (apply elem_of_cons; by left).
  split; [exact Hin|]. eapply (call_returns_idle say_hello no_timeouts "" answered_ex _ empty_pool conn_ex answered_reachable).
  - apply not_elem_of_nil.
  - exact Hin.
Defined.

(** A panic while the answer is read leaves the stream without an error: the connection
    goes back to the pool with the rest of the answer still to come. *)
Example panic_returns_connection :
  exists x, rtc (xstep say_hello) (call_start no_timeouts "") x /\
    k_result x = Some (Some (Recovered "index out of range")) /\
    conn_ex ∈ ConnPool.conns_at (pool_after (fun _ => None) empty_pool conn_ex (s_log (k_stream x))) "h:1".
Proof.
  eexists. split; [|split].
  - eapply rtc_l; [apply (x_send _ _ None); reflexivity|]. eapply rtc_l; [apply x_begin; reflexivity|].
    eapply rtc_l; [apply (x_panic _ _ "index out of range"); discriminate|].
    eapply rtc_l; [eapply x_answer; reflexivity|]. eapply rtc_l; [eapply x_close; reflexivity|].
    eapply rtc_l; [apply x_eos; reflexivity|]. eapply rtc_l; [apply x_codec; reflexivity|].
    eapply rtc_l; [apply x_release; reflexivity|]. apply rtc_refl.
  - reflexivity.
  - apply elem_of_cons. by left.
Qed.

Definition opened_ex : opening :=
  mkOpening (mkRpcStream None false false true "7" [Sent (message say_hello "7" "" TypeRequest)]) true None OEnd (Some None).

Lemma opened_reachable : rtc (ystep say_hello) (stream_start "7") opened_ex.
Proof.
  eapply rtc_l; [eapply (y_send _ _ None); reflexivity|]. eapply rtc_l; [eapply y_answer; reflexivity|]. apply rtc_refl.
Qed.

Lemma stream_opens_witness :
  exists r sents, y_result opened_ex = Some r /\ Forall is_sent sents /\
    match r with
    | None => length sents = 1 /\ s_log (y_stream opened_ex) = sents /\ s_closed (y_stream opened_ex) = false /\
        s_err (y_stream opened_ex) = None
    | Some _ => length sents <= 1 /\ s_closed (y_stream opened_ex) = true /\
        exists e, s_log (y_stream opened_ex) = sents ++ [eos_of say_hello "7"; CodecClosed; Released (Some e)]
    end.
Proof. apply (stream_opens say_hello "7" opened_ex opened_reachable eq_refl). Defined.

(** A message published to an exchange: the topic is only in its headers. *)
Example publish_exchange :
  Publish (M := string) (V := unit) (fun _ _ _ => inr "{}") ∅ None "updates" "application/json" "audit" "id-1" (VProto "hi")
    None None false =
  (Some ("audit", mkBmsg {[HContentType := "application/json"; HMessage := "updates"; HID := "id-1"]} "{}"), None, true).
Proof. vm_compute. reflexivity. Qed.
