(* ===== verification/Qson.v ===== *)
(** * Query strings as json: [util/qson/qson.go], [util/qson/merge.go]

    A parameter becomes a tree of maps and arrays, and the trees of all parameters are
    merged. [encoding/json] is an argument: what it makes of a value. Maps are
    association lists in which a key occurs once; their order means nothing. *)
From S2P Require Import Prelude GoStrings.

(** ** Json values *)

(** [Atom] is a number, a boolean or null. *)
Inductive json := Atom (s : string) | Str (s : string) | Arr (l : list json) | Obj (m : list (string * json)).

Definition null : json := Atom "null".

Fixpoint assoc {A} (k : string) (m : list (string * A)) : option A :=
  match m with
  | [] => None
  | (k', v) :: m => if String.eqb k k' then Some v else assoc k m
  end.

Fixpoint assoc_set {A} (k : string) (v : A) (m : list (string * A)) : list (string * A) :=
  match m with
  | [] => [(k, v)]
  | (k', v') :: m => if String.eqb k k' then (k, v) :: m else (k', v') :: assoc_set k v m
  end.

Lemma assoc_set_lookup {A} k v (m : list (string * A)) k' :
  assoc k' (assoc_set k v m) = if String.eqb k' k then Some v else assoc k' m.
Proof.
  induction m as [|[k0 v0] m IH]; cbn; [done|]. destruct (String.eqb_spec k k0) as [->|Hk]; cbn.
  - by destruct (String.eqb k' k0).
  - rewrite IH. destruct (String.eqb_spec k' k0) as [->|]; [|done]. by destruct (String.eqb_spec k0 k) as [->|].
Qed.

Lemma assoc_None {A} k (m : list (string * A)) : k ∉ map fst m <-> assoc k m = None.
Proof.
  induction m as [|[k0 v0] m IH]; cbn; [split; [done|intros _; apply not_elem_of_nil]|].
  rewrite not_elem_of_cons, IH. destruct (String.eqb_spec k k0) as [->|Hk]; split; try done; [by intros [? _]|by intros [_ ?]].
Qed.

(** ** Merging: [merge.go]

    A type assertion that fails panics: [None]. *)
Fixpoint merge (a b : json) {struct b} : option json :=
  match a with
  | Obj aT =>
      match b with
      | Obj bT =>
          (fix mergeMap (bT : list (string * json)) (aT : list (string * json)) : option json :=
             match bT with
             | [] => Some (Obj aT)
             | (bK, bV) :: bT =>
                 match assoc bK aT with
                 | Some aV =>
                     match merge aV bV with
                     | Some v => mergeMap bT (assoc_set bK v aT)
                     | None => None
                     end
                 | None => mergeMap bT (assoc_set bK bV aT)
                 end
             end) bT aT
      | _ => None
      end
  | Arr la => match b with Arr lb => Some (Arr (la ++ lb)) | _ => None end
  | Atom _ | Str _ => Some b
  end.

Fixpoint mergeMap (bT : list (string * json)) (aT : list (string * json)) : option json :=
  match bT with
  | [] => Some (Obj aT)
  | (bK, bV) :: bT =>
      match assoc bK aT with
      | Some aV =>
          match merge aV bV with
          | Some v => mergeMap bT (assoc_set bK v aT)
          | None => None
          end
      | None => mergeMap bT (assoc_set bK bV aT)
      end
  end.

Lemma merge_Obj aT bT : merge (Obj aT) (Obj bT) = mergeMap bT aT.
Proof. reflexivity. Qed.

(** ** Unescaping: [net/url.QueryUnescape]

    A percent sign must be followed by two hexadecimal digits; a plus sign is a space. *)
Definition unhex (c : ascii) : option N :=
  let n := N_of_ascii c in
  if ((48 <=? n) && (n <=? 57))%N then Some (n - 48)%N
  else if ((97 <=? n) && (n <=? 102))%N then Some (n - 87)%N
  else if ((65 <=? n) && (n <=? 70))%N then Some (n - 55)%N
  else None.

Fixpoint QueryUnescape (s : string) : option string :=
  match s with
  | "" => Some ""
  | String "%" s' =>
      match s' with
      | String h (String l r) =>
          match unhex h, unhex l with
          | Some a, Some b => String (ascii_of_N (16 * a + b)) <$> QueryUnescape r
          | _, _ => None
          end
      | _ => None
      end
  | String "+" r => String " " <$> QueryUnescape r
  | String c r => String c <$> QueryUnescape r
  end.

(** ** One parameter *)
Definition is_bracket (c : ascii) : bool := Ascii.eqb c "[" || Ascii.eqb c "]".

(** [bracketSplitter.Split(s, -1)]. *)
Fixpoint split_brackets (s : string) : list string :=
  match s with
  | "" => [""]
  | String c s =>
      if is_bracket c then "" :: split_brackets s
      else match split_brackets s with
           | [] => [String c ""]
           | p :: ps => String c p :: ps
           end
  end.

(** At the last equals sign. *)
Definition splitKeyAndValue (param : string) : option (string * string) :=
  match last_index "=" param with
  | None => None
  | Some li => Some (str_take li param, str_drop (S li) param)
  end.

(** [s[n:]], which panics past the end. *)
Definition slice_from (n : nat) (s : string) : option string :=
  if n <=? String.length s then Some (str_drop n s) else None.

Definition buildNewKey (origKey : string) : option string :=
  match split_brackets origKey with
  | p0 :: p1 :: _ =>
      ret ← slice_from (String.length p0 + 1) origKey;
      rest ← slice_from (String.length p1 + 1) ret;
      Some (str_take (String.length p1) ret +:+ rest)
  | _ => None
  end.

Inductive qson_error := ErrInvalidParam | EscapeError | JsonError | OutOfFuel.

Section parse.
(** [json.Unmarshal] into an interface; [None] is an error. *)
Context (Unmarshal : string -> option json).

Definition quote (s : string) : string := String (ascii_of_nat 34) (s +:+ String (ascii_of_nat 34) "").

Definition leaf (rawValue : string) : option json :=
  match Unmarshal rawValue with Some v => Some v | None => Unmarshal (quote rawValue) end.

Fixpoint queryToMap_fuel (fuel : nat) (param : string) : outcome qson_error json :=
  match splitKeyAndValue param with
  | None => Fail ErrInvalidParam
  | Some (rawKey, rawValue) =>
      match QueryUnescape rawValue with
      | None => Fail EscapeError
      | Some rawValue =>
          match QueryUnescape rawKey with
          | None => Fail EscapeError
          | Some rawKey =>
              match split_brackets rawKey with
              | [] => Panic
              | [key] => match leaf rawValue with Some v => Ret (Obj [(key, v)]) | None => Fail JsonError end
              | key :: p1 :: _ =>
                  match buildNewKey rawKey, fuel with
                  | None, _ => Panic
                  | Some _, O => Fail OutOfFuel
                  | Some newKey, S fuel =>
                      r <-! queryToMap_fuel fuel (newKey +:+ "=" +:+ rawValue);
                      if String.eqb p1 "" then
                        match r with
                        | Obj temp => Ret (Obj [(key, Arr [default null (assoc "" temp)])])
                        | _ => Panic
                        end
                      else Ret (Obj [(key, r)])
                  end
              end
          end
      end
  end.

Definition queryToMap (param : string) : outcome qson_error json := queryToMap_fuel (String.length param) param.

(** ** All parameters *)
Definition merge_param (acc : outcome qson_error json) (part : string) : outcome qson_error json :=
  builder <-! acc;
  tempMap <-! queryToMap part;
  match merge builder tempMap with Some b => Ret b | None => Panic end.

(** [ToJSON] before the result is printed. *)
Definition ToJSON (query : string) : outcome qson_error json :=
  foldl merge_param (Ret (Obj [])) (split_char "&" query).
End parse.

(** ** Lengths, and the fuel *)
Lemma length_str_take n s : n <= String.length s -> String.length (str_take n s) = n.
Proof. revert n. induction s as [|a s IH]; intros [|n] Hn; cbn in *; [done|lia|done|]. by rewrite IH by lia. Qed.

Lemma unescape_length_n n s t : String.length s <= n -> QueryUnescape s = Some t -> String.length t <= String.length s.
Proof.
  revert s t. induction n as [|n IH]; intros [|a s] t Hn; cbn in Hn; try lia; try by intros [= <-].
  assert (forall b (t : string), String b <$> QueryUnescape s = Some t -> String.length t <= S (String.length s)) as Hone.
  { intros b t' Hb. destruct (QueryUnescape s) as [u|] eqn:Hu; [|done]. injection Hb as <-. cbn. apply IH in Hu; lia. }
  cbn. destruct a as [[] [] [] [] [] [] [] []]; try apply Hone.
  destruct s as [|h [|l r]]; try done. destruct (unhex h), (unhex l); try done.
  intros Hr. destruct (QueryUnescape r) as [u|] eqn:Hu; [|done]. injection Hr as <-.
  cbn in *. apply IH in Hu; lia.
Qed.

Lemma unescape_length s t : QueryUnescape s = Some t -> String.length t <= String.length s.
Proof. by eapply unescape_length_n. Qed.

Lemma splitKeyAndValue_length param k v :
  splitKeyAndValue param = Some (k, v) -> String.length k + 1 + String.length v = String.length param.
Proof.
  unfold splitKeyAndValue. destruct (last_index "=" param) as [li|] eqn:Hl; [|done]. intros Hkv.
  assert (k = str_take li param /\ v = str_drop (S li) param) as [-> ->] by (split; congruence). clear Hkv.
  apply last_index_some in Hl as (t & Ht & _ & -> & Hli). rewrite Ht at 2. rewrite str_length_app. cbn. lia.
Qed.

Lemma buildNewKey_length k k' : buildNewKey k = Some k' -> String.length k' + 2 <= String.length k.
Proof.
  unfold buildNewKey, slice_from. destruct (split_brackets k) as [|p0 [|p1 ps]]; [done..|].
  destruct (Nat.leb_spec (String.length p0 + 1) (String.length k)) as [H0|]; [|done]. cbn.
  destruct (Nat.leb_spec (String.length p1 + 1) (String.length (str_drop (String.length p0 + 1) k))) as [H1|]; [|done].
  cbn. intros [= <-]. rewrite str_length_drop in H1. rewrite str_length_app, !str_length_drop, length_str_take; [lia|].
  rewrite str_length_drop. lia.
Qed.

Section fuel.
Context (Unmarshal : string -> option json).

(** Enough fuel, and then any amount does. *)
Lemma fuel_enough n m param :
  String.length param <= n -> String.length param <= m ->
  queryToMap_fuel Unmarshal n param = queryToMap_fuel Unmarshal m param /\
  queryToMap_fuel Unmarshal n param <> Fail OutOfFuel.
Proof.
  revert m param. induction n as [|n IH]; intros m param Hn Hm.
  { destruct param; [|cbn in Hn; lia]. by destruct m. }
  destruct m as [|m]; [destruct param; [done|cbn in Hm; lia]|]. cbn.
  destruct (splitKeyAndValue param) as [[k v]|] eqn:Hs; [|done]. apply splitKeyAndValue_length in Hs.
  destruct (QueryUnescape v) as [v'|] eqn:Hv; [|done]. apply unescape_length in Hv.
  destruct (QueryUnescape k) as [k'|] eqn:Hk; [|done]. apply unescape_length in Hk.
  destruct (split_brackets k') as [|key [|p1 ps]]; [done|by destruct (leaf _ _)|].
  destruct (buildNewKey k') as [nk|] eqn:Hb; [|done]. apply buildNewKey_length in Hb.
  destruct (IH m (nk +:+ "=" +:+ v')) as [Heq Hne]; [rewrite !str_length_app; cbn; lia..|].
  cbn [String.append] in Heq, Hne. rewrite Heq in *. split; [done|].
  destruct (queryToMap_fuel _ m _) as [r|e|]; [|done..]. cbn. destruct (String.eqb p1 ""); [|done]. by destruct r.
Qed.

(** Reading a parameter ends. Each level of brackets makes the parameter shorter,
    so that a budget of its length is never used up, and a larger one changes nothing. *)
Theorem queryToMap_total n param :
  String.length param <= n ->
  queryToMap_fuel Unmarshal n param = queryToMap Unmarshal param /\ queryToMap Unmarshal param <> Fail OutOfFuel.
Proof.
  intros Hn. unfold queryToMap. destruct (fuel_enough n (String.length param) param) as [<- H2]; [done|done|]. done.
Qed.
End fuel.

(** ** Keys and brackets *)

(** Characters that unescaping leaves alone. *)
Definition unescaped (c : ascii) : bool := negb (Ascii.eqb c "%") && negb (Ascii.eqb c "+").

Lemma QueryUnescape_id s : str_forall unescaped s = true -> QueryUnescape s = Some s.
Proof.
  induction s as [|c s IH]; [done|]. cbn [str_forall]. intros [Hc Hs]%andb_true_iff.
  specialize (IH Hs). unfold unescaped in Hc. cbn [QueryUnescape].
  destruct c as [[] [] [] [] [] [] [] []]; cbn in Hc; try done; by rewrite IH.
Qed.

Definition no_bracket (s : string) : bool := str_forall (fun c => negb (is_bracket c)) s.

Lemma split_brackets_nonnil s : split_brackets s <> [].
Proof. destruct s as [|c s]; cbn; [done|]. destruct (is_bracket c); [done|]. by destruct (split_brackets s). Qed.

Lemma split_brackets_free s : no_bracket s = true -> split_brackets s = [s].
Proof.
  unfold no_bracket. induction s as [|c s IH]; [done|]. cbn. intros [Hc Hs]%andb_true_iff.
  destruct (is_bracket c); [done|]. by rewrite IH.
Qed.

Lemma split_brackets_app p c r :
  no_bracket p = true -> is_bracket c = true -> split_brackets (p +:+ String c r) = p :: split_brackets r.
Proof.
  unfold no_bracket. intros Hp Hc. induction p as [|a p IH]; cbn in *; [by rewrite Hc|].
  apply andb_true_iff in Hp as [Ha Hp]. destruct (is_bracket a); [done|]. by rewrite IH.
Qed.

(** A string has no bracket, or its first bracket follows a part without. *)
Lemma bracket_cases s :
  no_bracket s = true \/ exists p c r, s = p +:+ String c r /\ no_bracket p = true /\ is_bracket c = true.
Proof.
  unfold no_bracket. induction s as [|a s IH]; [by left|]. cbn. destruct (is_bracket a) eqn:Ha.
  - right. by exists "", a, s.
  - destruct IH as [->|(p & c & r & -> & Hp & Hc)]; [by left|]. right. exists (String a p), c, r. cbn. by rewrite Ha.
Qed.

Lemma buildNewKey_app p0 c0 p1 c1 r :
  no_bracket p0 = true -> is_bracket c0 = true -> no_bracket p1 = true -> is_bracket c1 = true ->
  buildNewKey (p0 +:+ String c0 (p1 +:+ String c1 r)) = Some (p1 +:+ r).
Proof.
  intros H0 Hc0 H1 Hc1. unfold buildNewKey, slice_from. rewrite !split_brackets_app by done.
  assert (forall p c s, str_drop (String.length p + 1) (p +:+ String c s) = s) as Hd.
  { intros p c s. clear. induction p as [|a p IH]; [done|]. cbn. apply IH. }
  destruct (Nat.leb_spec (String.length p0 + 1) (String.length (p0 +:+ String c0 (p1 +:+ String c1 r)))) as [_|Hl];
    [|rewrite str_length_app in Hl; cbn in Hl; lia].
  cbn [mbind option_bind]. rewrite Hd.
  destruct (Nat.leb_spec (String.length p1 + 1) (String.length (p1 +:+ String c1 r))) as [_|Hl];
    [|rewrite str_length_app in Hl; cbn in Hl; lia].
  cbn [mbind option_bind]. by rewrite Hd, str_take_app.
Qed.

Lemma buildNewKey_one p c r : no_bracket p = true -> is_bracket c = true -> no_bracket r = true ->
  buildNewKey (p +:+ String c r) = None.
Proof.
  intros Hp Hc Hr. unfold buildNewKey, slice_from. rewrite split_brackets_app, (split_brackets_free r) by done.
  destruct (Nat.leb_spec (String.length p + 1) (String.length (p +:+ String c r))); [|done]. cbn [mbind option_bind].
  assert (str_drop (String.length p + 1) (p +:+ String c r) = r) as ->.
  { clear. induction p as [|a p IH]; [done|]. cbn. apply IH. }
  destruct (Nat.leb_spec (String.length r + 1) (String.length r)); [lia|done].
Qed.

Lemma splitKeyAndValue_app k v : str_has "=" v = false -> splitKeyAndValue (k +:+ "=" +:+ v) = Some (k, v).
Proof.
  intros Hv. unfold splitKeyAndValue. cbn [String.append]. rewrite last_index_app by done.
  rewrite str_take_app. repeat f_equal. clear. induction k as [|a k IH]; [done|]. cbn. apply IH.
Qed.

Section keys.
Context (Unmarshal : string -> option json).

(** A value that is read as it stands. *)
Definition plain_value (v : string) (x : json) : Prop :=
  str_has "=" v = false /\ str_forall unescaped v = true /\ leaf Unmarshal v = Some x.

(** One step of [queryToMap] on such a value. *)
Lemma queryToMap_step n k v x :
  plain_value v x -> str_forall unescaped k = true ->
  queryToMap_fuel Unmarshal (S n) (k +:+ "=" +:+ v) =
  match split_brackets k with
  | [] => Panic
  | [key] => Ret (Obj [(key, x)])
  | key :: p1 :: _ =>
      match buildNewKey k with
      | None => Panic
      | Some newKey =>
          r <-! queryToMap_fuel Unmarshal n (newKey +:+ "=" +:+ v);
          if String.eqb p1 "" then
            match r with Obj temp => Ret (Obj [(key, Arr [default null (assoc "" temp)])]) | _ => Panic end
          else Ret (Obj [(key, r)])
      end
  end.
Proof.
  intros (He & Hu & Hx) Hk. cbn [queryToMap_fuel]. rewrite splitKeyAndValue_app by done.
  rewrite (QueryUnescape_id v), (QueryUnescape_id k), Hx by done. done.
Qed.

(** How a path is written, and the tree it stands for. *)
Definition brackets (ks : list string) : string := foldr (fun k s => "[" +:+ k +:+ "]" +:+ s) "" ks.

Fixpoint tree (ks : list string) (x : json) : json :=
  match ks with
  | [] => x
  | k :: ks => Obj [(k, tree ks x)]
  end.

Definition plain_key (k : string) : Prop := no_bracket k = true /\ str_forall unescaped k = true.

Lemma brackets_unescaped ks : Forall plain_key ks -> str_forall unescaped (brackets ks) = true.
Proof.
  induction 1 as [|k ks [_ Hk] _ IH]; [done|]. cbn [brackets foldr]. fold (brackets ks).
  rewrite !str_forall_app, Hk, IH. done.
Qed.

Lemma path_fuel n k ks v x :
  plain_value v x -> plain_key k -> Forall plain_key ks -> Forall (fun k => k <> "") ks -> length ks < n ->
  queryToMap_fuel Unmarshal n ((k +:+ brackets ks) +:+ "=" +:+ v) = Ret (tree (k :: ks) x).
Proof.
  intros Hv Hk Hks Hne Hn. revert k n Hk Hn. induction ks as [|k1 ks IH]; intros k n Hk Hn; (destruct n as [|n]; [lia|]);
    rewrite (queryToMap_step n _ v x); try done.
  - cbn. rewrite str_app_nil_r, split_brackets_free by apply Hk. done.
  - cbn. rewrite str_app_nil_r. apply Hk.
  - apply Forall_cons in Hks as [Hk1 Hks]. apply Forall_cons in Hne as [Hne1 Hne].
    cbn [brackets foldr String.append]. fold (brackets ks).
    rewrite split_brackets_app, split_brackets_app, buildNewKey_app; try done; try apply Hk; try apply Hk1.
    rewrite IH; [|done..|cbn in Hn; lia]. cbn [outcome_bind tree].
    by rewrite (proj2 (String.eqb_neq k1 "") Hne1).
  - rewrite str_forall_app, brackets_unescaped by done. destruct Hk as [_ ->]. done.
Qed.

Lemma brackets_length ks : length ks <= String.length (brackets ks).
Proof. induction ks as [|k ks IH]; [done|]. cbn [brackets foldr length]. fold (brackets ks). rewrite !str_length_app. cbn. lia. Qed.

(** Nested keys. [k0[k1]...[kn]=v], where the parts are not empty after the first
    and nothing in them needs escaping, becomes the value [v] under the path of its
    parts. *)
Theorem queryToMap_path k ks v x :
  plain_value v x -> plain_key k -> Forall plain_key ks -> Forall (fun k => k <> "") ks ->
  queryToMap Unmarshal ((k +:+ brackets ks) +:+ "=" +:+ v) = Ret (tree (k :: ks) x).
Proof.
  intros Hv Hk Hks Hne. unfold queryToMap. apply path_fuel; try done.
  rewrite !str_length_app. cbn. pose proof (brackets_length ks). lia.
Qed.

(** *** The number of brackets *)
Definition bracket_count (s : string) : nat := length (split_brackets s) - 1.

Lemma bracket_count_app p c r :
  no_bracket p = true -> is_bracket c = true -> bracket_count (p +:+ String c r) = S (bracket_count r).
Proof.
  intros Hp Hc. unfold bracket_count. rewrite split_brackets_app by done. cbn.
  pose proof (split_brackets_nonnil r). destruct (split_brackets r); [done|]. cbn. lia.
Qed.

Lemma bracket_count_prefix p r : no_bracket p = true -> bracket_count (p +:+ r) = bracket_count r.
Proof.
  intros Hp. destruct (bracket_cases r) as [Hr|(q & c & r' & -> & Hq & Hc)].
  - unfold bracket_count. rewrite !split_brackets_free; [done|done|]. unfold no_bracket in *. by rewrite str_forall_app, Hp.
  - rewrite <- str_app_assoc, !bracket_count_app; try done. unfold no_bracket in *. by rewrite str_forall_app, Hp.
Qed.

Lemma brackets_fuel n k v x :
  plain_value v x -> str_forall unescaped k = true -> bracket_count k <= n ->
  if Nat.odd (bracket_count k) then queryToMap_fuel Unmarshal (S n) (k +:+ "=" +:+ v) = Panic
  else exists m, queryToMap_fuel Unmarshal (S n) (k +:+ "=" +:+ v) = Ret (Obj m).
Proof.
  intros Hv. revert k. induction n as [n IH] using lt_wf_ind. intros k Hk Hn. rewrite (queryToMap_step n k v x) by done.
  destruct (bracket_cases k) as [Hb|(p0 & c0 & r & -> & Hp0 & Hc0)].
  { unfold bracket_count. rewrite split_brackets_free by done. cbn. by eexists. }
  destruct (bracket_cases r) as [Hb|(p1 & c1 & r' & -> & Hp1 & Hc1)].
  { rewrite bracket_count_app, split_brackets_app, buildNewKey_one by done. unfold bracket_count.
    by rewrite (split_brackets_free r) by done. }
  rewrite !bracket_count_app in * by done. rewrite !split_brackets_app, buildNewKey_app by done.
  change (Nat.odd (S (S (bracket_count r')))) with (Nat.odd (bracket_count r')).
  rewrite <- (bracket_count_prefix p1 r') in * by done.
  destruct n as [|[|n]]; [lia|lia|]. specialize (IH (S n) ltac:(lia) (p1 +:+ r')).
  assert (str_forall unescaped (p1 +:+ r') = true) as Hk'.
  { rewrite !str_forall_app in Hk |- *. cbn in Hk. rewrite str_forall_app in Hk. cbn in Hk.
    destruct (str_forall unescaped p1), (str_forall unescaped r'); try done; by rewrite ?andb_false_r in Hk. }
  specialize (IH Hk' ltac:(lia)). destruct (Nat.odd _); [by rewrite IH|]. destruct IH as [m ->]. cbn [outcome_bind].
  destruct (String.eqb p1 ""); by eexists.
Qed.

(** Unbalanced brackets take the handler down. When nothing needs escaping, a
    parameter whose key has an odd number of brackets panics, and one with an even
    number is read, whichever way the brackets face. *)
Theorem odd_brackets_panic k v x :
  plain_value v x -> str_forall unescaped k = true ->
  if Nat.odd (bracket_count k) then queryToMap Unmarshal (k +:+ "=" +:+ v) = Panic
  else exists m, queryToMap Unmarshal (k +:+ "=" +:+ v) = Ret (Obj m).
Proof.
  intros Hv Hk. unfold queryToMap. rewrite str_length_app. cbn [String.append String.length].
  rewrite Nat.add_succ_r. apply (brackets_fuel (String.length k + String.length v) k v x); [done|done|].
  enough (bracket_count k <= String.length k) by lia. unfold bracket_count. clear.
  induction k as [|c k IH]; cbn; [lia|]. destruct (is_bracket c); cbn; [lia|]. destruct (split_brackets k); cbn in *; lia.
Qed.
End keys.

(** ** What merging makes of two maps *)

(** Merging maps. The merge fails when some key of both has values that do not
    merge; otherwise every key has the value of the one that has it, or the merge of
    the two, and no other key appears. *)
Theorem merge_spec aT bT :
  NoDup (map fst bT) ->
  match merge (Obj aT) (Obj bT) with
  | None => exists k aV bV, assoc k aT = Some aV /\ assoc k bT = Some bV /\ merge aV bV = None
  | Some r => exists m, r = Obj m /\ forall k,
      assoc k m = match assoc k aT, assoc k bT with
                  | Some aV, Some bV => merge aV bV
                  | Some aV, None => Some aV
                  | None, o => o
                  end
  end.
Proof.
  rewrite merge_Obj. revert aT. induction bT as [|[bK bV] bT IH]; intros aT Hnd; cbn.
  { exists aT. split; [done|]. intros k. by destruct (assoc k aT). }
  cbn in Hnd. apply NoDup_cons in Hnd as [Hnk Hnd]. apply assoc_None in Hnk.
  assert (forall v, match mergeMap bT (assoc_set bK v aT) with
    | None => exists k aV bV', assoc k aT = Some aV /\ (if String.eqb k bK then Some bV else assoc k bT) = Some bV' /\ merge aV bV' = None
    | Some r => exists m, r = Obj m /\ forall k, assoc k m =
        if String.eqb k bK then Some v
        else match assoc k aT, assoc k bT with Some aV, Some bV => merge aV bV | Some aV, None => Some aV | None, o => o end
    end) as Hrest.
  { intros v. specialize (IH (assoc_set bK v aT) Hnd). destruct (mergeMap bT _) as [r|].
    - destruct IH as (m & -> & Hm). exists m. split; [done|]. intros k. rewrite Hm, assoc_set_lookup.
      destruct (String.eqb_spec k bK) as [->|]; [by rewrite Hnk|done].
    - destruct IH as (k & aV & bV' & Ha & Hb & Hf). rewrite assoc_set_lookup in Ha.
      destruct (String.eqb_spec k bK) as [->|Hk]; [congruence|]. exists k, aV, bV'.
      by rewrite (proj2 (String.eqb_neq k bK) Hk). }
  destruct (assoc bK aT) as [aV|] eqn:Ha.
  - destruct (merge aV bV) as [v|] eqn:Hv.
    + specialize (Hrest v). destruct (mergeMap bT _) as [r|]; [|exact Hrest].
      destruct Hrest as (m & -> & Hm). exists m. split; [done|]. intros k. rewrite Hm.
      destruct (String.eqb_spec k bK) as [->|]; [by rewrite Ha, Hv|done].
    + exists bK, aV, bV. by rewrite String.eqb_refl.
  - specialize (Hrest bV). destruct (mergeMap bT _) as [r|]; [|exact Hrest].
    destruct Hrest as (m & -> & Hm). exists m. split; [done|]. intros k. rewrite Hm.
    destruct (String.eqb_spec k bK) as [->|]; [by rewrite Ha|done].
Qed.

(** ** Examples and witnesses *)

(** Numbers without sign, quoted text without quotes, and the three names. *)
Definition Unmarshal_ex (s : string) : option json :=
  if existsb (String.eqb s) ["true"; "false"; "null"] then Some (Atom s)
  else
    match s with
    | "" => None
    | String c r =>
        if Ascii.eqb c (ascii_of_nat 34) then
          match last_index (ascii_of_nat 34) r with
          | Some i => if Nat.eqb (S i) (String.length r) then Some (Str (str_take i r)) else None
          | None => None
          end
        else if str_forall (fun a => (48 <=? nat_of_ascii a) && (nat_of_ascii a <=? 57)) s then Some (Atom s)
        else None
    end.

(** The cases of the tests. *)
Example qson_tests :
  ToJSON Unmarshal_ex "bar%5Bone%5D%5Btwo%5D=2&bar[one][red]=112" =
    Ret (Obj [("bar", Obj [("one", Obj [("two", Atom "2"); ("red", Atom "112")])])]) /\
  ToJSON Unmarshal_ex "cat[]=1&cat[]=34" = Ret (Obj [("cat", Arr [Atom "1"; Atom "34"])]) /\
  ToJSON Unmarshal_ex "cat=1&cat=2" = Ret (Obj [("cat", Atom "2")]) /\
  ToJSON Unmarshal_ex "a=xyz&b[d]=ben%26jerry" = Ret (Obj [("a", Str "xyz"); ("b", Obj [("d", Str "ben&jerry")])]) /\
  ToJSON Unmarshal_ex "filter=parent%3Dflow12345%26request%3Dreq12345&meta.limit=20" =
    Ret (Obj [("filter", Str "parent=flow12345&request=req12345"); ("meta.limit", Atom "20")]).
Proof. vm_compute. by split_and!. Qed.

(** Values under nested keys are unescaped once for every level: an escaped percent
    sign is an error, an escaped plus sign a space, and an escaped equals sign becomes
    part of the key. *)
Example unescaped_twice :
  ToJSON Unmarshal_ex "a=100%25" = Ret (Obj [("a", Str "100%")]) /\
  ToJSON Unmarshal_ex "a[b]=100%25" = Fail EscapeError /\
  ToJSON Unmarshal_ex "a=1%2B1" = Ret (Obj [("a", Str "1+1")]) /\
  ToJSON Unmarshal_ex "a[b]=1%2B1" = Ret (Obj [("a", Obj [("b", Str "1 1")])]) /\
  ToJSON Unmarshal_ex "a[b]=x%3Dy" = Ret (Obj [("a", Obj [("b=x", Str "y")])]).
Proof. vm_compute. by split_and!. Qed.

(** Requests that panic: an open bracket, and a key used in two ways. *)
Example queries_that_panic :
  ToJSON Unmarshal_ex "a[=1" = Panic /\ ToJSON Unmarshal_ex "a[b]=1&a=2" = Panic /\
  ToJSON Unmarshal_ex "a[]=1&a=2" = Panic /\ ToJSON Unmarshal_ex "a=1&a[b]=2" = Ret (Obj [("a", Obj [("b", Atom "2")])]).
Proof. vm_compute. by split_and!. Qed.

Lemma queryToMap_total_witness :
  queryToMap_fuel Unmarshal_ex 20 "a[b][c]=4" = queryToMap Unmarshal_ex "a[b][c]=4" /\
  queryToMap Unmarshal_ex "a[b][c]=4" <> Fail OutOfFuel.
Proof. apply (queryToMap_total Unmarshal_ex 20 "a[b][c]=4"). cbn. lia. Defined.

Lemma queryToMap_path_witness :
  queryToMap Unmarshal_ex "a[b][c]=4" = Ret (Obj [("a", Obj [("b", Obj [("c", Atom "4")])])]).
Proof.
  apply (queryToMap_path Unmarshal_ex "a" ["b"; "c"] "4" (Atom "4")); [by split_and!|by split|..]; by repeat constructor.
Defined.

Lemma odd_brackets_panic_witness : queryToMap Unmarshal_ex "a]b[c[=4" = Panic.
Proof. apply (odd_brackets_panic Unmarshal_ex "a]b[c[" "4" (Atom "4")); [by split_and!|reflexivity]. Defined.

Lemma merge_spec_witness :
  exists m, merge (Obj [("a", Atom "1"); ("b", Arr [Atom "1"])]) (Obj [("b", Arr [Atom "2"])]) = Some (Obj m) /\
    assoc "b" m = Some (Arr [Atom "1"; Atom "2"]) /\ assoc "a" m = Some (Atom "1").
Proof.
  pose proof (merge_spec [("a", Atom "1"); ("b", Arr [Atom "1"])] [("b", Arr [Atom "2"])] (NoDup_singleton _)) as Hm.
  destruct (merge _ _) as [r|]; [|exfalso; destruct Hm as (k & aV & bV & Ha & Hb & Hf); cbn in Hb;
    destruct (String.eqb_spec k "b") as [->|]; [|discriminate]; injection Ha as <-; injection Hb as <-; discriminate].
  destruct Hm as (m & -> & Hm). exists m. split; [reflexivity|]. rewrite !Hm. split; reflexivity.
Defined.
