(* ===== verification/ApiHandler.v ===== *)
(** * The rpc handler of the API: [api/handler/rpc/rpc.go], [api/handler/rpc/stream.go]

    How an HTTP request becomes the payload of a call: fields of the path, of the query
    string and the body are merged into one json object; which codec the call uses,
    which requests are streams, and how answers and errors are written. Printing json,
    merging json patches and reading bodies are arguments; printing a tree and reading
    it back is taken to give the tree. *)
From S2P Require Import Prelude GoStrings GoStrconv Metadata Qson.
From S2P Require Errors Registry ApiRouter.

(** ** The request *)

(** Headers are under their canonical names, as a server finds them; [r_Body] is what
    reading the body to its end gives. *)
Record http_request := mkHttpRequest {
  r_Method : string;
  r_Host : string;
  r_Header : gmap string (list string);
  r_RawQuery : string;
  r_Body : string + string;
  r_ctx : context;
}.

Definition first_value (vs : list string) : string := match vs with v :: _ => v | [] => "" end.

Definition header_get (k : string) (r : http_request) : string := default "" (first_value <$> r_Header r !! k).

Fixpoint str_contains (s p : string) : bool :=
  has_prefix s p || match s with "" => false | String _ s => str_contains s p end.

(** ** Fields *)

(** One entry of the context's metadata: the matches so far, where the body goes, and
    the metadata that is left. *)
Definition field_step (acc : gmap string json * string * gmap string string) (kv : string * string) :
    gmap string json * string * gmap string string :=
  let '(matches, bodydst, md) := acc in
  let k := to_lower kv.1 in
  if has_prefix k "x-api-field-" then
    (<[trim_prefix k "x-api-field-" := Str kv.2]> matches, bodydst, delete k md)
  else if String.eqb k "x-api-body" then (matches, kv.2, delete k md)
  else (matches, bodydst, md).

Definition path_fields (o : map_order) (md : gmap string string) : gmap string json * string * gmap string string :=
  foldl field_step (∅, "", md) (map_range o md).

Definition parts (k : string) : list string := split_char "." k.

(** The tree of maps around a value, below the first part of its key. *)
Fixpoint nested (ps : list string) (v : json) : json :=
  match ps with
  | [] => v
  | p :: ps => Obj [(p, nested ps v)]
  end.

Definition req_step (acc : option (list (string * json))) (kv : string * json) : option (list (string * json)) :=
  req ← acc;
  match parts kv.1 with
  | p0 :: p1 :: rest =>
      match assoc p0 req with
      | Some (Obj nm) => Some (assoc_set p0 (Obj (assoc_set p1 (nested rest kv.2) nm)) req)
      | Some _ => None
      | None => Some (assoc_set p0 (Obj [(p1, nested rest kv.2)]) req)
      end
  | _ => Some (assoc_set kv.1 kv.2 req)
  end.

(** [None]: a type assertion panics. *)
Definition build_req (l : list (string * json)) : option (list (string * json)) := foldl req_step (Some []) l.

(** ** The payload *)
Section payload.
Context (Unmarshal : string -> option json) (Marshal : json -> string).
(** The bytes that are returned, with an error or without. *)
Context (MergeMergePatches : string -> string -> string * option string).
(** A json body that is a map, or nil when it is null; what a body of bytes is printed
    as. *)
Context (Valid : string -> bool) (body_map : string -> string + option json) (bytes_value : string -> json).
(** The bodies of the rpc codecs, and a parsed form. *)
Context (jsonrpc_body protorpc_body : string + string -> string + string).
Context (ParseForm : http_request -> string + gmap string (list string)).

Definition qson_text (e : qson_error) : string :=
  match e with
  | ErrInvalidParam => "qson: invalid url query param provided"
  | EscapeError => "invalid URL escape"
  | JsonError => "invalid json"
  | OutOfFuel => ""
  end.

Definition query_fields (raw : string) : outcome string (list (string * json)) :=
  if String.eqb raw "" then Ret []
  else
    match ToJSON Unmarshal raw with
    | Fail e => Fail (qson_text e)
    | Panic => Panic
    | Ret (Obj m) => Ret m
    | Ret _ => Panic
    end.

(** Fields of the query replace fields of the path. *)
Definition all_fields (matches : gmap string json) (umd : list (string * json)) : gmap string json :=
  foldl (fun m kv => <[kv.1 := kv.2]> m) matches umd.

Definition body_tree (dst : string) (v : json) : json := nested (parts dst) v.

Definition of_sum (r : string + string) : outcome string string := match r with inl e => Fail e | inr b => Ret b end.

(** Where the body goes: merged with the fields, or under [bodydst]; as it is when that
    merge fails. A first merge that fails has replaced [out]. *)
Definition body_under (out bodybuf bodydst : string) : outcome string string :=
  match (if Valid bodybuf then body_map bodybuf else inr None) with
  | inl e => Fail e
  | inr jsonbody =>
      let v := match jsonbody with Some j => j | None => bytes_value bodybuf end in
      match MergeMergePatches out (Marshal (body_tree bodydst v)) with
      | (out, None) => Ret out
      | (_, Some _) => Ret bodybuf
      end
  end.

Definition body_payload (out body bodydst : string) : outcome string string :=
  let bodybuf := if String.eqb body "" then "{}" else body in
  if String.eqb bodydst "" || String.eqb bodydst "*" then
    match MergeMergePatches out bodybuf with
    | (out, None) => Ret out
    | (out, Some _) => body_under out bodybuf bodydst
    end
  else body_under out bodybuf bodydst.

Definition form_payload (form : gmap string (list string)) : string :=
  Marshal (Obj (map_to_list ((fun v => Str (join "," v)) <$> form))).

(** The payload, and the metadata that is left; the orders are those in which the
    metadata and the fields are visited. *)
Definition requestPayload (o o' : map_order) (md : gmap string string)
    (r : http_request) : outcome string string * gmap string string :=
  let myCt := header_get "Content-Type" r in
  if str_contains myCt "application/json-rpc" then (of_sum (jsonrpc_body (r_Body r)), md)
  else if str_contains myCt "application/proto-rpc" || str_contains myCt "application/octet-stream" then
    (of_sum (protorpc_body (r_Body r)), md)
  else if str_contains myCt "application/www-x-form-urlencoded" || str_contains myCt "application/x-www-form-urlencoded" then
    (match ParseForm r with inl e => Fail e | inr form => Ret (form_payload form) end, md)
  else
    let '(matches, bodydst, md') := path_fields o md in
    match query_fields (r_RawQuery r) with
    | Fail e => (Fail e, md)
    | Panic => (Panic, md)
    | Ret umd =>
        (match build_req (map_range o' (all_fields matches umd)) with
         | None => Panic
         | Some req =>
             let pathbuf := match req with [] => "{}" | _ => Marshal (Obj req) end in
             match MergeMergePatches "{}" pathbuf with
             | (_, Some e) => Fail e
             | (out, None) =>
                 if String.eqb (r_Method r) "GET" then
                   Ret (if String.eqb out "{}" && negb (str_contains myCt "application/json") then "" else out)
                 else if existsb (String.eqb (r_Method r)) ["PATCH"; "POST"; "PUT"; "DELETE"] then
                   match r_Body r with
                   | inl e => Fail e
                   | inr body => body_payload out body bodydst
                   end
                 else Ret ""
             end
         end, md')
    end.
End payload.

(** ** The call *)
Definition jsonCodecs : list string := ["application/grpc+json"; "application/json"; "application/json-rpc"].

Definition protoCodecs : list string :=
  ["application/grpc"; "application/grpc+proto"; "application/proto"; "application/protobuf"; "application/proto-rpc";
   "application/octet-stream"].

Definition hasCodec (ct : string) (codecs : list string) : bool := existsb (String.eqb ct) codecs.

(** Without what follows a semicolon. *)
Definition strip_params (ct : string) : string :=
  match index_where (fun a => Ascii.eqb a ";") ct with Some i => str_take i ct | None => ct end.

(** The content type of the call, and whether its messages are raw proto or raw json. *)
Definition call_codec (r : http_request) : string * bool :=
  let ct := strip_params (header_get "Content-Type" r) in
  if hasCodec ct protoCodecs then (ct, true)
  else (if hasCodec ct jsonCodecs then ct else "application/json", false).

Definition header_has (key val : string) (r : http_request) : bool :=
  existsb (fun v => String.eqb val (to_lower (ApiRouter.strip v))) (split_char "," (header_get key r)).

Definition isWebSocket (r : http_request) : bool := header_has "Connection" "upgrade" r && header_has "Upgrade" "websocket" r.

Definition isStream (r : http_request) (srv : ApiRouter.Route) : bool :=
  isWebSocket r &&
  existsb (fun service => existsb (fun ep =>
      String.eqb (Registry.e_Name ep) (ApiRouter.ep_Name (ApiRouter.rt_Endpoint srv)) &&
      String.eqb (default "" (Registry.e_Metadata ep !! "stream")) "true") (Registry.s_Endpoints service))
    (ApiRouter.rt_Versions srv).

(** What is sent when a stream is opened: the request of the stream is written by
    [Stream], and then once more. *)
Definition stream_first (payload myCt : string) : option (bool * string) :=
  if String.eqb payload "{}" then None
  else Some (String.eqb myCt "application/json" || String.eqb myCt "", payload).

Definition stream_opening (payload myCt : string) : list (option (bool * string)) :=
  let request := stream_first payload myCt in
  request :: match request with Some _ => [request] | None => [] end.

(** ** Answers *)

(** [http.ResponseWriter]: the headers set so far, the status and headers that went
    out, and the body. Headers set after the status was written stay behind. *)
Record writer := mkWriter { w_Header : gmap string string; w_sent : option (Z * gmap string string); w_Body : string }.

Definition new_writer : writer := mkWriter ∅ None "".

Definition Header_Set (k v : string) (w : writer) : writer := mkWriter (<[k := v]> (w_Header w)) (w_sent w) (w_Body w).

(** [None]: a code that does not have three digits panics. A code that is only
    informational does not end the headers. *)
Definition WriteHeader (code : Z) (w : writer) : option writer :=
  match w_sent w with
  | Some _ => Some w
  | None =>
      if (code <? 100)%Z || (999 <? code)%Z then None
      else if (code <? 200)%Z && negb (code =? 101)%Z then Some w
      else Some (mkWriter (w_Header w) (Some (code, w_Header w)) (w_Body w))
  end.

Definition Write (b : string) (w : writer) : option writer :=
  w ← WriteHeader 200 w; Some (mkWriter (w_Header w) (w_sent w) (w_Body w +:+ b)).

Definition grpc_trailers (status message : string) (w : writer) : writer :=
  Header_Set "grpc-message" message (Header_Set "grpc-status" status
    (Header_Set "Trailer" "grpc-message" (Header_Set "Trailer" "grpc-status" w))).

Definition packageID : string := "go.micro.api".

(** The error that is reported for one whose code is not known. *)
Definition reported (ce : Errors.Error) : Errors.Error :=
  if (Errors.Code ce =? 0)%Z
  then Errors.mkError packageID 500 ("error during request: " +:+ Errors.Detail ce) (Errors.StatusText 500)
  else ce.

Definition writeError `{Errors.JSON} (r : http_request) (err : string) (w : writer) : option writer :=
  let ce := reported (Errors.Parse err) in
  w ← WriteHeader (Errors.Code ce) w;
  let w := Header_Set "Content-Type" "application/json" w in
  let w := if str_contains (header_get "Content-Type" r) "application/grpc"
           then grpc_trailers "13" (Errors.Detail ce) w else w in
  Write (Errors.Error_Error ce) w.

Definition writeResponse (r : http_request) (rsp : string) (w : writer) : option writer :=
  let w := Header_Set "Content-Type" (header_get "Content-Type" r) w in
  let w := Header_Set "Content-Length" (fmt_N (N.of_nat (String.length rsp))) w in
  let w := if str_contains (header_get "Content-Type" r) "application/grpc" then grpc_trailers "0" "" w else w in
  w ← (if String.eqb rsp "" then WriteHeader 204 w else Some w);
  Write rsp w.

(** ** A request from end to end *)

(** [ctx.FromRequest] *)
Definition FromRequest (r : http_request) : context :=
  NewContext (mkContext None ∅) (Some (join "," <$> r_Header r)).

(** The metadata of the wrappers' context, the host, the method and the first value of
    every header. *)
Definition request_md (o : map_order) (r : http_request) : gmap string string :=
  (first_value <$> r_Header r) ∪
  <["Method" := r_Method r]> (<["Host" := r_Host r]> (default ∅ (FromContext o (r_ctx r)))).

Definition request_context (o o' o'' : map_order) (r : http_request) : context :=
  MergeContext o' o'' (Some (FromRequest r)) (Some (request_md o r)) true.

Definition with_ctx (ctx : context) (r : http_request) : http_request :=
  mkHttpRequest (r_Method r) (r_Host r) (r_Header r) (r_RawQuery r) (r_Body r) ctx.

(** [http.MaxBytesReader] *)
Definition limit_body (size : Z) (r : http_request) : http_request :=
  let body := match r_Body r with
              | inr b => if (size <? Z.of_nat (String.length b))%Z then inl "http: request body too large" else inr b
              | e => e
              end in
  mkHttpRequest (r_Method r) (r_Host r) (r_Header r) (r_RawQuery r) body (r_ctx r).

Definition DefaultMaxRecvSize : Z := 1024 * 1024 * 100.

Record call := mkCall {
  c_ctx : context;
  c_service : string;
  c_endpoint : string;
  c_ct : string;
  c_raw : bool;
  c_payload : string;
  c_versions : list Registry.Service;
}.

(** What a request comes to: an answer, a websocket that is served in a context, or a
    panic of the handler. *)
Inductive served :=
| Answered (w : writer)
| Upgraded (ctx : context)
| Crashed.

Definition answered (w : option writer) : served := match w with Some w => Answered w | None => Crashed end.

Section serve.
Context `{Errors.JSON}.
(** The text of a formatted error; the router, which may put fields into the request's
    context; the payload of the request; the client's call, which may leave the
    response unset; the orders in which maps are visited. *)
Context (Sprintf : string -> string).
Context (Router : option (http_request -> string + (ApiRouter.Route * http_request))).
Context (payload : http_request -> outcome string string).
Context (Call : call -> string + option string).
Context (o o' o'' : map_order).

Definition internal_error (text : string) : string :=
  Errors.error_string (Errors.InternalServerError packageID (Sprintf text)).

(** A response that was not set is [null] in json, and empty as proto. *)
Definition response_bytes (raw : bool) (rsp : option string) : string :=
  default (if raw then "" else "null") rsp.

Definition ServeHTTP (MaxRecvSize : Z) (r : http_request) : served :=
  let r := limit_body (if (0 <? MaxRecvSize)%Z then MaxRecvSize else DefaultMaxRecvSize) r in
  match Router with
  | None => answered (writeError r (internal_error "no route found") new_writer)
  | Some route =>
      match route r with
      | inl e => answered (writeError r (internal_error e) new_writer)
      | inr (service, r) =>
          let myContext := request_context o o' o'' r in
          let r := with_ctx myContext r in
          if isStream r service then Upgraded myContext
          else
            match payload r with
            | Panic => Crashed
            | Fail e => answered (writeError r e new_writer)
            | Ret br =>
                let '(ct, raw) := call_codec r in
                match Call (mkCall myContext (ApiRouter.rt_Service service)
                              (ApiRouter.ep_Name (ApiRouter.rt_Endpoint service)) ct raw br (ApiRouter.rt_Versions service)) with
                | inl e => answered (writeError r e new_writer)
                | inr rsp => answered (writeResponse r (response_bytes raw rsp) new_writer)
                end
            end
      end
  end.
End serve.

(** ** The metadata keeps the fields *)

(** Keys of the context's metadata are titles, which no lower-case key of a field is. *)
Definition titled (md : gmap string string) : Prop := forall k v, md !! k = Some v -> exists k0, k = Title k0.

Lemma to_title_not_lower a : is_lower (to_title a) = false.
Proof.
  destruct a as [[] [] [] [] [] [] [] []]; reflexivity.
Qed.

Lemma titled_no_lower md c k : titled md -> is_lower c = true -> md !! String c k = None.
Proof.
  intros Ht Hc. destruct (md !! String c k) as [v|] eqn:Hk; [|done]. exfalso. apply Ht in Hk as [[|a k0] Hk]; [done|].
  injection Hk as Ha _. pose proof (to_title_not_lower a) as Hl. unfold to_title in Ha. unfold to_title in Hl. congruence.
Qed.

Lemma FromContext_all_titled o ctx md : FromContext o ctx = Some md -> titled md.
Proof.
  unfold FromContext. destruct (ctx_md ctx) as [cmd|]; [|done]. intros [= <-].
  assert (titled (∅ : gmap string string)) as H0 by (intros k v Hk; by rewrite lookup_empty in Hk).
  revert H0. generalize (∅ : gmap string string). induction (map_range o _) as [|[k0 v0] l IH]; intros m Hm; [done|].
  apply IH. intros k v. cbn. destruct (decide (Title k0 = k)) as [<-|Hk]; [by exists k0|]. rewrite lookup_insert_ne by done. apply Hm.
Qed.

Lemma field_step_md matches dst md kv : titled md -> (field_step (matches, dst, md) kv).2 = md.
Proof.
  intros Ht. unfold field_step. destruct (has_prefix (to_lower kv.1) "x-api-field-") eqn:Hp.
  - apply has_prefix_spec in Hp as [t ->]. cbn. apply delete_id. by apply titled_no_lower.
  - destruct (String.eqb_spec (to_lower kv.1) "x-api-body") as [->|]; [|done]. cbn. apply delete_id. by apply titled_no_lower.
Qed.

(** The fields of the path stay in the metadata. Whatever the order in which the
    metadata of the request's context is visited, the entries that carry path fields
    and the place of the body are all still there when the request goes on. *)
Theorem fields_stay o o' ctx md : FromContext o ctx = Some md -> (path_fields o' md).2 = md.
Proof.
  intros Ht%FromContext_all_titled. unfold path_fields. generalize (map_range o' md). intros l.
  assert (forall matches dst, (foldl field_step (matches, dst, md) l).2 = md) as Hl; [|apply Hl].
  induction l as [|kv l IH]; intros matches dst; [done|]. cbn [foldl].
  pose proof (field_step_md matches dst md kv Ht) as Hmd. destruct (field_step _ kv) as [[m1 d1] md1]. cbn in Hmd. subst. apply IH.
Qed.

(** ** Where a field ends up *)
Fixpoint value_at (ps : list string) (j : json) : option json :=
  match ps with
  | [] => Some j
  | p :: ps => match j with Obj m => j ← assoc p m; value_at ps j | _ => None end
  end.

Lemma value_at_nested ps v : value_at ps (nested ps v) = Some v.
Proof. induction ps as [|p ps IH]; [done|]. cbn. by rewrite String.eqb_refl. Qed.

(** Two fields get on: neither is the first part of the other, nor do they share two
    parts. *)
Definition compatible (k k' : string) : Prop :=
  match parts k, parts k' with
  | p0 :: p1 :: _, q0 :: q1 :: _ => p0 <> q0 \/ p1 <> q1
  | p0 :: _, q0 :: _ => p0 <> q0
  | _, _ => True
  end.

(** Every field that was visited is at its place, and nothing else is there. *)
Definition placed (done : list (string * json)) (req : list (string * json)) : Prop :=
  (forall k v, (k, v) ∈ done ->
     match parts k with
     | p0 :: p1 :: rest => exists nm, assoc p0 req = Some (Obj nm) /\ assoc p1 nm = Some (nested rest v)
     | p0 :: _ => assoc p0 req = Some v
     | [] => False
     end) /\
  (forall p, is_Some (assoc p req) -> exists k v, (k, v) ∈ done /\ hd_error (parts k) = Some p).

Lemma parts_nonnil k : parts k <> [].
Proof. apply split_char_nonnil. Qed.

Lemma parts_one k p : parts k = [p] -> p = k.
Proof.
  intros Hp. assert (str_has "." k = false) as Hk.
  { destruct (str_has "." k) eqn:Hh; [|done]. apply split_char_many in Hh. unfold parts in Hp. rewrite Hp in Hh. cbn in Hh. lia. }
  unfold parts in Hp. rewrite split_char_id in Hp by done. by injection Hp as ->.
Qed.

Lemma place_one dn req k v :
  placed dn req -> (forall k' v', (k', v') ∈ dn -> compatible k' k) ->
  exists req', req_step (Some req) (k, v) = Some req' /\ placed (dn ++ [(k, v)]) req'.
Proof.
  intros [Hin Hout] Hc. unfold req_step. cbn [mbind option_bind fst snd].
  destruct (parts k) as [|p0 [|p1 rest]] eqn:Hk; [by apply parts_nonnil in Hk| |].
  - pose proof (parts_one k p0 Hk) as Hpk. subst k. eexists. split; [done|]. split.
    + intros k' v' [Hk'|Hk']%elem_of_app.
      * specialize (Hin _ _ Hk'). specialize (Hc _ _ Hk'). unfold compatible in Hc. rewrite Hk in Hc.
        destruct (parts k') as [|q0 [|q1 rest']]; [done| |].
        -- by rewrite assoc_set_lookup, (proj2 (String.eqb_neq q0 p0) Hc).
        -- rewrite assoc_set_lookup, (proj2 (String.eqb_neq q0 p0) Hc). done.
      * apply list_elem_of_singleton in Hk' as [= -> ->]. rewrite Hk. by rewrite assoc_set_lookup, String.eqb_refl.
    + intros p Hp. rewrite assoc_set_lookup in Hp. destruct (String.eqb_spec p p0) as [Hpp|Hpp].
      * exists p0, v. split; [apply elem_of_app; right; by apply list_elem_of_singleton|]. by rewrite Hk, Hpp.
      * destruct (Hout _ Hp) as (k' & v' & Hk' & Hh). exists k', v'. split; [apply elem_of_app; by left|done].
  - assert (forall nm, (assoc p0 req = Some (Obj nm) \/ assoc p0 req = None /\ nm = []) ->
      placed (dn ++ [(k, v)]) (assoc_set p0 (Obj (assoc_set p1 (nested rest v) nm)) req)) as Hset.
    { intros nm Hnm. split.
      - intros k' v' [Hk'|Hk']%elem_of_app.
        + specialize (Hin _ _ Hk'). specialize (Hc _ _ Hk'). unfold compatible in Hc. rewrite Hk in Hc.
          destruct (parts k') as [|q0 [|q1 rest']]; [done| |].
          * by rewrite assoc_set_lookup, (proj2 (String.eqb_neq q0 p0) Hc).
          * rewrite assoc_set_lookup. destruct (String.eqb_spec q0 p0) as [->|]; [|done].
            destruct Hin as (nm' & Hnm' & Hq). destruct Hnm as [Hnm|[Hnm _]]; [|congruence].
            assert (nm' = nm) as -> by congruence. eexists. split; [done|].
            rewrite assoc_set_lookup. destruct Hc as [?|Hq1]; [done|]. by rewrite (proj2 (String.eqb_neq q1 p1) Hq1).
        + apply list_elem_of_singleton in Hk' as [= -> ->]. rewrite Hk, assoc_set_lookup, String.eqb_refl.
          eexists. split; [done|]. by rewrite assoc_set_lookup, String.eqb_refl.
      - intros p Hp. rewrite assoc_set_lookup in Hp. destruct (String.eqb_spec p p0) as [Hpp|Hpp].
        + exists k, v. split; [apply elem_of_app; right; by apply list_elem_of_singleton|]. by rewrite Hk, Hpp.
        + destruct (Hout _ Hp) as (k' & v' & Hk' & Hh). exists k', v'. split; [apply elem_of_app; by left|done]. }
    destruct (assoc p0 req) as [j|] eqn:Hj.
    + destruct (Hout p0) as (k' & v' & Hk' & Hh); [by eexists|]. specialize (Hin _ _ Hk'). specialize (Hc _ _ Hk').
      unfold compatible in Hc. rewrite Hk in Hc. destruct (parts k') as [|q0 [|q1 rest']]; [done| |]; injection Hh as ->; [done|].
      destruct Hin as (nm & Hnm & _). assert (j = Obj nm) as -> by congruence. eexists. split; [done|]. apply Hset. by left.
    + eexists. split; [done|]. apply (Hset []). by right.
Qed.

Lemma build_placed dn l req :
  placed dn req -> (forall k v k' v' l1 l2, l = l1 ++ (k, v) :: l2 -> (k', v') ∈ dn ++ l1 -> compatible k' k) ->
  exists req', foldl req_step (Some req) l = Some req' /\ placed (dn ++ l) req'.
Proof.
  revert dn req. induction l as [|[k v] l IH]; intros dn req Hp Hc; [exists req; by rewrite app_nil_r|].
  destruct (place_one dn req k v Hp) as (req1 & H1 & Hp1).
  { intros k' v' Hk'. apply (Hc k v k' v' [] l); [done|by rewrite app_nil_r]. }
  destruct (IH _ _ Hp1) as (req' & H' & Hp').
  { intros k0 v0 k' v' l1 l2 -> Hin. apply (Hc k0 v0 k' v' ((k, v) :: l1) l2); [done|]. by rewrite <- app_assoc in Hin. }
  exists req'. cbn [foldl]. rewrite H1. split; [done|]. by rewrite <- app_assoc in Hp'.
Qed.

(** Dotted fields. When no field's name is the first part of another's and no two
    share their first two parts, building the request does not panic, whatever the
    order the fields are visited in, and it has the value of every field under the
    parts of its name. *)
Theorem build_req_places o (fields : gmap string json) :
  (forall k k', is_Some (fields !! k) -> is_Some (fields !! k') -> k <> k' -> compatible k k') ->
  exists req, build_req (map_range o fields) = Some req /\
    forall k v, fields !! k = Some v -> value_at (parts k) (Obj req) = Some v.
Proof.
  intros Hc. destruct (build_placed [] (map_range o fields) []) as (req & Hr & [Hin _]).
  { split; [intros k v Hk; by apply not_elem_of_nil in Hk|]. intros p [x Hx]. done. }
  { intros k v k' v' l1 l2 Hl Hk'. cbn in Hk'.
    assert (fields !! k = Some v) as Hk by (apply (elem_of_map_range o); rewrite Hl; apply elem_of_app; right; apply elem_of_cons; by left).
    assert (fields !! k' = Some v') as Hf by (apply (elem_of_map_range o); rewrite Hl; apply elem_of_app; by left).
    apply Hc; [by eexists..|]. intros ->. pose proof (NoDup_map_range o fields) as Hnd. rewrite Hl in Hnd.
    rewrite fmap_app in Hnd. apply NoDup_app in Hnd as (_ & Hnd & _). apply (Hnd k).
    - apply list_elem_of_fmap. by exists (k, v').
    - cbn. apply elem_of_cons. by left. }
  exists req. split; [done|]. intros k v Hk. cbn in Hin. apply (elem_of_map_range o) in Hk. specialize (Hin _ _ Hk).
  destruct (parts k) as [|p0 [|p1 rest]]; [done| |].
  - cbn. by rewrite Hin.
  - destruct Hin as (nm & Hnm & Hp). cbn. rewrite Hnm. cbn. rewrite Hp. cbn. apply value_at_nested.
Qed.

(** ** What goes out *)

Lemma Write_bare code b w :
  w_sent w = Some (code, ∅) -> exists w', Write b w = Some w' /\ w_sent w' = Some (code, ∅) /\ w_Body w' = w_Body w +:+ b.
Proof. intros Hs. unfold Write, WriteHeader. rewrite Hs. by eexists. Qed.

Lemma request_context_header o o' o'' r k vs :
  r_Header r !! k = Some vs ->
  md_entries (default None (ctx_md (request_context o o' o'' r))) !! k = written (first_value vs).
Proof.
  intros Hk. unfold request_context. cbn. rewrite copy_fold.
  rewrite (patch_fold_in true _ _ k (first_value vs)).
  - rewrite lookup_fmap, Hk. done.
  - apply NoDup_map_range.
  - apply elem_of_map_range. cbn. unfold request_md. apply lookup_union_Some_l. by rewrite lookup_fmap, Hk.
Qed.

(** Error answers go out bare. An error whose code is one of a final answer, or
    unknown, is answered with that status, or 500, and with the error as the body; the
    content type and the trailers that are set for it are set too late to go out. A
    code that is no status panics. *)
Theorem writeError_headers `{Errors.JSON} r err :
  let code := Errors.Code (Errors.Parse err) in
  ((code = 0 \/ 200 <= code <= 999)%Z ->
   exists w, writeError r err new_writer = Some w /\
     w_sent w = Some (if (code =? 0)%Z then 500%Z else code, ∅) /\
     w_Body w = Errors.Error_Error (reported (Errors.Parse err))) /\
  ((code <> 0 /\ code < 100 \/ 999 < code)%Z -> writeError r err new_writer = None).
Proof.
  cbv zeta. unfold writeError. set (ce := Errors.Parse err). set (k := if (Errors.Code ce =? 0)%Z then 500%Z else Errors.Code ce).
  assert (Errors.Code (reported ce) = k) as -> by (unfold reported, k; by destruct (_ =? 0)%Z).
  split; intros Hc; unfold WriteHeader at 1; cbn [w_sent new_writer w_Header w_Body].
  - assert (200 <= k <= 999)%Z as Hk by (unfold k; destruct (Z.eqb_spec (Errors.Code ce) 0); lia).
    rewrite (proj2 (Z.ltb_ge k 100)), (proj2 (Z.ltb_ge 999 k)), (proj2 (Z.ltb_ge k 200)) by lia.
    cbn [orb andb mbind option_bind]. by destruct (str_contains _ _); apply (Write_bare k).
  - assert ((k <? 100) || (999 <? k) = true)%Z as ->; [|done].
    apply orb_true_iff. unfold k. rewrite !Z.ltb_lt. destruct (Z.eqb_spec (Errors.Code ce) 0); lia.
Qed.

(** [media] is the media type of a content type: what comes before the first semicolon. *)
Definition media_type (ct media : string) : Prop :=
  str_has ";" media = false /\ (ct = media \/ exists params, ct = media +:+ ";" +:+ params).

Lemma strip_params_media ct : media_type ct (strip_params ct).
Proof.
  unfold media_type, strip_params. destruct (index_where _ ct) as [i|] eqn:Hi.
  - apply index_where_some in Hi as (media & c & params & -> & <- & Hno & ->%Ascii.eqb_eq). rewrite str_take_app.
    split; [unfold str_has; by rewrite Hno|]. right. by exists params.
  - apply index_where_none in Hi. split; [unfold str_has; by rewrite Hi|by left].
Qed.

Lemma hasCodec_elem ct l : hasCodec ct l = true <-> ct ∈ l.
Proof.
  unfold hasCodec. rewrite existsb_exists, list_elem_of_In. setoid_rewrite String.eqb_eq. naive_solver.
Qed.

(** C30: what a routed request calls. The service and endpoint of the route are called
    with the payload of the request, in a context whose metadata has, under the name of
    every header, its first value and no other; a header that is empty is not there. The
    content type is the media type of the request, without its parameters, if one of the
    codecs is for it, and json else; the messages are raw proto exactly when it is one of
    the proto types. What the call gives back is the answer. *)
Theorem ServeHTTP_calls `{Errors.JSON} Sprintf route payload Call o o' o'' size r service r1 br :
  route (limit_body (if (0 <? size)%Z then size else DefaultMaxRecvSize) r) = inr (service, r1) ->
  isStream r1 service = false ->
  payload (with_ctx (request_context o o' o'' r1) r1) = Ret br ->
  exists c, c_service c = ApiRouter.rt_Service service /\ c_endpoint c = ApiRouter.ep_Name (ApiRouter.rt_Endpoint service) /\
    c_payload c = br /\ c_versions c = ApiRouter.rt_Versions service /\
    (exists media, media_type (header_get "Content-Type" r1) media /\
       c_raw c = bool_decide (media ∈ protoCodecs) /\
       c_ct c = if bool_decide (media ∈ protoCodecs \/ media ∈ jsonCodecs) then media else "application/json") /\
    (forall k vs, r_Header r1 !! k = Some vs ->
       md_entries (default None (ctx_md (c_ctx c))) !! k = written (first_value vs)) /\
    ServeHTTP Sprintf (Some route) payload Call o o' o'' size r =
      match Call c with
      | inl e => answered (writeError r1 e new_writer)
      | inr rsp => answered (writeResponse r1 (response_bytes (c_raw c) rsp) new_writer)
      end.
Proof.
  intros Hr Hs Hp. unfold ServeHTTP. rewrite Hr. rewrite Hp.
  assert (isStream (with_ctx (request_context o o' o'' r1) r1) service = false) as -> by exact Hs.
  destruct (call_codec (with_ctx _ r1)) as [ct raw] eqn:Hct.
  exists (mkCall (request_context o o' o'' r1) (ApiRouter.rt_Service service)
    (ApiRouter.ep_Name (ApiRouter.rt_Endpoint service)) ct raw br (ApiRouter.rt_Versions service)).
  split_and!; [done..| | |done].
  - exists (strip_params (header_get "Content-Type" r1)). split; [apply strip_params_media|].
    unfold call_codec in Hct. cbn [c_raw c_ct]. change (header_get _ (with_ctx _ r1)) with (header_get "Content-Type" r1) in Hct.
    set (media := strip_params _) in *.
    destruct (hasCodec media protoCodecs) eqn:Hpc; injection Hct as <- <-.
    + apply hasCodec_elem in Hpc. rewrite (bool_decide_true (media ∈ protoCodecs)), bool_decide_true by (by left || done). done.
    + assert (media ∉ protoCodecs) as Hnp by (rewrite <- hasCodec_elem; congruence).
      rewrite (bool_decide_false (media ∈ protoCodecs)) by done. split; [done|].
      match goal with |- (if ?b then _ else _) = _ => change b with (hasCodec media jsonCodecs) end.
      destruct (hasCodec media jsonCodecs) eqn:Hj.
      * apply hasCodec_elem in Hj. by rewrite bool_decide_true by (by right).
      * rewrite bool_decide_false; [done|]. rewrite <- (hasCodec_elem media jsonCodecs), Hj. by intros [?|?].
  - intros k vs Hk. cbn [c_ctx]. apply request_context_header. exact Hk.
Qed.

(** ** Examples and witnesses *)
Definition ex_fields : gmap string json := {["id" := Str "7"; "user.name" := Str "ann"; "user.age" := Atom "30"]}.

Lemma build_req_places_witness :
  exists req, build_req (map_range order_id ex_fields) = Some req /\
    forall k v, ex_fields !! k = Some v -> value_at (parts k) (Obj req) = Some v.
Proof.
  apply (build_req_places order_id ex_fields). intros k k' [v Hk] [v' Hk'] Hne.
  unfold ex_fields in Hk, Hk'.
  repeat (apply lookup_insert_Some in Hk as [[<- <-]|[_ Hk]]); [..|apply lookup_singleton_Some in Hk as [<- <-]];
    (repeat (apply lookup_insert_Some in Hk' as [[<- <-]|[_ Hk']]); [..|apply lookup_singleton_Some in Hk' as [<- <-]]);
    try (exfalso; by apply Hne); cbv; (left; discriminate) || (right; discriminate) || discriminate.
Defined.

(** A field and a part of it: one order of the map panics, the other loses a value. *)
Example clashing_fields :
  build_req [("a", Str "1"); ("a.b", Str "2")] = None /\
  build_req [("a.b", Str "2"); ("a", Str "1")] = Some [("a", Str "1")] /\
  build_req [("a.b.c", Str "1"); ("a.b.d", Str "2")] = Some [("a", Obj [("b", Obj [("d", Str "2")])])].
Proof. by split_and!. Qed.

Definition ex_ctx : context := mkContext (Some (Some {["x-api-field-id" := "7"; "X-Api-Body" := "user"]})) ∅.
Definition ex_md : gmap string string := {["X-Api-Field-Id" := "7"; "X-Api-Body" := "user"]}.

Lemma fields_stay_witness :
  path_fields order_id ex_md = ({["id" := Str "7"]}, "user", ex_md) /\ (path_fields order_rev ex_md).2 = ex_md.
Proof. split; [vm_compute; reflexivity|]. apply (fields_stay order_id order_rev ex_ctx). vm_compute. reflexivity. Defined.

(** The first message of a stream is sent twice. *)
Example first_message_twice : stream_opening "hello" "text/plain" = [Some (false, "hello"); Some (false, "hello")].
Proof. reflexivity. Qed.

(** *** A request from end to end *)
Definition ex_json : Errors.JSON := {| Errors.Marshal e := Errors.Detail e; Errors.Unmarshal s := (Errors.mkError "" 0 "" "", false) |}.

Definition ex_service : ApiRouter.Route :=
  ApiRouter.mkRoute "greeter" (ApiRouter.mkEndpoint "Greeter.Hello" "" "" [] [] [] false) [].

Definition ex_request : http_request :=
  mkHttpRequest "POST" "example.com" {["Content-Type" := ["application/json; charset=UTF-8"]; "Accept" := ["a"; "b"]]} ""
    (inr "{}") (mkContext None ∅).

Definition ex_route (r : http_request) : string + (ApiRouter.Route * http_request) := inr (ex_service, r).
Definition ex_payload (r : http_request) : outcome string string := match r_Body r with inl e => Fail e | inr b => Ret b end.
Definition ex_call (c : call) : string + option string := inr (Some (c_payload c +:+ c_ct c)).

Lemma ServeHTTP_calls_witness :
  exists c, c_service c = "greeter" /\ c_payload c = "{}" /\
    md_entries (default None (ctx_md (c_ctx c))) !! "Accept" = Some "a" /\
    @ServeHTTP ex_json id (Some ex_route) ex_payload ex_call order_id order_id order_rev 0 ex_request =
      match ex_call c with
      | inl e => answered (@writeError ex_json ex_request e new_writer)
      | inr rsp => answered (writeResponse ex_request (response_bytes (c_raw c) rsp) new_writer)
      end.
Proof.
  destruct (@ServeHTTP_calls ex_json id ex_route ex_payload ex_call order_id order_id order_rev 0 ex_request ex_service ex_request "{}")
    as (c & Hs & _ & Hp & _ & _ & Hmd & Hrun); [vm_compute; reflexivity..|].
  exists c. split; [exact Hs|]. split; [exact Hp|]. split; [|exact Hrun].
  apply (Hmd "Accept" ["a"; "b"]). vm_compute. reflexivity.
Defined.

Lemma writeError_headers_witness :
  exists w, @writeError ex_json ex_request "boom" new_writer = Some w /\ w_sent w = Some (500%Z, ∅) /\
    w_Body w = "error during request: boom".
Proof. apply (@writeError_headers ex_json ex_request "boom"). left. reflexivity. Defined.

(** A body over the limit and a status that is none. *)
Example answers :
  @ServeHTTP ex_json id (Some ex_route) ex_payload ex_call order_id order_id order_id 1 ex_request =
    answered (@writeError ex_json ex_request "http: request body too large" new_writer) /\
  w_sent <$> writeResponse ex_request "" new_writer =
    Some (Some (204%Z, {["Content-Type" := "application/json; charset=UTF-8"; "Content-Length" := "0"]})) /\
  WriteHeader 42 new_writer = None.
Proof. by vm_compute. Qed.
