(* ===== verification/HttpBroker.v ===== *)
(** * The HTTP broker: [broker/http.go]

    A broker keeps its subscribers by topic and an inbox of encoded messages by topic.
    Publishing saves the message and lets a goroutine send what is in the inbox to the
    nodes of the topic; a node is another broker, which finds its subscribers by the
    identifier the node was registered with. [W] is the world around a broker: the
    registry, the network and the programs that subscribed. The last section is the
    life of a broker, its callers and its [run] goroutines, as a step relation. *)
From S2P Require Import Prelude GoStrings NetUtil Registry.
From S2P Require Errors MemRegistry.

Record Message := mkMessage { m_Header : gmap string string; m_Body : string }.

(** [encoding/json]: a message, or nil for [null]. *)
Class Marshaler := {
  Marshal : Message -> string + string;
  Unmarshal : string -> string + option Message;
}.

Class MarshalerLaws `{Marshaler} := {
  Unmarshal_Marshal m b : Marshal m = inr b -> Unmarshal b = inr (Some m);
}.

(** What the broker asks of its registry and of the cache in front of it. *)
Class Reg (W : Type) := {
  Register : Service -> Z -> W -> W * option string;
  Deregister : Service -> W -> W * option string;
  GetService : string -> W -> W * (string + list Service);
  cache_New : W -> W;
  cache_Stop : W -> W;
}.

(** In a good state, the nodes of a service that was deregistered are not found under
    its version any more. *)
Class RegLaws {W} `{Reg W} (good : W -> Prop) := {
  Deregister_good svc w : good w -> good (Deregister svc w).1;
  Deregister_gone svc w w' ss s n :
    good w -> (Deregister svc w).2 = None -> GetService (s_Name svc) (Deregister svc w).1 = (w', inr ss) ->
    s ∈ ss -> s_Version s = s_Version svc -> n ∈ s_Nodes s -> has_id (n_Id n) (s_Nodes svc) = false;
}.

Definition DefaultPath : string := "/".
Definition DefaultAddress : string := "127.0.0.1:0".
Definition serviceName : string := "micro.http.broker".
Definition broadcastVersion : string := "ff.http.broadcast".
Definition registerTTL : Z := 60 * 10 ^ 9.
Definition HMessage : string := "Micro-Topic".

Section broker.
Context {W : Type}.

(** ** Data *)
Record httpEvent := mkHttpEvent { ev_err : option string; ev_m : Message; ev_t : string }.

Definition Handler : Type := W -> httpEvent -> W * option string.

(** [sub_ptr] is the pointer that identifies a subscriber. *)
Record httpSubscriber := mkSubscriber {
  sub_ptr : nat;
  sub_fn : Handler;
  sub_svc : Service;
  sub_id : string;
  sub_topic : string;
}.

Record Options := mkOptions { opt_Addrs : list string; opt_Secure : bool; opt_TLSConfig : bool }.

(** [allocated] subscribers have been made. *)
Record httpBroker := mkHttpBroker {
  opts : Options;
  b_id : string;
  address : string;
  subscribers : gmap string (list httpSubscriber);
  inbox : gmap string (list string);
  running : bool;
  allocated : nat;
}.

Definition set_subscribers (l : gmap string (list httpSubscriber)) (h : httpBroker) : httpBroker :=
  mkHttpBroker (opts h) (b_id h) (address h) l (inbox h) (running h) (allocated h).

Definition set_inbox (i : gmap string (list string)) (h : httpBroker) : httpBroker :=
  mkHttpBroker (opts h) (b_id h) (address h) (subscribers h) i (running h) (allocated h).

(** The first address of the options, if there is one that is not empty. *)
Definition first_addr (o : Options) : option string :=
  match opt_Addrs o with a :: _ => if String.eqb a "" then None else Some a | [] => None end.

(** [id] is a fresh uuid. *)
Definition newHttpBroker (id : string) (o : Options) : httpBroker :=
  mkHttpBroker o id (default DefaultAddress (first_addr o)) ∅ ∅ false 0.

(** ** The inbox *)
Definition saveMessage (topic msg : string) (h : httpBroker) : httpBroker :=
  let c := default [] (inbox h !! topic) ++ [msg] in
  let c := if 64 <? length c then take 64 c else c in
  set_inbox (<[topic := c]> (inbox h)) h.

Definition getMessage (topic : string) (num : nat) (h : httpBroker) : list string * httpBroker :=
  match inbox h !! topic with
  | None => ([], h)
  | Some c =>
      if num <=? length c then (take num c, set_inbox (<[topic := drop num c]> (inbox h)) h)
      else (c, set_inbox (<[topic := []]> (inbox h)) h)
  end.

(** ** Subscribing *)
Section registry.
Context `{Reg W}.

Definition subscribe (s : httpSubscriber) (h : httpBroker) (w : W) : httpBroker * W * option string :=
  match Register (sub_svc s) registerTTL w with
  | (w, Some err) => (h, w, Some err)
  | (w, None) =>
      (set_subscribers (<[sub_topic s := default [] (subscribers h !! sub_topic s) ++ [s]]> (subscribers h)) h, w, None)
  end.

(** The subscribers that are kept; those that are not are deregistered. *)
Fixpoint unsubscribe_loop (s : httpSubscriber) (subs : list httpSubscriber) (w : W) : list httpSubscriber * W :=
  match subs with
  | [] => ([], w)
  | sub :: subs =>
      if sub_ptr sub =? sub_ptr s then unsubscribe_loop s subs (Deregister (sub_svc sub) w).1
      else let '(kept, w) := unsubscribe_loop s subs w in (sub :: kept, w)
  end.

Definition unsubscribe (s : httpSubscriber) (h : httpBroker) (w : W) : httpBroker * W :=
  let '(kept, w) := unsubscribe_loop s (default [] (subscribers h !! sub_topic s)) w in
  (set_subscribers (<[sub_topic s := kept]> (subscribers h)) h, w).

Definition all_subs (o : map_order) (h : httpBroker) : list httpSubscriber :=
  concat (map snd (map_range o (subscribers h))).

(** One beat of [run], and what it does when it ends. *)
Definition heartbeat (o : map_order) (h : httpBroker) (w : W) : W :=
  foldl (fun w sub => (Register (sub_svc sub) registerTTL w).1) w (all_subs o h).

Definition deregister_all (o : map_order) (h : httpBroker) (w : W) : W :=
  foldl (fun w sub => (Deregister (sub_svc sub) w).1) w (all_subs o h).

Definition is_secure (o : Options) : bool := opt_Secure o || opt_TLSConfig o.

Definition topic_node (secure : bool) (topic id addr : string) : Node :=
  mkNode (Some (<["secure" := if secure then "true" else "false"]> (<["broker" := "http"]> {["topic" := topic]})))
    (topic +:+ "-" +:+ id) addr.

Definition topic_service (queue : string) (node : Node) : Service :=
  mkService serviceName (if String.eqb queue "" then broadcastVersion else queue) ∅ [] [node].

Definition Subscribe `{Net} (interfaces : string + list iface) (topic : string) (handler : Handler) (queue : string)
    (h : httpBroker) (w : W) : httpBroker * W * (string + httpSubscriber) :=
  match SplitHostPort (address h) with
  | inl err => (h, w, inl err)
  | inr (host, port) =>
      match Extract interfaces host with
      | inl err => (h, w, inl err)
      | inr addr =>
          let node := topic_node (is_secure (opts h)) topic (b_id h) (HostPort addr (PortText port)) in
          let subscriber := mkSubscriber (allocated h) handler (topic_service queue node) (n_Id node) topic in
          let h := mkHttpBroker (opts h) (b_id h) (address h) (subscribers h) (inbox h) (running h) (S (allocated h)) in
          match subscribe subscriber h w with
          | (h, w, Some err) => (h, w, inl err)
          | (h, w, None) => (h, w, inr subscriber)
          end
      end
  end.
End registry.

(** ** Receiving *)

(** [rq_body] is what is left to read after the form was parsed; [rq_id] is the form's
    identifier. *)
Record request := mkRequest { rq_Method : string; rq_id : string; rq_body : string + string }.

Inductive reply := Reply (status : Z) (body : option Errors.error) | Panicked.

Definition broker_id : string := "go.micro.broker".

(** One event is passed to all handlers; it carries the error of the one before. They share
    the pointer to its message: handlers that change the message are left out here. *)
Fixpoint run_handlers (fns : list Handler) (w : W) (p : httpEvent) : W :=
  match fns with
  | [] => w
  | fn :: fns => let '(w, err) := fn w p in run_handlers fns w (mkHttpEvent err (ev_m p) (ev_t p))
  end.

Definition selected (h : httpBroker) (topic id : string) : list Handler :=
  map sub_fn (filter (fun s => id = sub_id s) (default [] (subscribers h !! topic))).

Definition ServeHTTP `{Marshaler} (h : httpBroker) (req : request) (w : W) : W * reply :=
  if negb (String.eqb (rq_Method req) "POST") then
    (w, Reply 405 (Some (Errors.BadRequest broker_id "Method not allowed")))
  else
    match rq_body req with
    | inl err => (w, Reply 500 (Some (Errors.InternalServerError broker_id ("Error reading request body: " +:+ err))))
    | inr b =>
        match Unmarshal b with
        | inl err => (w, Reply 500 (Some (Errors.InternalServerError broker_id ("Error parsing request body: " +:+ err))))
        | inr None => (w, Panicked)
        | inr (Some m) =>
            let topic := default "" (m_Header m !! HMessage) in
            if String.eqb topic "" then (w, Reply 500 (Some (Errors.InternalServerError broker_id "Topic not found")))
            else (run_handlers (selected h topic (rq_id req)) w (mkHttpEvent None m topic), Reply 200 None)
        end
    end.

(** ** Publishing *)
Definition outgoing (topic : string) (msg : Message) : Message :=
  mkMessage (<[HMessage := topic]> (m_Header msg)) (m_Body msg).

(** What a message is posted to: scheme, address and identifier. *)
Record url := mkUrl { u_scheme : string; u_address : string; u_id : string }.

Definition node_meta (k : string) (n : Node) : string := default "" (default ∅ (n_Metadata n) !! k).

Definition node_url (n : Node) : url :=
  mkUrl (if String.eqb (node_meta "secure" n) "true" then "https" else "http") (n_Address n) (n_Id n).

Definition topic_nodes (topic : string) (s : Service) : list Node :=
  List.filter (fun n => String.eqb (node_meta "broker" n) "http" && String.eqb (node_meta "topic" n) topic) (s_Nodes s).

Section publish.
(** Posting, and whether it succeeded; the random number drawn for a service. *)
Context (Post : url -> string -> W -> W * bool).

Fixpoint post_all (nodes : list Node) (b : string) (w : W) : W * bool :=
  match nodes with
  | [] => (w, false)
  | n :: nodes =>
      let '(w, ok) := Post (node_url n) b w in
      let '(w, success) := post_all nodes b w in (w, ok || success)
  end.

(** The nodes one service's message is posted to. *)
Definition chosen (topic : string) (rnd : nat) (s : Service) : list Node :=
  let nodes := topic_nodes topic s in
  if String.eqb (s_Version s) broadcastVersion then nodes
  else match nodes !! (rnd mod length nodes) with Some n => [n] | None => [] end.

(** A message to every service; how many times it is saved again. *)
Fixpoint srv (topic : string) (rnd : list nat) (ss : list Service) (b : string) (h : httpBroker) (w : W) : httpBroker * W :=
  match ss with
  | [] => (h, w)
  | s :: ss =>
      match topic_nodes topic s with
      | [] => srv topic (tail rnd) ss b h w
      | _ =>
          let '(w, success) := post_all (chosen topic (hd 0 rnd) s) b w in
          srv topic (tail rnd) ss b (if success then h else saveMessage topic b h) w
      end
  end.

Fixpoint srv_messages (topic : string) (rnds : list (list nat)) (ss : list Service) (messages : list string)
    (h : httpBroker) (w : W) : httpBroker * W :=
  match messages with
  | [] => (h, w)
  | b :: messages =>
      let '(h, w) := srv topic (hd [] rnds) ss b h w in srv_messages topic (tail rnds) ss messages h w
  end.

(** The goroutine of a publication. *)
Definition publish_async (topic : string) (rnds : list (list nat)) (ss : list Service) (h : httpBroker) (w : W) : httpBroker * W :=
  let '(messages, h) := getMessage topic 8 h in srv_messages topic rnds ss messages h w.

Definition Publish `{Marshaler} `{Reg W} (topic : string) (msg : Message) (h : httpBroker) (w : W) :
    httpBroker * W * (string + list Service) :=
  match Marshal (outgoing topic msg) with
  | inl err => (h, w, inl err)
  | inr b =>
      let h := saveMessage topic b h in
      let '(w, s) := GetService serviceName w in (h, w, s)
  end.
End publish.

(** ** Options, connecting and disconnecting: what happens under the lock *)
Definition Init `{Reg W} (o : Options -> Options) (uuid : string) (h : httpBroker) (w : W) : httpBroker * W * option string :=
  if running h then (h, w, Some "cannot init while connected")
  else
    let o := o (opts h) in
    let id := if String.eqb (b_id h) "" then "go.micro.http.broker-" +:+ uuid else b_id h in
    (mkHttpBroker o id (default (address h) (first_addr o)) (subscribers h) (inbox h) (running h) (allocated h),
     cache_New (cache_Stop w), None).

(** [listened]: the address of the listener. *)
Definition connected (listened : string) (h : httpBroker) : httpBroker :=
  mkHttpBroker (opts h) (b_id h) listened (subscribers h) (inbox h) true (allocated h).

Definition disconnected (h : httpBroker) : httpBroker :=
  mkHttpBroker (opts h) (b_id h) (address h) (subscribers h) (inbox h) false (allocated h).

(** What the goroutine of a connection does after [run]. *)
Definition reset_address (addr : string) (h : httpBroker) : httpBroker :=
  mkHttpBroker (mkOptions [addr] (opt_Secure (opts h)) (opt_TLSConfig (opts h))) (b_id h) addr
    (subscribers h) (inbox h) (running h) (allocated h).

(** ** The inbox is a queue *)
Inductive inbox_op := Save (topic msg : string) | Take (topic : string) (num : nat).

Definition waiting (h : httpBroker) (t : string) : list string := default [] (inbox h !! t).

(** What a sequence of saves and takes, by any number of publications, hands out for a
    topic. *)
Fixpoint inbox_run (t : string) (ops : list inbox_op) (h : httpBroker) : list string * httpBroker :=
  match ops with
  | [] => ([], h)
  | Save t' msg :: ops => inbox_run t ops (saveMessage t' msg h)
  | Take t' num :: ops =>
      let '(out, h) := getMessage t' num h in
      let '(outs, h) := inbox_run t ops h in
      ((if String.eqb t' t then out else []) ++ outs, h)
  end.

(** The messages saved when fewer than 64 were waiting; [n] are. *)
Fixpoint accepted (t : string) (ops : list inbox_op) (n : nat) : list string :=
  match ops with
  | [] => []
  | Save t' msg :: ops =>
      if String.eqb t' t then (if n <? 64 then msg :: accepted t ops (S n) else accepted t ops n) else accepted t ops n
  | Take t' num :: ops => accepted t ops (if String.eqb t' t then n - num else n)
  end.

Lemma waiting_insert h t t' c :
  waiting (set_inbox (<[t' := c]> (inbox h)) h) t = if String.eqb t' t then c else waiting h t.
Proof.
  unfold waiting. cbn. destruct (String.eqb_spec t' t) as [->|Hne]; [by rewrite lookup_insert_eq|by rewrite lookup_insert_ne].
Qed.

Lemma waiting_save h t t' msg :
  length (waiting h t) <= 64 ->
  waiting (saveMessage t' msg h) t =
    if String.eqb t' t && (length (waiting h t) <? 64) then waiting h t ++ [msg] else waiting h t.
Proof.
  intros Hl. unfold saveMessage. rewrite waiting_insert. destruct (String.eqb_spec t' t) as [->|]; [|done]. cbn [andb].
  fold (waiting h t). rewrite length_app. cbn [length].
  destruct (Nat.ltb_spec (length (waiting h t)) 64) as [Hlt|Hge].
  - by rewrite (proj2 (Nat.ltb_ge _ _)) by lia.
  - rewrite (proj2 (Nat.ltb_lt _ _)) by lia. by rewrite take_app_le, take_ge by lia.
Qed.

Lemma getMessage_spec h t num t' :
  (getMessage t num h).1 = take num (waiting h t) /\
  waiting (getMessage t num h).2 t' = if String.eqb t t' then drop num (waiting h t) else waiting h t'.
Proof.
  unfold getMessage, waiting at 1. destruct (inbox h !! t) as [c|] eqn:Hc; cbn [default].
  - destruct (Nat.leb_spec num (length c)) as [Hle|Hgt]; cbn [fst snd]; rewrite waiting_insert; unfold waiting; rewrite Hc; cbn.
    + done.
    + rewrite take_ge, drop_ge by lia. done.
  - unfold waiting. rewrite Hc. cbn. rewrite take_nil, drop_nil. split; [done|].
    destruct (String.eqb_spec t t') as [<-|]; [by rewrite Hc|done].
Qed.

(** The inbox is a bounded queue. However saves and takes of any number of
    publications interleave, the messages taken of a topic followed by those that still
    wait are those that waited followed by those saved while fewer than 64 waited, in
    order; never more than 64 wait. A message saved to a full inbox is lost. *)
Theorem inbox_fifo t ops h :
  length (waiting h t) <= 64 ->
  let '(out, h') := inbox_run t ops h in
  out ++ waiting h' t = waiting h t ++ accepted t ops (length (waiting h t)) /\ length (waiting h' t) <= 64.
Proof.
  revert h. induction ops as [|[t' msg|t' num] ops IH]; intros h Hl; cbn [inbox_run accepted].
  - by rewrite app_nil_r.
  - pose proof (waiting_save h t t' msg Hl) as Hs. specialize (IH (saveMessage t' msg h)). rewrite Hs in IH.
    destruct (String.eqb t' t); cbn [andb] in IH; [|by apply IH].
    destruct (Nat.ltb_spec (length (waiting h t)) 64); [|by apply IH].
    rewrite length_app in IH. cbn [length] in IH. rewrite Nat.add_1_r in IH.
    destruct (inbox_run t ops _) as [out h']. destruct IH as [-> ?]; [lia|]. by rewrite <- app_assoc.
  - destruct (getMessage_spec h t' num t) as [Hout Hw]. destruct (getMessage t' num h) as [out h1]. cbn [fst snd] in *. subst out.
    specialize (IH h1). rewrite Hw in IH. destruct (inbox_run t ops h1) as [outs h']. destruct (String.eqb_spec t' t) as [->|].
    + rewrite length_drop in IH. destruct IH as [IH ?]; [lia|]. split; [|done].
      by rewrite <- app_assoc, IH, app_assoc, take_drop.
    + by apply IH.
Qed.
End broker.
Arguments httpEvent : clear implicits.
Arguments httpSubscriber : clear implicits.
Arguments httpBroker : clear implicits.
Arguments Handler : clear implicits.

(** ** Whom a message is posted to *)
Section targets.
Context (ok : url -> string -> bool).

(** The network as the log of what was posted. *)
Definition LogPost (u : url) (b : string) (log : list (url * string)) : list (url * string) * bool :=
  (log ++ [(u, b)], ok u b).

Definition posts (b : string) (ns : list Node) : list (url * string) := map (fun n => (node_url n, b)) ns.

Definition undelivered (b : string) (ns : list Node) : bool :=
  match ns with [] => false | _ => negb (existsb (fun n => ok (node_url n) b) ns) end.

Lemma post_all_log ns b log :
  post_all LogPost ns b log = (log ++ posts b ns, existsb (fun n => ok (node_url n) b) ns).
Proof.
  revert log. induction ns as [|n ns IH]; intros log; cbn; [by rewrite app_nil_r|]. rewrite IH. by rewrite <- app_assoc.
Qed.

(** A broadcast is for all nodes of the topic, a queue group for one of them. *)
Definition target_of (topic : string) (s : Service) (ns : list Node) : Prop :=
  if String.eqb (s_Version s) broadcastVersion then ns = topic_nodes topic s
  else match topic_nodes topic s with [] => ns = [] | l => exists n, n ∈ l /\ ns = [n] end.

Lemma chosen_target topic rnd s : target_of topic s (chosen topic rnd s).
Proof.
  unfold target_of, chosen. destruct (String.eqb _ _); [done|]. destruct (topic_nodes topic s) as [|n l] eqn:Hn; [done|].
  destruct (lookup_lt_is_Some_2 (n :: l) (rnd mod length (n :: l))) as [x Hx]; [apply Nat.mod_upper_bound; done|].
  rewrite Hx. exists x. split; [by eapply list_elem_of_lookup_2|done].
Qed.

Lemma chosen_nonempty topic rnd s : topic_nodes topic s <> [] -> chosen topic rnd s <> [].
Proof.
  intros Hn. unfold chosen. destruct (String.eqb _ _); [done|].
  destruct (lookup_lt_is_Some_2 (topic_nodes topic s) (rnd mod length (topic_nodes topic s))) as [x Hx].
  - apply Nat.mod_upper_bound. by destruct (topic_nodes topic s).
  - by rewrite Hx.
Qed.

(** Whom a message is posted to. For every service in turn the message goes to all
    nodes of its topic when the service is a broadcast, and to exactly one of them when
    it is a queue group, whatever the random numbers; it is saved again once for every
    service none of whose posts succeeded, and not when a service has no node for the
    topic. *)
Theorem srv_posts topic rnd ss b (h : httpBroker (list (url * string))) log :
  exists tss, Forall2 (target_of topic) ss tss /\
    srv LogPost topic rnd ss b h log =
      (Nat.iter (length (List.filter (undelivered b) tss)) (saveMessage topic b) h, log ++ posts b (concat tss)).
Proof.
  revert rnd h log. induction ss as [|s ss IH]; intros rnd h log.
  - exists []. split; [done|]. cbn. by rewrite app_nil_r.
  - pose proof (chosen_target topic (hd 0 rnd) s) as Ht. pose proof (chosen_nonempty topic (hd 0 rnd) s) as Hne. cbn [srv].
    destruct (topic_nodes topic s) as [|n l] eqn:Hn.
    + destruct (IH (tail rnd) h log) as (tss & Hf & ->). exists ([] :: tss). split; [|done]. constructor; [|done].
      unfold target_of. rewrite Hn. by destruct (String.eqb _ _).
    + rewrite post_all_log. set (ts := chosen topic (hd 0 rnd) s) in *. set (done_ := existsb _ ts).
      destruct (IH (tail rnd) (if done_ then h else saveMessage topic b h) (log ++ posts b ts)) as (tss & Hf & ->).
      exists (ts :: tss). split; [by constructor|]. cbn [concat List.filter]. f_equal.
      * assert (undelivered b ts = negb done_) as -> by (unfold undelivered, done_; destruct ts; [by destruct Hne|done]).
        destruct done_; cbn [negb length]; [done|]. by rewrite <- Nat.iter_succ_r.
      * unfold posts. by rewrite map_app, app_assoc.
Qed.
End targets.

(** ** The subscribers of a broker *)
Section reached.
Context {W : Type} `{Reg W} `{Net}.

(** A broker between two critical sections, with whatever its worlds answered. *)
Inductive reached (id : string) : httpBroker W -> Prop :=
| reach_new o : reached id (newHttpBroker id o)
| reach_subscribe h interfaces topic fn queue w h' w' r :
    reached id h -> Subscribe interfaces topic fn queue h w = (h', w', r) -> reached id h'
| reach_unsubscribe h s w h' w' : reached id h -> unsubscribe s h w = (h', w') -> reached id h'
| reach_init h o uuid w h' w' r : reached id h -> Init o uuid h w = (h', w', r) -> reached id h'
| reach_connect h l : reached id h -> reached id (connected l h)
| reach_disconnect h : reached id h -> reached id (disconnected h)
| reach_reset h addr : reached id h -> reached id (reset_address addr h)
| reach_save h topic msg : reached id h -> reached id (saveMessage topic msg h)
| reach_take h topic num : reached id h -> reached id (getMessage topic num h).2.

Lemma reached_Subscribe id h interfaces topic fn queue w :
  reached id h -> reached id (Subscribe interfaces topic fn queue h w).1.1.
Proof. intros Hr. destruct (Subscribe interfaces topic fn queue h w) as [[h' w'] r] eqn:Hs. by eapply reach_subscribe. Qed.

Definition subs_of (h : httpBroker W) (topic : string) : list (httpSubscriber W) := default [] (subscribers h !! topic).

Definition sub_ok (id topic : string) (n : nat) (s : httpSubscriber W) : Prop :=
  sub_topic s = topic /\ sub_id s = topic +:+ "-" +:+ id /\ sub_ptr s < n /\
  exists queue secure addr, sub_svc s = topic_service queue (topic_node secure topic id addr).

Definition wf (id : string) (h : httpBroker W) : Prop :=
  b_id h = id /\
  forall t, Forall (sub_ok id t (allocated h)) (subs_of h t) /\ NoDup (map sub_ptr (subs_of h t)).

Lemma unsubscribe_loop_kept s (l : list (httpSubscriber W)) w :
  (unsubscribe_loop s l w).1 = filter (fun x => sub_ptr x <> sub_ptr s) l.
Proof.
  revert w. induction l as [|x l IH]; intros w; [done|]. cbn [unsubscribe_loop]. destruct (Nat.eqb_spec (sub_ptr x) (sub_ptr s)) as [He|He].
  - rewrite IH, filter_cons_False; [done|]. intros Hn. by apply Hn.
  - rewrite filter_cons_True by done. specialize (IH w). destruct (unsubscribe_loop s l w). cbn in *. by rewrite IH.
Qed.

Lemma sub_ok_le id t n m s : n <= m -> sub_ok id t n s -> sub_ok id t m s.
Proof. intros Hle (? & ? & ? & ?). split_and!; [done|done|lia|done]. Qed.

Lemma subs_of_set h t t' l :
  subs_of (set_subscribers (<[t' := l]> (subscribers h)) h) t = if String.eqb t' t then l else subs_of h t.
Proof.
  unfold subs_of. cbn. destruct (String.eqb_spec t' t) as [->|Hne]; [by rewrite lookup_insert_eq|by rewrite lookup_insert_ne].
Qed.

Lemma wf_set id h t l :
  wf id h -> Forall (sub_ok id t (allocated h)) l -> NoDup (map sub_ptr l) ->
  wf id (set_subscribers (<[t := l]> (subscribers h)) h).
Proof.
  intros [Hb Hw] Hf Hn. split; [exact Hb|]. intros t'. rewrite subs_of_set.
  destruct (String.eqb_spec t t') as [<-|]; [by split|apply Hw].
Qed.

Lemma wf_Subscribe id h interfaces topic fn queue w h' w' r :
  wf id h -> Subscribe interfaces topic fn queue h w = (h', w', r) -> wf id h'.
Proof.
  intros Hwf Hs. unfold Subscribe in Hs. destruct (SplitHostPort (address h)) as [e|[host port]]; [by injection Hs as <- _ _|].
  destruct (Extract interfaces host) as [e|a]; [by injection Hs as <- _ _|]. unfold subscribe in Hs. cbn [sub_svc sub_topic] in Hs.
  set (h1 := mkHttpBroker _ _ _ _ _ _ _) in Hs.
  assert (wf id h1) as Hwf1.
  { destruct Hwf as [Hb Hw]. split; [exact Hb|]. intros t. destruct (Hw t) as [Hf Hn]. split; [|exact Hn].
    eapply Forall_impl; [exact Hf|]. intros x. apply sub_ok_le. cbn. lia. }
  destruct (Register _ _ w) as [w1 [e|]]; injection Hs as <- _ _; [exact Hwf1|].
  destruct Hwf as [Hb Hw]. destruct (Hw topic) as [Hf Hn]. destruct Hwf1 as [Hb1 Hw1]. destruct (Hw1 topic) as [Hf1 _].
  apply (wf_set id h1); [by split| |].
  - apply Forall_app. split; [exact Hf1|]. constructor; [|constructor]. split_and!; [done|cbn; by rewrite Hb|cbn; lia|].
    cbn. rewrite Hb. by eexists _, _, _.
  - rewrite map_app. apply NoDup_app. split_and!; [done| |apply NoDup_singleton].
    intros p (x & -> & Hin)%list_elem_of_fmap Hq%list_elem_of_singleton. cbn in Hq.
    rewrite Forall_forall in Hf. destruct (Hf x Hin) as (_ & _ & Hlt & _). lia.
Qed.

Lemma wf_unsubscribe id h s w h' w' : wf id h -> unsubscribe s h w = (h', w') -> wf id h'.
Proof.
  intros Hwf Hs. unfold unsubscribe in Hs. pose proof (unsubscribe_loop_kept s (default [] (subscribers h !! sub_topic s)) w) as Hk.
  destruct (unsubscribe_loop s _ w) as [kept w1]. cbn in Hk. injection Hs as <- _. subst kept.
  destruct (proj2 Hwf (sub_topic s)) as [Hf Hn]. apply wf_set; [done| |].
  - apply Forall_forall. intros x [_ Hx]%list_elem_of_filter. rewrite Forall_forall in Hf. by apply Hf.
  - eapply sublist_NoDup; [exact Hn|]. apply fmap_sublist, sublist_filter.
Qed.

Lemma reached_wf id h : id <> "" -> reached id h -> wf id h.
Proof.
  intros Hid. induction 1 as [o|h interfaces topic fn queue w h' w' r _ IH Hs|h s w h' w' _ IH Hs|h o uuid w h' w' r _ IH Hi
    |h l _ IH|h _ IH|h addr _ IH|h t m _ IH|h t n _ IH]; try exact IH.
  - split; [done|]. intros t. unfold subs_of. cbn. rewrite lookup_empty. split; constructor.
  - by eapply wf_Subscribe.
  - by eapply wf_unsubscribe.
  - unfold Init in Hi. destruct (running h); injection Hi as <- _ _; [done|]. destruct IH as [Hb IH]. split; [|exact IH].
    cbn. rewrite Hb. by rewrite (proj2 (String.eqb_neq id "")) by done.
  - unfold getMessage. destruct (inbox h !! t); [|done]. by destruct (n <=? _).
Qed.

Lemma selected_all id h topic :
  id <> "" -> reached id h -> selected h topic (topic +:+ "-" +:+ id) = map sub_fn (subs_of h topic).
Proof.
  intros Hid [_ Hw]%reached_wf; [|done]. destruct (Hw topic) as [Hf _]. unfold selected. fold (subs_of h topic). f_equal.
  induction Hf as [|s l (_ & Hs & _) _ IH]; [done|]. by rewrite filter_cons_True, IH by done.
Qed.

Lemma topic_node_found secure topic id addr queue :
  topic_nodes topic (topic_service queue (topic_node secure topic id addr)) = [topic_node secure topic id addr].
Proof.
  unfold topic_nodes, topic_service. cbn [s_Nodes List.filter].
  assert (node_meta "broker" (topic_node secure topic id addr) = "http") as ->
    by (unfold node_meta; cbn; rewrite lookup_insert_ne, lookup_insert_eq by done; done).
  assert (node_meta "topic" (topic_node secure topic id addr) = topic) as ->
    by (unfold node_meta; cbn; rewrite !lookup_insert_ne, lookup_singleton_eq by done; done).
  by rewrite !String.eqb_refl.
Qed.

(** C28: a post reaches every subscriber of its topic. On every broker that can be
    reached, what a subscriber registered is one node for its topic; a message that was
    published to the topic and is posted to that node calls the handlers of all
    subscribers of the topic, in the order they subscribed, with the header of the
    message, the topic in it, and its body; and it is answered with success whatever
    the handlers return. *)
Theorem posted_reaches_all `{MarshalerLaws} id h topic s msg b w :
  id <> "" -> topic <> "" -> reached id h -> s ∈ subs_of h topic -> Marshal (outgoing topic msg) = inr b ->
  exists n, topic_nodes topic (sub_svc s) = [n] /\
    ServeHTTP h (mkRequest "POST" (u_id (node_url n)) (inr b)) w =
      (run_handlers (map sub_fn (subs_of h topic)) w (mkHttpEvent None (outgoing topic msg) topic), Reply 200 None).
Proof.
  intros Hid Ht Hr Hs Hm. destruct (reached_wf id h Hid Hr) as [_ Hw]. destruct (Hw topic) as [Hf _].
  rewrite Forall_forall in Hf. destruct (Hf s Hs) as (_ & _ & _ & queue & secure & addr & ->).
  exists (topic_node secure topic id addr). split; [apply topic_node_found|]. unfold ServeHTTP. cbn [rq_Method rq_body rq_id].
  rewrite String.eqb_refl. cbn [negb].
  rewrite (Unmarshal_Marshal _ _ Hm). cbn [outgoing m_Header]. rewrite lookup_insert_eq.
  change (default "" (Some topic)) with topic.
  rewrite (proj2 (String.eqb_neq topic "")) by done. cbn [u_id node_url topic_node n_Id].
  by rewrite (selected_all id).
Qed.

Lemma unsubscribe_loop_one s (l : list (httpSubscriber W)) w :
  NoDup (map sub_ptr l) -> s ∈ l -> (unsubscribe_loop s l w).2 = (Deregister (sub_svc s) w).1.
Proof.
  assert (forall (l : list (httpSubscriber W)) w, sub_ptr s ∉ map sub_ptr l -> (unsubscribe_loop s l w).2 = w) as Hnone.
  { clear. induction l as [|x l IH]; intros w Hn; [done|]. cbn [map] in Hn. apply not_elem_of_cons in Hn as [Hne Hn].
    cbn [unsubscribe_loop]. rewrite (proj2 (Nat.eqb_neq _ _)) by done.
    specialize (IH w Hn). by destruct (unsubscribe_loop s l w). }
  revert w. induction l as [|x l IH]; intros w Hn Hs; [by apply not_elem_of_nil in Hs|]. cbn [map] in Hn. apply NoDup_cons in Hn as [Hx Hn].
  cbn [unsubscribe_loop]. destruct (Nat.eqb_spec (sub_ptr x) (sub_ptr s)) as [He|He].
  - apply elem_of_cons in Hs as [->|Hs]; [by apply Hnone|]. destruct Hx. rewrite He. apply list_elem_of_fmap. by exists s.
  - apply elem_of_cons in Hs as [->|Hs]; [done|]. specialize (IH w Hn Hs). by destruct (unsubscribe_loop s l w).
Qed.

(** Unsubscribing hides the others. When one of two subscribers to the same topic
    in the same queue group unsubscribes and is deregistered, the other is still a
    subscriber of the broker, and no service of the group has a node left that leads to
    it, until it is registered again. *)
Theorem unsubscribe_hides `{!RegLaws good} id h topic s s' w h' w' w'' ss svc n :
  id <> "" -> reached id h -> s ∈ subs_of h topic -> s' ∈ subs_of h topic -> sub_ptr s <> sub_ptr s' ->
  s_Version (sub_svc s) = s_Version (sub_svc s') ->
  good w -> (Deregister (sub_svc s) w).2 = None ->
  unsubscribe s h w = (h', w') -> GetService serviceName w' = (w'', inr ss) ->
  svc ∈ ss -> s_Version svc = s_Version (sub_svc s') -> n ∈ s_Nodes svc ->
  s' ∈ subs_of h' topic /\ n_Id n <> sub_id s'.
Proof.
  intros Hid Hr Hs Hs' Hne Hv Hg Hd Hu Hget Hsvc Hsv Hn. destruct (reached_wf id h Hid Hr) as [_ Hw]. destruct (Hw topic) as [Hf Hnd].
  rewrite Forall_forall in Hf. destruct (Hf s Hs) as (Ht & Hsid & _ & queue & secure & addr & Hss). destruct (Hf s' Hs') as (Ht' & Hsid' & _).
  unfold unsubscribe in Hu. rewrite Ht in Hu. fold (subs_of h topic) in Hu. pose proof (unsubscribe_loop_kept s (subs_of h topic) w) as Hk.
  pose proof (unsubscribe_loop_one s (subs_of h topic) w Hnd Hs) as Hone. destruct (unsubscribe_loop s _ w) as [kept w1]. cbn in Hk, Hone.
  injection Hu as <- <-. split.
  - rewrite subs_of_set, String.eqb_refl. subst kept. apply list_elem_of_filter. split; [congruence|done].
  - subst w1. assert (s_Name (sub_svc s) = serviceName) as Hname by by rewrite Hss. rewrite <- Hname in Hget.
    pose proof (Deregister_gone (sub_svc s) w w'' ss svc n Hg Hd Hget Hsvc) as Hgone.
    rewrite Hss in Hgone. cbn [topic_service s_Nodes has_id n_Id topic_node] in Hgone. rewrite Hsid'. intros He.
    rewrite He, String.eqb_refl in Hgone. rewrite Hss in Hv. cbn in Hv. discriminate Hgone; [|done]. cbn. congruence.
Qed.
End reached.

(** ** The in-memory registry as the broker's *)
Section memory.
Context (o : map_order) (now : Z).

#[export] Instance memory_Reg : Reg MemRegistry.memRegistry := {|
  Register s ttl m := (MemRegistry.Register s ttl now m, None);
  Deregister s m := (MemRegistry.Deregister s m, None);
  GetService name m := (m, match MemRegistry.GetService o m name with Ret l => inr l | _ => inl "not found" end);
  cache_New m := m;
  cache_Stop m := m;
|}.

#[export] Instance memory_RegLaws : RegLaws MemRegistry.registry_ok.
Proof.
  split; cbn.
  - intros svc m Hm. apply (MemRegistry.step_ok m); [done|constructor].
  - intros svc m w' ss s n Hm _ Hget Hs Hv Hn.
    pose proof (MemRegistry.GetService_sound o (MemRegistry.Deregister svc m) (s_Name svc)) as Hsound.
    destruct (MemRegistry.GetService o _ _) as [l| |]; try discriminate. injection Hget as _ <-.
    destruct Hsound as (_ & _ & _ & _ & Hoff).
    { apply (MemRegistry.step_ok m); [done|constructor]. }
    destruct (proj1 (Hoff (s_Version svc) n)) as (nd & Hnd & _); [by exists s|]. clear Hoff.
    unfold MemRegistry.get_node in Hnd. destruct (MemRegistry.get_record _ _ _) as [r|] eqn:Hr; [|done]. cbn in Hnd.
    pose proof (MemRegistry.Deregister_spec_aux svc m) as Hspec. cbn zeta in Hspec.
    destruct (MemRegistry.records m !! s_Name svc) as [vs|] eqn:Hvs.
    + destruct Hspec as (_ & _ & Hrec & _). apply Hrec in Hr as (cur & _ & _ & ->). cbn in Hnd.
      apply map_lookup_filter_Some in Hnd as [_ Hnd]. exact Hnd.
    + unfold MemRegistry.get_record in Hr. rewrite Hspec, Hvs in Hr. done.
Qed.
End memory.

(** ** The life of a broker

    [Connect] and [Disconnect] look at [running] under the read lock, and then take the
    lock; [Disconnect] keeps it while it hands its channel to a [run] goroutine and waits
    for the answer. Every other use of the lock is one step. Passing the channel and
    answering on it are one step: nothing else can happen in between. *)
Section life.
Context {W : Type} `{Reg W}.

Inductive caller := CheckConnect | WantConnect | CheckDisconnect | WantDisconnect | Exiting | Returned.

(** [Selecting] waits for the ticker or the exit; the others wait for the lock. *)
Inductive phase := Selecting | Beating | Closing | Resetting | Ended.

Record run := mkRun { r_phase : phase; r_listener : string; r_addr : string }.

Record life := mkLife {
  l_h : httpBroker W;
  l_w : W;
  l_locked : bool;
  l_callers : list caller;
  l_runs : list run;
}.

Definition at_caller (i : nat) (c : caller) (x : life) : life :=
  mkLife (l_h x) (l_w x) (l_locked x) (<[i := c]> (l_callers x)) (l_runs x).

Definition at_run (j : nat) (p : phase) (x : life) : life :=
  mkLife (l_h x) (l_w x) (l_locked x) (l_callers x) (alter (fun r => mkRun p (r_listener r) (r_addr r)) j (l_runs x)).

Definition with_h (h : httpBroker W) (x : life) : life := mkLife h (l_w x) (l_locked x) (l_callers x) (l_runs x).
Definition with_w (w : W) (x : life) : life := mkLife (l_h x) w (l_locked x) (l_callers x) (l_runs x).
Definition with_lock (b : bool) (x : life) : life := mkLife (l_h x) (l_w x) b (l_callers x) (l_runs x).

(** [Connect] under the lock, when [listened] is the address of its listener. *)
Definition do_connect (i : nat) (listened : string) (x : life) : life :=
  let h := l_h x in
  mkLife (connected listened h) (cache_New (l_w x)) (l_locked x) (<[i := Returned]> (l_callers x))
    (l_runs x ++ [mkRun Selecting listened (address h)]).

Inductive lstep : life -> life -> Prop :=
| l_call x c : c = CheckConnect \/ c = CheckDisconnect ->
    lstep x (mkLife (l_h x) (l_w x) (l_locked x) (l_callers x ++ [c]) (l_runs x))
| l_check_connect x i : l_locked x = false -> l_callers x !! i = Some CheckConnect ->
    lstep x (at_caller i (if running (l_h x) then Returned else WantConnect) x)
| l_connect x i listened : l_locked x = false -> l_callers x !! i = Some WantConnect -> lstep x (do_connect i listened x)
| l_connect_fails x i : l_locked x = false -> l_callers x !! i = Some WantConnect -> lstep x (at_caller i Returned x)
| l_check_disconnect x i : l_locked x = false -> l_callers x !! i = Some CheckDisconnect ->
    lstep x (at_caller i (if running (l_h x) then WantDisconnect else Returned) x)
| l_disconnect x i : l_locked x = false -> l_callers x !! i = Some WantDisconnect ->
    lstep x (with_lock true (with_w (cache_Stop (l_w x)) (at_caller i Exiting x)))
| l_exit x i j r : l_callers x !! i = Some Exiting -> l_runs x !! j = Some r -> r_phase r = Selecting ->
    lstep x (with_lock false (with_h (disconnected (l_h x)) (at_caller i Returned (at_run j Closing x))))
| l_tick x j r : l_runs x !! j = Some r -> r_phase r = Selecting -> lstep x (at_run j Beating x)
| l_beat x j r o : l_locked x = false -> l_runs x !! j = Some r -> r_phase r = Beating ->
    lstep x (with_w (heartbeat o (l_h x) (l_w x)) (at_run j Selecting x))
| l_close x j r o : l_locked x = false -> l_runs x !! j = Some r -> r_phase r = Closing ->
    lstep x (with_w (deregister_all o (l_h x) (l_w x)) (at_run j Resetting x))
| l_reset x j r : l_locked x = false -> l_runs x !! j = Some r -> r_phase r = Resetting ->
    lstep x (with_h (reset_address (r_addr r) (l_h x)) (at_run j Ended x))
| l_use x subs ib w n : l_locked x = false ->
    lstep x (with_w w (with_h (mkHttpBroker (opts (l_h x)) (b_id (l_h x)) (address (l_h x)) subs ib (running (l_h x)) n) x)).

Inductive lsteps : life -> life -> Prop :=
| lsteps_refl x : lsteps x x
| lsteps_step x y z : lsteps x y -> lstep y z -> lsteps x z.

Lemma lsteps_cons x y z : lstep x y -> lsteps y z -> lsteps x z.
Proof. intros Hxy Hyz. induction Hyz as [|y a b _ IH Hab]; [by eapply lsteps_step; [apply lsteps_refl|]|]. eapply lsteps_step; [by apply IH|done]. Qed.

Definition idle (h : httpBroker W) (w : W) : life := mkLife h w false [] [].

(** A heartbeat can stop a broker for good. When [Disconnect] takes the lock while no
    [run] goroutine waits for its exit, because the ticker has just fired and the
    heartbeat waits for the lock, then whatever happens after, the lock is never given
    back, [Disconnect] never returns and no [run] goroutine goes on. *)
Theorem disconnect_stuck x x' i :
  l_locked x = false -> l_callers x !! i = Some WantDisconnect -> Forall (fun r => r_phase r <> Selecting) (l_runs x) ->
  lsteps (with_lock true (with_w (cache_Stop (l_w x)) (at_caller i Exiting x))) x' ->
  l_locked x' = true /\ l_callers x' !! i = Some Exiting /\ l_runs x' = l_runs x.
Proof.
  intros _ Hi Hr. set (y := with_lock true _). intros Hs.
  assert (l_locked y = true /\ l_callers y !! i = Some Exiting /\ l_runs y = l_runs x) as Hy.
  { split_and!; [done| |done]. cbn. rewrite list_lookup_insert_eq; [done|]. by eapply lookup_lt_Some. }
  induction Hs as [|y0 a b _ IH Hab]; [exact Hy|]. destruct (IH Hy) as (Hl & Hc & Hrs). clear IH. rewrite Forall_lookup in Hr.
  inversion Hab; subst; try congruence; try (exfalso; rewrite Hrs in *; by eapply Hr).
  cbn. split_and!; [done| |done]. by apply lookup_app_l_Some.
Qed.

(** *** Calls one after another *)
Definition live (r : run) : bool := match r_phase r with Selecting | Beating => true | _ => false end.

Inductive in_turn (x0 : life) : life -> Prop :=
| turn_refl : in_turn x0 x0
| turn_call x c : in_turn x0 x -> Forall (eq Returned) (l_callers x) -> c = CheckConnect \/ c = CheckDisconnect ->
    in_turn x0 (mkLife (l_h x) (l_w x) (l_locked x) (l_callers x ++ [c]) (l_runs x))
| turn_step x y : in_turn x0 x -> lstep x y -> length (l_callers y) = length (l_callers x) -> in_turn x0 y.

(** The last call is the only one that may not have returned. *)
Definition turn_ok (x : life) : Prop :=
  length (List.filter live (l_runs x)) = (if running (l_h x) then 1 else 0) /\
  (l_callers x = [] /\ l_locked x = false \/
   exists done c, l_callers x = done ++ [c] /\ Forall (eq Returned) done /\
     l_locked x = match c with Exiting => true | _ => false end /\
     match c with WantConnect => running (l_h x) = false | WantDisconnect | Exiting => running (l_h x) = true | _ => True end).

Lemma live_alter l j r p :
  l !! j = Some r ->
  length (List.filter live (alter (fun r => mkRun p (r_listener r) (r_addr r)) j l)) + (if live r then 1 else 0) =
  length (List.filter live l) + (if live (mkRun p "" "") then 1 else 0).
Proof.
  revert j. induction l as [|x l IH]; intros [|j] Hj; try done.
  - injection Hj as ->. cbn [alter list_alter List.filter]. change (live (mkRun p (r_listener r) (r_addr r))) with (live (mkRun p "" "")).
    destruct (live r), (live (mkRun p "" "")); cbn; lia.
  - specialize (IH j Hj). set (f := fun r => _) in *. change (alter f (S j) (x :: l)) with (x :: alter f j l).
    cbn [List.filter]. destruct (live x); cbn [length]; lia.
Qed.

Lemma last_caller done c i c' :
  Forall (eq Returned) done -> (done ++ [c]) !! i = Some c' -> c' <> Returned ->
  c' = c /\ forall c'', <[i := c'']> (done ++ [c]) = done ++ [c''].
Proof.
  intros Hd Hi Hc. destruct (decide (i < length done)) as [Hlt|Hge].
  - rewrite lookup_app_l in Hi by done. rewrite Forall_lookup in Hd. apply Hd in Hi. congruence.
  - assert (i = length done) as ->.
    { apply lookup_lt_Some in Hi. rewrite length_app in Hi. cbn in Hi. lia. }
    rewrite lookup_app_r, Nat.sub_diag in Hi by lia. injection Hi as ->. split; [done|]. intros c''.
    by rewrite insert_app_r_alt, Nat.sub_diag by lia.
Qed.

(** The caller that makes a step is the last one, and may go on where the state allows. *)
Lemma turn_caller x i c h w lk c'' runs :
  turn_ok x -> l_callers x !! i = Some c -> c <> Returned ->
  length (List.filter live runs) = (if running h then 1 else 0) ->
  lk = match c'' with Exiting => true | _ => false end ->
  match c'' with WantConnect => running h = false | WantDisconnect | Exiting => running h = true | _ => True end ->
  turn_ok (mkLife h w lk (<[i := c'']> (l_callers x)) runs).
Proof.
  intros [_ [[Hn _]|(dn & c0 & Hcs & Hd & _)]] Hi Hc Hlen Hlk Hcon; [by rewrite Hn in Hi|]. rewrite Hcs in *.
  destruct (last_caller dn c0 i c Hd Hi Hc) as [_ ->]. split; [exact Hlen|]. right. exists dn, c''. by split_and!.
Qed.

(** What the last caller is waiting for holds. *)
Lemma turn_waits x i c :
  turn_ok x -> l_callers x !! i = Some c -> c <> Returned ->
  match c with WantConnect => running (l_h x) = false | WantDisconnect | Exiting => running (l_h x) = true | _ => True end.
Proof.
  intros [_ [[Hn _]|(dn & c0 & Hcs & Hd & _ & Hcon)]] Hi Hc; [by rewrite Hn in Hi|]. rewrite Hcs in Hi.
  by destruct (last_caller dn c0 i c Hd Hi Hc) as [-> _].
Qed.

(** A step of a goroutine that keeps the callers, the lock and [running]. *)
Lemma turn_run x h w runs :
  turn_ok x -> running h = running (l_h x) -> length (List.filter live runs) = length (List.filter live (l_runs x)) ->
  turn_ok (mkLife h w (l_locked x) (l_callers x) runs).
Proof. intros [Hlen Hcs] Hr Hl. split; cbn; rewrite Hr; [by rewrite Hl|exact Hcs]. Qed.

Lemma turn_ok_step x y : turn_ok x -> lstep x y -> length (l_callers y) = length (l_callers x) -> turn_ok y.
Proof.
  intros Hx Hs Hcalls. pose proof (proj1 Hx) as Hlen. destruct Hs;
    unfold with_lock, with_w, with_h, at_run, at_caller, do_connect in *; cbn [l_h l_w l_locked l_callers l_runs] in *.
  - rewrite length_app in Hcalls. cbn in Hcalls. lia.
  - eapply turn_caller; [done..|exact Hlen| |]; by destruct (running (l_h x)).
  - pose proof (turn_waits x i _ Hx H1 ltac:(done)) as Hr. cbn in Hr. eapply turn_caller; [done..| |by rewrite H0|done].
    rewrite Hr in Hlen. rewrite List.filter_app, length_app, Hlen. done.
  - eapply turn_caller; [done..|exact Hlen|by rewrite H0|done].
  - eapply turn_caller; [done..|exact Hlen| |]; by destruct (running (l_h x)).
  - pose proof (turn_waits x i _ Hx H1 ltac:(done)) as Hr. cbn in Hr. eapply turn_caller; [done..|exact Hlen|done|exact Hr].
  - pose proof (turn_waits x i _ Hx H0 ltac:(done)) as Hr. cbn in Hr. eapply turn_caller; [done..| |done|done].
    pose proof (live_alter _ _ _ Closing H1) as Hl. rewrite Hr in Hlen. unfold live at 2 in Hl. rewrite H2 in Hl. cbn in Hl |- *. lia.
  - pose proof (live_alter _ _ _ Beating H0) as Hl. unfold live at 2 in Hl. rewrite H1 in Hl. apply turn_run; [done..|]. cbn in Hl |- *. lia.
  - pose proof (live_alter _ _ _ Selecting H1) as Hl. unfold live at 2 in Hl. rewrite H2 in Hl. apply turn_run; [done..|]. cbn in Hl |- *. lia.
  - pose proof (live_alter _ _ _ Resetting H1) as Hl. unfold live at 2 in Hl. rewrite H2 in Hl. apply turn_run; [done..|]. cbn in Hl |- *. lia.
  - pose proof (live_alter _ _ _ Ended H1) as Hl. unfold live at 2 in Hl. rewrite H2 in Hl. apply turn_run; [done..|]. cbn in Hl |- *. lia.
  - by apply turn_run.
Qed.

(** One [run] goroutine per connection. When connects and disconnects are called one
    after another, a broker that runs has exactly one goroutine that serves its listener
    and renews its registrations, and one that does not run has none; and while a
    disconnect holds the lock the broker still runs. *)
Theorem one_run_in_turn h w x :
  running h = false -> in_turn (idle h w) x ->
  length (List.filter live (l_runs x)) = (if running (l_h x) then 1 else 0) /\
  (l_locked x = true -> running (l_h x) = true).
Proof.
  intros Hr Hx. assert (turn_ok x) as Hok.
  { induction Hx as [|x c _ IH Hd Hc|x y _ IH Hs Hl]; [split; [by cbn; rewrite Hr|by left]| |by eapply turn_ok_step].
    destruct IH as [Hlen Hcs]. split; [exact Hlen|]. right. exists (l_callers x), c. split_and!; [done|done| |by destruct Hc as [-> | ->]].
    cbn. destruct Hcs as [[_ ->]|(dn & c0 & Hcs & _ & -> & _)]; [by destruct Hc as [-> | ->]|].
    rewrite Hcs in Hd. apply Forall_app in Hd as [_ Hd]. inversion Hd; subst. by destruct Hc as [-> | ->]. }
  destruct Hok as [Hlen Hcs]. split; [done|]. intros Hl. destruct Hcs as [[_ Hcs]|(dn & c & _ & _ & Hlk & Hcon)]; [congruence|].
  rewrite Hl in Hlk. by destruct c.
Qed.
End life.

(** ** Examples and witnesses *)
#[local] Instance ex_Net : Net := {| SplitHostPort a := inr (a, "80"); ParseIP := fun _ => false |}.

Definition ex_msg : Message := mkMessage {["a" := "1"]} "hello".
Definition ex_out : Message := outgoing "t" ex_msg.

#[export] Instance Message_eq_dec : EqDecision Message.
Proof. solve_decision. Defined.

(** A codec that knows one message. *)
#[local] Instance ex_codec : Marshaler := {|
  Marshal m := if decide (m = ex_out) then inr "b" else inl "unknown";
  Unmarshal s := if String.eqb s "b" then inr (Some ex_out) else if String.eqb s "null" then inr None else inl "syntax";
|}.

#[local] Instance ex_codec_laws : MarshalerLaws.
Proof. split. cbn. intros m b Hm. destruct (decide (m = ex_out)) as [->|]; [|done]. by injection Hm as <-. Qed.

Lemma inbox_fifo_witness :
  let '(out, h') := inbox_run "t" [Save "t" "1"; Save "u" "x"; Save "t" "2"; Take "t" 1; Save "t" "3"]
                      (newHttpBroker (W := unit) "id" (mkOptions [] false false)) in
  out ++ waiting h' "t" = ["1"; "2"; "3"] /\ length (waiting h' "t") <= 64.
Proof.
  apply (inbox_fifo "t" [Save "t" "1"; Save "u" "x"; Save "t" "2"; Take "t" 1; Save "t" "3"]
    (newHttpBroker "id" (mkOptions [] false false))). vm_compute. lia.
Defined.

(** The last message is lost when 64 are waiting. *)
Example full_inbox :
  let h := Nat.iter 64 (saveMessage "t" "old") (newHttpBroker (W := unit) "id" (mkOptions [] false false)) in
  inbox (saveMessage "t" "new" h) = inbox h.
Proof. by vm_compute. Qed.

#[local] Instance ex_reg : Reg MemRegistry.memRegistry := memory_Reg order_id 0.

Definition ex_registry : MemRegistry.memRegistry := MemRegistry.mkRegistry None ∅ ∅ [].
Definition ex_handler : Handler MemRegistry.memRegistry := fun w _ => (w, None).
Definition ex_ifaces : string + list iface := inr [].
Definition ex_new : httpBroker MemRegistry.memRegistry := newHttpBroker "id" (mkOptions ["10.0.0.1"] false false).

Definition ex_one := Subscribe ex_ifaces "t" ex_handler "" ex_new ex_registry.
Definition ex_two := Subscribe ex_ifaces "t" ex_handler "" ex_one.1.1 ex_one.1.2.

Definition ex_sub (n : nat) : httpSubscriber MemRegistry.memRegistry :=
  mkSubscriber n ex_handler (topic_service "" (topic_node false "t" "id" "10.0.0.1:80")) "t-id" "t".

Lemma ex_two_reached : reached "id" ex_two.1.1.
Proof. apply reached_Subscribe, reached_Subscribe, reach_new. Qed.

Lemma ex_two_subs : subs_of ex_two.1.1 "t" = [ex_sub 0; ex_sub 1].
Proof. vm_compute. reflexivity. Qed.

Lemma posted_reaches_all_witness :
  exists n, topic_nodes "t" (sub_svc (ex_sub 0)) = [n] /\
    ServeHTTP ex_two.1.1 (mkRequest "POST" (u_id (node_url n)) (inr "b")) ex_registry =
      (run_handlers [ex_handler; ex_handler] ex_registry (mkHttpEvent None ex_out "t"), Reply 200 None).
Proof.
  destruct (posted_reaches_all "id" ex_two.1.1 "t" (ex_sub 0) ex_msg "b" ex_registry) as (n & Hn & Hs); [done|done|exact ex_two_reached| |vm_compute; reflexivity|].
  - rewrite ex_two_subs. apply elem_of_cons. by left.
  - exists n. split; [exact Hn|]. rewrite ex_two_subs in Hs. exact Hs.
Defined.

(** Of two subscribers of a group one unsubscribes while a node of another broker is
    registered as well. *)
Definition ex_other : httpBroker MemRegistry.memRegistry := newHttpBroker "other" (mkOptions ["10.0.0.2"] false false).
Definition ex_three := Subscribe ex_ifaces "t" ex_handler "" ex_other ex_two.1.2.
Definition ex_gone := unsubscribe (ex_sub 0) ex_two.1.1 ex_three.1.2.

Lemma ex_registry_ok : MemRegistry.registry_ok ex_three.1.2.
Proof.
  assert (ex_three.1.2 = MemRegistry.Register (topic_service "" (topic_node false "t" "other" "10.0.0.2:80")) registerTTL 0
    (MemRegistry.Register (sub_svc (ex_sub 1)) registerTTL 0 (MemRegistry.Register (sub_svc (ex_sub 0)) registerTTL 0 ex_registry))) as ->
    by (vm_compute; reflexivity).
  eapply MemRegistry.step_ok; [|constructor]. eapply MemRegistry.step_ok; [|constructor]. eapply MemRegistry.step_ok; [|constructor].
  split.
  - intros name version r Hr. unfold MemRegistry.get_record in Hr. cbn in Hr. by rewrite lookup_empty in Hr.
  - intros id w Hw. cbn in Hw. by rewrite lookup_empty in Hw.
Qed.

Lemma unsubscribe_hides_witness :
  exists svc n, svc ∈ match (GetService serviceName ex_gone.2).2 with inr ss => ss | _ => [] end /\ n ∈ s_Nodes svc /\
    ex_sub 1 ∈ subs_of ex_gone.1 "t" /\ n_Id n <> "t-id".
Proof.
  set (svc := topic_service "" (topic_node false "t" "other" "10.0.0.2:80")). set (n := topic_node false "t" "other" "10.0.0.2:80").
  exists svc, n. assert ((GetService serviceName ex_gone.2).2 = inr [svc]) as Hget by (vm_compute; reflexivity).
  rewrite Hget. split; [by apply list_elem_of_singleton|]. split; [by apply list_elem_of_singleton|].
  apply (unsubscribe_hides (good := MemRegistry.registry_ok) "id" ex_two.1.1 "t" (ex_sub 0) (ex_sub 1) ex_three.1.2 ex_gone.1 ex_gone.2
    (GetService serviceName ex_gone.2).1 [svc] svc n).
  - done.
  - exact ex_two_reached.
  - rewrite ex_two_subs. apply elem_of_cons. by left.
  - rewrite ex_two_subs. apply elem_of_cons. right. by apply list_elem_of_singleton.
  - done.
  - reflexivity.
  - exact ex_registry_ok.
  - reflexivity.
  - by destruct ex_gone eqn:He.
  - rewrite <- Hget. by destruct (GetService serviceName ex_gone.2).
  - by apply list_elem_of_singleton.
  - reflexivity.
  - by apply list_elem_of_singleton.
Defined.

(** Two queue groups on one broker: a message is posted for each, and each post calls
    the subscribers of both. *)
Definition calls_Post (u : url) (b : string) (log : list string) : list string * bool :=
  let name n : Handler (list string) := fun w _ => (w ++ [n], None) in
  let sub n q := mkSubscriber 0 (name n) (topic_service q (topic_node false "t" "id" "a")) "t-id" "t" in
  let h := mkHttpBroker (mkOptions [] false false) "id" "a" {["t" := [sub "one" "q1"; sub "two" "q2"]]} ∅ true 2 in
  let '(w, r) := ServeHTTP h (mkRequest "POST" (u_id u) (inr b)) log in
  (w, match r with Reply 200 _ => true | _ => false end).

Example groups_served_twice :
  (srv calls_Post "t" [] [topic_service "q1" (topic_node false "t" "id" "a"); topic_service "q2" (topic_node false "t" "id" "a")]
     "b" (newHttpBroker "p" (mkOptions [] false false)) []).2 = ["one"; "two"; "one"; "two"].
Proof. by vm_compute. Qed.

(** A message with no node for its topic leaves the inbox; [null] panics the receiver. *)
Example lost_and_panic :
  let h := saveMessage "t" "m" (newHttpBroker (W := list string) "p" (mkOptions [] false false)) in
  waiting (publish_async calls_Post "t" [] [topic_service "" (topic_node false "u" "id" "a")] h []).1 "t" = [] /\
  (ServeHTTP h (mkRequest "POST" "x" (inr "null")) []).2 = Panicked.
Proof. by vm_compute. Qed.

(** *** Lives *)
Definition ex_h : httpBroker MemRegistry.memRegistry := newHttpBroker "id" (mkOptions [] false false).

Definition ex_called : life (W := MemRegistry.memRegistry) := mkLife ex_h ex_registry false [CheckConnect] [].
Definition ex_connected : life (W := MemRegistry.memRegistry) := do_connect 0 "a:1" (at_caller 0 WantConnect ex_called).

Lemma ex_connected_turn : in_turn (idle ex_h ex_registry) ex_connected.
Proof.
  apply (turn_step _ (at_caller 0 WantConnect ex_called)); [|apply l_connect; reflexivity|reflexivity].
  apply (turn_step _ ex_called); [|apply (l_check_connect ex_called 0); reflexivity|reflexivity].
  apply (turn_call _ (idle ex_h ex_registry)); [apply turn_refl|constructor|by left].
Qed.

Lemma one_run_in_turn_witness :
  length (List.filter live (l_runs ex_connected)) = 1 /\ (l_locked ex_connected = true -> running (l_h ex_connected) = true).
Proof. apply (one_run_in_turn ex_h ex_registry ex_connected); [reflexivity|exact ex_connected_turn]. Defined.

(** The ticker fires just before [Disconnect] takes the lock. *)
Definition ex_asked : life (W := MemRegistry.memRegistry) :=
  mkLife (l_h ex_connected) (l_w ex_connected) false [Returned; CheckDisconnect] (l_runs ex_connected).
Definition ex_ticked : life (W := MemRegistry.memRegistry) := at_run 0 Beating (at_caller 1 WantDisconnect ex_asked).

Definition ex_stuck : life (W := MemRegistry.memRegistry) :=
  with_lock true (with_w (cache_Stop (l_w ex_ticked)) (at_caller 1 Exiting ex_ticked)).

Lemma ex_ticked_turn : in_turn (idle ex_h ex_registry) ex_ticked.
Proof.
  apply (turn_step _ (at_caller 1 WantDisconnect ex_asked)); [|eapply (l_tick _ 0); reflexivity|reflexivity].
  apply (turn_step _ ex_asked); [|apply (l_check_disconnect ex_asked 1); reflexivity|reflexivity].
  apply (turn_call _ ex_connected); [exact ex_connected_turn|by repeat constructor|by right].
Qed.

Lemma disconnect_stuck_witness :
  in_turn (idle ex_h ex_registry) ex_stuck /\
  (l_locked ex_stuck = true /\ l_callers ex_stuck !! 1 = Some Exiting /\ l_runs ex_stuck = l_runs ex_ticked).
Proof.
  split.
  - eapply turn_step; [exact ex_ticked_turn|apply (l_disconnect _ 1); reflexivity|reflexivity].
  - apply (disconnect_stuck ex_ticked ex_stuck 1); [reflexivity|reflexivity|by repeat constructor|apply lsteps_refl].
Defined.

(** Two calls of [Connect] at once: after a [Disconnect] one listener is still served. *)
Example leaked_run :
  exists x, lsteps (idle ex_h ex_registry) x /\ running (l_h x) = false /\ length (List.filter live (l_runs x)) = 1.
Proof.
  eexists. split; [|split].
  - eapply lsteps_cons; [apply (l_call _ CheckConnect); by left|].
    eapply lsteps_cons; [apply (l_call _ CheckConnect); by left|].
    eapply lsteps_cons; [apply (l_check_connect _ 0); reflexivity|].
    eapply lsteps_cons; [apply (l_check_connect _ 1); reflexivity|].
    eapply lsteps_cons; [apply (l_connect _ 0 "a:1"); reflexivity|].
    eapply lsteps_cons; [apply (l_connect _ 1 "a:2"); reflexivity|].
    eapply lsteps_cons; [apply (l_call _ CheckDisconnect); by right|].
    eapply lsteps_cons; [apply (l_check_disconnect _ 2); reflexivity|].
    eapply lsteps_cons; [apply (l_disconnect _ 2); reflexivity|].
    eapply lsteps_cons; [eapply (l_exit _ 2 0); reflexivity|].
    apply lsteps_refl.
  - reflexivity.
  - reflexivity.
Qed.
