(* ===== verification/MemTransport.v ===== *)
(** * The memory transport: [transport/memory.go]

    A transport keeps listeners by address. Dialing makes two pipes and hands the
    connection to a goroutine that accepts on the listener; the two sockets of a
    connection share the channel that closing either of them closes. What a socket sends
    is encoded with [encoding/gob] into an unbuffered pipe: encoding waits until the
    other end has decoded all of it. The transport, its sockets and the goroutines that
    wait are a step relation. *)
From S2P Require Import Prelude GoStrings GoStrconv NetUtil.

Record Message := mkMessage { m_Header : gmap string string; m_Body : string }.

(** Decoding into a message: entries of the header are added, and an empty field is not
    transmitted. *)
Definition gob_into (sent old : Message) : Message :=
  mkMessage (m_Header sent ∪ m_Header old) (if String.eqb (m_Body sent) "" then m_Body old else m_Body sent).

Definition zero_message : Message := mkMessage ∅ "".

(** ** Data *)
Record Options := mkOptions { o_Timeout : Z; o_cancelled : bool }.

(** A listener by the pointer to it; [exit] is closed or not. *)
Record memoryListener := mkListener { l_addr : string; l_exit : bool }.

(** The part of a connection its two sockets share. *)
Record pipe := mkPipe { p_listener : nat; p_exit : bool }.

Record memorySocket := mkSocket { s_server : bool; s_pipe : nat; s_local : string; s_remote : string }.

Record memoryTransport := mkTransport {
  t_opts : Options;
  t_listeners : gmap string nat;
  t_heap : list memoryListener;
  t_pipes : list pipe;
}.

Definition NewMemoryTransport (o : Options) : memoryTransport := mkTransport o ∅ [] [].

(** ** Listening *)

(** [i] is the random number. *)
Definition listen_port (i : N) (port : string) : string :=
  if String.eqb port "0" then fmt_N (10000 + i mod 20000) else port.

Definition Listen `{Net} (interfaces : string + list iface) (i : N) (addr : string) (t : memoryTransport) :
    memoryTransport * (string + nat) :=
  match SplitHostPort addr with
  | inl err => (t, inl err)
  | inr (host, port) =>
      match Extract interfaces host with
      | inl err => (t, inl err)
      | inr addr =>
          let addr := HostPort addr (PortText (listen_port i port)) in
          match t_listeners t !! addr with
          | Some _ => (t, inl ("already listening on " +:+ addr))
          | None =>
              let l := length (t_heap t) in
              (mkTransport (t_opts t) (<[addr := l]> (t_listeners t)) (t_heap t ++ [mkListener addr false]) (t_pipes t), inr l)
          end
      end
  end.

Definition close_listener (l : nat) (t : memoryTransport) : memoryTransport :=
  mkTransport (t_opts t) (t_listeners t) (alter (fun x => mkListener (l_addr x) true) l (t_heap t)) (t_pipes t).

(** ** Dialing *)

(** What [Dial] finds before it waits for a goroutine that accepts. *)
Definition dial_listener (addr : string) (t : memoryTransport) : string + nat :=
  match t_listeners t !! addr with
  | None => inl ("could not dial " +:+ addr)
  | Some l => inr l
  end.

(** The two sockets of a connection once it was accepted. *)
Definition connect (l : nat) (t : memoryTransport) : memoryTransport * nat :=
  (mkTransport (t_opts t) (t_listeners t) (t_heap t) (t_pipes t ++ [mkPipe l false]), length (t_pipes t)).

Definition client_socket (p : nat) (addr : string) : memorySocket := mkSocket false p addr addr.

Definition server_socket (c : memorySocket) : memorySocket := mkSocket true (s_pipe c) (s_remote c) (s_local c).

(** ** Sockets *)
Definition close_pipe (p : nat) (t : memoryTransport) : memoryTransport :=
  mkTransport (t_opts t) (t_listeners t) (t_heap t) (alter (fun x => mkPipe (p_listener x) true) p (t_pipes t)).

Definition exited (t : memoryTransport) (p : pipe) : bool :=
  match t_heap t !! p_listener p with Some l => l_exit l | None => false end.

Inductive sock_err := ContextDone | EOF.

(** The cases of the select of [Recv] and [Send] that are ready; with a timeout the
    context may be over as soon as it was made ([over]). *)
Definition ready_cases (over : bool) (t : memoryTransport) (p : pipe) : list sock_err :=
  (if o_cancelled (t_opts t) || (0 <? o_Timeout (t_opts t))%Z && over then [ContextDone] else []) ++
  (if p_exit p then [EOF] else []) ++ (if exited t p then [EOF] else []).

(** What may happen: one of the ready cases, or the default ([None]), in which the
    message is decoded or encoded. *)
Definition select_socket (over : bool) (t : memoryTransport) (p : pipe) : list (option sock_err) :=
  match ready_cases over t p with [] => [None] | es => map Some es end.

(** ** The transport at work

    A message on its way belongs to a pipe and the side that sends it. Next to the
    transport there are the goroutines that accept on a listener, those that wait in
    [Dial] (they hold the transport's read lock), in [Encode] and in [Decode], the
    latter with the message they decode into; [begun] and [got] record, in order, what
    was given to [Encode] and what came out of the other end, with the message that was
    decoded into. *)
Notation item := (nat * bool * Message)%type.

Record world := mkWorld {
  w_t : memoryTransport;
  w_accepting : list nat;
  w_dialing : list (nat * string);
  w_encoding : list item;
  w_decoding : list item;
  w_begun : list item;
  w_got : list (item * Message);
  w_sockets : list memorySocket;
}.

Definition with_t (t : memoryTransport) (x : world) : world :=
  mkWorld t (w_accepting x) (w_dialing x) (w_encoding x) (w_decoding x) (w_begun x) (w_got x) (w_sockets x).

Inductive tstep `{Net} : world -> world -> Prop :=
| t_listen x interfaces i addr t r :
    w_dialing x = [] -> Listen interfaces i addr (w_t x) = (t, r) -> tstep x (with_t t x)
| t_close_listener x l : tstep x (with_t (close_listener l (w_t x)) x)
| t_accept x l : tstep x (mkWorld (w_t x) (l :: w_accepting x) (w_dialing x) (w_encoding x) (w_decoding x) (w_begun x) (w_got x) (w_sockets x))
| t_accept_ends x l a1 a2 ln :
    w_accepting x = a1 ++ l :: a2 -> t_heap (w_t x) !! l = Some ln -> l_exit ln = true ->
    tstep x (mkWorld (w_t x) (a1 ++ a2) (w_dialing x) (w_encoding x) (w_decoding x) (w_begun x) (w_got x) (w_sockets x))
| t_dial x addr l :
    dial_listener addr (w_t x) = inr l ->
    tstep x (mkWorld (w_t x) (w_accepting x) (w_dialing x ++ [(l, addr)]) (w_encoding x) (w_decoding x) (w_begun x) (w_got x) (w_sockets x))
| t_dial_fails x l addr d1 d2 ln :
    w_dialing x = d1 ++ (l, addr) :: d2 -> t_heap (w_t x) !! l = Some ln -> l_exit ln = true ->
    tstep x (mkWorld (w_t x) (w_accepting x) (d1 ++ d2) (w_encoding x) (w_decoding x) (w_begun x) (w_got x) (w_sockets x))
| t_connect x l addr d1 d2 t p :
    w_dialing x = d1 ++ (l, addr) :: d2 -> l ∈ w_accepting x -> connect l (w_t x) = (t, p) ->
    tstep x (mkWorld t (w_accepting x) (d1 ++ d2) (w_encoding x) (w_decoding x) (w_begun x) (w_got x)
               (w_sockets x ++ [client_socket p addr; server_socket (client_socket p addr)]))
| t_close x s : s ∈ w_sockets x -> tstep x (with_t (close_pipe (s_pipe s) (w_t x)) x)
| t_send x s p over m :
    s ∈ w_sockets x -> t_pipes (w_t x) !! s_pipe s = Some p -> None ∈ select_socket over (w_t x) p ->
    tstep x (mkWorld (w_t x) (w_accepting x) (w_dialing x) (w_encoding x ++ [(s_pipe s, s_server s, m)]) (w_decoding x)
               (w_begun x ++ [(s_pipe s, s_server s, m)]) (w_got x) (w_sockets x))
| t_recv x s p over m :
    s ∈ w_sockets x -> t_pipes (w_t x) !! s_pipe s = Some p -> None ∈ select_socket over (w_t x) p ->
    tstep x (mkWorld (w_t x) (w_accepting x) (w_dialing x) (w_encoding x) (w_decoding x ++ [(s_pipe s, s_server s, m)])
               (w_begun x) (w_got x) (w_sockets x))
| t_transfer x p side m old e1 e2 d1 d2 :
    w_encoding x = e1 ++ (p, side, m) :: e2 -> w_decoding x = d1 ++ (p, negb side, old) :: d2 ->
    tstep x (mkWorld (w_t x) (w_accepting x) (w_dialing x) (e1 ++ e2) (d1 ++ d2) (w_begun x)
               (w_got x ++ [(p, side, m, old)]) (w_sockets x)).

Inductive tsteps `{Net} : world -> world -> Prop :=
| tsteps_refl x : tsteps x x
| tsteps_step x y z : tsteps x y -> tstep y z -> tsteps x z.

Definition new_world (o : Options) : world := mkWorld (NewMemoryTransport o) [] [] [] [] [] [] [].

(** ** Listeners *)
Definition listened (a : string) (t : memoryTransport) : memoryTransport :=
  mkTransport (t_opts t) (<[a := length (t_heap t)]> (t_listeners t)) (t_heap t ++ [mkListener a false]) (t_pipes t).

Lemma Listen_cases `{Net} interfaces i addr t t' r :
  Listen interfaces i addr t = (t', r) -> t' = t \/ exists a, t_listeners t !! a = None /\ t' = listened a t.
Proof.
  unfold Listen. destruct (SplitHostPort addr) as [e|[host port]]; [intros [= <- _]; by left|].
  destruct (Extract interfaces host) as [e|ip]; [intros [= <- _]; by left|]. set (a := HostPort ip _).
  destruct (t_listeners t !! a) eqn:Ha; intros Hl; injection Hl as <- _; [by left|]. right. by exists a.
Qed.

Lemma tstep_listeners `{Net} x y a l : tstep x y -> t_listeners (w_t x) !! a = Some l -> t_listeners (w_t y) !! a = Some l.
Proof.
  intros Hs Ha. destruct Hs as [x ifs i addr t r _ Hl| | | | | |x l0 addr d1 d2 t p _ _ Hc| | | |]; cbn; try done.
  - apply Listen_cases in Hl as [->|(a' & Hn & ->)]; [done|]. cbn. rewrite lookup_insert_ne; [done|]. intros ->. congruence.
  - by injection Hc as <- _.
Qed.

Lemma tsteps_listeners `{Net} x y a l : tsteps x y -> t_listeners (w_t x) !! a = Some l -> t_listeners (w_t y) !! a = Some l.
Proof. induction 1 as [|x y z _ IH Hs]; intros Ha; [done|]. eapply tstep_listeners; [done|]. by apply IH. Qed.

(** An address is never free again. After listening on an address has succeeded,
    listening on it fails in every state that follows, also after the listener was
    closed. *)
Theorem address_taken_for_good `{Net} interfaces i addr x t l x' :
  Listen interfaces i addr (w_t x) = (t, inr l) -> tsteps (with_t t x) x' ->
  exists err, Listen interfaces i addr (w_t x') = (w_t x', inl err).
Proof.
  intros Hl Hs. unfold Listen in *. destruct (SplitHostPort addr) as [e|[host port]]; [done|].
  destruct (Extract interfaces host) as [e|ip]; [done|]. set (a := HostPort ip _) in *.
  destruct (t_listeners (w_t x) !! a) as [l'|] eqn:Ha; [done|]. injection Hl as <- <-.
  rewrite (tsteps_listeners _ _ a (length (t_heap (w_t x))) Hs); [by eexists|]. cbn. apply lookup_insert_eq.
Qed.

(** ** Closed connections *)
Lemma tstep_closed `{Net} x y p q :
  tstep x y -> t_pipes (w_t x) !! p = Some q -> p_exit q = true -> exists q', t_pipes (w_t y) !! p = Some q' /\ p_exit q' = true.
Proof.
  intros Hs Hp Hq. destruct Hs as [x ifs i addr t r _ Hl| | | | | |x l0 addr d1 d2 t p0 _ _ Hc|x s _| | |]; cbn; try (by exists q).
  - exists q. split; [|done]. by apply Listen_cases in Hl as [->|(a' & _ & ->)].
  - injection Hc as <- _. exists q. split; [|done]. cbn. by apply lookup_app_l_Some.
  - rewrite list_lookup_alter. destruct (decide (s_pipe s = p)) as [->|Hne]; [|by exists q]. rewrite Hp. by eexists.
Qed.

Lemma closed_select over t q : p_exit q = true -> None ∉ select_socket over t q.
Proof.
  intros Hq Hin. unfold select_socket, ready_cases in Hin. rewrite Hq in Hin. revert Hin.
  destruct (_ || _ && over), (exited t q); cbn; set_solver.
Qed.

(** Nobody is about to send to the side that receives. *)
Definition no_sender (p : nat) (side : bool) (x : world) : Prop :=
  Forall (fun e : item => e.1 <> (p, negb side)) (w_encoding x).

Lemma tstep_stranded `{Net} x y p q side old :
  tstep x y -> t_pipes (w_t x) !! p = Some q -> p_exit q = true -> no_sender p side x ->
  (p, side, old) ∈ w_decoding x -> no_sender p side y /\ (p, side, old) ∈ w_decoding y.
Proof.
  intros Hs Hp Hq Hn Hd. unfold no_sender in *. destruct Hs; cbn; try done.
  - split; [|done]. apply Forall_app. split; [done|]. constructor; [|constructor]. cbn. intros Heq.
    assert (s_pipe s = p) as Hsp by congruence. assert (p0 = q) as -> by congruence. by eapply closed_select.
  - split; [done|]. apply elem_of_app. by left.
  - rewrite H0 in Hn. apply Forall_app in Hn as [He1 Hn]. inversion Hn as [|? ? Hne He2]; subst. split; [by apply Forall_app|].
    rewrite H1 in Hd. apply elem_of_app in Hd as [Hd|[Hd|Hd]%elem_of_cons]; [apply elem_of_app; by left| |apply elem_of_app; by right].
    injection Hd as -> -> _. exfalso. apply Hne. cbn. by rewrite negb_involutive.
Qed.

(** Closing does not wake a receiver. When a connection is closed by either end,
    sending and receiving on it fail from then on, on both ends and whatever the
    timeouts; but a receiver that already waits for a message, with none on its way to
    it, waits in every state that follows. *)
Theorem close_strands_receiver `{Net} x x' p q side old :
  t_pipes (w_t x) !! p = Some q -> p_exit q = true -> no_sender p side x -> (p, side, old) ∈ w_decoding x ->
  tsteps x x' ->
  (p, side, old) ∈ w_decoding x' /\
  exists q', t_pipes (w_t x') !! p = Some q' /\ forall over, None ∉ select_socket over (w_t x') q'.
Proof.
  intros Hp Hq Hn Hd Hs.
  assert (exists q', t_pipes (w_t x') !! p = Some q' /\ p_exit q' = true /\ no_sender p side x' /\ (p, side, old) ∈ w_decoding x')
    as (q' & Hp' & Hq' & _ & Hd').
  { induction Hs as [|x y z _ IH Hyz]; [by exists q|]. destruct (IH Hp Hn Hd) as (q1 & Hp1 & Hq1 & Hn1 & Hd1).
    destruct (tstep_closed y z p q1 Hyz Hp1 Hq1) as (q' & Hp' & Hq'). exists q'.
    destruct (tstep_stranded y z p q1 side old Hyz Hp1 Hq1 Hn1 Hd1). by split_and!. }
  split; [done|]. exists q'. split; [done|]. intros over. by apply closed_select.
Qed.

(** ** What is received *)
Definition on (p : nat) (side : bool) (i : item) : bool := Nat.eqb i.1.1 p && Bool.eqb i.1.2 side.

(** At most one message of each direction is being sent. *)
Definition one_sender (x : world) : Prop := forall p side, length (List.filter (on p side) (w_encoding x)) <= 1.

Definition in_order (x : world) : Prop :=
  forall p side, List.filter (on p side) (w_begun x) =
    List.filter (on p side) (map fst (w_got x)) ++ List.filter (on p side) (w_encoding x).

Inductive orderly `{Net} (x0 : world) : world -> Prop :=
| orderly_refl : one_sender x0 -> orderly x0 x0
| orderly_step x y : orderly x0 x -> tstep x y -> one_sender y -> orderly x0 y.

Lemma tstep_in_order `{Net} x y : tstep x y -> one_sender x -> in_order x -> in_order y.
Proof.
  intros Hs H1 Ho p0 side0. specialize (Ho p0 side0). specialize (H1 p0 side0). destruct Hs; cbn; try exact Ho.
  - rewrite !List.filter_app, Ho. by rewrite app_assoc.
  - rewrite H0 in *. rewrite map_app, !List.filter_app in *. cbn [map fst List.filter] in *.
    revert H1 Ho. destruct (on p0 side0 (p, side, m)); intros H1 Ho; [|by rewrite app_nil_r].
    rewrite length_app in H1. cbn in H1. destruct (List.filter (on p0 side0) e1) as [|]; [|cbn in H1; lia].
    rewrite Ho. by rewrite <- app_assoc.
Qed.

(** Messages arrive in order. When at any moment at most one message is being sent
    in each direction of a connection, what a socket received is, in order, what the
    other socket of its connection sent, the message on its way apart; and a message
    that is received into a new one is the message that was sent. *)
Theorem messages_in_order `{Net} o x p side :
  orderly (new_world o) x ->
  List.filter (on p side) (w_begun x) =
    List.filter (on p side) (map fst (w_got x)) ++ List.filter (on p side) (w_encoding x) /\
  (forall m, gob_into m zero_message = m).
Proof.
  intros Hx. split.
  - assert (one_sender x /\ in_order x) as [_ Ho]; [|apply Ho].
    induction Hx as [H1|x y _ [H1 IH] Hs Hy]; [by split|]. split; [done|]. by eapply tstep_in_order.
  - intros [h b]. unfold gob_into. cbn. rewrite (right_id_L ∅ (∪)). by destruct (String.eqb_spec b "") as [->|].
Qed.

(** ** Connections have two ends *)
Definition ends (p : nat) (x : world) : list memorySocket := List.filter (fun s => Nat.eqb (s_pipe s) p) (w_sockets x).

Definition paired (x : world) : Prop :=
  (forall a l, t_listeners (w_t x) !! a = Some l -> exists ln, t_heap (w_t x) !! l = Some ln /\ l_addr ln = a) /\
  (forall l a, (l, a) ∈ w_dialing x -> t_listeners (w_t x) !! a = Some l) /\
  Forall (fun s => s_pipe s < length (t_pipes (w_t x))) (w_sockets x) /\
  (forall p q, t_pipes (w_t x) !! p = Some q -> exists a, t_listeners (w_t x) !! a = Some (p_listener q) /\
     ends p x = [client_socket p a; server_socket (client_socket p a)]).

(** The invariant does not look at messages and at goroutines that accept. *)
Lemma paired_same x y :
  w_t y = w_t x -> (forall d, d ∈ w_dialing y -> d ∈ w_dialing x) -> w_sockets y = w_sockets x -> paired x -> paired y.
Proof.
  intros Ht Hd Hs (H1 & H2 & H3 & H4). unfold paired, ends. rewrite Ht, Hs. split_and!; [done| |done|done].
  intros l a Hin. by apply H2, Hd.
Qed.

Lemma paired_listen x a : t_listeners (w_t x) !! a = None -> w_dialing x = [] -> paired x -> paired (with_t (listened a (w_t x)) x).
Proof.
  intros Ha Hd (H1 & H2 & H3 & H4). split_and!; cbn.
  - intros a' l Hl. destruct (decide (a = a')) as [->|Hne].
    + rewrite lookup_insert_eq in Hl. injection Hl as <-. exists (mkListener a' false).
      by rewrite lookup_app_r, Nat.sub_diag by lia.
    + rewrite lookup_insert_ne in Hl by done. destruct (H1 _ _ Hl) as (ln & Hln & He). exists ln.
      split; [by apply lookup_app_l_Some|done].
  - rewrite Hd. intros l a' Hin. by apply not_elem_of_nil in Hin.
  - exact H3.
  - intros p q Hq. destruct (H4 p q Hq) as (a' & Ha' & He). exists a'. split; [|exact He].
    rewrite lookup_insert_ne; [done|]. intros ->. congruence.
Qed.

Lemma paired_connect x l addr d1 d2 :
  w_dialing x = d1 ++ (l, addr) :: d2 -> paired x ->
  paired (mkWorld (connect l (w_t x)).1 (w_accepting x) (d1 ++ d2) (w_encoding x) (w_decoding x) (w_begun x) (w_got x)
    (w_sockets x ++ [client_socket (length (t_pipes (w_t x))) addr;
                     server_socket (client_socket (length (t_pipes (w_t x))) addr)])).
Proof.
  intros Hd (H1 & H2 & H3 & H4). assert (t_listeners (w_t x) !! addr = Some l) as Hl.
  { apply H2. rewrite Hd. apply elem_of_app. right. apply elem_of_cons. by left. }
  set (n := length (t_pipes (w_t x))) in *. unfold paired, ends. cbn. rewrite length_app. cbn. split_and!.
  - exact H1.
  - intros l' a Hin. apply H2. rewrite Hd. set_solver.
  - apply Forall_app. split; [eapply Forall_impl; [exact H3|]; cbn; lia|]. repeat constructor; cbn; fold n; lia.
  - intros p q Hq. rewrite List.filter_app. cbn. destruct (Nat.eqb_spec n p) as [<-|Hne].
    + rewrite lookup_app_r, Nat.sub_diag in Hq by done. injection Hq as <-. exists addr. split; [done|].
      assert (List.filter (fun s => Nat.eqb (s_pipe s) n) (w_sockets x) = []) as ->; [|done].
      clear -H3. induction H3 as [|s ss Hs _ IH]; [done|]. cbn. by rewrite (proj2 (Nat.eqb_neq _ _)) by (fold n in Hs; lia).
    + rewrite app_nil_r. apply H4. rewrite lookup_app_l in Hq; [done|]. apply lookup_lt_Some in Hq. rewrite length_app in Hq. cbn in Hq. fold n in Hq |- *. lia.
Qed.

Lemma tstep_paired `{Net} x y : tstep x y -> paired x -> paired y.
Proof.
  intros Hs Hp. destruct Hs as [x ifs i addr t r Hd Hl|x l| |x l a1 a2 ln Ha _ _|x addr l Hl|x l addr d1 d2 ln Hd _ _
    |x l addr d1 d2 t p Hd _ Hc|x s _| | |].
  - apply Listen_cases in Hl as [->|(a & Ha & ->)]; [by destruct x|by apply paired_listen].
  - destruct Hp as (H1 & H2 & H3 & H4). split_and!; [|exact H2|exact H3|exact H4]. cbn. intros a l' Hl'.
    destruct (H1 _ _ Hl') as (ln & Hln & He). rewrite list_lookup_alter. destruct (decide (l = l')) as [->|]; [|by exists ln].
    rewrite Hln. by eexists.
  - by eapply paired_same.
  - by eapply paired_same.
  - destruct Hp as (H1 & H2 & H3 & H4). split_and!; [exact H1| |exact H3|exact H4]. cbn. intros l' a [Hin|Hin]%elem_of_app; [by apply H2|].
    apply list_elem_of_singleton in Hin as [= -> ->]. unfold dial_listener in Hl. destruct (t_listeners _ !! addr); by simplify_eq.
  - apply (paired_same x); [done| |done|exact Hp]. cbn. intros d. rewrite Hd. set_solver.
  - injection Hc as <- <-. by apply (paired_connect x l addr d1 d2).
  - destruct Hp as (H1 & H2 & H3 & H4). split_and!; cbn; [exact H1|exact H2|by rewrite length_alter|]. intros p q Hq.
    rewrite list_lookup_alter in Hq. destruct (decide (s_pipe s = p)) as [Hsp|Hne]; [|exact (H4 p q Hq)].
    destruct (t_pipes (w_t x) !! p) as [q0|] eqn:Hq0; [|rewrite Hsp, Hq0 in Hq; done].
    rewrite Hsp, Hq0 in Hq. injection Hq as <-. exact (H4 p q0 Hq0).
  - by eapply paired_same.
  - by eapply paired_same.
  - by eapply paired_same.
Qed.

Lemma tsteps_paired `{Net} x y : tsteps x y -> paired x -> paired y.
Proof. induction 1 as [|x y z _ IH Hs]; [done|]. intros Hp. by eapply tstep_paired; [|apply IH]. Qed.

Lemma new_paired o : paired (new_world o).
Proof.
  split_and!; cbn; [|by intros ? ? ?%not_elem_of_nil|constructor|done].
  intros a l Hl. by rewrite lookup_empty in Hl.
Qed.

(** A connection has two ends. In every reachable state each connection belongs to
    the listener of the address that was dialed and has exactly two sockets, a client's
    and a server's, each with the other's local address as its remote one. *)
Theorem connection_ends `{Net} o x p q :
  tsteps (new_world o) x -> t_pipes (w_t x) !! p = Some q ->
  exists a ln c s, t_heap (w_t x) !! p_listener q = Some ln /\ l_addr ln = a /\ ends p x = [c; s] /\
    s_server c = false /\ s_server s = true /\ s_remote c = a /\ s_local s = s_remote c /\ s_remote s = s_local c.
Proof.
  intros Hx Hq. destruct (tsteps_paired _ _ Hx (new_paired o)) as (H1 & _ & _ & H4).
  destruct (H4 p q Hq) as (a & Ha & He). destruct (H1 _ _ Ha) as (ln & Hln & Hla).
  exists a, ln. eexists _, _. split; [exact Hln|]. split; [exact Hla|]. split; [exact He|]. by split_and!.
Qed.

(** ** Examples and witnesses *)
#[local] Instance ex_Net : Net := {| SplitHostPort a := inr ("", a); ParseIP := fun _ => false |}.

Definition ex_ifaces : string + list iface := inr [mkIface true (Some [IPNet (mkIP "127.0.0.1" true false)])].
Definition ex_new : world := new_world (mkOptions 0 false).

Lemma tsteps_cons `{Net} x y z : tstep x y -> tsteps y z -> tsteps x z.
Proof.
  intros Hxy Hyz. induction Hyz as [|y a b _ IH Hab]; [by eapply tsteps_step; [apply tsteps_refl|]|].
  eapply tsteps_step; [by apply IH|done].
Qed.

Definition ex_listening : world := with_t (Listen ex_ifaces 0 "80" (w_t ex_new)).1 ex_new.

Lemma address_taken_for_good_witness :
  exists err, Listen ex_ifaces 0 "80" (w_t (with_t (close_listener 0 (w_t ex_listening)) ex_listening)) =
    (w_t (with_t (close_listener 0 (w_t ex_listening)) ex_listening), inl err).
Proof.
  apply (address_taken_for_good ex_ifaces 0 "80" ex_new (w_t ex_listening) 0); [vm_compute; reflexivity|].
  eapply tsteps_cons; [apply (t_close_listener _ 0)|apply tsteps_refl].
Defined.

(** A connection on which the server waits for a message. *)
Definition ex_sock : memorySocket := client_socket 0 "127.0.0.1:80".
Definition ex_m : Message := mkMessage {["k" := "v"]} "hello".

Definition ex_connected : world :=
  mkWorld (connect 0 (w_t ex_listening)).1 [0] [] [] [] [] [] [ex_sock; server_socket ex_sock].

Lemma orderly_cons `{Net} x y z : one_sender x -> tstep x y -> orderly y z -> orderly x z.
Proof.
  intros H1 Hxy Hyz. induction Hyz as [Hy|a b _ IH Hab Hb]; [by eapply orderly_step; [apply orderly_refl| |]|].
  by eapply orderly_step.
Qed.

Lemma no_encoding x : w_encoding x = [] -> one_sender x.
Proof. intros He p side. rewrite He. cbn. lia. Qed.

Lemma orderly_tsteps `{Net} x y : orderly x y -> tsteps x y.
Proof. induction 1 as [|x1 y1 _ IH Hs _]; [apply tsteps_refl|by eapply tsteps_step]. Qed.

Lemma ex_connected_orderly : orderly ex_new ex_connected.
Proof.
  eapply orderly_cons; [apply no_encoding; reflexivity|eapply (t_listen ex_new ex_ifaces 0 "80"); [reflexivity|vm_compute; reflexivity]|].
  eapply orderly_cons; [apply no_encoding; reflexivity|apply (t_accept _ 0)|].
  eapply orderly_cons; [apply no_encoding; reflexivity|apply (t_dial _ "127.0.0.1:80" 0); vm_compute; reflexivity|].
  eapply orderly_cons; [apply no_encoding; reflexivity|
    eapply (t_connect _ 0 "127.0.0.1:80" [] []); [reflexivity|by apply list_elem_of_singleton|vm_compute; reflexivity]|].
  vm_compute. apply orderly_refl. apply no_encoding; reflexivity.
Qed.

Lemma ex_connected_steps : tsteps ex_new ex_connected.
Proof. apply orderly_tsteps, ex_connected_orderly. Qed.

Lemma connection_ends_witness :
  exists a ln c s, t_heap (w_t ex_connected) !! 0 = Some ln /\ l_addr ln = a /\ ends 0 ex_connected = [c; s] /\
    s_server c = false /\ s_server s = true /\ s_remote c = a /\ s_local s = s_remote c /\ s_remote s = s_local c.
Proof. apply (connection_ends (mkOptions 0 false) ex_connected 0 (mkPipe 0 false)); [exact ex_connected_steps|reflexivity]. Defined.

(** The client closes while the server waits in [Decode]. *)
Definition ex_closed : world :=
  mkWorld (close_pipe 0 (w_t ex_connected)) [0] [] [] [(0, true, zero_message)] [] [] (w_sockets ex_connected).

Lemma close_strands_receiver_witness :
  tsteps ex_new ex_closed /\ (0, true, zero_message) ∈ w_decoding ex_closed /\
  exists q', t_pipes (w_t ex_closed) !! 0 = Some q' /\ forall over, None ∉ select_socket over (w_t ex_closed) q'.
Proof.
  split.
  - eapply tsteps_step; [eapply tsteps_step; [exact ex_connected_steps|]|].
    + apply (t_recv ex_connected (server_socket ex_sock) (mkPipe 0 false) false zero_message);
        [vm_compute; set_solver|reflexivity|vm_compute; set_solver].
    + match goal with |- tstep ?x _ => apply (t_close x ex_sock) end. vm_compute. set_solver.
  - apply (close_strands_receiver ex_closed ex_closed 0 (mkPipe 0 true) true zero_message);
      [reflexivity|reflexivity|constructor|by apply list_elem_of_singleton|apply tsteps_refl].
Defined.

(** The client sends; the server, which waits for it, receives. *)
Definition ex_waiting : world :=
  mkWorld (w_t ex_connected) [0] [] [] [(0, true, zero_message)] [] [] (w_sockets ex_connected).
Definition ex_sending : world :=
  mkWorld (w_t ex_connected) [0] [] [(0, false, ex_m)] [(0, true, zero_message)] [(0, false, ex_m)] [] (w_sockets ex_connected).
Definition ex_received : world :=
  mkWorld (w_t ex_connected) [0] [] [] [] [(0, false, ex_m)] [(0, false, ex_m, zero_message)] (w_sockets ex_connected).

Lemma ex_received_orderly : orderly ex_new ex_received.
Proof.
  apply (orderly_step _ ex_sending); [|apply (t_transfer ex_sending 0 false ex_m zero_message [] [] [] []); reflexivity|apply no_encoding; reflexivity].
  apply (orderly_step _ ex_waiting); [| |intros p side; cbn; by destruct (on p side _); cbn; lia].
  - apply (orderly_step _ ex_connected); [exact ex_connected_orderly| |apply no_encoding; reflexivity].
    apply (t_recv ex_connected (server_socket ex_sock) (mkPipe 0 false) false zero_message);
      [vm_compute; set_solver|reflexivity|vm_compute; set_solver].
  - apply (t_send ex_waiting ex_sock (mkPipe 0 false) false ex_m); [vm_compute; set_solver|reflexivity|vm_compute; set_solver].
Qed.

Lemma messages_in_order_witness :
  List.filter (on 0 false) (w_begun ex_received) =
    List.filter (on 0 false) (map fst (w_got ex_received)) ++ List.filter (on 0 false) (w_encoding ex_received) /\
  (forall m, gob_into m zero_message = m).
Proof. apply (messages_in_order (mkOptions 0 false) ex_received 0 false). exact ex_received_orderly. Defined.

(** What is left of an older message when one is received into it. *)
Example stale_fields : gob_into (mkMessage {["a" := "1"]} "") (mkMessage {["b" := "2"]} "old") = mkMessage {["a" := "1"; "b" := "2"]} "old".
Proof. by vm_compute. Qed.
