(* ===== verification/Mdns.v ===== *)
(** * Multicast DNS: [util/mdns/zone.go], [dns_sd.go], [server.go], [client.go]

    Which records a service answers a question with, what a server makes of a query, and
    how a client puts the records of responses together into entries. Packing a message
    and unpacking it again is taken to give the message. Looking up the host is an
    argument. The entries in progress are shared between names, so they are kept in a
    heap of their own. *)
From S2P Require Import Prelude GoStrings.

(** ** Names and addresses *)

(** [strings.Trim] of dots. *)
Fixpoint trim_dot_left (s : string) : string :=
  match s with
  | String a r => if Ascii.eqb a "." then trim_dot_left r else s
  | "" => ""
  end.

Fixpoint trim_dot_right (s : string) : string :=
  match s with
  | "" => ""
  | String a r => match trim_dot_right r with "" => if Ascii.eqb a "." then "" else String a "" | t => String a t end
  end.

Definition trimDot (s : string) : string := trim_dot_right (trim_dot_left s).

Definition trim_suffix (s p : string) : string :=
  if has_suffix s p then str_take (String.length s - String.length p) s else s.

(** A [net.IP] by the text it prints as: one that [To4] knows, one that only [To16]
    knows, or neither. *)
Inductive ip := V4 (text : string) | V6 (text : string) | NoIP.

(** ** Records and messages *)
Definition TypeNone : Z := 0.
Definition TypeA : Z := 1.
Definition TypePTR : Z := 12.
Definition TypeTXT : Z := 16.
Definition TypeAAAA : Z := 28.
Definition TypeSRV : Z := 33.
Definition TypeANY : Z := 255.

Record question := mkQuestion { q_Name : string; q_Qtype : Z; q_Qclass : Z }.

(** A record with its owner and time to live. *)
Inductive rdata :=
| PTR (ptr : string)
| SRV (port : Z) (target : string)
| TXT (txt : list string)
| A (a : string)
| AAAA (aaaa : string)
| OtherRR.

Record rr := mkRR { rr_Name : string; rr_Ttl : Z; rr_data : rdata }.

Record Msg := mkMsg {
  m_Id : Z;
  m_Response : bool;
  m_Opcode : Z;
  m_Rcode : Z;
  m_Question : list question;
  m_Answer : list rr;
  m_Extra : list rr;
}.

(** ** zone.go *)
Definition defaultTTL : Z := 120.

Record MDNSService := mkService {
  Instance_ : string;
  Service_ : string;
  Domain : string;
  HostName : string;
  serviceAddr : string;
  instanceAddr : string;
  enumAddr : string;
  IPs : list ip;
  TXT_ : list string;
  Port : Z;
  TTL : Z;
}.

Definition validateFQDN (s : string) : bool := has_suffix s ".".

Inductive zone_err :=
| MissingInstance | MissingService | MissingPort | BadDomain | HostnameFailed (e : string) | BadHostName | NoAddresses | InvalidIP.

Section new_service.
Context (Hostname : string + string) (LookupIP : string -> option (list ip)).

Definition host_ips (hostName domain : string) (ips : list ip) : option (list ip) :=
  match ips with
  | [] => match LookupIP (trimDot hostName) with Some ips => Some ips | None => LookupIP (trimDot (hostName +:+ domain)) end
  | _ => Some ips
  end.

Definition NewMDNSService (instance service domain hostName : string) (port : Z) (ips : list ip) (txt : list string) :
    zone_err + MDNSService :=
  if String.eqb instance "" then inl MissingInstance
  else if String.eqb service "" then inl MissingService
  else if (port =? 0)%Z then inl MissingPort
  else
    let domain := if String.eqb domain "" then "local." else domain in
    if negb (validateFQDN domain) then inl BadDomain
    else
      match (if String.eqb hostName "" then match Hostname with inl e => inl e | inr h => inr (h +:+ ".") end else inr hostName) with
      | inl e => inl (HostnameFailed e)
      | inr hostName =>
          if negb (validateFQDN hostName) then inl BadHostName
          else
            match host_ips hostName domain ips with
            | None => inl NoAddresses
            | Some ips =>
                if existsb (fun i => match i with NoIP => true | _ => false end) ips then inl InvalidIP
                else
                  inr (mkService instance service domain hostName
                         (trimDot service +:+ "." +:+ trimDot domain +:+ ".")
                         (instance +:+ "." +:+ trimDot service +:+ "." +:+ trimDot domain +:+ ".")
                         ("_services._dns-sd._udp." +:+ trimDot domain +:+ ".") ips txt port defaultTTL)
            end
      end.
End new_service.

(** [uint16(port)] *)
Definition uint16 (z : Z) : Z := (z mod 65536)%Z.

Definition a_records (m : MDNSService) : list rr :=
  omap (fun i => match i with V4 t => Some (mkRR (HostName m) (TTL m) (A t)) | _ => None end) (IPs m).

Definition aaaa_records (m : MDNSService) : list rr :=
  omap (fun i => match i with V6 t => Some (mkRR (HostName m) (TTL m) (AAAA t)) | _ => None end) (IPs m).

Definition srv_records (name : string) (m : MDNSService) : list rr :=
  mkRR name (TTL m) (SRV (uint16 (Port m)) (HostName m)) :: a_records m ++ aaaa_records m.

Definition txt_records (name : string) (m : MDNSService) : list rr := [mkRR name (TTL m) (TXT (TXT_ m))].

Definition instanceRecords (q : question) (m : MDNSService) : list rr :=
  if (q_Qtype q =? TypeANY)%Z then srv_records (instanceAddr m) m ++ txt_records (instanceAddr m) m
  else if (q_Qtype q =? TypeA)%Z then a_records m
  else if (q_Qtype q =? TypeAAAA)%Z then aaaa_records m
  else if (q_Qtype q =? TypeSRV)%Z then srv_records (q_Name q) m
  else if (q_Qtype q =? TypeTXT)%Z then txt_records (q_Name q) m
  else [].

Definition any_or_ptr (q : question) : bool := (q_Qtype q =? TypeANY)%Z || (q_Qtype q =? TypePTR)%Z.

Definition serviceEnum (q : question) (m : MDNSService) : list rr :=
  if any_or_ptr q then [mkRR (q_Name q) (TTL m) (PTR (serviceAddr m))] else [].

Definition serviceRecords (q : question) (m : MDNSService) : list rr :=
  if any_or_ptr q
  then mkRR (q_Name q) (TTL m) (PTR (instanceAddr m)) :: instanceRecords (mkQuestion (instanceAddr m) TypeANY 0) m
  else [].

Definition Records (q : question) (m : MDNSService) : list rr :=
  if String.eqb (q_Name q) (enumAddr m) then serviceEnum q m
  else if String.eqb (q_Name q) (serviceAddr m) then serviceRecords q m
  else if String.eqb (q_Name q) (instanceAddr m) then instanceRecords q m
  else if String.eqb (q_Name q) (HostName m) && ((q_Qtype q =? TypeA)%Z || (q_Qtype q =? TypeAAAA)%Z) then instanceRecords q m
  else [].

(** ** dns_sd.go and the zones of a server *)
Inductive zone := Plain (m : MDNSService) | DNSSD (m : MDNSService).

Definition zone_service (z : zone) : MDNSService := match z with Plain m | DNSSD m => m end.

Definition dnssdMetaQueryRecords (q : question) (m : MDNSService) : list rr :=
  [mkRR (q_Name q) defaultTTL (PTR (serviceAddr m))].

Definition zone_Records (q : question) (z : zone) : list rr :=
  match z with
  | Plain m => Records q m
  | DNSSD m =>
      (if String.eqb (q_Name q) ("_services._dns-sd._udp." +:+ Domain m +:+ ".") then dnssdMetaQueryRecords q m else []) ++
      Records q m
  end.

(** ** server.go *)

(** The records to send by multicast and by unicast. *)
Definition handleQuestion (z : zone) (q : question) : list rr * list rr :=
  match zone_Records q z with
  | [] => ([], [])
  | records => if (0 <? Z.land (q_Qclass q) (2 ^ 15))%Z then ([], records) else (records, [])
  end.

Definition response (id : Z) (query : Msg) (answer : list rr) : list Msg :=
  match answer with [] => [] | _ => [mkMsg id true 0 0 (m_Question query) answer []] end.

(** The responses to a query; [None] when it is refused. *)
Definition handleQuery (z : zone) (query : Msg) : option (list Msg) :=
  if negb (m_Opcode query =? 0)%Z || negb (m_Rcode query =? 0)%Z then None
  else
    let recs := map (handleQuestion z) (m_Question query) in
    Some (response 0 query (concat (map fst recs)) ++ response (m_Id query) query (concat (map snd recs))).

Definition set_TTL (ttl : Z) (m : MDNSService) : MDNSService :=
  mkService (Instance_ m) (Service_ m) (Domain m) (HostName m) (serviceAddr m) (instanceAddr m) (enumAddr m) (IPs m) (TXT_ m) (Port m) ttl.

Definition own_name (m : MDNSService) : string :=
  Instance_ m +:+ "." +:+ trimDot (Service_ m) +:+ "." +:+ trimDot (Domain m) +:+ ".".

Definition unsolicited (m : MDNSService) : Msg :=
  mkMsg 0 true 0 0 [] (Records (mkQuestion (own_name m) TypeANY 0) m) [].

(** What [probe] announces and what [unregister] sends when the server shuts down. *)
Definition announcement (z : zone) : option Msg := match z with Plain m => Some (unsolicited m) | DNSSD _ => None end.

Definition unregister (z : zone) : zone * option Msg :=
  match z with
  | Plain m => let m := set_TTL 0 m in (Plain m, Some (unsolicited m))
  | DNSSD m => (DNSSD m, None)
  end.

(** ** client.go *)
Record ServiceEntry := mkEntry {
  e_Name : string;
  e_Host : string;
  e_AddrV4 : option string;
  e_AddrV6 : option string;
  e_InfoFields : list string;
  e_Addr : option string;
  e_Port : Z;
  e_TTL : Z;
  e_Type : Z;
  e_hasTXT : bool;
  e_sent : bool;
}.

Definition complete (e : ServiceEntry) : bool :=
  (bool_decide (is_Some (e_AddrV4 e)) || bool_decide (is_Some (e_AddrV6 e)) || bool_decide (is_Some (e_Addr e))) &&
  negb (e_Port e =? 0)%Z && e_hasTXT e.

(** The entries in progress and the names that lead to them. *)
Record progress := mkProgress { pr_heap : list ServiceEntry; pr_names : gmap string nat }.

Definition no_progress : progress := mkProgress [] ∅.

Definition ensureName (name : string) (typ : Z) (p : progress) : progress * nat :=
  match pr_names p !! name with
  | Some i => (p, i)
  | None =>
      let i := length (pr_heap p) in
      (mkProgress (pr_heap p ++ [mkEntry name "" None None [] None 0 0 typ false false]) (<[name := i]> (pr_names p)), i)
  end.

Definition alias (src dst : string) (typ : Z) (p : progress) : progress :=
  let '(p, i) := ensureName src typ p in mkProgress (pr_heap p) (<[dst := i]> (pr_names p)).

Definition set_ttl (ttl : Z) (e : ServiceEntry) : ServiceEntry :=
  mkEntry (e_Name e) (e_Host e) (e_AddrV4 e) (e_AddrV6 e) (e_InfoFields e) (e_Addr e) (e_Port e) ttl (e_Type e) (e_hasTXT e) (e_sent e).

Definition put_data (d : rdata) (e : ServiceEntry) : ServiceEntry :=
  match d with
  | SRV port target =>
      mkEntry (e_Name e) target (e_AddrV4 e) (e_AddrV6 e) (e_InfoFields e) (e_Addr e) port (e_TTL e) (e_Type e) (e_hasTXT e) (e_sent e)
  | TXT txt =>
      mkEntry (e_Name e) (e_Host e) (e_AddrV4 e) (e_AddrV6 e) txt (e_Addr e) (e_Port e) (e_TTL e) (e_Type e) true (e_sent e)
  | A a =>
      mkEntry (e_Name e) (e_Host e) (Some a) (e_AddrV6 e) (e_InfoFields e) (Some a) (e_Port e) (e_TTL e) (e_Type e) (e_hasTXT e) (e_sent e)
  | AAAA a =>
      mkEntry (e_Name e) (e_Host e) (e_AddrV4 e) (Some a) (e_InfoFields e) (Some a) (e_Port e) (e_TTL e) (e_Type e) (e_hasTXT e) (e_sent e)
  | _ => e
  end.

Definition rrtype (d : rdata) : Z :=
  match d with PTR _ => TypePTR | SRV _ _ => TypeSRV | TXT _ => TypeTXT | A _ => TypeA | AAAA _ => TypeAAAA | OtherRR => TypeNone end.

Definition update_entry (f : ServiceEntry -> ServiceEntry) (i : nat) (p : progress) : progress :=
  mkProgress (alter f i (pr_heap p)) (pr_names p).

Definition is_complete (i : nat) (p : progress) : bool :=
  match pr_heap p !! i with Some e => complete e | None => false end.

(** The entry a record is for. *)
Definition record_entry (r : rr) (p : progress) : progress * nat :=
  match rr_data r with
  | PTR ptr => ensureName ptr TypePTR p
  | SRV _ target =>
      ensureName (rr_Name r) TypeSRV (if String.eqb target (rr_Name r) then p else alias (rr_Name r) target TypeSRV p)
  | d => ensureName (rr_Name r) (rrtype d) p
  end.

(** One record; the entry of the record before it is kept for one of another type. *)
Definition record_step (acc : progress * option nat) (r : rr) : progress * option nat :=
  let '(p, inp) := acc in
  match rr_data r with
  | OtherRR => (match inp with Some i => update_entry (set_ttl (rr_Ttl r)) i p | None => p end, inp)
  | d =>
      let '(p, i) := record_entry r p in
      if is_complete i p then (p, Some i)
      else (update_entry (fun e => set_ttl (rr_Ttl r) (put_data d e)) i p, Some i)
  end.

Definition messageToEntry (m : Msg) (p : progress) : progress * option nat :=
  foldl record_step (p, None) (m_Answer m ++ m_Extra m).

(** What the loops do with a message: an entry for the caller, or a question about one
    that is not complete. *)
Inductive action := Emit (e : ServiceEntry) | Ask (name : string) (typ : Z).

Definition set_sent (e : ServiceEntry) : ServiceEntry :=
  mkEntry (e_Name e) (e_Host e) (e_AddrV4 e) (e_AddrV6 e) (e_InfoFields e) (e_Addr e) (e_Port e) (e_TTL e) (e_Type e) (e_hasTXT e) true.

Definition query_step (name : string) (resp : Msg) (p : progress) : progress * option action :=
  match messageToEntry resp p with
  | (p, None) => (p, None)
  | (p, Some i) =>
      match m_Question resp, pr_heap p !! i with
      | q :: _, Some e =>
          if negb (String.eqb (q_Name q) name) then (p, None)
          else if complete e then
            if e_sent e then (p, None) else (update_entry set_sent i p, Some (Emit (set_sent e)))
          else (p, Some (Ask (e_Name e) (e_Type e)))
      | _, _ => (p, None)
      end
  end.

Definition listen_step (m : Msg) (p : progress) : progress * option action :=
  match messageToEntry m p with
  | (p, None) => (p, None)
  | (p, Some i) =>
      match pr_heap p !! i with
      | Some e =>
          if complete e then
            if e_sent e then (p, None) else (no_progress, Some (Emit (set_sent e)))
          else (p, Some (Ask (e_Name e) TypePTR))
      | None => (p, None)
      end
  end.

Definition query_name (service domain : string) : string := trimDot service +:+ "." +:+ trimDot domain +:+ ".".

(** The entries a query gets from responses in the order they arrive. *)
Fixpoint query_run (name : string) (resps : list Msg) (p : progress) : list ServiceEntry :=
  match resps with
  | [] => []
  | resp :: resps =>
      let '(p, act) := query_step name resp p in
      match act with Some (Emit e) => [e] | _ => [] end ++ query_run name resps p
  end.

(** ** A service that is asked for is found *)

(** The services of a network: each with an IPv4 address and a port, no host named as
    an instance. *)
Record reachable_service (m : MDNSService) (a : string) : Prop := {
  rs_ip : IPs m = [V4 a];
  rs_port : uint16 (Port m) <> 0%Z;
}.

Definition entry_of (m : MDNSService) (a : string) : ServiceEntry :=
  mkEntry (instanceAddr m) (HostName m) (Some a) None (TXT_ m) (Some a) (uint16 (Port m)) (TTL m) TypePTR true true.

(** What the service sends to one who asks for its address. *)
Definition reply_to (q : question) (m : MDNSService) : Msg := mkMsg 0 true 0 0 [q] (serviceRecords q m) [].

Lemma update_last f h e n : update_entry f (length h) (mkProgress (h ++ [e]) n) = mkProgress (h ++ [f e]) n.
Proof. unfold update_entry. cbn. f_equal. by rewrite alter_app_r_alt, Nat.sub_diag. Qed.

Lemma record_step_put p inp r h e n :
  record_entry r p = (mkProgress (h ++ [e]) n, length h) -> e_hasTXT e = false -> rr_data r <> OtherRR ->
  record_step (p, inp) r = (mkProgress (h ++ [set_ttl (rr_Ttl r) (put_data (rr_data r) e)]) n, Some (length h)).
Proof.
  intros Hr He Hd. unfold record_step. destruct (rr_data r) eqn:Hrd; try done; rewrite Hr; unfold is_complete; cbn [pr_heap];
    rewrite lookup_app_r, Nat.sub_diag by lia; cbn [lookup list_lookup]; unfold complete; rewrite He, andb_false_r; by rewrite update_last.
Qed.

Lemma ensureName_known name typ p i : pr_names p !! name = Some i -> ensureName name typ p = (p, i).
Proof. intros Hi. unfold ensureName. by rewrite Hi. Qed.

(** The records of one service. *)
Lemma serviceRecords_list q m a :
  any_or_ptr q = true -> IPs m = [V4 a] ->
  serviceRecords q m =
    [mkRR (q_Name q) (TTL m) (PTR (instanceAddr m)); mkRR (instanceAddr m) (TTL m) (SRV (uint16 (Port m)) (HostName m));
     mkRR (HostName m) (TTL m) (A a); mkRR (instanceAddr m) (TTL m) (TXT (TXT_ m))].
Proof.
  intros Hq Hip. unfold serviceRecords. rewrite Hq. unfold instanceRecords. cbn [q_Qtype]. change (TypeANY =? TypeANY)%Z with true.
  unfold srv_records, a_records, aaaa_records, txt_records. rewrite Hip. done.
Qed.

Lemma reply_new q m a p :
  any_or_ptr q = true -> reachable_service m a -> HostName m <> instanceAddr m -> pr_names p !! instanceAddr m = None ->
  messageToEntry (reply_to q m) p =
    (mkProgress (pr_heap p ++ [mkEntry (instanceAddr m) (HostName m) (Some a) None (TXT_ m) (Some a) (uint16 (Port m)) (TTL m) TypePTR true false])
       (<[HostName m := length (pr_heap p)]> (<[instanceAddr m := length (pr_heap p)]> (pr_names p))),
     Some (length (pr_heap p))).
Proof.
  intros Hq [Hip _] Hh Hn. unfold messageToEntry, reply_to. cbn [m_Answer m_Extra]. rewrite (serviceRecords_list q m a Hq Hip). cbn [app foldl].
  set (names1 := <[instanceAddr m := length (pr_heap p)]> (pr_names p)). set (names2 := <[HostName m := length (pr_heap p)]> names1).
  assert (names1 !! instanceAddr m = Some (length (pr_heap p))) as H1 by apply lookup_insert_eq.
  assert (names2 !! instanceAddr m = Some (length (pr_heap p))) as H2 by (unfold names2; by rewrite lookup_insert_ne).
  assert (names2 !! HostName m = Some (length (pr_heap p))) as H3 by apply lookup_insert_eq.
  erewrite (record_step_put p None _ (pr_heap p)); [|unfold record_entry, ensureName; cbn; by rewrite Hn|done|done].
  erewrite (record_step_put _ _ (mkRR (instanceAddr m) _ _) (pr_heap p)); [|unfold record_entry; cbn [rr_data rr_Name];
    rewrite (proj2 (String.eqb_neq (HostName m) (instanceAddr m))) by done; unfold alias; rewrite (ensureName_known _ _ (mkProgress _ names1) _ H1);
    exact (ensureName_known _ _ (mkProgress _ names2) _ H2)|done|done].
  erewrite (record_step_put _ _ (mkRR (HostName m) _ _) (pr_heap p)); [|exact (ensureName_known _ _ (mkProgress _ names2) _ H3)|done|done].
  erewrite (record_step_put _ _ (mkRR (instanceAddr m) _ _) (pr_heap p)); [|exact (ensureName_known _ _ (mkProgress _ names2) _ H2)|done|done].
  done.
Qed.

Lemma record_step_skip p inp r p' i :
  record_entry r p = (p', i) -> is_complete i p' = true -> rr_data r <> OtherRR -> record_step (p, inp) r = (p', Some i).
Proof. intros Hr Hc Hd. unfold record_step. destruct (rr_data r); try done; by rewrite Hr, Hc. Qed.

Lemma reply_known q m a p i :
  any_or_ptr q = true -> IPs m = [V4 a] -> HostName m <> instanceAddr m ->
  pr_names p !! instanceAddr m = Some i -> is_complete i p = true ->
  messageToEntry (reply_to q m) p = (mkProgress (pr_heap p) (<[HostName m := i]> (pr_names p)), Some i).
Proof.
  intros Hq Hip Hh Hn Hc. unfold messageToEntry, reply_to. cbn [m_Answer m_Extra]. rewrite (serviceRecords_list q m a Hq Hip). cbn [app foldl].
  set (p2 := mkProgress (pr_heap p) (<[HostName m := i]> (pr_names p))).
  assert (pr_names p2 !! instanceAddr m = Some i) as H2 by (cbn; by rewrite lookup_insert_ne).
  assert (pr_names p2 !! HostName m = Some i) as H3 by apply lookup_insert_eq.
  assert (is_complete i p2 = true) as Hc2 by exact Hc.
  erewrite (record_step_skip p None _ p i); [|exact (ensureName_known _ _ p _ Hn)|done|done].
  erewrite (record_step_skip p _ (mkRR (instanceAddr m) _ _) p2 i); [|unfold record_entry; cbn [rr_data rr_Name];
    rewrite (proj2 (String.eqb_neq (HostName m) (instanceAddr m))) by done; unfold alias; rewrite (ensureName_known _ _ p _ Hn);
    exact (ensureName_known _ _ p2 _ H2)|done|done].
  erewrite (record_step_skip p2 _ (mkRR (HostName m) _ _) p2 i); [|exact (ensureName_known _ _ p2 _ H3)|done|done].
  erewrite (record_step_skip p2 _ (mkRR (instanceAddr m) _ _) p2 i); [|exact (ensureName_known _ _ p2 _ H2)|done|done].
  done.
Qed.

(** The services that answer, in the order in which they do so first. *)
Fixpoint firsts (seen : list string) (ms : list (MDNSService * string)) : list (MDNSService * string) :=
  match ms with
  | [] => []
  | m :: ms =>
      if bool_decide (instanceAddr m.1 ∈ seen) then firsts seen ms else m :: firsts (instanceAddr m.1 :: seen) ms
  end.

(** No host is named as an instance. *)
Definition hosts_apart (ms : list (MDNSService * string)) : Prop :=
  forall m m', m ∈ ms -> m' ∈ ms -> HostName m.1 <> instanceAddr m'.1.

Definition seen_ok (seen : list string) (ms : list (MDNSService * string)) (p : progress) : Prop :=
  (forall x, x ∈ seen -> exists i e, pr_names p !! x = Some i /\ pr_heap p !! i = Some e /\ complete e = true /\ e_sent e = true) /\
  (forall m, m ∈ ms -> instanceAddr m.1 ∉ seen -> pr_names p !! instanceAddr m.1 = None).

Lemma entry_complete m a typ sent :
  uint16 (Port m) <> 0%Z ->
  complete (mkEntry (instanceAddr m) (HostName m) (Some a) None (TXT_ m) (Some a) (uint16 (Port m)) (TTL m) typ true sent) = true.
Proof. intros Hp. unfold complete. cbn [e_Port e_hasTXT]. by rewrite (proj2 (Z.eqb_neq _ _) Hp). Qed.

Lemma query_seen q m a p x :
  any_or_ptr q = true -> reachable_service m a -> HostName m <> instanceAddr m ->
  pr_names p !! instanceAddr m = Some x -> (exists e, pr_heap p !! x = Some e /\ complete e = true /\ e_sent e = true) ->
  query_step (q_Name q) (reply_to q m) p = (mkProgress (pr_heap p) (<[HostName m := x]> (pr_names p)), None).
Proof.
  intros Hq [Hip _] Hh Hn (e & He & Hc & Hs). unfold query_step. rewrite (reply_known q m a p x); try done.
  - cbn [m_Question reply_to pr_heap]. rewrite He, String.eqb_refl, Hc, Hs. done.
  - unfold is_complete. by rewrite He.
Qed.

Lemma query_new q m a p :
  any_or_ptr q = true -> reachable_service m a -> HostName m <> instanceAddr m -> pr_names p !! instanceAddr m = None ->
  query_step (q_Name q) (reply_to q m) p =
    (mkProgress (pr_heap p ++ [entry_of m a]) (<[HostName m := length (pr_heap p)]> (<[instanceAddr m := length (pr_heap p)]> (pr_names p))),
     Some (Emit (entry_of m a))).
Proof.
  intros Hq Hr Hh Hn. unfold query_step. rewrite (reply_new q m a p) by done. cbn [m_Question reply_to pr_heap].
  rewrite lookup_app_r, Nat.sub_diag by lia. cbn [lookup list_lookup]. rewrite String.eqb_refl. cbn [negb].
  rewrite entry_complete by apply Hr. cbn [e_sent]. by rewrite update_last.
Qed.

Lemma query_run_firsts q ms p seen :
  any_or_ptr q = true -> hosts_apart ms -> Forall (fun m => reachable_service m.1 m.2) ms -> seen_ok seen ms p ->
  (forall m, m ∈ ms -> HostName m.1 ∉ seen) ->
  query_run (q_Name q) (map (fun m => reply_to q m.1) ms) p = map (fun m => entry_of m.1 m.2) (firsts seen ms).
Proof.
  intros Hq. revert p seen. induction ms as [|[m a] ms IH]; intros p seen Hap Hr [Hseen Hnew] Hhs; [done|].
  apply Forall_cons in Hr as [Hm Hr]. cbn [fst snd] in Hm.
  assert (HostName m <> instanceAddr m) as Hh by (apply (Hap (m, a) (m, a)); apply elem_of_cons; by left).
  assert (hosts_apart ms) as Hap' by (intros x y Hx Hy; apply Hap; apply elem_of_cons; by right).
  cbn [map query_run firsts fst]. case_bool_decide as Hin.
  - destruct (Hseen _ Hin) as (i & e & Hi & He). rewrite (query_seen q m a p i) by (done || by exists e). cbn [app].
    apply IH; [done|done| |intros x Hx; apply Hhs, elem_of_cons; by right]. split.
    + intros x Hx. destruct (Hseen x Hx) as (i' & e' & Hi' & Hrest). exists i', e'. split; [|done]. cbn.
      rewrite lookup_insert_ne; [done|]. intros <-. apply (Hhs (m, a)); [apply elem_of_cons; by left|done].
    + intros x Hx Hns. cbn. rewrite lookup_insert_ne; [apply Hnew; [apply elem_of_cons; by right|done]|].
      apply (Hap (m, a) x); apply elem_of_cons; [by left|by right].
  - assert (pr_names p !! instanceAddr m = None) as Hn by (apply (Hnew (m, a)); [apply elem_of_cons; by left|done]).
    rewrite (query_new q m a p) by done. cbn [app map fst snd]. f_equal.
    apply IH; [done|done| |].
    + split.
      * intros x [->|Hx]%elem_of_cons.
        -- exists (length (pr_heap p)), (entry_of m a). cbn. rewrite lookup_insert_ne, lookup_insert_eq, lookup_app_r, Nat.sub_diag by done.
           split_and!; [done..|by apply entry_complete, Hm|done].
        -- destruct (Hseen x Hx) as (i' & e' & Hi' & He' & Hrest). exists i', e'. cbn. split_and!; [|by apply lookup_app_l_Some|apply Hrest..].
           rewrite !lookup_insert_ne; [done|congruence|]. intros <-. apply (Hhs (m, a)); [apply elem_of_cons; by left|done].
      * intros x Hx Hns. apply not_elem_of_cons in Hns as [Hne Hns]. cbn.
        rewrite !lookup_insert_ne; [apply Hnew; [apply elem_of_cons; by right|done]|done|].
        apply (Hap (m, a) x); apply elem_of_cons; [by left|by right].
    + intros x Hx Hin'. apply elem_of_cons in Hin' as [He|Hin'].
      * by apply (Hap x (m, a)) in He; [|apply elem_of_cons; right|apply elem_of_cons; left].
      * apply (Hhs x); [apply elem_of_cons; by right|done].
Qed.

(** A query finds every service that answers, once. When services with an IPv4
    address and a port answer a query, in any order and any number of times, and no
    host has the name of an instance, the query gives one entry for each of them, in
    the order of their first answers, with its name, host, address, port, text and time
    to live. *)
Theorem query_finds q ms :
  any_or_ptr q = true -> hosts_apart ms -> Forall (fun m => reachable_service m.1 m.2) ms ->
  query_run (q_Name q) (map (fun m => reply_to q m.1) ms) no_progress = map (fun m => entry_of m.1 m.2) (firsts [] ms).
Proof.
  intros Hq Hap Hr. apply query_run_firsts; try done.
  - split; [intros x Hx; by apply not_elem_of_nil in Hx|]. intros m _ _. apply lookup_empty.
  - intros m _ Hx. by apply not_elem_of_nil in Hx.
Qed.

(** What a service sends unasked completes an entry at once. *)
Lemma unsolicited_entry m a :
  reachable_service m a -> HostName m <> instanceAddr m -> own_name m = instanceAddr m ->
  instanceAddr m <> enumAddr m -> instanceAddr m <> serviceAddr m ->
  listen_step (unsolicited m) no_progress =
    (no_progress, Some (Emit (mkEntry (instanceAddr m) (HostName m) (Some a) None (TXT_ m) (Some a) (uint16 (Port m)) (TTL m) TypeSRV true true))).
Proof.
  intros [Hip Hport] Hh Hown Hen Hse. unfold listen_step, messageToEntry, unsolicited, Records. cbn [m_Answer m_Extra q_Name].
  rewrite Hown, (proj2 (String.eqb_neq _ _) Hen), (proj2 (String.eqb_neq _ _) Hse), String.eqb_refl.
  unfold instanceRecords. cbn [q_Qtype]. change (TypeANY =? TypeANY)%Z with true.
  unfold srv_records, a_records, aaaa_records, txt_records. rewrite Hip. cbn [omap list_omap app foldl].
  set (names1 := <[instanceAddr m := 0]> (∅ : gmap string nat)). set (names2 := <[HostName m := 0]> names1).
  assert (names1 !! instanceAddr m = Some 0) as H1 by apply lookup_insert_eq.
  assert (names2 !! instanceAddr m = Some 0) as H2 by (unfold names2; by rewrite lookup_insert_ne).
  assert (names2 !! HostName m = Some 0) as H3 by apply lookup_insert_eq.
  erewrite (record_step_put no_progress None _ [] _ names2); [|unfold record_entry; cbn [rr_data rr_Name];
    rewrite (proj2 (String.eqb_neq (HostName m) (instanceAddr m))) by done; unfold alias, ensureName at 2; cbn [pr_names no_progress];
    rewrite lookup_empty; exact (ensureName_known _ _ (mkProgress _ names2) _ H2)|done|done].
  erewrite (record_step_put _ _ (mkRR (HostName m) _ _) []); [|exact (ensureName_known _ _ (mkProgress _ names2) _ H3)|done|done].
  erewrite (record_step_put _ _ (mkRR (instanceAddr m) _ _) []); [|exact (ensureName_known _ _ (mkProgress _ names2) _ H2)|done|done].
  cbn [length pr_heap app put_data set_ttl rr_data rr_Ttl e_Name e_Host e_AddrV4 e_AddrV6 e_InfoFields e_Addr e_Port e_TTL e_Type e_hasTXT e_sent].
  unfold set_ttl. cbn [lookup list_lookup e_Name e_Host e_AddrV4 e_AddrV6 e_InfoFields e_Addr e_Port e_TTL e_Type e_hasTXT e_sent].
  rewrite entry_complete by done. done.
Qed.

Lemma server_reply m qc id :
  enumAddr m <> serviceAddr m ->
  handleQuery (Plain m) (mkMsg id false 0 0 [mkQuestion (serviceAddr m) TypePTR qc] [] []) =
    Some [mkMsg (if (0 <? Z.land qc (2 ^ 15))%Z then id else 0) true 0 0 [mkQuestion (serviceAddr m) TypePTR qc]
            (serviceRecords (mkQuestion (serviceAddr m) TypePTR qc) m) []].
Proof.
  intros Hne. unfold handleQuery. cbn [m_Opcode m_Rcode m_Question map]. unfold handleQuestion, zone_Records, Records. cbn [q_Name q_Qclass].
  rewrite (proj2 (String.eqb_neq (serviceAddr m) (enumAddr m))) by done. rewrite String.eqb_refl.
  assert (exists r l, serviceRecords (mkQuestion (serviceAddr m) TypePTR qc) m = r :: l) as (r & l & Hs) by (by eexists _, _).
  rewrite Hs. by destruct (0 <? Z.land qc (2 ^ 15))%Z; cbn; rewrite app_nil_r.
Qed.

(** A server answers for its own service. A query for the address of the service of
    a server, with the unicast bit or without, is answered by one message with the
    records of the service under the question, by unicast or by multicast. *)
Theorem server_answers m qc id :
  enumAddr m <> serviceAddr m ->
  handleQuery (Plain m) (mkMsg id false 0 0 [mkQuestion (serviceAddr m) TypePTR qc] [] []) =
    Some [mkMsg (if (0 <? Z.land qc (2 ^ 15))%Z then id else 0) true 0 0 [mkQuestion (serviceAddr m) TypePTR qc]
            (serviceRecords (mkQuestion (serviceAddr m) TypePTR qc) m) []].
Proof. apply server_reply. Qed.

(** ** Examples and witnesses *)
Definition ex_service (id a : string) (port : Z) : MDNSService :=
  mkService id "greeter" "micro." "box." "greeter.micro." (id +:+ ".greeter.micro.") "_services._dns-sd._udp.micro."
    [V4 a] ["t"] port defaultTTL.

Example new_service_ex :
  NewMDNSService (inr "box") (fun _ => None) "n1" "greeter" "micro." "" 80 [V4 "10.0.0.1"] ["t"] = inr (ex_service "n1" "10.0.0.1" 80) /\
  NewMDNSService (inr "box") (fun _ => None) "n1" "greeter" "micro." "" 0 [V4 "10.0.0.1"] ["t"] = inl MissingPort /\
  NewMDNSService (inr "box") (fun _ => None) "n1" "greeter" "micro." "" 80 [NoIP] ["t"] = inl InvalidIP.
Proof. by vm_compute. Qed.

(** A port that does not fit into 16 bits: the entry is never complete. *)
Example port_lost :
  query_run "greeter.micro." [reply_to (mkQuestion "greeter.micro." TypePTR 1) (ex_service "n1" "10.0.0.1" 65536)] no_progress = [].
Proof. by vm_compute. Qed.

Definition ex_q : question := mkQuestion "greeter.micro." TypePTR 1.
Definition ex_ms : list (MDNSService * string) :=
  [(ex_service "n1" "10.0.0.1" 80, "10.0.0.1"); (ex_service "n2" "10.0.0.2" 81, "10.0.0.2"); (ex_service "n1" "10.0.0.1" 80, "10.0.0.1")].

Lemma query_finds_witness :
  query_run "greeter.micro." (map (fun m => reply_to ex_q m.1) ex_ms) no_progress =
    [entry_of (ex_service "n1" "10.0.0.1" 80) "10.0.0.1"; entry_of (ex_service "n2" "10.0.0.2" 81) "10.0.0.2"].
Proof.
  refine (eq_trans (query_finds ex_q ex_ms _ _ _) _); [reflexivity| | |vm_compute; reflexivity].
  - intros m m' Hm Hm'. unfold ex_ms in *.
    repeat (apply elem_of_cons in Hm as [->|Hm]; [|]); try (by apply not_elem_of_nil in Hm);
      repeat (apply elem_of_cons in Hm' as [->|Hm']; [discriminate|]); by apply not_elem_of_nil in Hm'.
  - repeat constructor; cbn; discriminate.
Defined.

Lemma server_answers_witness :
  handleQuery (Plain (ex_service "n1" "10.0.0.1" 80)) (mkMsg 7 false 0 0 [ex_q] [] []) =
    Some [reply_to ex_q (ex_service "n1" "10.0.0.1" 80)].
Proof. apply (server_answers (ex_service "n1" "10.0.0.1" 80) 1 7). discriminate. Defined.
