(* ===== verification/MdnsRegistry.v ===== *)
(** * The mDNS registry: [registry/mdns_registry.go]

    A registered node is a server of Mdns whose text records carry the service, encoded;
    the first node of a service brings a wildcard server with it that answers when
    services are listed. Services are looked up by decoding the entries a query finds.
    Json, zlib, parsing of addresses and the start of a server are arguments. *)
From S2P Require Import Prelude GoStrings GoStrconv NetUtil Registry Mdns.
From S2P Require Qson GoIO.

Record mdnsTxt := mkTxt {
  t_Service : string;
  t_Version : string;
  t_Endpoints : list Endpoint;
  t_Metadata : option (gmap string string);
}.

(** ** Text records *)

(** [encoding/hex] *)
Definition hex_digit (n : N) : ascii := ascii_of_N (if (n <? 10)%N then 48 + n else 87 + n).

Fixpoint hex_encode (s : string) : string :=
  match s with
  | "" => ""
  | String a s => String (hex_digit (N_of_ascii a / 16)) (String (hex_digit (N_of_ascii a mod 16)) (hex_encode s))
  end.

Fixpoint hex_decode (s : string) : option string :=
  match s with
  | "" => Some ""
  | String a (String b s) =>
      h ← Qson.unhex a; l ← Qson.unhex b; r ← hex_decode s; Some (String (ascii_of_N (16 * h + l)) r)
  | String _ "" => None
  end.

(** Pieces of 255 characters; [fuel] is the length of the text. *)
Fixpoint split_record (fuel : nat) (encoded : string) : list string :=
  match fuel with
  | S fuel =>
      if 255 <? String.length encoded then str_take 255 encoded :: split_record fuel (str_drop 255 encoded) else [encoded]
  | O => [encoded]
  end.

(** *** UTF-8, as [utf8.ValidString] has it *)
Definition utf8_between (lo hi : N) (a : ascii) : bool := (lo <=? N_of_ascii a)%N && (N_of_ascii a <=? hi)%N.
Definition utf8_tail : ascii -> bool := utf8_between 128 191.

(** The range of the second byte depends on the first: no overlong forms, surrogates or
    code points past the last. *)
Fixpoint valid_utf8 (s : string) : bool :=
  match s with
  | "" => true
  | String a r =>
      let n := N_of_ascii a in
      if (n <? 128)%N then valid_utf8 r
      else if utf8_between 194 223 a then
        match r with String b r => utf8_tail b && valid_utf8 r | _ => false end
      else if utf8_between 224 239 a then
        match r with
        | String b (String c r) =>
            utf8_between (if (n =? 224)%N then 160 else 128) (if (n =? 237)%N then 159 else 191) b && utf8_tail c &&
            valid_utf8 r
        | _ => false
        end
      else if utf8_between 240 244 a then
        match r with
        | String b (String c (String d r)) =>
            utf8_between (if (n =? 240)%N then 144 else 128) (if (n =? 244)%N then 143 else 191) b && utf8_tail c &&
            utf8_tail d && valid_utf8 r
        | _ => false
        end
      else false
  end.

Fixpoint valid_value (v : Value) : bool :=
  let 'mkValue n t vs := v in valid_utf8 n && valid_utf8 t && forallb valid_value vs.

Definition valid_metadata (md : gmap string string) : Prop :=
  map_Forall (fun k v => valid_utf8 k = true /\ valid_utf8 v = true) md.

Definition valid_endpoint (e : Endpoint) : Prop :=
  valid_utf8 (Registry.e_Name e) = true /\ forallb valid_value (option_list (e_Request e) ++ option_list (e_Response e)) = true /\
  valid_metadata (e_Metadata e).

(** A text all of whose strings are UTF-8; json replaces what is not. *)
Definition valid_txt (txt : mdnsTxt) : Prop :=
  valid_utf8 (t_Service txt) = true /\ valid_utf8 (t_Version txt) = true /\ Forall valid_endpoint (t_Endpoints txt) /\
  match t_Metadata txt with Some md => valid_metadata md | None => True end.

(** Json is read into a pointer, which [null] leaves nil. *)
Class Wire := {
  json_Marshal : mdnsTxt -> string + string;
  json_Unmarshal : string -> string + option mdnsTxt;
  zlib_write : string -> string;
  zlib_read : string -> option string;
}.

Class WireLaws `{Wire} := {
  json_read txt b : valid_txt txt -> json_Marshal txt = inr b -> json_Unmarshal b = inr (Some txt);
  zlib_read_write s : zlib_read (zlib_write s) = Some s;
}.

Section wire.
Context `{Wire}.

Definition encode (txt : mdnsTxt) : string + list string :=
  match json_Marshal txt with
  | inl err => inl err
  | inr b => let encoded := hex_encode (zlib_write b) in inr (split_record (String.length encoded) encoded)
  end.

Inductive decoded := Undecodable | NilTxt | Decoded (txt : mdnsTxt).

Definition decode (record : list string) : decoded :=
  match hex_decode (join "" record) with
  | None => Undecodable
  | Some hr =>
      match zlib_read hr with
      | None => Undecodable
      | Some b => match json_Unmarshal b with inl _ => Undecodable | inr None => NilTxt | inr (Some txt) => Decoded txt end
      end
  end.

(** ** The registry *)
Record mdnsEntry := mkMdnsEntry { en_id : string; en_zone : zone }.

Record mdnsRegistry := mkMdnsRegistry { domain : string; services : gmap string (list mdnsEntry) }.

(** What the operating system answers: its name, addresses of a host, whether a server
    can be started. *)
Record system := mkSystem {
  sys_Hostname : string + string;
  sys_LookupIP : string -> option (list ip);
  sys_NewServer : zone -> bool;
  sys_ParseIP : string -> ip;
}.

Inductive reg_err := EncodeError (e : string) | AddressError (e : string) | ZoneError (e : zone_err) | ServerError.

Definition start_server (sys : system) (id : string) (z : zone) : reg_err + mdnsEntry :=
  if sys_NewServer sys z then inr (mkMdnsEntry id z) else inl ServerError.

Definition wildcard (sys : system) (domain name : string) : reg_err + mdnsEntry :=
  match NewMDNSService (sys_Hostname sys) (sys_LookupIP sys) name "_services" (domain +:+ ".") "" 9999 [V4 "0.0.0.0"] [] with
  | inl e => inl (ZoneError e)
  | inr s => start_server sys "*" (DNSSD s)
  end.

(** [strconv.Atoi], whose error is not looked at. *)
Definition atoi_value (s : string) : Z :=
  match ParseInt s with inr z => z | inl (ErrRange z) => z | inl ErrSyntax => 0 end.

Definition node_txt (service : Service) (node : Node) : mdnsTxt :=
  mkTxt (s_Name service) (s_Version service) (s_Endpoints service) (n_Metadata node).

Definition new_entry `{Net} (sys : system) (domain : string) (service : Service) (node : Node) : reg_err + mdnsEntry :=
  match encode (node_txt service node) with
  | inl e => inl (EncodeError e)
  | inr txt =>
      match SplitHostPort (n_Address node) with
      | inl e => inl (AddressError e)
      | inr (host, pt) =>
          match NewMDNSService (sys_Hostname sys) (sys_LookupIP sys) (n_Id node) (s_Name service) (domain +:+ ".") ""
                  (atoi_value pt) [sys_ParseIP sys host] txt with
          | inl e => inl (ZoneError e)
          | inr s => start_server sys (n_Id node) (Plain s)
          end
      end
  end.

(** One node of the loop, with the last error. *)
Definition register_node `{Net} (sys : system) (domain : string) (service : Service)
    (acc : list mdnsEntry * option reg_err) (node : Node) : list mdnsEntry * option reg_err :=
  let '(entries, gerr) := acc in
  if existsb (fun e => String.eqb (n_Id node) (en_id e)) entries then (entries, gerr)
  else
    match new_entry sys domain service node with
    | inl e => (entries, Some e)
    | inr e => (entries ++ [e], gerr)
    end.

Definition Register `{Net} (sys : system) (service : Service) (m : mdnsRegistry) : mdnsRegistry * option reg_err :=
  let first :=
    match services m !! s_Name service with
    | Some entries => inr entries
    | None => match wildcard sys (domain m) (s_Name service) with inl e => inl e | inr e => inr [e] end
    end in
  match first with
  | inl e => (m, Some e)
  | inr entries =>
      let '(entries, gerr) := foldl (register_node sys (domain m) service) (entries, None) (s_Nodes service) in
      (mkMdnsRegistry (domain m) (<[s_Name service := entries]> (services m)), gerr)
  end.

Definition is_removed (service : Service) (e : mdnsEntry) : bool := existsb (fun n => String.eqb (n_Id n) (en_id e)) (s_Nodes service).

(** The servers that are shut down say goodbye; the wildcard goes with the last node. *)
Definition Deregister (service : Service) (m : mdnsRegistry) : mdnsRegistry * list Msg :=
  let entries := default [] (services m !! s_Name service) in
  let goodbye e := match (unregister (en_zone e)).2 with Some msg => [msg] | None => [] end in
  let gone := concat (map goodbye (List.filter (is_removed service) entries)) in
  match List.filter (fun e => negb (is_removed service e)) entries with
  | [e] =>
      if String.eqb (en_id e) "*" then (mkMdnsRegistry (domain m) (delete (s_Name service) (services m)), gone ++ goodbye e)
      else (mkMdnsRegistry (domain m) (<[s_Name service := [e]]> (services m)), gone)
  | entries => (mkMdnsRegistry (domain m) (<[s_Name service := entries]> (services m)), gone)
  end.

(** ** Looking up *)
Definition entry_addr (e : ServiceEntry) : option string :=
  match e_AddrV4 e, e_AddrV6 e with
  | Some a, _ => Some (JoinHostPort a (fmt_Z (e_Port e)))
  | None, Some a => Some (JoinHostPort a (fmt_Z (e_Port e)))
  | None, None => None
  end.

(** One entry; a text that is nil panics. *)
Definition collect (service domain : string) (acc : outcome unit (gmap string Service)) (e : ServiceEntry) :
    outcome unit (gmap string Service) :=
  serviceMap <-! acc;
  if String.eqb service "_services" || (e_TTL e =? 0)%Z then Ret serviceMap
  else
    match decode (e_InfoFields e) with
    | Undecodable => Ret serviceMap
    | NilTxt => Panic
    | Decoded txt =>
        if negb (String.eqb (t_Service txt) service) then Ret serviceMap
        else
          let s := default (Registry.mkService (t_Service txt) (t_Version txt) ∅ (t_Endpoints txt) []) (serviceMap !! t_Version txt) in
          match entry_addr e with
          | None => Ret serviceMap
          | Some addr =>
              let node := mkNode (t_Metadata txt) (trim_suffix (e_Name e) ("." +:+ service +:+ "." +:+ domain +:+ ".")) addr in
              Ret (<[t_Version txt := with_nodes s (s_Nodes s ++ [node])]> serviceMap)
          end
    end.

(** [entries]: what the query found before the time was over. *)
Definition GetService (o : map_order) (service : string) (entries : list ServiceEntry) (m : mdnsRegistry) : outcome unit (list Service) :=
  serviceMap <-! foldl (collect service (domain m)) (Ret ∅) entries;
  Ret (map snd (map_range o serviceMap)).

Definition list_one (domain : string) (acc : list string) (e : ServiceEntry) : list string :=
  if (e_TTL e =? 0)%Z || negb (has_suffix (e_Name e) (domain +:+ ".")) then acc
  else
    let name := trim_suffix (e_Name e) ("._services." +:+ domain +:+ ".") in
    if existsb (String.eqb name) acc then acc else acc ++ [name].

(** The names of the services. *)
Definition ListServices (entries : list ServiceEntry) (m : mdnsRegistry) : list string := foldl (list_one (domain m)) [] entries.

(** ** Watching *)

(** What a watcher makes of an entry. *)
Definition watch_entry (wo_Service domain : string) (e : ServiceEntry) : outcome unit (option Result) :=
  match decode (e_InfoFields e) with
  | Undecodable => Ret None
  | NilTxt => Panic
  | Decoded txt =>
      let suffix := "." +:+ t_Service txt +:+ "." +:+ domain +:+ "." in
      if String.eqb (t_Service txt) "" || String.eqb (t_Version txt) "" then Ret None
      else if negb (String.eqb wo_Service "") && negb (String.eqb (t_Service txt) wo_Service) then Ret None
      else if negb (has_suffix (e_Name e) suffix) then Ret None
      else
        let addr := match entry_addr e with Some a => a | None => default "<nil>" (e_Addr e) end in
        let node := mkNode (t_Metadata txt) (trim_suffix (e_Name e) suffix) addr in
        Ret (Some (mkResult (Registry.mkService (t_Service txt) (t_Version txt) ∅ (t_Endpoints txt) [node])
                     (if (e_TTL e =? 0)%Z then "delete" else "create")))
  end.

(** [Next] on the entries in the watcher's channel; [None]: it waits. *)
Fixpoint Next (wo_Service domain : string) (ch : list ServiceEntry) : outcome unit (option (Result * list ServiceEntry)) :=
  match ch with
  | [] => Ret None
  | e :: ch =>
      r <-! watch_entry wo_Service domain e;
      match r with Some r => Ret (Some (r, ch)) | None => Next wo_Service domain ch end
  end.
End wire.

(** ** Text records are read back *)
Lemma unhex_digit n : (n < 16)%N -> Qson.unhex (hex_digit n) = Some n.
Proof.
  intros Hn. destruct n as [|p]; [done|]. do 4 (destruct p as [p|p|]; try reflexivity); lia.
Qed.

Lemma hex_decode_encode s : hex_decode (hex_encode s) = Some s.
Proof.
  induction s as [|a s IH]; [done|]. pose proof (N_ascii_bounded a) as Ha. cbn [hex_encode hex_decode].
  rewrite unhex_digit by (apply N.mod_lt; lia). rewrite unhex_digit by (apply N.Div0.div_lt_upper_bound; lia).
  cbn [mbind option_bind]. rewrite IH. cbn [mbind option_bind].
  rewrite <- (N.div_mod' (N_of_ascii a) 16). by rewrite ascii_N_embedding.
Qed.

Lemma join_split_record n s : join "" (split_record n s) = s.
Proof.
  revert s. induction n as [|n IH]; intros s; cbn [split_record]; [done|]. destruct (255 <? String.length s); [|done].
  assert (exists w ws, split_record n (str_drop 255 s) = w :: ws) as (w & ws & Hs).
  { destruct n; cbn [split_record]; [by eexists _, _|]. destruct (255 <? _); by eexists _, _. }
  specialize (IH (str_drop 255 s)). rewrite Hs in *. rewrite join_cons by done. rewrite IH. apply str_take_drop.
Qed.

Lemma split_record_bound n s : String.length s <= 255 + n -> Forall (fun r => String.length r <= 255) (split_record n s).
Proof.
  revert s. induction n as [|n IH]; intros s Hs; cbn [split_record]; [constructor; [lia|constructor]|].
  destruct (Nat.ltb_spec 255 (String.length s)) as [Hlt|Hge]; [|constructor; [lia|constructor]].
  constructor.
  - rewrite GoIO.str_length_take. lia.
  - apply IH. rewrite str_length_drop. lia.
Qed.

Lemma decode_encode_aux `{WireLaws} txt record : valid_txt txt -> encode txt = inr record -> decode record = Decoded txt.
Proof.
  intros Hv. unfold encode. destruct (json_Marshal txt) as [e|b] eqn:Hb; [done|]. intros [= <-].
  unfold decode. by rewrite join_split_record, hex_decode_encode, zlib_read_write, (json_read _ _ Hv Hb).
Qed.

(** Text records are read back. What is encoded for a node is cut into records that
    are not longer than a record may be, and decoding them gives the service, version,
    endpoints and metadata back, if their strings are UTF-8. *)
Theorem decode_encode `{WireLaws} txt record :
  valid_txt txt -> encode txt = inr record ->
  decode record = Decoded txt /\ Forall (fun r => String.length r <= 255) record.
Proof.
  intros Hv He. split; [by apply decode_encode_aux|]. unfold encode in He. destruct (json_Marshal txt); [done|].
  injection He as <-. apply split_record_bound. lia.
Qed.

Lemma str_app_inj x y z : x +:+ z = y +:+ z -> x = y.
Proof.
  revert y. induction x as [|c x IH]; intros [|d y] Hxy; cbn in Hxy; [done| | |].
  - apply (f_equal String.length) in Hxy. cbn in Hxy. rewrite str_length_app in Hxy. lia.
  - apply (f_equal String.length) in Hxy. cbn in Hxy. rewrite str_length_app in Hxy. lia.
  - injection Hxy as -> Hxy. f_equal. by apply IH.
Qed.

Lemma map_range_singleton {V} o (k : string) (v : V) : map_range o {[k := v]} = [(k, v)].
Proof. unfold map_range. rewrite map_to_list_singleton. apply Permutation_length_1_inv. symmetry. apply (order_perm o). Qed.

(** ** A node that is registered is found *)
Section found.
Context `{WireLaws} `{Net}.
Context (sys : system) (dom host : string) (s : Service).

Definition instance_name (id : string) : string := id +:+ "." +:+ s_Name s +:+ "." +:+ dom +:+ ".".

(** A node that can be registered: it has an identifier other than that of the wildcard;
    its address is an IPv4 address with a port between 1 and 65535, as they are printed;
    its text is UTF-8 and can be encoded; and its instance is not named as the host, nor
    as the listing of services. *)
Record good_node (n : Node) : Prop := {
  gn_id : n_Id n <> "" /\ n_Id n <> "*";
  gn_host : instance_name (n_Id n) <> host +:+ ".";
  gn_enum : n_Id n +:+ "." +:+ s_Name s <> "_services._dns-sd._udp";
  gn_txt : valid_txt (node_txt s n) /\ exists b, json_Marshal (node_txt s n) = inr b;
  gn_addr : exists h pt a, SplitHostPort (n_Address n) = inr (h, pt) /\ sys_ParseIP sys h = V4 a /\
    (0 < atoi_value pt < 65536)%Z /\ JoinHostPort a (fmt_Z (atoi_value pt)) = n_Address n;
}.

Record good_service : Prop := {
  gs_name : s_Name s <> "" /\ s_Name s <> "_services" /\ s_Name s <> "_services._dns-sd._udp" /\ trimDot (s_Name s) = s_Name s;
  gs_domain : trimDot (dom +:+ ".") = dom /\ trimDot dom = dom;
  gs_host : sys_Hostname sys = inr host;
  gs_server : forall z, sys_NewServer sys z = true;
  gs_ids : NoDup (map n_Id (s_Nodes s));
  gs_nodes : Forall good_node (s_Nodes s);
}.

Context (Hgood : good_service).

(** The service a node is announced as. *)
Record announces (n : Node) (m : MDNSService) (a : string) : Prop := {
  an_reach : reachable_service m a;
  an_instance : instanceAddr m = instance_name (n_Id n);
  an_service : serviceAddr m = query_name (s_Name s) dom;
  an_enum : enumAddr m <> serviceAddr m;
  an_own : own_name m = instanceAddr m /\ instanceAddr m <> enumAddr m /\ instanceAddr m <> serviceAddr m;
  an_host : HostName m = host +:+ ".";
  an_ttl : TTL m = defaultTTL;
  an_txt : decode (TXT_ m) = Decoded (node_txt s n);
  an_addr : JoinHostPort a (fmt_Z (uint16 (Port m))) = n_Address n;
}.

Lemma has_suffix_dot x : has_suffix (x +:+ ".") "." = true.
Proof.
  unfold has_suffix. rewrite str_length_app. cbn [String.length]. rewrite Nat.add_sub.
  rewrite str_drop_app. rewrite String.eqb_refl, andb_true_r. apply Nat.leb_le. lia.
Qed.

Lemma new_entry_good n :
  n ∈ s_Nodes s -> exists m a, new_entry sys dom s n = inr (mkMdnsEntry (n_Id n) (Plain m)) /\ announces n m a.
Proof.
  intros Hn. destruct Hgood as [(Hne & _ & Hen & Htr) [Hd Hd'] Hh Hs _ Hns]. rewrite Forall_forall in Hns.
  destruct (Hns n Hn) as [[Hid _] Hih Hie [Hv [b Hb]] (h & pt & a & Hsp & Hip & Hport & Hj)].
  unfold new_entry. destruct (encode (node_txt s n)) as [e|txt] eqn:He; [unfold encode in He; by rewrite Hb in He|].
  rewrite Hsp, Hip. unfold NewMDNSService. rewrite (proj2 (String.eqb_neq _ _) Hid), (proj2 (String.eqb_neq _ _) Hne).
  rewrite (proj2 (Z.eqb_neq _ _)) by lia.
  assert (String.eqb (dom +:+ ".") "" = false) as -> by (destruct dom; done).
  unfold validateFQDN. rewrite has_suffix_dot. cbn [negb]. rewrite String.eqb_refl, Hh, has_suffix_dot. cbn [negb host_ips existsb orb].
  unfold start_server. rewrite Hs, Htr, Hd. eexists _, a. split; [done|]. split; cbn.
  - split; [done|]. cbn. unfold uint16. rewrite Z.mod_small by lia. lia.
  - done.
  - unfold query_name. by rewrite Htr, Hd'.
  - intros Heq. apply Hen. apply (str_app_inj _ _ ("." +:+ dom +:+ ".")). symmetry. exact Heq.
  - fold (trimDot (s_Name s)). fold (trimDot (dom +:+ ".")). rewrite Htr, Hd. split_and!; [done| |].
    + intros Heq. apply Hie. apply (str_app_inj _ _ ("." +:+ dom +:+ ".")). rewrite !str_app_assoc. exact Heq.
    + intros Heq. assert (n_Id n +:+ "." = "") as He'; [|by destruct (n_Id n)].
      apply (str_app_inj _ _ (s_Name s +:+ "." +:+ dom +:+ ".")). rewrite str_app_assoc. exact Heq.
  - done.
  - done.
  - eapply decode_encode_aux; [exact Hv|exact He].
  - unfold uint16. by rewrite Z.mod_small by lia.
Qed.

Definition entry_for (n : Node) (e : mdnsEntry) : Prop :=
  en_id e = n_Id n /\ exists m a, en_zone e = Plain m /\ announces n m a.

Lemma register_fold nodes acc :
  (forall n, n ∈ nodes -> n ∈ s_Nodes s) -> NoDup (map n_Id nodes) -> (forall n, n ∈ nodes -> n_Id n ∉ map en_id acc) ->
  exists es, foldl (register_node sys dom s) (acc, None) nodes = (acc ++ es, None) /\ Forall2 entry_for nodes es.
Proof.
  revert acc. induction nodes as [|n nodes IH]; intros acc Hin Hnd Hacc; [exists []; by rewrite app_nil_r|].
  cbn [map] in Hnd. apply NoDup_cons in Hnd as [Hn Hnd].
  destruct (new_entry_good n) as (m & a & He & Ha); [apply Hin, elem_of_cons; by left|]. cbn [foldl]. unfold register_node at 2.
  assert (existsb (fun e => String.eqb (n_Id n) (en_id e)) acc = false) as ->.
  { apply not_true_iff_false. intros (e & Hine & Heq)%existsb_exists. apply String.eqb_eq in Heq.
    apply (Hacc n); [apply elem_of_cons; by left|]. rewrite Heq. apply list_elem_of_fmap. exists e. split; [done|]. by apply list_elem_of_In. }
  rewrite He. destruct (IH (acc ++ [mkMdnsEntry (n_Id n) (Plain m)])) as (es & Hes & Hf).
  - intros x Hx. apply Hin, elem_of_cons. by right.
  - done.
  - intros x Hx. rewrite map_app. intros [Hx'|Hx']%elem_of_app; [apply (Hacc x); [apply elem_of_cons; by right|done]|].
    apply list_elem_of_singleton in Hx'. cbn in Hx'. apply Hn. rewrite <- Hx'. apply list_elem_of_fmap. by exists x.
  - exists (mkMdnsEntry (n_Id n) (Plain m) :: es). rewrite Hes, <- app_assoc. split; [done|]. constructor; [|done].
    split; [done|]. by exists m, a.
Qed.

Lemma wildcard_good : exists w, wildcard sys dom (s_Name s) = inr w /\ en_id w = "*".
Proof.
  destruct Hgood as [(Hne & _) _ Hh Hs _ _]. unfold wildcard, NewMDNSService. rewrite (proj2 (String.eqb_neq _ _) Hne). cbn [String.eqb Z.eqb].
  assert (String.eqb (dom +:+ ".") "" = false) as -> by (destruct dom; done).
  unfold validateFQDN. rewrite has_suffix_dot. cbn [negb]. rewrite Hh, has_suffix_dot. cbn [negb host_ips existsb orb].
  unfold start_server. rewrite Hs. by eexists.
Qed.

(** The nodes in the order of their first answers. *)
Fixpoint first_nodes (seen : list string) (ns : list Node) : list Node :=
  match ns with
  | [] => []
  | n :: ns => if bool_decide (n_Id n ∈ seen) then first_nodes seen ns else n :: first_nodes (n_Id n :: seen) ns
  end.

Lemma instance_name_inj x y : instance_name x = instance_name y -> x = y.
Proof.
  apply str_app_inj.
Qed.

Definition announces' (n : Node) (x : MDNSService * string) : Prop := announces n x.1 x.2.

Lemma firsts_nodes seen ns ms :
  Forall2 announces' ns ms -> Forall2 announces' (first_nodes seen ns) (firsts (map instance_name seen) ms).
Proof.
  intros Hf. revert seen. induction Hf as [|n x ns ms Ha _ IH]; intros seen; [constructor|]. cbn [first_nodes firsts].
  assert (instanceAddr x.1 = instance_name (n_Id n)) as Hi by apply Ha. rewrite Hi.
  assert (instance_name (n_Id n) ∈ map instance_name seen <-> n_Id n ∈ seen) as Hs.
  { split; [|intros; by apply list_elem_of_fmap_2]. intros (y & Hy & Hin)%list_elem_of_fmap. by apply instance_name_inj in Hy as ->. }
  destruct (decide (n_Id n ∈ seen)) as [Hin|Hin].
  - rewrite !bool_decide_true by (done || by apply Hs). apply IH.
  - rewrite !bool_decide_false by (done || by rewrite Hs). constructor; [done|]. apply (IH (n_Id n :: seen)).
Qed.

Lemma first_nodes_spec seen ns :
  NoDup (map n_Id (first_nodes seen ns)) /\
  (forall n, n ∈ first_nodes seen ns -> n ∈ ns /\ n_Id n ∉ seen) /\
  (forall n, n ∈ ns -> n_Id n ∈ seen \/ exists n', n' ∈ first_nodes seen ns /\ n_Id n' = n_Id n).
Proof.
  revert seen. induction ns as [|n ns IH]; intros seen; cbn [first_nodes].
  - split_and!; [constructor|intros n Hn|intros n Hn]; by apply not_elem_of_nil in Hn.
  - case_bool_decide as Hin.
    + destruct (IH seen) as (P1 & P2 & P3). split_and!; [done| |].
      * intros x Hx. destruct (P2 x Hx). split; [apply elem_of_cons; by right|done].
      * intros x [->|Hx]%elem_of_cons; [by left|by apply P3].
    + destruct (IH (n_Id n :: seen)) as (P1 & P2 & P3). split_and!.
      * cbn [map]. apply NoDup_cons. split; [|done]. intros (y & Hy & Hin')%list_elem_of_fmap. destruct (P2 y Hin') as [_ Hns].
        apply Hns. rewrite <- Hy. apply elem_of_cons. by left.
      * intros x [->|Hx]%elem_of_cons; [split; [apply elem_of_cons; by left|done]|]. destruct (P2 x Hx) as [Hx1 Hx2].
        split; [apply elem_of_cons; by right|]. intros Hs. apply Hx2, elem_of_cons. by right.
      * intros x [->|Hx]%elem_of_cons; [right; exists n; split; [apply elem_of_cons; by left|done]|].
        destruct (P3 x Hx) as [[->|Hs]%elem_of_cons|(y & Hy & He)]; [right|by left|right].
        -- exists n. split; [apply elem_of_cons; by left|done].
        -- exists y. split; [apply elem_of_cons; by right|done].
Qed.

Lemma same_id n n' : n ∈ s_Nodes s -> n' ∈ s_Nodes s -> n_Id n = n_Id n' -> n = n'.
Proof.
  intros Hn Hn' He. pose proof (gs_ids Hgood) as Hnd. apply list_elem_of_lookup in Hn as [i Hi]. apply list_elem_of_lookup in Hn' as [j Hj].
  assert (i = j) as ->; [|congruence]. eapply (NoDup_lookup _ i j (n_Id n)); [exact Hnd| |]; rewrite list_lookup_fmap.
  - by rewrite Hi.
  - rewrite Hj. cbn. congruence.
Qed.

Lemma first_nodes_perm ns :
  (forall n, n ∈ ns -> n ∈ s_Nodes s) -> (forall n, n ∈ s_Nodes s -> n ∈ ns) -> first_nodes [] ns ≡ₚ s_Nodes s.
Proof.
  intros Hin Hout. destruct (first_nodes_spec [] ns) as (P1 & P2 & P3). apply NoDup_Permutation.
  - by eapply NoDup_fmap_1.
  - eapply NoDup_fmap_1, gs_ids, Hgood.
  - intros n. split.
    + intros Hn. by apply Hin, P2.
    + intros Hn. destruct (P3 n) as [Hs|(n' & Hn' & He)]; [by apply Hout|by apply not_elem_of_nil in Hs|].
      assert (n' = n) as <-; [|done]. apply same_id; [|done..]. by apply Hin, P2.
Qed.

Lemma trim_suffix_app x p : trim_suffix (x +:+ p) p = x.
Proof.
  unfold trim_suffix, has_suffix. rewrite str_length_app, Nat.add_sub, str_drop_app, String.eqb_refl, andb_true_r.
  by rewrite (proj2 (Nat.leb_le _ _)), str_take_app by lia.
Qed.

(** What was collected of the service so far. *)
Definition so_far (nodes : list Node) : gmap string Service :=
  match nodes with
  | [] => ∅
  | _ => {[s_Version s := Registry.mkService (s_Name s) (s_Version s) ∅ (s_Endpoints s) nodes]}
  end.

Lemma collect_one n m a pre :
  announces n m a -> collect (s_Name s) dom (Ret (so_far pre)) (entry_of m a) = Ret (so_far (pre ++ [n])).
Proof.
  intros [Hr Hi _ _ _ _ Ht Htxt Haddr]. unfold collect, outcome_bind. cbn [e_TTL e_InfoFields entry_of]. rewrite Ht, Htxt.
  rewrite (proj2 (String.eqb_neq (s_Name s) "_services")) by apply Hgood. cbn [orb Z.eqb defaultTTL node_txt t_Service t_Version t_Endpoints t_Metadata].
  rewrite String.eqb_refl. unfold entry_addr. cbn [negb entry_of e_AddrV4 e_AddrV6 e_Port e_Name]. rewrite Haddr, Hi. unfold instance_name.
  rewrite (trim_suffix_app (n_Id n)).
  assert (mkNode (n_Metadata n) (n_Id n) (n_Address n) = n) as -> by by destruct n.
  f_equal. destruct pre as [|n0 pre].
  - change (so_far []) with (∅ : gmap string Service). rewrite lookup_empty. unfold default. cbn [with_nodes s_Name s_Version s_Metadata s_Endpoints s_Nodes app so_far].
    apply insert_empty.
  - cbn [so_far]. rewrite lookup_singleton_eq. cbn [with_nodes s_Name s_Version s_Metadata s_Endpoints s_Nodes app so_far].
    apply insert_singleton_eq.
Qed.

Lemma collect_all ns ms pre :
  Forall2 announces' ns ms ->
  foldl (collect (s_Name s) dom) (Ret (so_far pre)) (map (fun m => entry_of m.1 m.2) ms) = Ret (so_far (pre ++ ns)).
Proof.
  intros Hf. revert pre. induction Hf as [|n x ns ms Ha _ IH]; intros pre; [by rewrite app_nil_r|]. cbn [map foldl].
  rewrite (collect_one n x.1 x.2) by exact Ha. rewrite IH. by rewrite <- app_assoc.
Qed.

Definition service_query : Msg := mkMsg 0 false 0 0 [mkQuestion (query_name (s_Name s) dom) TypePTR 1] [] [].

(** A response comes from the server of a node. *)
Definition answers (m : mdnsRegistry) (n : Node) (resp : Msg) : Prop :=
  exists e, e ∈ default [] (services m !! s_Name s) /\ en_id e = n_Id n /\ handleQuery (en_zone e) service_query = Some [resp].

Lemma answers_announced m w es ns resps :
  default [] (services m !! s_Name s) = w :: es -> en_id w = "*" -> Forall2 entry_for (s_Nodes s) es ->
  (forall n, n ∈ ns -> n ∈ s_Nodes s) -> Forall2 (answers m) ns resps ->
  exists ms, Forall2 announces' ns ms /\ resps = map (fun x => reply_to (mkQuestion (query_name (s_Name s) dom) TypePTR 1) x.1) ms.
Proof.
  intros Hm Hw Hes Hin Hf. induction Hf as [|n resp ns resps (e & He & Hid & Hq) _ IH]; [by exists []|].
  destruct IH as (ms & Hms & ->); [intros x Hx; apply Hin, elem_of_cons; by right|].
  assert (n ∈ s_Nodes s) as Hn by (apply Hin, elem_of_cons; by left).
  rewrite Hm in He. apply elem_of_cons in He as [->|He].
  - exfalso. pose proof (gs_nodes Hgood) as Hns. rewrite Forall_forall in Hns. destruct (Hns n Hn) as [[_ Hne] _ _ _ _]. congruence.
  - apply list_elem_of_lookup in He as [i Hi]. destruct (Forall2_lookup_r _ _ _ _ _ Hes Hi) as (n' & Hn' & Hid' & mm & a & Hz & Ha).
    assert (n' = n) as -> by (apply same_id; [by eapply list_elem_of_lookup_2|done|congruence]).
    exists ((mm, a) :: ms). split; [by constructor|]. cbn [map fst]. f_equal.
    rewrite Hz in Hq. unfold service_query in Hq. rewrite <- (an_service _ _ _ Ha) in Hq |- *.
    rewrite server_reply in Hq by apply Ha. injection Hq as <-. done.
Qed.

Lemma announced_found ns ms :
  (forall n, n ∈ ns -> n ∈ s_Nodes s) -> Forall2 announces' ns ms ->
  hosts_apart ms /\ Forall (fun m => reachable_service m.1 m.2) ms.
Proof.
  intros Hin Hf. split.
  - intros x y Hx Hy. apply list_elem_of_lookup in Hx as [i Hi], Hy as [j Hj].
    destruct (Forall2_lookup_r _ _ _ _ _ Hf Hi) as (n & _ & Ha). destruct (Forall2_lookup_r _ _ _ _ _ Hf Hj) as (n' & Hn' & Ha').
    rewrite (an_host _ _ _ Ha), (an_instance _ _ _ Ha'). pose proof (gs_nodes Hgood) as Hns. rewrite Forall_forall in Hns.
    intros He. symmetry in He. revert He. apply Hns, Hin. by eapply list_elem_of_lookup_2.
  - apply Forall_forall. intros x Hx. apply list_elem_of_lookup in Hx as [i Hi].
    destruct (Forall2_lookup_r _ _ _ _ _ Hf Hi) as (n & _ & Ha). apply Ha.
Qed.

(** C21: what is registered is found, where it is the kind of service that can be: it has a
    name without dots at its ends that is not that of the listing of services, its nodes
    have distinct identifiers, none of them empty or the wildcard's, IPv4 addresses with
    ports between 1 and 65535, written as they are printed, and instance names that are
    not the host's, its texts are UTF-8, and the servers start ([good_service],
    [good_node]). After such a service that was not there has been registered, and when
    each of its nodes' servers answers a query for it at least once, in any order and any
    number of times, looking the service up gives one service with its name, version and
    endpoints and exactly its nodes, each with its identifier, address and metadata; the
    metadata of the service is not there. *)
Theorem registered_is_found o m m' gerr ns resps :
  domain m = dom -> services m !! s_Name s = None -> s_Nodes s <> [] -> Register sys s m = (m', gerr) ->
  Forall2 (answers m') ns resps -> (forall n, n ∈ ns -> n ∈ s_Nodes s) -> (forall n, n ∈ s_Nodes s -> n ∈ ns) ->
  gerr = None /\ exists nodes, nodes ≡ₚ s_Nodes s /\
    GetService o (s_Name s) (query_run (query_name (s_Name s) dom) resps no_progress) m' =
      Ret [Registry.mkService (s_Name s) (s_Version s) ∅ (s_Endpoints s) nodes].
Proof.
  intros Hdom Hnone Hne Hreg Hans Hin Hout. unfold Register in Hreg. rewrite Hnone, Hdom in Hreg. destruct wildcard_good as (w & Hw & Hwid). rewrite Hw in Hreg.
  destruct (register_fold (s_Nodes s) [w]) as (es & Hes & Hf); [done|apply Hgood| |].
  { intros n Hn Hs. apply list_elem_of_singleton in Hs. pose proof (gs_nodes Hgood) as Hns. rewrite Forall_forall in Hns.
    destruct (Hns n Hn) as [[_ Hstar] _ _ _ _]. congruence. }
  rewrite Hes in Hreg. injection Hreg as <- <-. split; [done|].
  destruct (answers_announced (mkMdnsRegistry dom (<[s_Name s := w :: es]> (services m))) w es ns resps) as (ms & Hms & ->);
    [cbn [services]; by rewrite lookup_insert_eq|done..|].
  destruct (announced_found ns ms Hin Hms) as [Hap Hr]. exists (first_nodes [] ns). split; [by apply first_nodes_perm|].
  unfold GetService. cbn [domain].
  pose proof (query_run_firsts (mkQuestion (query_name (s_Name s) dom) TypePTR 1) ms no_progress []) as Hrun. cbn [q_Name] in Hrun. rewrite Hrun.
  - pose proof (collect_all _ _ [] (firsts_nodes [] ns ms Hms)) as Hc. cbn [map app] in Hc. change (so_far []) with (∅ : gmap string Service) in Hc.
    rewrite Hc. cbn [outcome_bind]. destruct (first_nodes [] ns) as [|n l] eqn:Hfn.
    + exfalso. apply Hne, Permutation_nil. rewrite <- Hfn. by apply first_nodes_perm.
    + cbn [so_far]. by rewrite map_range_singleton.
  - done.
  - exact Hap.
  - exact Hr.
  - split; [intros x Hx; by apply not_elem_of_nil in Hx|]. intros x _ _. apply lookup_empty.
  - intros x _ Hx. by apply not_elem_of_nil in Hx.
Qed.

Lemma has_suffix_app x p : has_suffix (x +:+ p) p = true.
Proof.
  unfold has_suffix. rewrite str_length_app, Nat.add_sub, str_drop_app, String.eqb_refl, andb_true_r. apply Nat.leb_le. lia.
Qed.

Lemma announces_ttl n m a ttl : announces n m a -> own_name (set_TTL ttl m) = instanceAddr m /\ reachable_service (set_TTL ttl m) a.
Proof. intros Ha. split; [apply Ha|]. destruct (an_reach _ _ _ Ha) as [Hip Hp]. by split. Qed.

(** What a watcher makes of the message a node's server sends unasked. *)
Lemma watched n m a ttl wo :
  n ∈ s_Nodes s -> announces n m a -> s_Version s <> "" -> wo = "" \/ wo = s_Name s ->
  exists en, listen_step (unsolicited (set_TTL ttl m)) no_progress = (no_progress, Some (Emit en)) /\
    watch_entry wo dom en = Ret (Some (mkResult (Registry.mkService (s_Name s) (s_Version s) ∅ (s_Endpoints s) [n])
      (if (ttl =? 0)%Z then "delete" else "create"))).
Proof.
  intros Hn Ha Hv Hwo. destruct (announces_ttl n m a ttl Ha) as [Hown Hr]. destruct Ha as [_ Hi _ _ (_ & Hen & Hse) Hh _ Htxt Haddr].
  pose proof (gs_nodes Hgood) as Hns. rewrite Forall_forall in Hns. destruct (Hns n Hn) as [_ Hhost _ _ _].
  eexists. split; [apply (unsolicited_entry (set_TTL ttl m) a); [done| |done..]; cbn; rewrite Hh, Hi; congruence|].
  unfold watch_entry. cbn [e_InfoFields set_TTL TXT_]. rewrite Htxt. cbn [node_txt t_Service t_Version t_Endpoints t_Metadata].
  rewrite (proj2 (String.eqb_neq (s_Name s) "")) by apply Hgood. rewrite (proj2 (String.eqb_neq _ _) Hv). cbn [orb].
  assert (negb (String.eqb wo "") && negb (String.eqb (s_Name s) wo) = false) as ->
    by (destruct Hwo as [->| ->]; [done|by rewrite String.eqb_refl, andb_false_r]).
  cbn [e_Name set_TTL instanceAddr]. rewrite Hi. unfold instance_name. rewrite (has_suffix_app (n_Id n)), (trim_suffix_app (n_Id n)).
  unfold entry_addr. cbn [negb e_AddrV4 e_AddrV6 e_Port e_TTL set_TTL Port TTL e_Addr]. rewrite Haddr. by destruct n.
Qed.

(** Watchers see nodes come and go. What the server of a registered node announces
    reaches a watcher of the service, or of all, as a creation with the service and that
    node, and what it sends when it is shut down as the deletion of the same. *)
Theorem watch_sees n wo :
  n ∈ s_Nodes s -> s_Version s <> "" -> wo = "" \/ wo = s_Name s ->
  exists e hello bye, new_entry sys dom s n = inr e /\ announcement (en_zone e) = Some hello /\ (unregister (en_zone e)).2 = Some bye /\
    forall msg action, (msg, action) ∈ [(hello, "create"); (bye, "delete")] ->
      exists en, listen_step msg no_progress = (no_progress, Some (Emit en)) /\
        watch_entry wo dom en = Ret (Some (mkResult (Registry.mkService (s_Name s) (s_Version s) ∅ (s_Endpoints s) [n]) action)).
Proof.
  intros Hn Hv Hwo. destruct (new_entry_good n Hn) as (m & a & He & Ha).
  exists (mkMdnsEntry (n_Id n) (Plain m)), (unsolicited m), (unsolicited (set_TTL 0 m)). split_and!; [done..|].
  intros msg action [[= -> ->]|[[= -> ->]|Hin]%elem_of_cons]%elem_of_cons; [| |by apply not_elem_of_nil in Hin].
  - destruct (watched n m a (TTL m) wo Hn Ha Hv Hwo) as (en & Hen & Hw). exists en.
    assert (set_TTL (TTL m) m = m) as Hm by by destruct m. rewrite Hm in Hen. split; [done|]. rewrite Hw, (an_ttl _ _ _ Ha). done.
  - destruct (watched n m a 0 wo Hn Ha Hv Hwo) as (en & Hen & Hw). by exists en.
Qed.
End found.

(** ** Services that cannot be listed *)
Lemma register_plain `{Wire} `{Net} sys dom s nodes acc gerr :
  Forall (fun e => exists m, en_zone e = Plain m) acc ->
  Forall (fun e => exists m, en_zone e = Plain m) (foldl (register_node sys dom s) (acc, gerr) nodes).1.
Proof.
  revert acc gerr. induction nodes as [|n nodes IH]; intros acc gerr Ha; [done|]. cbn [foldl]. unfold register_node at 2.
  destruct (existsb _ acc); [by apply IH|]. destruct (new_entry sys dom s n) as [e|e] eqn:He; [by apply IH|]. apply IH.
  apply Forall_app. split; [done|]. constructor; [|constructor]. unfold new_entry in He. destruct (encode _); [done|].
  destruct (SplitHostPort _) as [|[h pt]]; [done|]. destruct (NewMDNSService _ _ _ _ _ _ _ _ _) as [|m]; [done|].
  unfold start_server in He. destruct (sys_NewServer sys (Plain m)); [|done]. injection He as <-. by exists m.
Qed.

(** Deregistering a service that is not there hides it from listings. Registering it
    afterwards starts servers for its nodes only, and no wildcard that answers when
    services are listed. *)
Theorem unlisted_service `{Wire} `{Net} sys s s0 m :
  services m !! s_Name s = None -> s_Name s0 = s_Name s ->
  let '(m', _) := Register sys s (Deregister s0 m).1 in
  forall e, e ∈ default [] (services m' !! s_Name s) -> exists z, en_zone e = Plain z.
Proof.
  intros Hnone Hname. unfold Deregister. rewrite Hname, Hnone. cbn [default List.filter fst]. unfold Register. cbn [services domain].
  rewrite lookup_insert_eq. pose proof (register_plain sys (domain m) s (s_Nodes s) [] None) as Hp.
  destruct (foldl _ _ _) as [entries gerr]. cbn [services]. rewrite lookup_insert_eq. cbn [default].
  intros e He. specialize (Hp (Forall_nil_2 _)). rewrite Forall_forall in Hp. by apply Hp.
Qed.

(** ** Examples and witnesses *)

(** Json of one text, and a compression that does nothing. *)
#[local] Instance ex_Wire : Wire := {|
  json_Marshal txt :=
    match t_Endpoints txt, t_Metadata txt with
    | [], None => if String.eqb (t_Service txt) "greeter" && String.eqb (t_Version txt) "v1" then inr "j" else inl "unknown"
    | _, _ => inl "unknown"
    end;
  json_Unmarshal b := if String.eqb b "j" then inr (Some (mkTxt "greeter" "v1" [] None)) else if String.eqb b "null" then inr None else inl "syntax";
  zlib_write s := s;
  zlib_read s := Some s;
|}.

#[local] Instance ex_WireLaws : WireLaws.
Proof.
  split; [|done]. intros [n v eps md] b _. cbn. destruct eps; [|done]. destruct md; [done|].
  destruct (String.eqb_spec n "greeter") as [->|]; [|done]. destruct (String.eqb_spec v "v1") as [->|]; [|done]. by intros [= <-].
Qed.

#[local] Instance ex_Net : Net := {|
  SplitHostPort a := match split_char ":" a with [h; p] => inr (h, p) | _ => inl "address" end; ParseIP := fun _ => true |}.

Definition ex_sys : system := mkSystem (inr "box") (fun _ => None) (fun _ => true) (fun h => if String.eqb h "" then NoIP else V4 h).

Definition ex_node (id a : string) : Node := mkNode None id a.
Definition ex_service : Service := Registry.mkService "greeter" "v1" ∅ [] [ex_node "n1" "10.0.0.1:80"; ex_node "n2" "10.0.0.2:81"].
Definition ex_new : mdnsRegistry := mkMdnsRegistry "micro" ∅.

Lemma ex_good : good_service ex_sys "micro" "box" ex_service.
Proof.
  split; cbn; [by split_and!|by split|done|done| |].
  - apply NoDup_cons. split; [|apply NoDup_singleton]. intros [=]%list_elem_of_singleton.
  - repeat constructor; cbn; try discriminate; [by exists "j"| |by exists "j"|].
    + exists "10.0.0.1", "80", "10.0.0.1". split_and!; by vm_compute.
    + exists "10.0.0.2", "81", "10.0.0.2". split_and!; by vm_compute.
Qed.

Lemma decode_encode_witness :
  decode ["6a"] = Decoded (mkTxt "greeter" "v1" [] None) /\ Forall (fun r => String.length r <= 255) ["6a"].
Proof. apply (decode_encode (mkTxt "greeter" "v1" [] None)); [by split_and!|vm_compute; reflexivity]. Defined.

Definition ex_registered : mdnsRegistry := (Register ex_sys ex_service ex_new).1.
Definition ex_resp (id a : string) (port : Z) : Msg :=
  reply_to (mkQuestion "greeter.micro." TypePTR 1)
    (Mdns.mkService id "greeter" "micro." "box." "greeter.micro." (id +:+ ".greeter.micro.") "_services._dns-sd._udp.micro." [V4 a] ["6a"] port defaultTTL).

Lemma registered_is_found_witness :
  (Register ex_sys ex_service ex_new).2 = None /\ exists nodes, nodes ≡ₚ s_Nodes ex_service /\
    GetService order_id "greeter" (query_run "greeter.micro." [ex_resp "n2" "10.0.0.2" 81; ex_resp "n1" "10.0.0.1" 80] no_progress) ex_registered =
      Ret [Registry.mkService "greeter" "v1" ∅ [] nodes].
Proof.
  apply (registered_is_found ex_sys "micro" "box" ex_service ex_good order_id ex_new ex_registered _
    [ex_node "n2" "10.0.0.2:81"; ex_node "n1" "10.0.0.1:80"]).
  - reflexivity.
  - reflexivity.
  - discriminate.
  - vm_compute. reflexivity.
  - constructor; [|constructor; [|constructor]]; eexists; (split; [|split]);
      [vm_compute; apply elem_of_cons; right; apply elem_of_cons; right; apply elem_of_cons; left; reflexivity|reflexivity|vm_compute; reflexivity
      |vm_compute; apply elem_of_cons; right; apply elem_of_cons; left; reflexivity|reflexivity|vm_compute; reflexivity].
  - intros n Hn. cbn in *. set_solver.
  - intros n Hn. cbn in *. set_solver.
Defined.

Lemma watch_sees_witness :
  exists e hello bye, new_entry ex_sys "micro" ex_service (ex_node "n1" "10.0.0.1:80") = inr e /\
    announcement (en_zone e) = Some hello /\ (unregister (en_zone e)).2 = Some bye /\
    forall msg action, (msg, action) ∈ [(hello, "create"); (bye, "delete")] ->
      exists en, listen_step msg no_progress = (no_progress, Some (Emit en)) /\
        watch_entry "greeter" "micro" en = Ret (Some (mkResult (Registry.mkService "greeter" "v1" ∅ [] [ex_node "n1" "10.0.0.1:80"]) action)).
Proof.
  apply (watch_sees ex_sys "micro" "box" ex_service ex_good (ex_node "n1" "10.0.0.1:80") "greeter");
    [apply elem_of_cons; by left|discriminate|by right].
Defined.

Lemma unlisted_service_witness :
  let '(m', _) := Register ex_sys ex_service (Deregister ex_service ex_new).1 in
  forall e, e ∈ default [] (services m' !! "greeter") -> exists z, en_zone e = Plain z.
Proof. apply (unlisted_service ex_sys ex_service ex_service ex_new); reflexivity. Defined.

(** A text that decodes to nil, as anyone on the network can send it. *)
Example nil_text : watch_entry "" "micro" (mkEntry "n" "" None None ["6e756c6c"] None 1 1 0 true true) = Panic.
Proof. by vm_compute. Qed.

(** Registering a node again with another address changes nothing. *)
Example register_keeps_old :
  (Register ex_sys (Registry.mkService "greeter" "v1" ∅ [] [ex_node "n1" "10.0.0.9:99"]) ex_registered).1 = ex_registered.
Proof. by vm_compute. Qed.
