(* ===== verification/WebService.v ===== *)
(** * Web services: [web/service.go], [web/options.go], [util/http/roundtripper.go]

    A web service listens, serves a handler and keeps itself registered. [W] is the
    world around it: the registry, the hooks of its owner and the answers of other
    services. The first part has the operations, each of which runs under the lock of
    the service; the second the life of a service, its callers and its registration
    loops, as a step relation; the last the client. *)
From S2P Require Import Prelude GoStrings NetUtil Registry.
From S2P Require GoPath Selector.

(** A hook sees and changes the world, and may give an error. *)
Definition Hook (W : Type) : Type := W -> W * option string.

(** The registry of the options, or that of the micro service when there is none. *)
Inductive which := OwnRegistry | ClientRegistry.

Class Registrar (W : Type) := {
  Register : which -> Service -> Z -> Hook W;
  Deregister : which -> Service -> Hook W;
}.

(** What the machine answers when an operation asks: its interfaces, listening with and
    without TLS, which gives the address listened on, the error of making a certificate,
    what is on the disk, and the error of closing a listener. *)
Record env := mkEnv {
  e_interfaces : string + list iface;
  e_Listen : string -> string + string;
  e_tls_Listen : string -> string + string;
  e_Certificate : list string -> option string;
  e_Getwd : string;
  e_Stat : string -> bool;
  e_Close : option string;
}.

Section service.
Context {W : Type} `{Registrar W} `{Net}.

(** ** Data *)

(** [o_Handler]: a handler was given. [o_Profile] starts and stops the profiler of the
    micro service, if it has one. *)
Record Options := mkOptions {
  o_Handler : bool;
  o_Registry : bool;
  o_Metadata : option (gmap string string);
  o_TLSConfig : bool;
  o_RegisterCheck : Hook W;
  o_Version : string;
  o_StaticDir : string;
  o_Advertise : string;
  o_Address : string;
  o_Name : string;
  o_Id : string;
  o_BeforeStart : list (Hook W);
  o_BeforeStop : list (Hook W);
  o_AfterStart : list (Hook W);
  o_AfterStop : list (Hook W);
  o_RegisterInterval : Z;
  o_RegisterTTL : Z;
  o_Secure : bool;
  o_Profile : option (Hook W * Hook W);
}.

(** [newOptions]; a nil check becomes the default check, which lets everything through, and
    [id] is the identifier made when the program starts. *)
Definition newOptions (id : string) (os : list (Options -> Options)) : Options :=
  foldl (fun o f => f o)
    (mkOptions false false None false (fun w => (w, None)) "latest" "html" "" ":0" "go-web" id [] [] [] []
      (30 * 10 ^ 9) (90 * 10 ^ 9) false None) os.

(** The multiplexer is the list of the patterns it has. [exit] is the listener that the
    goroutine behind the channel closes; [ex] says that the channel is closed. *)
Record service := mkService {
  mux : list string;
  srv : Registry.Service;
  exit : option string;
  ex : bool;
  opts : Options;
  running : bool;
  static : bool;
}.

(** A service, the listeners that are open and the world. *)
Record state := mkState { st_s : service; st_open : list string; st_w : W }.

Definition with_s (s : service) (x : state) : state := mkState s (st_open x) (st_w x).
Definition with_w (w : W) (x : state) : state := mkState (st_s x) (st_open x) w.
Definition with_srv (v : Registry.Service) (s : service) : service :=
  mkService (mux s) v (exit s) (ex s) (opts s) (running s) (static s).
Definition with_opts (o : Options) (s : service) : service :=
  mkService (mux s) (srv s) (exit s) (ex s) o (running s) (static s).
Definition with_mux (m : list string) (s : service) : service :=
  mkService m (srv s) (exit s) (ex s) (opts s) (running s) (static s).

Definition set_Address (a : string) (o : Options) : Options :=
  mkOptions (o_Handler o) (o_Registry o) (o_Metadata o) (o_TLSConfig o) (o_RegisterCheck o) (o_Version o)
    (o_StaticDir o) (o_Advertise o) a (o_Name o) (o_Id o) (o_BeforeStart o) (o_BeforeStop o) (o_AfterStart o)
    (o_AfterStop o) (o_RegisterInterval o) (o_RegisterTTL o) (o_Secure o) (o_Profile o).

(** ** What is registered *)

(** [SplitHostPort], whose error is logged: logging as fatal does not end the program. *)
Definition split_or_empty (a : string) : string * string :=
  match SplitHostPort a with inr hp => hp | inl _ => ("", "") end.

(** The host and port to advertise. *)
Definition host_port (o : Options) : string * string :=
  let hp := if 0 <? String.length (o_Address o) then split_or_empty (o_Address o) else ("", "") in
  if 0 <? String.length (o_Advertise o) then split_or_empty (o_Advertise o) else hp.

Definition bracket (addr : string) : string := if 0 <? count ":" addr then "[" +:+ addr +:+ "]" else addr.

Definition genSrv (interfaces : string + list iface) (o : Options) : Registry.Service :=
  let '(host, port) := host_port o in
  let addr := match Extract interfaces host with inr a => a | inl _ => "" end in
  Registry.mkService (o_Name o) (o_Version o) ∅ []
    [mkNode (o_Metadata o) (o_Id o) (JoinHostPort (bracket addr) port)].

(** The service data is made again, its endpoints are kept. *)
Definition regen (interfaces : string + list iface) (s : service) : service :=
  let v := genSrv interfaces (opts s) in
  with_srv (Registry.mkService (s_Name v) (s_Version v) (s_Metadata v) (s_Endpoints (srv s)) (s_Nodes v)) s.

Definition newService (interfaces : string + list iface) (o : Options) : service :=
  mkService [] (genSrv interfaces o) None false o false true.

Definition registry_of (o : Options) : which := if o_Registry o then OwnRegistry else ClientRegistry.

(** The loop of [register]; it sleeps after an attempt that failed, the last one too. *)
Fixpoint attempts (n : nat) (r : which) (v : Registry.Service) (ttl : Z) (last : option string) (w : W) :
    W * option string :=
  match n with
  | 0 => (w, last)
  | S n =>
      match Register r v ttl w with
      | (w, Some err) => attempts n r v ttl (Some err) w
      | (w, None) => (w, None)
      end
  end.

Definition register (e : env) (x : state) : state * option string :=
  let s := regen (e_interfaces e) (st_s x) in
  match o_RegisterCheck (opts s) (st_w x) with
  | (w, Some err) => (mkState s (st_open x) w, Some err)
  | (w, None) =>
      let '(w, err) := attempts 3 (registry_of (opts s)) (srv s) (o_RegisterTTL (opts s)) None w in
      (mkState s (st_open x) w, err)
  end.

Definition deregister (x : state) : state * option string :=
  let s := st_s x in
  let '(w, err) := Deregister (registry_of (opts s)) (srv s) (st_w x) in (with_w w x, err).

(** ** Starting and stopping *)

(** Hooks run in their order until one gives an error. *)
Fixpoint run_hooks (fns : list (Hook W)) (w : W) : W * option string :=
  match fns with
  | [] => (w, None)
  | fn :: fns => match fn w with (w, Some err) => (w, Some err) | (w, None) => run_hooks fns w end
  end.

(** The hosts a certificate is made for. *)
Definition cert_hosts (e : env) (addr : string) : list string :=
  match SplitHostPort addr with
  | inr (host, _) => if String.length host =? 0 then IPs (e_interfaces e) else [host]
  | inl _ => [addr]
  end.

Definition listen (e : env) (o : Options) (addr : string) : string + string :=
  if o_Secure o || o_TLSConfig o then
    let fn addr :=
      if o_TLSConfig o then e_tls_Listen e addr
      else match e_Certificate e (cert_hosts e addr) with Some err => inl err | None => e_tls_Listen e addr end in
    Listen fn addr
  else Listen (e_Listen e) addr.

(** [ServeMux.Handle] panics when a pattern is empty or there already. *)
Definition mux_Handle (pattern : string) (m : list string) : option (list string) :=
  if String.eqb pattern "" || existsb (String.eqb pattern) m then None else Some (m ++ [pattern]).

(** [StaticDir[0]] panics when there is no directory. *)
Definition static_dir (e : env) (o : Options) : option string :=
  match o_StaticDir o with
  | "" => None
  | String c _ => Some (if Ascii.eqb c "/" then o_StaticDir o else GoPath.Join [e_Getwd e; o_StaticDir o])
  end.

(** The handler that is served; [None] is a panic. *)
Definition install (e : env) (s : service) : option service :=
  if o_Handler (opts s) then Some s
  else
    match static_dir e (opts s) with
    | None => None
    | Some dir => if static s && e_Stat e dir then m ← mux_Handle "/" (mux s); Some (with_mux m s) else Some s
    end.

Definition started (laddr : string) (s : service) : service :=
  mkService (mux s) (srv s) (Some laddr) (ex s) (opts s) true (static s).

Definition start (e : env) (x : state) : state * outcome string unit :=
  if running (st_s x) then (x, Ret tt)
  else
    match run_hooks (o_BeforeStart (opts (st_s x))) (st_w x) with
    | (w, Some err) => (with_w w x, Fail err)
    | (w, None) =>
        match listen e (opts (st_s x)) (o_Address (opts (st_s x))) with
        | inl err => (with_w w x, Fail err)
        | inr laddr =>
            let s := regen (e_interfaces e) (with_opts (set_Address laddr (opts (st_s x))) (st_s x)) in
            let open := st_open x ++ [laddr] in
            match install e s with
            | None => (mkState s open w, Panic)
            | Some s =>
                match run_hooks (o_AfterStart (opts s)) w with
                | (w, Some err) => (mkState s open w, Fail err)
                | (w, None) => (mkState (started laddr s) open w, Ret tt)
                end
            end
        end
    end.

(** One listener of that address less. *)
Fixpoint close_one (l : string) (open : list string) : list string :=
  match open with [] => [] | l' :: open => if String.eqb l l' then open else l' :: close_one l open end.

Definition stopped (s : service) : service := mkService (mux s) (srv s) (exit s) (ex s) (opts s) false (static s).

(** The goroutine behind [exit] closes its listener and sends the error of closing. *)
Definition stop (e : env) (x : state) : state * option string :=
  if negb (running (st_s x)) then (x, None)
  else
    match run_hooks (o_BeforeStop (opts (st_s x))) (st_w x) with
    | (w, Some err) => (with_w w x, Some err)
    | (w, None) =>
        let open := match exit (st_s x) with Some l => close_one l (st_open x) | None => st_open x end in
        match run_hooks (o_AfterStop (opts (st_s x))) w with
        | (w, Some err) =>
            (mkState (stopped (st_s x)) open w, match e_Close e with Some c => Some c | None => Some err end)
        | (w, None) => (mkState (stopped (st_s x)) open w, e_Close e)
        end
    end.

(** ** Handlers and options *)
Definition has_endpoint (pattern : string) (s : service) : bool :=
  existsb (fun ep => String.eqb (e_Name ep) pattern) (s_Endpoints (srv s)).

Definition add_endpoint (pattern : string) (s : service) : service :=
  let v := srv s in
  with_srv (Registry.mkService (s_Name v) (s_Version v) (s_Metadata v)
    (s_Endpoints v ++ [mkEndpoint None None ∅ pattern]) (s_Nodes v)) s.

Definition disable_static (pattern : string) (s : service) : service :=
  if String.eqb pattern "/" then mkService (mux s) (srv s) (exit s) (ex s) (opts s) (running s) false else s.

(** [Handle] and [HandleFunc], by one goroutine; [None] is a panic of the multiplexer,
    which leaves the endpoint and [static] changed. *)
Definition Handle (pattern : string) (s : service) : service * bool :=
  let s := if has_endpoint pattern s then s else add_endpoint pattern s in
  let s := disable_static pattern s in
  match mux_Handle pattern (mux s) with
  | None => (s, false)
  | Some m => (with_mux m s, true)
  end.

(** The options that the command line sets; 0 and the empty text set nothing. *)
Record flags := mkFlags {
  f_register_ttl : Z;
  f_register_interval : Z;
  f_name : string;
  f_version : string;
  f_id : string;
  f_address : string;
  f_advertise : string;
}.

Definition second : Z := 10 ^ 9.

Definition or_text (new old : string) : string := if 0 <? String.length new then new else old.
Definition or_seconds (new old : Z) : Z := if (0 <? new)%Z then wrap64 (new * second) else old.

Definition action (f : flags) (o : Options) : Options :=
  mkOptions (o_Handler o) (o_Registry o) (o_Metadata o) (o_TLSConfig o) (o_RegisterCheck o)
    (or_text (f_version f) (o_Version o)) (o_StaticDir o) (or_text (f_advertise f) (o_Advertise o))
    (or_text (f_address f) (o_Address o)) (or_text (f_name f) (o_Name o)) (or_text (f_id f) (o_Id o))
    (o_BeforeStart o) (o_BeforeStop o) (o_AfterStart o) (o_AfterStop o)
    (or_seconds (f_register_interval f) (o_RegisterInterval o)) (or_seconds (f_register_ttl f) (o_RegisterTTL o))
    (o_Secure o) (o_Profile o).

(** [Init]: the options, then the action where the micro service runs it, with the flags
    [f], then the data again, each under the lock. *)
Definition init_options (os : list (Options -> Options)) (s : service) : service :=
  with_opts (foldl (fun o f => f o) (opts s) os) s.

Definition init_action (f : option flags) (s : service) : service :=
  match f with Some f => with_opts (action f (opts s)) s | None => s end.

Definition Init (os : list (Options -> Options)) (f : option flags) (interfaces : string + list iface) (s : service) :
    service := regen interfaces (init_action f (init_options os s)).

(** ** The life of a service

    The calls of the methods and the registration loops are interleaved; a step of a
    caller is what it does under the lock, or between two uses of it. *)
Inductive cmd := CStart | CRun | CStop.

(** Where a call is. [Start] and [Run] begin at [AtStart], [Stop] at [AtClose], [Handle]
    and [HandleFunc] at [AtSeen], [Init] at [AtInit]; [Run] waits for a signal or its
    context at [AtWait]. *)
Inductive caller :=
| AtStart (c : cmd)
| AtProfile
| AtRegister (c : cmd)
| AtSpawn (c : cmd)
| AtWait
| AtClose (c : cmd)
| AtDeregister (c : cmd)
| AtStop (c : cmd)
| AtSeen (pattern : string)
| AtAppend (pattern : string)
| AtStatic (pattern : string)
| AtMux (pattern : string)
| AtInit (os : list (Options -> Options)) (f : option flags)
| AtAction (f : option flags)
| AtGenSrv
| Returned (err : option string)
| Panicked.

(** The goroutines of [run]: before it has looked at the interval, waiting for the ticker
    or the end of the channel [ex], waiting for the lock to register, and ended. *)
Inductive loop := LNew | LSelect | LTick | LEnded.

Record sys := mkSys { y_st : state; y_callers : list caller; y_loops : list loop }.

(** The profiler that [Run] stops when it is left. *)
Definition leave (c : cmd) (x : state) : state :=
  match c, o_Profile (opts (st_s x)) with
  | CRun, Some (_, profile_Stop) => with_w (profile_Stop (st_w x)).1 x
  | _, _ => x
  end.

Definition close_ex (s : service) : service := mkService (mux s) (srv s) (exit s) true (opts s) (running s) (static s).

Definition advance (e : env) (c : caller) (x : state) : state * caller * list loop :=
  match c with
  | AtStart c =>
      match start e x with
      | (x, Ret _) => (x, match c with CRun => AtProfile | _ => AtRegister c end, [])
      | (x, Fail err) => (x, Returned (Some err), [])
      | (x, Panic) => (x, Panicked, [])
      end
  | AtProfile =>
      match o_Profile (opts (st_s x)) with
      | None => (x, AtRegister CRun, [])
      | Some (profile_Start, _) =>
          match profile_Start (st_w x) with
          | (w, Some err) => (with_w w x, Returned (Some err), [])
          | (w, None) => (with_w w x, AtRegister CRun, [])
          end
      end
  | AtRegister c =>
      match register e x with
      | (x, Some err) => (leave c x, Returned (Some err), [])
      | (x, None) => (x, AtSpawn c, [])
      end
  | AtSpawn CRun => (x, AtWait, [LNew])
  | AtSpawn _ => (x, Returned None, [LNew])
  | AtWait => (x, AtClose CRun, [])
  | AtClose c => if ex (st_s x) then (leave c x, Panicked, []) else (with_s (close_ex (st_s x)) x, AtDeregister c, [])
  | AtDeregister c =>
      match deregister x with
      | (x, Some err) => (leave c x, Returned (Some err), [])
      | (x, None) => (x, AtStop c, [])
      end
  | AtStop c => let '(x, err) := stop e x in (leave c x, Returned err, [])
  | AtSeen p => (x, if has_endpoint p (st_s x) then AtStatic p else AtAppend p, [])
  | AtAppend p => (with_s (add_endpoint p (st_s x)) x, AtStatic p, [])
  | AtStatic p => (with_s (disable_static p (st_s x)) x, AtMux p, [])
  | AtMux p =>
      match mux_Handle p (mux (st_s x)) with
      | None => (x, Panicked, [])
      | Some m => (with_s (with_mux m (st_s x)) x, Returned None, [])
      end
  | AtInit os f => (with_s (init_options os (st_s x)) x, AtAction f, [])
  | AtAction f => (with_s (init_action f (st_s x)) x, AtGenSrv, [])
  | AtGenSrv => (with_s (regen (e_interfaces e) (st_s x)) x, Returned None, [])
  | Returned _ | Panicked => (x, c, [])
  end.

(** Where the calls of methods begin. *)
Definition entry (c : caller) : Prop :=
  match c with AtStart CStart | AtStart CRun | AtClose CStop | AtSeen _ | AtInit _ _ => True | _ => False end.

(** [ok] are the calls there are. *)
Inductive lstep (ok : caller -> Prop) : sys -> sys -> Prop :=
| l_call x c : entry c -> ok c -> lstep ok x (mkSys (y_st x) (y_callers x ++ [c]) (y_loops x))
| l_go x i c e st c' ls : y_callers x !! i = Some c -> advance e c (y_st x) = (st, c', ls) ->
    lstep ok x (mkSys st (<[i := c']> (y_callers x)) (y_loops x ++ ls))
| l_begin x j : y_loops x !! j = Some LNew ->
    lstep ok x (mkSys (y_st x) (y_callers x)
      (<[j := if (o_RegisterInterval (opts (st_s (y_st x))) <=? 0)%Z then LEnded else LSelect]> (y_loops x)))
| l_tick x j : y_loops x !! j = Some LSelect -> lstep ok x (mkSys (y_st x) (y_callers x) (<[j := LTick]> (y_loops x)))
| l_beat x j e : y_loops x !! j = Some LTick ->
    lstep ok x (mkSys (register e (y_st x)).1 (y_callers x) (<[j := LSelect]> (y_loops x)))
| l_end x j : y_loops x !! j = Some LSelect -> ex (st_s (y_st x)) = true ->
    lstep ok x (mkSys (y_st x) (y_callers x) (<[j := LEnded]> (y_loops x))).

Inductive lsteps (ok : caller -> Prop) (x : sys) : sys -> Prop :=
| lsteps_refl : lsteps ok x x
| lsteps_step y z : lsteps ok x y -> lstep ok y z -> lsteps ok x z.

Definition new_sys (interfaces : string + list iface) (o : Options) (w : W) : sys :=
  mkSys (mkState (newService interfaces o) [] w) [] [].
End service.

Arguments Options : clear implicits.
Arguments service : clear implicits.
Arguments state : clear implicits.
Arguments sys : clear implicits.
Arguments caller : clear implicits.

(** ** The client of web services: [util/http/roundtripper.go] *)
Section client.
Context {W Resp : Type} (GetService : string -> W -> W * (string + list Service))
  (send : string -> W -> W * option Resp).

Definition failed_request : string := "failed request".

(** The loop of [RoundTrip]; [n] tries are left and [rands] are the numbers drawn. *)
Fixpoint tries (n : nat) (next : Selector.Next) (rands : list Z) (w : W) : W * outcome string Resp :=
  match n with
  | 0 => (w, Fail failed_request)
  | S n =>
      match Selector.call next (default 0%Z (head rands)) with
      | (next, Fail _) => tries n next (tail rands) w
      | (_, Panic) => (w, Panic)
      | (next, Ret node) =>
          match send (n_Address node) w with
          | (w, Some r) => (w, Ret r)
          | (w, None) => tries n next (tail rands) w
          end
      end
  end.

Definition RoundTrip (host : string) (rands : list Z) (w : W) : W * outcome string Resp :=
  match GetService host w with
  | (w, inl err) => (w, Fail err)
  | (w, inr services) => tries 3 (Selector.Random services 0%Z) rands w
  end.
End client.

(** ** What a service keeps *)
Section facts.
Context {W : Type} `{Registrar W} `{Net}.

Definition never_fails (fns : list (Hook W)) : Prop := Forall (fun fn => forall w, (fn w).2 = None) fns.

Lemma run_hooks_never fns w : never_fails fns -> (run_hooks fns w).2 = None.
Proof.
  intros Hf. revert w. induction Hf as [|fn fns Hfn _ IH]; intros w; [done|]. cbn. specialize (Hfn w).
  destruct (fn w) as [w' err]. cbn in Hfn. subst. apply IH.
Qed.

(** The options, but for the address. *)
Definition same_options (o o' : Options W) : Prop := set_Address "" o = set_Address "" o'.

(** The node of the service is what the options say, on some state of the machine. *)
Definition node_ok (s : service W) : Prop :=
  exists interfaces, s_Nodes (srv s) = s_Nodes (genSrv interfaces (opts s)) /\
    s_Name (srv s) = o_Name (opts s) /\ s_Version (srv s) = o_Version (opts s).

(** Options with a handler of their own, and hooks after a start that do not fail. *)
Definition good (o : Options W) : Prop := o_Handler o = true /\ never_fails (o_AfterStart o).

Lemma good_same o o' : same_options o o' -> good o -> good o'.
Proof.
  intros Hs [Hh Hf]. split; [by rewrite <- (f_equal o_Handler Hs : o_Handler o = o_Handler o')|].
  by rewrite <- (f_equal o_AfterStart Hs : o_AfterStart o = o_AfterStart o').
Qed.

Context (ok : caller W -> Prop).

(** The calls of [Init]: their options leave good options good; they and their flags leave
    the address alone; there are none. *)
Definition tame_inits : Prop := forall os f, ok (AtInit os f) -> Forall (fun g => forall o, good o -> good (g o)) os.
Definition address_kept : Prop := forall os f, ok (AtInit os f) ->
  Forall (fun g => forall o, o_Address (g o) = o_Address o) os /\ forall fl, f = Some fl -> f_address fl = "".
Definition no_inits : Prop := forall os f, ~ ok (AtInit os f).

Definition listener_ok (x : state W) : Prop :=
  if running (st_s x) then exists l, exit (st_s x) = Some l /\ st_open x = [l] /\ (address_kept -> o_Address (opts (st_s x)) = l)
  else st_open x = [].

Definition state_ok (o : Options W) (x : state W) : Prop :=
  good (opts (st_s x)) /\ (no_inits -> same_options o (opts (st_s x))) /\ listener_ok x /\
  forall p, p ∈ mux (st_s x) -> has_endpoint p (st_s x) = true.

Lemma has_endpoint_eq p (s s' : service W) :
  s_Endpoints (srv s) = s_Endpoints (srv s') -> has_endpoint p s = has_endpoint p s'.
Proof. by unfold has_endpoint; intros ->. Qed.

(** What every operation but those of [Handle] does not touch. *)
Definition quiet (s s' : service W) : Prop :=
  mux s' = mux s /\ s_Endpoints (srv s') = s_Endpoints (srv s) /\ static s' = static s /\ ex s' = ex s /\
  same_options (opts s) (opts s').

Lemma unmoved s : quiet s s.
Proof. by split_and!. Qed.

Lemma regen_quiet interfaces s : quiet s (regen interfaces s).
Proof. unfold regen, genSrv. by destruct (host_port (opts s)). Qed.

Lemma regen_keeps interfaces (s : service W) :
  opts (regen interfaces s) = opts s /\ running (regen interfaces s) = running s /\ exit (regen interfaces s) = exit s.
Proof. unfold regen, genSrv. by destruct (host_port (opts s)). Qed.

Lemma regen_node interfaces s : node_ok (regen interfaces s).
Proof. exists interfaces. unfold regen, genSrv. cbn. by destruct (host_port (opts s)). Qed.

Lemma state_ok_quiet o x y : state_ok o x -> quiet (st_s x) (st_s y) -> listener_ok y -> state_ok o y.
Proof.
  intros (Hg & Ho & _ & Hm) (Hmux & Hep & _ & _ & Hopt) Hl. split_and!; [by eapply good_same| |done|].
  - intros Hn. specialize (Ho Hn). unfold same_options in *. congruence.
  - intros p Hp. rewrite Hmux in Hp. rewrite (has_endpoint_eq p _ _ Hep). by apply Hm.
Qed.

Lemma state_ok_w o w x : state_ok o x -> state_ok o (with_w w x).
Proof. done. Qed.

(** Registering makes the data of the service again and changes nothing else. *)
Lemma register_shape e x : exists w err, register e x = (mkState (regen (e_interfaces e) (st_s x)) (st_open x) w, err).
Proof.
  unfold register. destruct (o_RegisterCheck _ _) as [w [err|]]; [by eexists _, _|]. destruct (attempts _ _ _ _ _ _) as [w' err].
  by eexists _, _.
Qed.

Lemma register_ok e o x : state_ok o x -> state_ok o (register e x).1.
Proof.
  intros Hx. destruct (register_shape e x) as (w & err & ->). cbn.
  eapply state_ok_quiet; [exact Hx|apply regen_quiet|].
  unfold listener_ok. unfold regen, genSrv. destruct (host_port _). cbn. apply Hx.
Qed.

Lemma leave_shape c (x : state W) : exists w, leave c x = with_w w x.
Proof.
  destruct x as [s l w]. unfold leave. destruct c; try by exists w.
  destruct (o_Profile _) as [[? profile_Stop]|]; [by eexists|by exists w].
Qed.

Lemma deregister_shape x : exists w err, deregister x = (with_w w x, err).
Proof. unfold deregister. destruct (Deregister _ _ _) as [w err]. by exists w, err. Qed.

Lemma set_Address_same a (o : Options W) : same_options o (set_Address a o).
Proof. done. Qed.

(** What a service that was not running becomes when it starts. *)
Definition started_on (e : env) (laddr : string) (s : service W) : service W :=
  started laddr (regen (e_interfaces e) (with_opts (set_Address laddr (opts s)) s)).

(** With a handler of its own and hooks that do not fail, a start either fails before it
    has opened anything or makes the service run. *)
Lemma start_shape e (x : state W) :
  o_Handler (opts (st_s x)) = true -> never_fails (o_AfterStart (opts (st_s x))) -> running (st_s x) = false ->
  (exists w err, start e x = (with_w w x, Fail err)) \/
  exists w laddr, start e x = (mkState (started_on e laddr (st_s x)) (st_open x ++ [laddr]) w, Ret tt).
Proof.
  intros Hh Hf Hr. unfold start. rewrite Hr. destruct (run_hooks (o_BeforeStart _) _) as [w [err|]]; [left; by eexists _, _|].
  destruct (listen _ _ _) as [err|laddr]; [left; by eexists _, _|]. right.
  set (s := regen _ _). destruct (regen_quiet (e_interfaces e) (with_opts (set_Address laddr (opts (st_s x))) (st_s x)))
    as (_ & _ & _ & _ & _). unfold install.
  assert (opts s = set_Address laddr (opts (st_s x))) as Ho by apply regen_keeps.
  rewrite Ho. cbn [set_Address o_Handler]. rewrite Hh.
  pose proof (run_hooks_never (o_AfterStart (opts (st_s x))) w Hf) as Hrun. rewrite Ho. cbn [set_Address o_AfterStart].
  destruct (run_hooks (o_AfterStart (opts (st_s x))) w) as [w' err]. cbn in Hrun. subst err. by exists w', laddr.
Qed.

(** What a stop does to the service and its listeners. *)
Lemma stop_shape e (x : state W) :
  running (st_s x) = true ->
  (exists w err, stop e x = (with_w w x, Some err)) \/
  exists w err, stop e x =
    (mkState (stopped (st_s x)) (match exit (st_s x) with Some l => close_one l (st_open x) | None => st_open x end) w, err).
Proof.
  intros Hr. unfold stop. rewrite Hr. cbn. destruct (run_hooks (o_BeforeStop _) _) as [w [err|]]; [left; by eexists _, _|].
  right. destruct (run_hooks _ _) as [w' [err|]]; by eexists _, _.
Qed.

Lemma start_ok e o x : state_ok o x ->
  state_ok o (start e x).1 /\ quiet (st_s x) (st_s (start e x).1) /\ (start e x).2 <> Panic /\
  (node_ok (st_s x) -> node_ok (st_s (start e x).1)).
Proof.
  intros Hx. destruct (running (st_s x)) eqn:Hr.
  { unfold start. rewrite Hr. split_and!; [done|apply unmoved|done|done]. }
  pose proof Hx as ((Hh & Hf) & _ & Hl & _). unfold listener_ok in Hl. rewrite Hr in Hl.
  destruct (start_shape e x Hh Hf Hr) as [(w & err & ->)|(w & laddr & ->)].
  { split_and!; [done|apply unmoved|done|done]. }
  assert (quiet (st_s x) (started_on e laddr (st_s x))) as Hq.
  { exact (regen_quiet (e_interfaces e) (with_opts (set_Address laddr (opts (st_s x))) (st_s x))). }
  split_and!; [|exact Hq|done|].
  - eapply state_ok_quiet; [exact Hx|exact Hq|].
    unfold listener_ok, started_on, regen, genSrv. destruct (host_port _). cbn. exists laddr. by rewrite Hl.
  - intros _. exact (regen_node (e_interfaces e) (with_opts (set_Address laddr (opts (st_s x))) (st_s x))).
Qed.

Lemma stop_ok e o x : state_ok o x ->
  state_ok o (stop e x).1 /\ quiet (st_s x) (st_s (stop e x).1) /\ (node_ok (st_s x) -> node_ok (st_s (stop e x).1)).
Proof.
  intros Hx. destruct (running (st_s x)) eqn:Hr; [|unfold stop; rewrite Hr; split_and!; [done|apply unmoved|done]].
  destruct (stop_shape e x Hr) as [(w & err & ->)|(w & err & ->)]; [split_and!; [done|apply unmoved|done]|].
  assert (quiet (st_s x) (stopped (st_s x))) as Hq by done. split_and!; [|exact Hq|done].
  pose proof Hx as (_ & _ & Hl & _). eapply state_ok_quiet; [exact Hx|exact Hq|].
  unfold listener_ok in *. rewrite Hr in Hl. cbn. destruct Hl as (l & -> & -> & _). cbn. by rewrite String.eqb_refl.
Qed.

Lemma has_endpoint_add p q (s : service W) :
  has_endpoint q (add_endpoint p s) = has_endpoint q s || String.eqb p q.
Proof. unfold has_endpoint, add_endpoint. cbn. rewrite existsb_app. cbn. by rewrite orb_false_r. Qed.

Lemma mux_Handle_some p (m m' : list string) q : mux_Handle p m = Some m' -> q ∈ m' -> q ∈ m \/ q = p.
Proof. unfold mux_Handle. case_match; [done|]. intros [= <-]. rewrite elem_of_app, list_elem_of_singleton. done. Qed.

(** A handler that is about to be added to the multiplexer is an endpoint already. *)
Definition caller_ok (s : service W) (c : caller W) : Prop :=
  match c with
  | AtStatic p | AtMux p => has_endpoint p s = true
  | AtInit os f => ok (AtInit os f)
  | AtAction f => exists os, ok (AtInit os f)
  | _ => True
  end.

(** [Init] has changed the options and not yet made the data again. *)
Definition inside (c : caller W) : Prop := match c with AtAction _ | AtGenSrv => True | _ => False end.

Definition grows (s s' : service W) : Prop := forall p, has_endpoint p s = true -> has_endpoint p s' = true.

Lemma quiet_grows s s' : quiet s s' -> grows s s'.
Proof. intros (_ & He & _) p. by rewrite (has_endpoint_eq p s s'). Qed.

Lemma grows_refl s : grows s s.
Proof. by intros p. Qed.

#[local] Ltac settled := solve [done | by left | by right | eassumption | apply grows_refl | intros ? ?; eassumption].

Lemma caller_ok_grows s s' c : grows s s' -> caller_ok s c -> caller_ok s' c.
Proof. intros Hg. destruct c; cbn; auto. Qed.

(** The sections of [Init]. *)
Lemma foldl_good os (o : Options W) :
  Forall (fun g => forall o, good o -> good (g o)) os -> good o -> good (foldl (fun o f => f o) o os).
Proof. intros Hf. revert o. induction Hf as [|g os Hg _ IH]; intros o Ho; cbn; [done|]. auto. Qed.

Lemma foldl_address os (o : Options W) :
  Forall (fun g => forall o, o_Address (g o) = o_Address o) os -> o_Address (foldl (fun o f => f o) o os) = o_Address o.
Proof. intros Hf. revert o. induction Hf as [|g os Hg _ IH]; intros o; cbn; [done|]. by rewrite IH, Hg. Qed.

Lemma with_opts_ok o x o' : state_ok o x -> good o' -> ~ no_inits -> (address_kept -> o_Address o' = o_Address (opts (st_s x))) ->
  state_ok o (with_s (with_opts o' (st_s x)) x).
Proof.
  intros (_ & _ & Hl & Hm) Hg Hn Ha. split_and!; [done|done| |done]. unfold listener_ok in *. cbn. destruct (running (st_s x)); [|done].
  destruct Hl as (l & He & Ho & Hk). exists l. split_and!; [done|done|]. intros Hx. by rewrite Ha, Hk.
Qed.

Lemma init_options_ok o x os f : tame_inits -> ok (AtInit os f) -> state_ok o x -> state_ok o (with_s (init_options os (st_s x)) x).
Proof.
  intros Ht Hok Hx. apply with_opts_ok; [done| |intros Hn; by apply (Hn os f)|].
  - apply foldl_good; [by eapply Ht|apply Hx].
  - intros Ha. apply foldl_address. by destruct (Ha os f Hok).
Qed.

Lemma init_action_ok o x os f : ok (AtInit os f) -> state_ok o x -> state_ok o (with_s (init_action f (st_s x)) x).
Proof.
  intros Hok Hx. destruct f as [f|]; [|by destruct x]. apply with_opts_ok; [done|exact (proj1 Hx)|intros Hn; by apply (Hn os (Some f))|].
  intros Ha. destruct (Ha _ _ Hok) as [_ Hf]. cbn. by rewrite (Hf f eq_refl).
Qed.

Lemma regen_ok interfaces o x : state_ok o x -> state_ok o (with_s (regen interfaces (st_s x)) x).
Proof.
  intros Hx. eapply state_ok_quiet; [exact Hx|apply regen_quiet|]. unfold listener_ok, regen, genSrv. destruct (host_port _). apply Hx.
Qed.

(** A step of a caller keeps the service in order and leaves every endpoint there; what is
    registered goes with the options, unless an [Init] is under way. *)
Lemma advance_ok e c o x x' c' ls :
  tame_inits -> state_ok o x -> caller_ok (st_s x) c -> advance e c x = (x', c', ls) ->
  state_ok o x' /\ grows (st_s x) (st_s x') /\ caller_ok (st_s x') c' /\
  (node_ok (st_s x) \/ inside c -> node_ok (st_s x') \/ inside c').
Proof.
  intros Ht Hx Hc Ha. pose proof grows_refl as Hrefl.
  assert (forall c y, state_ok o y -> grows (st_s x) (st_s y) -> (node_ok (st_s x) -> node_ok (st_s y)) ->
    state_ok o (leave c y) /\ grows (st_s x) (st_s (leave c y)) /\ (node_ok (st_s x) \/ False -> node_ok (st_s (leave c y)) \/ False)) as Hleave.
  { intros c0 y Hy Hg Hn. destruct (leave_shape c0 y) as [w ->]. split_and!; [done|done|]. intros [?|[]]. left. by apply Hn. }
  destruct c as [c| |c|c| |c|c|c|p|p|p|p|os f|f| |r|]; cbn [advance caller_ok inside] in *.
  - destruct (start_ok e o x Hx) as (Hs & Hq & Hp & Hn). apply quiet_grows in Hq.
    destruct (start e x) as [y [[]|err|]]; simplify_eq; cbn in *; [|split_and!; try settled; tauto].
    split_and!; [done|done|by destruct c|]. intros [?|[]]. left. by apply Hn.
  - destruct (o_Profile _) as [[f g]|]; [destruct (f _) as [w [err|]]|]; simplify_eq; split_and!; settled.
  - pose proof (register_ok e o x Hx) as Hs. destruct (register_shape e x) as (w & err & Hr). rewrite Hr in Ha, Hs. cbn in Hs.
    assert (grows (st_s x) (regen (e_interfaces e) (st_s x))) as Hg by apply quiet_grows, regen_quiet.
    pose proof (regen_node (e_interfaces e) (st_s x)) as Hn.
    destruct err; simplify_eq; [|split_and!; settled].
    destruct (Hleave c (mkState (regen (e_interfaces e) (st_s x)) (st_open x) w) Hs Hg (fun _ => Hn)) as (? & ? & ?). split_and!; settled.
  - destruct c; simplify_eq; split_and!; settled.
  - simplify_eq; split_and!; settled.
  - destruct (ex (st_s x)); simplify_eq; [destruct (Hleave c x Hx (Hrefl _) id) as (? & ? & ?)|]; split_and!; settled.
  - destruct (deregister_shape x) as (w & err & Hd). rewrite Hd in Ha.
    destruct err; simplify_eq; [|split_and!; settled].
    destruct (Hleave c (with_w w x) Hx (Hrefl _) id) as (? & ? & ?). split_and!; settled.
  - destruct (stop_ok e o x Hx) as (Hs & Hq & Hn). destruct (stop e x) as [y err]. simplify_eq. cbn in *.
    destruct (Hleave c y Hs (quiet_grows _ _ Hq) Hn) as (? & ? & ?). split_and!; settled.
  - destruct (has_endpoint p (st_s x)) eqn:Hp; simplify_eq; split_and!; settled.
  - simplify_eq. assert (grows (st_s x) (add_endpoint p (st_s x))) as Hg.
    { intros q Hq. by rewrite has_endpoint_add, Hq. }
    split_and!; [|exact Hg| |settled].
    + destruct Hx as (Ho & Hn & Hl & Hm). split_and!; [done|done|done|]. intros q Hq. apply Hg. by apply Hm.
    + change (has_endpoint p (add_endpoint p (st_s x)) = true). by rewrite has_endpoint_add, String.eqb_refl, orb_true_r.
  - simplify_eq. unfold disable_static. destruct (String.eqb p "/"); split_and!; settled.
  - destruct (mux_Handle p _) as [m|] eqn:Hmux; simplify_eq; [|split_and!; settled]. split_and!; [|settled|settled|settled].
    destruct Hx as (Ho & Hn & Hl & Hm). split_and!; [exact Ho|exact Hn|exact Hl|]. intros q Hq. cbn in Hq.
    destruct (mux_Handle_some p _ _ q Hmux Hq) as [Hq' | ->]; [by apply Hm|done].
  - simplify_eq. split_and!; [by eapply init_options_ok|by intros q|by exists os|by right].
  - simplify_eq. destruct Hc as [os Hc]. split_and!; [by eapply init_action_ok| |done|by right]. destruct f; by intros q.
  - simplify_eq. split_and!; [by apply regen_ok|apply quiet_grows, regen_quiet|done|]. intros _. left. apply regen_node.
  - simplify_eq. split_and!; settled.
  - simplify_eq. split_and!; settled.
Qed.

Definition sys_ok (o : Options W) (x : sys W) : Prop :=
  state_ok o (y_st x) /\ Forall (caller_ok (st_s (y_st x))) (y_callers x) /\
  (node_ok (st_s (y_st x)) \/ exists i c, y_callers x !! i = Some c /\ inside c).

Lemma lstep_ok o x y : tame_inits -> sys_ok o x -> lstep ok x y -> sys_ok o y.
Proof.
  intros Ht (Hx & Hc & Hn) Hs. destruct Hs as [x c He Hok|x i c e st c' ls Hi Ha|x j Hj|x j Hj|x j e Hj|x j Hj Hex]; try by split_and!.
  - split_and!; [done| |].
    + apply Forall_app. split; [done|]. apply Forall_singleton. by destruct c as [[]| | | | |[]| | | | | | | | | | |].
    + destruct Hn as [?|(i & c0 & Hi & ?)]; [by left|right]. exists i, c0. split; [by apply lookup_app_l_Some|done].
  - pose proof Hc as Hci. rewrite Forall_lookup in Hci. specialize (Hci i c Hi). pose proof (lookup_lt_Some _ _ _ Hi) as Hlt.
    destruct (advance_ok e c o _ _ _ _ Ht Hx Hci Ha) as (Hst & Hg & Hc' & Hn'). split_and!; [done| |]; cbn.
    + apply Forall_insert; [|done]. eapply Forall_impl; [exact Hc|]. intros c0. by apply caller_ok_grows.
    + assert (node_ok (st_s (y_st x)) \/ inside c \/ exists i' c0, i' <> i /\ y_callers x !! i' = Some c0 /\ inside c0) as [Hb|[Hb|Hb]].
      { destruct Hn as [?|(i' & c0 & Hi' & Hin)]; [by left|right]. destruct (decide (i' = i)) as [->|]; [left; congruence|right; eauto]. }
      1,2: destruct (Hn' ltac:(by eauto)) as [?|?]; [by left|right; exists i, c'; by rewrite list_lookup_insert_eq].
      right. destruct Hb as (i' & c0 & Hne & Hi' & Hin). exists i', c0. by rewrite list_lookup_insert_ne.
  - split_and!; [by apply register_ok| |]; cbn; destruct (register_shape e (y_st x)) as (w & err & ->); cbn.
    + eapply Forall_impl; [exact Hc|]. intros c0. apply caller_ok_grows, quiet_grows, regen_quiet.
    + left. apply regen_node.
Qed.

Lemma new_sys_ok interfaces o (w : W) : good o -> sys_ok o (new_sys interfaces o w).
Proof.
  intros Hg. split_and!; [split_and!; [done|done|done|]|constructor|].
  - intros p Hp. by apply elem_of_nil in Hp.
  - left. exists interfaces. cbn. unfold genSrv. by destruct (host_port o).
Qed.

(** C35: what holds of a web service with its own handler, whose hooks after a start do not
    fail and whose [Init]s leave both so, however its methods and registration loops are
    interleaved: when it runs it has one open listener, the one it stops with; when it does
    not run no listener is open. Its address is that listener's unless an [Init] changes
    the address, also while the service runs, and without [Init] no other option changes.
    The node, name and version it registers are those its options give, but between the
    options of an [Init] and its end, and every pattern the multiplexer has is a registered
    endpoint. A hook after the start that fails leaves the listener open, of a service
    that does not run. *)
Theorem service_invariant interfaces o w y :
  good o -> tame_inits -> lsteps ok (new_sys interfaces o w) y ->
  let s := st_s (y_st y) in
  (if running s then exists l, exit s = Some l /\ st_open (y_st y) = [l] /\ (address_kept -> o_Address (opts s) = l)
   else st_open (y_st y) = []) /\
  (no_inits -> set_Address "" (opts s) = set_Address "" o) /\
  ((exists interfaces', s_Nodes (srv s) = s_Nodes (genSrv interfaces' (opts s)) /\
      s_Name (srv s) = o_Name (opts s) /\ s_Version (srv s) = o_Version (opts s)) \/
   exists i c, y_callers y !! i = Some c /\ inside c) /\
  forall p, p ∈ mux s -> exists ep, ep ∈ s_Endpoints (srv s) /\ e_Name ep = p.
Proof.
  intros Hg Ht Hs. assert (sys_ok o y) as ((_ & Ho & Hl & Hm) & _ & Hn).
  { induction Hs as [|y z _ IH Hyz]; [by apply new_sys_ok|by eapply lstep_ok]. }
  cbn zeta. split_and!; [exact Hl|intros Hi; symmetry; by apply Ho|exact Hn|].
  intros p Hp. apply Hm, existsb_exists in Hp as (ep & Hep & Heq). exists ep. by split; [apply list_elem_of_In|apply String.eqb_eq].
Qed.
End facts.

Section stopping.
Context {W : Type} `{Registrar W} `{Net}.

(** ** Stopping twice *)
Lemma regen_ex interfaces (s : service W) : ex (regen interfaces s) = ex s.
Proof. apply (regen_quiet interfaces s). Qed.

Lemma install_ex e (s s' : service W) : install e s = Some s' -> ex s' = ex s.
Proof.
  unfold install. repeat case_match; try (by intros [= <-]); try done.
  destruct (mux_Handle _ _) as [m|]; cbn; [by intros [= <-]|done].
Qed.

Lemma start_ex e (x : state W) : ex (st_s (start e x).1) = ex (st_s x).
Proof.
  unfold start. destruct (running _); [done|]. destruct (run_hooks _ _) as [w [err|]]; [done|].
  destruct (listen _ _ _) as [err|laddr]; [done|]. set (s := with_opts _ _).
  destruct (install e _) as [s'|] eqn:Hi; [|exact (regen_ex _ _)]. apply install_ex in Hi. rewrite regen_ex in Hi.
  by destruct (run_hooks _ _) as [w' [err|]].
Qed.

Lemma stop_ex e (x : state W) : ex (st_s (stop e x).1) = ex (st_s x).
Proof. unfold stop. destruct (negb _); [done|]. by repeat case_match. Qed.

Lemma advance_closed e (c : caller W) (x x' : state W) c' ls :
  ex (st_s x) = true -> advance e c x = (x', c', ls) -> ex (st_s x') = true.
Proof.
  intros Hex Ha. assert (forall c (y : state W), ex (st_s y) = true -> ex (st_s (leave c y)) = true) as Hleave.
  { intros c0 y. by destruct (leave_shape c0 y) as [w ->]. }
  destruct c as [c| |c|c| |c|c|c|p|p|p|p|os f|f| |r|]; cbn [advance] in Ha; try by simplify_eq.
  - pose proof (start_ex e x) as Hs. destruct (start e x) as [y [[]|err|]]; simplify_eq; cbn in *; congruence.
  - by repeat case_match; simplify_eq.
  - destruct (register_shape e x) as (w & err & Hr). rewrite Hr in Ha.
    destruct err; simplify_eq; [apply Hleave|]; exact (eq_trans (regen_ex _ _) Hex).
  - by destruct c; simplify_eq.
  - rewrite Hex in Ha. simplify_eq. by apply Hleave.
  - destruct (deregister_shape x) as (w & err & Hd). rewrite Hd in Ha. destruct err; simplify_eq; [by apply Hleave|done].
  - pose proof (stop_ex e x) as Hs. destruct (stop e x) as [y err]. simplify_eq. apply Hleave. cbn in Hs. congruence.
  - unfold disable_static in Ha. by destruct (String.eqb p "/"); simplify_eq.
  - destruct (mux_Handle p _); by simplify_eq.
  - destruct f; by simplify_eq.
Qed.

(** A web service is stopped once in its life. As soon as one [Stop], or the end of one
    [Run], has closed the channel of the registration loop, every other one panics where
    it would close the channel, even after the service has been started again, and so
    never deregisters the service nor closes its listener. *)
Theorem stop_once ok x y i c :
  ex (st_s (y_st x)) = true -> y_callers x !! i = Some (AtClose c) -> lsteps ok x y ->
  ex (st_s (y_st y)) = true /\ (y_callers y !! i = Some (AtClose c) \/ y_callers y !! i = Some Panicked).
Proof.
  intros Hex Hi Hs. induction Hs as [|y z _ [Hy Hc] Hyz]; [by split; [|left]|].
  destruct Hyz as [y c1 _ _|y k c1 e st c2 ls Hk Ha|y j Hj|y j Hj|y j e Hj|y j Hj Hex']; try by split.
  - split; [done|]. destruct Hc as [Hc|Hc]; [left|right]; by apply lookup_app_l_Some.
  - split; [by eapply advance_closed|]. cbn. destruct (decide (k = i)) as [->|Hne].
    + rewrite list_lookup_insert_eq by by eapply lookup_lt_Some. right. rewrite Hk in Hc.
      destruct Hc as [[= ->]|[= ->]]; cbn in Ha; [rewrite Hy in Ha|]; by simplify_eq.
    + by rewrite list_lookup_insert_ne by done.
  - split; [|done]. cbn. destruct (register_shape e (y_st y)) as (w & err & ->). exact (eq_trans (regen_ex _ _) Hy).
Qed.
End stopping.

(** ** Registering, restarting, asking *)
Section registering.
Context {W : Type} `{Registrar W} `{Net}.

(** The world after [k] attempts to register. *)
Definition after (r : which) (v : Registry.Service) (ttl : Z) (k : nat) (w : W) : W :=
  Nat.iter k (fun w => (Register r v ttl w).1) w.

Lemma iter_inner {A} (f : A -> A) n x : Nat.iter n f (f x) = f (Nat.iter n f x).
Proof. induction n as [|n IH]; [done|]. cbn. by f_equal. Qed.

Lemma attempts_spec n r v ttl last w :
  match attempts n r v ttl last w with
  | (w', err) =>
      (exists k, k < n /\ (forall j, j < k -> (Register r v ttl (after r v ttl j w)).2 <> None) /\
         (Register r v ttl (after r v ttl k w)).2 = None /\ err = None /\ w' = after r v ttl (S k) w) \/
      (forall k, k < n -> (Register r v ttl (after r v ttl k w)).2 <> None) /\ w' = after r v ttl n w /\
      err = match n with 0 => last | S m => (Register r v ttl (after r v ttl m w)).2 end
  end.
Proof.
  revert last w. induction n as [|n IH]; intros last w; [right; split_and!; [lia|done|done]|]. cbn [attempts].
  destruct (Register r v ttl w) as [w1 [err|]] eqn:Hr; [|left; exists 0; split_and!; [lia|lia|cbn; by rewrite Hr|done|cbn; by rewrite Hr]].
  assert (forall k, after r v ttl (S k) w = after r v ttl k w1) as Hk.
  { intros k. unfold after. replace w1 with ((Register r v ttl w).1) by by rewrite Hr.
    by rewrite (iter_inner (fun w => (Register r v ttl w).1) k w). }
  specialize (IH (Some err) w1). destruct (attempts n r v ttl (Some err) w1) as [w' err'].
  destruct IH as [(k & Hlt & Hmin & Hok & -> & ->)|(Hall & -> & ->)].
  - left. exists (S k). split_and!; [lia| |by rewrite Hk|done|by rewrite (Hk (S k))].
    intros [|j] Hj; [cbn; by rewrite Hr|]. rewrite Hk. apply Hmin. lia.
  - right. split_and!; [|by rewrite Hk|].
    + intros [|k] Hlt; [cbn; by rewrite Hr|]. rewrite Hk. apply Hall. lia.
    + destruct n as [|m]; [cbn; by rewrite Hr|]. by rewrite Hk.
Qed.

(** Registering, where the check lets it: the data is made again from the options, with
    the endpoints there were; it is registered until an attempt succeeds, three times at
    most, and the call succeeds exactly when an attempt did. *)
Theorem register_spec e (x : state W) w :
  o_RegisterCheck (opts (st_s x)) (st_w x) = (w, None) ->
  let s := regen (e_interfaces e) (st_s x) in
  let world k := after (registry_of (opts (st_s x))) (srv s) (o_RegisterTTL (opts (st_s x))) k w in
  let answer k := (Register (registry_of (opts (st_s x))) (srv s) (o_RegisterTTL (opts (st_s x))) (world k)).2 in
  s_Endpoints (srv s) = s_Endpoints (srv (st_s x)) /\
  (exists k, k < 3 /\ (forall j, j < k -> answer j <> None) /\ answer k = None /\
     register e x = (mkState s (st_open x) (world (S k)), None)) \/
  s_Endpoints (srv s) = s_Endpoints (srv (st_s x)) /\
  (forall k, k < 3 -> answer k <> None) /\ register e x = (mkState s (st_open x) (world 3), answer 2).
Proof.
  intros Hc. cbn zeta. set (s := regen _ _).
  assert (opts s = opts (st_s x)) as Hopts by apply regen_keeps.
  assert (s_Endpoints (srv s) = s_Endpoints (srv (st_s x))) as Hep by apply regen_quiet.
  unfold register. fold s. rewrite Hopts, Hc.
  pose proof (attempts_spec 3 (registry_of (opts (st_s x))) (srv s) (o_RegisterTTL (opts (st_s x))) None w) as Ha.
  destruct (attempts 3 _ _ _ _ _) as [w' err]. destruct Ha as [(k & Hk & Hmin & Hok & -> & ->)|(Hall & -> & ->)].
  - left. split; [done|]. by exists k.
  - right. by split_and!.
Qed.
End registering.

(** A service without a handler of its own that is started a second time, when the static
    directory was there the first time: the root pattern is in the multiplexer already,
    so [start] panics, with the new listener open and the service not running. *)
Theorem restart_panics {W} `{Net} e (x : state W) w laddr dir :
  running (st_s x) = false -> o_Handler (opts (st_s x)) = false -> static (st_s x) = true -> "/" ∈ mux (st_s x) ->
  run_hooks (o_BeforeStart (opts (st_s x))) (st_w x) = (w, None) ->
  listen e (opts (st_s x)) (o_Address (opts (st_s x))) = inr laddr ->
  static_dir e (opts (st_s x)) = Some dir -> e_Stat e dir = true ->
  (start e x).2 = Panic /\ st_open (start e x).1 = st_open x ++ [laddr] /\ running (st_s (start e x).1) = false.
Proof.
  intros Hr Hh Hst Hmux Hb Hl Hd Hstat. unfold start. rewrite Hr, Hb, Hl.
  set (s := with_opts (set_Address laddr (opts (st_s x))) (st_s x)).
  set (s' := regen (e_interfaces e) s).
  assert (mux s' = mux (st_s x) /\ static s' = static (st_s x)) as [Hm Hs].
  { destruct (regen_quiet (e_interfaces e) s) as (Hm & _ & Hs & _). by split. }
  assert (opts s' = set_Address laddr (opts (st_s x))) as Ho by apply regen_keeps.
  assert (install e s' = None) as Hi.
  { unfold install. rewrite Ho. cbn [set_Address o_Handler]. rewrite Hh.
    change (static_dir e (set_Address laddr (opts (st_s x)))) with (static_dir e (opts (st_s x))).
    rewrite Hd, Hs, Hst, Hstat, Hm. cbn [andb]. unfold mux_Handle.
    replace (existsb (String.eqb "/") (mux (st_s x))) with true; [done|]. symmetry. apply existsb_exists. exists "/".
    by split; [apply list_elem_of_In|]. }
  rewrite Hi. split_and!; [done|done|]. cbn [fst st_s]. unfold s'. destruct (regen_keeps (e_interfaces e) s) as (_ & -> & _). exact Hr.
Qed.

(** ** The answers of the client *)
Section answers.
Context {W Resp : Type} (GetService : string -> W -> W * (string + list Service))
  (send : string -> W -> W * option Resp).

Lemma call_random nodes r next o :
  Selector.call (Selector.NextRandom nodes) r = (next, o) ->
  next = Selector.NextRandom nodes /\ forall n, o = Ret n -> n ∈ nodes.
Proof.
  cbn. intros [= <- <-]. split; [done|]. intros n. destruct (length nodes =? 0); [done|]. apply Selector.index_mod_in.
Qed.

(** An answer comes from a node that the registry offered for the host. *)
Theorem RoundTrip_offered host rands w w' services w'' r :
  GetService host w = (w', inr services) -> RoundTrip GetService send host rands w = (w'', Ret r) ->
  exists version n w0, offers services version n /\ (send (n_Address n) w0).2 = Some r.
Proof.
  intros Hg. unfold RoundTrip. rewrite Hg. generalize 3. intros k. clear Hg. revert rands w'.
  induction k as [|k IH]; intros rands w' Ht; [done|]. cbn [tries] in Ht. unfold Selector.Random in *.
  destruct (Selector.call _ _) as [next o] eqn:Hc. apply call_random in Hc as [-> Ho].
  destruct o as [n|e|]; [|by eapply IH|done]. destruct (send (n_Address n) w') as [w1 [r1|]] eqn:Hs; [|by eapply IH].
  simplify_eq. destruct (Selector.all_nodes_elem services n) as [He _]. destruct (He (Ho n eq_refl)) as [version Hv].
  exists version, n, w'. by rewrite Hs.
Qed.

(** Without a node nothing is sent. *)
Theorem RoundTrip_no_node host rands w w' services :
  GetService host w = (w', inr services) -> Selector.all_nodes services = [] ->
  RoundTrip GetService send host rands w = (w', Fail failed_request).
Proof. intros Hg Hn. unfold RoundTrip. rewrite Hg. unfold Selector.Random. by rewrite Hn. Qed.
End answers.

(** ** Examples and witnesses *)

(** A registry that counts: who is registered, and how often it was asked. *)
#[local] Instance ex_registrar : Registrar (list Service) := {|
  Register _ v _ l := (v :: l, None);
  Deregister _ v l := (List.filter (fun v' => negb (String.eqb (s_Name v') (s_Name v))) l, None) |}.

#[local] Instance ex_net : Net := {|
  SplitHostPort a := match last_colon a with inr hp => inr hp | inl e => inl e end;
  ParseIP _ := false |}.

Definition ex_ifaces : string + list iface := inr [mkIface false (Some [IPNet (mkIP "10.0.0.7" false true)])].

Definition ex_env : env := mkEnv ex_ifaces (fun _ => inr "0.0.0.0:4711") (fun _ => inl "no tls") (fun _ => None) "/srv" (fun _ => true) None.

(** The default options, with a registry and maybe a handler. *)
Definition ex_set (handler : bool) (o : Options (list Service)) : Options (list Service) :=
  mkOptions handler true (o_Metadata o) (o_TLSConfig o) (o_RegisterCheck o) (o_Version o) (o_StaticDir o) (o_Advertise o)
    (o_Address o) (o_Name o) (o_Id o) (o_BeforeStart o) (o_BeforeStop o) (o_AfterStart o) (o_AfterStop o)
    (o_RegisterInterval o) (o_RegisterTTL o) (o_Secure o) (o_Profile o).

Definition ex_options (handler : bool) : Options (list Service) := newOptions "id-1" [ex_set handler].

Definition ex_new (handler : bool) : sys (list Service) := new_sys ex_ifaces (ex_options handler) [].

(** What a caller makes of its call when nothing comes in between. *)
Definition ex_go (x : sys (list Service)) (i : nat) : sys (list Service) :=
  match y_callers x !! i with
  | Some c => let '(st, c', ls) := advance ex_env c (y_st x) in mkSys st (<[i := c']> (y_callers x)) (y_loops x ++ ls)
  | None => x
  end.

Definition ex_call (c : caller (list Service)) (x : sys (list Service)) : sys (list Service) := mkSys (y_st x) (y_callers x ++ [c]) (y_loops x).
Definition ex_loop (l : loop) (x : sys (list Service)) : sys (list Service) := mkSys (y_st x) (y_callers x) (<[0 := l]> (y_loops x)).

(** An option of [Init] that renames the service. *)
Definition ex_rename (o : Options (list Service)) : Options (list Service) :=
  mkOptions (o_Handler o) (o_Registry o) (o_Metadata o) (o_TLSConfig o) (o_RegisterCheck o) (o_Version o) (o_StaticDir o) (o_Advertise o)
    (o_Address o) "renamed" (o_Id o) (o_BeforeStart o) (o_BeforeStop o) (o_AfterStart o) (o_AfterStop o)
    (o_RegisterInterval o) (o_RegisterTTL o) (o_Secure o) (o_Profile o).

Definition ex_ok (c : caller (list Service)) : Prop := match c with AtInit os f => os = [ex_rename] /\ f = None | _ => True end.

Lemma go_step x0 x i c : lsteps ex_ok x0 x -> y_callers x !! i = Some c -> lsteps ex_ok x0 (ex_go x i).
Proof.
  intros Hs Hi. unfold ex_go. rewrite Hi. destruct (advance ex_env c (y_st x)) as [[st c'] ls] eqn:Ha.
  eapply lsteps_step; [exact Hs|by eapply l_go].
Qed.

Lemma call_step x0 x c : lsteps ex_ok x0 x -> entry c -> ex_ok c -> lsteps ex_ok x0 (ex_call c x).
Proof. intros Hs Hc Ho. eapply lsteps_step; [exact Hs|by apply l_call]. Qed.

(** Started: the service listens and is registered, and its loop waits for the lock. *)
Definition ex_started : sys (list Service) := ex_go (ex_go (ex_go (ex_call (AtStart CStart) (ex_new true)) 0) 0) 0.
Definition ex_ticked : sys (list Service) := ex_loop LTick (ex_loop LSelect ex_started).
Definition ex_stopped : sys (list Service) := ex_go (ex_go (ex_go (ex_call (AtClose CStop) ex_ticked) 1) 1) 1.

Lemma ex_started_steps : lsteps ex_ok (ex_new true) ex_started.
Proof. do 3 (eapply go_step; [|reflexivity]). apply call_step; [apply lsteps_refl|exact I|exact I]. Qed.

Lemma ex_stopped_steps : lsteps ex_ok (ex_new true) ex_stopped.
Proof.
  do 3 (eapply go_step; [|reflexivity]). apply call_step; [|exact I|exact I].
  eapply lsteps_step; [|apply (l_tick ex_ok (ex_loop LSelect ex_started) 0); reflexivity].
  eapply lsteps_step; [apply ex_started_steps|]. exact (l_begin ex_ok ex_started 0 eq_refl).
Qed.

(** The node a service registers: the port that was listened on, an address of the machine. *)
Example ex_started_node : map n_Address (concat (map s_Nodes (st_w (y_st ex_started)))) = ["10.0.0.7:4711"].
Proof. vm_compute. reflexivity. Qed.

(** An IPv6 address gets two pairs of brackets. *)
Example genSrv_ipv6 :
  map n_Address (s_Nodes (genSrv (inr [mkIface false (Some [IPNet (mkIP "fd00::7" false true)])]) (ex_options true))) = ["[[fd00::7]]:0"].
Proof. vm_compute. reflexivity. Qed.

(** A service whose ticker fired before it was stopped stays registered: [Stop] has
    returned nil, no listener is open, every loop has ended. *)
Example deregistered_comes_back :
  exists y : sys (list Service), lsteps ex_ok (ex_new true) y /\ y_callers y = [Returned None; Returned None] /\ y_loops y = [LEnded] /\
    st_open (y_st y) = [] /\ map s_Name (st_w (y_st y)) = ["go-web"].
Proof.
  set (y := mkSys (register ex_env (y_st ex_stopped)).1 (y_callers ex_stopped) (<[0 := LSelect]> (y_loops ex_stopped))).
  exists (ex_loop LEnded y). split; [|vm_compute; done].
  eapply lsteps_step; [|apply (l_end ex_ok y 0); vm_compute; reflexivity].
  eapply lsteps_step; [apply ex_stopped_steps|]. apply (l_beat ex_ok ex_stopped 0 ex_env). vm_compute. reflexivity.
Qed.

(** Renamed by [Init] while it runs. *)
Definition ex_renamed : sys (list Service) := ex_go (ex_go (ex_go (ex_call (AtInit [ex_rename] None) ex_started) 1) 1) 1.

Lemma service_invariant_witness :
  lsteps ex_ok (ex_new true) ex_renamed /\ running (st_s (y_st ex_renamed)) = true /\ st_open (y_st ex_renamed) = ["0.0.0.0:4711"] /\
  o_Address (opts (st_s (y_st ex_renamed))) = "0.0.0.0:4711" /\ s_Name (srv (st_s (y_st ex_renamed))) = "renamed".
Proof.
  assert (lsteps ex_ok (ex_new true) ex_renamed) as Hs.
  { do 3 (eapply go_step; [|reflexivity]). apply call_step; [apply ex_started_steps|exact I|by split]. }
  assert (good (ex_options true)) as Hg by (split; [reflexivity|apply Forall_nil_2]).
  assert (tame_inits ex_ok) as Ht.
  { intros os f [-> _]. apply Forall_cons_2; [|apply Forall_nil_2]. by intros o' [Hh Hf]. }
  assert (address_kept ex_ok) as Ha.
  { intros os f [-> ->]. split; [|by intros fl]. apply Forall_cons_2; [|apply Forall_nil_2]. by intros o'. }
  split; [exact Hs|]. split; [vm_compute; reflexivity|].
  destruct (service_invariant ex_ok ex_ifaces (ex_options true) [] ex_renamed Hg Ht Hs) as (Hl & _).
  change (running (st_s (y_st ex_renamed))) with true in Hl. destruct Hl as (l & Hexit & Hopen & Haddr).
  change (Some "0.0.0.0:4711" = Some l) in Hexit. injection Hexit as <-. split; [exact Hopen|]. split; [by apply Haddr|]. reflexivity.
Defined.

(** An [Init] that changes the address of a service that runs: what it registers then is
    not where it listens. *)
Example init_moves_node :
  let y := ex_go (ex_go (ex_go (ex_call (AtInit [set_Address "10.0.0.9:80"] None) ex_started) 1) 1) 1 in
  running (st_s (y_st y)) = true /\ st_open (y_st y) = ["0.0.0.0:4711"] /\ map n_Address (s_Nodes (srv (st_s (y_st y)))) = ["10.0.0.9:80"].
Proof. split_and!; vm_compute; reflexivity. Qed.

Lemma stop_once_witness :
  let x := ex_call (AtClose CStop) ex_stopped in
  y_callers x !! 2 = Some (AtClose CStop) /\
  (y_callers (ex_go x 2) !! 2 = Some (AtClose CStop) \/ y_callers (ex_go x 2) !! 2 = Some Panicked).
Proof.
  cbn zeta. split; [vm_compute; reflexivity|].
  refine (proj2 (stop_once ex_ok (ex_call (AtClose CStop) ex_stopped) _ 2 CStop _ _ _)); [vm_compute; reflexivity..|].
  eapply go_step; [apply lsteps_refl|vm_compute; reflexivity].
Defined.

Lemma register_spec_witness :
  (register ex_env (y_st (ex_new true))).2 = None.
Proof.
  destruct (register_spec ex_env (y_st (ex_new true)) [] eq_refl) as [(_ & k & _ & _ & _ & ->)|(_ & Hf & _)]; [reflexivity|].
  exfalso. apply (Hf 0); [lia|reflexivity].
Defined.

(** Started, stopped without an error, and started again. *)
Example ex_restart :
  let x := (start ex_env (y_st (ex_new false))).1 in
  (start ex_env (y_st (ex_new false))).2 = Ret tt /\ (stop ex_env x).2 = None /\
  (start ex_env (stop ex_env x).1).2 = Panic.
Proof. vm_compute. done. Qed.

Lemma restart_panics_witness :
  (start ex_env (stop ex_env (start ex_env (y_st (ex_new false))).1).1).2 = Panic.
Proof.
  refine (proj1 (restart_panics ex_env _ [] "0.0.0.0:4711" "/srv/html" _ _ _ _ _ _ _ _)); try (vm_compute; reflexivity).
  vm_compute. apply list_elem_of_here.
Defined.
