(* ===== verification/Etcd.v ===== *)
(** * The etcd registry: [registry/etcd/etcd.go], [registry/etcd/watcher.go]

    Every node of a service is a key of etcd, under a lease that registering again keeps
    alive; what is stored is the service with that node, as json. [W] is the world etcd is
    in. An operation of the registry is one step here: those of other programs that use
    the same etcd come before or after it. *)
From stdpp Require Import sorting.
From S2P Require Import Prelude GoStrings NetUtil Registry.
From S2P Require GoPath.

(** A value of etcd, and the lease it is kept with, or 0. *)
Record KV := mkKV { kv_Value : string; kv_Lease : Z }.

#[export] Instance KV_eq_dec : EqDecision KV.
Proof. solve_decision. Defined.

Inductive lease_error := ErrLeaseNotFound | LeaseError (err : string).

(** The client of etcd: reading a key or the keys with a prefix, leases, writing a value
    under a lease, deleting. *)
Class Client (W : Type) := {
  Get : string -> bool -> W -> W * (string + list KV);
  KeepAliveOnce : Z -> W -> W * option lease_error;
  Grant : Z -> W -> W * (string + Z);
  Put : string -> string -> Z -> W -> W * option string;
  Delete_key : string -> W -> W * option string;
}.

(** [encoding/json] on services, and the hash of a node. [Unmarshal] gives what is in the
    pointer afterwards, whatever the error. *)
Class Values := {
  Marshal : Service -> string + string;
  Unmarshal : string -> option Service;
  Hash : Node -> string + Z;
}.

(** What etcd promises while no lease runs out: it goes through a history of stores, the
    newest first. The code reads with [WithSerializable], which the member asked answers
    from its own store: one of the history, and not always the newest. *)
Class ClientLaws (W : Type) `{Client W} := {
  history : W -> list (gmap string KV);
  answers : string -> bool -> W -> gmap string KV;
  answers_from k p w : answers k p w ∈ history w;
  Get_history k p w : history (Get k p w).1 = history w;
  Get_key k w kvs : (Get k false w).2 = inr kvs -> kvs = option_list (answers k false w !! k);
  Get_prefix k w kvs : (Get k true w).2 = inr kvs ->
    kvs ≡ₚ (map_to_list (filter (fun kv => has_prefix kv.1 k = true) (answers k true w))).*2;
  KeepAliveOnce_history id w : history (KeepAliveOnce id w).1 = history w;
  Grant_history ttl w : history (Grant ttl w).1 = history w;
  Put_history k v id w : (Put k v id w).2 = None ->
    history (Put k v id w).1 = <[k := mkKV v id]> (default ∅ (head (history w))) :: history w;
  Delete_history k w : (Delete_key k w).2 = None ->
    history (Delete_key k w).1 = delete k (default ∅ (head (history w))) :: history w;
}.

(** What etcd stores now. *)
Definition view {W} `{ClientLaws W} (w : W) : gmap string KV := default ∅ (head (history w)).

(** Which services json reads back as they were: those of valid text. *)
Class ValuesLaws `{Values} := {
  readable : Service -> Prop;
  Unmarshal_Marshal s b : readable s -> Marshal s = inr b -> Unmarshal b = Some s;
}.

(** ** Options *)
Record Options := mkOptions {
  o_Addrs : list string;
  o_Timeout : Z;
  o_Secure : bool;
  o_TLSConfig : bool;
  o_Auth : option (string * string);
}.

(** The configuration a client is made with. *)
Record Config := mkConfig {
  c_Endpoints : list string;
  c_DialTimeout : Z;
  c_TLS : bool;
  c_Username : string;
  c_Password : string;
}.

(** [client] is nil when it could not be made. *)
Record etcdRegistry := mkEtcd {
  client : option Config;
  options : Options;
  register : gmap string Z;
  leases : gmap string Z;
}.

Definition set_maps (r l : gmap string Z) (e : etcdRegistry) : etcdRegistry := mkEtcd (client e) (options e) r l.

(** The error of [SplitHostPort] is the [Err] of its [AddrError]. *)
Definition endpoint `{Net} (address : string) : option string :=
  if String.eqb address "" then None
  else
    match SplitHostPort address with
    | inl err => if String.eqb err "missing port in address" then Some (JoinHostPort address "2379") else None
    | inr (addr, port) => Some (JoinHostPort addr port)
    end.

(** [connect] is [clientv3.New]: an error, or the client is there. *)
Definition configure `{Net} (connect : Config -> option string) (os : list (Options -> Options)) (e : etcdRegistry) :
    etcdRegistry * option string :=
  let o := foldl (fun o f => f o) (options e) os in
  let o := if (o_Timeout o =? 0)%Z then mkOptions (o_Addrs o) (5 * 10 ^ 9) (o_Secure o) (o_TLSConfig o) (o_Auth o) else o in
  let cAddrs := omap endpoint (o_Addrs o) in
  let '(u, p) := default ("", "") (o_Auth o) in
  let config := mkConfig (if 0 <? length cAddrs then cAddrs else ["127.0.0.1:2379"]) (o_Timeout o)
    (o_Secure o || o_TLSConfig o) u p in
  match connect config with
  | Some err => (mkEtcd (client e) o (register e) (leases e), Some err)
  | None => (mkEtcd (Some config) o (register e) (leases e), None)
  end.

Definition set_Auth (u p : string) (o : Options) : Options := mkOptions (o_Addrs o) (o_Timeout o) (o_Secure o) (o_TLSConfig o) (Some (u, p)).
Definition set_Addrs (l : list string) (o : Options) : Options := mkOptions l (o_Timeout o) (o_Secure o) (o_TLSConfig o) (o_Auth o).

(** The variables of the environment come after the options; the error is dropped. *)
Definition NewRegistry `{Net} (connect : Config -> option string) (Getenv : string -> string) (os : list (Options -> Options)) :
    etcdRegistry :=
  let u := Getenv "ETCD_USERNAME" in
  let p := Getenv "ETCD_PASSWORD" in
  let address := Getenv "MICRO_REGISTRY_ADDRESS" in
  let os := if (0 <? String.length u) && (0 <? String.length p) then os ++ [set_Auth u p] else os in
  let os := if 0 <? String.length address then os ++ [set_Addrs [address]] else os in
  (configure connect os (mkEtcd None (mkOptions [] 0 false false None) ∅ ∅)).1.

(** ** Keys *)
Definition prefix : string := "/micro/registry/".

(** [strings.Replace] of every slash by a dash. *)
Fixpoint dashed (s : string) : string :=
  match s with
  | "" => ""
  | String c s => String (if Ascii.eqb c "/" then "-"%char else c) (dashed s)
  end.

Definition nodePath (s id : string) : string := GoPath.Join [prefix; dashed s; dashed id].
Definition servicePath (s : string) : string := GoPath.Join [prefix; dashed s].

Section registry.
Context {W : Type} `{Client W} `{Values}.

Definition encode (s : Service) : string := match Marshal s with inr b => b | inl _ => "" end.
Definition decode (ds : string) : option Service := Unmarshal ds.

(** ** Registering *)

(** The hashes and leases are kept by the name and the identifier, put together. *)
Definition local_key (s : Service) (node : Node) : string := s_Name s +:+ n_Id node.

(** The loop over what etcd has under the key of a node that is not known here. *)
Fixpoint find_lease (k : string) (kvs : list KV) (leaseID : Z) (e : etcdRegistry) : etcdRegistry * Z :=
  match kvs with
  | [] => (e, leaseID)
  | kv :: kvs =>
      if (0 <? kv_Lease kv)%Z then
        match decode (kv_Value kv) with
        | Some srv =>
            match s_Nodes srv with
            | n :: _ =>
                match Hash n with
                | inr h => (set_maps (<[k := h]> (register e)) (<[k := kv_Lease kv]> (leases e)) e, kv_Lease kv)
                | inl _ => find_lease k kvs (kv_Lease kv) e
                end
            | [] => find_lease k kvs (kv_Lease kv) e
            end
        | None => find_lease k kvs (kv_Lease kv) e
        end
      else find_lease k kvs leaseID e
  end.

(** The lease of a node, here or in etcd; 0 when there is none. *)
Definition lease_of (s : Service) (node : Node) (e : etcdRegistry) (w : W) : etcdRegistry * W * (string + Z) :=
  match leases e !! local_key s node with
  | Some id => (e, w, inr id)
  | None =>
      match Get (nodePath (s_Name s) (n_Id node)) false w with
      | (w, inl err) => (e, w, inl err)
      | (w, inr kvs) => let '(e, id) := find_lease (local_key s node) kvs 0 e in (e, w, inr id)
      end
  end.

(** Renewing a lease: an error, or whether etcd does not know it any more. *)
Definition renew (leaseID : Z) (w : W) : W * (string + bool) :=
  if (0 <? leaseID)%Z then
    match KeepAliveOnce leaseID w with
    | (w, None) => (w, inr false)
    | (w, Some ErrLeaseNotFound) => (w, inr true)
    | (w, Some (LeaseError err)) => (w, inl err)
    end
  else (w, inr false).

Definition node_service (s : Service) (node : Node) : Service :=
  mkService (s_Name s) (s_Version s) (s_Metadata s) (s_Endpoints s) [node].

(** The end of [registerNode]. Without a time to live there is no lease, and the log
    statement that reads its identifier panics; so nothing is ever put without one. The
    time is in whole seconds, which rounds down, as floats do below 2^23 seconds. *)
Definition put_node (s : Service) (node : Node) (h ttl : Z) (e : etcdRegistry) (w : W) :
    etcdRegistry * W * outcome string unit :=
  if (0 <? ttl)%Z then
    match Grant (ttl / 10 ^ 9) w with
    | (w, inl err) => (e, w, Fail err)
    | (w, inr id) =>
        match Put (nodePath (s_Name s) (n_Id node)) (encode (node_service s node)) id w with
        | (w, Some err) => (e, w, Fail err)
        | (w, None) =>
            (set_maps (<[local_key s node := h]> (register e)) (<[local_key s node := id]> (leases e)) e, w, Ret tt)
        end
    end
  else (e, w, Panic).

Definition no_node : string := "Require at least one node".

(** Without a client the first use of it panics: nothing is known here then. *)
Definition registerNode (s : Service) (ttl : Z) (node : Node) (e : etcdRegistry) (w : W) :
    etcdRegistry * W * outcome string unit :=
  if length (s_Nodes s) =? 0 then (e, w, Fail no_node)
  else if negb (bool_decide (is_Some (client e))) then (e, w, Panic)
  else
    match lease_of s node e w with
    | (e, w, inl err) => (e, w, Fail err)
    | (e, w, inr leaseID) =>
        match renew leaseID w with
        | (w, inl err) => (e, w, Fail err)
        | (w, inr leaseNotFound) =>
            match Hash node with
            | inl err => (e, w, Fail err)
            | inr h =>
                if bool_decide (register e !! local_key s node = Some h) && negb leaseNotFound then (e, w, Ret tt)
                else put_node s node h ttl e w
            end
        end
    end.

(** All nodes are tried; the last error is the one that is returned. *)
Fixpoint register_nodes (s : Service) (ttl : Z) (nodes : list Node) (gerr : option string) (e : etcdRegistry) (w : W) :
    etcdRegistry * W * outcome string unit :=
  match nodes with
  | [] => (e, w, match gerr with Some err => Fail err | None => Ret tt end)
  | node :: nodes =>
      match registerNode s ttl node e w with
      | (e, w, Panic) => (e, w, Panic)
      | (e, w, Fail err) => register_nodes s ttl nodes (Some err) e w
      | (e, w, Ret _) => register_nodes s ttl nodes gerr e w
      end
  end.

Definition Register (s : Service) (ttl : Z) (e : etcdRegistry) (w : W) : etcdRegistry * W * outcome string unit :=
  if length (s_Nodes s) =? 0 then (e, w, Fail no_node) else register_nodes s ttl (s_Nodes s) None e w.

(** ** Deregistering *)
Fixpoint deregister_nodes (s : Service) (nodes : list Node) (e : etcdRegistry) (w : W) :
    etcdRegistry * W * outcome string unit :=
  match nodes with
  | [] => (e, w, Ret tt)
  | node :: nodes =>
      let e := set_maps (delete (local_key s node) (register e)) (delete (local_key s node) (leases e)) e in
      if negb (bool_decide (is_Some (client e))) then (e, w, Panic)
      else
        match Delete_key (nodePath (s_Name s) (n_Id node)) w with
        | (w, Some err) => (e, w, Fail err)
        | (w, None) => deregister_nodes s nodes e w
        end
  end.

Definition Deregister (s : Service) (e : etcdRegistry) (w : W) : etcdRegistry * W * outcome string unit :=
  if length (s_Nodes s) =? 0 then (e, w, Fail no_node) else deregister_nodes s (s_Nodes s) e w.

(** ** Looking up *)
Inductive get_error := ErrNotFound | EtcdError (err : string).

(** One value: the services are kept by their version. *)
Definition group_version (m : gmap string Service) (kv : KV) : gmap string Service :=
  match decode (kv_Value kv) with
  | None => m
  | Some sn =>
      let s := default (with_nodes sn []) (m !! s_Version sn) in
      <[s_Version sn := with_nodes s (s_Nodes s ++ s_Nodes sn)]> m
  end.

Definition GetService (o : map_order) (name : string) (e : etcdRegistry) (w : W) : W * outcome get_error (list Service) :=
  if negb (bool_decide (is_Some (client e))) then (w, Panic)
  else
    match Get (servicePath name +:+ "/") true w with
    | (w, inl err) => (w, Fail (EtcdError err))
    | (w, inr []) => (w, Fail ErrNotFound)
    | (w, inr kvs) => (w, Ret (map_range o (foldl group_version ∅ kvs)).*2)
    end.

(** Here they are kept by name and version, put together. *)
Definition group_name (m : gmap string Service) (kv : KV) : gmap string Service :=
  match decode (kv_Value kv) with
  | None => m
  | Some sn =>
      let k := s_Name sn +:+ s_Version sn in
      match m !! k with
      | None => <[k := sn]> m
      | Some v => <[k := with_nodes v (s_Nodes v ++ s_Nodes sn)]> m
      end
  end.

(** Services of one name are in any order: [sort.Slice] is not stable. *)
Definition by_name (a b : Service) : Prop := str_ltb (s_Name b) (s_Name a) = false.

#[global] Instance by_name_dec : RelDecision by_name.
Proof. intros a b. unfold by_name. apply _. Defined.

Definition ListServices (o : map_order) (e : etcdRegistry) (w : W) : W * outcome get_error (list Service) :=
  if negb (bool_decide (is_Some (client e))) then (w, Panic)
  else
    match Get prefix true w with
    | (w, inl err) => (w, Fail (EtcdError err))
    | (w, inr kvs) => (w, Ret (merge_sort by_name (map_range o (foldl group_name ∅ kvs)).*2))
    end.

(** ** Watching *)

(** A value was put, for the first time or again, or deleted; a deletion brings the value
    there was, if etcd still has it. *)
Inductive event := EvPut (create : bool) (value : string) | EvDelete (prev : option string).

Record response := mkResponse { r_Err : option string; r_Canceled : bool; r_Events : list event }.

Definition watchPath (service : string) : string := if 0 <? String.length service then servicePath service +:+ "/" else prefix.

(** The loop over the events of a response, which ends with the first that can be decoded. *)
Fixpoint first_result (evs : list event) : outcome string (option Result) :=
  match evs with
  | [] => Ret None
  | EvPut create value :: evs =>
      match decode value with
      | Some s => Ret (Some (mkResult s (if create then "create" else "update")))
      | None => first_result evs
      end
  | EvDelete None :: _ => Panic
  | EvDelete (Some prev) :: evs =>
      match decode prev with Some s => Ret (Some (mkResult s "delete")) | None => first_result evs end
  end.

Definition no_next : string := "could not get next".

(** [None] is waiting for the next response; [closed] says that there will not be one. *)
Fixpoint Next (closed : bool) (rs : list response) : list response * option (outcome string Result) :=
  match rs with
  | [] => ([], if closed then Some (Fail no_next) else None)
  | r :: rs =>
      match r_Err r with
      | Some err => (rs, Some (Fail err))
      | None =>
          if r_Canceled r then (rs, Some (Fail no_next))
          else
            match first_result (r_Events r) with
            | Panic => (rs, Some Panic)
            | Fail err => (rs, Some (Fail err))
            | Ret (Some res) => (rs, Some (Ret res))
            | Ret None => Next closed rs
            end
      end
  end.
End registry.

(** ** Keys of plain names *)
Lemma dashed_plain s : str_has "/" s = false -> dashed s = s.
Proof.
  induction s as [|c s IH]; [done|]. rewrite str_has_cons. intros [Hc Hs]%orb_false_iff. cbn. by rewrite Hc, IH.
Qed.

Lemma plain_dashed s : GoPath.plain s -> dashed s = s.
Proof. intros [_ Hs]. by apply dashed_plain. Qed.

(** Cleaning the path of plain parts under the prefix. *)
Lemma Join_prefix parts :
  parts <> [] -> Forall GoPath.plain parts -> GoPath.Join (prefix :: parts) = prefix +:+ join "/" parts.
Proof.
  intros Hne Hp. unfold GoPath.Join.
  assert (filter (fun e : string => e <> "") (prefix :: parts) = prefix :: parts) as ->.
  { rewrite filter_cons_True by done. f_equal. clear Hne. induction Hp as [|x parts [Hx _] _ IH]; [done|].
    rewrite filter_cons_True by set_solver. by rewrite IH. }
  assert (join "/" (prefix :: parts) = prefix +:+ "/" +:+ join "/" parts) as Hj by by apply join_cons.
  change (GoPath.Clean (join "/" (prefix :: parts)) = prefix +:+ join "/" parts). rewrite Hj. unfold GoPath.Clean.
  change (has_prefix (prefix +:+ "/" +:+ join "/" parts) "/") with true.
  assert (split_char "/" (prefix +:+ "/" +:+ join "/" parts) = ["" ; "micro"; "registry"; ""] ++ parts) as ->.
  { rewrite <- (GoPath.plain_split parts Hne Hp) at 2. reflexivity. }
  rewrite foldl_app, GoPath.clean_plain_fold by done.
  change (foldl (GoPath.clean_step true) [] [""; "micro"; "registry"; ""]) with ["registry"; "micro"].
  rewrite rev_app_distr, rev_involutive. cbn [rev app].
  destruct parts as [|p parts]; [done|]. rewrite (join_cons "/" "micro"), (join_cons "/" "registry") by done. done.
Qed.

Lemma nodePath_plain n id : GoPath.plain n -> GoPath.plain id -> nodePath n id = prefix +:+ n +:+ "/" +:+ id.
Proof.
  intros Hn Hi. unfold nodePath. rewrite !plain_dashed by done. rewrite Join_prefix; [done..|].
  repeat (apply Forall_cons_2; [done|]). apply Forall_nil_2.
Qed.

Lemma servicePath_plain n : GoPath.plain n -> servicePath n = prefix +:+ n.
Proof. intros Hn. unfold servicePath. rewrite plain_dashed by done. rewrite Join_prefix; [done..|].
  repeat (apply Forall_cons_2; [done|]). apply Forall_nil_2. Qed.

Lemma nodePath_under n id : GoPath.plain n -> GoPath.plain id -> has_prefix (nodePath n id) (servicePath n +:+ "/") = true.
Proof.
  intros Hn Hi. rewrite nodePath_plain, servicePath_plain by done. rewrite <- !str_app_assoc. apply has_prefix_app.
Qed.

Lemma str_cancel p q r : p +:+ q = p +:+ r -> q = r.
Proof. intros He. apply (f_equal (str_drop (String.length p))) in He. by rewrite !str_drop_app in He. Qed.

Lemma nodePath_inj n id id' :
  GoPath.plain n -> GoPath.plain id -> GoPath.plain id' -> nodePath n id = nodePath n id' -> id = id'.
Proof.
  intros Hn Hi Hi' He. rewrite !nodePath_plain in He by done. by apply str_cancel, str_cancel, str_cancel in He.
Qed.

(** ** What is registered is found *)
Section facts.
Context {W : Type} `{ClientLaws W} `{ValuesLaws}.

(** What a store has under a service, read. *)
Definition under (name : string) (m : gmap string KV) : gmap string KV :=
  filter (fun kv => has_prefix kv.1 (servicePath name +:+ "/") = true) m.

Definition stored (name : string) (m : gmap string KV) : list (option Service) :=
  map (fun kv => decode (kv_Value kv.2)) (map_to_list (under name m)).

(** A node that this registry does not have, and no member of etcd may answer with. *)
Definition unknown (s : Service) (e : etcdRegistry) (w : W) (n : Node) : Prop :=
  leases e !! local_key s n = None /\ register e !! local_key s n = None /\
  Forall (fun m => m !! nodePath (s_Name s) (n_Id n) = None) (history w).

Lemma view_None k w : Forall (fun m => m !! k = None) (history w) -> view w !! k = None.
Proof. unfold view. destruct (history w) as [|m l]; [done|]. by intros [Hm _]%Forall_cons. Qed.

Definition well_named (s : Service) : Prop :=
  GoPath.plain (s_Name s) /\ Forall (fun n => GoPath.plain (n_Id n)) (s_Nodes s) /\ NoDup (ids (s_Nodes s)).

(** Every service is written as json, and read back. *)
Definition written (s : Service) : Prop := readable s /\ exists b, Marshal s = inr b.

Lemma decode_written s : written s -> decode (encode s) = Some s.
Proof. intros (Hr & b & Hb). unfold decode, encode. rewrite Hb. by eapply Unmarshal_Marshal. Qed.

Lemma local_key_inj s n n' : local_key s n = local_key s n' -> n_Id n = n_Id n'.
Proof. apply str_cancel. Qed.

(** Registering an unknown node puts it into etcd, and nothing else. *)
Lemma registerNode_unknown s ttl n e w e' w' :
  unknown s e w n -> registerNode s ttl n e w = (e', w', Ret tt) ->
  exists h id,
    e' = set_maps (<[local_key s n := h]> (register e)) (<[local_key s n := id]> (leases e)) e /\
    history w' = <[nodePath (s_Name s) (n_Id n) := mkKV (encode (node_service s n)) id]> (view w) :: history w.
Proof.
  intros (Hl & Hr & Hv). unfold registerNode. destruct (length _ =? 0); [done|]. destruct (negb _); [done|].
  unfold lease_of. rewrite Hl. pose proof (Get_history (nodePath (s_Name s) (n_Id n)) false w) as Hgv.
  pose proof (Get_key (nodePath (s_Name s) (n_Id n)) w) as Hgk. rewrite Forall_forall in Hv.
  pose proof (Hv _ (answers_from (nodePath (s_Name s) (n_Id n)) false w)) as Ha.
  destruct (Get _ false w) as [w1 [err|kvs]]; [done|]. cbn in Hgv, Hgk. rewrite (Hgk kvs eq_refl), Ha. cbn.
  destruct (Hash n) as [err|h]; [done|]. rewrite bool_decide_eq_false_2 by by rewrite Hr. cbn.
  unfold put_node. destruct (0 <? ttl)%Z; [|done]. pose proof (Grant_history (ttl / 10 ^ 9) w1) as Hg.
  destruct (Grant _ w1) as [w2 [err|id]]; [done|]. cbn in Hg.
  pose proof (Put_history (nodePath (s_Name s) (n_Id n)) (encode (node_service s n)) id w2) as Hp.
  destruct (Put _ _ _ w2) as [w3 [err|]]; [done|]. cbn in Hp. intros [= <- <-]. exists h, id. split; [done|].
  by rewrite Hp, Hg, Hgv.
Qed.

Lemma under_insert s n v m :
  GoPath.plain (s_Name s) -> GoPath.plain (n_Id n) -> m !! nodePath (s_Name s) (n_Id n) = None ->
  stored (s_Name s) (<[nodePath (s_Name s) (n_Id n) := v]> m) ≡ₚ decode (kv_Value v) :: stored (s_Name s) m.
Proof.
  intros Hs Hn Hv. unfold stored, under. rewrite map_filter_insert_True by by apply nodePath_under.
  rewrite map_to_list_insert; [done|]. apply map_lookup_filter_None. by left.
Qed.

(** Once a node has failed the call fails. *)
Lemma register_nodes_failed s ttl nodes : forall err e w e' w',
  register_nodes s ttl nodes (Some err) e w <> (e', w', Ret tt).
Proof.
  induction nodes as [|n nodes IH]; intros err e w e' w'; cbn; [done|].
  destruct (registerNode _ _ _ _ _) as [[e1 w1] [[]|err1|]]; [apply IH|apply IH|done].
Qed.

(** Another node is as unknown as before. *)
Lemma unknown_after s e w w1 n n' h id v :
  GoPath.plain (s_Name s) -> GoPath.plain (n_Id n) -> GoPath.plain (n_Id n') -> n_Id n <> n_Id n' -> unknown s e w n' ->
  history w1 = <[nodePath (s_Name s) (n_Id n) := v]> (view w) :: history w ->
  unknown s (set_maps (<[local_key s n := h]> (register e)) (<[local_key s n := id]> (leases e)) e) w1 n'.
Proof.
  intros Hs Hn Hn' Hne (Hl & Hrg & Hvw) Hv1. split_and!; cbn.
  - rewrite lookup_insert_ne; [done|]. intros He. by apply local_key_inj in He.
  - rewrite lookup_insert_ne; [done|]. intros He. by apply local_key_inj in He.
  - rewrite Hv1. apply Forall_cons. split; [|done]. rewrite lookup_insert_ne; [by apply view_None|].
    intros He. by apply nodePath_inj in He.
Qed.

(** The stores of the history after registering: those before, and one for each node that
    has come; the newest has them all. *)
Lemma register_nodes_stored s ttl nodes : forall gerr e w e' w',
  GoPath.plain (s_Name s) -> Forall (fun n => GoPath.plain (n_Id n)) nodes -> NoDup (ids nodes) ->
  Forall (fun n => written (node_service s n)) nodes -> Forall (unknown s e w) nodes ->
  register_nodes s ttl nodes gerr e w = (e', w', Ret tt) ->
  gerr = None /\ stored (s_Name s) (view w') ≡ₚ map (fun n => Some (node_service s n)) nodes ++ stored (s_Name s) (view w) /\
  forall m, m ∈ history w' -> m ∈ history w \/
    exists k, stored (s_Name s) m ≡ₚ map (fun n => Some (node_service s n)) (take (S k) nodes) ++ stored (s_Name s) (view w).
Proof.
  induction nodes as [|n nodes IH]; intros gerr e w e' w' Hs Hp Hnd Hw Hu Hr.
  { destruct gerr; cbn in Hr; simplify_eq. split_and!; [done|done|by left]. }
  cbn [register_nodes] in Hr. apply Forall_cons in Hp as [Hpn Hp]. apply Forall_cons in Hw as [Hwn Hw].
  apply Forall_cons in Hu as [Hun Hu]. cbn in Hnd. apply NoDup_cons in Hnd as [Hni Hnd].
  destruct (registerNode s ttl n e w) as [[e1 w1] [[]|err|]] eqn:Hn; [|by apply register_nodes_failed in Hr|done].
  apply registerNode_unknown in Hn as (h & id & -> & Hv1); [|done].
  set (m1 := <[nodePath (s_Name s) (n_Id n) := _]> (view w)) in *.
  assert (view w1 = m1) as Hview by (unfold view; by rewrite Hv1).
  assert (stored (s_Name s) m1 ≡ₚ Some (node_service s n) :: stored (s_Name s) (view w)) as Hm1.
  { unfold m1. rewrite (under_insert s n _ (view w) Hs Hpn (view_None _ _ (proj2 (proj2 Hun)))). cbn [kv_Value]. by rewrite (decode_written _ Hwn). }
  apply IH in Hr as (Hg & Hst & Hhist); [|done..|].
  - rewrite Hview, Hm1 in Hst. split_and!; [done|rewrite Hst; symmetry; apply Permutation_middle|].
    intros m [Hm|[k Hk]]%Hhist.
    + rewrite Hv1 in Hm. apply elem_of_cons in Hm as [->|Hm]; [right; exists 0; exact Hm1|by left].
    + right. exists (S k). rewrite Hk, Hview, Hm1. cbn [take map app]. symmetry. apply Permutation_middle.
  - rewrite Forall_forall in Hu |- *. intros n' Hn'. rewrite Forall_forall in Hp.
    eapply (unknown_after s e w w1 n n'); [done|done|by apply Hp| |by apply Hu|exact Hv1].
    intros He. apply Hni. rewrite He. by apply list_elem_of_fmap_2.
Qed.

(** Values of one version are grouped into one service. *)
Lemma group_one s nodes : forall kvs m,
  map (fun kv => decode (kv_Value kv)) kvs = map (fun n => Some (node_service s n)) nodes ->
  (forall v, m !! s_Version s = Some v -> exists ns, v = with_nodes s ns) ->
  foldl group_version m kvs =
    match nodes with
    | [] => m
    | _ => <[s_Version s := with_nodes s (match m !! s_Version s with Some v => s_Nodes v | None => [] end ++ nodes)]> m
    end.
Proof.
  induction nodes as [|n nodes IH]; intros [|kv kvs] m Hm Hv; try done. cbn in Hm. injection Hm as Hkv Hm. cbn [foldl].
  unfold group_version at 2. rewrite Hkv. cbn [node_service s_Version s_Nodes].
  set (cur := default _ _). assert (with_nodes cur (s_Nodes cur ++ [n]) =
    with_nodes s (match m !! s_Version s with Some v => s_Nodes v | None => [] end ++ [n])) as ->.
  { unfold cur. destruct (m !! s_Version s) as [v|] eqn:Hm1; [|done]. destruct (Hv v eq_refl) as [ns ->]. done. }
  rewrite IH; [|done|].
  - destruct nodes as [|n' nodes]; [done|]. rewrite lookup_insert_eq, insert_insert_eq. cbn [with_nodes s_Nodes]. by rewrite <- app_assoc.
  - intros v. rewrite lookup_insert_eq. intros [= <-]. by eexists.
Qed.

Lemma map_range_one {V} o k (v : V) : (map_range o (<[k := v]> (∅ : gmap string V))).*2 = [v].
Proof.
  assert (map_range o (<[k := v]> (∅ : gmap string V)) ≡ₚ [(k, v)]) as Hp.
  { rewrite map_range_perm. rewrite map_to_list_insert by done. by rewrite map_to_list_empty. }
  apply Permutation_singleton_r in Hp. by rewrite Hp.
Qed.

(** Values that hold a service with these nodes are read as one service. *)
Lemma lookup_one s o l kvs nodes : 
  kvs ≡ₚ (map_to_list (under (s_Name s) l)).*2 -> stored (s_Name s) l ≡ₚ map (fun n => Some (node_service s n)) nodes ->
  nodes <> [] -> kvs <> [] /\ exists nodes', nodes' ≡ₚ nodes /\ (map_range o (foldl group_version ∅ kvs)).*2 = [with_nodes s nodes'].
Proof.
  intros Hpre Hst Hne. assert (map (fun kv => decode (kv_Value kv)) kvs ≡ₚ map (fun n => Some (node_service s n)) nodes) as Hk.
  { rewrite Hpre, <- Hst. unfold stored. by setoid_rewrite map_map. }
  apply Permutation_map_inv in Hk as (nodes' & Hk & Hperm).
  assert (nodes' <> []) as Hne' by (intros ->; by apply Permutation_nil_r in Hperm).
  split; [intros ->; by destruct nodes'|]. exists nodes'. split; [done|].
  rewrite (group_one s nodes' kvs ∅) by done. destruct nodes' as [|n nodes']; [done|]. by rewrite lookup_empty, map_range_one.
Qed.

(** C38: a service of plain names (no slashes, not empty, no dots alone) was registered
    without an error, with nodes that were not known yet to the registry nor to any member
    of etcd, under a name under which no member had anything; no lease ran out and others
    changed nothing since. Looking it up then fails, or a member answers that has what
    etcd stored at some moment: one from before the registration finds nothing; any other
    gives one service, with its version, metadata and endpoints and exactly the first so
    many of its nodes, in some order; a member that is up to date gives exactly all. *)
Theorem etcd_registered_found s ttl o e w e' w' w'' r :
  well_named s -> Forall (fun n => written (node_service s n)) (s_Nodes s) -> Forall (unknown s e w) (s_Nodes s) ->
  Forall (fun m => under (s_Name s) m = ∅) (history w) ->
  Register s ttl e w = (e', w', Ret tt) -> client e' <> None -> GetService o (s_Name s) e' w' = (w'', r) ->
  let m := answers (servicePath (s_Name s) +:+ "/") true w' in
  (exists err, r = Fail (EtcdError err)) \/ (r = Fail ErrNotFound /\ m ∈ history w /\ m <> view w') \/
  exists k nodes, 0 < k /\ nodes ≡ₚ take k (s_Nodes s) /\ r = Ret [with_nodes s nodes] /\ (m = view w' -> k = length (s_Nodes s)).
Proof.
  intros (Hs & Hp & Hnd) Hw Hu Hempty Hr Hc Hg. unfold Register in Hr. destruct (length (s_Nodes s) =? 0) eqn:Hlen; [done|].
  apply Nat.eqb_neq in Hlen. apply register_nodes_stored in Hr as (_ & Hst & Hhist); [|done..].
  assert (stored (s_Name s) (view w) = []) as Hnone.
  { unfold stored, view. destruct (history w) as [|m0 l]; [by unfold under; cbn; rewrite map_filter_empty, map_to_list_empty|].
    apply Forall_cons in Hempty as [He _]. cbn. by rewrite He, map_to_list_empty. }
  rewrite Hnone, app_nil_r in Hst. cbn zeta. set (m := answers _ _ _).
  unfold GetService in Hg. rewrite bool_decide_eq_true_2 in Hg by by destruct (client e'). cbn [negb] in Hg.
  pose proof (Get_prefix (servicePath (s_Name s) +:+ "/") w') as Hpre.
  destruct (Get _ true w') as [w1 [err|kvs]]; [left; simplify_eq; by eexists|]. cbn in Hpre. specialize (Hpre kvs eq_refl). right.
  assert (s_Nodes s <> []) as Hne by (intros Hn; by rewrite Hn in Hlen).
  fold m in Hpre. change (filter _ m) with (under (s_Name s) m) in Hpre.
  destruct (decide (m = view w')) as [Hm|Hm].
  - right. rewrite <- Hm in Hst. destruct (lookup_one s o m kvs (s_Nodes s) Hpre Hst Hne) as (Hk & nodes & Hperm & Hl).
    exists (length (s_Nodes s)), nodes. rewrite firstn_all. destruct kvs as [|kv kvs]; [done|]. simplify_eq. rewrite Hl.
    split_and!; [lia|done|done|done].
  - destruct (Hhist m (answers_from _ _ _)) as [Hold|[k Hk]].
    + left. rewrite Forall_forall in Hempty. rewrite (Hempty m Hold), map_to_list_empty in Hpre.
      apply Permutation_nil_r in Hpre. subst kvs. by simplify_eq.
    + right. rewrite Hnone, app_nil_r in Hk. assert (take (S k) (s_Nodes s) <> []) as Hne' by by destruct (s_Nodes s).
      destruct (lookup_one s o m kvs _ Hpre Hk Hne') as (Hkv & nodes & Hperm & Hl).
      exists (S k), nodes. destruct kvs as [|kv kvs]; [done|]. simplify_eq. rewrite Hl. split_and!; [lia|done|done|done].
Qed.

(** ** Registering again, deregistering *)

Lemma KeepAliveOnce_view id w : view (KeepAliveOnce id w).1 = view w.
Proof. unfold view. by rewrite KeepAliveOnce_history. Qed.

Lemma Delete_view k w : (Delete_key k w).2 = None -> view (Delete_key k w).1 = delete k (view w).
Proof. intros Hd. unfold view. by rewrite Delete_history. Qed.

(** A node that is known here, whose hash is the one it was registered with: its lease is
    renewed and nothing is written, whatever else of the service has changed, its version,
    metadata and endpoints; only when etcd does not know the lease any more is the service
    put again, under a new one. *)
Theorem renew_spec s ttl n e w id h :
  s_Nodes s <> [] -> client e <> None -> leases e !! local_key s n = Some id -> (0 < id)%Z ->
  register e !! local_key s n = Some h -> Hash n = inr h ->
  match KeepAliveOnce id w with
  | (w1, None) => registerNode s ttl n e w = (e, w1, Ret tt) /\ view w1 = view w
  | (w1, Some ErrLeaseNotFound) => registerNode s ttl n e w = put_node s n h ttl e w1 /\ view w1 = view w
  | (w1, Some (LeaseError err)) => registerNode s ttl n e w = (e, w1, Fail err) /\ view w1 = view w
  end.
Proof.
  intros Hn Hc Hl Hid Hr Hh. unfold registerNode, lease_of, renew. rewrite Hl, (proj2 (Z.ltb_lt _ _) Hid), Hh.
  assert ((length (s_Nodes s) =? 0) = false) as -> by (apply Nat.eqb_neq; by destruct (s_Nodes s)).
  rewrite bool_decide_eq_true_2 by by destruct (client e). cbn [negb].
  pose proof (KeepAliveOnce_view id w) as Hv. destruct (KeepAliveOnce id w) as [w1 [[|err]|]]; cbn in Hv.
  - by rewrite andb_false_r.
  - done.
  - rewrite bool_decide_eq_true_2 by done. done.
Qed.

(** Deregistering without an error takes exactly the keys of the nodes out of etcd, and
    exactly their hashes and leases out of the registry. *)
Theorem Deregister_removes s e w e' w' k :
  Deregister s e w = (e', w', Ret tt) ->
  view w' !! k = (if decide (k ∈ map (fun n => nodePath (s_Name s) (n_Id n)) (s_Nodes s)) then None else view w !! k) /\
  register e' !! k = (if decide (k ∈ map (local_key s) (s_Nodes s)) then None else register e !! k) /\
  leases e' !! k = (if decide (k ∈ map (local_key s) (s_Nodes s)) then None else leases e !! k).
Proof.
  unfold Deregister. destruct (_ =? 0); [done|]. generalize (s_Nodes s) as nodes. intros nodes. revert e w.
  induction nodes as [|n nodes IH]; intros e w Hd; [by cbn in Hd; simplify_eq|]. cbn [deregister_nodes] in Hd.
  set (e1 := set_maps _ _ e) in Hd. destruct (negb _); [done|].
  pose proof (Delete_view (nodePath (s_Name s) (n_Id n)) w) as Hv. destruct (Delete_key _ w) as [w1 [err|]]; [done|].
  specialize (Hv eq_refl). cbn in Hv. destruct (IH e1 w1 Hd) as (Hv1 & Hr1 & Hl1). rewrite Hv1, Hr1, Hl1, Hv. unfold e1. cbn [map].
  assert (forall A (k0 : string) l (m : gmap string A), (if decide (k ∈ l) then None else delete k0 m !! k) =
    (if decide (k ∈ k0 :: l) then None else m !! k)) as Hdel.
  { intros A k0 l m. destruct (decide (k ∈ l)) as [Hin|Hin]; [by rewrite decide_True by (by right)|].
    destruct (decide (k = k0)) as [->|Hne]; [rewrite lookup_delete_eq; by rewrite decide_True by (by left)|].
    rewrite lookup_delete_ne by done. rewrite decide_False; [done|]. intros [Hk|Hk]%elem_of_cons; [by apply Hne|done]. }
  cbn [set_maps register leases]. by rewrite !Hdel.
Qed.

(** ** Watching *)

(** The results of calling [Next] [n] times, up to the first that fails or waits. *)
Fixpoint watched (n : nat) (rs : list response) : list Result :=
  match n with
  | 0 => []
  | S n => match Next false rs with (rs, Some (Ret res)) => res :: watched n rs | _ => [] end
  end.

(** What a response reports. *)
Definition reports (r : response) : option Result := match first_result (r_Events r) with Ret o => o | _ => None end.

Definition healthy (r : response) : Prop := r_Err r = None /\ r_Canceled r = false /\ exists o, first_result (r_Events r) = Ret o.

Lemma Next_skip r rs : healthy r -> reports r = None -> Next false (r :: rs) = Next false rs.
Proof.
  intros (He & Hc & o & Hr) Hn. cbn [Next]. rewrite He, Hc. unfold reports in Hn. rewrite Hr in *. by subst.
Qed.

(** A watcher sees one event of each response of etcd: its first that can be decoded.
    The others of the same response are never seen. *)
Theorem one_event_per_response rs n :
  Forall healthy rs -> length rs <= n -> watched n rs = omap reports rs.
Proof.
  intros Hh. revert n. induction Hh as [|r rs Hr Hrs IH]; intros n Hn; [by destruct n|]. cbn in Hn. cbn [omap list_omap].
  destruct n as [|n]; [lia|]. destruct (reports r) as [res|] eqn:Hrep.
  - cbn [watched Next]. destruct Hr as (He & Hc & o & Hret). rewrite He, Hc. unfold reports in Hrep.
    rewrite Hret in *. subst o. f_equal. apply IH. lia.
  - rewrite <- (IH (S n) ltac:(lia)). cbn [watched]. by rewrite Next_skip.
Qed.
End facts.

(** Without a time to live, registering a node that etcd does not have panics. *)
Theorem no_ttl_panics {W} `{Client W} `{Values} s n ttl e w w1 h :
  (ttl <= 0)%Z -> s_Nodes s <> [] -> leases e !! local_key s n = None -> register e !! local_key s n = None ->
  Get (nodePath (s_Name s) (n_Id n)) false w = (w1, inr []) -> Hash n = inr h ->
  (registerNode s ttl n e w).2 = Panic.
Proof.
  intros Ht Hn Hl Hr Hg Hh. unfold registerNode, lease_of, renew. rewrite Hl, Hg. cbn [find_lease Z.ltb Z.compare].
  assert ((length (s_Nodes s) =? 0) = false) as -> by (apply Nat.eqb_neq; by destruct (s_Nodes s)).
  destruct (negb (bool_decide (is_Some (client e)))); [done|]. rewrite Hh.
  rewrite bool_decide_eq_false_2 by by rewrite Hr. cbn. unfold put_node. by rewrite (proj2 (Z.ltb_ge 0 ttl) Ht).
Qed.

(** ** Examples and witnesses *)

(** An etcd in memory: what it stores, what it stored before, the next lease, and by how
    many changes the member that is asked is behind. *)
Record ex_etcd := mkEx { x_now : gmap string KV; x_before : list (gmap string KV); x_lease : Z; x_lag : nat }.

Definition ex_answers (w : ex_etcd) : gmap string KV := nth (x_lag w) (x_now w :: x_before w) (x_now w).

Definition ex_change (m : gmap string KV) (w : ex_etcd) : ex_etcd := mkEx m (x_now w :: x_before w) (x_lease w) (x_lag w).

Lemma ex_answers_from w : ex_answers w ∈ x_now w :: x_before w.
Proof.
  unfold ex_answers. apply list_elem_of_In. destruct (nth_in_or_default (x_lag w) (x_now w :: x_before w) (x_now w)) as [Hi| ->]; [exact Hi|by left].
Qed.

#[local] Instance ex_client : Client ex_etcd := {|
  Get k p w := (w, inr (if p then (map_to_list (filter (fun kv => has_prefix kv.1 k = true) (ex_answers w))).*2
                        else option_list (ex_answers w !! k)));
  KeepAliveOnce id w := (w, if (id <? x_lease w)%Z then None else Some ErrLeaseNotFound);
  Grant _ w := (mkEx (x_now w) (x_before w) (x_lease w + 1)%Z (x_lag w), inr (x_lease w));
  Put k v id w := (ex_change (<[k := mkKV v id]> (x_now w)) w, None);
  Delete_key k w := (ex_change (delete k (x_now w)) w, None) |}.

#[local] Instance ex_client_laws : ClientLaws ex_etcd.
Proof.
  refine {| history w := x_now w :: x_before w; answers _ _ w := ex_answers w |}; try done; cbn.
  - intros _ _ w. apply ex_answers_from.
  - by intros k w kvs [= <-].
  - by intros k w kvs [= <-].
Defined.

Definition ex_n (id addr : string) : Node := mkNode None id addr.
Definition ex_s (version : string) (nodes : list Node) : Service := mkService "greeter" version ∅ [] nodes.
Definition ex_service : Service := ex_s "1" [ex_n "n1" "10.0.0.1:80"; ex_n "n2" "10.0.0.2:80"].

(** Enough of json for one service with one of two nodes. *)
#[local] Instance ex_values : Values := {|
  Marshal s := match s_Nodes s with n :: _ => inr (n_Id n) | [] => inl "no node" end;
  Unmarshal b := if String.eqb b "n1" then Some (ex_s "1" [ex_n "n1" "10.0.0.1:80"])
    else if String.eqb b "n2" then Some (ex_s "1" [ex_n "n2" "10.0.0.2:80"]) else None;
  Hash n := inr (Z.of_nat (String.length (n_Address n))) |}.

#[local] Instance ex_values_laws : ValuesLaws.
Proof.
  refine {| readable s := s = ex_s "1" [ex_n "n1" "10.0.0.1:80"] \/ s = ex_s "1" [ex_n "n2" "10.0.0.2:80"] |}.
  intros s b [-> | ->] Hb; cbn in Hb; by injection Hb as <-.
Defined.

Definition ex_registry : etcdRegistry := mkEtcd (Some (mkConfig [] 0 false "" "")) (mkOptions [] 0 false false None) ∅ ∅.
Definition ex_registered := Register ex_service (60 * 10 ^ 9) ex_registry (mkEx ∅ [] 1 0).

(** A member that is one change behind. *)
Definition ex_behind := Register ex_service (60 * 10 ^ 9) ex_registry (mkEx ∅ [] 1 1).

Lemma etcd_registered_found_witness :
  exists k nodes, 0 < k /\ nodes ≡ₚ take k (s_Nodes ex_service) /\
    (GetService order_rev "greeter" ex_registered.1.1 ex_registered.1.2).2 = Ret [with_nodes ex_service nodes] /\ k = 2.
Proof.
  assert (GetService order_rev "greeter" ex_registered.1.1 ex_registered.1.2 =
    (ex_registered.1.2, (GetService order_rev "greeter" ex_registered.1.1 ex_registered.1.2).2)) as Hget by (vm_compute; reflexivity).
  assert (forall s, bool_decide (s ∉ [""; "."; ".."]) && negb (str_has "/" s) = true -> GoPath.plain s) as Hplain.
  { intros s [Hs Hh]%andb_prop. split; [by apply bool_decide_eq_true_1 in Hs|by apply negb_true_iff]. }
  destruct (etcd_registered_found ex_service (60 * 10 ^ 9) order_rev ex_registry (mkEx ∅ [] 1 0) ex_registered.1.1 ex_registered.1.2
    ex_registered.1.2 (GetService order_rev "greeter" ex_registered.1.1 ex_registered.1.2).2)
    as [(err & Herr)|[(Herr & _)|(k & nodes & Hk & Hn & Hr & Hall)]].
  - split; [by apply Hplain|]. split; [repeat (apply Forall_cons_2; [by apply Hplain|]); apply Forall_nil_2|].
    apply NoDup_cons. split; [by intros ?%list_elem_of_singleton|apply NoDup_singleton].
  - apply Forall_cons_2; [split; [by left|by eexists]|]. apply Forall_cons_2; [split; [by right|by eexists]|]. apply Forall_nil_2.
  - repeat (apply Forall_cons_2; [split; [reflexivity|]; split; [reflexivity|apply Forall_cons_2; [reflexivity|apply Forall_nil_2]]|]).
    apply Forall_nil_2.
  - apply Forall_cons_2; [vm_compute; reflexivity|apply Forall_nil_2].
  - vm_compute. reflexivity.
  - done.
  - exact Hget.
  - exfalso. vm_compute in Herr. done.
  - exfalso. vm_compute in Herr. done.
  - exists k, nodes. split; [done|]. split; [done|]. split; [exact Hr|]. by apply Hall.
Defined.

(** The member that is behind has the first node only. *)
Example behind_finds_less :
  ex_behind.2 = Ret tt /\ (GetService order_id "greeter" ex_behind.1.1 ex_behind.1.2).2 = Ret [ex_s "1" [ex_n "n1" "10.0.0.1:80"]].
Proof. vm_compute. done. Qed.

(** A node that is deregistered and registered again: the member that is behind still
    answers with its key and its lease, which nobody has revoked, and nothing is written. *)
Example registered_again_lost :
  let x := Register (ex_s "1" [ex_n "n1" "10.0.0.1:80"]) (60 * 10 ^ 9) ex_registry (mkEx ∅ [] 1 1) in
  let y := Deregister (ex_s "1" [ex_n "n1" "10.0.0.1:80"]) x.1.1 x.1.2 in
  let z := Register (ex_s "1" [ex_n "n1" "10.0.0.1:80"]) (60 * 10 ^ 9) y.1.1 y.1.2 in
  (x.2, y.2, z.2) = (Ret tt, Ret tt, Ret tt) /\ x_now z.1.2 = ∅.
Proof. vm_compute. done. Qed.

(** The version has changed, the node has not: nothing is written. *)
Example new_version_lost :
  let x := Register (ex_s "2" (s_Nodes ex_service)) (60 * 10 ^ 9) ex_registered.1.1 ex_registered.1.2 in
  x.2 = Ret tt /\ map s_Version (match (GetService order_id "greeter" x.1.1 x.1.2).2 with Ret l => l | _ => [] end) = ["1"].
Proof. vm_compute. done. Qed.

(** A name with a slash shares its keys with the name that has a dash there. *)
Example slash_and_dash : servicePath "a/b" = servicePath "a-b" /\ servicePath ".." = "/micro".
Proof. vm_compute. done. Qed.

Definition ex_response : response := mkResponse None false [EvPut true "n1"; EvPut true "n2"].

Lemma one_event_per_response_witness :
  watched 2 [ex_response; mkResponse None false [EvDelete (Some "n1")]] =
    [mkResult (ex_s "1" [ex_n "n1" "10.0.0.1:80"]) "create"; mkResult (ex_s "1" [ex_n "n1" "10.0.0.1:80"]) "delete"].
Proof.
  rewrite (one_event_per_response [ex_response; mkResponse None false [EvDelete (Some "n1")]] 2);
    [vm_compute; reflexivity| |cbn; lia].
  repeat (apply Forall_cons_2; [split_and!; [done|done|by eexists]|]). apply Forall_nil_2.
Defined.

Definition ex_gone := Deregister ex_service ex_registered.1.1 ex_registered.1.2.

Lemma Deregister_removes_witness : view ex_gone.1.2 !! nodePath "greeter" "n1" = None.
Proof.
  assert (ex_gone = (ex_gone.1.1, ex_gone.1.2, Ret tt)) as Hgone by (vm_compute; reflexivity).
  destruct (Deregister_removes ex_service _ _ _ _ (nodePath "greeter" "n1") Hgone) as [Hv _].
  rewrite Hv. by rewrite decide_True by (by left).
Defined.
