(* ===== verification/JsonRpc.v ===== *)
(** * The json codecs: [codec/jsonrpc/], [codec/json/json.go]

    json-rpc 1.0 for both ends, and the codec that carries plain json documents. A
    document is a tree, and a connection the documents that are still to be read and
    those that were written: turning trees into text and back, and finding the end of a
    document, is [encoding/json]'s. An object has every key once. The two decoders of a
    json-rpc codec share the connection; an end only reads requests or only responses. *)
From S2P Require Import Prelude GoStrings GoStrconv GoIO.
From S2P Require Codec.

Inductive json :=
| Null
| Bool (b : bool)
| Num (text : string)
| Str (s : string)
| Arr (l : list json)
| Obj (kvs : list (string * json)).

(** What json makes of the bodies, and how a number is formatted that was read into an
    interface. *)
Class Bodies (V : Type) := {
  to_json : V -> string + json;
  of_json : json -> V -> string + V;
  fmt_number : string -> string;
}.

(** A body that was written is read into a target of its type. *)
Class BodiesLaws (V : Type) `{Bodies V} := {
  same_type : V -> V -> Prop;
  of_json_to_json v v' j : same_type v v' -> to_json v = inr j -> of_json j v' = inr v;
}.

(** A document that cannot be read is an error, and so is every one after it. *)
Inductive document := Doc (j : json) | Garbled (err : string).

Record conn := mkConn { c_in : list document; c_out : list json; c_broken : bool; c_closed : bool }.

Definition Encode (j : json) (c : conn) : conn * outcome error unit :=
  if c_broken c then (c, Fail broken_pipe)
  else (mkConn (c_in c) (c_out c ++ [j]) false (c_closed c), Ret ()).

Definition Decode (c : conn) : conn * outcome error json :=
  match c_in c with
  | [] => (c, Fail EOF)
  | Garbled err :: _ => (c, Fail (ErrMsg err))
  | Doc j :: ds => (mkConn ds (c_out c) (c_broken c) (c_closed c), Ret j)
  end.

(** The value of a field: keys are compared without regard to case. *)
Fixpoint field (k : string) (kvs : list (string * json)) : option json :=
  match kvs with
  | [] => None
  | (k', j) :: kvs => if String.eqb (to_lower k') k then Some j else field k kvs
  end.

(** The fields of a document; [null] has none, and no other value is a struct. *)
Definition fields (j : json) : option (list (string * json)) :=
  match j with Obj kvs => Some kvs | Null => Some [] | _ => None end.

Definition not_a_struct : error := ErrMsg "json: cannot unmarshal value into Go value of type struct".
Definition not_a_string : error := ErrMsg "json: cannot unmarshal value into Go struct field of type string".

(** A field of type string: [null] leaves it empty. *)
Definition string_field (j : option json) : outcome error string :=
  match j with None | Some Null => Ret "" | Some (Str s) => Ret s | Some _ => Fail not_a_string end.

(** [fmt.Sprintf("%v")] of an identifier; lists and objects have a format of their own. *)
Section codec.
Context {V : Type} `{Bodies V} (fmt_other : json -> string).

Definition fmt_id (j : json) : string :=
  match j with
  | Null => "<nil>"
  | Bool b => if b then "true" else "false"
  | Num text => fmt_number text
  | Str s => s
  | Arr _ | Obj _ => fmt_other j
  end.

(** ** The client: [client.go] *)

(** [r_Result] is what [ReadHeader] left; the calls that wait are kept by their identifier. *)
Record clientCodec := mkClient { pending : gmap string string; resp_Result : option json }.

Definition newClientCodec : clientCodec := mkClient ∅ None.

Definition body_json (b : option V) : string + json := match b with None => inr Null | Some v => to_json v end.

Definition clientRequest (m : Codec.Message) (params : json) : json :=
  Obj [("params", Arr [params]); ("id", Str (Codec.m_Id m)); ("method", Str (Codec.m_Method m))].

(** The identifier is kept even when the request cannot be written. *)
Definition client_Write (m : Codec.Message) (b : option V) (c : conn) (k : clientCodec) :
    clientCodec * conn * outcome error unit :=
  let k := mkClient (<[Codec.m_Id m := Codec.m_Method m]> (pending k)) (resp_Result k) in
  match body_json b with
  | inl err => (k, c, Fail (ErrMsg err))
  | inr j => let '(c, r) := Encode (clientRequest m j) c in (k, c, r)
  end.

Definition with_answer (m : Codec.Message) (id method err : string) : Codec.Message :=
  Codec.mkMessage (Codec.m_Header m) id (Codec.m_Target m) method (Codec.m_Endpoint m) err (Codec.m_Body m) (Codec.m_Type m).

(** The error of an answer: an empty one becomes "unspecified error". *)
Definition answer_error (j : option json) : outcome error string :=
  match j with
  | None | Some Null => Ret ""
  | Some (Str "") => Ret "unspecified error"
  | Some (Str x) => Ret x
  | Some _ => Fail (ErrMsg "invalid error")
  end.

(** An identifier that is missing is the number 0; a list or an object cannot be the key
    of a map, and looking it up panics. *)
Definition client_ReadHeader (m : Codec.Message) (c : conn) (k : clientCodec) :
    clientCodec * conn * (Codec.Message * outcome error unit) :=
  match Decode c with
  | (c, Fail e) => (mkClient (pending k) None, c, (m, Fail e))
  | (c, Panic) => (mkClient (pending k) None, c, (m, Panic))
  | (c, Ret doc) =>
      match fields doc with
      | None => (mkClient (pending k) None, c, (m, Fail not_a_struct))
      | Some kvs =>
          let id := default (Num "0") (field "id" kvs) in
          let text := match field "id" kvs with None => "0" | Some j => fmt_id j end in
          let result := match field "result" kvs with Some Null => None | r => r end in
          match id with
          | Arr _ | Obj _ => (mkClient (pending k) result, c, (m, Panic))
          | _ =>
              let '(method, pend) := match id with
                | Str s => (default "" (pending k !! s), delete s (pending k))
                | _ => ("", pending k)
                end in
              let k := mkClient pend result in
              match answer_error (field "error" kvs) with
              | Ret err => (k, c, (with_answer m text method err, Ret ()))
              | Fail e => (k, c, (with_answer m text method "", Fail e))
              | Panic => (k, c, (m, Panic))
              end
          end
      end
  end.

Definition lib_body (r : string + V) : outcome error (option V) :=
  match r with inl err => Fail (ErrMsg err) | inr v => Ret (Some v) end.

Definition client_ReadBody (x : option V) (k : clientCodec) : outcome error (option V) :=
  match x, resp_Result k with
  | None, _ | _, None => Ret x
  | Some v, Some j => lib_body (of_json j v)
  end.

(** ** The server: [server.go] *)

(** The parameters of the last request: nil, an empty text, or what was sent. *)
Record serverCodec := mkServer { req_Params : option (option json) }.

Definition newServerCodec : serverCodec := mkServer None.

(** [reset]: the text is emptied, the pointer stays. *)
Definition reset (s : serverCodec) : serverCodec :=
  mkServer (match req_Params s with None => None | Some _ => Some None end).

Definition with_request (m : Codec.Message) (id method : string) : Codec.Message :=
  Codec.mkMessage (Codec.m_Header m) id (Codec.m_Target m) method (Codec.m_Endpoint m) (Codec.m_Error m) (Codec.m_Body m)
    (Codec.m_Type m).

Definition server_ReadHeader (m : Codec.Message) (c : conn) (s : serverCodec) :
    serverCodec * conn * (Codec.Message * outcome error unit) :=
  let s := reset s in
  match Decode c with
  | (c, Fail e) => (s, c, (m, Fail e))
  | (c, Panic) => (s, c, (m, Panic))
  | (c, Ret doc) =>
      match fields doc with
      | None => (s, c, (m, Fail not_a_struct))
      | Some kvs =>
          let s := match field "params" kvs with
            | None => s
            | Some Null => mkServer None
            | Some j => mkServer (Some (Some j))
            end in
          match string_field (field "method" kvs) with
          | Ret method => (s, c, (with_request m (fmt_id (default Null (field "id" kvs))) method, Ret ()))
          | Fail e => (s, c, (m, Fail e))
          | Panic => (s, c, (m, Panic))
          end
      end
  end.

(** The parameters are read into an array of one: a missing or null element leaves the
    target alone. Without parameters the pointer is nil. *)
Definition server_ReadBody (x : option V) (s : serverCodec) : outcome error (option V) :=
  match x with
  | None => Ret None
  | Some v =>
      match req_Params s with
      | None => Panic
      | Some None => Fail (ErrMsg "unexpected end of JSON input")
      | Some (Some (Arr [])) | Some (Some (Arr (Null :: _))) => Ret (Some v)
      | Some (Some (Arr (j :: _))) => lib_body (of_json j v)
      | Some (Some _) => Fail (ErrMsg "json: cannot unmarshal value into Go value of type [1]interface {}")
      end
  end.

Definition serverResponse (m : Codec.Message) (result : json) : json :=
  Obj [("id", Str (Codec.m_Id m)); ("result", result);
       ("error", if String.eqb (Codec.m_Error m) "" then Null else Str (Codec.m_Error m))].

Definition server_Write (m : Codec.Message) (x : option V) (c : conn) : conn * outcome error unit :=
  match body_json x with
  | inl err => (c, Fail (ErrMsg err))
  | inr j => Encode (serverResponse m j) c
  end.

(** ** The codec: [jsonrpc.go] *)

(** [buf] has what was read of an event. *)
Record jsonCodec := mkCodec { rwc : conn; buf : list document; cl : clientCodec; sv : serverCodec; mt : Z }.

Definition NewCodec (c : conn) : jsonCodec := mkCodec c [] newClientCodec newServerCodec 0.

Definition Write (m : Codec.Message) (b : option V) (j : jsonCodec) : jsonCodec * outcome error unit :=
  let t := Codec.m_Type m in
  if (t =? Codec.TypeRequest)%Z then
    let '(k, c, r) := client_Write m b (rwc j) (cl j) in (mkCodec c (buf j) k (sv j) (mt j), r)
  else if (t =? Codec.TypeResponse)%Z || (t =? Codec.TypeError)%Z then
    let '(c, r) := server_Write m b (rwc j) in (mkCodec c (buf j) (cl j) (sv j) (mt j), r)
  else if (t =? Codec.TypeEvent)%Z then
    match body_json b with
    | inl err => (j, Fail (ErrMsg err))
    | inr d => let '(c, r) := Encode d (rwc j) in (mkCodec c (buf j) (cl j) (sv j) (mt j), r)
    end
  else (j, Fail (Codec.unrecognized t)).

Definition ReadHeader (m : Codec.Message) (t : Z) (j : jsonCodec) : jsonCodec * (Codec.Message * outcome error unit) :=
  if (t =? Codec.TypeRequest)%Z then
    let '(s, c, r) := server_ReadHeader m (rwc j) (sv j) in (mkCodec c [] (cl j) s t, r)
  else if (t =? Codec.TypeResponse)%Z then
    let '(k, c, r) := client_ReadHeader m (rwc j) (cl j) in (mkCodec c [] k (sv j) t, r)
  else if (t =? Codec.TypeEvent)%Z then
    let c := rwc j in (mkCodec (mkConn [] (c_out c) (c_broken c) (c_closed c)) (c_in c) (cl j) (sv j) t, (m, Ret ()))
  else (mkCodec (rwc j) [] (cl j) (sv j) t, (m, Fail (Codec.unrecognized t))).

(** The body of an event is one document, with nothing after it. *)
Definition ReadBody (b : option V) (j : jsonCodec) : outcome error (option V) :=
  if (mt j =? Codec.TypeRequest)%Z then server_ReadBody b (sv j)
  else if (mt j =? Codec.TypeResponse)%Z then client_ReadBody b (cl j)
  else if (mt j =? Codec.TypeEvent)%Z then
    match b with
    | None => Ret None
    | Some v =>
        match buf j with
        | [Doc d] => lib_body (of_json d v)
        | [] => Fail (ErrMsg "unexpected end of JSON input")
        | Garbled err :: _ => Fail (ErrMsg err)
        | _ => Fail (ErrMsg "invalid character after top-level value")
        end
    end
  else Fail (Codec.unrecognized (mt j)).

Definition Close (j : jsonCodec) : jsonCodec :=
  let c := rwc j in mkCodec (mkConn (c_in c) (c_out c) (c_broken c) true) [] (cl j) (sv j) (mt j).

(** ** Plain json: [codec/json/json.go] *)
Definition json_ReadBody (b : option V) (c : conn) : conn * outcome error (option V) :=
  match b with
  | None => (c, Ret None)
  | Some v =>
      match Decode c with
      | (c, Ret d) => (c, lib_body (of_json d v))
      | (c, Fail e) => (c, Fail e)
      | (c, Panic) => (c, Panic)
      end
  end.

Definition json_Write (b : option V) (c : conn) : conn * outcome error unit :=
  match b with
  | None => (c, Ret ())
  | Some v => match to_json v with inl err => (c, Fail (ErrMsg err)) | inr d => Encode d c end
  end.
End codec.

(** ** Requests and answers are read back *)
Section facts.
Context {V : Type} `{BodiesLaws V} (fmt_other : json -> string).

Lemma client_Write_ret m b c k k' c' :
  client_Write m b c k = (k', c', Ret ()) ->
  exists j, body_json b = inr j /\ c_out c' = c_out c ++ [clientRequest m j] /\ c_in c' = c_in c /\
    k' = mkClient (<[Codec.m_Id m := Codec.m_Method m]> (pending k)) (resp_Result k).
Proof.
  unfold client_Write. destruct (body_json b) as [err|j]; [done|]. unfold Encode. destruct (c_broken c); [done|].
  intros [= <- <-]. by exists j.
Qed.

(** Reading a request that a client wrote. *)
Lemma server_reads m j sm sc s rest :
  c_in sc = Doc (clientRequest m j) :: rest ->
  server_ReadHeader fmt_other sm sc s =
    (mkServer (Some (Some (Arr [j]))), mkConn rest (c_out sc) (c_broken sc) (c_closed sc),
     (with_request sm (Codec.m_Id m) (Codec.m_Method m), Ret ())).
Proof. intros Hin. unfold server_ReadHeader, Decode. rewrite Hin. reflexivity. Qed.

(** Reading an answer that a server wrote. *)
Lemma client_reads a result cm cc k rest :
  c_in cc = Doc (serverResponse a result) :: rest ->
  client_ReadHeader fmt_other cm cc k =
    (mkClient (delete (Codec.m_Id a) (pending k)) (match result with Null => None | r => Some r end),
     mkConn rest (c_out cc) (c_broken cc) (c_closed cc),
     (with_answer cm (Codec.m_Id a) (default "" (pending k !! Codec.m_Id a)) (Codec.m_Error a), Ret ())).
Proof.
  intros Hin. unfold client_ReadHeader, Decode. rewrite Hin. unfold serverResponse.
  destruct a as [h id tg me ep er bo ty]. cbn [Codec.m_Error Codec.m_Id]. destruct er as [|a er]; by destruct result.
Qed.

Lemma server_Write_ret a r c c' :
  server_Write a (Some r) c = (c', Ret ()) ->
  exists j, to_json r = inr j /\ c_out c' = c_out c ++ [serverResponse a j].
Proof.
  unfold server_Write. cbn [body_json]. destruct (to_json r) as [err|j]; [done|]. unfold Encode. destruct (c_broken c); [done|].
  intros [= <-]. by exists j.
Qed.

(** A request that a client writes is read by a server with its identifier and method,
    and its body is read into a target of its type; what the server answers is read by
    the client with the identifier, the method of the request and the error, and with the
    result. *)
Theorem jsonrpc_exchange m v c k k' c' v0 sm sc s rest :
  client_Write m (Some v) c k = (k', c', Ret ()) -> same_type v v0 ->
  to_json v <> inr Null ->
  c_in sc = map Doc (drop (length (c_out c)) (c_out c')) ++ rest ->
  exists s' sc', server_ReadHeader fmt_other sm sc s =
      (s', sc', (with_request sm (Codec.m_Id m) (Codec.m_Method m), Ret ())) /\
    c_in sc' = rest /\ server_ReadBody (Some v0) s' = Ret (Some v) /\
    forall a r sc'' r0 cm cc cin, server_Write a (Some r) sc' = (sc'', Ret ()) -> Codec.m_Id a = Codec.m_Id m ->
      to_json r <> inr Null -> same_type r r0 ->
      c_in cc = map Doc (drop (length (c_out sc')) (c_out sc'')) ++ cin ->
      exists k'' cc', client_ReadHeader fmt_other cm cc k' =
          (k'', cc', (with_answer cm (Codec.m_Id m) (Codec.m_Method m) (Codec.m_Error a), Ret ())) /\
        c_in cc' = cin /\ pending k'' = delete (Codec.m_Id m) (pending k) /\ client_ReadBody (Some r0) k'' = Ret (Some r).
Proof.
  intros Hw Hty Hnn Hin. apply client_Write_ret in Hw as (j & Hj & Hout & _ & ->). cbn in Hj.
  rewrite Hout, drop_app_length in Hin. eexists _, _. split; [apply (server_reads m j); exact Hin|]. split; [done|]. split.
  - cbn. destruct j; try (by rewrite (of_json_to_json _ _ _ Hty Hj)). congruence.
  - intros a r sc'' r0 cm cc cin Hsw Hid Hrn Hrt Hcin. apply server_Write_ret in Hsw as (jr & Hr & Hsout).
    rewrite Hsout, drop_app_length in Hcin. eexists _, _. split.
    + rewrite (client_reads a jr) with (rest := cin) by done. rewrite Hid. cbn [pending]. by rewrite lookup_insert_eq.
    + split; [done|]. split; [cbn; by rewrite delete_insert_eq|].
      cbn. destruct jr; try (by rewrite (of_json_to_json _ _ _ Hrt Hr)). congruence.
Qed.

(** ** Answers in any order *)
Fixpoint read_answers (cm : Codec.Message) (n : nat) (c : conn) (k : clientCodec) : list Codec.Message * clientCodec :=
  match n with
  | 0 => ([], k)
  | S n =>
      match client_ReadHeader fmt_other cm c k with
      | (k, c, (m, Ret _)) => let '(ms, k) := read_answers cm n c k in (m :: ms, k)
      | (k, _, _) => ([], k)
      end
  end.

Fixpoint write_requests (ms : list (Codec.Message * V)) (c : conn) (k : clientCodec) : option (clientCodec * conn) :=
  match ms with
  | [] => Some (k, c)
  | (m, v) :: ms =>
      match client_Write m (Some v) c k with
      | (k, c, Ret _) => write_requests ms c k
      | _ => None
      end
  end.

Lemma write_requests_pending ms : forall c k k' c' i,
  NoDup (map (fun mv => Codec.m_Id mv.1) ms) -> write_requests ms c k = Some (k', c') ->
  pending k' !! i = match List.find (fun mv => String.eqb (Codec.m_Id mv.1) i) ms with
    | Some mv => Some (Codec.m_Method mv.1) | None => pending k !! i end.
Proof.
  induction ms as [|[m v] ms IH]; intros c k k' c' i Hnd Hw; [by cbn in Hw; simplify_eq|]. cbn [map fst] in Hnd.
  apply NoDup_cons in Hnd as [Hni Hnd]. cbn [write_requests] in Hw.
  destruct (client_Write m (Some v) c k) as [[k1 c1] [[]|e|]] eqn:H1; [|done|done].
  apply client_Write_ret in H1 as (j & _ & _ & _ & ->). rewrite (IH _ _ _ _ i Hnd Hw). cbn [List.find fst pending].
  destruct (String.eqb_spec (Codec.m_Id m) i) as [<-|Hne]; [|by rewrite lookup_insert_ne].
  destruct (List.find _ ms) as [mv|] eqn:Hf; [|by rewrite lookup_insert_eq].
  apply List.find_some in Hf as [Hin Heq]. exfalso. apply Hni. apply String.eqb_eq in Heq. rewrite <- Heq.
  apply list_elem_of_In. by apply (in_map (fun mv => Codec.m_Id mv.1)).
Qed.

Definition method_of (ms : list (Codec.Message * V)) (id : string) : string :=
  match List.find (fun mv => String.eqb (Codec.m_Id mv.1) id) ms with Some mv => Codec.m_Method mv.1 | None => "" end.

Lemma read_answers_all cm answers : forall c k rest,
  NoDup (map (fun ar => Codec.m_Id ar.1) answers) ->
  c_in c = map (fun ar => Doc (serverResponse ar.1 ar.2)) answers ++ rest ->
  (read_answers cm (length answers) c k).1 =
    map (fun ar => with_answer cm (Codec.m_Id ar.1) (default "" (pending k !! Codec.m_Id ar.1)) (Codec.m_Error ar.1)) answers /\
  forall i, pending (read_answers cm (length answers) c k).2 !! i =
    if decide (i ∈ map (fun ar => Codec.m_Id ar.1) answers) then None else pending k !! i.
Proof.
  induction answers as [|[a r] answers IH]; intros c k rest Hnd Hin; [by split|]. cbn [map fst] in Hnd.
  apply NoDup_cons in Hnd as [Hni Hnd]. cbn [length read_answers].
  rewrite (client_reads a r cm c k (map (fun ar => Doc (serverResponse ar.1 ar.2)) answers ++ rest)) by done.
  set (c1 := mkConn _ _ _ _). set (k1 := mkClient _ _). destruct (IH c1 k1 rest Hnd eq_refl) as [Hms Hp].
  destruct (read_answers cm (length answers) c1 k1) as [ms k2]. cbn [fst snd] in *. split.
  - cbn [map fst]. f_equal. rewrite Hms. apply map_ext_in. intros ar Har. unfold k1. cbn [pending].
    rewrite lookup_delete_ne; [done|]. intros Heq. apply Hni. rewrite Heq. apply list_elem_of_In.
    by apply (in_map (fun ar => Codec.m_Id ar.1)).
  - intros i. rewrite Hp. unfold k1. cbn [pending map fst]. destruct (decide (i ∈ map _ answers)) as [Hi|Hi].
    + by rewrite decide_True by (by right).
    + destruct (decide (i = Codec.m_Id a)) as [->|Hne]; [rewrite lookup_delete_eq; by rewrite decide_True by (by left)|].
      rewrite lookup_delete_ne by done. rewrite decide_False; [done|]. intros [Hk|Hk]%elem_of_cons; [by apply Hne|done].
Qed.

(** C23: answers in any order. When a client has written requests with different
    identifiers, and their answers arrive in any order, every answer is read with the
    method of the request that has its identifier, and no call is left waiting. *)
Theorem answers_find_methods ms c k' c' answers cm ca rest :
  NoDup (map (fun mv => Codec.m_Id mv.1) ms) -> write_requests ms c newClientCodec = Some (k', c') ->
  map (fun ar => Codec.m_Id ar.1) answers ≡ₚ map (fun mv => Codec.m_Id mv.1) ms ->
  c_in ca = map (fun ar => Doc (serverResponse ar.1 ar.2)) answers ++ rest ->
  (read_answers cm (length answers) ca k').1 =
    map (fun ar => with_answer cm (Codec.m_Id ar.1) (method_of ms (Codec.m_Id ar.1)) (Codec.m_Error ar.1)) answers /\
  pending (read_answers cm (length answers) ca k').2 = ∅.
Proof.
  intros Hnd Hw Hperm Hin. pose proof (fun i => write_requests_pending ms c newClientCodec k' c' i Hnd Hw) as Hpend.
  destruct (read_answers_all cm answers ca k' rest) as [Hms Hp]; [by rewrite Hperm|done|]. split.
  - rewrite Hms. apply map_ext. intros ar. rewrite Hpend. unfold method_of. by destruct (List.find _ ms).
  - apply map_empty. intros i. rewrite Hp, Hpend. destruct (decide _) as [|Hi]; [done|]. rewrite Hperm in Hi.
    destruct (List.find _ ms) as [mv|] eqn:Hf; [|done]. exfalso. apply Hi. apply List.find_some in Hf as [Hf Heq].
    apply String.eqb_eq in Heq. rewrite <- Heq. apply list_elem_of_In. by apply (in_map (fun mv => Codec.m_Id mv.1)).
Qed.

(** ** What a peer can do *)

(** A first request without parameters, or any with null for them, panics when its body
    is read. *)
Theorem no_params_panics sm c kvs s rest method v :
  c_in c = Doc (Obj kvs) :: rest -> string_field (field "method" kvs) = Ret method ->
  (field "params" kvs = None /\ req_Params s = None \/ field "params" kvs = Some Null) ->
  exists s' c' m', server_ReadHeader fmt_other sm c s = (s', c', (m', Ret ())) /\ server_ReadBody (Some v) s' = Panic.
Proof.
  intros Hin Hm Hp. unfold server_ReadHeader, Decode. rewrite Hin. cbn [fields]. rewrite Hm.
  eexists _, _, _. split; [reflexivity|]. destruct Hp as [[-> Hs]| ->]; [|done]. unfold reset. by rewrite Hs.
Qed.

(** An answer whose identifier is a list or an object panics. *)
Theorem odd_id_panics cm c k kvs rest l :
  c_in c = Doc (Obj kvs) :: rest -> field "id" kvs = Some (Arr l) -> (client_ReadHeader fmt_other cm c k).2.2 = Panic.
Proof. intros Hin Hid. unfold client_ReadHeader, Decode. rewrite Hin. cbn [fields]. by rewrite Hid. Qed.
End facts.

(** ** Examples and witnesses *)
#[local] Instance ex_bodies : Bodies string := {|
  to_json s := inr (Str s);
  of_json j _ := match j with Str s => inr s | _ => inl "json: cannot unmarshal value" end;
  fmt_number s := s |}.

#[local] Instance ex_bodies_laws : BodiesLaws string.
Proof. refine {| same_type _ _ := True |}. intros v v' j _ [= <-]. done. Defined.

Definition ex_msg (id method err : string) : Codec.Message := Codec.mkMessage None id "" method "" err "" 0.
Definition ex_conn (ds : list document) : conn := mkConn ds [] false false.
Definition ex_fmt (j : json) : string := "[]".

Lemma jsonrpc_exchange_witness :
  let m := ex_msg "1" "Greeter.Hello" "" in
  let d := clientRequest m (Str "hi") in
  exists s' sc', server_ReadHeader ex_fmt (ex_msg "" "" "") (ex_conn [Doc d]) newServerCodec =
      (s', sc', (ex_msg "1" "Greeter.Hello" "", Ret ())) /\ server_ReadBody (Some "") s' = Ret (Some "hi").
Proof.
  cbn zeta. set (m := ex_msg "1" "Greeter.Hello" "").
  destruct (jsonrpc_exchange ex_fmt m "hi" (ex_conn []) newClientCodec
    (client_Write m (Some "hi") (ex_conn []) newClientCodec).1.1 (client_Write m (Some "hi") (ex_conn []) newClientCodec).1.2 ""
    (ex_msg "" "" "") (ex_conn [Doc (clientRequest m (Str "hi"))]) newServerCodec [])
    as (s' & sc' & Hh & _ & Hb & _); [reflexivity|exact I|done|reflexivity|].
  exists s', sc'. by split.
Defined.

Definition ex_requests : list (Codec.Message * string) := [(ex_msg "1" "A.X" "", "x"); (ex_msg "2" "B.Y" "", "y")].

Lemma answers_find_methods_witness :
  match write_requests ex_requests (ex_conn []) newClientCodec with
  | Some (k', _) =>
      (read_answers ex_fmt (ex_msg "" "" "") 2
        (ex_conn [Doc (serverResponse (ex_msg "2" "" "") (Str "b")); Doc (serverResponse (ex_msg "1" "" "no") Null)]) k').1 =
      [ex_msg "2" "B.Y" ""; ex_msg "1" "A.X" "no"]
  | None => False
  end.
Proof.
  destruct (write_requests ex_requests (ex_conn []) newClientCodec) as [[k' c']|] eqn:Hw; [|vm_compute in Hw; done].
  refine (eq_trans (proj1 (answers_find_methods ex_fmt ex_requests _ _ _
    [(ex_msg "2" "" "", Str "b"); (ex_msg "1" "" "no", Null)] _ _ [] _ Hw _ _)) _).
  - apply NoDup_cons. split; [by intros ?%list_elem_of_singleton|apply NoDup_singleton].
  - apply Permutation_swap.
  - reflexivity.
  - reflexivity.
Defined.

(** A request by a peer that leaves its parameters out. *)
Example ex_no_params :
  server_ReadBody (V := string) (Some "") (server_ReadHeader ex_fmt (ex_msg "" "" "")
    (ex_conn [Doc (Obj [("id", Num "7"); ("method", Str "A.X")])]) newServerCodec).1.1 = Panic.
Proof. reflexivity. Qed.
