(* ===== verification/DebugLog.v ===== *)
(** * The debug log: [debug/log/memory/memory.go], [stream.go], [debug/log/options.go]

    A log is a ring buffer of Ring. A stream of the log is a stream of the buffer and a
    goroutine that sends the last ten entries and then what comes into a channel of 128
    records. A write is a [Put] of the buffer: it takes the lock, appends, offers the entry
    to one stream after the other and lets go of the lock; in between the goroutines and
    the readers of the streams go on. They are a step relation. *)
From Stdlib Require Import Sorted.
From S2P Require Import Prelude Ring.

Notation entry := (Entry string).
Notation buffer := (Buffer string).

(** A record of the log: what an entry has, its metadata is empty. *)
Definition DefaultSize : Z := 1024.

(** ** Options *)
Record Options := mkOptions { o_Name : string; o_Size : Z }.

Definition DefaultOptions : Options := mkOptions "" DefaultSize.

Definition NewLog (os : list (Options -> Options)) : buffer := New (o_Size (foldl (fun o f => f o) DefaultOptions os)).

(** ** Reading: the zero time and 0 stand for options that were not given. *)
Definition Read (since count now : Z) (b : buffer) : list entry :=
  let entries := if time_IsZero since then [] else Since since now b in
  if (0 <? count)%Z then
    match entries with
    | [] => Get count b
    | _ => if (count <? Z.of_nat (length entries))%Z then take (Z.to_nat count) entries else entries
    end
  else entries.

(** ** Streams *)

(** The goroutine of a stream. [p_last] are those of the last ten it has not sent yet, nil
    before it has them; [p_hand] is the entry it has taken and not sent; [p_left] is what a
    closed channel of the buffer still holds. What the stream got since it was registered,
    the ten it began with and what its reader has had are kept for the theorems. *)
Record pump := mkPump {
  p_last : option (list entry);
  p_hand : option entry;
  p_left : list entry;
  p_records : list entry;
  p_since : list entry;
  p_first : list entry;
  p_read : list entry;
}.

Definition records_cap : nat := 128.

(** [l_putting]: the [Put] that holds the lock, its entry and the streams it has not come
    past. *)
Record log := mkLog { l_ring : buffer; l_putting : option (entry * list string); l_pumps : gmap string pump }.

Definition with_pump (id : string) (p : pump) (x : log) : log :=
  mkLog (l_ring x) (l_putting x) (<[id := p]> (l_pumps x)).

(** What the channel of a stream holds. *)
Definition queue (b : buffer) (id : string) (p : pump) : list entry :=
  match streams b !! id with Some s => Entries s | None => p_left p end.

(** What an offered entry does to a stream: it gets it, or its channel is closed. *)
Definition after_put (e : entry) (b b' : buffer) (id : string) (p : pump) : pump :=
  match streams b !! id, streams b' !! id with
  | Some s, None => mkPump (p_last p) (p_hand p) (Entries s) (p_records p) (p_since p) (p_first p) (p_read p)
  | Some _, Some _ => mkPump (p_last p) (p_hand p) (p_left p) (p_records p) (p_since p ++ [e]) (p_first p) (p_read p)
  | None, _ => p
  end.

Definition set_queue (id : string) (q : list entry) (b : buffer) : buffer :=
  mkBuffer (alter (fun s => mkStream (Id s) q (stopped s)) id (streams b)) (vals b) (size b).

Definition stop_stream (id : string) (b : buffer) : buffer :=
  mkBuffer (alter (fun s => mkStream (Id s) (Entries s) true) id (streams b)) (vals b) (size b).

Definition new_pump : pump := mkPump None None [] [] [] [] [].

(** Who takes a step: the reader of a stream, or anyone else. *)
Inductive actor := Reader (id : string) | Other.

(** The buffer with its entry appended, and after an offer. *)
Definition set_vals (vs : list entry) (b : buffer) : buffer := mkBuffer (streams b) vs (size b).
Definition set_streams (ss : gmap string (Stream (V := string))) (b : buffer) : buffer := mkBuffer ss (vals b) (size b).

(** Registering a stream and looking for the last ten entries take the lock too. *)
Inductive step : actor -> log -> log -> Prop :=
| d_put x o v now : l_putting x = None ->
    step Other x (mkLog (set_vals (push (l_ring x) (mkEntry v now)) (l_ring x))
      (Some (mkEntry v now, stream_ids o (l_ring x))) (l_pumps x))
| d_offer x choose e id rest ss : l_putting x = Some (e, id :: rest) ->
    offer choose e id (streams (l_ring x)) = Some ss ->
    step Other x (mkLog (set_streams ss (l_ring x)) (Some (e, rest))
      (alter (after_put e (l_ring x) (set_streams ss (l_ring x)) id) id (l_pumps x)))
| d_done x e : l_putting x = Some (e, []) -> step Other x (mkLog (l_ring x) None (l_pumps x))
| d_open x id : l_putting x = None -> streams (l_ring x) !! id = None -> l_pumps x !! id = None ->
    step Other x (mkLog (Stream_ id (l_ring x)) None (<[id := new_pump]> (l_pumps x)))
| d_last x id p : l_putting x = None -> l_pumps x !! id = Some p -> p_last p = None ->
    step Other x (with_pump id (mkPump (Some (Get 10 (l_ring x))) (p_hand p) (p_left p) (p_records p) (p_since p)
      (Get 10 (l_ring x)) (p_read p)) x)
| d_first x id p e es : l_pumps x !! id = Some p -> p_last p = Some (e :: es) -> length (p_records p) < records_cap ->
    step Other x (with_pump id (mkPump (Some es) (p_hand p) (p_left p) (p_records p ++ [e]) (p_since p) (p_first p) (p_read p)) x)
| d_take x id p e q : l_pumps x !! id = Some p -> p_last p = Some [] -> p_hand p = None -> queue (l_ring x) id p = e :: q ->
    step Other x (mkLog (set_queue id q (l_ring x)) (l_putting x)
      (<[id := mkPump (Some []) (Some e) (match streams (l_ring x) !! id with Some _ => p_left p | None => q end)
        (p_records p) (p_since p) (p_first p) (p_read p)]> (l_pumps x)))
| d_send x id p e : l_pumps x !! id = Some p -> p_hand p = Some e -> length (p_records p) < records_cap ->
    step Other x (with_pump id (mkPump (p_last p) None (p_left p) (p_records p ++ [e]) (p_since p) (p_first p) (p_read p)) x)
| d_read x id p e es : l_pumps x !! id = Some p -> p_records p = e :: es ->
    step (Reader id) x (with_pump id (mkPump (p_last p) (p_hand p) (p_left p) es (p_since p) (p_first p) (p_read p ++ [e])) x)
| d_stop x id : step (Reader id) x (mkLog (stop_stream id (l_ring x)) (l_putting x) (l_pumps x)).

Inductive reachable (size : Z) : log -> Prop :=
| r_new : reachable size (mkLog (New size) None ∅)
| r_step x y a : reachable size x -> step a x y -> reachable size y.

(** ** What a stream carries *)
Definition pump_ok (b : buffer) (id : string) (p : pump) : Prop :=
  match p_last p with
  | None => p_hand p = None /\ p_records p = [] /\ p_read p = [] /\ p_first p = [] /\ queue b id p = p_since p
  | Some l => (l = [] \/ p_hand p = None) /\
      p_read p ++ p_records p ++ l ++ option_list (p_hand p) ++ queue b id p = p_first p ++ p_since p
  end /\ length (p_records p) <= records_cap.

Definition log_ok (x : log) : Prop :=
  streams_ok (l_ring x) /\ forall id p, l_pumps x !! id = Some p -> pump_ok (l_ring x) id p.

Lemma queue_set b id id' q p :
  id <> id' -> queue (set_queue id q b) id' p = queue b id' p.
Proof. intros Hne. unfold queue, set_queue. cbn. by rewrite lookup_alter_ne. Qed.

Lemma queue_stop b id id' p : queue (stop_stream id b) id' p = queue b id' p.
Proof.
  unfold queue, stop_stream. cbn. destruct (decide (id = id')) as [->|Hne]; [|by rewrite lookup_alter_ne].
  rewrite lookup_alter_eq. by destruct (streams b !! id').
Qed.

Lemma streams_ok_alter (b : buffer) id f :
  (forall s, Id (f s) = Id s) -> streams_ok b -> streams_ok (mkBuffer (alter f id (streams b)) (vals b) (size b)).
Proof.
  intros Hf Hok id' s. cbn. destruct (decide (id = id')) as [->|Hne].
  - rewrite lookup_alter_eq. destruct (streams b !! id') as [s'|] eqn:Hs; [|done]. intros [= <-]. rewrite Hf. by apply Hok.
  - rewrite lookup_alter_ne by done. apply Hok.
Qed.

(** Only the pump under [id] changed. *)
Lemma log_ok_pump x id p :
  log_ok x -> pump_ok (l_ring x) id p -> log_ok (with_pump id p x).
Proof.
  intros [Hs Hp] Hok. split; [done|]. intros id' p'. cbn. destruct (decide (id = id')) as [->|Hne].
  - rewrite lookup_insert_eq. by intros [= <-].
  - rewrite lookup_insert_ne by done. apply Hp.
Qed.

Lemma pump_ok_queue b b' id p : queue b' id p = queue b id p -> pump_ok b id p -> pump_ok b' id p.
Proof. unfold pump_ok. by intros ->. Qed.

Lemma offer_ok x choose e id rest ss :
  log_ok x -> offer choose e id (streams (l_ring x)) = Some ss ->
  log_ok (mkLog (set_streams ss (l_ring x)) rest
    (alter (after_put e (l_ring x) (set_streams ss (l_ring x)) id) id (l_pumps x))).
Proof.
  intros [Hs Hp] Ho. pose proof (offer_spec choose e id (streams (l_ring x)) (Hs id)) as Hspec. rewrite Ho in Hspec.
  destruct Hspec as [Hne Hat]. split.
  - intros id' s Hs'. cbn in Hs'. destruct (decide (id' = id)) as [->|Hd]; [|rewrite Hne in Hs' by done; by apply Hs].
    destruct (streams (l_ring x) !! id) as [s0|] eqn:Hs0; [|congruence]. rewrite <- (Hs id s0 Hs0). rewrite Hs' in Hat.
    by eapply served_Id.
  - intros id' p'. cbn. destruct (decide (id' = id)) as [->|Hd].
    + rewrite lookup_alter_eq. destruct (l_pumps x !! id) as [p|] eqn:Hid; [|done]. intros [= <-].
      specialize (Hp id p Hid). unfold pump_ok, queue, after_put in *. cbn [streams set_streams].
      destruct (streams (l_ring x) !! id) as [s|]; [|by rewrite Hat].
      destruct Hat as [[-> _]|[-> _]]; [done|]. cbn. destruct Hp as [Hp Hl]. split; [|done].
      destruct (p_last p) as [l|]; [|by destruct Hp as (? & ? & ? & ? & ->)].
      destruct Hp as [Hor Heq]. split; [done|]. cbn. rewrite (app_assoc (p_first p)), <- Heq. by rewrite <- !app_assoc.
    + rewrite lookup_alter_ne by done. intros Hid. eapply pump_ok_queue; [|by apply Hp]. unfold queue. cbn.
      by rewrite Hne.
Qed.

Lemma open_ok x id : log_ok x -> log_ok (mkLog (Stream_ id (l_ring x)) None (<[id := new_pump]> (l_pumps x))).
Proof.
  intros [Hs Hp]. split.
  - intros id' s. cbn. destruct (decide (id = id')) as [->|Hne]; [rewrite lookup_insert_eq; by intros [= <-]|].
    rewrite lookup_insert_ne by done. apply Hs.
  - intros id' p. cbn. destruct (decide (id = id')) as [->|Hne].
    + rewrite lookup_insert_eq. intros [= <-]. unfold pump_ok, queue. cbn. rewrite lookup_insert_eq. split_and!; (done || lia).
    + rewrite lookup_insert_ne by done. intros Hp'. eapply pump_ok_queue; [|by apply Hp]. unfold queue. cbn. by rewrite lookup_insert_ne.
Qed.

Lemma take_ok x id p e q :
  log_ok x -> l_pumps x !! id = Some p -> p_last p = Some [] -> p_hand p = None -> queue (l_ring x) id p = e :: q ->
  log_ok (mkLog (set_queue id q (l_ring x)) (l_putting x)
    (<[id := mkPump (Some []) (Some e) (match streams (l_ring x) !! id with Some _ => p_left p | None => q end)
      (p_records p) (p_since p) (p_first p) (p_read p)]> (l_pumps x))).
Proof.
  intros [Hs Hp] Hid Hl Hh Hq. destruct (Hp id p Hid) as [Hpk Hlen]. rewrite Hl in Hpk. destruct Hpk as (_ & Heq). split.
  - apply (streams_ok_alter _ id (fun s => mkStream (Id s) q (stopped s))); done.
  - intros id' p'. cbn. destruct (decide (id = id')) as [->|Hne].
    + rewrite lookup_insert_eq. intros [= <-]. split; [|done]. cbn. split; [by left|]. rewrite Hq, Hh in Heq. cbn in Heq. rewrite <- Heq.
      do 3 f_equal. unfold queue, set_queue. cbn. rewrite lookup_alter_eq. by destruct (streams (l_ring x) !! id').
    + rewrite lookup_insert_ne by done. intros Hp'. eapply pump_ok_queue; [by apply queue_set|by apply Hp].
Qed.

Lemma log_step_ok a x y : log_ok x -> step a x y -> log_ok y.
Proof.
  intros Hx Hstep. pose proof Hx as [Hs Hp].
  destruct Hstep as [x o v now _|x choose e id rest ss _ Ho|x e _|x id _ Hn Hpn|x id p _ Hid Hl|x id p e es Hid Hl Hc
    |x id p e q Hid Hl Hh Hq|x id p e Hid Hh Hc|x id p e es Hid Hr|x id].
  - done.
  - by eapply offer_ok.
  - done.
  - by apply open_ok.
  - apply log_ok_pump; [done|]. destruct (Hp id p Hid) as [Hpk Hlen]. rewrite Hl in Hpk. destruct Hpk as (Hh & Hr & Hrd & _ & Hq).
    split; [|done]. cbn. split; [by right|]. rewrite Hh, Hr, Hrd. cbn. f_equal. exact Hq.
  - apply log_ok_pump; [done|]. destruct (Hp id p Hid) as [Hpk Hlen]. rewrite Hl in Hpk. destruct Hpk as ([|Hh] & Heq); [done|].
    split; [|cbn; rewrite length_app; cbn; lia]. cbn. split; [by right|]. rewrite Hh in *. unfold queue in *. cbn in *.
    rewrite <- Heq. by rewrite <- !app_assoc.
  - by eapply take_ok.
  - apply log_ok_pump; [done|]. destruct (Hp id p Hid) as [Hpk Hlen].
    split; [|cbn; rewrite length_app; cbn; lia]. cbn. destruct (p_last p) as [l|]; [|destruct Hpk; congruence].
    destruct Hpk as ([-> |] & Heq); [|congruence]. split; [by left|]. rewrite Hh in Heq. unfold queue in *. cbn in *. rewrite <- Heq.
    by rewrite <- !app_assoc.
  - apply log_ok_pump; [done|]. destruct (Hp id p Hid) as [Hpk Hlen]. rewrite Hr in Hlen. cbn in Hlen.
    split; [|cbn; lia]. cbn. destruct (p_last p) as [l|]; [|destruct Hpk as (_ & Hr' & _); congruence].
    destruct Hpk as (Hor & Heq). split; [done|]. rewrite Hr in Heq. unfold queue in *. cbn in *. rewrite <- Heq. by rewrite <- !app_assoc.
  - split; [by apply (streams_ok_alter _ id (fun s => mkStream (Id s) (Entries s) true))|].
    intros id' p' Hp'. eapply pump_ok_queue; [apply queue_stop|by apply Hp].
Qed.

(** The steps of a [Put] with nothing in between are [Put]. *)
Lemma Put_steps x o choose v now :
  l_putting x = None ->
  let '(b, rest) := Put o choose v now (l_ring x) in
  exists pumps, rtc (step Other) x (mkLog b (Some (mkEntry v now, rest)) pumps).
Proof.
  intros Hn. unfold Put. set (e := mkEntry v now).
  assert (forall ids b pumps, exists pumps',
    let '(ss, rest) := serve choose e ids (streams b) in
    rtc (step Other) (mkLog b (Some (e, ids)) pumps) (mkLog (set_streams ss b) (Some (e, rest)) pumps')) as Hserve.
  { induction ids as [|id ids IH]; intros b pumps; cbn [serve].
    - exists pumps. destruct b; apply rtc_refl.
    - destruct (offer choose e id (streams b)) as [ss|] eqn:Ho.
      + destruct (IH (set_streams ss b) (alter (after_put e b (set_streams ss b) id) id pumps)) as [pumps' Hr].
        exists pumps'. cbn [streams set_streams] in Hr. destruct (serve choose e ids ss) as [ss' rest].
        eapply rtc_l; [|exact Hr]. by apply (d_offer (mkLog b (Some (e, id :: ids)) pumps) choose e id ids ss).
      + exists pumps. destruct b; apply rtc_refl. }
  destruct (Hserve (stream_ids o (l_ring x)) (set_vals (push (l_ring x) e) (l_ring x)) (l_pumps x)) as [pumps Hr].
  cbn [streams set_vals] in Hr. destruct (serve _ _ _ _) as [ss rest]. exists pumps.
  eapply rtc_l; [by apply (d_put x o v now)|exact Hr].
Qed.

(** What the reader of a stream gets is the last ten entries there were when the
    goroutine looked, and then every entry that was put since the stream was registered,
    in order, none lost: those two overlap in what was put in between, which it gets
    twice. *)
Theorem stream_carries size x id p :
  reachable size x -> l_pumps x !! id = Some p ->
  p_read p `prefix_of` p_first p ++ p_since p /\
  (queue (l_ring x) id p = [] -> p_hand p = None -> p_last p = Some [] -> p_read p ++ p_records p = p_first p ++ p_since p).
Proof.
  intros Hx Hid. assert (log_ok x) as [_ Hp].
  { clear Hid. induction Hx as [|x y a _ IH Hs]; [|by eapply log_step_ok]. split; [by intros i s|by intros i q]. }
  clear Hx. destruct (Hp id p Hid) as [Hpk _]. destruct (p_last p) as [l|].
  - destruct Hpk as [_ Heq]. split; [rewrite <- Heq; by eexists|]. intros Hq Hh [= ->]. rewrite Hq, Hh in Heq. cbn in Heq.
    by rewrite app_nil_r in Heq.
  - destruct Hpk as (_ & _ & -> & _). split; [apply prefix_nil|done].
Qed.

(** ** A reader that does not read *)

(** The record channel is full, the goroutine has an entry it cannot send, the channel of
    the buffer is full, and nobody has stopped the stream. *)
Definition stuck (id : string) (x : log) : Prop :=
  exists p s, l_pumps x !! id = Some p /\ streams (l_ring x) !! id = Some s /\
    length (p_records p) = records_cap /\ p_last p = Some [] /\ is_Some (p_hand p) /\
    stream_cap <= length (Entries s) /\ stopped s = false.

(** A [Put] holds the lock and has not come past the stream. *)
Definition writing (id : string) (e : entry) (x : log) : Prop :=
  exists rest, l_putting x = Some (e, rest) /\ id ∈ rest.

(** Steps of anyone but the reader of [id]. *)
Inductive without (id : string) (x : log) : log -> Prop :=
| w_refl : without id x x
| w_step y z a : without id x y -> step a y z -> a <> Reader id -> without id x z.

(** A step of the pump of another stream leaves a stuck stream stuck. *)
Lemma stuck_other id id' p x b w :
  stuck id x -> id' <> id -> streams b !! id = streams (l_ring x) !! id -> stuck id (mkLog b w (<[id' := p]> (l_pumps x))).
Proof.
  intros (p0 & s & Hp & Hs & Hrest) Hne Hb. exists p0, s. cbn. rewrite lookup_insert_ne by done. by rewrite Hb.
Qed.

Lemma stuck_step id a x y :
  log_ok x -> stuck id x -> step a x y -> a <> Reader id ->
  stuck id y /\
  (forall e, writing id e x -> writing id e y) /\
  (vals (l_ring y) = vals (l_ring x) \/
   l_putting x = None /\ exists e, vals (l_ring y) = push (l_ring x) e /\ writing id e y).
Proof.
  intros Hok Hst Hstep Ha. pose proof Hst as (p & s & Hp & Hs & Hr & Hl & Hh & Hf & Hn).
  assert (forall e, writing id e x -> is_Some (l_putting x)) as Hw by (intros e (rest & -> & _); done).
  destruct Hstep as [x o v now Hnone|x choose e id' rest ss Hput Ho|x e Hput|x id' Hnone Hn' Hpn|x id' p' Hnone Hid Hl'
    |x id' p' e es Hid Hl' Hc|x id' p' e q Hid Hl' Hh' Hq|x id' p' e Hid Hh' Hc|x id' p' e es Hid Hr'|x id'].
  - split; [by exists p, s|]. split; [intros e [? ?]%Hw; congruence|]. right. split; [done|]. exists (mkEntry v now).
    split; [done|]. eexists. split; [done|]. apply elem_of_stream_ids. by exists s.
  - assert (id' <> id) as Hne.
    { intros ->. unfold offer in Ho. rewrite Hs, Hn in Ho. cbn [andb] in Ho.
      by rewrite (proj2 (Nat.ltb_ge _ _) Hf) in Ho. }
    pose proof (offer_spec choose e id' (streams (l_ring x)) (proj1 Hok id')) as Hspec. rewrite Ho in Hspec.
    split; [|split; [|by left]].
    + exists p, s. cbn. rewrite lookup_alter_ne by done. by rewrite (proj1 Hspec).
    + intros e' (rest' & Hput' & Hin). rewrite Hput in Hput'. injection Hput' as <- <-. exists rest. split; [done|]. set_solver.
  - split; [by exists p, s|]. split; [|by left]. intros e' (rest & Hput' & Hin). rewrite Hput in Hput'.
    injection Hput' as <- <-. by apply not_elem_of_nil in Hin.
  - split; [|split; [intros e [? ?]%Hw; congruence|by left]]. assert (id' <> id) as Hne by congruence.
    apply stuck_other; [done|done|]. cbn. by rewrite lookup_insert_ne.
  - split; [|split; [done|by left]]. apply stuck_other; [done|congruence|done].
  - split; [|split; [done|by left]]. apply stuck_other; [done|congruence|done].
  - assert (id' <> id) as Hne by (intros ->; rewrite Hp in Hid; injection Hid as <-; rewrite Hh' in Hh; by destruct Hh).
    split; [|split; [done|by left]]. apply stuck_other; [done|done|]. cbn. by rewrite lookup_alter_ne.
  - split; [|split; [done|by left]]. apply stuck_other; [done| |done].
    intros ->. rewrite Hp in Hid. injection Hid as <-. lia.
  - split; [|split; [done|by left]]. apply stuck_other; [done|congruence|done].
  - assert (id' <> id) as Hne by congruence. split; [|split; [done|by left]]. exists p, s. cbn. by rewrite lookup_alter_ne.
Qed.

(** C20: a stream that is neither read nor stopped stops the log. Once its channels are
    full, and until its reader does something, it stays so; a write does not come past it:
    at most one more write begins, which appends its entry, serves the streams before this
    one and waits with the lock, for ever. From then on no entry is written, and no stream
    registered or read from the log, for that takes the lock. *)
Theorem slow_reader_blocks id x y :
  log_ok x -> stuck id x -> without id x y ->
  stuck id y /\
  (forall o choose v now, id ∈ (Put o choose v now (l_ring y)).2) /\
  (vals (l_ring y) = vals (l_ring x) \/ exists e, vals (l_ring y) = push (l_ring x) e /\ writing id e y) /\
  (forall e, writing id e x -> writing id e y /\ vals (l_ring y) = vals (l_ring x)).
Proof.
  intros Hok Hst Hw.
  assert (log_ok y /\ stuck id y /\
    (vals (l_ring y) = vals (l_ring x) \/ exists e, vals (l_ring y) = push (l_ring x) e /\ writing id e y) /\
    (size (l_ring y) = size (l_ring x)) /\
    (forall e, writing id e x -> writing id e y /\ vals (l_ring y) = vals (l_ring x))) as (Hoky & Hsty & Hv & _ & Hk).
  2:{ split_and!; [done| |done|done]. intros o choose v now. destruct Hsty as (p & s & _ & Hs & _ & _ & _ & Hf & Hn).
      by apply (Put_waits _ _ _ _ _ _ s); [apply Hoky|..]. }
  induction Hw as [|y z a _ (Hoky & Hsty & Hv & Hz & Hk) Hstep Ha]; [split_and!; auto|].
  destruct (stuck_step id a y z Hoky Hsty Hstep Ha) as (Hstz & Hkeep & Hvz).
  assert (size (l_ring z) = size (l_ring x)) as Hsize by (rewrite <- Hz; by destruct Hstep).
  split_and!; [by eapply log_step_ok|done| |done|].
  - destruct Hvz as [Hvz|(Hnone & e & Hvz & Hwr)].
    + rewrite Hvz. destruct Hv as [?|(e & ? & ?)]; [by left|]. right. exists e. split; [done|by apply Hkeep].
    + destruct Hv as [Hv|(e' & _ & rest & Hput & _)]; [|congruence]. right. exists e. split; [|done].
      rewrite Hvz. unfold push. by rewrite Hv, Hz.
  - intros e He. destruct (Hk e He) as [Hwy Hvy]. split; [by apply Hkeep|].
    destruct Hvz as [->|(Hnone & _)]; [done|]. destruct Hwy as (rest & Hput & _). congruence.
Qed.

(** ** What is read *)

(** Reading since a time with a count: the first of the entries since then; but when there
    are none, the last of those before. *)
Theorem Read_spec since count now b :
  StronglySorted (fun e1 e2 => (Timestamp e1 <= Timestamp e2)%Z) (vals b) -> since <> 0%Z -> (0 < count)%Z ->
  let later := if (now <? since)%Z then [] else filter (fun e => (since < Timestamp e)%Z) (vals b) in
  Read since count now b = match later with [] => Get count b | _ => take (Z.to_nat count) later end.
Proof.
  intros Hs Hz Hc. cbn zeta. unfold Read. rewrite (Since_spec since now b Hs).
  assert ((since =? 0)%Z = false) as Hz' by by apply Z.eqb_neq. unfold time_IsZero. rewrite Hz', (proj2 (Z.ltb_lt _ _) Hc).
  destruct (if (now <? since)%Z then _ else _) as [|e l]; [done|].
  destruct (Z.ltb_spec count (Z.of_nat (length (e :: l)))); [done|]. symmetry. apply take_ge. cbn in *. lia.
Qed.

(** ** Examples and witnesses *)
Definition ex_entry (n : nat) : entry := mkEntry "x" (Z.of_nat n).
Definition ex_pump : pump := mkPump (Some []) (Some (ex_entry 0)) [] (replicate 128 (ex_entry 0)) (replicate 257 (ex_entry 0)) [] [].
Definition ex_full : log :=
  mkLog (mkBuffer {["s" := mkStream "s" (replicate 128 (ex_entry 0)) false]} [] 10) None {["s" := ex_pump]}.

Lemma slow_reader_blocks_witness :
  stuck "s" ex_full /\ "s" ∈ (Put order_id (fun _ => true) "y" 1 (l_ring ex_full)).2.
Proof.
  assert (log_ok ex_full) as Hok.
  { split; [intros id s; cbn; intros [<- <-]%lookup_singleton_Some; done|].
    intros id p. cbn. intros [<- <-]%lookup_singleton_Some. split; [split; [by left|vm_compute; reflexivity]|by apply Nat.leb_le]. }
  assert (stuck "s" ex_full) as Hst.
  { exists ex_pump, (mkStream "s" (replicate 128 (ex_entry 0)) false). split_and!; done || by eexists. }
  split; [exact Hst|]. destruct (slow_reader_blocks "s" ex_full ex_full Hok Hst (w_refl _ _)) as (_ & Hno & _). apply Hno.
Defined.

(** A stream that is opened, gets one entry before it looks and one after. *)
Definition ex_pre : log := mkLog (Stream_ "s" (New 10)) None {["s" := new_pump]}.
Definition ex_put : log :=
  mkLog (set_vals [mkEntry "a" 1%Z] (Stream_ "s" (New 10))) (Some (mkEntry "a" 1%Z, ["s"])) {["s" := new_pump]}.
Definition ex_offered : log :=
  let ss := {["s" := mkStream "s" [mkEntry "a" 1%Z] false]} in
  mkLog (set_streams ss (l_ring ex_put)) (Some (mkEntry "a" 1%Z, []))
    (alter (after_put (mkEntry "a" 1%Z) (l_ring ex_put) (set_streams ss (l_ring ex_put)) "s") "s" (l_pumps ex_put)).
Definition ex_opened : log := mkLog (l_ring ex_offered) None (l_pumps ex_offered).
Definition ex_twice : log := with_pump "s" (mkPump (Some [mkEntry "a" 1]) None [] [] [mkEntry "a" 1] [mkEntry "a" 1] []) ex_opened.

Lemma ex_twice_reachable : reachable 10 ex_twice.
Proof.
  eapply r_step; [|exact (d_last ex_opened "s" (mkPump None None [] [] [mkEntry "a" 1] [] []) eq_refl eq_refl eq_refl)].
  eapply r_step; [|exact (d_done ex_offered (mkEntry "a" 1%Z) eq_refl)].
  eapply r_step; [|exact (d_offer ex_put (fun _ => true) (mkEntry "a" 1%Z) "s" [] {["s" := mkStream "s" [mkEntry "a" 1%Z] false]}
    eq_refl eq_refl)].
  eapply r_step; [|exact (d_put ex_pre order_id "a" 1 eq_refl)].
  eapply r_step; [|exact (d_open (mkLog (New 10) None ∅) "s" eq_refl eq_refl eq_refl)]. apply r_new.
Qed.

Lemma stream_carries_witness :
  exists p, l_pumps ex_twice !! "s" = Some p /\ p_first p ++ p_since p = [mkEntry "a" 1; mkEntry "a" 1] /\
    p_read p `prefix_of` [mkEntry "a" 1; mkEntry "a" 1].
Proof.
  eexists. split; [vm_compute; reflexivity|]. split; [reflexivity|].
  exact (proj1 (stream_carries 10 ex_twice "s" _ ex_twice_reachable ltac:(vm_compute; reflexivity))).
Defined.
