(* ===== verification/Tracing.v ===== *)
(** * Tracing, stats, the debug handler and the wrappers: [debug/trace/], [debug/stats/],
      [debug/handler/debug.go], [util/wrapper/wrapper.go]

    Spans are kept in a ring buffer that nobody streams; a span that is finished does not
    change any more. A wrapper is a function from the call or handler it wraps, which acts
    on the world [W] and gives an error or none. Identifiers that are drawn, clocks and
    orders of maps are arguments. *)
From Stdlib Require Import Sorted.
From S2P Require Import Prelude GoStrings Ring Metadata.
From S2P Require DebugLog.

Definition TraceIDKey : string := "Micro-Trace-ID".
Definition SpanID : string := "Micro-Span-ID".
Definition HID : string := "Micro-ID".
Definition Namespace : string := "Micro-Namespace".
Definition FromServiceKey : string := "Micro-From-Service".
Definition BearerScheme : string := "Bearer ".

(** ** Traces: [trace.go], [default.go] *)
Inductive SpanType := Inbound | Outbound.

Record Span := mkSpan {
  s_Started : Z;
  s_Metadata : gmap string string;
  s_Trace : string;
  s_Name : string;
  s_Id : string;
  s_Parent : string;
  s_Duration : Z;
  s_Type : SpanType;
}.

(** The identifiers of the trace and the span in a context, and whether the second is there. *)
Definition trace_FromContext (o : map_order) (ctx : context) : string * string * bool :=
  let trace := Get_ o ctx TraceIDKey in
  let micro := Get_ o ctx HID in
  match trace, micro with
  | None, None => ("", "", false)
  | _, _ =>
      let traceID := match trace with Some t => t | None => default "" micro end in
      match Get_ o ctx SpanID with Some p => (traceID, p, true) | None => (traceID, "", false) end
  end.

Definition ToContext (o o' : map_order) (ctx : option context) (traceID parentSpanID : string) : context :=
  MergeContext o o' ctx (Some {[TraceIDKey := traceID; SpanID := parentSpanID]}) true.

(** [newTrace] and [newSpan] are the identifiers drawn. *)
Definition trace_Start (o o' o'' : map_order) (newTrace newSpan : string) (now : Z) (ctx : option context) (name : string) :
    context * Span :=
  let span := mkSpan now ∅ newTrace name newSpan "" 0 Inbound in
  match ctx with
  | None => (ToContext o' o'' None newTrace newSpan, span)
  | Some c =>
      match trace_FromContext o c with
      | (traceID, parent, true) => (ToContext o' o'' ctx traceID newSpan, mkSpan now ∅ traceID name newSpan parent 0 Inbound)
      | _ => (ToContext o' o'' ctx newTrace newSpan, span)
      end
  end.

Definition set_error (err : option string) (s : Span) : Span :=
  match err with
  | None => s
  | Some e => mkSpan (s_Started s) (<["error" := e]> (s_Metadata s)) (s_Trace s) (s_Name s) (s_Id s) (s_Parent s) (s_Duration s) (s_Type s)
  end.

Definition set_type (t : SpanType) (s : Span) : Span :=
  mkSpan (s_Started s) (s_Metadata s) (s_Trace s) (s_Name s) (s_Id s) (s_Parent s) (s_Duration s) t.

Notation tracer := (Buffer Span).

Definition NewTracer : tracer := New 256.

(** A buffer without streams takes every entry. *)
Definition Finish (s : Span) (now : Z) (t : tracer) : tracer :=
  let s := mkSpan (s_Started s) (s_Metadata s) (s_Trace s) (s_Name s) (s_Id s) (s_Parent s) (time_Since now (s_Started s)) (s_Type s) in
  (Put order_id (fun _ => false) s now t).1.

Definition trace_Read (id : string) (t : tracer) : list Span :=
  filter (fun s => id = "" \/ s_Trace s = id) (map Value (Get (Size t) t)).

(** ** Stats: [stats/default.go] *)
Record Stat := mkStat {
  st_Timestamp : Z;
  st_Started : Z;
  st_Uptime : Z;
  st_Memory : Z;
  st_Threads : Z;
  st_GC : Z;
  st_Requests : Z;
  st_Errors : Z;
}.

Record stats := mkStats { started : Z; requests : Z; errors : Z; stat_buffer : Buffer Stat }.

Definition NewStats (now : Z) : stats := mkStats now 0 0 (New 60).

(** The counters are unsigned words of 64 bits. *)
Definition inc (z : Z) : Z := ((z + 1) mod 2 ^ 64)%Z.

Definition stats_Record (err : option string) (s : stats) : stats :=
  mkStats (started s) (inc (requests s)) (match err with Some _ => inc (errors s) | None => errors s end) (stat_buffer s).

(** What the runtime says of itself. *)
Record runtime_stats := mkRuntime { rt_now : Z; rt_Alloc : Z; rt_PauseTotalNs : Z; rt_NumGoroutine : Z }.

Definition snapshot (rt : runtime_stats) (s : stats) : Stat :=
  mkStat (rt_now rt) (started s) (rt_now rt - started s) (rt_Alloc rt) (rt_NumGoroutine rt) (rt_PauseTotalNs rt) (requests s) (errors s).

Definition stats_Read (rt : runtime_stats) (s : stats) : list Stat := map Value (Get 60 (stat_buffer s)) ++ [snapshot rt s].

Definition stats_Write (st : Stat) (now : Z) (s : stats) : stats :=
  mkStats (started s) (requests s) (errors s) (Put order_id (fun _ => false) st now (stat_buffer s)).1.

(** ** The debug handler *)

(** The stats it answers with are the first that are read. *)
Definition Debug_Stats (rt : runtime_stats) (s : stats) : option Stat := head (stats_Read rt s).

Definition Debug_Trace (id : string) (t : tracer) : list Span := trace_Read id t.

(** [time.Unix] of whole seconds; the zero time is that of the year 1. *)
Definition time_Unix (sec : Z) : Z := ((sec + 62135596800) * 1000000000)%Z.

(** The records that are sent when no stream is asked for. *)
Definition Debug_Log (since count now : Z) (b : Buffer string) : list (Entry string) :=
  DebugLog.Read (if time_IsZero (time_Unix since) then 0 else time_Unix since) (if (0 <? count)%Z then count else 0) now b.

(** ** Wrappers *)
Section wrappers.
Context {W : Type}.

Definition inner : Type := context -> W -> W * option string.

(** The key of the caller's name is kept when it is there. *)
Definition FromService (o o' : map_order) (name : string) (call : inner) : inner :=
  fun ctx w => call (MergeContext o o' (Some ctx) (Some {[FromServiceKey := name]}) false) w.

Definition HandlerStats (record : option string -> W -> W) (h : inner) : inner :=
  fun ctx w => let '(w, err) := h ctx w in (record err w, err).

Context (spans : W -> tracer) (set_spans : tracer -> W -> W).

(** The ids and clocks of one traced call. *)
Record draw := mkDraw { d_trace : string; d_span : string; d_started : Z; d_finished : Z }.

Definition traced (t : SpanType) (d : draw) (o o' o'' : map_order) (name : string) (call : inner) : inner :=
  fun ctx w =>
    let '(ctx, s) := trace_Start o o' o'' (d_trace d) (d_span d) (d_started d) (Some ctx) name in
    let '(w, err) := call ctx w in
    (set_spans (Finish (set_error err (set_type t s)) (d_finished d) (spans w)) w, err).

Definition TraceCall (d : draw) (o o' o'' : map_order) (service endpoint : string) (call : inner) : inner :=
  traced Outbound d o o' o'' (service +:+ "." +:+ endpoint) call.

Definition TraceHandler (d : draw) (o o' o'' : map_order) (service endpoint : string) (h : inner) : inner :=
  if has_prefix endpoint "Debug." then h else traced Inbound d o o' o'' (service +:+ "." +:+ endpoint) h.

(** ** Authorisation of calls *)
Record Token := mkToken { t_Expiry : Z; t_AccessToken : string }.

Definition Unix (t : Z) : Z := (t / 1000000000 - 62135596800)%Z.
Definition Expired (t : Token) (now : Z) : bool := (Unix (t_Expiry t) <? Unix now)%Z.

Record AuthOptions := mkAuthOptions { a_Namespace : string; a_Token : option Token }.

(** The context a call is made with; [auth] is nil or has its options. *)
Definition auth_context (o : map_order) (auth : option AuthOptions) (serviceToken : bool) (now : Z) (ctx : context) : context :=
  if bool_decide (is_Some (Get_ o ctx "Authorization")) && negb serviceToken then ctx
  else
    match auth with
    | None => ctx
    | Some a =>
        let ctx := match Get_ o ctx Namespace with Some _ => ctx | None => Set_ o ctx Namespace (a_Namespace a) end in
        match a_Token a with
        | Some t => if Expired t now then ctx else Set_ o ctx "Authorization" (BearerScheme +:+ t_AccessToken t)
        | None => ctx
        end
    end.

Definition AuthCall (o : map_order) (auth : option AuthOptions) (serviceToken : bool) (now : Z) (call : inner) : inner :=
  fun ctx w => call (auth_context o auth serviceToken now ctx) w.
End wrappers.

(** ** A trace goes on across calls *)

(** The metadata of a context has every key in title form. *)
Definition titled (ctx : context) : Prop := forall k, is_Some (md_entries (default None (ctx_md ctx)) !! k) -> Title k = k.

Lemma Get_titled o ctx k :
  titled ctx -> Get_ o ctx k = md_entries (default None (ctx_md ctx)) !! Title k.
Proof.
  intros Ht. rewrite Get_title. unfold FromContext. destruct (ctx_md ctx) as [md|] eqn:Hmd; [|done].
  cbn. unfold titled in Ht. rewrite Hmd in Ht. cbn in Ht. change (foldl (put Title) ∅ (map_range o (md_entries md)) !! Title k = md_entries md !! Title k).
  by rewrite titled_range.
Qed.

Lemma merged_over old v : v <> "" -> merged true old (Some v) = Some v.
Proof. intros Hv. unfold merged. rewrite (proj2 (String.eqb_neq v "") Hv). by destruct old. Qed.

Lemma ToContext_entries o o' ctx traceID span k :
  traceID <> "" -> span <> "" ->
  md_entries (default None (ctx_md (ToContext o o' ctx traceID span))) !! k =
    (if decide (k = TraceIDKey) then Some traceID
     else if decide (k = SpanID) then Some span
     else md_entries (default None (ctx_md (default (mkContext None ∅) ctx))) !! k).
Proof.
  intros Ht Hs. destruct (MergeContext_spec o o' ctx (Some {[TraceIDKey := traceID; SpanID := span]}) true k) as [Hk _].
  unfold ToContext. rewrite Hk.
  change (md_entries (Some {[TraceIDKey := traceID; SpanID := span]})) with (<[TraceIDKey := traceID]> (<[SpanID := span]> (∅ : gmap string string))).
  destruct (decide (k = TraceIDKey)) as [->|H1]; [rewrite lookup_insert_eq; by apply merged_over|].
  rewrite lookup_insert_ne by done.
  destruct (decide (k = SpanID)) as [->|H2]; [rewrite lookup_insert_eq; by apply merged_over|].
  rewrite lookup_insert_ne, lookup_empty by done.
  by destruct (md_entries (default None (ctx_md (default (mkContext None ∅) ctx))) !! k).
Qed.

Lemma ToContext_titled o o' ctx traceID span :
  traceID <> "" -> span <> "" -> titled (default (mkContext None ∅) ctx) -> titled (ToContext o o' ctx traceID span).
Proof.
  intros Ht Hs Hti k. rewrite ToContext_entries by done. destruct (decide (k = TraceIDKey)) as [->|]; [done|].
  destruct (decide (k = SpanID)) as [->|]; [done|]. apply Hti.
Qed.

Lemma Start_context o o' o'' newTrace newSpan now ctx name c s :
  newTrace <> "" -> newSpan <> "" -> trace_Start o o' o'' newTrace newSpan now (Some ctx) name = (c, s) -> s_Trace s <> "" ->
  titled ctx -> titled c /\ trace_FromContext o c = (s_Trace s, s_Id s, true).
Proof.
  intros Hnt Hns Hst Htr Ht. assert (exists t, c = ToContext o' o'' (Some ctx) t newSpan /\ s_Trace s = t /\ s_Id s = newSpan) as (t & -> & <- & ->).
  { unfold trace_Start in Hst. destruct (trace_FromContext o ctx) as [[traceID parent] []]; simplify_eq; by eexists. }
  pose proof (ToContext_titled o' o'' (Some ctx) (s_Trace s) newSpan Htr Hns Ht) as Htc. split; [done|].
  unfold trace_FromContext. rewrite !(Get_titled o _ _ Htc), !ToContext_entries by done. done.
Qed.

(** A trace goes on from a call to the calls below it. When the context that a span was
    started with is used to start another, however often and in whatever order maps are
    visited, the second has the trace of the first and the first as its parent. *)
Theorem trace_links o o' o'' p p' p'' newTrace newSpan newTrace' newSpan' now now' ctx name name' c s c' s' :
  newTrace <> "" -> newSpan <> "" -> newTrace' <> "" -> newSpan' <> "" -> titled ctx ->
  trace_Start o o' o'' newTrace newSpan now (Some ctx) name = (c, s) -> s_Trace s <> "" ->
  trace_Start p p' p'' newTrace' newSpan' now' (Some c) name' = (c', s') ->
  s_Trace s' = s_Trace s /\ s_Parent s' = s_Id s /\ titled c' /\ trace_FromContext p' c' = (s_Trace s, s_Id s', true).
Proof.
  intros Hnt Hns Hnt' Hns' Ht Hst Htr Hst'. destruct (Start_context o o' o'' _ _ _ _ _ _ _ Hnt Hns Hst Htr Ht) as [Htc Hfrom].
  assert (trace_FromContext p c = (s_Trace s, s_Id s, true)) as Hp.
  { rewrite <- Hfrom. unfold trace_FromContext. by rewrite !(Get_titled _ c _ Htc). }
  unfold trace_Start in Hst'. rewrite Hp in Hst'. simplify_eq. cbn. split; [done|]. split; [done|].
  pose proof (ToContext_titled p' p'' (Some c) (s_Trace s) newSpan' Htr Hns' Htc) as Htc'. split; [done|].
  unfold trace_FromContext. by rewrite !(Get_titled p' _ _ Htc'), !ToContext_entries by done.
Qed.

(** ** What is kept *)
Lemma Put_quiet {V} o choose (v : V) now b :
  streams b = ∅ -> Put o choose v now b = (mkBuffer ∅ (push b (mkEntry v now)) (size b), []).
Proof.
  intros Hs. unfold Put, stream_ids. rewrite Hs. assert (map_range o (∅ : gmap string (Ring.Stream (V := V))) = []) as ->; [|done].
  apply Permutation_nil_r. rewrite map_range_perm. by rewrite map_to_list_empty.
Qed.

(** Spans that are finished one after the other, with the instants they are. *)
Definition finish_all (l : list (Span * Z)) : tracer := foldl (fun t sn => Finish sn.1 sn.2 t) NewTracer l.

Definition finished (sn : Span * Z) : Span :=
  let s := sn.1 in
  mkSpan (s_Started s) (s_Metadata s) (s_Trace s) (s_Name s) (s_Id s) (s_Parent s) (time_Since sn.2 (s_Started s)) (s_Type s).

Lemma finish_all_history l :
  history 256 (map (fun sn => mkEntry (finished sn) sn.2) l) (finish_all l) /\ streams (finish_all l) = ∅.
Proof.
  induction l as [|sn l [Hh Hs]] using rev_ind; [split; [apply h_new|done]|]. unfold finish_all in *. rewrite foldl_snoc, map_app.
  set (t := foldl _ _ l) in *. unfold Finish. fold (finished sn).
  split; [by apply (h_put 256 order_id (fun _ => false))|].
  by rewrite (Put_quiet order_id (fun _ => false) (finished sn) sn.2 t Hs).
Qed.

(** Reading a trace gives its spans among the last 256 that were finished, in the order
    in which they were. *)
Theorem trace_Read_spec l id :
  trace_Read id (finish_all l) = filter (fun s => id = "" \/ s_Trace s = id) (lastn 256 (map finished l)).
Proof.
  unfold trace_Read. f_equal. destruct (finish_all_history l) as [Hh _].
  destruct (history_vals _ _ _ Hh) as [_ Hsize]. destruct (Get_last 256 _ _ 256 Hh) as [_ Hg].
  unfold Size. rewrite Hsize, Hg. change (if (256 <? 0)%Z then _ else _) with 256. unfold lastn.
  rewrite !length_map. rewrite <- (map_map (fun sn => mkEntry (finished sn) sn.2) Value). rewrite <- !(fmap_drop Value). done.
Qed.

(** ** The debug handler's log *)

(** A request without a time still asks for what is later than 1970, which is everything:
    so with a count the handler sends the oldest entries of the log and not the last. *)
Theorem Debug_Log_oldest count now b :
  StronglySorted (fun e1 e2 => (Timestamp e1 <= Timestamp e2)%Z) (vals b) -> vals b <> [] -> (0 < count)%Z ->
  (time_Unix 0 <= now)%Z -> Forall (fun e => (time_Unix 0 < Timestamp e)%Z) (vals b) ->
  Debug_Log 0 count now b = take (Z.to_nat count) (vals b).
Proof.
  intros Hs Hne Hc Hnow Hall. unfold Debug_Log. change (time_IsZero (time_Unix 0)) with false. cbn [negb].
  rewrite (proj2 (Z.ltb_lt 0 count) Hc).
  pose proof (DebugLog.Read_spec (time_Unix 0) count now b Hs ltac:(done) Hc) as Hr. cbn zeta in Hr.
  assert ((now <? time_Unix 0)%Z = false) as Hn by by apply Z.ltb_ge. rewrite Hn in Hr.
  assert (filter (fun e => (time_Unix 0 < Timestamp e)%Z) (vals b) = vals b) as Hf.
  { clear -Hall. induction Hall as [|e l He _ IH]; [done|]. by rewrite filter_cons_True, IH. }
  rewrite Hf in Hr. rewrite Hr. by destruct (vals b).
Qed.

(** ** Authorisation *)

(** The credentials a call carries: those it had, unless the token of the service is
    asked for; else the token of the service, when there is one that has not expired; else
    what there was. *)
Theorem auth_context_spec o o' auth serviceToken now ctx :
  titled ctx ->
  Get_ o' (auth_context o auth serviceToken now ctx) "Authorization" =
    (if bool_decide (is_Some (Get_ o ctx "Authorization")) && negb serviceToken then Get_ o ctx "Authorization"
     else match auth ≫= a_Token with
       | Some t => if Expired t now then Get_ o ctx "Authorization" else Some (BearerScheme +:+ t_AccessToken t)
       | None => Get_ o ctx "Authorization"
       end).
Proof.
  intros Ht. assert (forall p q, Get_ p ctx q = Get_ o ctx q) as Hany by (intros p q; by rewrite !(Get_titled _ ctx _ Ht)).
  unfold auth_context. destruct (bool_decide _ && _); [apply Hany|]. destruct auth as [a|]; [|apply Hany]. cbn [mbind option_bind].
  set (c := match Get_ o ctx Namespace with Some _ => ctx | None => _ end).
  assert (forall p, Get_ p c "Authorization" = Get_ o ctx "Authorization") as Hc.
  { intros p. unfold c. destruct (Get_ o ctx Namespace); [apply Hany|]. by rewrite (Set_Get_titled o p ctx Namespace (a_Namespace a) "Authorization"). }
  destruct (a_Token a) as [t|]; [|apply Hc]. destruct (Expired t now); [apply Hc|].
  by rewrite (Set_Get_titled o o' c "Authorization" (BearerScheme +:+ t_AccessToken t) "Authorization").
Qed.

(** The name of the first caller stays: a service that calls on with the context it was
    called with is not named. *)
Theorem FromService_keeps {W} o o' name (call : inner (W := W)) ctx w v :
  md_entries (default None (ctx_md ctx)) !! FromServiceKey = Some v ->
  exists c, FromService o o' name call ctx w = call c w /\ md_entries (default None (ctx_md c)) !! FromServiceKey = Some v.
Proof.
  intros Hv. eexists. split; [reflexivity|]. destruct (MergeContext_spec o o' (Some ctx) (Some {[FromServiceKey := name]}) false FromServiceKey) as [Hk _].
  rewrite Hk. change (md_entries (Some {[FromServiceKey := name]})) with ({[FromServiceKey := name]} : gmap string string).
  change (default (mkContext None ∅) (Some ctx)) with ctx. by rewrite Hv, lookup_singleton_eq.
Qed.

(** ** Examples and witnesses *)
Definition ex_ctx : context := mkContext (Some (Some {["Foo" := "1"]})) ∅.

Lemma ex_titled : titled ex_ctx.
Proof. intros k [v Hk]. cbn in Hk. apply lookup_singleton_Some in Hk as [<- _]. reflexivity. Qed.

Definition ex_first := trace_Start order_id order_id order_id "t1" "s1" 5 (Some ex_ctx) "a.B".
Definition ex_second := trace_Start order_rev order_id order_rev "t2" "s2" 6 (Some ex_first.1) "c.D".

Lemma trace_links_witness : s_Trace ex_second.2 = "t1" /\ s_Parent ex_second.2 = "s1".
Proof.
  assert (s_Trace ex_first.2 = "t1") as Htr by (vm_compute; reflexivity).
  assert (s_Id ex_first.2 = "s1") as Hid by (vm_compute; reflexivity).
  assert (s_Trace ex_first.2 <> "") as Hne by by rewrite Htr.
  destruct (trace_links order_id order_id order_id order_rev order_id order_rev "t1" "s1" "t2" "s2" 5 6 ex_ctx "a.B" "c.D"
    ex_first.1 ex_first.2 ex_second.1 ex_second.2 ltac:(discriminate) ltac:(discriminate) ltac:(discriminate) ltac:(discriminate)
    ex_titled (surjective_pairing _) Hne (surjective_pairing _)) as (Ht & Hp & _).
  rewrite Ht, Hp, Htr, Hid. by split.
Defined.

Lemma auth_context_spec_witness :
  Get_ order_rev (auth_context order_id (Some (mkAuthOptions "ns" (Some (mkToken (time_Unix 100) "abc")))) false (time_Unix 50) ex_ctx)
    "Authorization" = Some "Bearer abc".
Proof. rewrite (auth_context_spec order_id order_rev _ _ _ _ ex_titled). vm_compute. reflexivity. Defined.

(** The first stats that are read are the oldest that were written, not the current. *)
Example stale_stats :
  let s := stats_Write (mkStat 1 0 1 0 0 0 7 0) 1 (NewStats 0) in
  st_Requests <$> Debug_Stats (mkRuntime 9 0 0 0) (stats_Record None s) = Some 7%Z.
Proof. reflexivity. Qed.
