(* ===== verification/ApiProxy.v ===== *)
(** * The event and api handlers of the API: [api/handler/event/event.go],
      [api/handler/api/api.go], [api/handler/api/util.go]

    The event handler publishes a request as an event; the api handler calls a service
    with the whole request and writes the response it gives. Reading bodies, parsing forms
    and addresses, the publishing and the call are arguments. *)
From S2P Require Import Prelude GoStrings GoStrconv GoHttp Metadata.
From S2P Require GoPath Errors Registry ApiRouter ApiHandler.

Notation http_request := ApiHandler.http_request.

(** What the handlers look at besides what the rpc handler does. *)
Record request := mkRequest {
  q_req : http_request;
  q_Path : string;
  q_Url : string;
  q_RemoteAddr : string;
  q_Query : gmap string (list string);
}.

(** A pair of the protobuf messages: the key again, and its values. *)
Record Pair := mkPair { p_Key : string; p_Values : list string }.

(** The pair under a key gets the values; it is made when it is not there. *)
Definition set_pair (m : gmap string Pair) (kv : string * list string) : gmap string Pair :=
  <[kv.1 := mkPair (match m !! kv.1 with Some p => p_Key p | None => kv.1 end) kv.2]> m.

Definition pairs (o : map_order) (h : gmap string (list string)) (m : gmap string Pair) : gmap string Pair :=
  foldl set_pair m (map_range o h).

(** ** The event handler *)

(** [^v[0-9]+$] *)
Definition versionRe (s : string) : bool :=
  match s with String "v" (String d rest) => is_digit d && str_forall is_digit rest | _ => false end.

Definition event_handler : string := "event".

Definition eventName (parts : list string) : string := join "." parts.

(** The topic and the action; [strings.Split] never gives an empty list. *)
Definition evRoute (namespace myPath : string) : string * string :=
  let myPath := trim_prefix (GoPath.Clean myPath) "/" in
  if String.eqb myPath "" then (namespace, event_handler)
  else
    let parts := split_char "/" myPath in
    if (2 <=? length parts) && versionRe (List.hd "" parts)
    then (namespace +:+ "." +:+ join "." (take 2 parts), eventName (drop 1 parts))
    else (namespace +:+ "." +:+ join "." (take 1 parts), eventName (drop 1 parts)).

Record Event := mkEvent {
  ev_Name : string;
  ev_Id : string;
  ev_Timestamp : Z;
  ev_Header : gmap string Pair;
  ev_Data : string;
}.

(** What is written: the status, the headers that are set, in order, and the body. *)
Record answer := mkAnswer { a_Status : Z; a_Header : list (string * string); a_Body : string }.

Inductive served := Answered (a : answer) | Crashed.

(** [http.Error] *)
Definition http_Error (err : string) (code : Z) : answer :=
  mkAnswer code [("Content-Type", "text/plain; charset=utf-8"); ("X-Content-Type-Options", "nosniff")] (err +:+ String "010" "").

Section event.
Context {W : Type} (Publish : context -> string -> Event -> W -> W * option string).
Context (query_json : gmap string (list string) -> string).

(** The data of the event, unless the body cannot be read. *)
Definition event_data (q : request) : string + string :=
  if String.eqb (ApiHandler.r_Method (q_req q)) "GET" then inr (query_json (q_Query q)) else ApiHandler.r_Body (q_req q).

Definition event_ServeHTTP (o : map_order) (namespace uuid : string) (now MaxRecvSize : Z) (q : request) (w : W) : W * answer :=
  let r := ApiHandler.limit_body (if (0 <? MaxRecvSize)%Z then MaxRecvSize else ApiHandler.DefaultMaxRecvSize) (q_req q) in
  let q := mkRequest r (q_Path q) (q_Url q) (q_RemoteAddr q) (q_Query q) in
  let '(topic, action) := evRoute namespace (q_Path q) in
  match event_data q with
  | inl err => (w, http_Error err 500)
  | inr data =>
      let event := mkEvent action (topic +:+ "-" +:+ action +:+ "-" +:+ uuid) now (pairs o (ApiHandler.r_Header r) ∅) data in
      match Publish (ApiHandler.FromRequest r) topic event w with
      | (w, Some err) => (w, http_Error err 500)
      | (w, None) => (w, mkAnswer 200 [] "")
      end
  end.
End event.

(** ** The api handler *)
Record Request := mkApiRequest {
  rq_Method : string;
  rq_Path : string;
  rq_Header : gmap string Pair;
  rq_Get : gmap string Pair;
  rq_Post : gmap string Pair;
  rq_Body : string;
  rq_Url : string;
}.

Record Response := mkResponse { rs_StatusCode : Z; rs_Header : gmap string Pair; rs_Body : string }.

Section api.
Context `{Errors.JSON}.

(** [ParseForm] gives the values of a form body, and what is left of the body; the media
    type of a content type; the address of [SplitHostPort]. *)
Context (ParseForm : http_request -> string + gmap string (list string) * (string + string)).
Context (ParseMediaType : string -> option string).
Context (split_host : string -> option string).

Definition form_type : string := "application/x-www-form-urlencoded".
Definition default_ct : string := "text/plain; charset=UTF-8".
Definition forwarded : string := "X-Forwarded-For".

(** The headers as they are copied, the type of the content set where there was none. *)
Definition with_content_type (h : gmap string (list string)) (ct : option string) : gmap string (list string) :=
  match ct with Some _ => h | None => <["Content-Type" := [default_ct]]> h end.

(** The address of the client is put after those that are there. *)
Definition forwarded_header (remote : string) (h : gmap string (list string)) : gmap string Pair :=
  match split_host remote with
  | None => ∅
  | Some ip =>
      {[forwarded := mkPair forwarded [match h !! forwarded with Some prior => join ", " prior +:+ ", " +:+ ip | None => ip end]]}
  end.

(** The message, and what the request is afterwards: its type set and its body read. *)
Definition requestToProto (o : map_order) (q : request) : string + http_request * Request :=
  let r := q_req q in
  match ParseForm r with
  | inl err => inl ("Error parsing form: " +:+ err)
  | inr (post, rest) =>
      let ct := ParseMediaType (ApiHandler.header_get "Content-Type" r) in
      let h := with_content_type (ApiHandler.r_Header r) ct in
      let form := String.eqb (default default_ct ct) form_type in
      match (if form then inr "" else rest) with
      | inl err => inl err
      | inr body =>
          let r' := ApiHandler.mkHttpRequest (ApiHandler.r_Method r) (ApiHandler.r_Host r) h (ApiHandler.r_RawQuery r)
                      (if form then rest else inr "") (ApiHandler.r_ctx r) in
          let header := <["Host" := mkPair "Host" [ApiHandler.r_Host r]]> (forwarded_header (q_RemoteAddr q) h) in
          inr (r', mkApiRequest (ApiHandler.r_Method r) (q_Path q) (pairs o h header) (pairs o (q_Query q) ∅)
            (pairs o post ∅) body (q_Url q))
      end
  end.

(** Writing the status: one that does not have three digits panics, an informational one
    is followed by 200 when the body is written; 101, 204 and 304 have no body. *)
Definition send (code : Z) (h : list (string * string)) (body : string) : served :=
  if (code <? 100)%Z || (999 <? code)%Z then Crashed
  else if (code <? 200)%Z && negb (code =? 101)%Z then Answered (mkAnswer 200 h body)
  else Answered (mkAnswer code h (if bool_decide (code ∈ [101; 204; 304]%Z) then "" else body)).

Definition json_type : list (string * string) := [("Content-Type", "application/json")].

Definition refuse (text : string) : served :=
  send 500 json_type (Errors.error_string (Errors.InternalServerError "go.micro.api" text)).

(** The headers of a response, in the order the map is visited. *)
Definition response_headers (o : map_order) (h : gmap string Pair) : list (string * string) :=
  concat (map (fun kp => map (fun v => (canonical (p_Key kp.2), v)) (p_Values kp.2)) (map_range o h)).

Definition content_type (h : list (string * string)) : string :=
  match List.find (fun kv => String.eqb kv.1 "Content-Type") h with Some kv => kv.2 | None => "" end.

(** [Header.Set] takes what was there away. *)
Definition set_content_type (h : list (string * string)) : list (string * string) :=
  if String.eqb (content_type h) "" then filter (fun kv => kv.1 <> "Content-Type") h ++ json_type else h.

Context (Router : option (http_request -> string + ApiRouter.Route)).
Context (Call : context -> string -> string -> list Registry.Service -> Request -> string + Response).

Definition ServeHTTP (o o' : map_order) (MaxRecvSize : Z) (q : request) : served :=
  let r := ApiHandler.limit_body (if (0 <? MaxRecvSize)%Z then MaxRecvSize else ApiHandler.DefaultMaxRecvSize) (q_req q) in
  let q := mkRequest r (q_Path q) (q_Url q) (q_RemoteAddr q) (q_Query q) in
  match requestToProto o q with
  | inl err => refuse err
  | inr (r, request) =>
      match Router with
      | None => refuse "no route found"
      | Some route =>
          match route r with
          | inl err => refuse err
          | inr service =>
              match Call (ApiHandler.FromRequest r) (ApiRouter.rt_Service service) (ApiRouter.ep_Name (ApiRouter.rt_Endpoint service))
                      (ApiRouter.rt_Versions service) request with
              | inl err =>
                  let ce := Errors.Parse err in
                  send (if (Errors.Code ce =? 0)%Z then 500%Z else Errors.Code ce) json_type (Errors.Error_Error ce)
              | inr rsp =>
                  send (if (rs_StatusCode rsp =? 0)%Z then 200%Z else rs_StatusCode rsp)
                    (set_content_type (response_headers o' (rs_Header rsp))) (rs_Body rsp)
              end
          end
      end
  end.
End api.

(** ** Pairs of headers *)
Lemma pairs_lookup o h m k :
  pairs o h m !! k =
    match h !! k with
    | Some vs => Some (mkPair (match m !! k with Some p => p_Key p | None => k end) vs)
    | None => m !! k
    end.
Proof.
  unfold pairs. assert (forall l m, NoDup l.*1 -> foldl set_pair m l !! k =
    match List.find (fun kv => String.eqb kv.1 k) l with
    | Some kv => Some (mkPair (match m !! k with Some p => p_Key p | None => k end) kv.2) | None => m !! k end) as Hf.
  { induction l as [|[k1 v1] l IH]; intros m0 Hnd; [done|]. cbn [foldl List.find fst]. cbn in Hnd. apply NoDup_cons in Hnd as [Hni Hnd].
    rewrite IH by done. destruct (String.eqb_spec k1 k) as [->|Hne].
    - destruct (List.find _ l) as [kv|] eqn:Hfind.
      + exfalso. apply Hni. apply List.find_some in Hfind as [Hin Heq]. apply String.eqb_eq in Heq. rewrite <- Heq.
        apply list_elem_of_fmap. exists kv. split; [done|by apply list_elem_of_In].
      + unfold set_pair. by rewrite lookup_insert_eq.
    - assert (set_pair m0 (k1, v1) !! k = m0 !! k) as -> by (unfold set_pair; by rewrite lookup_insert_ne). done. }
  rewrite Hf by apply NoDup_map_range. destruct (List.find _ _) as [[k1 vs]|] eqn:Hfind.
  - apply List.find_some in Hfind as [Hin Heq]. cbn in Heq. apply String.eqb_eq in Heq as ->.
    apply list_elem_of_In, elem_of_map_range in Hin. by rewrite Hin.
  - destruct (h !! k) as [vs|] eqn:Hk; [|done]. exfalso. apply (elem_of_map_range o) in Hk. apply list_elem_of_In in Hk.
    apply (List.find_none _ _ Hfind) in Hk. cbn in Hk. by rewrite String.eqb_refl in Hk.
Qed.

(** The headers a service called through the api handler sees: those of the request as
    they came, the host, and the address of the client only when the request has no
    [X-Forwarded-For] of its own: the list that was made with it is lost. *)
Theorem request_headers `{Errors.JSON} ParseForm ParseMediaType split_host o q left rq k :
  requestToProto ParseForm ParseMediaType split_host o q = inr (left, rq) ->
  let h := ApiHandler.r_Header (q_req q) in
  p_Values <$> rq_Header rq !! k =
    match h !! k with
    | Some vs => if decide (k = "Content-Type" /\ ParseMediaType (ApiHandler.header_get "Content-Type" (q_req q)) = None)
                 then Some [default_ct] else Some vs
    | None =>
        if decide (k = "Content-Type" /\ ParseMediaType (ApiHandler.header_get "Content-Type" (q_req q)) = None) then Some [default_ct]
        else if decide (k = "Host") then Some [ApiHandler.r_Host (q_req q)]
        else if decide (k = forwarded) then (fun ip => [ip]) <$> split_host (q_RemoteAddr q)
        else None
    end.
Proof.
  intros Hr. cbn zeta. unfold requestToProto in Hr. destruct (ParseForm (q_req q)) as [err|[post rest]]; [done|].
  set (ct := ParseMediaType _) in *. destruct (if String.eqb (default default_ct ct) form_type then _ else _) as [err|body]; [done|].
  injection Hr as _ <-. cbn [rq_Header]. rewrite pairs_lookup. set (h := ApiHandler.r_Header (q_req q)).
  assert (with_content_type h ct !! k = if decide (k = "Content-Type" /\ ct = None) then Some [default_ct] else h !! k) as Hh.
  { unfold with_content_type. destruct ct as [t|]; [by rewrite decide_False by (by intros [_ ?])|].
    destruct (decide (k = "Content-Type")) as [->|Hne]; [rewrite lookup_insert_eq; by rewrite decide_True|].
    rewrite lookup_insert_ne by done. by rewrite decide_False by (by intros [? _]). }
  rewrite Hh. destruct (decide (k = "Content-Type" /\ ct = None)) as [[-> Hct]|Hct]; [by destruct (h !! "Content-Type")|].
  destruct (h !! k) as [vs|] eqn:Hk; [done|].
  destruct (decide (k = "Host")) as [->|Hhost]; [by rewrite lookup_insert_eq|]. rewrite lookup_insert_ne by done.
  unfold forwarded_header. destruct (split_host (q_RemoteAddr q)) as [ip|]; [|by rewrite lookup_empty; destruct (decide (k = forwarded))].
  destruct (decide (k = forwarded)) as [->|Hfor].
  - rewrite lookup_singleton_eq. cbn [fmap option_fmap option_map p_Values]. by rewrite Hh.
  - by rewrite lookup_singleton_ne.
Qed.

(** ** Topics *)

(** The topic and the action of a path of plain parts. *)
Theorem evRoute_spec namespace p0 ps :
  Forall GoPath.plain (p0 :: ps) ->
  evRoute namespace ("/" +:+ join "/" (p0 :: ps)) =
    (if (0 <? length ps) && versionRe p0
     then (namespace +:+ "." +:+ join "." (p0 :: take 1 ps), join "." ps)
     else (namespace +:+ "." +:+ p0, join "." ps)).
Proof.
  intros Hp. assert (GoPath.Clean ("/" +:+ join "/" (p0 :: ps)) = "/" +:+ join "/" (p0 :: ps)) as Hclean.
  { unfold GoPath.Clean. rewrite has_prefix_app.
    assert (split_char "/" ("/" +:+ join "/" (p0 :: ps)) = "" :: p0 :: ps) as ->.
    { change ("/" +:+ join "/" (p0 :: ps)) with ("" +:+ String "/" (join "/" (p0 :: ps))). rewrite split_char_app by done.
      by rewrite GoPath.plain_split. }
    cbn [foldl]. change (GoPath.clean_step true [] "") with (@nil string). 
    change (foldl (GoPath.clean_step true) (GoPath.clean_step true [] p0) ps) with (foldl (GoPath.clean_step true) [] (p0 :: ps)).
    rewrite GoPath.clean_plain_fold, app_nil_r, rev_involutive by done. done. }
  unfold evRoute. rewrite Hclean, trim_prefix_app.
  assert (String.eqb (join "/" (p0 :: ps)) "" = false) as ->.
  { apply String.eqb_neq. apply GoPath.plain_nonempty. by exists (p0 :: ps). }
  rewrite GoPath.plain_split by done. cbn [length List.hd drop]. change (2 <=? S (length ps)) with (0 <? length ps).
  by destruct ((0 <? length ps) && versionRe p0).
Qed.

(** ** Examples and witnesses *)
Example event_foo : evRoute "ns" "/foo" = ("ns.foo", "").
Proof. vm_compute. reflexivity. Qed.

Example event_versioned : evRoute "ns" "/v1/foo/bar" = ("ns.v1.foo", "foo.bar").
Proof. vm_compute. reflexivity. Qed.

Lemma evRoute_spec_witness : evRoute "ns" "/a/b/c" = ("ns.a", "b.c").
Proof.
  refine (evRoute_spec "ns" "a" ["b"; "c"] _).
  repeat (apply Forall_cons_2; [split; [apply (bool_decide_eq_true_1 _); reflexivity|reflexivity]|]). apply Forall_nil_2.
Defined.

Definition ex_req : request :=
  mkRequest (ApiHandler.mkHttpRequest "GET" "api.local" {["X-Forwarded-For" := ["10.0.0.9"]]} "" (inr "") (mkContext None ∅))
    "/a" "/a" "10.0.0.1:5000" ∅.

Definition ex_form (r : http_request) : string + gmap string (list string) * (string + string) := inr (∅, ApiHandler.r_Body r).
Definition ex_split (a : string) : option string := Some "10.0.0.1".

Lemma request_headers_witness :
  match requestToProto ex_form (fun _ => None) ex_split order_id ex_req with
  | inr (_, rq) => p_Values <$> rq_Header rq !! "X-Forwarded-For" = Some ["10.0.0.9"]
  | inl _ => False
  end.
Proof.
  destruct (requestToProto ex_form (fun _ => None) ex_split order_id ex_req) as [err|[left rq]] eqn:Hr; [vm_compute in Hr; done|].
  pose proof ApiHandler.ex_json as J.
  exact (request_headers ex_form (fun _ => None) ex_split order_id ex_req left rq "X-Forwarded-For" Hr).
Defined.
