(* ===== verification/HttpTransport.v ===== *)
(** * The HTTP transport: [transport/http_client.go, http_socket.go, http_listener.go,
      http_transport.go, http_proxy.go]

    A message is the header and body of an HTTP request, or of the response to one, on a
    connection the client keeps. The client queues its requests and reads responses in
    turn; the server's socket gets the first request from the HTTP server and reads the
    others itself. The client with its callers, the connection and the socket are a machine
    whose steps are those between two locks. A message goes on the connection in pieces,
    since no lock keeps two senders of a side apart, and is read where its pieces follow one
    another (what headers become is in GoHttp). *)
From S2P Require Import Prelude GoStrings GoStrconv GoHttp.
From S2P Require MemTransport GoIO NetUtil.

Notation Message := MemTransport.Message.
Notation mkMessage := MemTransport.mkMessage.
Notation m_Header := MemTransport.m_Header.
Notation m_Body := MemTransport.m_Body.

(** ** Messages as requests and responses *)
Record request := mkRequest { r_Header : Header; r_Body : string; r_Close : bool }.

Definition new_request (o : map_order) (connClose : bool) (m : Message) : request :=
  mkRequest (set_all o (m_Header m) ∅) (m_Body m) connClose.

#[export] Instance request_eq_dec : EqDecision request.
Proof. solve_decision. Defined.

(** A request as it is read; [None] for those that are refused, or that ask something of the
    HTTP library. *)
Definition as_read (r : request) : option (Header * string) :=
  if ordinary (r_Header r) then Some (request_at_end (r_Close r) (r_Header r) (r_Body r), r_Body r) else None.

(** What [Recv] makes of what was read: the first value of every header is put into the
    message, and the body replaced. *)
Definition received (h : Header) (body : string) (msg : Message) : Message :=
  mkMessage ((first_of <$> h) ∪ m_Header msg) body.

Record response := mkResponse { y_Status : Z; y_Text : string; y_Header : Header; y_Body : string }.

#[export] Instance response_eq_dec : EqDecision response.
Proof. solve_decision. Defined.

(** [sendHTTP1]: the headers of the first request, and over them those of the message. *)
Definition sendHTTP1 (o : map_order) (first : Header) (m : Message) : response :=
  mkResponse 200 "200 OK" (set_all o (m_Header m) first) (m_Body m).

Definition error_response (o : map_order) (m : Message) : response :=
  mkResponse 500 "500 Internal Server Error" (set_all o (m_Header m) ∅) (m_Body m).

(** A response as [ReadResponse] gives it: its body may break off, and closing the body may
    fail. *)
Record read_response := mkReadResponse {
  d_Status : Z;
  d_Text : string;
  d_Header : Header;
  d_Body : string + string;
  d_Close : option string;
}.

Definition whole (y : response) : read_response :=
  mkReadResponse (y_Status y) (y_Text y) (response_at_end (y_Header y) (y_Body y)) (inr (y_Body y)) None.

(** The end of [Recv] once the response was read. The error that is returned is the named
    result, and closing the body is assigned to it after every return. *)
Definition finish_recv (rsp : string + read_response) (msg : Message) : option string * Message :=
  match rsp with
  | inl err => (Some err, msg)
  | inr d =>
      let '(err, msg) :=
        match d_Body d with
        | inl err => (Some err, msg)
        | inr b => if (d_Status d =? 200)%Z then (None, received (d_Header d) b msg)
                   else (Some (d_Text d +:+ ": " +:+ b), msg)
        end in
      let err := d_Close d in
      ((fun e => "failed to close body: " +:+ e) <$> err, msg)
  end.

(** ** The client *)
Inductive once_state := Fresh | Running | Done.

#[export] Instance once_eq_dec : EqDecision once_state.
Proof. solve_decision. Defined.

Record client := mkClient {
  c_stream : bool;
  c_connClose : bool;
  c_closed : bool;
  c_req : list request;
  c_req_closed : bool;
  c_reqList : list request;
  c_once : once_state;
}.

Definition req_capacity : nat := 100.

(** [Send] under the lock: the request goes to the end of the list, and the head of the list
    into the channel when there is room. *)
Definition enqueue (r : request) (c : client) : client :=
  match c_reqList c ++ [r] with
  | hd :: tl =>
      if length (c_req c) <? req_capacity
      then mkClient (c_stream c) (c_connClose c) (c_closed c) (c_req c ++ [hd]) (c_req_closed c) tl (c_once c)
      else mkClient (c_stream c) (c_connClose c) (c_closed c) (c_req c) (c_req_closed c) (hd :: tl) (c_once c)
  | [] => c
  end.

Definition with_req (q : list request) (c : client) : client :=
  mkClient (c_stream c) (c_connClose c) (c_closed c) q (c_req_closed c) (c_reqList c) (c_once c).

Definition with_reqList (q : list request) (c : client) : client :=
  mkClient (c_stream c) (c_connClose c) (c_closed c) (c_req c) (c_req_closed c) q (c_once c).

(** The two halves of what [once] runs: under the lock, and after it. *)
Definition mark_closed (c : client) : client :=
  mkClient (c_stream c) (c_connClose c) true (c_req c) (c_req_closed c) (c_reqList c) Running.

Definition close_req (c : client) : client :=
  mkClient (c_stream c) (c_connClose c) (c_closed c) (c_req c) true (c_reqList c) Done.

(** ** What is on a connection

    A message is written in [n] pieces, with no lock: those of another may come between. *)
Section wire.
Context {A : Type} `{EqDecision A}.

Record piece := Piece { p_msg : A; p_at : nat; p_of : nat }.

#[export] Instance piece_eq_dec : EqDecision piece.
Proof. solve_decision. Defined.

Definition pieces (x : A) (n : nat) : list piece := (fun j => Piece x j n) <$> seq 0 n.

(** A sender at work, [j_at] of its pieces written. *)
Record job := mkJob { j_msg : A; j_at : nat; j_of : nat }.

(** The [i]th sender writes its next piece: the senders that are left, what is on the
    connection, and the message where it is complete. *)
Definition write_piece (i : nat) (jobs : list job) (wire : list piece) : option (list job * list piece * list A) :=
  match jobs !! i with
  | Some (mkJob x j n) =>
      if n <=? S j then Some (delete i jobs, wire ++ [Piece x j n], [x])
      else Some (<[i := mkJob x (S j) n]> jobs, wire ++ [Piece x j n], [])
  | None => None
  end.

(** The message at the front, where its pieces are all there and follow one another. *)
Definition read_message (wire : list piece) : option (A * list piece) :=
  match wire with
  | Piece x _ n :: _ => if bool_decide (take n wire = pieces x n) then Some (x, drop n wire) else None
  | [] => None
  end.

(** What is there is the beginning of a message: a reader waits. *)
Definition pending (wire : list piece) : bool :=
  match wire with
  | Piece x _ n :: _ => bool_decide (wire = take (length wire) (pieces x n))
  | [] => true
  end.

(** A reader finds no message and does not wait for the rest of one. *)
Definition astray (wire : list piece) : bool := negb (pending wire) && bool_decide (read_message wire = None).

(** The senders other than the [i]th have written nothing. *)
Definition alone (i : nat) (jobs : list job) : bool := forallb (fun jb => j_at jb =? 0) (delete i jobs).

Definition untouched (i : nat) (jobs : list job) : bool := match jobs !! i with Some jb => j_at jb =? 0 | None => true end.
End wire.

Arguments piece : clear implicits.
Arguments job : clear implicits.

(** ** The connection at work

    Of the client's callers there are those that wait for a request in the channel, those
    that have one and want the lock, the one that holds it and reads, and the requests that
    are queued and not yet written. *)
Record callers := mkCallers { k_waiting : nat; k_holding : nat; k_reading : bool; k_writing : list (job request) }.

(** The server's end: the header of the first request, once there is one, and the channel
    with it. *)
Record socket := mkSocket { s_first : option Header; s_ch : option (Header * string) }.

Record conn_world := mkWorld {
  w_c : client;
  w_k : callers;
  w_up : list (piece request);
  w_down : list (piece response);
  w_conn_closed : bool;
  w_s : socket;
  w_answering : list (job response);
  w_sent : list request;
  w_handled : list (Header * string);
  w_replied : list response;
  w_got : list response;
}.

Inductive action :=
| Queue (o : map_order) (m : Message) (n : nat)
| WriteReq (i : nat)
| WriteFails (i : nat)
| Recv
| TakeReq
| TakeListed
| DeadlineFails
| RecvLock
| ReadRsp
| ReadStray (y : response) (j : nat)
| ReadFails (j : nat)
| CloseLock
| CloseReq
| CloseConn
| Accept
| Serve
| ServeStray (q : Header * string) (j : nat)
| ServeFails (j : nat)
| Reply (o : map_order) (m : Message) (n : nat)
| ReplyError (o : map_order) (m : Message) (n : nat)
| WriteRsp (i : nat)
| RspFails (i : nat).

Definition with_client (c : client) (k : callers) (w : conn_world) : conn_world :=
  mkWorld c k (w_up w) (w_down w) (w_conn_closed w) (w_s w) (w_answering w) (w_sent w) (w_handled w) (w_replied w) (w_got w).

Definition writing (jobs : list (job request)) (k : callers) : callers :=
  mkCallers (k_waiting k) (k_holding k) (k_reading k) jobs.

Definition read_over (k : callers) : callers := mkCallers (k_waiting k) (k_holding k) false (k_writing k).

Definition answering (jobs : list (job response)) (w : conn_world) : conn_world :=
  mkWorld (w_c w) (w_k w) (w_up w) (w_down w) (w_conn_closed w) (w_s w) jobs (w_sent w) (w_handled w) (w_replied w) (w_got w).

Definition handle (up : list (piece request)) (s : socket) (qs : list (Header * string)) (w : conn_world) : conn_world :=
  mkWorld (w_c w) (w_k w) up (w_down w) (w_conn_closed w) s (w_answering w) (w_sent w) (w_handled w ++ qs) (w_replied w) (w_got w).

Definition get (down : list (piece response)) (ys : list response) (w : conn_world) : conn_world :=
  mkWorld (w_c w) (read_over (w_k w)) (w_up w) down (w_conn_closed w) (w_s w) (w_answering w) (w_sent w) (w_handled w)
    (w_replied w) (w_got w ++ ys).

Definition lock_free (w : conn_world) : bool := negb (k_reading (w_k w)).

(** One step; [None] when it cannot be taken now. [Queue] and [Reply] begin a write of
    [S n] pieces. What a reader makes of pieces that are no message, [ReadStray] and
    [ServeStray], may be anything; a read or a write that fails may have taken or left any
    pieces. The socket has one receiver, as the RPC server has. *)
Definition perform (a : action) (w : conn_world) : option conn_world :=
  let c := w_c w in let k := w_k w in
  match a with
  | Queue o m n =>
      let r := new_request o (c_connClose c) m in
      let k' := writing (k_writing k ++ [mkJob r 0 (S n)]) k in
      if c_stream c then Some (with_client c k' w)
      else if negb (lock_free w) then None
      else if c_closed c then Some w
      else Some (with_client (enqueue r c) k' w)
  | WriteReq i =>
      if w_conn_closed w then None
      else match write_piece i (k_writing k) (w_up w) with
      | Some (jobs, up, done) =>
          Some (mkWorld c (writing jobs k) up (w_down w) (w_conn_closed w) (w_s w) (w_answering w) (w_sent w ++ done)
            (w_handled w) (w_replied w) (w_got w))
      | None => None
      end
  | WriteFails i =>
      match k_writing k !! i with
      | Some _ => Some (with_client c (writing (delete i (k_writing k)) k) w)
      | None => None
      end
  | Recv =>
      Some (with_client c (if c_stream c then mkCallers (k_waiting k) (S (k_holding k)) (k_reading k) (k_writing k)
                           else mkCallers (S (k_waiting k)) (k_holding k) (k_reading k) (k_writing k)) w)
  | TakeReq =>
      match k_waiting k, c_req c with
      | S n, _ :: q => Some (with_client (with_req q c) (mkCallers n (S (k_holding k)) (k_reading k) (k_writing k)) w)
      | _, _ => None
      end
  | TakeListed =>
      match k_waiting k, c_req c with
      | S n, [] =>
          if c_req_closed c && lock_free w then
            match c_reqList c with
            | [] => Some (with_client c (mkCallers n (k_holding k) (k_reading k) (k_writing k)) w)
            | _ :: l => Some (with_client (with_reqList l c) (mkCallers n (S (k_holding k)) (k_reading k) (k_writing k)) w)
            end
          else None
      | _, _ => None
      end
  | DeadlineFails =>
      match k_holding k with
      | S n => if w_conn_closed w then Some (with_client c (mkCallers (k_waiting k) n (k_reading k) (k_writing k)) w) else None
      | 0 => None
      end
  | RecvLock =>
      match k_holding k with
      | S n =>
          if lock_free w then
            if c_closed c then Some (with_client c (mkCallers (k_waiting k) n false (k_writing k)) w)
            else Some (with_client c (mkCallers (k_waiting k) n true (k_writing k)) w)
          else None
      | 0 => None
      end
  | ReadRsp =>
      match read_message (w_down w) with
      | Some (y, down) => if k_reading k && negb (w_conn_closed w) then Some (get down [y] w) else None
      | None => None
      end
  | ReadStray y j =>
      if k_reading k && negb (w_conn_closed w) && astray (w_down w) then Some (get (drop j (w_down w)) [y] w) else None
  | ReadFails j => if k_reading k then Some (get (drop j (w_down w)) [] w) else None
  | CloseLock =>
      match c_once c with
      | Fresh => if lock_free w && (negb (c_stream c) || w_conn_closed w) then Some (with_client (mark_closed c) k w) else None
      | _ => None
      end
  | CloseReq => match c_once c with Running => Some (with_client (close_req c) k w) | _ => None end
  | CloseConn =>
      if c_stream c || bool_decide (c_once c = Done)
      then Some (mkWorld c k (w_up w) (w_down w) true (w_s w) (w_answering w) (w_sent w) (w_handled w) (w_replied w) (w_got w))
      else None
  | Accept =>
      match s_first (w_s w), read_message (w_up w) with
      | None, Some (r, up) =>
          match as_read r with Some q => Some (handle up (mkSocket (Some q.1) (Some q)) [] w) | None => None end
      | _, _ => None
      end
  | Serve =>
      match s_first (w_s w), s_ch (w_s w) with
      | Some h, Some q => Some (handle (w_up w) (mkSocket (Some h) None) [q] w)
      | Some _, None =>
          match read_message (w_up w) with
          | Some (r, up) =>
              match as_read r with Some q => Some (handle up (w_s w) [q] w) | None => None end
          | None => None
          end
      | None, _ => None
      end
  | ServeStray q j =>
      match s_first (w_s w), s_ch (w_s w) with
      | Some _, None => if astray (w_up w) then Some (handle (drop j (w_up w)) (w_s w) [q] w) else None
      | _, _ => None
      end
  | ServeFails j =>
      match s_first (w_s w), s_ch (w_s w) with
      | Some _, None => Some (handle (drop j (w_up w)) (w_s w) [] w)
      | _, _ => None
      end
  | Reply o m n =>
      match s_first (w_s w) with
      | Some h => Some (answering (w_answering w ++ [mkJob (sendHTTP1 o h m) 0 (S n)]) w)
      | None => None
      end
  | ReplyError o m n =>
      match s_first (w_s w) with
      | Some _ => Some (answering (w_answering w ++ [mkJob (error_response o m) 0 (S n)]) w)
      | None => None
      end
  | WriteRsp i =>
      match write_piece i (w_answering w) (w_down w) with
      | Some (jobs, down, done) =>
          Some (mkWorld c k (w_up w) down (w_conn_closed w) (w_s w) jobs (w_sent w) (w_handled w) (w_replied w ++ done) (w_got w))
      | None => None
      end
  | RspFails i =>
      match w_answering w !! i with Some _ => Some (answering (delete i (w_answering w)) w) | None => None end
  end.

Fixpoint run (acts : list action) (w : conn_world) : option conn_world :=
  match acts with
  | [] => Some w
  | a :: acts => match perform a w with Some w' => run acts w' | None => None end
  end.

(** What [Dial] makes, with nobody at work. *)
Definition new_world (stream connClose : bool) : conn_world :=
  mkWorld (mkClient stream connClose false [] false [] Fresh) (mkCallers 0 0 false []) [] [] false (mkSocket None None) [] [] [] [] [].

(** Who writes is alone until its message is complete, and no read or write fails that has
    begun. *)
Definition orderly (a : action) (w : conn_world) : bool :=
  match a with
  | WriteReq i => alone i (k_writing (w_k w))
  | WriteFails i => untouched i (k_writing (w_k w))
  | WriteRsp i => alone i (w_answering w)
  | RspFails i => untouched i (w_answering w)
  | ReadFails j | ServeFails j => j =? 0
  | _ => true
  end.

Fixpoint orderly_run (acts : list action) (w : conn_world) : bool :=
  match acts with
  | [] => true
  | a :: acts => orderly a w && match perform a w with Some w' => orderly_run acts w' | None => true end
  end.

Definition reachable (w : conn_world) : Prop := exists stream connClose acts, run acts (new_world stream connClose) = Some w.

(** ** The socket of an HTTP/2 request

    The body of the request is read as it comes, the response written as it is sent. *)
Record h2_socket := mkH2 {
  z_closed : bool;
  z_path : string;
  z_header : Header;
  z_unread : string;
  z_out : Header;
  z_sent : option Header;
  z_written : string;
}.

Definition DefaultBufSizeH2 : Z := 4 * 1024 * 1024.

(** [n] is how much of the body has come, at least one byte of what is left. *)
Definition recvHTTP2 (BuffSizeH2 : Z) (n : nat) (z : h2_socket) (msg : Message) : outcome string (h2_socket * Message) :=
  if z_closed z then Fail "EOF"
  else
    let s := if (BuffSizeH2 =? 0)%Z then DefaultBufSizeH2 else BuffSizeH2 in
    if (s <? 0)%Z then Panic
    else if String.eqb (z_unread z) "" then Fail "EOF"
    else
      let n := Nat.min n (Z.to_nat s) in
      let msg := if 0 <? n then mkMessage (m_Header msg) (str_take n (z_unread z)) else msg in
      Ret (mkH2 (z_closed z) (z_path z) (z_header z) (str_drop n (z_unread z)) (z_out z) (z_sent z) (z_written z),
           mkMessage (<[":path" := z_path z]> ((first_of <$> z_header z) ∪ m_Header msg)) (m_Body msg)).

(** The headers go out with what is written first. [werr] is what writing gives. *)
Definition sendHTTP2 (o : map_order) (werr : option string) (z : h2_socket) (m : Message) : h2_socket * option string :=
  if z_closed z then (z, Some "EOF")
  else
    let out := set_all o (m_Header m) (z_out z) in
    (mkH2 (z_closed z) (z_path z) (z_header z) (z_unread z) out
      (match z_sent z with Some h => Some h | None => Some out end)
      (z_written z +:+ match werr with None => m_Body m | Some _ => "" end), werr).

(** [Close]: the second time nothing happens. *)
Definition Close_h2 (close_err : option string) (z : h2_socket) : h2_socket * option string :=
  if z_closed z then (z, None)
  else (mkH2 true (z_path z) (z_header z) (z_unread z) (z_out z) (z_sent z) (z_written z), close_err).

(** ** Dialing *)
Section dial.
Context {C : Type}.

(** A proxy: its host, and a user with a password. *)
Record proxy := mkProxy { x_Host : string; x_User : option (string * string) }.

(** The proxy of an address from the environment; dialing; writing a request to a
    connection; the status of the response that is read, and what closing its body gives;
    base64. *)
Context (getURL : string -> string + option proxy).
Context (dial : string -> string + C).
Context (write : C -> string -> Header -> option string).
Context (read : C -> string + Z * option string).
Context (base64 : string -> string).

(** What a function that dials gives back, and whether it closed the connection. *)
Record dialled := mkDialled { l_conn : option C; l_err : option string; l_closed : bool }.

Definition connect_header (p : proxy) : Header :=
  let h := {["User-Agent" := ["micro/latest"]]} in
  match x_User p with
  | Some (u, pw) => <["Proxy-Authorization" := ["Basic " +:+ base64 (u +:+ ":" +:+ pw)]]> h
  | None => h
  end.

(** The connection is closed when the function ends with an error; closing the body of the
    response, which runs before, gives the error its last value. *)
Definition proxyDial (conn : C) (addr : string) (p : proxy) : dialled :=
  let finish c err := mkDialled c err (bool_decide (err <> None)) in
  match write conn addr (connect_header p) with
  | Some err => finish None (Some ("failed to write the HTTP request: " +:+ err))
  | None =>
      match read conn with
      | inl err => finish None (Some ("reading server HTTP response: " +:+ err))
      | inr (status, close_err) =>
          let '(c, err) := if negb (status =? 200)%Z then (None, Some "failed to do connect handshake") else (Some conn, None) in
          let err := close_err in
          finish c err
      end
  end.

Definition newConn (addr : string) : dialled :=
  match getURL addr with
  | inl err => mkDialled None (Some err) false
  | inr proxyURL =>
      match dial (match proxyURL with Some p => x_Host p | None => addr end) with
      | inl err => mkDialled None (Some err) false
      | inr c => match proxyURL with Some p => proxyDial c addr p | None => mkDialled (Some c) None false end
      end
  end.

(** A client is made over the connection; asking a nil one for its address panics. *)
Definition Dial (stream connClose : bool) (addr : string) : outcome string (C * conn_world) :=
  match newConn addr with
  | mkDialled _ (Some err) _ => Fail err
  | mkDialled None None _ => Panic
  | mkDialled (Some c) None _ => Ret (c, new_world stream connClose)
  end.
End dial.

(** ** Listening *)
Section listen.
Context `{NetUtil.Net} {L : Type}.
Context (net_listen : string -> string + L) (tls_listen : list string -> string -> string + L).
Context (IPs : list string).

(** The hosts of the certificate that is made where there is none. *)
Definition certificate_hosts (addr : string) : list string :=
  match NetUtil.SplitHostPort addr with
  | inr (host, _) => if String.eqb host "" then IPs else [host]
  | inl _ => [addr]
  end.

(** A listener may come with the options. *)
Definition Listen (given : option L) (secure : bool) (addr : string) : string + L :=
  match given with
  | Some l => NetUtil.Listen (fun _ => inr l) addr
  | None =>
      if secure then NetUtil.Listen (fun a => tls_listen (certificate_hosts a) a) addr
      else NetUtil.Listen net_listen addr
  end.
End listen.

(** What the handler of the listener does with a request: an error is answered, or a socket
    served. [hijack] is [None] where the connection cannot be taken over. *)
Inductive served := Refused (err : string) | ServeHTTP1 (q : Header * string) | ServeHTTP2 (z : h2_socket).

Definition newHandler (major : Z) (path : string) (h : Header) (body : string + string) (hijack : option (option string)) : served :=
  if (major =? 1)%Z then
    match body with
    | inl err => Refused err
    | inr b =>
        match hijack with
        | None => Refused "cannot serve conn"
        | Some (Some err) => Refused err
        | Some None => ServeHTTP1 (h, b)
        end
    end
  else ServeHTTP2 (mkH2 false path h (match body with inr b => b | inl _ => "" end) ∅ None "").

(** ** What arrives *)
Definition plain_keys (m : gmap string string) : Prop := map_Forall (fun k _ => canonical k = k /\ valid_key k = true) m.

Lemma plain_canonical m : plain_keys m -> map_Forall (fun k (_ : string) => canonical k = k) m.
Proof. intros Hm k v Hk. by apply (Hm k v). Qed.

(** C32: a message whose keys are canonical and can be written, and whose headers are
    ordinary (no control bytes in a value, neither [Expect] nor [Upgrade]), is read by the
    server: its body arrives as it is, and a header as its value is written, unless the
    header is one of those HTTP has for itself; headers the message does not have are left
    in the message it is received into. Keys of another form are renamed or not written. *)
Theorem request_carried o connClose m msg k :
  plain_keys (m_Header m) -> ordinary (r_Header (new_request o connClose m)) = true -> k ∉ library_keys ->
  exists h b, as_read (new_request o connClose m) = Some (h, b) /\
  m_Body (received h b msg) = m_Body m /\
  m_Header (received h b msg) !! k =
    match m_Header m !! k with Some v => Some (field_value v) | None => m_Header msg !! k end.
Proof.
  intros Hm Ho Hk. unfold as_read. rewrite Ho. do 2 eexists. split; [reflexivity|].
  unfold new_request, received. cbn [r_Header r_Body r_Close MemTransport.m_Header MemTransport.m_Body].
  split; [done|]. rewrite lookup_union, lookup_fmap, request_at_end_lookup by done.
  pose proof (set_all_lookup o (m_Header m) ∅ k (plain_canonical _ Hm)) as Hs.
  destruct (m_Header m !! k) as [v|] eqn:Hv.
  - rewrite (lines_lookup _ _ _ [v]); [|..|by apply (Hm k v)|done|done].
    + cbn. by rewrite union_Some_l.
    + intros Hin. apply Hk. unfold library_keys. rewrite 2!elem_of_cons. by right; right.
  - rewrite lookup_empty in Hs. rewrite lines_lookup_none by done. cbn. by rewrite (left_id None _).
Qed.

(** A key in another form arrives under another name, or not at all. *)
Example keys_renamed :
  (fun '(h, _) => (h !! "Micro-ID", h !! "Micro-Id", h !! ":path")) <$>
    as_read (new_request order_id false (mkMessage {["Micro-ID" := "7"; ":path" := "/x"]} "b"))
  = Some (None, Some ["7"], None).
Proof. vm_compute. reflexivity. Qed.

(** An answer of the server: the client finds the headers of the answer, and where the
    answer has none those of its own first request, whichever request it was that is
    answered. *)
Theorem reply_carried o first m msg k :
  plain_keys (m_Header m) -> k <> "Cache-Control" -> k ∉ response_unwritten ->
  exists msg', finish_recv (inr (whole (sendHTTP1 o first m))) msg = (None, msg') /\ m_Body msg' = m_Body m /\
  m_Header msg' !! k =
    match m_Header m !! k with
    | Some v => Some (field_value v)
    | None => match first_of <$> lines response_unwritten first !! k with Some v => Some v | None => m_Header msg !! k end
    end.
Proof.
  intros Hm Hc Hk. eexists. split; [reflexivity|]. split; [done|]. unfold received, whole, sendHTTP1.
  cbn [d_Header y_Header y_Body MemTransport.m_Header]. rewrite lookup_union, lookup_fmap.
  assert (k <> "Content-Length") as Hl by (intros ->; apply Hk; by left).
  rewrite response_at_end_lookup by done.
  pose proof (set_all_lookup o (m_Header m) first k (plain_canonical _ Hm)) as Hs.
  destruct (m_Header m !! k) as [v|] eqn:Hv.
  - rewrite (lines_lookup _ _ _ [v]); [|done|by apply (Hm k v)|done|done]. cbn. by rewrite union_Some_l.
  - assert (lines response_unwritten (set_all o (m_Header m) first) !! k = lines response_unwritten first !! k) as ->.
    { unfold lines. by rewrite !map_lookup_imap, Hs. }
    destruct (lines response_unwritten first !! k) as [vs|]; cbn; [by rewrite union_Some_l|by rewrite (left_id None _)].
Qed.

(** An answer with another status than 200 is received without an error, and without
    anything in the message. *)
Theorem bad_status_received d msg :
  d_Status d <> 200%Z -> d_Close d = None -> finish_recv (inr d) msg = (None, msg).
Proof.
  intros Hd Hc. unfold finish_recv. rewrite Hc. destruct (d_Body d) as [err|b]; [done|].
  by rewrite (proj2 (Z.eqb_neq _ _) Hd).
Qed.

(** ** Order *)

Section wire_order.
Context {A : Type} `{EqDecision A}.
Implicit Types (jobs : list (job A)) (wire : list (piece A)) (arrived sent : list A).

Definition written (jb : job A) : list (piece A) := take (j_at jb) (pieces (j_msg jb) (j_of jb)).

(** What is on the connection: messages that are complete, [S n] pieces of each, and what
    the one sender at work has written. *)
Definition in_turn jobs wire arrived sent : Prop :=
  exists done : list (A * nat),
    wire = concat ((fun xn => pieces xn.1 (S xn.2)) <$> done) ++ concat (written <$> jobs) /\
    sent = arrived ++ done.*1 /\ Forall (fun jb => j_at jb < j_of jb) jobs /\ (exists i, alone i jobs = true).

Lemma pieces_length (x : A) n : length (pieces x n) = n.
Proof. unfold pieces. by rewrite length_fmap, length_seq. Qed.

Lemma alone_delete i jobs : alone i jobs = true -> Forall (fun jb => j_at jb = 0) (delete i jobs).
Proof.
  unfold alone. intros Ha. apply Forall_forall. intros jb Hin. rewrite forallb_forall in Ha.
  apply Nat.eqb_eq, Ha. by apply list_elem_of_In.
Qed.

Lemma none_alone i jobs : Forall (fun jb => j_at jb = 0) (delete i jobs) -> alone i jobs = true.
Proof. intros Ha. apply forallb_forall. intros jb Hin%list_elem_of_In. rewrite Forall_forall in Ha. by apply Nat.eqb_eq, Ha. Qed.

Lemma delete_none i jobs : jobs !! i = None -> delete i jobs = jobs.
Proof. intros Hi%lookup_ge_None. rewrite delete_take_drop, take_ge, drop_ge by lia. by rewrite app_nil_r. Qed.

Lemma none_written jobs : Forall (fun jb => j_at jb = 0) jobs -> concat (written <$> jobs) = [].
Proof. induction 1 as [|jb jobs Hj Hf IH]; [done|]. cbn. rewrite IH. unfold written. by rewrite Hj. Qed.

Lemma written_split i jobs jb : jobs !! i = Some jb ->
  jobs = take i jobs ++ jb :: drop (S i) jobs /\ delete i jobs = take i jobs ++ drop (S i) jobs.
Proof. intros Hi. split; [by rewrite take_drop_middle|apply delete_take_drop]. Qed.

Lemma written_alone i jobs jb :
  jobs !! i = Some jb -> alone i jobs = true -> concat (written <$> jobs) = written jb.
Proof.
  intros Hi Ha%alone_delete. destruct (written_split i jobs jb Hi) as [Hj Hd]. rewrite Hd, Forall_app in Ha.
  rewrite Hj, fmap_app, concat_app. cbn [fmap list_fmap concat]. destruct Ha as [H1 H2].
  by rewrite !none_written, app_nil_r by done.
Qed.

Lemma written_untouched i jobs : untouched i jobs = true -> concat (written <$> delete i jobs) = concat (written <$> jobs).
Proof.
  unfold untouched. destruct (jobs !! i) as [jb|] eqn:Hi; intros Hu.
  - destruct (written_split i jobs jb Hi) as [Hj ->]. rewrite Hj at 3. rewrite !fmap_app, !concat_app. cbn [fmap list_fmap concat].
    f_equal. unfold written at 2. apply Nat.eqb_eq in Hu. by rewrite Hu.
  - by rewrite delete_none.
Qed.

Lemma alone_lookup i jobs i' jb : alone i jobs = true -> jobs !! i' = Some jb -> i' <> i -> j_at jb = 0.
Proof.
  intros Ha%alone_delete Hi Hne. rewrite Forall_forall in Ha. apply Ha. apply list_elem_of_lookup.
  destruct (decide (i' < i)); [exists i'; by rewrite list_lookup_delete_lt|].
  exists (i' - 1). rewrite list_lookup_delete_ge by lia. by replace (S (i' - 1)) with i' by lia.
Qed.

Lemma lookup_alone i jobs : (forall i' jb, jobs !! i' = Some jb -> i' <> i -> j_at jb = 0) -> alone i jobs = true.
Proof.
  intros Hl. apply none_alone, Forall_lookup. intros i' jb Hi. destruct (decide (i' < i)).
  - rewrite list_lookup_delete_lt in Hi by done. apply (Hl i'); [done|lia].
  - rewrite list_lookup_delete_ge in Hi by lia. apply (Hl (S i')); [done|lia].
Qed.

Lemma in_turn_new jobs wire arrived sent x n :
  in_turn jobs wire arrived sent -> in_turn (jobs ++ [mkJob x 0 (S n)]) wire arrived sent.
Proof.
  intros (done & Hw & Hs & Hf & i & Ha). exists done. split_and!; [|done| |].
  - rewrite fmap_app, concat_app. cbn. by rewrite !app_nil_r.
  - apply Forall_app. split; [done|]. apply Forall_singleton. cbn. lia.
  - destruct (decide (i < length jobs)) as [Hi|Hi].
    + exists i. apply lookup_alone. intros i' jb Hj Hne. apply lookup_app_Some in Hj as [Hj|[_ Hj]].
      * by eapply alone_lookup.
      * by apply list_lookup_singleton_Some in Hj as [_ <-].
    + exists (length jobs). apply lookup_alone. intros i' jb Hj Hne. apply lookup_app_Some in Hj as [Hj|[_ Hj]].
      * eapply alone_lookup; [done|done|]. apply lookup_lt_Some in Hj. lia.
      * by apply list_lookup_singleton_Some in Hj as [_ <-].
Qed.

Lemma in_turn_fails i jobs wire arrived sent :
  untouched i jobs = true -> in_turn jobs wire arrived sent -> in_turn (delete i jobs) wire arrived sent.
Proof.
  intros Hu (done & Hw & Hs & Hf & i0 & Ha). exists done. split_and!; [by rewrite written_untouched|done|by apply Forall_delete|].
  destruct (decide (i0 < i)) as [Hlt|Hge]; [exists i0|destruct (decide (i0 = i)) as [->|Hne]; [exists i|exists (i0 - 1)]];
    apply lookup_alone; intros i' jb Hj Hn; (destruct (decide (i' < i)) as [Hi|Hi];
      [rewrite list_lookup_delete_lt in Hj by done|rewrite list_lookup_delete_ge in Hj by lia];
      (eapply alone_lookup; [exact Ha|exact Hj|lia])).
Qed.

Lemma pieces_end (x : A) j n : n = S j -> take j (pieces x n) ++ [Piece x j n] = pieces x n.
Proof.
  intros Hn. assert (j < n) as Hj by lia. rewrite <- (take_S_r (pieces x n) j (Piece x j n)).
  - apply take_ge. rewrite pieces_length. lia.
  - unfold pieces. rewrite list_lookup_fmap, lookup_seq_lt by done. done.
Qed.

Lemma pieces_next (x : A) j n : j < n -> take j (pieces x n) ++ [Piece x j n] = take (S j) (pieces x n).
Proof.
  intros Hj. symmetry. apply take_S_r. unfold pieces. rewrite list_lookup_fmap, lookup_seq_lt by done. done.
Qed.

Lemma in_turn_write i jobs wire arrived sent jobs' wire' done' :
  alone i jobs = true -> write_piece i jobs wire = Some (jobs', wire', done') ->
  in_turn jobs wire arrived sent -> in_turn jobs' wire' arrived (sent ++ done').
Proof.
  unfold write_piece. destruct (jobs !! i) as [[x j n]|] eqn:Hi; [|done]. intros Ha Hp (done & Hw & Hs & Hf & _).
  pose proof (Forall_lookup_1 _ _ _ _ Hf Hi) as Hlt. cbn in Hlt. rewrite (written_alone _ _ _ Hi Ha) in Hw.
  pose proof (alone_delete _ _ Ha) as Hd.
  destruct (Nat.leb_spec n (S j)) as [Hle|Hgt]; injection Hp as <- <- <-.
  - assert (n = S j) as -> by lia. exists (done ++ [(x, j)]). split_and!.
    + rewrite (none_written _ Hd), app_nil_r, fmap_app, concat_app, Hw, <- app_assoc. f_equal. cbn [fmap list_fmap concat fst snd].
      rewrite app_nil_r. unfold written. cbn [j_at j_msg j_of]. by apply pieces_end.
    + by rewrite fmap_app, app_assoc, Hs.
    + by apply Forall_delete.
    + exists 0. apply none_alone. by apply Forall_delete.
  - exists done. assert (i < length jobs) as Hl by (by eapply lookup_lt_Some). rewrite app_nil_r. split_and!; [|done| |].
    + rewrite (written_alone i _ (mkJob x (S j) n)).
      * rewrite Hw, <- app_assoc. f_equal. unfold written. cbn [j_at j_msg j_of]. by apply pieces_next.
      * by apply list_lookup_insert_eq.
      * apply lookup_alone. intros i' jb Hj Hne. rewrite list_lookup_insert_ne in Hj by done. by eapply alone_lookup.
    + apply Forall_insert; [done|cbn; lia].
    + exists i. apply lookup_alone. intros i' jb Hj Hne. rewrite list_lookup_insert_ne in Hj by done. by eapply alone_lookup.
Qed.

Lemma read_whole (x : A) n wire : read_message (pieces x (S n) ++ wire) = Some (x, wire).
Proof.
  transitivity (if bool_decide (take (S n) (pieces x (S n) ++ wire) = pieces x (S n)) then Some (x, drop (S n) (pieces x (S n) ++ wire)) else None);
    [reflexivity|].
  rewrite take_app_length', drop_app_length' by (by rewrite pieces_length). by rewrite bool_decide_eq_true_2.
Qed.

(** Whoever reads finds the next message, or the beginning of one. *)
Lemma in_turn_front jobs wire arrived sent :
  in_turn jobs wire arrived sent ->
  (exists x wire', read_message wire = Some (x, wire') /\ in_turn jobs wire' (arrived ++ [x]) sent) \/
  (read_message wire = None /\ pending wire = true).
Proof.
  intros (done & Hw & Hs & Hf & i & Ha). destruct done as [|[x n] done].
  - right. cbn in Hw. destruct (jobs !! i) as [jb|] eqn:Hi.
    + rewrite (written_alone _ _ _ Hi Ha) in Hw. pose proof (Forall_lookup_1 _ _ _ _ Hf Hi) as Hlt.
      destruct jb as [x j n]. cbn in Hlt. unfold written in Hw. cbn [j_at j_msg j_of] in Hw.
      assert (length wire = j) as Hlen by (rewrite Hw, length_take, pieces_length; lia).
      destruct wire as [|[y jy m] wire]; [done|]. assert (y = x /\ m = n) as [-> ->].
      { destruct j as [|j]; [done|]. destruct n as [|n]; [lia|]. cbn in Hw. by injection Hw as -> _ -> _. }
      cbn [read_message pending]. split.
      * rewrite bool_decide_eq_false_2; [done|]. intros Ht. apply (f_equal length) in Ht.
        rewrite length_take, pieces_length in Ht. lia.
      * rewrite Hlen. by apply bool_decide_eq_true_2.
    + pose proof (delete_none _ _ Hi) as Hd.
      apply alone_delete in Ha. rewrite Hd in Ha. rewrite (none_written _ Ha) in Hw. by subst wire.
  - left. cbn [fmap list_fmap concat fst snd] in Hw. rewrite <- app_assoc in Hw.
    set (rest := concat _ ++ concat (written <$> jobs)) in Hw. exists x, rest. split.
    + subst wire. apply read_whole.
    + exists done. split_and!; [done| |done|by exists i]. rewrite Hs. cbn. by rewrite <- app_assoc.
Qed.

Lemma in_turn_not_astray jobs wire arrived sent : in_turn jobs wire arrived sent -> astray wire = false.
Proof.
  unfold astray. intros [(x & w & Hr & _)|[_ ->]]%in_turn_front; [|done]. rewrite Hr.
  rewrite (bool_decide_eq_false_2 (Some (x, w) = None)) by done. by destruct (pending wire).
Qed.

Lemma in_turn_read jobs wire arrived sent x wire' :
  read_message wire = Some (x, wire') -> in_turn jobs wire arrived sent -> in_turn jobs wire' (arrived ++ [x]) sent.
Proof. intros Hr [(y & w & Hr' & Ht)|[Hr' _]]%in_turn_front; rewrite Hr in Hr'; [by injection Hr' as -> ->|done]. Qed.
End wire_order.

(** What is on its way completes what arrived to what was sent, both ways. *)
Record in_order (w : conn_world) : Prop := {
  io_up : exists arrived, as_read <$> arrived = Some <$> (w_handled w ++ option_list (s_ch (w_s w))) /\
    in_turn (k_writing (w_k w)) (w_up w) arrived (w_sent w);
  io_down : in_turn (w_answering w) (w_down w) (w_got w) (w_replied w);
  io_first : s_first (w_s w) = None -> s_ch (w_s w) = None;
}.

(** The bookkeeping of the client: the channel is closed only when the client is marked, and
    never holds more than its capacity. *)
Record client_inv (c : client) : Prop := {
  ci_closed : c_once c = Fresh <-> c_closed c = false;
  ci_done : c_req_closed c = true <-> c_once c = Done;
  ci_room : length (c_req c) <= req_capacity;
}.

Arguments write_piece : simpl never.
Arguments read_message : simpl never.
Arguments astray : simpl never.
Arguments as_read : simpl never.
Arguments enqueue : simpl never.

Ltac perform_cases H :=
  cbn in H; repeat (case_match; try discriminate H); injection H as <-.

Lemma in_order_client c k w : k_writing k = k_writing (w_k w) -> in_order w -> in_order (with_client c k w).
Proof. intros Hk [Hu Hd Hf]. constructor; cbn; [|done|done]. by rewrite Hk. Qed.

Lemma in_order_queue c x n w :
  in_order w -> in_order (with_client c (writing (k_writing (w_k w) ++ [mkJob x 0 (S n)]) (w_k w)) w).
Proof.
  intros [(arr & Ha & Ht) Hd Hf]. constructor; cbn; [|done|done]. exists arr. split; [done|]. by apply in_turn_new.
Qed.

(** A request is read, into the channel or by the receiver. *)
Lemma in_order_take w r up q : in_order w -> s_ch (w_s w) = None -> read_message (w_up w) = Some (r, up) -> as_read r = Some q ->
  forall s qs, qs ++ option_list (s_ch s) = [q] -> (s_first s = None -> s_ch s = None) -> in_order (handle up s qs w).
Proof.
  intros [(arr & Ha & Ht) Hd Hf] Hc Hr Hq s qs Hs Hn. constructor; cbn; [|done|done]. exists (arr ++ [r]). split.
  - rewrite Hc in Ha. cbn in Ha. rewrite app_nil_r in Ha. rewrite fmap_app, Ha, <- app_assoc, Hs, fmap_app. cbn. by rewrite Hq.
  - by eapply in_turn_read.
Qed.

Lemma in_order_step a w w' : orderly a w = true -> perform a w = Some w' -> in_order w -> in_order w'.
Proof.
  intros Ho Hp Hi. pose proof Hi as [(arr & Ha & Ht) Hd Hf]. destruct a; cbn in Ho, Hp.
  - repeat (case_match; try discriminate Hp); injection Hp as <-; try done; by apply in_order_queue.
  - destruct (w_conn_closed w) eqn:Hcl; [done|]. destruct (write_piece _ _ _) as [[[jobs up] dn]|] eqn:Hw; [|done]. injection Hp as <-.
    constructor; cbn; [|done|done]. exists arr. split; [done|]. by eapply in_turn_write.
  - destruct (k_writing (w_k w) !! i); [|done]. injection Hp as <-. constructor; cbn; [|done|done].
    exists arr. split; [done|]. by apply in_turn_fails.
  - injection Hp as <-. apply in_order_client; [|done]. by destruct (c_stream _).
  - repeat (case_match; try discriminate Hp); injection Hp as <-; by apply in_order_client.
  - repeat (case_match; try discriminate Hp); injection Hp as <-; by apply in_order_client.
  - repeat (case_match; try discriminate Hp); injection Hp as <-; by apply in_order_client.
  - repeat (case_match; try discriminate Hp); injection Hp as <-; by apply in_order_client.
  - destruct (read_message (w_down w)) as [[y down]|] eqn:Hr; [|done]. destruct (_ && _); [|done]. injection Hp as <-.
    constructor; cbn; [by exists arr|by eapply in_turn_read|done].
  - rewrite (in_turn_not_astray _ _ _ _ Hd), andb_false_r in Hp. done.
  - destruct (k_reading _); [|done]. injection Hp as <-. apply Nat.eqb_eq in Ho. subst j.
    constructor; cbn; [by exists arr|by rewrite app_nil_r|done].
  - repeat (case_match; try discriminate Hp); injection Hp as <-; by apply in_order_client.
  - repeat (case_match; try discriminate Hp); injection Hp as <-; by apply in_order_client.
  - destruct (_ || _); [|done]. injection Hp as <-. constructor; cbn; [by exists arr|done|done].
  - destruct (s_first (w_s w)) eqn:Hs; [done|]. destruct (read_message (w_up w)) as [[r up]|] eqn:Hr; [|done].
    destruct (as_read r) as [q|] eqn:Hq; [|done]. injection Hp as <-. by eapply in_order_take; eauto.
  - destruct (s_first (w_s w)) as [h|] eqn:Hs; [|done]. destruct (s_ch (w_s w)) as [q|] eqn:Hc.
    + injection Hp as <-. constructor; cbn; [|done|done]. exists arr. split; [|done]. cbn in Ha. by rewrite app_nil_r.
    + destruct (read_message (w_up w)) as [[r up]|] eqn:Hr; [|done].
      destruct (as_read r) as [q|] eqn:Hq; [|done]. injection Hp as <-. eapply in_order_take; eauto. by rewrite Hc.
  - destruct (s_first _); [|done]. destruct (s_ch _); [done|]. by rewrite (in_turn_not_astray _ _ _ _ Ht) in Hp.
  - destruct (s_first _) eqn:Hs; [|done]. destruct (s_ch _) eqn:Hc; [done|]. injection Hp as <-. apply Nat.eqb_eq in Ho. subst j.
    constructor; cbn; [|done|done]. exists arr. by rewrite app_nil_r, Hc.
  - destruct (s_first _) eqn:Hs; [|done]. injection Hp as <-. constructor; cbn; [by exists arr|by apply in_turn_new|by rewrite Hs].
  - destruct (s_first _) eqn:Hs; [|done]. injection Hp as <-. constructor; cbn; [by exists arr|by apply in_turn_new|by rewrite Hs].
  - destruct (write_piece _ _ _) as [[[jobs down] dn]|] eqn:Hw; [|done]. injection Hp as <-.
    constructor; cbn; [by exists arr|by eapply in_turn_write|done].
  - destruct (w_answering w !! i); [|done]. injection Hp as <-. constructor; cbn; [by exists arr|by apply in_turn_fails|done].
Qed.

Lemma in_order_run acts w w' : run acts w = Some w' -> orderly_run acts w = true -> in_order w -> in_order w'.
Proof.
  revert w. induction acts as [|a acts IH]; cbn; intros w Hr Ho Hi; [by injection Hr as <-|].
  destruct (perform a w) as [w1|] eqn:Hp; [|done]. apply andb_true_iff in Ho as [Ho Hos]. eauto using in_order_step.
Qed.

Lemma client_inv_step a w w' : perform a w = Some w' -> client_inv (w_c w) -> client_inv (w_c w').
Proof.
  intros Hp Hi. destruct a; perform_cases Hp; try exact Hi; destruct Hi as [Hc Hd Hr]; try (by constructor).
  - unfold enqueue. destruct (c_reqList (w_c w) ++ _) as [|hd tl]; [by constructor|].
    destruct (Nat.ltb_spec (length (c_req (w_c w))) req_capacity); constructor; cbn; try done.
    rewrite length_app. cbn. lia.
  - constructor; cbn; try done. match goal with H : c_req _ = _ |- _ => rewrite H in Hr end. cbn in Hr. lia.
  - constructor; cbn; try done. match goal with H : c_once _ = _ |- _ => rewrite H in Hd end. destruct Hd as [Hd _].
    split; [|done]. intros Ht. by specialize (Hd Ht).
  - constructor; cbn; try done. match goal with H : c_once _ = _ |- _ => rewrite H in Hc end. split; [done|].
    intros Hx. by apply Hc in Hx.
Qed.

Section runs.
Context (I : conn_world -> Prop) (Q : action -> Prop).
Context (Hstep : forall a w w', Q a -> perform a w = Some w' -> I w -> I w').

Lemma run_inv acts w w' : Forall Q acts -> run acts w = Some w' -> I w -> I w'.
Proof.
  revert w. induction acts as [|a acts IH]; cbn; intros w Hq Hr Hi; [by injection Hr as <-|].
  apply Forall_cons in Hq as [Hq1 Hq]. destruct (perform a w) as [w1|] eqn:Hp; [|done]. eauto.
Qed.
End runs.

Lemma all_actions (acts : list action) : Forall (fun _ => True) acts.
Proof. by apply Forall_true. Qed.

Lemma run_reachable_inv (I : conn_world -> Prop) w :
  (forall stream connClose, I (new_world stream connClose)) ->
  (forall a w w', perform a w = Some w' -> I w -> I w') -> reachable w -> I w.
Proof.
  intros Hn Hs (stream & cc & acts & Hr). apply (run_inv I (fun _ => True)) in Hr; eauto using all_actions.
Qed.

(** C36: in every run in which the senders of a side come one after another and no read or
    write fails that has begun, whatever the pieces in which messages are written and
    however the steps of both sides interleave: the server has handled a prefix of the
    requests that were written, in their order, and the client has received a prefix of
    the answers, in theirs; neither reads what is no message. Nothing in the transport
    keeps senders apart: [senders_mixed_up] is a run in which two of them overlap. *)
Theorem messages_arrive_in_order stream connClose acts w :
  run acts (new_world stream connClose) = Some w -> orderly_run acts (new_world stream connClose) = true ->
  (Some <$> w_handled w) `prefix_of` (as_read <$> w_sent w) /\ w_got w `prefix_of` w_replied w /\
  (forall q j, perform (ServeStray q j) w = None) /\ (forall y j, perform (ReadStray y j) w = None).
Proof.
  intros Hr Ho. assert (in_order w) as [(arr & Ha & Ht) Hd _].
  { eapply in_order_run; [exact Hr|exact Ho|]. constructor; cbn; [exists []; split; [done|]| |done];
      (exists []; split_and!; [done|done|by apply Forall_nil|by exists 0]). }
  pose proof (in_turn_not_astray _ _ _ _ Ht) as Hau. pose proof (in_turn_not_astray _ _ _ _ Hd) as Had.
  destruct Ht as (dn & _ & -> & _). destruct Hd as (dn' & _ & -> & _). split_and!.
  - rewrite fmap_app, Ha, fmap_app, <- app_assoc. by eexists.
  - by eexists.
  - intros q j. cbn. rewrite Hau. by repeat case_match.
  - intros y j. cbn. by rewrite Had, andb_false_r.
Qed.

Lemma reachable_client_inv w : reachable w -> client_inv (w_c w).
Proof.
  apply (run_reachable_inv (fun w => client_inv (w_c w))).
  - intros stream cc. constructor; cbn; [done|split; intros [=]|unfold req_capacity; lia].
  - intros. by eapply client_inv_step.
Qed.

(** Whatever the interleaving of senders, receivers and closers, a sender that finds the
    client open under the lock finds the channel open, so that it does not panic, and the
    channel never has more than its hundred requests. *)
Theorem send_never_panics w :
  reachable w -> (c_closed (w_c w) = false -> c_req_closed (w_c w) = false) /\ length (c_req (w_c w)) <= req_capacity.
Proof.
  intros Hr. destruct (reachable_client_inv w Hr) as [Hc Hd Hl]. split; [|done].
  intros Hn. apply Hc in Hn. destruct (c_req_closed (w_c w)); [|done]. destruct Hd as [Hd _]. rewrite Hn in Hd. by specialize (Hd eq_refl).
Qed.

(** ** Requests beyond the capacity *)

(** A receiver waits, the channel is empty and requests are left in the list. *)
Record starved (w : conn_world) : Prop := {
  sv_stream : c_stream (w_c w) = false;
  sv_req : c_req (w_c w) = [];
  sv_list : c_reqList (w_c w) <> [];
  sv_open : c_req_closed (w_c w) = false;
  sv_waiting : 0 < k_waiting (w_k w);
  sv_holding : k_holding (w_k w) = 0;
  sv_reading : k_reading (w_k w) = false;
}.

Definition quiet (a : action) : Prop := match a with Queue _ _ _ | CloseReq => False | _ => True end.

Lemma starved_step a w w' : quiet a -> perform a w = Some w' -> starved w -> starved w' /\ w_got w' = w_got w.
Proof.
  intros Hq Hp [H1 H2 H3 H4 H5 H6 H7]. destruct a; try done; perform_cases Hp; rewrite ?H1, ?H2, ?H4, ?H6, ?H7 in *; try discriminate;
    try (split; [constructor; cbn; rewrite ?H1, ?H2, ?H4, ?H6, ?H7; try done; lia|done]).
  all: repeat match goal with H : _ && _ = true |- _ => apply andb_true_iff in H as [? ?] end; try congruence.
Qed.

(** When the answers have come for the hundred requests the channel holds, those for the
    requests in the list are not received: until another request is sent, or the client
    closed, a receiver waits although its answer is there. *)
Theorem overflow_starves acts w w' :
  starved w -> Forall quiet acts -> run acts w = Some w' -> starved w' /\ w_got w' = w_got w.
Proof.
  intros Hs Hq Hr. apply (run_inv (fun x => starved x /\ w_got x = w_got w) quiet) in Hr; try done.
  intros a x x' Ha Hp [Hx Hg]. rewrite <- Hg. by eapply starved_step.
Qed.

(** ** Closing *)
Definition no_answer (a : action) : Prop := match a with ReadRsp | ReadStray _ _ | ReadFails _ => False | _ => True end.

(** A receiver reads and nobody has closed. *)
Record reading (w : conn_world) : Prop := {
  rd_stream : c_stream (w_c w) = false;
  rd_once : c_once (w_c w) = Fresh;
  rd_lock : k_reading (w_k w) = true;
  rd_conn : w_conn_closed w = false;
}.

Lemma reading_step a w w' : no_answer a -> perform a w = Some w' -> reading w -> reading w'.
Proof.
  intros Hn Hp [H1 H2 H3 H4]. destruct a; try done; perform_cases Hp; unfold lock_free in *; rewrite ?H1, ?H2, ?H3, ?H4 in *;
    try discriminate; try (by constructor).
  all: repeat match goal with H : negb _ && _ = true |- _ => apply andb_true_iff in H as [? ?] end; try discriminate.
Qed.

(** Closing a client that is not a stream waits for the receiver that reads: as long as
    the server neither answers nor fails nothing that happens closes the connection, and a
    caller of [Close] waits, without end where there is no timeout. *)
Theorem close_waits acts w w' :
  reading w -> Forall no_answer acts -> run acts w = Some w' ->
  reading w' /\ perform CloseLock w' = None /\ perform CloseConn w' = None.
Proof.
  intros Hs Hq Hr. apply (run_inv reading no_answer) in Hr; [|eauto using reading_step|done|done].
  split; [done|]. destruct Hr as [H1 H2 H3 H4]. cbn. unfold lock_free. rewrite H1, H2, H3. done.
Qed.

(** A stream is closed in every reachable state, by steps of the closer and, when a
    receiver reads, the end of its reading. *)
Theorem stream_closes w :
  reachable w -> c_stream (w_c w) = true -> exists acts w', run acts w = Some w' /\
    Forall (fun a => a ∈ [CloseConn; ReadFails 0; CloseLock; CloseReq]) acts /\ w_conn_closed w' = true /\ c_req_closed (w_c w') = true.
Proof.
  intros Hr Hs. destruct (reachable_client_inv w Hr) as [Hc Hd _].
  exists ([CloseConn] ++ (if k_reading (w_k w) then [ReadFails 0] else []) ++
    match c_once (w_c w) with Fresh => [CloseLock; CloseReq] | Running => [CloseReq] | Done => [] end).
  destruct w as [[st cc cl rq rc rl on] [kw kh kr kq] up down cn sk an se ha re go]. cbn in Hs, Hc, Hd |- *. subst st.
  destruct on, kr; cbn; (eexists; split; [reflexivity|]); (split; [repeat (apply Forall_cons_2; [set_solver|]); apply Forall_nil_2|]);
    (split; [done|]); cbn; try done; by apply Hd.
Qed.

(** ** HTTP/2 *)

(** What a sequence of receives gives, each into an empty message. *)
Fixpoint receive_h2 (BuffSizeH2 : Z) (ns : list nat) (z : h2_socket) : outcome string (h2_socket * list string) :=
  match ns with
  | [] => Ret (z, [])
  | n :: ns =>
      zm <-! recvHTTP2 BuffSizeH2 n z MemTransport.zero_message;
      zs <-! receive_h2 BuffSizeH2 ns zm.1;
      Ret (zs.1, m_Body zm.2 :: zs.2)
  end.

(** The pieces in which the body of a request is received make up the body, whatever
    messages the other end had put into it. *)
Theorem h2_pieces s ns z z' bodies :
  receive_h2 s ns z = Ret (z', bodies) -> z_unread z = String.concat "" bodies +:+ z_unread z'.
Proof.
  revert z bodies. induction ns as [|n ns IH]; intros z bodies; cbn [receive_h2]; [by intros [= <- <-]|].
  destruct (recvHTTP2 s n z MemTransport.zero_message) as [[z1 m1]|e|] eqn:Hr; cbn [outcome_bind fst snd]; try done.
  destruct (receive_h2 s ns z1) as [[z2 bs]|e|] eqn:Hz; cbn [outcome_bind]; try done. cbn [fst snd]. intros [= <- <-].
  apply IH in Hz. rewrite GoIO.concat_str_cons, str_app_assoc, <- Hz. unfold recvHTTP2 in Hr.
  destruct (z_closed z); [done|]. destruct (_ <? 0)%Z; [done|]. destruct (String.eqb (z_unread z) ""); [done|].
  injection Hr as <- <-. set (k := Nat.min n _). cbn [z_unread]. destruct k as [|k]; [done|].
  cbn [Nat.ltb Nat.leb MemTransport.m_Body]. by rewrite str_take_drop.
Qed.

(** The headers that go out are those of the first message that is sent. *)
Theorem h2_later_headers_lost o werr z m h : z_sent z = Some h -> z_sent (sendHTTP2 o werr z m).1 = Some h.
Proof. intros Hz. unfold sendHTTP2. destruct (z_closed z); [done|]. cbn. by rewrite Hz. Qed.

(** ** Proxies *)

(** Dialing through a proxy: a proxy that answers with another status than 200 makes
    [Dial] panic, since closing the body of its answer takes the error away; it gives a
    client just when the proxy answers with 200. *)
Theorem Dial_proxy {C} getURL dial write read base64 stream connClose addr p (c : C) status :
  getURL addr = inr (Some p) -> dial (x_Host p) = inr c -> write c addr (connect_header base64 p) = None ->
  read c = inr (status, None) ->
  Dial getURL dial write read base64 stream connClose addr =
    if (status =? 200)%Z then Ret (c, new_world stream connClose) else Panic.
Proof.
  intros Hu Hd Hw Hr. unfold Dial, newConn. rewrite Hu, Hd. unfold proxyDial. rewrite Hw, Hr. by destruct (status =? 200)%Z.
Qed.

(** Without a proxy [Dial] gives a client for every connection that is made. *)
Theorem Dial_direct {C} getURL (dial : string -> string + C) write read base64 stream connClose addr :
  getURL addr = inr None ->
  Dial getURL dial write read base64 stream connClose addr =
    match dial addr with inl err => Fail err | inr c => Ret (c, new_world stream connClose) end.
Proof. intros Hu. unfold Dial, newConn. rewrite Hu. by destruct (dial addr). Qed.

(** ** Examples and witnesses *)
Definition run_from (acts : list action) (w : conn_world) : conn_world := default w (run acts w).

Lemma run_from_ok acts w : match run acts w with Some _ => true | None => false end = true -> run acts w = Some (run_from acts w).
Proof. unfold run_from. by destruct (run acts w). Defined.

Definition ex_msg : Message := mkMessage {["Content-Type" := "application/json"]} "{}".

Lemma ex_plain : plain_keys (m_Header ex_msg).
Proof. apply map_Forall_singleton. split; reflexivity. Defined.

Lemma request_carried_witness :
  exists h b, as_read (new_request order_id false ex_msg) = Some (h, b) /\
  m_Body (received h b MemTransport.zero_message) = "{}" /\
  m_Header (received h b MemTransport.zero_message) !! "Content-Type" = Some "application/json".
Proof.
  exact (request_carried order_id false ex_msg MemTransport.zero_message "Content-Type" ex_plain
    ltac:(vm_compute; reflexivity) ltac:(apply (bool_decide_eq_true_1 _); reflexivity)).
Defined.

Lemma reply_carried_witness :
  exists msg', finish_recv (inr (whole (sendHTTP1 order_id {["Authorization" := ["secret"]]} ex_msg))) MemTransport.zero_message
    = (None, msg') /\ m_Body msg' = "{}" /\ m_Header msg' !! "Authorization" = Some "secret".
Proof.
  exact (reply_carried order_id {["Authorization" := ["secret"]]} ex_msg MemTransport.zero_message "Authorization" ex_plain
    ltac:(discriminate) ltac:(apply (bool_decide_eq_true_1 _); reflexivity)).
Defined.

(** Two requests, the first in three pieces, the answer in two; the second is on its way
    when the answer comes. *)
Definition ex_exchange : list action :=
  [Queue order_id ex_msg 2; WriteReq 0; Queue order_id MemTransport.zero_message 0; WriteReq 0; WriteReq 0; Accept; Serve; WriteReq 0;
   Reply order_id ex_msg 1; WriteRsp 0; Recv; TakeReq; RecvLock; WriteRsp 0; ReadRsp].

Definition ex_done : conn_world := run_from ex_exchange (new_world false false).

Lemma ex_done_reachable : reachable ex_done.
Proof. exists false, false, ex_exchange. apply run_from_ok. vm_compute. reflexivity. Defined.

Lemma messages_arrive_in_order_witness :
  ((Some <$> w_handled ex_done) `prefix_of` (as_read <$> w_sent ex_done) /\ w_got ex_done `prefix_of` w_replied ex_done /\
   (forall q j, perform (ServeStray q j) ex_done = None) /\ (forall y j, perform (ReadStray y j) ex_done = None)) /\
  length (w_sent ex_done) = 2 /\ length (w_handled ex_done) = 1 /\ length (w_got ex_done) = 1.
Proof.
  split; [|split_and!; vm_compute; reflexivity].
  apply (messages_arrive_in_order false false ex_exchange ex_done).
  - apply run_from_ok. vm_compute. reflexivity.
  - vm_compute. reflexivity.
Defined.

(** Two senders at once: the pieces of their requests are mixed up, and what the server
    handles may be nobody's. *)
Definition ex_overlap : list action :=
  [Queue order_id ex_msg 0; WriteReq 0; Accept; Serve;
   Queue order_id ex_msg 1; Queue order_id MemTransport.zero_message 1; WriteReq 0; WriteReq 1; WriteReq 0; WriteReq 0;
   ServeStray (∅, "nobody's") 4].

Example senders_mixed_up :
  let w := run_from ex_overlap (new_world true false) in
  run ex_overlap (new_world true false) = Some w /\ length (w_sent w) = 3 /\ w_handled w !! 1 = Some (∅, "nobody's") /\ w_up w = [].
Proof. split; [apply run_from_ok; vm_compute; reflexivity|]. split_and!; vm_compute; reflexivity. Qed.

Lemma send_never_panics_witness :
  (c_closed (w_c ex_done) = false -> c_req_closed (w_c ex_done) = false) /\ length (c_req (w_c ex_done)) <= req_capacity.
Proof. exact (send_never_panics ex_done ex_done_reachable). Defined.

(** A hundred and one requests are sent and answered, a hundred answers received. *)
Definition ex_flood : list action :=
  concat (repeat [Queue order_id MemTransport.zero_message 0; WriteReq 0] 101) ++ [Accept] ++
  concat (repeat [Serve; Reply order_id MemTransport.zero_message 0; WriteRsp 0] 101) ++
  concat (repeat [Recv; TakeReq; RecvLock; ReadRsp] 100) ++ [Recv].

Definition ex_starved : conn_world := run_from ex_flood (new_world false false).

Lemma overflow_starves_witness :
  reachable ex_starved /\ length (w_down ex_starved) = 1 /\
  starved (run_from [Recv; CloseLock] ex_starved) /\ w_got (run_from [Recv; CloseLock] ex_starved) = w_got ex_starved.
Proof.
  split; [exists false, false, ex_flood; apply run_from_ok; vm_compute; reflexivity|]. split; [vm_compute; reflexivity|].
  apply (overflow_starves [Recv; CloseLock] ex_starved).
  - assert (length (c_reqList (w_c ex_starved)) = 1) as Hl by (vm_compute; reflexivity).
    apply Build_starved; [vm_compute; reflexivity|vm_compute; reflexivity| |vm_compute; reflexivity|vm_compute; apply le_n
      |vm_compute; reflexivity|vm_compute; reflexivity].
    intros Hn. rewrite Hn in Hl. discriminate Hl.
  - repeat (apply Forall_cons_2; [exact I|]). apply Forall_nil_2.
  - apply run_from_ok. vm_compute. reflexivity.
Defined.

Definition ex_reading : conn_world :=
  run_from [Queue order_id ex_msg 0; WriteReq 0; Recv; TakeReq; RecvLock] (new_world false false).

Lemma close_waits_witness :
  reading (run_from [Accept; Serve; Recv] ex_reading) /\ perform CloseLock (run_from [Accept; Serve; Recv] ex_reading) = None /\
  perform CloseConn (run_from [Accept; Serve; Recv] ex_reading) = None.
Proof.
  apply (close_waits [Accept; Serve; Recv] ex_reading).
  - constructor; vm_compute; reflexivity.
  - repeat (apply Forall_cons_2; [exact I|]). apply Forall_nil_2.
  - apply run_from_ok. vm_compute. reflexivity.
Defined.

Lemma Dial_proxy_witness :
  Dial (fun _ => inr (Some (mkProxy "proxy:3128" (Some ("u", "p"))))) (fun a => inr a) (fun _ _ _ => None)
    (fun _ => inr (407%Z, None)) id false false "10.0.0.1:80" = Panic.
Proof.
  exact (Dial_proxy _ (fun a : string => inr a) _ _ id false false "10.0.0.1:80" (mkProxy "proxy:3128" (Some ("u", "p")))
    "proxy:3128" 407%Z eq_refl eq_refl eq_refl eq_refl).
Defined.
