(* ===== verification/FileTransfer.v ===== *)
(** * File transfer: [util/file/handler.go], [util/file/client.go], [util/file/file.go]

    A handler keeps open files in sessions; a client reads and writes them in blocks. Files
    are lists of bytes under their cleaned paths. Which paths are directories, and which
    cannot be opened or looked at, are arguments; calls go from the client to the handler
    without a network. The size of a block is an argument of the client's functions, the
    code's is [blockSize]. *)
From S2P Require Import Prelude GoStrings.
From S2P Require GoPath.

Notation file := (list ascii).

Definition zero_byte : ascii := "000".

(** [os.File.WriteAt]: a gap is filled with zeros. *)
Definition write_at (off : nat) (d f : file) : file :=
  match d with
  | [] => f
  | _ => take off f ++ replicate (off - length f) zero_byte ++ d ++ drop (off + length d) f
  end.

(** ** Sessions *)
Record session := mkSession { ss_files : gmap Z string; ss_counter : Z }.

Definition NewSession : session := mkSession ∅ 0.

Definition Add (path : string) (s : session) : session * Z :=
  let n := wrap64 (ss_counter s + 1) in (mkSession (<[n := path]> (ss_files s)) n, n).

Definition Get (id : Z) (s : session) : option string := ss_files s !! id.

Definition Delete (id : Z) (s : session) : session := mkSession (delete id (ss_files s)) (ss_counter s).

Definition Len (s : session) : nat := size (ss_files s).

(** ** The handler *)
Record handler := mkHandler { h_readDir : string; h_session : session; h_disk : gmap string file }.

Definition NewHandler (readDir : string) (disk : gmap string file) : handler := mkHandler readDir NewSession disk.

Definition on_disk (h : handler) (filename : string) : string := GoPath.Join [h_readDir h; filename].

Definition with_session (s : session) (h : handler) : handler := mkHandler (h_readDir h) s (h_disk h).

Record StatResponse := mkStat { st_Type : string; st_Size : Z }.
Record ReadResponse := mkRead { rr_Size : Z; rr_Data : file; rr_Eof : bool }.

Section disk.
Context (is_dir : string -> bool) (broken : string -> option string).

(** [os.OpenFile] with [O_CREATE]. *)
Definition handler_Open (filename : string) (truncate : bool) (h : handler) : handler * (string + Z) :=
  let path := on_disk h filename in
  match broken path with
  | Some err => (h, inl err)
  | None =>
      if is_dir path then (h, inl ("open " +:+ path +:+ ": is a directory"))
      else
        let f := if truncate then [] else default [] (h_disk h !! path) in
        let '(s, id) := Add path (h_session h) in
        (mkHandler (h_readDir h) s (<[path := f]> (h_disk h)), inr id)
  end.

Definition handler_Close (id : Z) (h : handler) : handler := with_session (Delete id (h_session h)) h.

(** Only a file that does not exist is an error; any other leaves the file's information
    nil. *)
Definition handler_Stat (filename : string) (h : handler) : outcome string StatResponse :=
  let path := on_disk h filename in
  match broken path with
  | Some _ => Panic
  | None =>
      if is_dir path then Ret (mkStat "Directory" 0)
      else match h_disk h !! path with
           | None => Fail ("stat " +:+ path +:+ ": no such file or directory")
           | Some f => Ret (mkStat "File" (Z.of_nat (length f)))
           end
  end.

Definition handler_Read (id offset size : Z) (h : handler) : outcome string ReadResponse :=
  match Get id (h_session h) with
  | None => Fail "You must call open first."
  | Some path =>
      if (size <? 0)%Z then Panic
      else if (offset <? 0)%Z then Fail "negative offset"
      else
        let data := take (Z.to_nat size) (drop (Z.to_nat offset) (default [] (h_disk h !! path))) in
        Ret (mkRead (Z.of_nat (length data)) data (bool_decide (Z.of_nat (length data) < size)%Z))
  end.

Definition handler_Write (id offset : Z) (data : file) (h : handler) : outcome string handler :=
  match Get id (h_session h) with
  | None => Fail "You must call open first."
  | Some path =>
      if (offset <? 0)%Z then Fail "negative offset"
      else Ret (mkHandler (h_readDir h) (h_session h)
             (<[path := write_at (Z.to_nat offset) data (default [] (h_disk h !! path))]> (h_disk h)))
  end.

(** ** The client *)
Definition blockSize : Z := 512 * 1024.

(** The data with whether the end was reached, which is the error [io.EOF]. No data comes as
    nil, and as many bytes as were asked for are made; they are cut to the size that was
    read. *)
Definition ReadAt (id offset size : Z) (h : handler) : outcome string (file * bool) :=
  rsp <-! handler_Read id offset size h;
  let data := match rr_Data rsp with [] => replicate (Z.to_nat size) zero_byte | d => d end in
  Ret (if bool_decide (size <> rr_Size rsp) then take (Z.to_nat (rr_Size rsp)) data else data, rr_Eof rsp).

(** [Read] into a buffer: what is in the buffer, and how many bytes. *)
Definition Read (id : Z) (buf : file) (h : handler) : outcome string (file * nat) :=
  match ReadAt id 0 (Z.of_nat (length buf)) h with
  | Ret (b, false) => Ret (take (length buf) b ++ drop (length b) buf, length b)
  | Ret (_, true) => Fail "EOF"
  | Fail err => Fail err
  | Panic => Panic
  end.

Section client.
Context (bs : nat).

Definition GetBlock (id blockId : Z) (h : handler) : outcome string (file * bool) :=
  ReadAt id (blockId * Z.of_nat bs) (Z.of_nat bs) h.

(** The loop of [Upload]: [part] is kept from block to block, and all of it is sent;
    [rest] is what is left of the local file. *)
Fixpoint upload_loop (fuel : nat) (id : Z) (offset : nat) (part rest : file) (h : handler) : handler * outcome string unit :=
  match fuel, rest with
  | _, [] => (h, Ret tt)
  | 0, _ => (h, Ret tt)
  | S fuel, _ =>
      let count := Nat.min bs (length rest) in
      let part := take count rest ++ drop count part in
      match handler_Write id (Z.of_nat offset) part h with
      | Ret h => upload_loop fuel id (offset + count) part (drop count rest) h
      | Fail err => (h, Fail err)
      | Panic => (h, Panic)
      end
  end.

(** [local] is what opening the local file gives. Without a session the identifier that is
    closed is 0. *)
Definition Upload (filename : string) (local : string + file) (h : handler) : handler * outcome string unit :=
  match local with
  | inl err => (h, Fail err)
  | inr f =>
      match handler_Open filename true h with
      | (h, inl err) => (handler_Close 0 h, Fail err)
      | (h, inr id) =>
          let '(h, r) := upload_loop (length f) id 0 (replicate bs zero_byte) f h in
          (handler_Close id h, r)
      end
  end.

(** The loop of [DownloadAt]: [n] blocks are left, from block [i]; [save] is the local file. *)
Fixpoint download_loop (n : nat) (i id : Z) (h : handler) (save : file) : file * outcome string unit :=
  match n with
  | 0 => (save, Ret tt)
  | S n =>
      match GetBlock id i h with
      | Fail err => (save, Fail err)
      | Panic => (save, Panic)
      | Ret (buf, eof) =>
          if (i <? 0)%Z then (save, Fail "negative offset")
          else
            let save := write_at (Z.to_nat (i * Z.of_nat bs)) buf save in
            if eof then (save, Ret tt) else download_loop n (i + 1) id h save
      end
  end.

Definition block_count (size : Z) : Z :=
  (size / Z.of_nat bs + (if (size mod Z.of_nat bs =? 0)%Z then 0 else 1))%Z.

(** [save] is the local file: an error when it cannot be opened, and what is in it
    otherwise, nothing when it is made. *)
Definition DownloadAt (filename : string) (save : string + file) (blockId : Z) (h : handler) :
    handler * (string + file) * outcome string unit :=
  match handler_Stat filename h with
  | Fail err => (h, save, Fail err)
  | Panic => (h, save, Panic)
  | Ret stat =>
      if String.eqb (st_Type stat) "Directory" then (h, save, Fail (filename +:+ " is directory"))
      else
        match save with
        | inl err => (h, save, Fail err)
        | inr f =>
            match handler_Open filename false h with
            | (h, inl err) => (h, save, Fail err)
            | (h, inr id) =>
                match download_loop (Z.to_nat (block_count (st_Size stat) - blockId)) blockId id h f with
                | (f, Ret _) => (handler_Close id h, inr f, Ret tt)
                | (f, r) => (h, inr f, r)
                end
            end
        end
  end.

Definition Download (filename : string) (save : string + file) (h : handler) :
    handler * (string + file) * outcome string unit :=
  DownloadAt filename save 0 h.
End client.

(** [Exists], with the error of looking at the path that is not that it does not exist. *)
Definition Exists (h : handler) (path : string) : outcome string bool :=
  match broken path with
  | Some err => Fail err
  | None => Ret (is_dir path || bool_decide (is_Some (h_disk h !! path)))
  end.
End disk.

(** ** Writing at an offset *)
Lemma write_at_end d f : write_at (length f) d f = f ++ d.
Proof.
  destruct d as [|b d]; [by rewrite app_nil_r|]. unfold write_at. rewrite take_ge by lia. rewrite Nat.sub_diag.
  rewrite (drop_ge f) by (cbn; lia). by rewrite app_nil_r.
Qed.

Definition padded (off : nat) (f : file) : file := take off f ++ replicate (off - length f) zero_byte.

Lemma length_padded off f : length (padded off f) = off.
Proof. unfold padded. rewrite length_app, length_take, length_replicate. lia. Qed.

Lemma write_at_eq off d f : d <> [] -> write_at off d f = padded off f ++ d ++ drop (off + length d) f.
Proof. destruct d; [done|]. intros _. unfold write_at, padded. by rewrite <- app_assoc. Qed.

(** Two writes one after the other are one. *)
Lemma write_at_append off d1 d2 f : d1 <> [] -> write_at (off + length d1) d2 (write_at off d1 f) = write_at off (d1 ++ d2) f.
Proof.
  intros Hd1. destruct (decide (d2 = [])) as [->|Hd2]; [by rewrite app_nil_r|].
  rewrite !write_at_eq by (done || by destruct d1). pose proof (length_padded off f) as Hl. set (pre := padded off f) in *.
  set (rest := drop (off + length d1) f). rewrite (app_assoc pre d1 rest).
  assert (length (pre ++ d1) = off + length d1) as Hpd by (rewrite length_app; lia).
  assert (padded (off + length d1) ((pre ++ d1) ++ rest) = pre ++ d1) as ->.
  { unfold padded. rewrite take_app_le, take_ge by lia. rewrite length_app.
    replace (off + length d1 - _) with 0 by lia. cbn. by rewrite app_nil_r. }
  rewrite drop_app_ge by lia. rewrite Hpd. subst rest. rewrite drop_drop, <- !app_assoc. do 4 f_equal.
  rewrite length_app. lia.
Qed.

Lemma write_at_start d f : write_at 0 d f = d ++ drop (length d) f.
Proof. by destruct d. Qed.

(** ** Reading *)
Lemma ReadAt_spec id off size h path f :
  Get id (h_session h) = Some path -> h_disk h !! path = Some f ->
  ReadAt id (Z.of_nat off) (Z.of_nat size) h =
    Ret (take size (drop off f), bool_decide (length (take size (drop off f)) < size)).
Proof.
  intros Hg Hf. unfold ReadAt, handler_Read. rewrite Hg, Hf. change (default [] (Some f)) with f.
  destruct (Z.ltb_spec (Z.of_nat size) 0) as [|_]; [lia|]. destruct (Z.ltb_spec (Z.of_nat off) 0) as [|_]; [lia|].
  rewrite !Nat2Z.id. set (d := take size (drop off f)). cbn [outcome_bind rr_Size rr_Data rr_Eof].
  assert (length d <= size) as Hl by (subst d; rewrite length_take; lia). f_equal. f_equal.
  - rewrite Nat2Z.id. case_bool_decide as Hs.
    + destruct d as [|a d'] eqn:Hd; [done|]. by rewrite take_ge by done.
    + destruct d as [|a d'] eqn:Hd; [|done]. cbn in Hs. assert (size = 0) as -> by lia. done.
  - apply bool_decide_ext. lia.
Qed.

(** ** Uploading *)
Section upload.
Context (is_dir : string -> bool) (broken : string -> option string) (bs : nat) (Hbs : 0 < bs).

Definition put_file (path : string) (f : file) (h : handler) : handler :=
  mkHandler (h_readDir h) (h_session h) (<[path := f]> (h_disk h)).

(** What the loop adds: the rest of the local file, filled up to whole blocks. *)
Lemma upload_loop_spec fuel id path f part rest h :
  length part = bs -> Get id (h_session h) = Some path -> h_disk h !! path = Some f -> length rest <= fuel ->
  exists pad, upload_loop bs fuel id (length f) part rest h = (put_file path (f ++ rest ++ pad) h, Ret tt) /\
    length pad < bs /\ length (rest ++ pad) mod bs = 0.
Proof.
  revert f part rest h. induction fuel as [|fuel IH]; intros f part rest h Hp Hg Hf Hr.
  { destruct rest; [|cbn in Hr; lia]. exists []. split; [|split; [cbn; lia|by apply Nat.Div0.mod_0_l]].
    rewrite app_nil_r. unfold put_file. rewrite insert_id by done. by destruct h. }
  destruct rest as [|b rest'].
  { exists []. split; [|split; [cbn; lia|by apply Nat.Div0.mod_0_l]]. rewrite app_nil_r. unfold put_file. rewrite insert_id by done. by destruct h. }
  cbn [upload_loop]. set (rest := b :: rest') in *. assert (0 < length rest) as Hpos by (subst rest; cbn; lia). clearbody rest.
  set (count := Nat.min bs (length rest)). set (part' := take count rest ++ drop count part).
  assert (length part' = bs) as Hp' by (subst part' count; rewrite length_app, length_take, length_drop; lia).
  unfold handler_Write. rewrite Hg, Hf. destruct (Z.ltb_spec (Z.of_nat (length f)) 0) as [|_]; [lia|].
  rewrite Nat2Z.id. change (default [] (Some f)) with f. rewrite write_at_end. fold (put_file path (f ++ part') h).
  destruct (decide (length rest <= bs)) as [Hle|Hgt].
  - exists (drop (length rest) part). assert (count = length rest) as Hc by (subst count; lia).
    rewrite (drop_ge rest) by lia. assert (forall n o p x, upload_loop bs n id o p [] x = (x, Ret tt)) as He by (intros []; done).
    rewrite He. subst part'. rewrite Hc, (take_ge rest) by done. split; [done|]. rewrite length_app, length_drop.
    split; [lia|]. replace (length rest + (length part - length rest)) with bs by lia. apply Nat.Div0.mod_same.
  - assert (count = bs) as Hc by (subst count; lia). assert (part' = take bs rest) as Hpart.
    { subst part'. rewrite Hc, (drop_ge part) by lia. by rewrite app_nil_r. }
    replace (length f + count) with (length (f ++ part')) by (rewrite length_app; lia).
    destruct (IH (f ++ part') part' (drop count rest) (put_file path (f ++ part') h)) as (pad & Hu & Hpl & Hmod); [done|done| |..].
    { cbn. by rewrite lookup_insert_eq. }
    { rewrite length_drop. lia. }
    exists pad. rewrite Hu. split.
    + unfold put_file. cbn. rewrite insert_insert_eq. rewrite Hpart, Hc. do 3 f_equal.
      rewrite <- !app_assoc. f_equal. rewrite app_assoc, take_drop. done.
    + split; [done|]. rewrite Hc in Hmod. rewrite length_app, length_drop in Hmod. rewrite length_app.
      replace (length rest + length pad) with ((length rest - bs + length pad) + 1 * bs) by lia. by rewrite Nat.Div0.mod_add.
Qed.

(** What an upload leaves on the handler's disk. *)
Lemma Upload_result filename f h :
  broken (on_disk h filename) = None -> is_dir (on_disk h filename) = false ->
  exists pad h', Upload is_dir broken bs filename (inr f) h = (h', Ret tt) /\
    length pad < bs /\ length (f ++ pad) mod bs = 0 /\
    h_readDir h' = h_readDir h /\ h_disk h' = <[on_disk h filename := f ++ pad]> (h_disk h).
Proof.
  intros Hb Hd. unfold Upload, handler_Open. rewrite Hb, Hd. destruct (Add (on_disk h filename) (h_session h)) as [s id] eqn:Ha.
  set (h1 := mkHandler _ s _). assert (Get id (h_session h1) = Some (on_disk h filename)) as Hg.
  { unfold Add in Ha. injection Ha as <- <-. unfold Get. cbn. by rewrite lookup_insert_eq. }
  destruct (upload_loop_spec (length f) id (on_disk h filename) [] (replicate bs zero_byte) f h1) as (pad & Hu & Hp & Hm);
    [by rewrite length_replicate|done|cbn; by rewrite lookup_insert_eq|done|].
  cbn [length] in Hu. rewrite Hu. eexists pad, _. split; [reflexivity|]. split; [done|]. split; [done|]. split; [done|].
  cbn. by rewrite insert_insert_eq.
Qed.

(** ** Downloading *)
Lemma download_loop_spec n k id h path f save :
  Get id (h_session h) = Some path -> h_disk h !! path = Some f ->
  length f <= (k + n) * bs -> (0 < n -> (k + n - 1) * bs < length f) ->
  download_loop bs n (Z.of_nat k) id h save = (write_at (k * bs) (drop (k * bs) f) save, Ret tt).
Proof.
  intros Hg Hf. revert k save. induction n as [|n IH]; intros k save Hle Hlt.
  { rewrite drop_ge by lia. done. }
  cbn [download_loop]. unfold GetBlock. rewrite <- Nat2Z.inj_mul, (ReadAt_spec id (k * bs) bs h path f) by done.
  destruct (Z.ltb_spec (Z.of_nat k) 0) as [|_]; [lia|]. rewrite Nat2Z.id.
  set (buf := take bs (drop (k * bs) f)). assert (length buf = Nat.min bs (length f - k * bs)) as Hbuf
    by (subst buf; by rewrite length_take, length_drop).
  case_bool_decide as Heof.
  - assert (buf = drop (k * bs) f) as -> by (subst buf; apply take_ge; rewrite length_drop; lia). done.
  - assert (length buf = bs) as Hb by lia. replace (Z.of_nat k + 1)%Z with (Z.of_nat (S k)) by lia.
    rewrite IH; [|lia|intros; lia]. f_equal.
    replace (S k * bs) with (k * bs + length buf) by lia.
    rewrite write_at_append by (intros Hn; rewrite Hn in Hb; cbn in Hb; lia). f_equal.
    rewrite <- (drop_drop f (length buf) (k * bs)). subst buf. rewrite Hb. by rewrite take_drop.
Qed.

Lemma block_count_bounds (f : file) : let b := block_count bs (Z.of_nat (length f)) in
  (0 <= b)%Z /\ length f <= Z.to_nat b * bs /\ (0 < Z.to_nat b -> (Z.to_nat b - 1) * bs < length f).
Proof.
  cbn zeta. unfold block_count. pose proof (Z.div_mod (Z.of_nat (length f)) (Z.of_nat bs) ltac:(lia)) as Hdm.
  pose proof (Z.mod_pos_bound (Z.of_nat (length f)) (Z.of_nat bs) ltac:(lia)) as Hmb.
  pose proof (Z.div_pos (Z.of_nat (length f)) (Z.of_nat bs) ltac:(lia) ltac:(lia)) as Hdp.
  set (q := (Z.of_nat (length f) / Z.of_nat bs)%Z) in *. set (r := (Z.of_nat (length f) mod Z.of_nat bs)%Z) in *.
  destruct (Z.eqb_spec r 0) as [Hr|Hr]; (split; [lia|]); split; try intros; nia.
Qed.

(** Downloading a file into a local one: the local file has what the file has, and
    behind it whatever it had there before; the session is closed, and nothing changes on
    the handler's disk. *)
Theorem Download_spec filename f l h :
  broken (on_disk h filename) = None -> is_dir (on_disk h filename) = false -> h_disk h !! on_disk h filename = Some f ->
  exists h', Download is_dir broken bs filename (inr l) h = (h', inr (f ++ drop (length f) l), Ret tt) /\ h_disk h' = h_disk h.
Proof.
  intros Hb Hd Hf. unfold Download, DownloadAt, handler_Stat. rewrite Hb, Hd, Hf. cbn [st_Type st_Size]. cbn [String.eqb Ascii.eqb Bool.eqb].
  unfold handler_Open. rewrite Hb, Hd, Hf. destruct (Add (on_disk h filename) (h_session h)) as [s id] eqn:Ha.
  change (default [] (Some f)) with f. set (h1 := mkHandler _ s _). assert (Get id (h_session h1) = Some (on_disk h filename)) as Hg.
  { unfold Add in Ha. injection Ha as <- <-. unfold Get. cbn. by rewrite lookup_insert_eq. }
  destruct (block_count_bounds f) as (H0 & H1 & H2). rewrite Z.sub_0_r.
  rewrite (download_loop_spec _ 0 id h1 (on_disk h filename) f l Hg); [|cbn; by rewrite lookup_insert_eq|done|done].
  eexists. split; [rewrite write_at_start; cbn [drop Nat.mul]; reflexivity|]. cbn. by apply insert_id.
Qed.

(** C27: a file that was uploaded and is downloaded again into a new file: it comes back, up to
    the end of its last block with what the block before it had there; it comes back as it
    was just when its size is a multiple of that of a block. *)
Theorem transfer_round_trip filename f h h1 h2 save r :
  broken (on_disk h filename) = None -> is_dir (on_disk h filename) = false ->
  Upload is_dir broken bs filename (inr f) h = (h1, r) -> Download is_dir broken bs filename (inr []) h1 = (h2, save, Ret tt) ->
  exists pad, save = inr (f ++ pad) /\ length pad < bs /\ length (f ++ pad) mod bs = 0 /\ (pad = [] <-> length f mod bs = 0).
Proof.
  intros Hb Hd Hu Hdl. destruct (Upload_result filename f h Hb Hd) as (pad & h' & Hu' & Hp & Hm & Hdir & Hdisk).
  rewrite Hu' in Hu. injection Hu as <- <-.
  assert (on_disk h' filename = on_disk h filename) as Hon by (unfold on_disk; by rewrite Hdir).
  destruct (Download_spec filename (f ++ pad) [] h') as (h3 & Hd3 & _); [by rewrite Hon|by rewrite Hon| |].
  { by rewrite Hdisk, Hon, lookup_insert_eq. }
  rewrite Hd3 in Hdl. injection Hdl as <- <-. exists pad. rewrite drop_nil, app_nil_r. split; [done|]. split; [done|]. split; [done|].
  rewrite length_app in Hm. split.
  - intros ->. cbn in Hm. by rewrite Nat.add_0_r in Hm.
  - intros Hf. apply length_zero_iff_nil. apply Nat.Div0.mod_divides in Hf as [a Ha]. apply Nat.Div0.mod_divides in Hm as [c Hc].
    destruct (decide (c <= a)) as [Hca|Hca]; [nia|]. assert (bs * (a + 1) <= bs * c) by (apply Nat.mul_le_mono_l; lia). lia.
Qed.
End upload.

(** ** Sessions *)

(** The identifiers of open files were all given out. *)
Definition session_inv (s : session) : Prop :=
  (0 <= ss_counter s)%Z /\ map_Forall (fun id (_ : string) => (1 <= id <= ss_counter s)%Z) (ss_files s).

Lemma Delete_inv id s : session_inv s -> session_inv (Delete id s).
Proof. intros [H0 Hs]. split; [done|]. cbn. by apply map_Forall_delete. Qed.

(** An identifier that is given out belongs to no open file, and is never given out
    again as long as the counter has room. *)
Theorem Add_fresh path s s' id :
  session_inv s -> (ss_counter s < int_max)%Z -> Add path s = (s', id) ->
  ss_files s !! id = None /\ session_inv s' /\ Get id s' = Some path /\ (ss_counter s < ss_counter s')%Z /\
  forall id', id' <> id -> Get id' s' = Get id' s.
Proof.
  intros [H0 Hs] Hc Ha. unfold Add in Ha. rewrite wrap64_small in Ha by (unfold int_min, int_max in *; lia). injection Ha as <- <-.
  split; [|split; [|split; [|split]]]; cbn.
  - destruct (ss_files s !! (ss_counter s + 1)%Z) eqn:Hl; [|done]. apply Hs in Hl. lia.
  - split; [cbn; lia|]. cbn. apply map_Forall_insert_2; [lia|]. eapply map_Forall_impl; [exact Hs|]. cbn. lia.
  - unfold Get. cbn. by rewrite lookup_insert_eq.
  - lia.
  - intros id' Hn. unfold Get. cbn. by rewrite lookup_insert_ne.
Qed.

(** A file that fills less than a buffer cannot be read with [Read]: the end is an error. *)
Theorem Read_short id buf h path f :
  Get id (h_session h) = Some path -> h_disk h !! path = Some f -> length f < length buf -> Read id buf h = Fail "EOF".
Proof.
  intros Hg Hf Hl. unfold Read. pose proof (ReadAt_spec id 0 (length buf) h path f Hg Hf) as Hr. change (Z.of_nat 0) with 0%Z in Hr.
  rewrite Hr, bool_decide_eq_true_2; [done|]. rewrite length_take, drop_0. lia.
Qed.

(** Looking at a path that cannot be looked at, for another reason than that nothing is
    there, panics. *)
Theorem Stat_broken_panics is_dir broken filename h err :
  broken (on_disk h filename) = Some err -> handler_Stat is_dir broken filename h = Panic.
Proof. intros Hb. unfold handler_Stat. by rewrite Hb. Qed.

(** ** Examples and witnesses *)

(** A file outside of the directory that is served. *)
Example outside : on_disk (NewHandler "/srv/files" ∅) "../../etc/passwd" = "/etc/passwd".
Proof. vm_compute. reflexivity. Qed.

Definition bytes (s : string) : file := String.list_ascii_of_string s.

Definition ex_handler : handler := NewHandler "/srv" {["/srv/a" := bytes "hello"]}.

Definition no_dir (p : string) : bool := false.
Definition none_broken (p : string) : option string := None.

Lemma Download_spec_witness :
  exists h', Download no_dir none_broken 2 "a" (inr (bytes "old text")) ex_handler = (h', inr (bytes "helloext"), Ret tt) /\
  h_disk h' = h_disk ex_handler.
Proof.
  exact (Download_spec no_dir none_broken 2 ltac:(lia) "a" (bytes "hello") (bytes "old text") ex_handler eq_refl eq_refl eq_refl).
Defined.

Lemma transfer_round_trip_witness :
  let u := Upload no_dir none_broken 2 "b" (inr (bytes "hello")) ex_handler in
  let d := Download no_dir none_broken 2 "b" (inr []) u.1 in
  d.1.2 = inr (bytes "hellol") /\
  exists pad, d.1.2 = inr (bytes "hello" ++ pad) /\ length pad < 2 /\ length (bytes "hello" ++ pad) mod 2 = 0 /\
    (pad = [] <-> length (bytes "hello") mod 2 = 0).
Proof.
  intros u d. split; [vm_compute; reflexivity|].
  exact (transfer_round_trip no_dir none_broken 2 ltac:(lia) "b" (bytes "hello") ex_handler u.1 d.1.1 d.1.2 u.2 eq_refl eq_refl
    eq_refl eq_refl).
Defined.

Lemma Add_fresh_witness :
  let s := (Add "/srv/a" NewSession).1 in
  ss_files s !! 2%Z = None /\ session_inv (Add "/srv/b" s).1 /\ Get 2 (Add "/srv/b" s).1 = Some "/srv/b" /\
  (ss_counter s < ss_counter (Add "/srv/b" s).1)%Z /\ forall id', id' <> 2%Z -> Get id' (Add "/srv/b" s).1 = Get id' s.
Proof.
  intros s. apply (Add_fresh "/srv/b" s (Add "/srv/b" s).1 2).
  - split; [vm_compute; discriminate|]. apply map_Forall_insert_2; [split; vm_compute; discriminate|]. apply map_Forall_empty.
  - vm_compute. reflexivity.
  - vm_compute. reflexivity.
Defined.
