(* ===== verification/Cmd.v ===== *)
(** * The command line of a service: [util/cmd/cmd.go], [util/cmd/options.go]

    [Before] makes the parts of a service that the flags name and passes the flags on to
    them. A part is a name and an identity; what it was given at its making and by [Init]
    since is a list of options in a store, of which the last of a sort counts. The flags,
    the names for which there is a constructor, the errors of [Init] and parsing durations
    are arguments. *)
From S2P Require Import Prelude GoStrings.

(** ** Parts *)
Record comp := mkComp { c_name : string; c_id : nat }.

#[export] Instance comp_eq_dec : EqDecision comp.
Proof. solve_decision. Defined.

Inductive kind := KClient | KServer | KStore | KRuntime | KTracer | KAuth | KRegistry | KProfile | KBroker | KSelector | KTransport | KConfig.

#[export] Instance kind_eq_dec : EqDecision kind.
Proof. solve_decision. Defined.

Inductive opt :=
| ORegistry (r : comp) | OSelector (s : comp) | OBroker (b : comp) | OTransport (t : comp) | OClient (c : comp) | OTracer (t : comp)
| OAddrs (l : list string) | ODatabase (s : string) | OTable (s : string) | OSource (s : string)
| OName (s : string) | OVersion (s : string) | OId (s : string) | OAddress (s : string) | OAdvertise (s : string)
| OMetadata (m : gmap string string) | ORegisterTTL (d : Z) | ORegisterInterval (d : Z)
| ORetries (n : Z) | ORequestTimeout (d : Z) | OPoolSize (n : Z) | OPoolTTL (d : Z)
| OCredentials (id secret : string) | OPublicKey (s : string) | OPrivateKey (s : string) | ONamespace (s : string).

(** The parts the command line has pointers to. *)
Record parts := mkParts {
  p_client : comp; p_server : comp; p_store : comp; p_runtime : comp; p_tracer : comp; p_auth : comp;
  p_registry : comp; p_profile : comp; p_broker : comp; p_selector : comp; p_transport : comp; p_config : comp;
}.

Definition get_part (k : kind) (p : parts) : comp :=
  match k with
  | KClient => p_client p | KServer => p_server p | KStore => p_store p | KRuntime => p_runtime p | KTracer => p_tracer p
  | KAuth => p_auth p | KRegistry => p_registry p | KProfile => p_profile p | KBroker => p_broker p
  | KSelector => p_selector p | KTransport => p_transport p | KConfig => p_config p
  end.

Definition set_part (k : kind) (c : comp) (p : parts) : parts :=
  let g k' := if decide (k = k') then c else get_part k' p in
  mkParts (g KClient) (g KServer) (g KStore) (g KRuntime) (g KTracer) (g KAuth) (g KRegistry) (g KProfile) (g KBroker)
    (g KSelector) (g KTransport) (g KConfig).

Record state := mkState { s_heap : list (list opt); s_parts : parts }.

Definition opts_of (st : state) (c : comp) : list opt := default [] (s_heap st !! c_id c).

(** The last option of a sort. *)
Definition latest {A} (f : opt -> option A) (os : list opt) : option A := last (omap f os).

Definition is_registry (o : opt) : option comp := match o with ORegistry r => Some r | _ => None end.
Definition is_selector (o : opt) : option comp := match o with OSelector s => Some s | _ => None end.
Definition is_broker (o : opt) : option comp := match o with OBroker b => Some b | _ => None end.
Definition is_transport (o : opt) : option comp := match o with OTransport t => Some t | _ => None end.
Definition is_ttl (o : opt) : option Z := match o with ORegisterTTL d => Some d | _ => None end.
Definition is_retries (o : opt) : option Z := match o with ORetries n => Some n | _ => None end.

Definition give (c : comp) (os : list opt) (st : state) : state :=
  mkState (alter (fun l => l ++ os) (c_id c) (s_heap st)) (s_parts st).

(** [client.Registry] gives the registry to the selector the client has, too. *)
Definition client_opt (c : comp) (st : state) (o : opt) : state :=
  let st := match o with
            | ORegistry r => match latest is_selector (opts_of st c) with Some s => give s [ORegistry r] st | None => st end
            | _ => st
            end in
  give c [o] st.

Definition client_init (c : comp) (os : list opt) (st : state) : state := foldl (client_opt c) st os.

(** ** The parts that are made *)
Definition second : Z := 1000000000.

Section cmd.

(** The defaults of the packages, which new parts begin with. *)
Context (D : parts).
Context (known : kind -> string -> bool).
Context (init_err : comp -> list opt -> option string).
Context (ParseDuration : string -> option Z).

Definition made_with (k : kind) : list opt :=
  match k with
  | KClient => [OBroker (p_broker D); OSelector (p_selector D); ORegistry (p_registry D); OTransport (p_transport D);
                ORetries 5; ORequestTimeout (30 * second); OPoolSize 100; OPoolTTL (60 * second)]
  | KServer => [OBroker (p_broker D); ORegistry (p_registry D); OTransport (p_transport D); ORegisterTTL (90 * second);
                ORegisterInterval (30 * second)]
  | KBroker | KSelector => [ORegistry (p_registry D)]
  | _ => []
  end.

(** A part of a name with options, in the place of that of its kind. *)
Definition make (k : kind) (name : string) (os : list opt) (st : state) : state :=
  let c := mkComp name (length (s_heap st)) in
  mkState (s_heap st ++ [made_with k ++ os]) (set_part k c (s_parts st)).

(** ** [Before] *)
Record flags := mkFlags { f_String : string -> string; f_Int : string -> Z; f_StringSlice : string -> list string }.

Inductive ended := Returned (err : string) | Exited (text : string).

(** The state, and the options that are collected for the server and the client. *)
Record progress := mkProgress { x_st : state; x_server : list opt; x_client : list opt }.

Definition on_state (f : state -> state) (x : progress) : progress := mkProgress (f (x_st x)) (x_server x) (x_client x).
Definition for_server (o : opt) (x : progress) : progress := mkProgress (x_st x) (x_server x ++ [o]) (x_client x).
Definition for_client (o : opt) (x : progress) : progress := mkProgress (x_st x) (x_server x) (x_client x ++ [o]).

Notation step := (progress -> progress * option ended).

Definition set (f : flags) (name : string) : bool := negb (String.eqb (f_String f name) "").

(** Parts that are left when there is none of the name. *)
Definition pick_optional (k : kind) (flag : string) (f : flags) : step := fun x =>
  let name := f_String f flag in
  if set f flag && known k name && negb (String.eqb (c_name (get_part k (s_parts (x_st x)))) name)
  then (on_state (make k name []) x, None) else (x, None).

(** Parts that have to be there. *)
Definition pick (k : kind) (flag what : string) (os : progress -> list opt) (f : flags) : step := fun x =>
  let name := f_String f flag in
  if set f flag then
    if known k name then (on_state (make k name (os x)) x, None) else (x, Some (Returned ("Unsupported " +:+ what +:+ ": " +:+ name)))
  else (x, None).

Definition auth_opts (f : flags) : list opt :=
  (if set f "auth_id" || set f "auth_secret" then [OCredentials (f_String f "auth_id") (f_String f "auth_secret")] else []) ++
  (if set f "auth_public_key" then [OPublicKey (f_String f "auth_public_key")] else []) ++
  (if set f "auth_private_key" then [OPrivateKey (f_String f "auth_private_key")] else []) ++
  (if set f "auth_namespace" then [ONamespace (f_String f "auth_namespace")] else []).

(** [Init] of a part other than the client. *)
Definition init_part (k : kind) (os : list opt) (what : string) : step := fun x =>
  let c := get_part k (s_parts (x_st x)) in
  match init_err c os with
  | Some err => (x, Some (Exited ("Error configuring " +:+ what +:+ ": " +:+ err)))
  | None => (on_state (give c os) x, None)
  end.

Definition and_then (s1 s2 : step) : step := fun x =>
  match s1 x with (x, None) => s2 x | r => r end.

Definition part_of (k : kind) (x : progress) : comp := get_part k (s_parts (x_st x)).

(** Whether the flag names a part of another name than the one there is. *)
Definition differs (k : kind) (flag : string) (f : flags) (x : progress) : bool :=
  set f flag && negb (String.eqb (c_name (part_of k x)) (f_String f flag)).

Definition pick_registry (f : flags) : step := fun x =>
  let name := f_String f "registry" in
  if differs KRegistry "registry" f x then
    if known KRegistry name then
      let x := on_state (make KRegistry name []) x in
      let r := part_of KRegistry x in
      let x := for_client (ORegistry r) (for_server (ORegistry r) x) in
      and_then (init_part KSelector [ORegistry r] "registry")
        (and_then (fun x => (for_client (OSelector (part_of KSelector x)) x, None)) (init_part KBroker [ORegistry r] "broker")) x
    else (x, Some (Returned ("Registry " +:+ name +:+ " not found")))
  else (x, None).

Definition pick_broker (f : flags) : step := fun x =>
  let name := f_String f "broker" in
  if differs KBroker "broker" f x then
    if known KBroker name then
      let x := on_state (make KBroker name []) x in
      let b := part_of KBroker x in
      (for_client (OBroker b) (for_server (OBroker b) x), None)
    else (x, Some (Returned ("Broker " +:+ name +:+ " not found")))
  else (x, None).

Definition pick_selector (f : flags) : step := fun x =>
  let name := f_String f "selector" in
  if differs KSelector "selector" f x then
    if known KSelector name then
      let x := on_state (make KSelector name [ORegistry (part_of KRegistry x)]) x in
      (for_client (OSelector (part_of KSelector x)) x, None)
    else (x, Some (Returned ("Selector " +:+ name +:+ " not found")))
  else (x, None).

Definition pick_transport (f : flags) : step := fun x =>
  let name := f_String f "transport" in
  if differs KTransport "transport" f x then
    if known KTransport name then
      let x := on_state (make KTransport name []) x in
      let t := part_of KTransport x in
      (for_client (OTransport t) (for_server (OTransport t) x), None)
    else (x, Some (Returned ("Transport " +:+ name +:+ " not found")))
  else (x, None).

(** [key=value], the value with the further equality signs. *)
Definition metadata_entry (d : string) : string * string :=
  match split_char "=" d with
  | key :: rest => (key, join "=" rest)
  | [] => ("", "")
  end.

Definition metadata_of (l : list string) : gmap string string :=
  foldl (fun m d => <[(metadata_entry d).1 := (metadata_entry d).2]> m) ∅ l.

Definition add_metadata (f : flags) : step := fun x =>
  let m := metadata_of (f_StringSlice f "server_metadata") in
  (if decide (m = ∅) then x else for_server (OMetadata m) x, None).

Definition init_with (k : kind) (flag what : string) (o : string -> opt) (f : flags) : step :=
  if set f flag then init_part k [o (f_String f flag)] what else fun x => (x, None).

Definition addresses (s : string) : opt := OAddrs (split_char "," s).

Definition server_string (flag : string) (o : string -> opt) (f : flags) : step := fun x =>
  (if set f flag then for_server (o (f_String f flag)) x else x, None).

Definition server_duration (flag : string) (o : Z -> opt) (f : flags) : step := fun x =>
  let v := f_Int f flag in
  (if (0 <=? v)%Z then for_server (o (wrap64 (v * second))) x else x, None).

Definition client_retries (f : flags) : step := fun x =>
  (if (0 <=? f_Int f "client_retries")%Z then for_client (ORetries (f_Int f "client_retries")) x else x, None).

Definition client_pool_size (f : flags) : step := fun x =>
  (if (0 <? f_Int f "client_pool_size")%Z then for_client (OPoolSize (f_Int f "client_pool_size")) x else x, None).

Definition client_duration (flag : string) (o : Z -> opt) (f : flags) : step := fun x =>
  if set f flag then
    match ParseDuration (f_String f flag) with
    | None => (x, Some (Returned ("failed to parse " +:+ flag +:+ ": " +:+ f_String f flag)))
    | Some d => (for_client (o d) x, None)
    end
  else (x, None).

Definition init_server : step := fun x =>
  match x_server x with [] => (x, None) | os => init_part KServer os "server" x end.

Definition init_client : step := fun x =>
  match x_client x with
  | [] => (x, None)
  | os =>
      let c := part_of KClient x in
      match init_err c os with
      | Some err => (x, Some (Exited ("Error configuring client: " +:+ err)))
      | None => (on_state (client_init c os) x, None)
      end
  end.

(** Making a configuration may fail: that is an error of its [Init] here. *)
Definition pick_config (f : flags) : step := fun x =>
  let name := f_String f "config" in
  if set f "config" && known KConfig name then
    let x' := on_state (make KConfig name []) x in
    match init_err (part_of KConfig x') [] with
    | Some err => (x, Some (Exited ("Error configuring config: " +:+ err)))
    | None => (x', None)
    end
  else (x, None).

Definition steps_before (f : flags) : list step := [
  pick_optional KClient "client" f;
  pick_optional KServer "server" f;
  pick KStore "store" "store" (fun x => [OClient (part_of KClient x)]) f;
  pick KRuntime "runtime" "runtime" (fun x => [OClient (part_of KClient x)]) f;
  pick KTracer "tracer" "tracer" (fun _ => []) f;
  pick KAuth "auth" "auth" (fun _ => auth_opts f) f;
  pick_registry f;
  pick KProfile "profile" "profile" (fun _ => []) f;
  pick_broker f;
  pick_selector f;
  pick_transport f;
  add_metadata f;
  init_with KBroker "broker_address" "broker" addresses f;
  init_with KRegistry "registry_address" "registry" addresses f;
  init_with KTransport "transport_address" "transport" addresses f;
  init_with KStore "store_address" "store" addresses f;
  init_with KStore "store_database" "store database option" ODatabase f;
  init_with KStore "store_table" "store table option" OTable f;
  server_string "server_name" OName f;
  server_string "server_version" OVersion f;
  server_string "server_id" OId f;
  server_string "server_address" OAddress f;
  server_string "server_advertise" OAdvertise f;
  server_duration "register_ttl" ORegisterTTL f;
  server_duration "register_interval" ORegisterInterval f;
  init_with KRuntime "runtime_source" "runtime" OSource f;
  client_retries f;
  client_duration "client_request_timeout" ORequestTimeout f;
  client_pool_size f;
  client_duration "client_pool_ttl" OPoolTTL f;
  init_server;
  init_client;
  pick_config f
].

Fixpoint run_steps (ss : list step) (x : progress) : progress * option ended :=
  match ss with
  | [] => (x, None)
  | s :: ss => and_then s (run_steps ss) x
  end.

Definition Before (f : flags) (st : state) : state * option ended :=
  let '(x, e) := run_steps (steps_before f) (mkProgress st [] []) in (x_st x, e).
End cmd.

(** ** Options that count *)
Lemma last_app_or {A} (l1 l2 : list A) : last (l1 ++ l2) = match last l2 with Some a => Some a | None => last l1 end.
Proof.
  destruct l2 as [|a l2 _] using rev_ind; [by rewrite app_nil_r|]. by rewrite app_assoc, !last_snoc.
Qed.

Lemma latest_app {A} (f : opt -> option A) os os' :
  latest f (os ++ os') = match latest f os' with Some a => Some a | None => latest f os end.
Proof. unfold latest. by rewrite omap_app, last_app_or. Qed.

Lemma opts_of_give c os st c' :
  opts_of (give c os st) c' = if decide (c_id c = c_id c' /\ c_id c < length (s_heap st)) then opts_of st c' ++ os else opts_of st c'.
Proof.
  unfold opts_of, give. cbn [s_heap]. rewrite list_lookup_alter. destruct (decide (c_id c = c_id c')) as [He|He].
  - rewrite <- He. destruct (s_heap st !! c_id c) as [l|] eqn:Hl.
    + rewrite decide_True; [done|]. split; [done|]. by apply lookup_lt_Some in Hl.
    + rewrite decide_False; [done|]. intros [_ Hlt]. apply lookup_ge_None in Hl. lia.
  - by rewrite decide_False by (by intros [? _]).
Qed.

Lemma length_give c os st : length (s_heap (give c os st)) = length (s_heap st).
Proof. unfold give. cbn. by rewrite length_alter. Qed.

(** Options that say nothing of which parts belong together. *)
Definition neutral (o : opt) : Prop := is_registry o = None /\ is_selector o = None /\ is_broker o = None /\ is_transport o = None.

Section linked.
Context (D : parts) (known : kind -> string -> bool) (init_err : comp -> list opt -> option string).
Context (ParseDuration : string -> option Z).

Notation make := (make D).

(** The parts belong together, once the options that are collected for the server ([ps]) and
    the client ([pc]) are passed on: the server, the client, its selector and the broker
    use the registry, and the server and the client the broker and the transport. *)
Record linked (st : state) (ps pc : list opt) : Prop := {
  ln_range : Forall (fun c => c_id c < length (s_heap st)) [p_client (s_parts st); p_server (s_parts st); p_selector (s_parts st); p_broker (s_parts st)];
  ln_server_registry : latest is_registry (opts_of st (p_server (s_parts st)) ++ ps) = Some (p_registry (s_parts st));
  ln_server_broker : latest is_broker (opts_of st (p_server (s_parts st)) ++ ps) = Some (p_broker (s_parts st));
  ln_server_transport : latest is_transport (opts_of st (p_server (s_parts st)) ++ ps) = Some (p_transport (s_parts st));
  ln_client_registry : latest is_registry (opts_of st (p_client (s_parts st)) ++ pc) = Some (p_registry (s_parts st));
  ln_client_broker : latest is_broker (opts_of st (p_client (s_parts st)) ++ pc) = Some (p_broker (s_parts st));
  ln_client_transport : latest is_transport (opts_of st (p_client (s_parts st)) ++ pc) = Some (p_transport (s_parts st));
  ln_client_selector : latest is_selector (opts_of st (p_client (s_parts st)) ++ pc) = Some (p_selector (s_parts st));
  ln_selector : latest is_registry (opts_of st (p_selector (s_parts st))) = Some (p_registry (s_parts st));
  ln_broker : latest is_registry (opts_of st (p_broker (s_parts st))) = Some (p_registry (s_parts st));
  ln_pending : Forall (fun o => forall r, is_registry o = Some r -> r = p_registry (s_parts st)) pc;
  ln_distinct : c_id (p_client (s_parts st)) <> c_id (p_server (s_parts st));
}.

Definition connected (st : state) : Prop := linked st [] [].

(** What a step has to keep of the options of a part: which others it belongs to. *)
Definition same_links (os os' : list opt) : Prop :=
  latest is_registry os' = latest is_registry os /\ latest is_selector os' = latest is_selector os /\
  latest is_broker os' = latest is_broker os /\ latest is_transport os' = latest is_transport os.

Lemma same_links_refl os : same_links os os.
Proof. done. Qed.

Lemma same_links_app os os' ps : same_links os os' -> same_links (os ++ ps) (os' ++ ps).
Proof. intros (H1 & H2 & H3 & H4). unfold same_links. rewrite !latest_app, H1, H2, H3, H4. done. Qed.

Lemma same_links_snoc os o : neutral o -> same_links os (os ++ [o]).
Proof. intros (H1 & H2 & H3 & H4). unfold same_links, latest. rewrite !omap_app. cbn. rewrite H1, H2, H3, H4, !app_nil_r. done. Qed.

(** Steps that keep the six parts and the links of those there were keep everything. *)
Lemma linked_same st st' ps pc :
  linked st ps pc ->
  (forall k, k ∈ [KClient; KServer; KSelector; KBroker; KRegistry; KTransport] -> get_part k (s_parts st') = get_part k (s_parts st)) ->
  length (s_heap st) <= length (s_heap st') ->
  (forall c, c_id c < length (s_heap st) -> same_links (opts_of st c) (opts_of st' c)) -> linked st' ps pc.
Proof.
  intros [Hr A1 A2 A3 B1 B2 B3 B4 Hs Hb Hp Hdis] Hk Hl Hsame.
  pose proof (Hk KClient ltac:(set_solver)) as E1. pose proof (Hk KServer ltac:(set_solver)) as E2.
  pose proof (Hk KSelector ltac:(set_solver)) as E3. pose proof (Hk KBroker ltac:(set_solver)) as E4.
  pose proof (Hk KRegistry ltac:(set_solver)) as E5. pose proof (Hk KTransport ltac:(set_solver)) as E6. cbn in E1, E2, E3, E4, E5, E6.
  rewrite !Forall_cons in Hr. destruct Hr as (R1 & R2 & R3 & R4 & _).
  destruct (same_links_app _ _ pc (Hsame _ R1)) as (C1 & C2 & C3 & C4). destruct (same_links_app _ _ ps (Hsame _ R2)) as (S1 & _ & S3 & S4).
  destruct (Hsame _ R3) as (L1 & _). destruct (Hsame _ R4) as (K1 & _).
  constructor; rewrite ?E1, ?E2, ?E3, ?E4, ?E5, ?E6; try congruence.
  repeat (apply Forall_cons_2; [lia|]). apply Forall_nil_2.
Qed.

Lemma opts_of_make k name os st c : c_id c < length (s_heap st) -> opts_of (make k name os st) c = opts_of st c.
Proof. intros Hc. unfold opts_of, Cmd.make. cbn. by rewrite lookup_app_l. Qed.

Lemma opts_of_made k name os st : opts_of (make k name os st) (mkComp name (length (s_heap st))) = made_with D k ++ os.
Proof. unfold opts_of, Cmd.make. cbn. by rewrite lookup_app_r, Nat.sub_diag by lia. Qed.

Lemma linked_make k name os st ps pc :
  k ∉ [KClient; KServer; KSelector; KBroker; KRegistry; KTransport] -> linked st ps pc -> linked (make k name os st) ps pc.
Proof.
  intros Hk Hl. eapply linked_same; [exact Hl| | |].
  - intros k' Hk'. unfold Cmd.make. cbn. assert (k <> k') by (intros ->; done). by destruct k', k.
  - unfold Cmd.make. cbn. rewrite length_app. lia.
  - intros c Hc. rewrite opts_of_make by done. apply same_links_refl.
Qed.

Lemma linked_give_neutral c o st ps pc : neutral o -> linked st ps pc -> linked (give c [o] st) ps pc.
Proof.
  intros Ho Hl. eapply linked_same; [exact Hl|done| |].
  - unfold give. cbn. by rewrite length_alter.
  - intros c' Hc. rewrite opts_of_give. case_decide; [by apply same_links_snoc|apply same_links_refl].
Qed.

Lemma latest_give_registry c r st c' ps :
  latest is_registry (opts_of st c' ++ ps) = Some r -> latest is_registry (opts_of (give c [ORegistry r] st) c' ++ ps) = Some r.
Proof.
  rewrite opts_of_give. case_decide; [|done]. rewrite !latest_app. by destruct (latest is_registry ps).
Qed.

Lemma latest_give_other {A} (f : opt -> option A) c r st c' ps :
  f (ORegistry r) = None -> latest f (opts_of (give c [ORegistry r] st) c' ++ ps) = latest f (opts_of st c' ++ ps).
Proof.
  intros Hf. rewrite opts_of_give. case_decide; [|done]. rewrite !latest_app. unfold latest at 2. cbn. by rewrite Hf.
Qed.

(** Giving any part the registry keeps everything. *)
Lemma linked_give_registry c st ps pc : linked st ps pc -> linked (give c [ORegistry (p_registry (s_parts st))] st) ps pc.
Proof.
  intros [Hr A1 A2 A3 B1 B2 B3 B4 Hs Hb Hp Hdis].
  constructor; cbn [give s_parts s_heap]; rewrite ?length_alter; try done;
    try (by apply latest_give_registry); try (by rewrite latest_give_other).
  - rewrite <- (app_nil_r (opts_of _ _)). apply latest_give_registry. by rewrite app_nil_r.
  - rewrite <- (app_nil_r (opts_of _ _)). apply latest_give_registry. by rewrite app_nil_r.
Qed.

Lemma linked_server_option o st ps pc : neutral o -> linked st ps pc -> linked st (ps ++ [o]) pc.
Proof.
  intros Ho [Hr A1 A2 A3 B1 B2 B3 B4 Hs Hb Hp Hdis].
  destruct (same_links_snoc (opts_of st (p_server (s_parts st)) ++ ps) o Ho) as (H1 & _ & H3 & H4).
  constructor; rewrite ?app_assoc; congruence.
Qed.

Lemma linked_client_option o st ps pc : neutral o -> linked st ps pc -> linked st ps (pc ++ [o]).
Proof.
  intros Ho [Hr A1 A2 A3 B1 B2 B3 B4 Hs Hb Hp Hdis].
  destruct (same_links_snoc (opts_of st (p_client (s_parts st)) ++ pc) o Ho) as (H1 & H2 & H3 & H4).
  constructor; rewrite ?app_assoc; try congruence. apply Forall_app. split; [done|]. apply Forall_singleton.
  destruct Ho as (Hn & _). intros r Hr'. congruence.
Qed.

(** ** The steps *)
Notation step := (progress -> progress * option ended).

Definition keeps (P Q : progress -> Prop) (s : step) : Prop := forall x x', P x -> s x = (x', None) -> Q x'.

Lemma keeps_then P Q R s1 s2 : keeps P Q s1 -> keeps Q R s2 -> keeps P R (and_then s1 s2).
Proof.
  intros H1 H2 x x' Hx. unfold and_then. destruct (s1 x) as [x1 [e|]] eqn:Hs; [done|]. intros H. eapply H2; [|exact H]. by eapply H1.
Qed.

Lemma keeps_steps P ss : Forall (keeps P P) ss -> keeps P P (run_steps ss).
Proof.
  induction 1 as [|s ss Hs _ IH]; intros x x' Hx; cbn; [by intros [= <-]|]. by apply (keeps_then P P P s (run_steps ss)).
Qed.

Lemma run_steps_app ss1 ss2 x : run_steps (ss1 ++ ss2) x = and_then (run_steps ss1) (run_steps ss2) x.
Proof.
  revert x. induction ss1 as [|s ss1 IH]; intros x; cbn; [done|]. unfold and_then at 1 3. destruct (s x) as [x1 [e|]] eqn:Hs.
  - unfold and_then. by rewrite Hs.
  - rewrite IH. unfold and_then. by rewrite Hs.
Qed.

(** The parts are linked, the broker is that of the beginning, and the registry has a name. *)
Definition good (b : comp) (n : string) (x : progress) : Prop :=
  linked (x_st x) (x_server x) (x_client x) /\ p_broker (s_parts (x_st x)) = b /\ c_name (p_registry (s_parts (x_st x))) = n.

(** Before the registry is chosen nothing is collected. *)
Definition start (b : comp) (n : string) (x : progress) : Prop := good b n x /\ x_server x = [] /\ x_client x = [].

Lemma keeps_make b n k name os x :
  k ∉ [KClient; KServer; KSelector; KBroker; KRegistry; KTransport] -> good b n x -> good b n (on_state (make k name os) x).
Proof.
  intros Hk (Hl & Hb & Hn). split; [by apply linked_make|]. cbn. by destruct k; try (exfalso; apply Hk, list_elem_of_In; cbn; tauto).
Qed.

Lemma keeps_pick b n k flag what os f :
  k ∉ [KClient; KServer; KSelector; KBroker; KRegistry; KTransport] -> keeps (good b n) (good b n) (pick D known k flag what os f).
Proof.
  intros Hk x x' Hx. unfold pick. destruct (set f flag); [|by intros [= <-]]. destruct (known k _); [|done].
  intros [= <-]. by apply keeps_make.
Qed.

Lemma start_pick b n k flag what os f :
  k ∉ [KClient; KServer; KSelector; KBroker; KRegistry; KTransport] -> keeps (start b n) (start b n) (pick D known k flag what os f).
Proof.
  intros Hk x x' (Hg & Hs & Hc) Hp. split; [by eapply keeps_pick|]. revert Hp. unfold pick.
  destruct (set f flag); [|by intros [= <-]]. destruct (known k _); [|done]. by intros [= <-].
Qed.

Lemma keeps_init b n k o what : neutral o -> keeps (good b n) (good b n) (init_part init_err k [o] what).
Proof.
  intros Ho x x' [Hl Hb]. unfold init_part. destruct (init_err _ _); [done|]. intros [= <-]. split; [|done]. by apply linked_give_neutral.
Qed.

Lemma keeps_init_with b n k flag what o f : (forall s, neutral (o s)) -> keeps (good b n) (good b n) (init_with init_err k flag what o f).
Proof. intros Ho. unfold init_with. destruct (set f flag); [by apply keeps_init|]. by intros x x' Hx [= <-]. Qed.

Lemma good_for_server b n o x : neutral o -> good b n x -> good b n (for_server o x).
Proof. intros Ho [Hl Hb]. split; [|done]. by apply linked_server_option. Qed.

Lemma good_for_client b n o x : neutral o -> good b n x -> good b n (for_client o x).
Proof. intros Ho [Hl Hb]. split; [|done]. by apply linked_client_option. Qed.

Lemma keeps_registry b n f :
  keeps (start b n) (good b (if set f "registry" then f_String f "registry" else n)) (pick_registry D known init_err f).
Proof.
  intros x x' ((Hl & Hb & Hn) & Hs & Hc). unfold pick_registry, differs. destruct (set f "registry") eqn:Hset; [|intros [= <-]; by split].
  destruct (String.eqb_spec (c_name (part_of KRegistry x)) (f_String f "registry")) as [He|He]; cbn [andb negb]; [intros [= <-]; by split|].
  destruct (known KRegistry _); [|done]. set (name := f_String f "registry"). destruct x as [st ps pc]. cbn in Hs, Hc, Hl, Hb. subst ps pc.
  set (r := mkComp name (length (s_heap st))). unfold and_then, init_part, part_of.
  cbn [on_state for_server for_client x_st x_server x_client get_part make s_parts set_part]. cbn. fold r.
  destruct (init_err _ _); [done|]. cbn. destruct (init_err _ _); [done|]. intros [= <-]. split; [|by split]. cbn.
  destruct Hl as [Hr A1 A2 A3 B1 B2 B3 B4 Hsel Hbr Hp Hdis]. rewrite !Forall_cons in Hr. destruct Hr as (R1 & R2 & R3 & R4 & _).
  rewrite app_nil_r in A2, A3, B2, B3.
  set (st1 := Cmd.make D KRegistry name [] st). set (sel := p_selector (s_parts st)). set (br := p_broker (s_parts st)).
  assert (forall c, c_id c < length (s_heap st) -> opts_of st1 c = opts_of st c) as Ho by (intros c Hlt; by apply opts_of_make).
  assert (length (s_heap st1) = S (length (s_heap st))) as Hlen by (subst st1; cbn; rewrite length_app; cbn; lia).
  fold st1. assert (p_client (s_parts st1) = p_client (s_parts st)) as E1 by done.
  assert (p_server (s_parts st1) = p_server (s_parts st)) as E2 by done. assert (p_selector (s_parts st1) = sel) as E3 by done.
  assert (p_broker (s_parts st1) = br) as E4 by done. assert (p_registry (s_parts st1) = r) as E5 by done.
  assert (p_transport (s_parts st1) = p_transport (s_parts st)) as E6 by done.
  constructor; cbn [s_parts give]; fold sel br; rewrite ?E1, ?E2, ?E3, ?E4, ?E5, ?E6.
  - rewrite !length_give, Hlen. repeat (apply Forall_cons_2; [unfold sel, br; lia|]). apply Forall_nil_2.
  - by rewrite latest_app.
  - rewrite latest_give_other, latest_give_other, latest_app by done. cbn. by rewrite Ho.
  - rewrite latest_give_other, latest_give_other, latest_app by done. cbn. by rewrite Ho.
  - by rewrite latest_app.
  - rewrite latest_give_other, latest_give_other, latest_app by done. cbn. by rewrite Ho.
  - rewrite latest_give_other, latest_give_other, latest_app by done. cbn. by rewrite Ho.
  - by rewrite latest_app.
  - rewrite <- (app_nil_r (opts_of _ _)). apply latest_give_registry. rewrite app_nil_r, opts_of_give, decide_True, latest_app; [done|].
    split; [done|]. rewrite Hlen. unfold sel. lia.
  - rewrite opts_of_give, decide_True, latest_app; [done|]. split; [done|]. rewrite length_give, Hlen. unfold br. lia.
  - repeat (apply Forall_cons_2; [cbn; congruence|]). apply Forall_nil_2.
  - done.
Qed.
Lemma keeps_same_broker b n f :
  set f "broker" && negb (String.eqb (c_name b) (f_String f "broker")) = false -> keeps (good b n) (good b n) (pick_broker D known f).
Proof.
  intros Hd x x' Hx. pose proof Hx as (_ & Hb & _). unfold pick_broker, differs, part_of. cbn [get_part]. rewrite Hb, Hd. by intros [= <-].
Qed.

Lemma keeps_selector b n f : keeps (good b n) (good b n) (pick_selector D known f).
Proof.
  intros x x' Hx. unfold pick_selector. destruct (differs _ _ f x); [|by intros [= <-]]. destruct (known _ _); [|done].
  destruct x as [st ps pc]. destruct Hx as (Hl & Hb & Hn). intros [= <-]. split; [|done].
  cbn [x_st x_server x_client for_client on_state part_of get_part]. cbn in Hl, Hb, Hn. set (name := f_String f "selector").
  destruct Hl as [Hr A1 A2 A3 B1 B2 B3 B4 Hsel Hbr Hp Hdis]. rewrite !Forall_cons in Hr. destruct Hr as (R1 & R2 & R3 & R4 & _).
  set (st1 := Cmd.make D KSelector name _ st). set (s1 := mkComp name (length (s_heap st))).
  assert (forall c, c_id c < length (s_heap st) -> opts_of st1 c = opts_of st c) as Ho by (intros c Hlt; by apply opts_of_make).
  assert (length (s_heap st1) = S (length (s_heap st))) as Hlen by (subst st1; cbn; rewrite length_app; cbn; lia).
  assert (p_client (s_parts st1) = p_client (s_parts st)) as E1 by done. assert (p_server (s_parts st1) = p_server (s_parts st)) as E2 by done.
  assert (p_selector (s_parts st1) = s1) as E3 by done. assert (p_broker (s_parts st1) = p_broker (s_parts st)) as E4 by done.
  assert (p_registry (s_parts st1) = p_registry (s_parts st)) as E5 by done.
  assert (p_transport (s_parts st1) = p_transport (s_parts st)) as E6 by done.
  constructor; rewrite ?E1, ?E2, ?E3, ?E4, ?E5, ?E6, ?app_assoc, ?Ho by done; try done.
  - rewrite Hlen. repeat (apply Forall_cons_2; [subst s1; cbn; lia|]). apply Forall_nil_2.
  - by rewrite latest_app, B1.
  - by rewrite latest_app, B2.
  - by rewrite latest_app, B3.
  - by rewrite latest_app.
  - subst s1 st1. by rewrite opts_of_made.
  - apply Forall_app. split; [done|]. by apply Forall_singleton.
Qed.

Lemma keeps_transport b n f : keeps (good b n) (good b n) (pick_transport D known f).
Proof.
  intros x x' Hx. unfold pick_transport. destruct (differs _ _ f x); [|by intros [= <-]]. destruct (known _ _); [|done].
  destruct x as [st ps pc]. destruct Hx as (Hl & Hb & Hn). intros [= <-]. split; [|done].
  cbn [x_st x_server x_client for_client for_server on_state part_of get_part]. cbn in Hl, Hb, Hn. set (name := f_String f "transport").
  destruct Hl as [Hr A1 A2 A3 B1 B2 B3 B4 Hsel Hbr Hp Hdis]. rewrite !Forall_cons in Hr. destruct Hr as (R1 & R2 & R3 & R4 & _).
  set (st1 := Cmd.make D KTransport name [] st). set (t1 := mkComp name (length (s_heap st))).
  assert (forall c, c_id c < length (s_heap st) -> opts_of st1 c = opts_of st c) as Ho by (intros c Hlt; by apply opts_of_make).
  assert (length (s_heap st1) = S (length (s_heap st))) as Hlen by (subst st1; cbn; rewrite length_app; cbn; lia).
  assert (p_client (s_parts st1) = p_client (s_parts st)) as E1 by done. assert (p_server (s_parts st1) = p_server (s_parts st)) as E2 by done.
  assert (p_selector (s_parts st1) = p_selector (s_parts st)) as E3 by done. assert (p_broker (s_parts st1) = p_broker (s_parts st)) as E4 by done.
  assert (p_registry (s_parts st1) = p_registry (s_parts st)) as E5 by done. assert (p_transport (s_parts st1) = t1) as E6 by done.
  constructor; rewrite ?E1, ?E2, ?E3, ?E4, ?E5, ?E6, ?app_assoc, ?Ho by done; try done.
  - rewrite Hlen. repeat (apply Forall_cons_2; [lia|]). apply Forall_nil_2.
  - by rewrite latest_app, A1.
  - by rewrite latest_app, A2.
  - by rewrite latest_app.
  - by rewrite latest_app, B1.
  - by rewrite latest_app, B2.
  - by rewrite latest_app.
  - by rewrite latest_app, B4.
  - apply Forall_app. split; [done|]. by apply Forall_singleton.
Qed.
Lemma keeps_server_string b n flag o f : (forall s, neutral (o s)) -> keeps (good b n) (good b n) (server_string flag o f).
Proof. intros Ho x x' Hx. unfold server_string. destruct (set f flag); intros [= <-]; [by apply good_for_server|done]. Qed.

Lemma keeps_server_duration b n flag o f : (forall d, neutral (o d)) -> keeps (good b n) (good b n) (server_duration flag o f).
Proof. intros Ho x x' Hx. unfold server_duration. destruct (0 <=? _)%Z; intros [= <-]; [by apply good_for_server|done]. Qed.

Lemma keeps_client_duration b n flag o f : (forall d, neutral (o d)) -> keeps (good b n) (good b n) (client_duration ParseDuration flag o f).
Proof.
  intros Ho x x' Hx. unfold client_duration. destruct (set f flag); [|by intros [= <-]]. destruct (ParseDuration _); [|done].
  intros [= <-]. by apply good_for_client.
Qed.

Lemma keeps_metadata b n f : keeps (good b n) (good b n) (add_metadata f).
Proof. intros x x' Hx. unfold add_metadata. case_decide; intros [= <-]; [done|by apply good_for_server]. Qed.

Lemma keeps_client_retries b n f : keeps (good b n) (good b n) (client_retries f).
Proof. intros x x' Hx. unfold client_retries. destruct (0 <=? _)%Z; intros [= <-]; [by apply good_for_client|done]. Qed.

Lemma keeps_client_pool_size b n f : keeps (good b n) (good b n) (client_pool_size f).
Proof. intros x x' Hx. unfold client_pool_size. destruct (0 <? _)%Z; intros [= <-]; [by apply good_for_client|done]. Qed.

Lemma latest_give_self {A} (f : opt -> option A) c c' os st ps r :
  latest f (opts_of st c ++ os) = Some r -> latest f (opts_of st c' ++ ps) = Some r -> latest f (opts_of (give c os st) c' ++ ps) = Some r.
Proof.
  intros H1 H2. rewrite opts_of_give. case_decide as Hd; [|done]. destruct Hd as [He _].
  assert (opts_of st c' = opts_of st c) as Hoo by (unfold opts_of; by rewrite He). rewrite Hoo in *.
  rewrite latest_app in H2 |- *. destruct (latest f ps); congruence.
Qed.

Lemma linked_init_server st ps pc : linked st ps pc -> linked (give (p_server (s_parts st)) ps st) [] pc.
Proof.
  intros [Hr A1 A2 A3 B1 B2 B3 B4 Hs Hb Hp Hdis]. rewrite !Forall_cons in Hr. destruct Hr as (R1 & R2 & R3 & R4 & _).
  constructor; cbn [s_parts give]; try done; try (by apply latest_give_self).
  - rewrite length_give. repeat (apply Forall_cons_2; [lia|]). apply Forall_nil_2.
  - by rewrite app_nil_r, opts_of_give, decide_True.
  - by rewrite app_nil_r, opts_of_give, decide_True.
  - by rewrite app_nil_r, opts_of_give, decide_True.
  - rewrite opts_of_give, decide_False; [done|]. intros [He _]. by apply Hdis.
  - rewrite <- (app_nil_r (opts_of _ _)). apply latest_give_self; [done|]. by rewrite app_nil_r.
  - rewrite <- (app_nil_r (opts_of _ _)). apply latest_give_self; [done|]. by rewrite app_nil_r.
Qed.

(** Passing one of the collected options on to the client. *)
Lemma linked_client_opt st o ps pc : linked st ps (o :: pc) -> linked (client_opt (p_client (s_parts st)) st o) ps pc.
Proof.
  intros Hl.
  assert (exists st1, linked st1 ps (o :: pc) /\ s_parts st1 = s_parts st /\
    client_opt (p_client (s_parts st)) st o = give (p_client (s_parts st)) [o] st1) as (st1 & Hl1 & Hp1 & ->).
  { destruct o; try (exists st; done). unfold client_opt. destruct (latest _ _) as [s|]; [|by exists st].
    exists (give s [ORegistry r] st). split; [|done]. assert (r = p_registry (s_parts st)) as ->; [|by apply linked_give_registry].
    destruct Hl as [_ _ _ _ _ _ _ _ _ _ Hp _]. apply Forall_cons in Hp as [Hp _]. by apply Hp. }
  rewrite <- Hp1. clear Hl Hp1 st.
  destruct Hl1 as [Hr A1 A2 A3 B1 B2 B3 B4 Hs Hb Hp Hdis]. rewrite !Forall_cons in Hr. destruct Hr as (R1 & R2 & R3 & R4 & _).
  apply Forall_cons in Hp as [Hpo Hp].
  assert (forall c, latest is_registry (opts_of st1 c) = Some (p_registry (s_parts st1)) ->
    latest is_registry (opts_of (give (p_client (s_parts st1)) [o] st1) c) = Some (p_registry (s_parts st1))) as Hreg.
  { intros c Hc. rewrite opts_of_give. case_decide; [|done]. rewrite latest_app. unfold latest at 1. cbn.
    destruct (is_registry o) as [r|] eqn:Hor; cbn; [|done]. by rewrite (Hpo r). }
  assert (forall c, c_id (p_client (s_parts st1)) <> c_id c -> opts_of (give (p_client (s_parts st1)) [o] st1) c = opts_of st1 c) as Hoth.
  { intros c Hn. rewrite opts_of_give, decide_False; [done|]. by intros [? _]. }
  assert (opts_of (give (p_client (s_parts st1)) [o] st1) (p_client (s_parts st1)) = opts_of st1 (p_client (s_parts st1)) ++ [o]) as Hcl
    by (by rewrite opts_of_give, decide_True).
  constructor; cbn [s_parts give]; rewrite ?Hcl, ?Hoth, <- ?app_assoc by done; try done; try (by apply Hreg).
  rewrite length_give. repeat (apply Forall_cons_2; [lia|]). apply Forall_nil_2.
Qed.

Lemma client_opt_parts c st o : s_parts (client_opt c st o) = s_parts st.
Proof. unfold client_opt. destruct o; try done. by destruct (latest _ _). Qed.

Lemma linked_client_init os st ps :
  linked st ps os -> linked (client_init (p_client (s_parts st)) os st) ps [] /\ s_parts (client_init (p_client (s_parts st)) os st) = s_parts st.
Proof.
  revert st. induction os as [|o os IH]; intros st Hl; [done|]. apply linked_client_opt in Hl. apply IH in Hl.
  rewrite client_opt_parts in Hl. exact Hl.
Qed.

(** What is collected has been passed on. *)
Definition passed (n : string) (x : progress) : Prop := connected (x_st x) /\ c_name (p_registry (s_parts (x_st x))) = n.

Lemma keeps_inits b n f : keeps (good b n) (passed n) (and_then (init_server init_err) (and_then (init_client init_err) (pick_config D known init_err f))).
Proof.
  apply (keeps_then _ (fun x => linked (x_st x) [] (x_client x) /\ c_name (p_registry (s_parts (x_st x))) = n)).
  { intros x x' (Hl & _ & Hn). unfold init_server. destruct (x_server x) as [|o os] eqn:Hs; [intros [= <-]; by split|].
    unfold init_part. destruct (init_err _ _); [done|]. intros [= <-]. split; [|done]. cbn. by apply linked_init_server. }
  apply (keeps_then _ (passed n)).
  { intros x x' (Hl & Hn). unfold init_client. destruct (x_client x) as [|o os] eqn:Hs; [intros [= <-]; by split|].
    destruct (init_err _ _); [done|]. intros [= <-]. cbn [x_st on_state]. apply linked_client_init in Hl as [Hl Hp]. unfold part_of. cbn [get_part].
    split; cbn [x_st on_state]; [exact Hl|]. by rewrite Hp. }
  intros x x' (Hl & Hn). unfold pick_config. destruct (_ && _); [|intros [= <-]; by split]. destruct (init_err _ _); [done|].
  intros [= <-]. split; [|done]. apply linked_make; [set_solver|done].
Qed.

(** C29: when the parts of a service belong together, and the flags name no other client,
    server or broker, they belong together once the flags were applied, whatever registry,
    selector and transport the flags name: the server, the client, its selector and the
    broker use the registry that was named, the server and the client the same broker and
    transport. *)
Theorem Before_connected f st st' :
  connected st ->
  (forall k flag, (k, flag) ∈ [(KClient, "client"); (KServer, "server")] ->
    set f flag && known k (f_String f flag) && negb (String.eqb (c_name (get_part k (s_parts st))) (f_String f flag)) = false) ->
  set f "broker" && negb (String.eqb (c_name (p_broker (s_parts st))) (f_String f "broker")) = false ->
  Before D known init_err ParseDuration f st = (st', None) ->
  connected st' /\
  c_name (p_registry (s_parts st')) = (if set f "registry" then f_String f "registry" else c_name (p_registry (s_parts st))).
Proof.
  intros Hc Hk Hb Hbefore. unfold Before in Hbefore. set (x0 := mkProgress st [] []) in *.
  destruct (run_steps _ x0) as [x e] eqn:Hr. injection Hbefore as <- ->.
  set (b := p_broker (s_parts st)). set (n := c_name (p_registry (s_parts st))).
  set (n' := if set f "registry" then f_String f "registry" else n).
  assert (start b n x0) as H0 by (split; [by split|done]).
  assert (forall k flag, (k, flag) ∈ [(KClient, "client"); (KServer, "server")] -> pick_optional D known k flag f x0 = (x0, None)) as Hopt.
  { intros k flag Hin. unfold pick_optional. change (x_st x0) with st. by rewrite (Hk k flag Hin). }
  change (steps_before D known init_err ParseDuration f) with
    ([pick_optional D known KClient "client" f; pick_optional D known KServer "server" f] ++ drop 2 (steps_before D known init_err ParseDuration f)) in Hr.
  rewrite run_steps_app in Hr. unfold and_then in Hr at 1. cbn [run_steps] in Hr. unfold and_then in Hr at 1 2.
  rewrite !Hopt in Hr by set_solver.
  set (early := take 4 (drop 2 (steps_before D known init_err ParseDuration f))).
  set (middle := take 23 (drop 7 (steps_before D known init_err ParseDuration f))).
  change (drop 2 (steps_before D known init_err ParseDuration f)) with
    (early ++ [pick_registry D known init_err f] ++ middle ++ [init_server init_err; init_client init_err; pick_config D known init_err f]) in Hr.
  assert (keeps (start b n) (passed n') (fun x => run_steps (early ++ [pick_registry D known init_err f] ++ middle ++
    [init_server init_err; init_client init_err; pick_config D known init_err f]) x)) as Hkeep; [|by eapply Hkeep].
  intros x1 x2 Hx1. rewrite run_steps_app. revert x1 x2 Hx1. apply (keeps_then _ (start b n)).
  { apply keeps_steps. repeat (apply Forall_cons_2; [apply start_pick; set_solver|]). apply Forall_nil_2. }
  apply (keeps_then _ (good b n')); [apply keeps_registry|]. intros x1 x2 Hx1. rewrite run_steps_app. revert x1 x2 Hx1.
  apply (keeps_then _ (good b n')).
  { apply keeps_steps. repeat (apply Forall_cons_2; [first [apply keeps_pick; set_solver|by apply keeps_same_broker|apply keeps_selector|apply keeps_transport
      |apply keeps_metadata|by apply keeps_init_with|by apply keeps_server_string|by apply keeps_server_duration
      |apply keeps_client_retries|by apply keeps_client_duration|apply keeps_client_pool_size]|]). apply Forall_nil_2. }
  intros x1 x2 Hx1. cbn [run_steps]. unfold and_then at 3. intros H. eapply (keeps_inits b n' f); [exact Hx1|].
  revert H. unfold and_then. destruct (init_server init_err x1) as [y [e|]]; [done|]. destruct (init_client init_err y) as [z [e|]]; [done|].
  by destruct (pick_config D known init_err f z) as [u [e|]].
Qed.
End linked.

(** A name without a constructor: the error is returned, and what was made before it
    stays. *)
Theorem unknown_store_refused D known init_err pd f st x :
  run_steps [pick_optional D known KClient "client" f; pick_optional D known KServer "server" f] (mkProgress st [] []) = (x, None) ->
  set f "store" = true -> known KStore (f_String f "store") = false ->
  Before D known init_err pd f st = (x_st x, Some (Returned ("Unsupported store: " +:+ f_String f "store"))).
Proof.
  intros Hr Hs Hk. unfold Before.
  change (steps_before D known init_err pd f) with
    ([pick_optional D known KClient "client" f; pick_optional D known KServer "server" f] ++ drop 2 (steps_before D known init_err pd f)).
  rewrite run_steps_app. unfold and_then at 1. rewrite Hr. cbn [steps_before drop run_steps]. unfold and_then at 1. unfold pick at 1.
  rewrite Hs, Hk. reflexivity.
Qed.

(** ** Examples and witnesses *)
Definition ex_defaults : parts :=
  mkParts (mkComp "rpc" 0) (mkComp "rpc" 1) (mkComp "memory" 2) (mkComp "local" 3) (mkComp "memory" 4) (mkComp "noop" 5)
    (mkComp "mdns" 6) (mkComp "noop" 7) (mkComp "http" 8) (mkComp "registry" 9) (mkComp "http" 10) (mkComp "config" 11).

(** The default parts; the lifetime of registrations was set to ten seconds in the code. *)
Definition ex_state : state :=
  mkState [made_with ex_defaults KClient; made_with ex_defaults KServer ++ [ORegisterTTL (10 * second)]; []; []; []; []; []; [];
    made_with ex_defaults KBroker; made_with ex_defaults KSelector; []; []] ex_defaults.

Definition ex_flags (strings : list (string * string)) : flags :=
  mkFlags (fun n => match List.find (fun kv => String.eqb kv.1 n) strings with Some kv => kv.2 | None => "" end)
    (fun n => if String.eqb n "register_ttl" then 60 else if String.eqb n "register_interval" then 30
              else if String.eqb n "client_retries" then 5 else 0)%Z (fun _ => []).

Definition ex_known (k : kind) (name : string) : bool := true.
Definition ex_init (c : comp) (os : list opt) : option string := None.
Definition ex_duration (s : string) : option Z := None.

Definition ex_before (strings : list (string * string)) : state * option ended :=
  Before ex_defaults ex_known ex_init ex_duration (ex_flags strings) ex_state.

(** Without any flag the lifetime that was set is replaced by that of the flag's default. *)
Example ttl_replaced :
  let st := (ex_before []).1 in latest is_ttl (opts_of st (p_server (s_parts st))) = Some (60 * second)%Z.
Proof. vm_compute. reflexivity. Qed.

(** A broker that is named does not get the registry that is named. *)
Example named_broker_default_registry :
  let st := (ex_before [("registry", "etcd"); ("broker", "nats")]).1 in
  c_name (p_registry (s_parts st)) = "etcd" /\ c_name <$> latest is_registry (opts_of st (p_broker (s_parts st))) = Some "mdns".
Proof. vm_compute. done. Qed.

(** A client that is named does not get the registry the service has. *)
Example named_client_default_registry :
  let st := (Before ex_defaults ex_known ex_init ex_duration (ex_flags [("client", "grpc")])
    (give (mkComp "rpc" 1) [ORegistry (mkComp "etcd" 12)] (mkState (s_heap ex_state ++ [[]]) (set_part KRegistry (mkComp "etcd" 12) ex_defaults)))).1 in
  c_name <$> latest is_registry (opts_of st (p_client (s_parts st))) = Some "mdns".
Proof. vm_compute. reflexivity. Qed.

Lemma ex_connected : connected ex_state.
Proof.
  constructor; try reflexivity; [|apply Forall_nil_2|discriminate].
  repeat (apply Forall_cons_2; [apply (bool_decide_eq_true_1 _); reflexivity|]). apply Forall_nil_2.
Defined.

Lemma Before_connected_witness :
  let st := (ex_before [("registry", "etcd"); ("selector", "static"); ("transport", "grpc")]).1 in
  connected st /\ c_name (p_registry (s_parts st)) = "etcd".
Proof.
  intros st. apply (Before_connected ex_defaults ex_known ex_init ex_duration
    (ex_flags [("registry", "etcd"); ("selector", "static"); ("transport", "grpc")]) ex_state st ex_connected).
  - intros k flag Hin. apply elem_of_cons in Hin as [[= -> ->]|Hin]; [reflexivity|]. apply elem_of_cons in Hin as [[= -> ->]|Hin]; [reflexivity|].
    apply not_elem_of_nil in Hin. destruct Hin.
  - reflexivity.
  - vm_compute. reflexivity.
Defined.

Lemma unknown_store_refused_witness :
  Before ex_defaults (fun _ _ => false) ex_init ex_duration (ex_flags [("store", "cockroach")]) ex_state =
    (ex_state, Some (Returned "Unsupported store: cockroach")).
Proof.
  exact (unknown_store_refused ex_defaults (fun _ _ => false) ex_init ex_duration (ex_flags [("store", "cockroach")]) ex_state
    (mkProgress ex_state [] []) eq_refl eq_refl eq_refl).
Defined.
