(* ===== verification/Service.v ===== *)
(** * A service: [service.go], [options.go]

    The options of a service set its parts and pass them on to each other; [Init] applies
    the command line once; [Start], [Stop] and [Run] run the hooks around the server. Hooks,
    the server and the profile are functions on a state of their own. *)
From S2P Require Import Prelude GoStrings Cmd.

(** ** Options *)
Record Options := mkOptions {
  o_st : state;
  o_Cache : comp;
  o_Signal : bool;
  o_app : string;
}.

Definition on_st (f : state -> state) (o : Options) : Options := mkOptions (f (o_st o)) (o_Cache o) (o_Signal o) (o_app o).

Definition put_part (k : kind) (c : comp) (st : state) : state := mkState (s_heap st) (set_part k c (s_parts st)).

Definition client_of (st : state) : comp := p_client (s_parts st).
Definition server_of (st : state) : comp := p_server (s_parts st).

(** [newOptions]: the parts are the defaults of the packages. *)
Definition newOptions (st : state) (cache : comp) (app : string) (opts : list (Options -> Options)) : Options :=
  foldl (fun o f => f o) (mkOptions st cache true app) opts.

Definition Broker (b : comp) : Options -> Options :=
  on_st (fun st => let st := put_part KBroker b st in
    give (server_of st) [OBroker b] (client_init (client_of st) [OBroker b] st)).

Definition Registry (r : comp) : Options -> Options :=
  on_st (fun st => let st := put_part KRegistry r st in
    let st := give (server_of st) [ORegistry r] (client_init (client_of st) [ORegistry r] st) in
    give (p_broker (s_parts st)) [ORegistry r] st).

Definition Transport (t : comp) : Options -> Options :=
  on_st (fun st => let st := put_part KTransport t st in
    give (server_of st) [OTransport t] (client_init (client_of st) [OTransport t] st)).

Definition Selector (s : comp) : Options -> Options := on_st (fun st => client_init (client_of st) [OSelector s] st).

(** An option that only the server gets. *)
Definition server_option (x : opt) : Options -> Options := on_st (fun st => give (server_of st) [x] st).

(** An option that only sets a part. *)
Definition part_option (k : kind) (c : comp) : Options -> Options := on_st (put_part k c).

Definition Client := part_option KClient.
Definition Server := part_option KServer.
Definition Store := part_option KStore.
Definition Auth := part_option KAuth.
Definition Config := part_option KConfig.
Definition Runtime := part_option KRuntime.
Definition Profile := part_option KProfile.

Definition Tracer (t : comp) := server_option (OTracer t).
Definition Address (addr : string) := server_option (OAddress addr).
Definition Name (n : string) := server_option (OName n).
Definition Version (v : string) := server_option (OVersion v).
Definition Metadata (md : gmap string string) := server_option (OMetadata md).
Definition RegisterTTL (t : Z) := server_option (ORegisterTTL t).
Definition RegisterInterval (t : Z) := server_option (ORegisterInterval t).

Definition Cache (c : comp) (o : Options) : Options := mkOptions (o_st o) c (o_Signal o) (o_app o).

Definition HandleSignal (b : bool) (o : Options) : Options := mkOptions (o_st o) (o_Cache o) b (o_app o).

(** The wrappers are applied from the last to the first. *)
Fixpoint wrap_from (n : nat) (ws : list (comp -> comp)) (c : comp) : comp :=
  match n with
  | 0 => c
  | S n => wrap_from n ws (match ws !! n with Some w => w c | None => c end)
  end.

Definition WrapClient (ws : list (comp -> comp)) : Options -> Options :=
  on_st (fun st => put_part KClient (wrap_from (length ws) ws (client_of st)) st).

(** ** [Init] *)
Definition is_name (o : opt) : option string := match o with OName s => Some s | _ => None end.
Definition is_table (o : opt) : option string := match o with OTable s => Some s | _ => None end.

Section init.
Context (D : parts) (known : kind -> string -> bool) (init_err : comp -> list opt -> option string).
Context (ParseDuration : string -> option Z).

Record service := mkService { s_opts : Options; s_once : bool }.

Definition with_app (name : string) (o : Options) : Options := mkOptions (o_st o) (o_Cache o) (o_Signal o) name.

Definition table_of (st : state) (c : comp) : string := default "" (latest is_table (opts_of st c)).

(** What [Init] leaves; [Exited] when the process ends: the application exits on an error of
    [Before]. An error of giving the store its table is only logged. *)
Definition Init (f : flags) (opts : list (Options -> Options)) (s : service) : service * option ended :=
  let o := foldl (fun o f => f o) (s_opts s) opts in
  if s_once s then (mkService o true, None)
  else
    let o := if String.eqb (o_app o) "" then with_app (default "" (latest is_name (opts_of (o_st o) (server_of (o_st o))))) o else o in
    match Before D known init_err ParseDuration f (o_st o) with
    | (st, Some (Returned err)) => (mkService (on_st (fun _ => st) o) true, Some (Exited err))
    | (st, Some e) => (mkService (on_st (fun _ => st) o) true, Some e)
    | (st, None) =>
        let store := p_store (s_parts st) in
        let st := if String.eqb (table_of st store) "" && bool_decide (init_err store [OTable (o_app o)] = None)
                  then give store [OTable (o_app o)] st else st in
        (mkService (on_st (fun _ => st) o) true, None)
    end.
End init.

(** ** Running *)
Section run.
Context {W : Type}.
Notation hook := (W -> W * option string).

Record hooks := mkHooks {
  BeforeStart : list hook; AfterStart : list hook; BeforeStop : list hook; AfterStop : list hook;
  server_Start : hook; server_Stop : hook;
  profile : option (hook * hook);
}.

(** The first error ends the loop. *)
Fixpoint run_until (hs : list hook) (w : W) : W * option string :=
  match hs with
  | [] => (w, None)
  | h :: hs => match h w with (w, None) => run_until hs w | r => r end
  end.

(** Every hook runs, and the error is that of the last; [err] is what there is before. *)
Fixpoint run_all (hs : list hook) (w : W) (err : option string) : W * option string :=
  match hs with
  | [] => (w, err)
  | h :: hs => let '(w, err) := h w in run_all hs w err
  end.

Definition Start (s : hooks) (w : W) : W * option string :=
  match run_until (BeforeStart s) w with
  | (w, Some err) => (w, Some err)
  | (w, None) =>
      match server_Start s w with
      | (w, Some err) => (w, Some err)
      | (w, None) => run_until (AfterStart s) w
      end
  end.

Definition Stop (s : hooks) (w : W) : W * option string :=
  let '(w, err) := run_all (BeforeStop s) w None in
  match server_Stop s w with
  | (w, Some serr) => (w, Some serr)
  | (w, None) => run_all (AfterStop s) w err
  end.

(** What [Run] does between starting and stopping is to wait. [None]: the process exited
    because help was asked for. *)
Definition Run (args : list string) (s : hooks) (w : W) : option (W * option string) :=
  if existsb (fun v => String.eqb v "-h" || String.eqb v "--help") args then None
  else
    let body w := match Start s w with
                  | (w, Some err) => (w, Some err)
                  | (w, None) => Stop s w
                  end in
    match profile s with
    | None => Some (body w)
    | Some (pstart, pstop) =>
        match pstart w with
        | (w, Some err) => Some (w, Some err)
        | (w, None) => let '(w, err) := body w in Some ((pstop w).1, err)
        end
    end.

(** ** Hooks *)
Lemma run_until_app hs1 hs2 w :
  run_until (hs1 ++ hs2) w = match run_until hs1 w with (w, None) => run_until hs2 w | r => r end.
Proof. revert w. induction hs1 as [|h hs1 IH]; intros w; cbn; [done|]. destruct (h w) as [w1 [e|]]; [done|apply IH]. Qed.

Lemma run_all_app hs1 hs2 w err : run_all (hs1 ++ hs2) w err = run_all hs2 (run_all hs1 w err).1 (run_all hs1 w err).2.
Proof. revert w err. induction hs1 as [|h hs1 IH]; intros w err; cbn; [done|]. destruct (h w) as [w1 e]. apply IH. Qed.

(** Starting is running the hooks before, the server and the hooks after it as one list
    that ends at the first error; stopping with a server that stops without an error is
    running all of the hooks and the server whatever errors they give, and the error is that
    of the last hook alone: errors of hooks before it are lost. *)
Theorem Start_Stop_spec s w :
  Start s w = run_until (BeforeStart s ++ [server_Start s] ++ AfterStart s) w /\
  ((server_Stop s (run_all (BeforeStop s) w None).1).2 = None ->
   (Stop s w).1 = (run_all (BeforeStop s ++ [server_Stop s] ++ AfterStop s) w None).1 /\
   forall hs h, BeforeStop s ++ AfterStop s = hs ++ [h] -> exists w', (Stop s w).2 = (h w').2).
Proof.
  split.
  - unfold Start. rewrite run_until_app. destruct (run_until (BeforeStart s) w) as [w1 [e|]]; [done|]. cbn.
    by destruct (server_Start s w1) as [w2 [e|]].
  - intros Hstop. unfold Stop. rewrite run_all_app. cbn [app run_all].
    destruct (run_all (BeforeStop s) w None) as [w1 e1] eqn:H1. cbn [fst snd] in *. destruct (server_Stop s w1) as [w2 [e|]] eqn:Hs; [done|].
    split.
    + clear. revert w2 e1. generalize (@None string). induction (AfterStop s) as [|h hs IH]; intros e w2 e1; cbn; [done|].
      by destruct (h w2).
    + intros hs h Heq. destruct (AfterStop s) as [|a l _] using rev_ind.
      * rewrite app_nil_r in Heq. rewrite Heq, run_all_app in H1. cbn in H1. destruct (run_all hs w None) as [w0 e0].
        cbn in H1. destruct (h w0) as [w3 e3] eqn:Hh. injection H1 as <- <-. exists w0. by rewrite Hh.
      * rewrite app_assoc in Heq. apply app_inj_tail in Heq as [_ ->]. rewrite run_all_app. cbn.
        destruct (run_all l w2 e1) as [w0 e0]. cbn. exists w0. by destruct (h w0).
Qed.

(** A service whose hook after the start fails is left with its server running: [Run]
    returns the error as [Start] gave it, and nothing is stopped but the profile. *)
Theorem Run_leaves_server args s w w' err :
  existsb (fun v => String.eqb v "-h" || String.eqb v "--help") args = false -> profile s = None ->
  Start s w = (w', Some err) -> Run args s w = Some (w', Some err).
Proof. intros Ha Hp Hs. unfold Run. by rewrite Ha, Hp, Hs. Qed.
End run.

(** ** Options and the command line *)
Lemma wrap_from_spec ws c : wrap_from (length ws) ws c = foldr (fun w c => w c) c ws.
Proof.
  assert (forall n ws c, n <= length ws -> wrap_from n ws c = foldr (fun w c => w c) c (take n ws)) as Hw; [|by rewrite Hw, take_ge].
  clear. induction n as [|n IH]; intros ws c Hn; [done|]. cbn [wrap_from]. destruct (lookup_lt_is_Some_2 ws n ltac:(lia)) as [w Hl].
  rewrite Hl, IH by lia. rewrite (take_S_r _ _ _ Hl), foldr_app. done.
Qed.

Lemma linked_client_init_latest {A} (f : opt -> option A) c os st c' ps :
  (forall r, f (ORegistry r) = None) -> c_id c <> c_id c' ->
  latest f (opts_of (client_init c os st) c' ++ ps) = latest f (opts_of st c' ++ ps).
Proof.
  intros Hf Hc. revert st. induction os as [|o os IH]; intros st; [done|]. cbn. fold (client_init c os (client_opt c st o)). rewrite IH.
  unfold client_opt. assert (forall st', latest f (opts_of (give c [o] st') c' ++ ps) = latest f (opts_of st' c' ++ ps)) as Hg.
  { intros st'. rewrite opts_of_give, decide_False; [done|]. by intros [? _]. }
  rewrite Hg. destruct o; try done. destruct (latest is_selector _); [|done]. by apply latest_give_other.
Qed.

(** Giving a service a registry, in the code or on the command line, when its parts
    belong together: they still do, and all of them use that registry. *)
Theorem Registry_connected o r : connected (o_st o) -> connected (o_st (Registry r o)) /\ p_registry (s_parts (o_st (Registry r o))) = r.
Proof.
  intros Hl. destruct o as [st cache sig app]. cbn [Registry on_st o_st] in *. set (st1 := put_part KRegistry r st).
  destruct Hl as [Hr A1 A2 A3 B1 B2 B3 B4 Hs Hb Hp Hdis]. rewrite !app_nil_r in *. rewrite !Forall_cons in Hr.
  destruct Hr as (R1 & R2 & R3 & R4 & _). set (c := client_of st1). set (sel := p_selector (s_parts st)).
  assert (client_init c [ORegistry r] st1 = give c [ORegistry r] (give sel [ORegistry r] st1)) as Hci.
  { change (client_init c [ORegistry r] st1) with (client_opt c st1 (ORegistry r)). unfold client_opt.
    assert (latest is_selector (opts_of st1 c) = Some sel) as -> by exact B4. done. }
  rewrite Hci. set (st2 := give c [ORegistry r] (give sel [ORegistry r] st1)).
  assert (forall x, latest is_registry (opts_of st1 x) = latest is_registry (opts_of st x)) as Hsame by done.
  assert (forall x s', c_id x < length (s_heap s') -> latest is_registry (opts_of (give x [ORegistry r] s') x) = Some r) as Hgot.
  { intros x s' Hx. rewrite opts_of_give, decide_True by done. by rewrite latest_app. }
  assert (forall x y s', latest is_registry (opts_of s' y) = Some r -> latest is_registry (opts_of (give x [ORegistry r] s') y) = Some r) as Hkeep.
  { intros x y s' Hy. pose proof (latest_give_registry x r s' y []) as H. rewrite !app_nil_r in H. by apply H. }
  assert (forall A (g : opt -> option A) x y s', g (ORegistry r) = None ->
    latest g (opts_of (give x [ORegistry r] s') y) = latest g (opts_of s' y)) as Hoth.
  { intros A g x y s' Hg. pose proof (latest_give_other g x r s' y [] Hg) as H. by rewrite !app_nil_r in H. }
  assert (length (s_heap st2) = length (s_heap st)) as Hlen by (unfold st2; by rewrite !length_give).
  split; [|done]. constructor; rewrite ?app_nil_r; cbn [s_parts give]; try done;
    try (rewrite Hoth by done; unfold st2; rewrite !Hoth by done; first [exact A2|exact A3|exact B2|exact B3|exact B4]).
  - rewrite !length_give, Hlen. repeat (apply Forall_cons_2; [done|]). apply Forall_nil_2.
  - apply Hkeep, Hgot. by rewrite Hlen.
  - apply Hkeep, Hkeep. unfold st2. apply Hgot. by rewrite !length_give.
  - do 3 apply Hkeep. by apply Hgot.
  - apply Hgot. by rewrite !length_give, Hlen.
Qed.

(** ** Examples and witnesses *)
Definition ex_options : Options := newOptions ex_state (mkComp "memory" 20) "" [].

Lemma Registry_connected_witness :
  connected (o_st (Registry (mkComp "etcd" 21) ex_options)) /\
  p_registry (s_parts (o_st (Registry (mkComp "etcd" 21) ex_options))) = mkComp "etcd" 21.
Proof. exact (Registry_connected ex_options (mkComp "etcd" 21) ex_connected). Defined.

(** The order of the options counts: a broker that is set after the registry keeps its own. *)
Example broker_after_registry :
  let st := o_st (Broker (mkComp "nats" 8) (Registry (mkComp "etcd" 21)
    (on_st (fun st => mkState (s_heap st ++ [[]]) (set_part KBroker (mkComp "http" 12) (s_parts st))) ex_options))) in
  c_name <$> latest is_registry (opts_of st (p_broker (s_parts st))) = Some "mdns".
Proof. vm_compute. reflexivity. Qed.

(** A name from the command line comes too late for the table of the store. *)
Example table_of_old_name :
  let s := (Init ex_defaults ex_known ex_init ex_duration (ex_flags [("server_name", "greeter")]) [server_option (OName "old")]
    (mkService ex_options false)).1 in
  let st := o_st (s_opts s) in
  table_of st (p_store (s_parts st)) = "old" /\ latest is_name (opts_of st (server_of st)) = Some "greeter".
Proof. vm_compute. done. Qed.

(** Hooks that write down what ran. *)
Definition ex_hook (n : string) (err : option string) (w : list string) : list string * option string := (w ++ [n], err).

Definition ex_hooks : hooks :=
  mkHooks [ex_hook "before start" None] [ex_hook "after start" None] [ex_hook "first" (Some "lost")] [ex_hook "last" None]
    (ex_hook "start" None) (ex_hook "stop" None) None.

Lemma Start_Stop_spec_witness :
  (Stop ex_hooks []) = (["first"; "stop"; "last"], None) /\
  (Stop ex_hooks []).1 = (run_all (BeforeStop ex_hooks ++ [server_Stop ex_hooks] ++ AfterStop ex_hooks) [] None).1.
Proof. split; [reflexivity|]. apply (proj2 (Start_Stop_spec ex_hooks []) eq_refl). Defined.

Lemma Run_leaves_server_witness :
  Run [] (mkHooks [] [ex_hook "after start" (Some "no")] [] [] (ex_hook "start" None) (ex_hook "stop" None) None) [] =
    Some (["start"; "after start"], Some "no").
Proof. apply (Run_leaves_server [] _ [] ["start"; "after start"] "no"); reflexivity. Defined.
