(* ===== verification/Logger.v ===== *)
(** * The logger: [logger/default.go], [level.go], [helper.go], [options.go]

    A logger has a level and fields; logging makes a record for the debug log and prints a
    line. Fields are rendered values; the clock's text, the caller and the order in which
    maps are visited are arguments. *)
From Stdlib Require Import Sorted.
From stdpp Require Import sorting.
From S2P Require Import Prelude GoStrings GoStrconv.
From S2P Require Store.

(** ** Levels *)
Definition TraceLevel : Z := -2.
Definition DebugLevel : Z := -1.
Definition InfoLevel : Z := 0.
Definition WarnLevel : Z := 1.
Definition ErrorLevel : Z := 2.
Definition FatalLevel : Z := 3.

Definition level_String (l : Z) : string :=
  if (l =? TraceLevel)%Z then "trace" else if (l =? DebugLevel)%Z then "debug" else if (l =? InfoLevel)%Z then "info"
  else if (l =? WarnLevel)%Z then "warn" else if (l =? ErrorLevel)%Z then "error" else if (l =? FatalLevel)%Z then "fatal" else "".

Definition Enabled (l lvl : Z) : bool := (l <=? lvl)%Z.

(** The level, and whether it is known. *)
Definition GetLevel (s : string) : Z * bool :=
  if String.eqb s (level_String TraceLevel) then (TraceLevel, true)
  else if String.eqb s (level_String DebugLevel) then (DebugLevel, true)
  else if String.eqb s (level_String InfoLevel) then (InfoLevel, true)
  else if String.eqb s (level_String WarnLevel) then (WarnLevel, true)
  else if String.eqb s (level_String ErrorLevel) then (ErrorLevel, true)
  else if String.eqb s (level_String FatalLevel) then (FatalLevel, true)
  else (InfoLevel, false).

(** ** Loggers *)
Record Options := mkOptions { o_Level : Z; o_Fields : gmap string string; o_CallerSkipCount : Z }.

Definition WithFields (fields : gmap string string) (o : Options) : Options := mkOptions (o_Level o) fields (o_CallerSkipCount o).
Definition WithLevel (level : Z) (o : Options) : Options := mkOptions level (o_Fields o) (o_CallerSkipCount o).
Definition WithCallerSkipCount (c : Z) (o : Options) : Options := mkOptions (o_Level o) (o_Fields o) c.

Definition logger_Init (opts : list (Options -> Options)) (o : Options) : Options := foldl (fun o f => f o) o opts.

Definition NewLogger (opts : list (Options -> Options)) : Options := logger_Init opts (mkOptions InfoLevel ∅ 2).

Definition add_all (o : map_order) (m into : gmap string string) : gmap string string :=
  foldl (fun m kv => <[kv.1 := kv.2]> m) into (map_range o m).

(** A logger of its own with further fields. *)
Definition Fields (o1 o2 : map_order) (fields : gmap string string) (l : Options) : Options :=
  mkOptions (o_Level l) (add_all o2 fields (add_all o1 (o_Fields l) ∅)) (o_CallerSkipCount l).

Definition copyFields (o : map_order) (src : gmap string string) : gmap string string := add_all o src ∅.

(** The last two parts of a path. *)
Definition logCallerfilePath (path : string) : string :=
  match last_index "/" path with
  | None => path
  | Some idx =>
      match last_index "/" (str_take idx path) with
      | None => path
      | Some idx => str_drop (S idx) path
      end
  end.

Record record := mkRecord { rc_Timestamp : Z; rc_Message : string; rc_Metadata : gmap string string }.

Definition log_fields (o : map_order) (level : Z) (caller : option (string * Z)) (l : Options) : gmap string string :=
  let fields := <["level" := level_String level]> (copyFields o (o_Fields l)) in
  match caller with
  | Some (file, line) => <["file" := logCallerfilePath file +:+ ":" +:+ fmt_Z line]> fields
  | None => fields
  end.

Definition metadata_text (keys : list string) (fields : gmap string string) : string :=
  foldl (fun s k => s +:+ " " +:+ k +:+ "=" +:+ default "" (fields !! k)) "" keys.

Section log.
Context (Format : Z -> string).

(** [Log] and, with its message formatted, [Logf]: the record that is written to the debug
    log and the line that is printed. *)
Definition Log (o o' : map_order) (now : Z) (caller : option (string * Z)) (level : Z) (message : string) (l : Options) :
    option (record * string) :=
  if negb (Enabled (o_Level l) level) then None
  else
    let fields := log_fields o level caller l in
    let entries := map_range o' fields in
    let rec := mkRecord now message (foldl (fun m kv => <[kv.1 := kv.2]> m) ∅ entries) in
    let keys := Store.sort_keys (map fst entries) in
    Some (rec, Format now +:+ " " +:+ metadata_text keys fields +:+ " " +:+ message +:+ String "010" "").

(** ** The helper: the methods of a level ask whether it is enabled first; [Fatal] exits. *)
Definition helper_log (o o' : map_order) (now : Z) (caller : option (string * Z)) (level : Z) (message : string) (l : Options) :
    option (record * string) :=
  if negb (Enabled (o_Level l) level) then None else Log o o' now caller level message l.

Definition helper_Fatal (o o' : map_order) (now : Z) (caller : option (string * Z)) (message : string) (l : Options) :
    option (record * string) * bool :=
  if negb (Enabled (o_Level l) FatalLevel) then (None, false) else (Log o o' now caller FatalLevel message l, true).

(** The functions of the package log with the default logger, and exit whatever its level. *)
Definition package_Fatal (o o' : map_order) (now : Z) (caller : option (string * Z)) (message : string) (l : Options) :
    option (record * string) * bool :=
  (Log o o' now caller FatalLevel message l, true).
End log.

Definition WithError (o1 o2 : map_order) (err : string) (l : Options) : Options := Fields o1 o2 {["error" := err]} l.

Definition V (lvl : Z) (log : option Options) (dflt : Options) : bool := (o_Level (default dflt log) <=? lvl)%Z.

(** ** Fields *)
Lemma add_all_spec o m into : add_all o m into = m ∪ into.
Proof. apply foldl_insert_range. Qed.

(** The fields of a logger with more fields: the new ones, and those of the old one they do
    not replace; the old logger is as it was. *)
Theorem Fields_spec o1 o2 fields l :
  Fields o1 o2 fields l = mkOptions (o_Level l) (fields ∪ o_Fields l) (o_CallerSkipCount l).
Proof. unfold Fields. by rewrite !add_all_spec, (right_id_L ∅ (∪)). Qed.

(** The names of the levels are read as the levels, and nothing else is. *)
Theorem GetLevel_spec s l : GetLevel s = (l, true) <-> level_String l = s /\ (TraceLevel <= l <= FatalLevel)%Z.
Proof.
  unfold GetLevel, TraceLevel, FatalLevel. split.
  - repeat (match goal with |- context [if String.eqb s ?t then _ else _] => destruct (String.eqb_spec s t) as [->|_] end;
      [intros [= <-]; split; [reflexivity|vm_compute; split; discriminate]|]). done.
  - intros [<- Hl]. destruct (decide (l = -2)%Z) as [->|]; [reflexivity|]. destruct (decide (l = -1)%Z) as [->|]; [reflexivity|].
    destruct (decide (l = 0)%Z) as [->|]; [reflexivity|]. destruct (decide (l = 1)%Z) as [->|]; [reflexivity|].
    destruct (decide (l = 2)%Z) as [->|]; [reflexivity|]. assert (l = 3%Z) as -> by lia. reflexivity.
Qed.

(** ** Keys *)
Lemma str_le_iff s t : Store.str_le s t <-> String.le s t.
Proof.
  unfold Store.str_le, String.le, String.leb. destruct (String.compare s t); cbn; split; intros H; done.
Qed.

Lemma sort_keys_unique l1 l2 : l1 ≡ₚ l2 -> Store.sort_keys l1 = Store.sort_keys l2.
Proof.
  intros Hp. assert (forall l, Sorted String.le (Store.sort_keys l)) as Hs.
  { intros l. pose proof (Store.sort_keys_sorted l) as Hl. induction Hl as [|s l' Hl IH Hs]; [constructor|].
    constructor; [done|]. destruct Hs; constructor. by apply str_le_iff. }
  apply (Sorted_unique String.le); [apply Hs|apply Hs|]. by rewrite !Store.sort_keys_perm.
Qed.

Section log_facts.
Context (Format : Z -> string).

(** What is logged, for any order in which maps are visited: nothing below the level of
    the logger, and else a record with the fields of the logger, the level and the caller,
    and a line that has them by the order of their names. *)
Theorem Log_spec o o' now caller level message l :
  Log Format o o' now caller level message l =
    if (level <? o_Level l)%Z then None
    else
      let fields := log_fields order_id level caller l in
      Some (mkRecord now message fields,
            Format now +:+ " " +:+ metadata_text (Store.sort_keys (map fst (map_to_list fields))) fields +:+ " " +:+ message +:+ String "010" "").
Proof.
  unfold Log, Enabled. destruct (Z.leb_spec (o_Level l) level) as [Hl|Hl]; destruct (Z.ltb_spec level (o_Level l)) as [Hl'|Hl']; cbn [negb];
    [lia| |done|lia].
  assert (log_fields o level caller l = log_fields order_id level caller l) as ->.
  { unfold log_fields, copyFields. by rewrite !add_all_spec. }
  set (fields := log_fields order_id level caller l). cbn zeta. rewrite foldl_insert_range, (right_id_L ∅ (∪)).
  assert (Store.sort_keys (map fst (map_range o' fields)) = Store.sort_keys (map fst (map_to_list fields))) as ->; [|done].
  apply sort_keys_unique. apply Permutation_map. apply map_range_perm.
Qed.

(** The helper logs as its logger does, but its [Fatal] does not exit when the logger is set
    above that level, as that of the package does. *)
Theorem helper_spec o o' now caller level message l :
  helper_log Format o o' now caller level message l = Log Format o o' now caller level message l /\
  (helper_Fatal Format o o' now caller message l).2 = (o_Level l <=? FatalLevel)%Z /\
  (package_Fatal Format o o' now caller message l).2 = true.
Proof.
  unfold helper_log, helper_Fatal, Log, Enabled. split; [by destruct (o_Level l <=? level)%Z|].
  split; [|done]. by destruct (o_Level l <=? FatalLevel)%Z.
Qed.
End log_facts.

(** The caller is named by the last two parts of its path. *)
Theorem logCallerfilePath_spec pre a b :
  str_has "/" a = false -> str_has "/" b = false ->
  logCallerfilePath (pre +:+ String "/" (a +:+ String "/" b)) = a +:+ String "/" b.
Proof.
  intros Ha Hb. unfold logCallerfilePath.
  replace (pre +:+ String "/" (a +:+ String "/" b)) with ((pre +:+ String "/" a) +:+ String "/" b) by (by rewrite str_app_assoc).
  rewrite last_index_app by done. rewrite str_take_app, last_index_app by done. rewrite str_app_assoc. cbn [String.append].
  change (pre +:+ String "/" (a +:+ String "/" b)) with (pre +:+ (String "/" "" +:+ (a +:+ String "/" b))). rewrite <- str_app_assoc.
  replace (S (String.length pre)) with (String.length (pre +:+ String "/" "")) by (rewrite str_length_app; cbn; lia). apply str_drop_app.
Qed.

(** ** Examples and witnesses *)
Example ex_line :
  snd <$> Log (fun _ => "now") order_rev order_rev 0 (Some ("/go/src/app/main.go", 12%Z)) WarnLevel "hi"
    (Fields order_id order_id {["b" := "2"; "level" := "mine"]} (NewLogger [WithFields {["a" := "1"]}])) =
  Some ("now  a=1 b=2 file=app/main.go:12 level=warn hi" +:+ String "010" "").
Proof. vm_compute. reflexivity. Qed.

Lemma logCallerfilePath_spec_witness : logCallerfilePath "/go/src/app/main.go" = "app/main.go".
Proof. exact (logCallerfilePath_spec "/go/src" "app" "main.go" eq_refl eq_refl). Defined.
