(* ===== verification/KubeApi.v ===== *)
(** * Requests to the kubernetes API: [util/kubernetes/api]

    A request is built by methods that return it, sent once, and its answer is an error or
    data. The cluster, and what [net/http] says of an address, are arguments; errors are
    their texts. *)
From S2P Require Import Prelude GoStrings GoStrconv GoHttp.
From S2P Require Store Qson.

(** ** Values of a query: [net/url.Values] *)
Notation Values := (gmap string (list string)).

Definition hex (n : N) : ascii := ascii_of_N (if (n <? 10)%N then n + 48 else n + 55)%N.

Definition unreserved (a : ascii) : bool :=
  let n := nat_of_ascii a in
  is_digit a || ((65 <=? n) && (n <=? 90)) || ((97 <=? n) && (n <=? 122)) || str_has a "-_.~".

Definition escape_char (a : ascii) : string :=
  if unreserved a then String a ""
  else if Ascii.eqb a " " then "+"
  else String "%" (String (hex (N_of_ascii a / 16)) (String (hex (N_of_ascii a mod 16)) "")).

Fixpoint QueryEscape (s : string) : string :=
  match s with "" => "" | String a s => escape_char a +:+ QueryEscape s end.

(** [Values.Encode]: the keys in their order. *)
Definition Encode (v : Values) : string :=
  join "&" (k ← Store.sort_keys (map fst (map_to_list v));
            (fun x => QueryEscape k +:+ "=" +:+ QueryEscape x) <$> default [] (v !! k)).

Definition values_Get (k : string) (v : Values) : string := first_of (default [] (v !! k)).

(** ** The request *)
Record Request := mkRequest {
  q_body : option string;
  q_err : option string;
  q_header : Header;
  q_params : Values;
  q_resourceName : option string;
  q_subResource : option string;
  q_method : string;
  q_host : string;
  q_namespace : string;
  q_resource : string }.

Record Params' := mkParams { p_LabelSelector : gmap string string; p_Additional : gmap string string }.

Record Options := mkOptions { o_BearerToken : option string; o_Host : string; o_Namespace : string }.

(** [Header.Add] *)
Definition SetHeader (k v : string) (r : Request) : Request :=
  mkRequest (q_body r) (q_err r) (<[canonical k := default [] (q_header r !! canonical k) ++ [v]]> (q_header r)) (q_params r)
    (q_resourceName r) (q_subResource r) (q_method r) (q_host r) (q_namespace r) (q_resource r).

Definition NewRequest (opts : Options) : Request :=
  let req := mkRequest None None ∅ ∅ None None "" (o_Host opts) (o_Namespace opts) "" in
  match o_BearerToken opts with Some t => SetHeader "Authorization" ("Bearer " +:+ t) req | None => req end.

Definition verb (method : string) (r : Request) : Request :=
  mkRequest (q_body r) (q_err r) (q_header r) (q_params r) (q_resourceName r) (q_subResource r) method (q_host r) (q_namespace r) (q_resource r).

Definition Namespace (s : string) (r : Request) : Request :=
  if String.eqb s "" then r
  else mkRequest (q_body r) (q_err r) (q_header r) (q_params r) (q_resourceName r) (q_subResource r) (q_method r) (q_host r) s (q_resource r).

Definition Resource (s : string) (r : Request) : Request :=
  mkRequest (q_body r) (q_err r) (q_header r) (q_params r) (q_resourceName r) (q_subResource r) (q_method r) (q_host r) (q_namespace r) s.

Definition SubResource (s : string) (r : Request) : Request :=
  mkRequest (q_body r) (q_err r) (q_header r) (q_params r) (q_resourceName r) (Some s) (q_method r) (q_host r) (q_namespace r) (q_resource r).

Definition Name (s : string) (r : Request) : Request :=
  mkRequest (q_body r) (q_err r) (q_header r) (q_params r) (Some s) (q_subResource r) (q_method r) (q_host r) (q_namespace r) (q_resource r).

Definition set_body (b : string) (r : Request) : Request :=
  mkRequest (Some b) (q_err r) (q_header r) (q_params r) (q_resourceName r) (q_subResource r) (q_method r) (q_host r) (q_namespace r) (q_resource r).

Definition set_err (e : string) (r : Request) : Request :=
  mkRequest (q_body r) (Some e) (q_header r) (q_params r) (q_resourceName r) (q_subResource r) (q_method r) (q_host r) (q_namespace r) (q_resource r).

Definition set_params (v : Values) (r : Request) : Request :=
  mkRequest (q_body r) (q_err r) (q_header r) v (q_resourceName r) (q_subResource r) (q_method r) (q_host r) (q_namespace r) (q_resource r).

(** What a body is made of: a reader, with what reading it gives, or a value. *)
Inductive body_in (V : Type) := Reader (read : string + string) | Value (v : V).
Arguments Reader {V} read.
Arguments Value {V} v.

Definition header_Get (k : string) (h : Header) : string := first_of (default [] (h !! canonical k)).

Definition Body {V} (encode : body_in V -> string + string) (b : body_in V) (r : Request) : Request :=
  if negb (String.eqb (header_Get "Content-Type" (q_header r)) "application/yaml") then
    match encode b with inl e => set_err e r | inr s => set_body s r end
  else
    match b with
    | Value _ => set_err "invalid data" r
    | Reader (inl e) => set_err e r
    | Reader (inr s) => set_body s r
    end.

(** One more label of the selector. *)
Definition add_label (v : Values) (kv : string * string) : Values :=
  let value := kv.1 +:+ "=" +:+ kv.2 in
  let label := values_Get "labelSelector" v in
  let value := if String.eqb label "" then value else label +:+ "," +:+ value in
  <["labelSelector" := [value]]> v.

Definition Params (o1 o2 : map_order) (p : Params') (r : Request) : Request :=
  let v := foldl add_label (q_params r) (map_range o1 (p_LabelSelector p)) in
  let v := foldl (fun v kv => <[kv.1 := [kv.2]]> v) v (map_range o2 (p_Additional p)) in
  set_params v r.

(** What is sent. *)
Record http_request := mkHttp { h_method : string; h_url : string; h_header : Header; h_body : option string }.

Definition request_url (r : Request) : string :=
  let url :=
    if String.eqb (q_resource r) "namespace" then q_host r +:+ "/api/v1/namespaces/"
    else if String.eqb (q_resource r) "deployment" then
      q_host r +:+ "/apis/apps/v1/namespaces/" +:+ q_namespace r +:+ "/" +:+ q_resource r +:+ "s/"
    else q_host r +:+ "/api/v1/namespaces/" +:+ q_namespace r +:+ "/" +:+ q_resource r +:+ "s/" in
  let url :=
    match q_resourceName r with
    | Some n => url +:+ n +:+ match q_subResource r with Some s => "/" +:+ s | None => "" end
    | None => url
    end in
  if decide (q_params r = ∅) then url else url +:+ "?" +:+ Encode (q_params r).

(** ** Answers *)
Record http_response := mkAnswer { a_code : Z; a_status : string; a_body : string; a_read_err : option string }.

Record Response := mkResponse { r_res : option http_response; r_err : option string }.

Definition ErrNotFound : string := "kubernetes: resource not found".
Definition ErrDecode : string := "kubernetes: error decoding".
Definition ErrUnknown : string := "kubernetes: unknown error".

Definition newResponse (res : http_response) : Response :=
  if ((a_code res =? 200) || (a_code res =? 201) || (a_code res =? 204))%Z then mkResponse (Some res) None
  else if (a_code res =? 404)%Z then mkResponse (Some res) (Some ErrNotFound)
  else match a_read_err res with
       | None => mkResponse (Some res) (Some (a_body res))
       | Some _ => mkResponse (Some res) (Some ErrUnknown)
       end.

(** [Into] and what the decoder makes of the answer's body. *)
Definition Into {A} (decode : http_response -> string + A) (r : Response) : outcome Empty_set (string + A) :=
  match r_err r with
  | Some e => Ret (inl e)
  | None =>
      match r_res r with
      | None => Panic
      | Some res =>
          Ret (match decode res with inl e => inl (ErrDecode +:+ ": " +:+ e) | inr a => inr a end)
      end
  end.

Section send.
Context {W : Type}.
(** What [http.NewRequest] says of a method and an address, and the cluster. *)
Context (bad : string -> string -> option string).
Context (send : http_request -> W -> (string + http_response) * W).

Definition request (r : Request) : string + http_request :=
  match bad (q_method r) (request_url r) with
  | Some e => inl e
  | None => inr (mkHttp (q_method r) (request_url r) (q_header r) (q_body r))
  end.

Definition Do (r : Request) (w : W) : Response * W :=
  match q_err r with
  | Some e => (mkResponse None (Some e), w)
  | None =>
      match request r with
      | inl e => (mkResponse None (Some e), w)
      | inr req =>
          match send req w with
          | (inl e, w) => (mkResponse None (Some e), w)
          | (inr res, w) => (newResponse res, w)
          end
      end
  end.

Definition Raw (r : Request) (w : W) : (string + http_response) * W :=
  match request r with
  | inl e => (inl e, w)
  | inr req => send req w
  end.
End send.

(** ** Queries are read as they were meant *)
Lemma escape_char_unescape a s : Qson.QueryUnescape (escape_char a +:+ s) = String a <$> Qson.QueryUnescape s.
Proof. destruct a as [[] [] [] [] [] [] [] []]; reflexivity. Qed.

Lemma QueryUnescape_Escape s : Qson.QueryUnescape (QueryEscape s) = Some s.
Proof. induction s as [|a s IH]; cbn [QueryEscape]; [done|]. by rewrite escape_char_unescape, IH. Qed.

Lemma escape_char_free a : str_has "&" (escape_char a) = false /\ str_has "=" (escape_char a) = false.
Proof. destruct a as [[] [] [] [] [] [] [] []]; split; reflexivity. Qed.

Lemma QueryEscape_free s : str_has "&" (QueryEscape s) = false /\ str_has "=" (QueryEscape s) = false.
Proof.
  induction s as [|a s [IH1 IH2]]; cbn [QueryEscape]; [done|]. destruct (escape_char_free a) as [H1 H2].
  by rewrite !str_has_app, H1, H2, IH1, IH2.
Qed.

(** Reading a query: the pairs between the ampersands, cut at the equals sign. *)
Definition read_pair (s : string) : option (string * string) :=
  match split_char "=" s with
  | [k; v] => k ← Qson.QueryUnescape k; v ← Qson.QueryUnescape v; Some (k, v)
  | _ => None
  end.

Definition ParseQuery (s : string) : option (list (string * string)) :=
  if String.eqb s "" then Some [] else mapM read_pair (split_char "&" s).

Lemma read_pair_written k v : read_pair (QueryEscape k +:+ "=" +:+ QueryEscape v) = Some (k, v).
Proof.
  unfold read_pair. change (QueryEscape k +:+ "=" +:+ QueryEscape v) with (QueryEscape k +:+ String "=" (QueryEscape v)).
  rewrite split_char_app by apply QueryEscape_free. rewrite split_char_id by apply QueryEscape_free.
  by rewrite !QueryUnescape_Escape.
Qed.

Definition pairs (v : Values) : list (string * string) :=
  k ← Store.sort_keys (map fst (map_to_list v)); (k,.) <$> default [] (v !! k).

Lemma Encode_pairs v : Encode v = join "&" ((fun kv => QueryEscape kv.1 +:+ "=" +:+ QueryEscape kv.2) <$> pairs v).
Proof.
  unfold Encode, pairs. f_equal. induction (Store.sort_keys _) as [|k ks IH]; [done|]. cbn [mbind list_bind].
  rewrite fmap_app, <- list_fmap_compose. f_equal. exact IH.
Qed.

Lemma pair_free kv : str_has "&" (QueryEscape kv.1 +:+ "=" +:+ QueryEscape kv.2) = false.
Proof. rewrite !str_has_app. by rewrite !(fun s => proj1 (QueryEscape_free s)). Qed.

Lemma join_head_nonempty sep l x : x <> "" -> join sep (x :: l) <> "".
Proof. intros Hx. destruct l; cbn; [done|]. by destruct x. Qed.

(** A query is read as the pairs it was made of, keys in their order and the values of a
    key in theirs. *)
Theorem ParseQuery_Encode v : ParseQuery (Encode v) = Some (pairs v).
Proof.
  rewrite Encode_pairs. unfold ParseQuery. destruct (pairs v) as [|kv l]; [done|].
  assert (forall l, mapM read_pair ((fun kv => QueryEscape kv.1 +:+ "=" +:+ QueryEscape kv.2) <$> l) = Some l) as Hm.
  { clear. induction l as [|[k v] l IH]; [done|]. cbn [fmap list_fmap fst snd mapM]. rewrite read_pair_written. cbn [mbind option_bind]. by rewrite IH. }
  destruct (String.eqb_spec (join "&" ((fun kv => QueryEscape kv.1 +:+ "=" +:+ QueryEscape kv.2) <$> kv :: l)) "") as [He|_].
  - exfalso. revert He. apply join_head_nonempty. intros He. apply (f_equal String.length) in He. rewrite !str_length_app in He. cbn in He. lia.
  - rewrite split_join; [apply Hm|done|]. apply Forall_fmap, Forall_true. intros kv'. apply pair_free.
Qed.

(** ** The selector *)
Definition label_text (kv : string * string) : string := kv.1 +:+ "=" +:+ kv.2.

Lemma label_text_nonempty kv : label_text kv <> "".
Proof. unfold label_text. destruct kv.1; done. Qed.

Lemma join_snoc sep l x : l <> [] -> join sep (l ++ [x]) = join sep l +:+ sep +:+ x.
Proof. intros Hl. by rewrite join_app. Qed.

Lemma add_labels l done v :
  v !! "labelSelector" = match done with [] => None | _ => Some [join "," (label_text <$> done)] end ->
  foldl add_label v l = match done ++ l with [] => v | ls => <["labelSelector" := [join "," (label_text <$> ls)]]> v end.
Proof.
  revert done v. induction l as [|kv l IH]; intros ls v Hv; cbn [foldl].
  - rewrite app_nil_r. destruct ls; [done|]. by rewrite insert_id.
  - assert (add_label v kv = <["labelSelector" := [join "," (label_text <$> ls ++ [kv])]]> v) as ->.
    { unfold add_label, values_Get. rewrite Hv. destruct ls as [|kv' ls]; unfold first_of; cbn [default id List.hd]; [done|].
      destruct (String.eqb_spec (join "," (label_text <$> kv' :: ls)) "") as [He|_].
      - exfalso. revert He. apply join_head_nonempty, label_text_nonempty.
      - rewrite (fmap_app label_text (kv' :: ls) [kv]). change (label_text <$> [kv]) with [label_text kv]. by rewrite join_snoc. }
    rewrite (IH (ls ++ [kv])); [|by rewrite lookup_insert_eq; destruct ls]. rewrite <- app_assoc. cbn [app].
    assert (exists x r, ls ++ kv :: l = x :: r) as (x & r & ->) by (destruct ls; eauto). by rewrite insert_insert_eq.
Qed.

Lemma foldl_insert_values o (m : gmap string string) (v : Values) :
  foldl (fun v kv => <[kv.1 := [kv.2]]> v) v (map_range o m) = ((fun x => [x]) <$> m) ∪ v.
Proof.
  assert (forall l v, NoDup l.*1 ->
    foldl (fun (v : Values) (kv : string * string) => <[kv.1 := [kv.2]]> v) v l = ((fun x => [x]) <$> list_to_map l) ∪ v) as Hf.
  { clear. induction l as [|[k x] l IH]; intros v; cbn; [by rewrite fmap_empty, (left_id_L ∅ (∪))|]. intros [Hk Hl]%NoDup_cons.
    rewrite IH by done. rewrite fmap_insert, <- insert_union_l, <- insert_union_r; [done|].
    rewrite lookup_fmap. apply fmap_None. by apply not_elem_of_list_to_map_1. }
  rewrite Hf by apply NoDup_map_range. do 2 f_equal. transitivity (list_to_map (M:=gmap string string) (map_to_list m)); [|apply list_to_map_to_list].
  apply list_to_map_proper; [apply NoDup_map_range|apply map_range_perm].
Qed.

(** The selector of a request has every label once, whatever the order the map is
    visited in, and further parameters win over it. *)
Theorem Params_spec o1 o2 p r : q_params r !! "labelSelector" = None ->
  q_params (Params o1 o2 p r) =
    ((fun v => [v]) <$> p_Additional p) ∪
    (if decide (p_LabelSelector p = ∅) then q_params r
     else <["labelSelector" := [join "," (label_text <$> map_range o1 (p_LabelSelector p))]]> (q_params r)).
Proof.
  intros Hr. unfold Params. cbn [q_params set_params]. rewrite (add_labels _ [] _ Hr). cbn [app].
  rewrite foldl_insert_values. f_equal. case_decide as Hp.
  - rewrite Hp. pose proof (length_map_range o1 (∅ : gmap string string)) as Hl. rewrite map_size_empty in Hl.
    by destruct (map_range o1 ∅).
  - pose proof (length_map_range o1 (p_LabelSelector p)) as Hl. destruct (map_range o1 (p_LabelSelector p)) as [|x l]; [|done].
    symmetry in Hl. by apply map_size_empty_inv in Hl.
Qed.
