(* ===== verification/KubeClient.v ===== *)
(** * The client of kubernetes: [util/kubernetes/client]

    Resources, their names and templates, the operations of the client as requests of
    KubeApi, and its watcher. Encoding and decoding json are arguments, as is the cluster. *)
From S2P Require Import Prelude GoStrings GoStrconv GoHttp KubeApi.
From S2P Require Store.

(** ** Calls that change the cluster and can fail or panic *)
Definition M (W A : Type) : Type := W -> outcome string A * W.

Definition ret {W A} (a : A) : M W A := fun w => (Ret a, w).
Definition fail {W A} (e : string) : M W A := fun w => (Fail e, w).
Definition panic {W A} : M W A := fun w => (Panic, w).

Definition bind {W A B} (m : M W A) (k : A -> M W B) : M W B := fun w =>
  match m w with
  | (Ret a, w) => k a w
  | (Fail e, w) => (Fail e, w)
  | (Panic, w) => (Panic, w)
  end.

(** The result of a call that the code looks at itself. *)
Definition try {W A} (m : M W A) : M W (string + A) := fun w =>
  match m w with
  | (Ret a, w) => (Ret (inr a), w)
  | (Fail e, w) => (Ret (inl e), w)
  | (Panic, w) => (Panic, w)
  end.

Declare Scope kube_scope.
Delimit Scope kube_scope with kube.
Notation "x <~ m ; k" := (bind m (fun x => k)) (at level 100, m at next level, right associativity) : kube_scope.
#[global] Open Scope kube_scope.

Fixpoint each {W A} (f : A -> M W unit) (l : list A) : M W unit :=
  match l with [] => ret tt | x :: l => _ <~ f x; each f l end.

(** ** Names *)
(** [SerializeResourceName]: what is not a letter or digit becomes one dash. *)
Definition is_alnum (a : ascii) : bool :=
  let n := nat_of_ascii a in is_digit a || ((65 <=? n) && (n <=? 90)) || ((97 <=? n) && (n <=? 122)).

Fixpoint serialize (in_run : bool) (s : string) : string :=
  match s with
  | "" => ""
  | String a s => if is_alnum a then String a (serialize false s) else if in_run then serialize true s else String "-" (serialize true s)
  end.

Definition SerializeResourceName (ns : string) : string := serialize false ns.

Definition dashed (a : ascii) : ascii := if Ascii.eqb a "/" || Ascii.eqb a "." then "-"%char else a.

Fixpoint str_map (f : ascii -> ascii) (s : string) : string :=
  match s with "" => "" | String a s => String (f a) (str_map f s) end.

Definition Format (v : string) : string := str_take 253 (str_map dashed (to_lower v)).

(** ** Resources *)
Record Metadata := mkMetadata {
  m_Labels : gmap string string; m_Annotations : option (gmap string string); m_Name : string; m_Namespace : string; m_Version : string }.

Record EnvVar := mkEnvVar { e_Name : string; e_Value : string }.
Record ContainerPort := mkContainerPort { cp_Name : string; cp_Protocol : string; cp_HostPort : Z; cp_ContainerPort : Z }.
Record Container := mkContainer {
  c_Name : string; c_Image : string; c_Env : list EnvVar; c_Command : list string; c_Args : list string; c_Ports : list ContainerPort }.
Record PodSpec := mkPodSpec { ps_ServiceAccountName : string; ps_Containers : list Container }.
Record Template := mkTemplate { t_Metadata : option Metadata; t_PodSpec : option PodSpec }.
Record DeploymentSpec := mkDeploymentSpec { ds_Selector : option (gmap string string); ds_Template : option Template; ds_Replicas : Z }.
Record DeploymentCondition := mkDeploymentCondition { dc_LastUpdateTime : string; dc_Type : string; dc_Reason : string; dc_Message : string }.
Record DeploymentStatus := mkDeploymentStatus { dst_Conditions : list DeploymentCondition }.
Record Deployment := mkDeployment {
  d_Metadata : option Metadata; d_Spec : option DeploymentSpec; d_Status : option DeploymentStatus }.

Record ServicePort := mkServicePort { sp_Name : string; sp_Protocol : string; sp_Port : Z }.
Record ServiceSpec := mkServiceSpec { ss_ClusterIP : string; ss_Type : string; ss_Selector : gmap string string; ss_Ports : list ServicePort }.
Record Service := mkService { s_Metadata : option Metadata; s_Spec : option ServiceSpec }.

Record Condition := mkCondition { cd_Started : string; cd_Reason : string; cd_Message : string }.
Record ContainerState := mkContainerState { cs_Running : option Condition; cs_Terminated : option Condition; cs_Waiting : option Condition }.
Record PodStatus := mkPodStatus { pst_PodIP : string; pst_Phase : string; pst_Reason : string; pst_Containers : list ContainerState }.
Record Pod := mkPod { p_Metadata : option Metadata; p_Spec : option PodSpec; p_Status : option PodStatus }.

Record Namespace := mkNamespace { n_Metadata : option Metadata }.
Record Secret := mkSecret { se_Data : gmap string string; se_Metadata : option Metadata; se_Type : string }.
Record ServiceAccount := mkServiceAccount { sa_Metadata : option Metadata; sa_ImagePullSecrets : list string }.

Inductive object :=
| ODeployment (d : Deployment) | OService (s : Service) | OPod (p : Pod) | ONamespace (n : Namespace)
| OSecret (s : Secret) | OServiceAccount (a : ServiceAccount).

Record Resource := mkResource { r_Value : option object; r_Name : string; r_Kind : string }.

Definition with_annotations (a : option (gmap string string)) (m : Metadata) : Metadata :=
  mkMetadata (m_Labels m) a (m_Name m) (m_Namespace m) (m_Version m).

(** ** Templates *)
Definition nl : string := String "010" "".
Definition quoted (s : string) : string := String "034" (s +:+ String "034" "").
Definition texts {A} (f : A -> string) (l : list A) : string := foldr (fun x r => f x +:+ r) "" l.

Definition render_map (indent : string) (m : gmap string string) : string :=
  texts (fun k => nl +:+ indent +:+ k +:+ ": " +:+ quoted (default "" (m !! k))) (Store.sort_keys (map fst (map_to_list m))).

Definition render_opt_map (indent : string) (m : option (gmap string string)) : string := render_map indent (default ∅ m).

Definition render_container (c : Container) : string :=
  nl +:+ "        - name: " +:+ c_Name c +:+ nl +:+ "          env:" +:+
  texts (fun e => nl +:+ "          - name: " +:+ quoted (e_Name e) +:+ nl +:+ "            value: " +:+ quoted (e_Value e)) (c_Env c) +:+
  nl +:+ "          args:" +:+ texts (fun a => nl +:+ "          - " +:+ a) (c_Args c) +:+
  nl +:+ "          command:" +:+ texts (fun a => nl +:+ "          - " +:+ a) (c_Command c) +:+
  nl +:+ "          image: " +:+ c_Image c +:+ nl +:+ "          ports:" +:+
  texts (fun p => nl +:+ "          - containerPort: " +:+ fmt_Z (cp_ContainerPort p) +:+ nl +:+ "            name: " +:+ cp_Name p) (c_Ports c).

(** A template that is given a nil pointer to look into fails. *)
Definition nil_pointer : string := "nil pointer evaluating".

Definition deploymentTmpl (d : Deployment) : string + string :=
  match d_Metadata d, d_Spec d with
  | Some m, Some sp =>
      match ds_Selector sp, ds_Template sp with
      | Some sel, Some (mkTemplate (Some tm) (Some ps)) =>
          inr (nl +:+ "apiVersion: apps/v1" +:+ nl +:+ "kind: Deployment" +:+ nl +:+ "metadata:" +:+ nl +:+
            "  name: " +:+ quoted (m_Name m) +:+ nl +:+ "  namespace: " +:+ quoted (m_Namespace m) +:+ nl +:+
            "  labels:" +:+ render_map "    " (m_Labels m) +:+ nl +:+
            "  annotations:" +:+ render_opt_map "    " (m_Annotations m) +:+ nl +:+
            "spec:" +:+ nl +:+ "  replicas: " +:+ fmt_Z (ds_Replicas sp) +:+ nl +:+ "  selector:" +:+ nl +:+
            "    matchLabels:" +:+ render_map "      " sel +:+ nl +:+
            "  template:" +:+ nl +:+ "    metadata:" +:+ nl +:+
            "      labels:" +:+ render_map "        " (m_Labels tm) +:+ nl +:+
            "      annotations:" +:+ render_opt_map "        " (m_Annotations tm) +:+ nl +:+
            "    spec: " +:+ nl +:+ "      serviceAccountName: " +:+ ps_ServiceAccountName ps +:+ nl +:+
            "      containers:" +:+ texts render_container (ps_Containers ps) +:+ nl)
      | _, _ => inl nil_pointer
      end
  | _, _ => inl nil_pointer
  end.

Definition serviceTmpl (s : Service) : string + string :=
  match s_Metadata s, s_Spec s with
  | Some m, Some sp =>
      inr (nl +:+ "apiVersion: v1" +:+ nl +:+ "kind: Service" +:+ nl +:+ "metadata:" +:+ nl +:+
        "  name: " +:+ quoted (m_Name m) +:+ nl +:+ "  namespace: " +:+ quoted (m_Namespace m) +:+ nl +:+
        "  labels:" +:+ render_map "    " (m_Labels m) +:+ nl +:+
        "spec:" +:+ nl +:+ "  selector:" +:+ render_map "    " (ss_Selector sp) +:+ nl +:+
        "  ports:" +:+
        texts (fun p => nl +:+ "  - name: " +:+ quoted (sp_Name p) +:+ nl +:+ "    port: " +:+ fmt_Z (sp_Port p) +:+ nl +:+
                        "    protocol: " +:+ sp_Protocol p) (ss_Ports sp) +:+ nl)
  | _, _ => inl nil_pointer
  end.

(** The template of a namespace only looks into the metadata. *)
Definition object_metadata (o : object) : option Metadata :=
  match o with
  | ODeployment d => d_Metadata d | OService s => s_Metadata s | OPod p => p_Metadata p | ONamespace n => n_Metadata n
  | OSecret s => se_Metadata s | OServiceAccount a => sa_Metadata a
  end.

Definition namespaceTmpl (m : option Metadata) : string + string :=
  match m with
  | Some m =>
      inr (nl +:+ "apiVersion: v1" +:+ nl +:+ "kind: Namespace" +:+ nl +:+ "metadata:" +:+ nl +:+
        "  name: " +:+ quoted (m_Name m) +:+ nl +:+ "  labels:" +:+ render_map "    " (m_Labels m) +:+ nl)
  | None => inl nil_pointer
  end.

Definition secretTmpl (s : Secret) : string + string :=
  match se_Metadata s with
  | Some m =>
      inr (nl +:+ "apiVersion: v1" +:+ nl +:+ "kind: Secret" +:+ nl +:+ "type: " +:+ quoted (se_Type s) +:+ nl +:+
        "metadata:" +:+ nl +:+ "  name: " +:+ quoted (m_Name m) +:+ nl +:+ "  namespace: " +:+ quoted (m_Namespace m) +:+ nl +:+
        "  labels:" +:+ render_map "    " (m_Labels m) +:+ nl +:+ "data:" +:+ render_map "  " (se_Data s) +:+ nl)
  | None => inl nil_pointer
  end.

Definition serviceAccountTmpl (a : ServiceAccount) : string + string :=
  match sa_Metadata a with
  | Some m =>
      inr (nl +:+ "apiVersion: v1" +:+ nl +:+ "kind: ServiceAccount" +:+ nl +:+ "metadata:" +:+ nl +:+
        "  name: " +:+ quoted (m_Name m) +:+ nl +:+ "  labels:" +:+ render_map "    " (m_Labels m) +:+ nl +:+
        "imagePullSecrets:" +:+ texts (fun n => nl +:+ "- name: " +:+ quoted n) (sa_ImagePullSecrets a) +:+ nl)
  | None => inl nil_pointer
  end.

(** A template looks into the fields it names; the empty template of an unknown kind into none. *)
Definition renderTemplate (resource : string) (data : option object) : string + string :=
  let no_field := "can't evaluate field" in
  if String.eqb resource "deployment" then match data with Some (ODeployment d) => deploymentTmpl d | _ => inl no_field end
  else if String.eqb resource "service" then match data with Some (OService s) => serviceTmpl s | _ => inl no_field end
  else if String.eqb resource "namespace" then match data with Some o => namespaceTmpl (object_metadata o) | _ => inl no_field end
  else if String.eqb resource "secret" then match data with Some (OSecret s) => secretTmpl s | _ => inl no_field end
  else if String.eqb resource "serviceaccount" then match data with Some (OServiceAccount a) => serviceAccountTmpl a | _ => inl no_field end
  else inr "".

(** ** Options *)
Record GetOptions := mkGetOptions { g_Labels : gmap string string; g_Namespace : string }.
Record LogOptions := mkLogOptions { l_Params : option (gmap string string); l_Namespace : string }.

(** The options of creating, updating, deleting and listing hold a namespace only. *)
Notation NamespaceOption := (string -> string).
Notation GetOption := (GetOptions -> GetOptions).
Notation LogOption := (LogOptions -> LogOptions).

Definition CreateNamespace (ns : string) : NamespaceOption := fun _ => SerializeResourceName ns.
Definition UpdateNamespace (ns : string) : NamespaceOption := fun _ => SerializeResourceName ns.
Definition DeleteNamespace (ns : string) : NamespaceOption := fun _ => SerializeResourceName ns.
Definition ListNamespace (ns : string) : NamespaceOption := fun _ => SerializeResourceName ns.
Definition GetNamespace (ns : string) : GetOption := fun o => mkGetOptions (g_Labels o) (SerializeResourceName ns).
Definition GetLabels (ls : gmap string string) : GetOption := fun o => mkGetOptions ls (g_Namespace o).
Definition LogNamespace (ns : string) : LogOption := fun o => mkLogOptions (l_Params o) (SerializeResourceName ns).
Definition LogParams (p : gmap string string) : LogOption := fun o => mkLogOptions (Some p) (l_Namespace o).

Definition apply_all {A} (opts : list (A -> A)) (a : A) : A := foldl (fun a f => f a) a opts.

(** ** The interface [Client] *)
Class KClient (W : Type) := {
  client_Create : Resource -> list NamespaceOption -> M W unit;
  client_Update : Resource -> list NamespaceOption -> M W unit;
  client_Delete : Resource -> list NamespaceOption -> M W unit;
  client_Get_services : list GetOption -> M W (list Service);
  client_Get_deployments : list GetOption -> M W (list Deployment);
  client_Get_pods : list GetOption -> M W (list Pod);
  client_List_namespaces : list NamespaceOption -> M W (option (list Namespace));
  client_Log : Resource -> list LogOption -> M W string }.

(** ** The client over http *)
Section http.
Context {W : Type}.
Context (bad : string -> string -> option string) (send : http_request -> W -> (string + http_response) * W).
Context (encode : body_in object -> string + string) (order : map_order) (opts : Options).

(** A request whose answer says whether it failed. *)
Definition perform (r : Request) : M W unit := fun w =>
  match Do bad send r w with
  | (mkResponse _ (Some e), w) => (Fail e, w)
  | (mkResponse _ None, w) => (Ret tt, w)
  end.

Definition Create (r : Resource) (os : list NamespaceOption) : M W unit :=
  let ns := apply_all os (o_Namespace opts) in
  match renderTemplate (r_Kind r) (r_Value r) with
  | inl e => fail e
  | inr b =>
      perform (KubeApi.Body encode (Reader (inr b)) (KubeApi.Resource (r_Kind r) (KubeApi.Namespace ns
        (SetHeader "Content-Type" "application/yaml" (verb "POST" (NewRequest opts))))))
  end.

Definition Get {A} (decode : http_response -> string + A) (kind : string) (os : list GetOption) : M W A := fun w =>
  let o := apply_all os (mkGetOptions ∅ (o_Namespace opts)) in
  let (resp, w) := Do bad send (Params order order (mkParams (g_Labels o) ∅)
    (KubeApi.Namespace (g_Namespace o) (KubeApi.Resource kind (verb "GET" (NewRequest opts))))) w in
  (match Into decode resp with Ret (inr a) => Ret a | Ret (inl e) => Fail e | _ => Panic end, w).

Definition List_ {A} (decode : http_response -> string + A) (kind : string) (os : list NamespaceOption) : M W A :=
  Get decode kind [GetNamespace (apply_all os (o_Namespace opts))].

Definition Update (r : Resource) (os : list NamespaceOption) : M W unit :=
  let ns := apply_all os (o_Namespace opts) in
  let req := KubeApi.Namespace ns (KubeApi.Name (r_Name r) (KubeApi.Resource (r_Kind r)
    (SetHeader "Content-Type" "application/strategic-merge-patch+json" (verb "PATCH" (NewRequest opts))))) in
  let patch o := perform (KubeApi.Body encode (Value o) req) in
  if String.eqb (r_Kind r) "service" then match r_Value r with Some (OService s) => patch (OService s) | _ => panic end
  else if String.eqb (r_Kind r) "deployment" then match r_Value r with Some (ODeployment d) => patch (ODeployment d) | _ => panic end
  else if String.eqb (r_Kind r) "pod" then match r_Value r with Some (OPod p) => patch (OPod p) | _ => panic end
  else fail "unsupported resource".

Definition Delete (r : Resource) (os : list NamespaceOption) : M W unit :=
  let ns := apply_all os (o_Namespace opts) in
  perform (KubeApi.Namespace ns (KubeApi.Name (r_Name r) (KubeApi.Resource (r_Kind r) (verb "DELETE" (NewRequest opts))))).

Definition success (code : Z) : bool := (200 <=? code)%Z && (code <? 300)%Z.

Definition Log (r : Resource) (os : list LogOption) : M W string := fun w =>
  let o := apply_all os (mkLogOptions None (o_Namespace opts)) in
  let req := KubeApi.Namespace (l_Namespace o) (KubeApi.Name (r_Name r) (SubResource "log" (KubeApi.Resource (r_Kind r) (verb "GET" (NewRequest opts))))) in
  let req := match l_Params o with Some p => Params order order (mkParams ∅ p) req | None => req end in
  match Raw bad send req w with
  | (inl e, w) => (Fail e, w)
  | (inr resp, w) => if success (a_code resp) then (Ret (a_body resp), w) else (Fail (request_url req +:+ ": " +:+ a_status resp), w)
  end.

(** What a watcher reads from: the body of the answer. *)
Definition Watch (r : Resource) (os : list LogOption) : M W string := fun w =>
  let o := apply_all os (mkLogOptions None (o_Namespace opts)) in
  let extra := {["watch" := "true"]} in
  let extra := match l_Params o with Some p => foldl (fun m kv => <[kv.1 := kv.2]> m) extra (map_range order p) | None => extra end in
  let req := Params order order (mkParams ∅ extra)
    (KubeApi.Namespace (l_Namespace o) (KubeApi.Name (r_Name r) (KubeApi.Resource (r_Kind r) (verb "GET" (NewRequest opts))))) in
  match Raw bad send req w with
  | (inl e, w) => (Fail e, w)
  | (inr resp, w) => if success (a_code resp) then (Ret (a_body resp), w) else (Fail (request_url req +:+ ": " +:+ a_status resp), w)
  end.

Context (dec_services : http_response -> string + list Service) (dec_deployments : http_response -> string + list Deployment).
Context (dec_pods : http_response -> string + list Pod) (dec_namespaces : http_response -> string + option (list Namespace)).

Definition http_KClient : KClient W := {|
  client_Create := Create; client_Update := Update; client_Delete := Delete;
  client_Get_services := Get dec_services "service"; client_Get_deployments := Get dec_deployments "deployment";
  client_Get_pods := Get dec_pods "pod"; client_List_namespaces := List_ dec_namespaces "namespace";
  client_Log := Log |}.
End http.

Definition DefaultImage : string := "micro/go-micro".
Definition DefaultNamespace : string := "default".

(** With no host the first element of an empty list is assigned. *)
Definition NewLocalClient (hosts : list string) : outcome Empty_set Options :=
  match hosts with
  | [] => Panic
  | h :: _ => Ret (mkOptions None h "default")
  end.

(** The options of a client in a pod, from the environment and the files of its account. *)
Definition NewClusterClient (host port token : string) : Options :=
  mkOptions (Some token) ("https://" +:+ host +:+ ":" +:+ port) DefaultNamespace.

Definition default_name (name version : string) : string := if String.eqb version "" then name else join "-" [name; version].

Definition default_labels (name version typ : string) : gmap string string :=
  <["name" := name]> (<["version" := version]> (<["micro" := typ]> ∅)).

Definition NewService (name version typ namespace : string) : Service :=
  let labels := default_labels name version typ in
  let namespace := if String.eqb namespace "" then DefaultNamespace else namespace in
  mkService (Some (mkMetadata labels None (default_name name version) (SerializeResourceName namespace) version))
    (Some (mkServiceSpec "" "ClusterIP" labels [mkServicePort "service-port" "" 8080])).

(** The metadata of a deployment is that of its template: a value of it that changes is to
    be put in both places. *)
Definition NewDeployment (name version typ namespace : string) : Deployment :=
  let labels := default_labels name version typ in
  let namespace := if String.eqb namespace "" then DefaultNamespace else namespace in
  let md := mkMetadata labels (Some ∅) (default_name name version) (SerializeResourceName namespace) version in
  mkDeployment (Some md)
    (Some (mkDeploymentSpec (Some labels)
      (Some (mkTemplate (Some md)
        (Some (mkPodSpec namespace
          [mkContainer name DefaultImage [mkEnvVar "GO111MODULE" "on"] ["go"; "run"; "."] [] [mkContainerPort "service-port" "" 0 8080]])))) 1))
    None.

(** ** The watcher

    A goroutine reads lines and sends those it can decode; [Stop] looks whether the channel
    is closed and then closes it, without a lock. *)
Record Event := mkEvent { ev_Type : string; ev_Object : string }.

Record watcher := mkWatcher {
  w_lines : list string;
  w_hand : option Event;
  w_results : list Event;
  w_stop : bool;
  w_over : bool;
  w_stopping : nat;
  w_panicked : bool }.

(** The lines of a body: what follows the last newline is not one. *)
Definition body_lines (body : string) : list string :=
  map (fun l => l +:+ nl) (removelast (split_char "010" body)).

Definition newWatcher (body : string) : watcher := mkWatcher (body_lines body) None [] false false 0 false.

Inductive watcher_step (decode : string -> option Event) (w : watcher) : watcher -> Prop :=
| read_line l ls : w_over w = false -> w_hand w = None -> w_lines w = l :: ls ->
    watcher_step decode w (mkWatcher ls (decode l) (w_results w) (w_stop w) false (w_stopping w) (w_panicked w))
| read_fails : w_over w = false -> w_hand w = None ->
    watcher_step decode w (mkWatcher (w_lines w) None (w_results w) (w_stop w) true (w_stopping w) (w_panicked w))
| send_event e : w_over w = false -> w_hand w = Some e ->
    watcher_step decode w (mkWatcher (w_lines w) None (w_results w ++ [e]) (w_stop w) false (w_stopping w) (w_panicked w))
| send_stopped e : w_over w = false -> w_hand w = Some e -> w_stop w = true ->
    watcher_step decode w (mkWatcher (w_lines w) (Some e) (w_results w) true true (w_stopping w) (w_panicked w))
| stop_looks : w_stop w = false ->
    watcher_step decode w (mkWatcher (w_lines w) (w_hand w) (w_results w) false (w_over w) (S (w_stopping w)) (w_panicked w))
| stop_closes n : w_stopping w = S n ->
    watcher_step decode w (mkWatcher (w_lines w) (w_hand w) (w_results w) true (w_over w) n (w_panicked w || w_stop w)).

Inductive watcher_reach (decode : string -> option Event) (w0 : watcher) : watcher -> Prop :=
| watcher_start : watcher_reach decode w0 w0
| watcher_next w w' : watcher_reach decode w0 w -> watcher_step decode w w' -> watcher_reach decode w0 w'.

(** What is received are the events of the first lines, in their order and none twice; a
    line that cannot be decoded is skipped. *)
Theorem watch_in_order decode body w : watcher_reach decode (newWatcher body) w ->
  omap decode (body_lines body) = w_results w ++ option_list (w_hand w) ++ omap decode (w_lines w).
Proof.
  induction 1 as [|w w' _ IH Hs]; [done|]. rewrite IH. destruct Hs as [l ls _ Hh Hl|_ Hh|e _ Hh|e _ Hh _|_|n _]; cbn.
  - rewrite Hh, Hl. cbn. by destruct (decode l).
  - by rewrite Hh.
  - rewrite Hh. cbn. by rewrite <- app_assoc.
  - by rewrite Hh.
  - done.
  - done.
Qed.

(** One [Stop] at a time closes the channel once; two that look before either closes it
    make the second panic. *)
Theorem watch_stop decode body :
  (forall w, watcher_reach decode (newWatcher body) w -> w_panicked w = true ->
     exists w', watcher_reach decode (newWatcher body) w' /\ 1 < w_stopping w' + (if w_stop w' then 1 else 0)) /\
  (exists w, watcher_reach decode (newWatcher body) w /\ w_panicked w = true).
Proof.
  split.
  - induction 1 as [|w w' Hr IH Hs]; [done|]. destruct Hs; cbn; try exact IH. intros [Hp|Hst]%orb_true_iff; [by apply IH|].
    exists w. split; [done|]. rewrite Hst. lia.
  - eexists. split; [|shelve]. eapply watcher_next; [eapply watcher_next; [eapply watcher_next; [eapply watcher_next; [apply watcher_start|]|]|]|].
    + by apply stop_looks.
    + by apply stop_looks.
    + by eapply stop_closes.
    + by eapply stop_closes.
    Unshelve. reflexivity.
Qed.

(** ** Names *)
Definition name_char (a : ascii) : bool := is_alnum a || Ascii.eqb a "-".

Lemma serialize_chars b s : str_forall name_char (serialize b s) = true.
Proof.
  revert b. induction s as [|a s IH]; intros b; cbn; [done|]. destruct (is_alnum a) eqn:Ha; cbn.
  - unfold name_char at 1. by rewrite Ha, IH.
  - by destruct b; cbn; rewrite IH.
Qed.

Lemma serialize_again b s : serialize b (serialize b s) = serialize b s.
Proof.
  revert b. induction s as [|a s IH]; intros b; cbn [serialize]; [done|]. destruct (is_alnum a) eqn:Ha.
  - cbn [serialize]. by rewrite Ha, IH.
  - destruct b; [apply IH|]. cbn. by rewrite IH.
Qed.

(** A name for the cluster has letters, digits and dashes only, and is its own. *)
Theorem SerializeResourceName_spec ns :
  str_forall name_char (SerializeResourceName ns) = true /\
  SerializeResourceName (SerializeResourceName ns) = SerializeResourceName ns.
Proof. split; [apply serialize_chars|apply serialize_again]. Qed.

Lemma serialize_valid ns : str_forall is_alnum ns = true -> SerializeResourceName ns = ns.
Proof.
  unfold SerializeResourceName. induction ns as [|a ns IH]; cbn; [done|]. intros [Ha Hns]%andb_prop. by rewrite Ha, IH.
Qed.

Lemma str_take_forall f n s : str_forall f s = true -> str_forall f (str_take n s) = true.
Proof.
  revert n. induction s as [|a s IH]; intros [|n]; cbn; try done. intros [Ha Hs]%andb_prop. by rewrite Ha, IH.
Qed.

Lemma str_take_length n s : String.length (str_take n s) <= n.
Proof. revert n. induction s as [|a s IH]; intros [|n]; cbn; [lia..|]. specialize (IH n). lia. Qed.

Lemma str_take_short n s : String.length s <= n -> str_take n s = s.
Proof. revert n. induction s as [|a s IH]; intros [|n]; cbn; intros H; [done|done|lia|]. rewrite IH; [done|lia]. Qed.

(** What [Format] leaves: no capitals, no slashes, no dots. *)
Definition format_char (a : ascii) : bool := negb (Ascii.eqb (dashed (to_lower_char a)) a) .

Lemma format_char_stable a : dashed (to_lower_char (dashed (to_lower_char a))) = dashed (to_lower_char a).
Proof. destruct a as [[] [] [] [] [] [] [] []]; reflexivity. Qed.

(** A formatted name is at most 253 bytes without capitals, slashes or dots, and formatting
    it again changes nothing. *)
Theorem Format_spec v :
  String.length (Format v) <= 253 /\ str_forall (fun a => negb (format_char a)) (Format v) = true /\ Format (Format v) = Format v.
Proof.
  assert (str_forall (fun a => negb (format_char a)) (Format v) = true) as Hf.
  { apply str_take_forall. induction v as [|a v IH]; cbn; [done|]. rewrite IH, andb_true_r. unfold format_char.
    by rewrite negb_involutive, format_char_stable, Ascii.eqb_refl. }
  split; [apply str_take_length|]. split; [exact Hf|]. pose proof (str_take_length 253 (str_map dashed (to_lower v)) : String.length (Format v) <= 253) as Hl.
  unfold Format at 1. assert (str_map dashed (to_lower (Format v)) = Format v) as ->; [|by apply str_take_short].
  revert Hf. clear Hl. induction (Format v) as [|a s IH]; cbn; [done|]. unfold format_char at 1. rewrite negb_involutive.
  intros [Ha%Ascii.eqb_eq Hs]%andb_prop. by rewrite IH, Ha.
Qed.

(** ** What the client sends *)
(** Where the resources of a kind are. *)
Definition collection (opts : Options) (kind ns : string) : string :=
  o_Host opts +:+
  (if String.eqb kind "namespace" then "/api/v1/namespaces/"
   else if String.eqb kind "deployment" then "/apis/apps/v1/namespaces/" +:+ ns +:+ "/deployments/"
   else "/api/v1/namespaces/" +:+ ns +:+ "/" +:+ kind +:+ "s/").

Definition or_default (opts : Options) (ns : string) : string := if String.eqb ns "" then o_Namespace opts else ns.

(** The header of a request, with its token and the type of its content. *)
Definition header (opts : Options) (content_type : option string) : Header :=
  match content_type with Some t => <["Content-Type" := [t]]> | None => id end
    (match o_BearerToken opts with Some t => {["Authorization" := ["Bearer " +:+ t]]} | None => ∅ end).

Section requests.
Context {W : Type}.
Context (bad : string -> string -> option string) (send : http_request -> W -> (string + http_response) * W).
Context (encode : body_in object -> string + string) (order : map_order) (opts : Options).

(** Sending one request and looking at its answer. *)
Definition exchange {A} (method url : string) (h : Header) (body : option string)
    (answer : http_response -> outcome string A) : M W A := fun w =>
  match bad method url with
  | Some e => (Fail e, w)
  | None =>
      match send (mkHttp method url h body) w with
      | (inl e, w) => (Fail e, w)
      | (inr res, w) => (answer res, w)
      end
  end.

(** Which answers are errors: all that are not one of three codes. *)
Definition answer_error (res : http_response) : option string :=
  if decide (a_code res ∈ [200; 201; 204]%Z) then None
  else Some (if (a_code res =? 404)%Z then ErrNotFound else match a_read_err res with None => a_body res | Some _ => ErrUnknown end).

Definition answer_unit (res : http_response) : outcome string unit :=
  match answer_error res with None => Ret tt | Some e => Fail e end.

Definition answer_data {A} (decode : http_response -> string + A) (res : http_response) : outcome string A :=
  match answer_error res with
  | None => match decode res with inr a => Ret a | inl e => Fail (ErrDecode +:+ ": " +:+ e) end
  | Some e => Fail e
  end.

Lemma newResponse_error res : newResponse res = mkResponse (Some res) (answer_error res).
Proof.
  unfold newResponse, answer_error. destruct (Z.eqb_spec (a_code res) 200) as [->|H1]; [done|].
  destruct (Z.eqb_spec (a_code res) 201) as [->|H2]; [done|]. destruct (Z.eqb_spec (a_code res) 204) as [->|H3]; [done|]. cbn.
  rewrite decide_False by (by rewrite !elem_of_cons, elem_of_nil; intros [?|[?|[?|?]]]).
  destruct (a_code res =? 404)%Z; [done|]. by destruct (a_read_err res).
Qed.

Lemma perform_exchange r w : q_err r = None ->
  perform bad send r w = exchange (q_method r) (request_url r) (q_header r) (q_body r) answer_unit w.
Proof.
  intros Hr. unfold perform, Do, exchange, request. rewrite Hr. destruct (bad (q_method r) (request_url r)); [done|].
  destruct (send _ w) as [[e|res] w']; [done|]. rewrite newResponse_error. unfold answer_unit. by destruct (answer_error res).
Qed.

Lemma collection_url r : q_host r = o_Host opts -> q_resourceName r = None -> q_params r = ∅ ->
  request_url r = collection opts (q_resource r) (q_namespace r).
Proof.
  intros Hh Hn Hp. unfold request_url, collection. rewrite Hh, Hn, Hp, decide_True by done.
  destruct (String.eqb (q_resource r) "namespace"); [done|]. destruct (String.eqb_spec (q_resource r) "deployment") as [->|]; done.
Qed.

(** One more part of the address: a resource's name, or the selector of labels. *)
Definition selector (labels : gmap string string) : string :=
  if decide (labels = ∅) then "" else "?labelSelector=" +:+ QueryEscape (join "," (label_text <$> map_range order labels)).

Lemma request_url_name r n : q_host r = o_Host opts -> q_resourceName r = Some n -> q_subResource r = None -> q_params r = ∅ ->
  request_url r = collection opts (q_resource r) (q_namespace r) +:+ n.
Proof.
  intros Hh Hn Hs Hp. unfold request_url, collection. rewrite Hh, Hn, Hs, Hp, decide_True by done. rewrite str_app_nil_r.
  destruct (String.eqb (q_resource r) "namespace"); [done|]. by destruct (String.eqb_spec (q_resource r) "deployment") as [->|].
Qed.

Lemma Encode_single k x : Encode {[k := [x]]} = QueryEscape k +:+ "=" +:+ QueryEscape x.
Proof. unfold Encode. rewrite map_to_list_singleton. cbn. by rewrite lookup_singleton_eq. Qed.

Lemma request_url_selector r labels : q_host r = o_Host opts -> q_resourceName r = None -> q_params r = ∅ ->
  request_url (Params order order (mkParams labels ∅) r) = collection opts (q_resource r) (q_namespace r) +:+ selector labels.
Proof.
  intros Hh Hn Hp. rewrite <- (collection_url r Hh Hn Hp). unfold request_url. rewrite Params_spec by by rewrite Hp.
  cbn [p_LabelSelector p_Additional]. rewrite fmap_empty, (left_id_L ∅ (∪)), Hp. unfold selector.
  change (q_resourceName (Params order order (mkParams labels ∅) r)) with (q_resourceName r). rewrite Hn.
  change (q_resource (Params order order (mkParams labels ∅) r)) with (q_resource r).
  change (q_host (Params order order (mkParams labels ∅) r)) with (q_host r).
  change (q_namespace (Params order order (mkParams labels ∅) r)) with (q_namespace r).
  rewrite (decide_True _ _ (eq_refl (∅ : Values))). destruct (decide (labels = ∅)) as [->|Hl].
  - by rewrite decide_True, str_app_nil_r.
  - rewrite decide_False by apply insert_non_empty. by rewrite insert_empty, Encode_single.
Qed.

Lemma NewRequest_header t : q_header (match t with Some t => SetHeader "Content-Type" t (NewRequest opts) | None => NewRequest opts end) = header opts t.
Proof. unfold header, NewRequest. destruct (o_BearerToken opts) as [b|], t as [t|]; reflexivity. Qed.
(** The kinds that can be updated. *)
Definition kind_of (o : object) : string :=
  match o with
  | ODeployment _ => "deployment" | OService _ => "service" | OPod _ => "pod" | ONamespace _ => "namespace"
  | OSecret _ => "secret" | OServiceAccount _ => "serviceaccount"
  end.

Definition patched (o : object) : bool := bool_decide (kind_of o ∈ ["deployment"; "service"; "pod"]).

Ltac fields := destruct opts as [[t|] h n0]; unfold KubeApi.Namespace, or_default; cbn [o_Namespace]; try destruct (String.eqb _ ""); vm_compute; reflexivity.

Lemma Create_request kind ns b :
  let req := KubeApi.Body encode (Reader (inr b)) (KubeApi.Resource kind (KubeApi.Namespace ns
    (SetHeader "Content-Type" "application/yaml" (verb "POST" (NewRequest opts))))) in
  q_err req = None /\ q_method req = "POST" /\ request_url req = collection opts kind (or_default opts ns) /\
  q_header req = header opts (Some "application/yaml") /\ q_body req = Some b.
Proof.
  cbn zeta. split; [fields|]. split; [fields|]. split; [|split; fields].
  rewrite collection_url; [|fields..]. f_equal; fields.
Qed.

Lemma Update_request o kind name ns b : encode (Value o) = inr b ->
  let req := KubeApi.Body encode (Value o) (KubeApi.Namespace ns (KubeApi.Name name (KubeApi.Resource kind
    (SetHeader "Content-Type" "application/strategic-merge-patch+json" (verb "PATCH" (NewRequest opts)))))) in
  q_err req = None /\ q_method req = "PATCH" /\ request_url req = collection opts kind (or_default opts ns) +:+ name /\
  q_header req = header opts (Some "application/strategic-merge-patch+json") /\ q_body req = Some b.
Proof.
  intros Hb. set (req0 := KubeApi.Namespace ns _). cbn zeta.
  assert (KubeApi.Body encode (Value o) req0 = set_body b req0) as ->.
  { unfold KubeApi.Body. rewrite Hb. assert (String.eqb (header_Get "Content-Type" (q_header req0)) "application/yaml" = false) as -> by (subst req0; fields). done. }
  subst req0.
  split; [fields|]. split; [fields|]. split; [|split; fields].
  rewrite (request_url_name _ name); [|fields..]. do 2 f_equal; fields.
Qed.

Lemma Delete_request kind name ns :
  let req := KubeApi.Namespace ns (KubeApi.Name name (KubeApi.Resource kind (verb "DELETE" (NewRequest opts)))) in
  q_err req = None /\ q_method req = "DELETE" /\ request_url req = collection opts kind (or_default opts ns) +:+ name /\
  q_header req = header opts None /\ q_body req = None.
Proof.
  cbn zeta. split; [fields|]. split; [fields|]. split; [|split; fields].
  rewrite (request_url_name _ name); [|fields..]. do 2 f_equal; fields.
Qed.

Lemma Get_request kind labels ns :
  let req := Params order order (mkParams labels ∅) (KubeApi.Namespace ns (KubeApi.Resource kind (verb "GET" (NewRequest opts)))) in
  q_err req = None /\ q_method req = "GET" /\ request_url req = collection opts kind (or_default opts ns) +:+ selector labels /\
  q_header req = header opts None /\ q_body req = None.
Proof.
  cbn zeta. split; [fields|]. split; [fields|]. split; [|split; fields].
  rewrite request_url_selector; [|fields..]. do 2 f_equal; fields.
Qed.

Lemma perform_exact req w method url h body :
  q_err req = None /\ q_method req = method /\ request_url req = url /\ q_header req = h /\ q_body req = body ->
  perform bad send req w = exchange method url h body answer_unit w.
Proof. intros (He & <- & <- & <- & <-). by apply perform_exchange. Qed.

(** Each operation of the client sends one request, with the token of the client, to
    where the resources of its kind are in the namespace it is given, or in that of the
    client when it is given none: a creation the template as yaml, an update the json of
    the resource, a query the labels asked for, which are read back as they were. Only
    three codes are not errors. *)
Theorem client_requests w :
  (forall r os b, renderTemplate (r_Kind r) (r_Value r) = inr b ->
     Create bad send encode opts r os w =
     exchange "POST" (collection opts (r_Kind r) (or_default opts (apply_all os (o_Namespace opts))))
       (header opts (Some "application/yaml")) (Some b) answer_unit w) /\
  (forall r os o b, r_Value r = Some o -> r_Kind r = kind_of o -> patched o = true -> encode (Value o) = inr b ->
     Update bad send encode opts r os w =
     exchange "PATCH" (collection opts (r_Kind r) (or_default opts (apply_all os (o_Namespace opts))) +:+ r_Name r)
       (header opts (Some "application/strategic-merge-patch+json")) (Some b) answer_unit w) /\
  (forall r os,
     Delete bad send opts r os w =
     exchange "DELETE" (collection opts (r_Kind r) (or_default opts (apply_all os (o_Namespace opts))) +:+ r_Name r)
       (header opts None) None answer_unit w) /\
  (forall A (decode : http_response -> string + A) kind os,
     let o := apply_all os (mkGetOptions ∅ (o_Namespace opts)) in
     Get bad send order opts decode kind os w =
     exchange "GET" (collection opts kind (or_default opts (g_Namespace o)) +:+ selector (g_Labels o))
       (header opts None) None (answer_data decode) w).
Proof.
  split; [|split; [|split]].
  - intros r os b Hb. unfold Create. rewrite Hb. apply perform_exact, Create_request.
  - intros r os o b Ho Hk Hp Hb. unfold Update. rewrite Ho, Hk. destruct o; cbn; try done; by apply perform_exact, Update_request.
  - intros r os. apply perform_exact, Delete_request.
  - intros A decode kind os o. unfold Get. fold o.
    destruct (Get_request kind (g_Labels o) (g_Namespace o)) as (He & Hm & Hu & Hh & Hb).
    set (req := Params _ _ _ _) in *. unfold Do, exchange, request. rewrite He, Hm, Hu, Hh, Hb. destruct (bad _ _); [done|].
    destruct (send _ w) as [[e|res] w']; [done|]. rewrite newResponse_error. unfold Into, answer_data. cbn.
    destruct (answer_error res); [done|]. by destruct (decode res).
Qed.

(** The labels of a query are read back as they were, whatever the order of the map. *)
Theorem selector_read labels : labels <> ∅ ->
  exists q, selector labels = String "?" q /\
    ParseQuery q = Some [("labelSelector", join "," (label_text <$> map_range order labels))].
Proof.
  intros Hl. unfold selector. rewrite decide_False by done. set (v := join "," _).
  exists (Encode {["labelSelector" := [v]]}). split; [by rewrite Encode_single|].
  rewrite ParseQuery_Encode. unfold pairs. rewrite map_to_list_singleton. cbn. by rewrite lookup_singleton_eq.
Qed.
End requests.

(** ** Examples and witnesses *)
Definition ex_options : Options := mkOptions (Some "secret") "https://k8s:443" "default".

(** A cluster that notes the addresses it is asked for. *)
Definition noting (req : http_request) (w : list string) : (string + http_response) * list string :=
  (inr (mkAnswer 200 "200 OK" "" None), w ++ [h_method req +:+ " " +:+ h_url req]).

Definition ex_encode (b : body_in object) : string + string := inr "{}".

Definition no_error (method url : string) : option string := None.

Example ex_requests :
  (_ <~ Create no_error noting ex_encode ex_options (mkResource (Some (OService (NewService "greeter" "v1" "service" "prod"))) "greeter-v1" "service") [CreateNamespace "prod.eu"];
   _ <~ Update no_error noting ex_encode ex_options (mkResource (Some (ODeployment (NewDeployment "greeter" "" "service" ""))) "greeter" "deployment") [];
   _ <~ Get no_error noting order_id ex_options (fun _ => inr ([] : list Pod)) "pod" [GetLabels {["name" := "go micro"]}];
   Delete no_error noting ex_options (mkResource None "greeter-v1" "service") []) [] =
  (Ret tt, ["POST https://k8s:443/api/v1/namespaces/prod-eu/services/"; "PATCH https://k8s:443/apis/apps/v1/namespaces/default/deployments/greeter";
            "GET https://k8s:443/api/v1/namespaces/default/pods/?labelSelector=name%3Dgo+micro"; "DELETE https://k8s:443/api/v1/namespaces/default/services/greeter-v1"]).
Proof. vm_compute. reflexivity. Qed.

Lemma client_requests_witness :
  Update no_error noting ex_encode ex_options (mkResource (Some (OPod (mkPod None None None))) "p" "pod") [] [] =
  exchange no_error noting "PATCH" (collection ex_options "pod" (or_default ex_options (o_Namespace ex_options)) +:+ "p")
    (header ex_options (Some "application/strategic-merge-patch+json")) (Some "{}") answer_unit [].
Proof.
  exact (proj1 (proj2 (client_requests no_error noting ex_encode order_id ex_options []))
    (mkResource (Some (OPod (mkPod None None None))) "p" "pod") [] (OPod (mkPod None None None)) "{}" eq_refl eq_refl eq_refl eq_refl).
Defined.

Lemma selector_read_witness :
  exists q, selector order_id {["name" := "a"]} = String "?" q /\ 
    ParseQuery q = Some [("labelSelector", join "," (label_text <$> map_range order_id {["name" := "a"]}))].
Proof. apply (selector_read order_id {["name" := "a"]}). vm_compute. discriminate. Defined.

Definition ex_decode (s : string) : option Event := if has_prefix s "{" then Some (mkEvent "ADDED" s) else None.
Definition ex_body : string := "{1}" +:+ nl +:+ "x" +:+ nl +:+ "{2}".
Definition ex_seen : watcher := mkWatcher ["x" +:+ nl] None [mkEvent "ADDED" ("{1}" +:+ nl)] false false 0 false.

Lemma watch_in_order_witness :
  omap ex_decode (body_lines ex_body) = w_results ex_seen ++ option_list (w_hand ex_seen) ++ omap ex_decode (w_lines ex_seen).
Proof.
  apply (watch_in_order ex_decode ex_body ex_seen). eapply watcher_next; [eapply watcher_next; [apply watcher_start|]|].
  - by eapply (read_line ex_decode (newWatcher ex_body) ("{1}" +:+ nl) ["x" +:+ nl]).
  - by apply (send_event ex_decode (mkWatcher ["x" +:+ nl] (Some (mkEvent "ADDED" ("{1}" +:+ nl))) [] false false 0 false)).
Defined.
