(* ===== verification/KubeRuntime.v ===== *)
(** * The kubernetes runtime: [runtime/kubernetes/kubernetes.go], [service.go]

    Services of the runtime as deployments and services of a cluster, over the class
    [KClient]: how they are made, found again, updated and removed, and the loop that
    updates them on events. The clock's texts are arguments. *)
From S2P Require Import Prelude GoStrings GoStrconv KubeClient.
From S2P Require Runtime.

Notation RService := Runtime.Service.

(** ** Data *)
Record CreateOptions := mkCreateOptions {
  co_Type : string; co_Image : string; co_Namespace : string; co_Command : list string; co_Args : list string; co_Env : list string }.

Record ReadOptions := mkReadOptions { ro_Service : string; ro_Version : string; ro_Type : string; ro_Namespace : string }.

(** A service with what it is in the cluster. *)
Record service := mkservice { sv : RService; kservice : Service; kdeploy : Deployment }.

(** The runtime: its options and the namespaces it knows of. *)
Record kubernetes := mkKubernetes {
  k_Type : string; k_Source : string; k_Image : string; k_namespaces : option (list Namespace) }.

Definition metadata_of (s : RService) : gmap string string := default ∅ (Runtime.sv_Metadata s).

(** [Status] *)
Definition Status (status : string) (err : option string) (stamp : string) (md : gmap string string) : gmap string string :=
  let md := <["lastStatusUpdate" := stamp]> md in
  match err with
  | None => delete "error" (<["status" := status]> md)
  | Some e => <["error" := e]> (<["status" := "error"]> md)
  end.

Definition set_Status (status : string) (err : option string) (stamp : string) (s : RService) : RService :=
  Runtime.with_metadata (Status status err stamp (metadata_of s)) s.

(** ** What a service is made of *)
Definition set_image (image : string) (c : Container) : Container := mkContainer (c_Name c) image (c_Env c) [] [] (c_Ports c).

(** A variable of the environment is cut at the first two equals signs. *)
Definition env_var (evar : string) : option EnvVar :=
  match split_char "=" evar with
  | name :: value :: _ => Some (mkEnvVar name value)
  | _ => None
  end.

(** The changes of the first container. *)
Definition first_container (env : list EnvVar) (c : CreateOptions) (x : Container) : Container :=
  mkContainer (c_Name x) (c_Image x) (c_Env x ++ env)
    (match co_Command c with [] => c_Command x | cmd => cmd end)
    (match co_Args c with [] => c_Args x | args => args end) (c_Ports x).

Definition with_containers (f : list Container -> list Container) (d : Deployment) : Deployment :=
  mkDeployment (d_Metadata d)
    ((fun sp => mkDeploymentSpec (ds_Selector sp)
        ((fun t => mkTemplate (t_Metadata t) ((fun ps => mkPodSpec (ps_ServiceAccountName ps) (f (ps_Containers ps))) <$> t_PodSpec t))
           <$> ds_Template sp) (ds_Replicas sp)) <$> d_Spec d) (d_Status d).

(** The metadata of a new deployment and that of its template are one object. *)
Definition with_shared_metadata (f : Metadata -> Metadata) (d : Deployment) : Deployment :=
  mkDeployment (f <$> d_Metadata d)
    ((fun sp => mkDeploymentSpec (ds_Selector sp)
        ((fun t => mkTemplate (f <$> t_Metadata t) (t_PodSpec t)) <$> ds_Template sp) (ds_Replicas sp)) <$> d_Spec d) (d_Status d).

Definition service_annotations (s : RService) (md : gmap string string) : gmap string string :=
  <["group" := "micro"]> (<["owner" := "micro"]> (<["source" := Runtime.sv_Source s]>
    (<["version" := Runtime.sv_Version s]> (<["name" := Runtime.sv_Name s]> md)))).

Definition newService (o : map_order) (s : RService) (c : CreateOptions) : outcome Empty_set service :=
  let name := Format (Runtime.sv_Name s) in
  let version := Format (Runtime.sv_Version s) in
  let ks := NewService name version (co_Type c) (co_Namespace c) in
  let kd := NewDeployment name version (co_Type c) (co_Namespace c) in
  let s := Runtime.with_metadata (metadata_of s) s in
  let copy md := foldl (fun m kv => <[kv.1 := kv.2]> m) md (map_range o (metadata_of s)) in
  let kd := with_shared_metadata (fun m => with_annotations (Some (service_annotations s (copy (default ∅ (m_Annotations m))))) m) kd in
  let kd := if String.eqb (co_Image c) "" then kd else with_containers (map (set_image (co_Image c))) kd in
  match mapM env_var (co_Env c) with
  | None => Panic
  | Some env =>
      let kd := with_containers (fun cs => match cs with x :: cs => first_container env c x :: cs | [] => [] end) kd in
      Ret (mkservice s ks kd)
  end.

Definition deploymentResource {W} (d : Deployment) : M W Resource :=
  match d_Metadata d with Some m => ret (mkResource (Some (ODeployment d)) (m_Name m) "deployment") | None => panic end.

Definition serviceResource {W} (s : Service) : M W Resource :=
  match s_Metadata s with Some m => ret (mkResource (Some (OService s)) (m_Name m) "service") | None => panic end.

Definition ErrAlreadyExists : string := "already exists".

(** Calls that change a service and return an error. *)
Notation Err := (option string).

Section runtime.
Context {W : Type} `{!KClient W}.
(** The reason in the text of an error, none when it is the json of no object. *)
Context (parse_status : string -> option string).

(** What an error of the cluster becomes. *)
Definition parseError (e : string) : M W Err :=
  match parse_status e with
  | None => panic
  | Some reason => ret (Some (if String.eqb reason "AlreadyExists" then ErrAlreadyExists else e))
  end.

(** [Start]: first the deployment, then the service. *)
Definition Start (stamp : string) (s : service) (opts : list NamespaceOption) : M W (RService * Err) :=
  r <~ deploymentResource (kdeploy s);
  e <~ try (client_Create r opts);
  match e with
  | inl e => er <~ parseError e; ret (set_Status "error" (Some e) stamp (sv s), er)
  | inr _ =>
      r <~ serviceResource (kservice s);
      e <~ try (client_Create r opts);
      match e with
      | inl e => er <~ parseError e; ret (set_Status "error" (Some e) stamp (sv s), er)
      | inr _ => ret (set_Status "started" None stamp (sv s), None)
      end
  end.

(** [Stop]: first the service, then the deployment. *)
Definition Stop (stamp : string) (s : service) (opts : list NamespaceOption) : M W (RService * Err) :=
  r <~ serviceResource (kservice s);
  e <~ try (client_Delete r opts);
  match e with
  | inl e => ret (set_Status "error" (Some e) stamp (sv s), Some e)
  | inr _ =>
      r <~ deploymentResource (kdeploy s);
      e <~ try (client_Delete r opts);
      match e with
      | inl e => ret (set_Status "error" (Some e) stamp (sv s), Some e)
      | inr _ => ret (set_Status "stopped" None stamp (sv s), None)
      end
  end.

(** [Update]; the status is put into a copy of the service that nobody sees. *)
Definition service_Update (kd : Deployment) (ks : Service) (opts : list NamespaceOption) : M W unit :=
  r <~ deploymentResource kd;
  _ <~ client_Update r opts;
  r <~ serviceResource ks;
  client_Update r opts.

(** ** Namespaces *)
Definition with_namespaces (l : option (list Namespace)) (k : kubernetes) : kubernetes :=
  mkKubernetes (k_Type k) (k_Source k) (k_Image k) l.

Fixpoint has_namespace (name : string) (l : list Namespace) : M W bool :=
  match l with
  | [] => ret false
  | n :: l =>
      match n_Metadata n with
      | None => panic
      | Some m => if String.eqb (m_Name m) name then ret true else has_namespace name l
      end
  end.

(** The namespaces are listed once, and kept. *)
Definition namespaceExists (name : string) (k : kubernetes) : M W (kubernetes * bool) :=
  k <~ match k_namespaces k with
       | Some _ => ret k
       | None => l <~ client_List_namespaces []; ret (with_namespaces l k)
       end;
  b <~ has_namespace name (default [] (k_namespaces k));
  ret (k, b).

Definition new_namespace (namespace : string) : Namespace := mkNamespace (Some (mkMetadata ∅ None namespace "" "")).

Definition createNamespace (namespace : string) (k : kubernetes) : M W (kubernetes * Err) :=
  let ns := new_namespace namespace in
  e <~ try (client_Create (mkResource (Some (ONamespace ns)) "" "namespace") []);
  match e with
  | inl e => ret (k, Some e)
  | inr _ => ret (with_namespaces ((fun l => l ++ [ns]) <$> k_namespaces k) k, None)
  end.

(** Only names other than the default are looked up. *)
Definition ensure_namespace (namespace : string) (k : kubernetes) : M W (kubernetes * Err) :=
  if String.eqb namespace "default" then ret (k, None)
  else
    x <~ try (namespaceExists namespace k);
    match x with
    | inl e => ret (k, Some e)
    | inr (k, true) => ret (k, None)
    | inr (k, false) => createNamespace namespace k
    end.

Definition getImage (k : kubernetes) (c : CreateOptions) : string :=
  if String.eqb (co_Image c) "" then k_Image k else co_Image c.

Definition of_outcome {A} (x : outcome Empty_set A) : M W A :=
  match x with Ret a => ret a | _ => panic end.

Definition set_source (src : string) (s : RService) : RService :=
  if String.eqb (Runtime.sv_Source s) "" then Runtime.with_source src s else s.

(** The options of a creation, after the defaults. *)
Definition create_options (k : kubernetes) (opts : list (CreateOptions -> CreateOptions)) : CreateOptions :=
  let c := apply_all opts (mkCreateOptions (k_Type k) "" DefaultNamespace [] [] []) in
  let ty := if String.eqb (co_Type c) "" then k_Type k else co_Type c in
  mkCreateOptions ty (getImage k c) (co_Namespace c) (co_Command c) (co_Args c) (co_Env c).

Definition Create (o : map_order) (stamp : string) (s : RService) (opts : list (CreateOptions -> CreateOptions)) (k : kubernetes) :
    M W (kubernetes * RService * Err) :=
  let c := create_options k opts in
  let s := set_source (k_Source k) s in
  e <~ ensure_namespace (SerializeResourceName (co_Namespace c)) k;
  match e with
  | (k, Some e) => ret (k, s, Some e)
  | (k, None) =>
      x <~ of_outcome (newService o s c);
      r <~ Start stamp x [CreateNamespace (co_Namespace c)];
      ret (k, fst r, snd r)
  end.

Definition Delete (o : map_order) (stamp : string) (s : RService) (opts : list (string -> string)) (k : kubernetes) : M W (RService * Err) :=
  let ns := apply_all opts DefaultNamespace in
  x <~ of_outcome (newService o s (mkCreateOptions (k_Type k) "" ns [] [] []));
  Stop stamp x [DeleteNamespace ns].

(** ** Finding services *)
(** A service that was found, and whether its deployment was. The two pointers it has into
    the cluster's lists are those of the loops' variables, which all services share and
    which end at the last element of their list. *)
Record found := mkFound { f_sv : RService; f_deployed : bool }.

Record listing := mkListing { l_services : list found; l_kservice : option Service; l_kdeploy : option Deployment }.

Definition label (k : string) (m : Metadata) : string := default "" (m_Labels m !! k).

(** The key under which a service is kept: its name and version without anything between. *)
Definition key_of (m : Metadata) : string := label "name" m +:+ label "version" m.

Definition from_service (svcs : gmap string found) (ks : Service) : outcome string (gmap string found) :=
  match s_Metadata ks, s_Spec ks with
  | Some m, Some sp =>
      match ss_Ports sp with
      | [] => Panic
      | p :: _ =>
          let md := <["type" := label "micro" m]> {["address" := ss_ClusterIP sp +:+ ":" +:+ fmt_Z (sp_Port p)]} in
          let md := default ∅ (m_Annotations m) ∪ md in
          Ret (<[key_of m := mkFound (Runtime.mkService (label "name" m) (label "version" m) "" (Some md)) false]> svcs)
      end
  | _, _ => Panic
  end.

(** What a pod says of the service with a name and a version. *)
Definition pod_status (name version stamp : string) (md : gmap string string) (item : Pod) : outcome string (gmap string string) :=
  match p_Metadata item with
  | None => Panic
  | Some m =>
      if negb (String.eqb (label "name" m) name) then Ret md
      else if negb (String.eqb (label "version" m) version) then Ret md
      else
        match p_Status item with
        | None => Panic
        | Some st =>
            let status := if String.eqb (pst_Phase st) "Failed" then pst_Reason st else pst_Phase st in
            match pst_Containers st with
            | [] => Ret md
            | state :: _ =>
                let md := match cs_Running state with Some r => <["started" := cd_Started r]> md | None => md end in
                let status :=
                  match cs_Waiting state with
                  | Some v => if String.eqb (cd_Reason v) "" then status else cd_Reason v
                  | None => status
                  end in
                Ret (Status status None stamp md)
            end
        end
  end.

Fixpoint fold_out {A B} (f : A -> B -> outcome string A) (l : list B) (a : A) : outcome string A :=
  match l with [] => Ret a | b :: l => a <-! f a b; fold_out f l a end.

(** What a deployment that has our annotations says of its service: the service then, and
    the annotations that are left in the deployment. *)
Definition from_deployment (pods : list Pod) (stamp : string -> string) (svcs : gmap string found) (kd : Deployment) :
    outcome string (gmap string found * Deployment) :=
  match d_Metadata kd with
  | None => Panic
  | Some m =>
      match svcs !! key_of m, default ∅ (m_Annotations m) !! "name" with
      | Some svc, Some name =>
          let ann := default ∅ (m_Annotations m) in
          let rest := delete "source" (delete "version" (delete "name" ann)) in
          let md := rest ∪ metadata_of (f_sv svc) in
          match d_Status kd with
          | None => Panic
          | Some st =>
              let stamp := stamp (key_of m) in
              let md :=
                match dst_Conditions st with
                | c :: _ => <["started" := dc_LastUpdateTime c]> (Status (dc_Type c) None stamp md)
                | [] => Status "n/a" None stamp md
                end in
              md <-! fold_out (pod_status (label "name" m) (label "version" m) stamp) pods md;
              Ret (<[key_of m := mkFound (Runtime.mkService name (default "" (ann !! "version")) (default "" (ann !! "source")) (Some md)) true]> svcs,
                   mkDeployment (Some (with_annotations (Some rest) m)) (d_Spec kd) (d_Status kd))
          end
      | _, _ => Ret (svcs, kd)
      end
  end.

(** The services of the cluster's three lists; every pass sets the loop's variable. *)
Definition collect (o : map_order) (stamp : string -> string) (ss : list Service) (ds : list Deployment) (ps : list Pod) :
    outcome string listing :=
  svcs <-! fold_out from_service ss ∅;
  r <-! fold_out (fun a kd => x <-! from_deployment ps stamp (fst a) kd; Ret (fst x, Some (snd x))) ds (svcs, None);
  Ret (mkListing (map snd (map_range o (fst r))) (last ss) (snd r)).

Definition getService (o : map_order) (stamp : string -> string) (labels : gmap string string) (opts : list GetOption) : M W listing :=
  let opts := opts ++ [GetLabels labels] in
  ss <~ client_Get_services opts;
  ds <~ client_Get_deployments opts;
  ps <~ client_Get_pods opts;
  (fun w => (collect o stamp ss ds ps, w)).

Definition set_if (k v : string) (m : gmap string string) : gmap string string := if String.eqb v "" then m else <[k := v]> m.

Definition read_labels (r : ReadOptions) : gmap string string :=
  let labels := if String.eqb (ro_Service r) "" then ∅ else {["name" := Format (ro_Service r)]} in
  set_if "micro" (ro_Type r) (set_if "version" (ro_Version r) labels).

Definition Read (o : map_order) (stamp : string -> string) (opts : list (ReadOptions -> ReadOptions)) : M W (list RService) :=
  let r := apply_all opts (mkReadOptions "" "" "" DefaultNamespace) in
  srvs <~ getService o stamp (read_labels r) [GetNamespace (ro_Namespace r)];
  ret (map f_sv (l_services srvs)).

(** ** Updating *)
(** The time of the update, in the template's annotations. *)
Definition stamp_template (unix : string) (d : Deployment) : M W Deployment :=
  match d_Spec d with
  | Some (mkDeploymentSpec sel (Some (mkTemplate (Some m) ps)) n) =>
      match m_Annotations m with
      | None => panic
      | Some a =>
          ret (mkDeployment (d_Metadata d)
            (Some (mkDeploymentSpec sel (Some (mkTemplate (Some (with_annotations (Some (<["updated" := unix]> a)) m)) ps)) n)) (d_Status d))
      end
  | _ => panic
  end.

(** The metadata of the update, put into that of the deployment; a deployment without
    annotations gets new metadata, without its name. *)
Definition update_metadata (o : map_order) (md : gmap string string) (d : Deployment) : Deployment :=
  let m :=
    match d_Metadata d with
    | Some (mkMetadata ls (Some a) n ns v) => mkMetadata ls (Some a) n ns v
    | _ => mkMetadata ∅ (Some ∅) "" "" ""
    end in
  let a := foldl (fun a kv => <[kv.1 := kv.2]> a) (default ∅ (m_Annotations m)) (map_range o md) in
  mkDeployment (Some (with_annotations (Some a) m)) (d_Spec d) (d_Status d).

(** One pass of the loop, over the deployment that all services share. *)
Fixpoint update_all (o : map_order) (unix : string) (md : gmap string string) (ns : string)
    (l : list found) (ks : option Service) (kd : option Deployment) : M W unit :=
  match l with
  | [] => ret tt
  | f :: l =>
      match kd, ks with
      | Some d, Some s =>
          if negb (f_deployed f) then panic
          else
            d <~ stamp_template unix (update_metadata o md d);
            _ <~ service_Update d s [UpdateNamespace ns];
            update_all o unix md ns l ks (Some d)
      | _, _ => panic
      end
  end.

Definition update_labels (s : RService) : gmap string string :=
  set_if "version" (Runtime.sv_Version s)
    (if String.eqb (Runtime.sv_Name s) "" then ∅ else {["name" := Format (Runtime.sv_Name s)]}).

(** [Update]: the services are looked for in the namespace of the client. *)
Definition Update (o : map_order) (stamp : string -> string) (unix : string) (s : RService) (opts : list (string -> string)) : M W unit :=
  let ns := apply_all opts DefaultNamespace in
  l <~ getService o stamp (update_labels s) [];
  update_all o unix (metadata_of s) ns (l_services l) (l_kservice l) (l_kdeploy l).

(** ** Events *)
Definition update_event_deployment (name unix : string) (d : Deployment) : M W unit :=
  match d_Metadata d with
  | None => panic
  | Some m =>
      if negb (String.eqb (m_Name m) name) then ret tt
      else
        match d_Spec d with
        | Some (mkDeploymentSpec sel (Some (mkTemplate (Some tm) ps)) n) =>
            let tm := with_annotations (Some (<["updated" := unix]> (default ∅ (m_Annotations tm)))) tm in
            let d := mkDeployment (Some m) (Some (mkDeploymentSpec sel (Some (mkTemplate (Some tm) ps)) n)) (d_Status d) in
            r <~ deploymentResource d;
            _ <~ try (client_Update r []);
            ret tt
        | _ => panic
        end
  end.

(** An event that the loop takes: only updates of a service do something, and errors are
    logged. *)
Definition handle_event (k : kubernetes) (is_update : bool) (svc : option RService) (unix : string) : M W unit :=
  if negb is_update then ret tt
  else
    match svc with
    | None => ret tt
    | Some s =>
        let name := Format (Runtime.sv_Name s) in
        let labels := set_if "version" (Runtime.sv_Version s) (<["name" := name]> {["micro" := k_Type k]}) in
        ds <~ try (client_Get_deployments [GetLabels labels]);
        match ds with
        | inl _ => ret tt
        | inr ds => each (update_event_deployment name unix) ds
        end
    end.
End runtime.

(** ** The life of the runtime

    [Start] makes a channel and a goroutine, [Stop] closes the channel. The goroutine looks
    up the runtime's channel each time it waits. *)
Inductive loop := Busy | Waiting (c : nat).

Record life := mkLife { lf_running : bool; lf_current : nat; lf_closed : list nat; lf_loops : list loop }.

Definition NewRuntime : life := mkLife false 0 [] [].

Definition runtime_Start (l : life) : life :=
  if lf_running l then l else mkLife true (S (lf_current l)) (lf_closed l) (lf_loops l ++ [Busy]).

Definition runtime_Stop (l : life) : life :=
  if negb (lf_running l) then l
  else if decide (lf_current l ∈ lf_closed l) then l
  else mkLife false (lf_current l) (lf_current l :: lf_closed l) (lf_loops l).

Inductive life_step (l : life) : life -> Prop :=
| life_starts : life_step l (runtime_Start l)
| life_stops : life_step l (runtime_Stop l)
| loop_waits i : lf_loops l !! i = Some Busy ->
    life_step l (mkLife (lf_running l) (lf_current l) (lf_closed l) (<[i := Waiting (lf_current l)]> (lf_loops l)))
| loop_works i c : lf_loops l !! i = Some (Waiting c) ->
    life_step l (mkLife (lf_running l) (lf_current l) (lf_closed l) (<[i := Busy]> (lf_loops l)))
| loop_ends i c : lf_loops l !! i = Some (Waiting c) -> c ∈ lf_closed l ->
    life_step l (mkLife (lf_running l) (lf_current l) (lf_closed l) (delete i (lf_loops l))).

Inductive life_reach : life -> Prop :=
| life_new : life_reach NewRuntime
| life_next l l' : life_reach l -> life_step l l' -> life_reach l'.

(** ** Finding what was created *)
Lemma fold_out_app {A B} (f : A -> B -> outcome string A) l1 l2 a :
  fold_out f (l1 ++ l2) a = (a <-! fold_out f l1 a; fold_out f l2 a).
Proof. revert a. induction l1 as [|b l1 IH]; intros a; cbn; [done|]. destruct (f a b); cbn; [apply IH|done..]. Qed.

Lemma fold_out_inv {A B} (P : A -> Prop) (Q : B -> Prop) (f : A -> B -> outcome string A) l a :
  (forall a b, P a -> Q b -> exists a', f a b = Ret a' /\ P a') -> P a -> Forall Q l -> exists a', fold_out f l a = Ret a' /\ P a'.
Proof.
  intros Hf Ha Hl. revert a Ha. induction Hl as [|b l Hb _ IH]; intros a Ha; cbn; [eauto|].
  destruct (Hf a b Ha Hb) as (a' & -> & Ha'). cbn. by apply IH.
Qed.

(** The keys the code itself puts into the metadata of a service. *)
Definition reserved : list string :=
  ["name"; "version"; "source"; "owner"; "group"; "status"; "lastStatusUpdate"; "error"; "started"].

Definition service_wf (s : Service) : Prop := exists m sp p ps, s_Metadata s = Some m /\ s_Spec s = Some sp /\ ss_Ports sp = p :: ps.
Definition deployment_wf (d : Deployment) : Prop := exists m st, d_Metadata d = Some m /\ d_Status d = Some st.
Definition pod_wf (p : Pod) : Prop := is_Some (p_Metadata p) /\ is_Some (p_Status p).

Definition service_key (s : Service) : option string := key_of <$> s_Metadata s.
Definition deployment_key (d : Deployment) : option string := key_of <$> d_Metadata d.

Lemma Status_lookup status e stamp md k : k ∉ reserved -> Status status e stamp md !! k = md !! k.
Proof.
  unfold reserved. rewrite !not_elem_of_cons. intros (?&?&?&?&?&?&?&?&?&_). unfold Status.
  destruct e; by rewrite ?lookup_delete_ne, !lookup_insert_ne by congruence.
Qed.

Lemma pod_status_ok name version stamp md p : pod_wf p ->
  exists md', pod_status name version stamp md p = Ret md' /\ forall k, k ∉ reserved -> md' !! k = md !! k.
Proof.
  intros [[m Hm] [st Hst]]. unfold pod_status. rewrite Hm. destruct (negb _); [eauto|]. destruct (negb _); [eauto|]. rewrite Hst.
  destruct (pst_Containers st) as [|state cs]; [eauto|]. eexists. split; [reflexivity|]. intros k Hk. rewrite Status_lookup by done.
  destruct (cs_Running state); [|done]. rewrite lookup_insert_ne; [done|]. revert Hk. unfold reserved. set_solver.
Qed.

Lemma from_service_ok svcs ks : service_wf ks ->
  exists m sp f, s_Metadata ks = Some m /\ s_Spec ks = Some sp /\ from_service svcs ks = Ret (<[key_of m := f]> svcs).
Proof. intros (m & sp & p & ps & Hm & Hsp & Hp). exists m, sp. unfold from_service. rewrite Hm, Hsp, Hp. eauto. Qed.

Lemma services_fold l a : Forall service_wf l ->
  exists b, fold_out from_service l a = Ret b /\ (forall K, is_Some (a !! K) \/ Some K ∈ map service_key l -> is_Some (b !! K)).
Proof.
  intros Hl. revert a. induction Hl as [|ks l Hks _ IH]; intros a; cbn [fold_out].
  - exists a. split; [done|]. intros K [?|Hin]; [done|]. by apply elem_of_nil in Hin.
  - destruct (from_service_ok a ks Hks) as (m & sp & f & Hm & _ & ->). cbn.
    destruct (IH (<[key_of m := f]> a)) as (b & -> & Hb). exists b. split; [done|]. intros K HK. apply Hb.
    cbn in HK. rewrite elem_of_cons in HK. unfold service_key at 1 in HK. rewrite Hm in HK. cbn in HK.
    destruct (decide (key_of m = K)) as [<-|Hne]; [left; rewrite lookup_insert_eq; eauto|]. rewrite lookup_insert_ne by done.
    destruct HK as [?|[?|?]]; [by left|congruence|by right].
Qed.

Section deployments.
Context (ps : list Pod) (stamp : string -> string) (Hps : Forall pod_wf ps).

Lemma pods_fold name version st md :
  exists md', fold_out (pod_status name version st) ps md = Ret md' /\ forall k, k ∉ reserved -> md' !! k = md !! k.
Proof.
  revert md. induction Hps as [|p l Hp Hl IH]; intros md; cbn; [eauto|].
  destruct (pod_status_ok name version st md p Hp) as (md1 & -> & H1). cbn. destruct (IH Hl md1) as (md2 & -> & H2).
  exists md2. split; [done|]. intros k Hk. by rewrite H2, H1.
Qed.

(** The loop's deployment after a pass is the deployment of the list, less a few annotations. *)
Definition same_target (kd d' : Deployment) : Prop :=
  d_Spec d' = d_Spec kd /\ m_Name <$> d_Metadata d' = m_Name <$> d_Metadata kd /\
  (is_Some (d_Metadata kd ≫= m_Annotations) -> is_Some (d_Metadata d' ≫= m_Annotations)).

(** What a deployment does to its service, which has its annotations then. *)
Lemma from_deployment_found svcs kd m f0 name : d_Metadata kd = Some m -> is_Some (d_Status kd) ->
  svcs !! key_of m = Some f0 -> default ∅ (m_Annotations m) !! "name" = Some name ->
  exists md d', from_deployment ps stamp svcs kd =
    Ret (<[key_of m := mkFound (Runtime.mkService name (default "" (default ∅ (m_Annotations m) !! "version"))
                                  (default "" (default ∅ (m_Annotations m) !! "source")) (Some md)) true]> svcs, d') /\
    same_target kd d' /\
    forall k v, k ∉ reserved -> default ∅ (m_Annotations m) !! k = Some v -> md !! k = Some v.
Proof.
  intros Hm [st Hst] Hf Hn. unfold from_deployment. rewrite Hm, Hf, Hn, Hst. cbn zeta.
  set (rest := delete "source" _). set (md1 := rest ∪ _).
  match goal with |- context [fold_out _ ps ?x] => destruct (pods_fold (label "name" m) (label "version" m) (stamp (key_of m)) x) as (md & Hmd & Hlook) end.
  rewrite Hmd. cbn. exists md. eexists. split; [reflexivity|].
  split; [unfold same_target; rewrite Hm; cbn; eauto|]. intros k v Hk Hv. rewrite Hlook by done.
  assert (md1 !! k = Some v) as Hmd1.
  { apply lookup_union_Some_l. subst rest. revert Hk. unfold reserved. rewrite !not_elem_of_cons. intros (?&?&?&_). by rewrite !lookup_delete_ne. }
  destruct (dst_Conditions st); [by rewrite Status_lookup|]. rewrite lookup_insert_ne, Status_lookup by (revert Hk; unfold reserved; set_solver). done.
Qed.

Lemma from_deployment_ok svcs kd : deployment_wf kd ->
  exists svcs' d', from_deployment ps stamp svcs kd = Ret (svcs', d') /\
    same_target kd d' /\
    (forall K, deployment_key kd <> Some K -> svcs' !! K = svcs !! K) /\ (forall K, is_Some (svcs !! K) -> is_Some (svcs' !! K)).
Proof.
  intros (m & st & Hm & Hst). unfold deployment_key. rewrite Hm. destruct (svcs !! key_of m) as [f0|] eqn:Hf.
  - destruct (default ∅ (m_Annotations m) !! "name") as [name|] eqn:Hn.
    + destruct (from_deployment_found svcs kd m f0 name Hm (ex_intro _ st Hst) Hf Hn) as (md & d' & -> & Hd & _).
      do 2 eexists. split; [reflexivity|]. split; [done|]. split; intros K HK.
      * rewrite lookup_insert_ne; [done|]. cbn in HK. congruence.
      * destruct (decide (key_of m = K)) as [<-|]; [by rewrite lookup_insert_eq|by rewrite lookup_insert_ne].
    + unfold from_deployment. rewrite Hm, Hf, Hn. do 2 eexists. split; [reflexivity|]. by split.
  - unfold from_deployment. rewrite Hm, Hf. do 2 eexists. split; [reflexivity|]. by split.
Qed.

Definition deployments_step := fun (a : gmap string found * option Deployment) kd => x <-! from_deployment ps stamp (fst a) kd; Ret (fst x, Some (snd x)) : outcome string _.

Lemma deployments_fold ds a : Forall deployment_wf ds ->
  exists b, fold_out deployments_step ds a = Ret b /\
    (forall K, Some K ∉ map deployment_key ds -> fst b !! K = fst a !! K) /\ (forall K, is_Some (fst a !! K) -> is_Some (fst b !! K)) /\
    (ds = [] -> b = a) /\ (forall d0, last ds = Some d0 -> exists d, snd b = Some d /\ same_target d0 d).
Proof.
  intros Hds. revert a. induction Hds as [|kd ds Hkd Hds IH]; intros a; cbn [fold_out].
  - by exists a.
  - unfold deployments_step at 1. destruct (from_deployment_ok (fst a) kd Hkd) as (svcs' & d' & -> & Hd & Hk & Hs). cbn [outcome_bind fst snd].
    destruct (IH (svcs', Some d')) as (b & -> & Hb1 & Hb2 & Hb3 & Hb4). exists b. split; [done|]. split; [|split; [|split]].
    + intros K HK. cbn in HK. rewrite elem_of_cons in HK. rewrite Hb1 by tauto. cbn. apply Hk. intros He. by apply HK; left.
    + intros K HK. by apply Hb2, Hs.
    + done.
    + intros d0 Hl. destruct ds as [|d1 ds]; [|by apply Hb4]. cbn in Hl. injection Hl as <-. rewrite Hb3 by done. by exists d'.
Qed.
End deployments.

Lemma collect_ok o stamp ss ds ps : Forall service_wf ss -> Forall deployment_wf ds -> Forall pod_wf ps ->
  exists svcs b, fold_out from_service ss ∅ = Ret svcs /\ fold_out (deployments_step ps stamp) ds (svcs, None) = Ret b /\
    collect o stamp ss ds ps = Ret (mkListing (map snd (map_range o (fst b))) (last ss) (snd b)).
Proof.
  intros Hss Hds Hps. destruct (services_fold ss ∅ Hss) as (svcs & Hs & _).
  destruct (deployments_fold ps stamp Hps ds (svcs, None) Hds) as (b & Hb & _). exists svcs, b. split; [done|]. split; [done|].
  unfold collect. rewrite Hs. cbn [outcome_bind]. fold (deployments_step ps stamp). by rewrite Hb.
Qed.

(** What a new service is in the cluster. *)
Lemma newService_spec o s c x : newService o s c = Ret x ->
  let labels := default_labels (Format (Runtime.sv_Name s)) (Format (Runtime.sv_Version s)) (co_Type c) in
  (exists m, s_Metadata (kservice x) = Some m /\ m_Labels m = labels) /\
  (exists m, d_Metadata (kdeploy x) = Some m /\ m_Labels m = labels /\
    m_Name m = default_name (Format (Runtime.sv_Name s)) (Format (Runtime.sv_Version s)) /\
    m_Annotations m = Some (service_annotations s (metadata_of s))).
Proof.
  unfold newService. destruct (mapM env_var (co_Env c)) as [env|]; [|done]. intros [= <-]. cbn zeta. cbn [kservice kdeploy sv].
  split; [by eexists|]. assert (forall f d, d_Metadata (with_containers f d) = d_Metadata d) as Hc by done.
  assert (metadata_of (Runtime.with_metadata (metadata_of s) s) = metadata_of s) as -> by done.
  rewrite Hc. destruct (String.eqb (co_Image c) ""); rewrite ?Hc; eexists; (split; [reflexivity|]); cbn;
    rewrite foldl_insert_range, (right_id_L ∅ (∪)); done.
Qed.

Lemma service_annotations_keep s md k v : k ∉ reserved -> md !! k = Some v -> service_annotations s md !! k = Some v.
Proof.
  unfold reserved. rewrite !not_elem_of_cons. intros (?&?&?&?&?&_) Hv. unfold service_annotations. by rewrite !lookup_insert_ne by congruence.
Qed.

Lemma service_annotations_names s md :
  service_annotations s md !! "name" = Some (Runtime.sv_Name s) /\ service_annotations s md !! "version" = Some (Runtime.sv_Version s) /\
  service_annotations s md !! "source" = Some (Runtime.sv_Source s).
Proof. unfold service_annotations. by simplify_map_eq. Qed.

Lemma default_labels_label n v t m : default_labels n v t ⊆ m_Labels m -> key_of m = n +:+ v.
Proof.
  intros Hm. unfold key_of, label.
  by rewrite (lookup_weaken (default_labels n v t) (m_Labels m) "name" n), (lookup_weaken (default_labels n v t) (m_Labels m) "version" v).
Qed.

Lemma newService_bare o s c x m : newService o s c = Ret x -> s_Metadata (kservice x) = Some m -> m_Annotations m = None.
Proof. unfold newService. destruct (mapM env_var (co_Env c)); [|done]. intros [= <-]. cbn. by intros [= <-]. Qed.

Lemma set_source_keeps src s : Runtime.sv_Name (set_source src s) = Runtime.sv_Name s /\
  Runtime.sv_Version (set_source src s) = Runtime.sv_Version s /\ metadata_of (set_source src s) = metadata_of s.
Proof. unfold set_source. by destruct (String.eqb _ _). Qed.

(** What the lists have of a service is read back: when they hold a service and a deployment
    of one key, the deployment has its annotations, and no later one has the key. *)
Lemma collected_is_found_at o' stamp s ss ds1 kd ds2 ps md ks ms :
  Forall service_wf ss -> Forall deployment_wf (ds1 ++ kd :: ds2) -> Forall pod_wf ps ->
  ks ∈ ss -> s_Metadata ks = Some ms -> d_Metadata kd = Some md -> key_of ms = key_of md ->
  service_annotations s (metadata_of s) ⊆ default ∅ (m_Annotations md) -> Some (key_of md) ∉ map deployment_key ds2 ->
  exists l f, collect o' stamp ss (ds1 ++ kd :: ds2) ps = Ret l /\ f ∈ l_services l /\
    Runtime.sv_Name (f_sv f) = Runtime.sv_Name s /\ Runtime.sv_Version (f_sv f) = Runtime.sv_Version s /\
    Runtime.sv_Source (f_sv f) = Runtime.sv_Source s /\
    forall k v, k ∉ reserved -> metadata_of s !! k = Some v -> metadata_of (f_sv f) !! k = Some v.
Proof.
  intros Hss Hds Hps Hks Hms Hmd Hkey Hann Hlater.
  destruct (service_annotations_names s (metadata_of s)) as (Hn & Hv & Hs).
  pose proof (lookup_weaken _ _ _ _ Hn Hann) as Hn'. pose proof (lookup_weaken _ _ _ _ Hv Hann) as Hv'. pose proof (lookup_weaken _ _ _ _ Hs Hann) as Hs'.
  destruct (collect_ok o' stamp ss _ ps Hss Hds Hps) as (svcs & b & Hsv & Hb & ->).
  destruct (services_fold ss ∅ Hss) as (svcs' & Hsv' & Hin). rewrite Hsv in Hsv'. injection Hsv' as <-.
  assert (is_Some (svcs !! key_of md)) as Hsome.
  { apply Hin. right. rewrite <- Hkey. apply list_elem_of_fmap. exists ks. unfold service_key. by rewrite Hms. }
  apply Forall_app in Hds as [Hds1 Hds2]. apply Forall_cons in Hds2 as [Hkd Hds2].
  rewrite fold_out_app in Hb. destruct (deployments_fold ps stamp Hps ds1 (svcs, None) Hds1) as (b1 & Hb1 & _ & Hmono & _).
  rewrite Hb1 in Hb. cbn [outcome_bind fold_out] in Hb. destruct (Hmono _ Hsome) as [f0 Hf0].
  destruct Hkd as (m' & st & Hm' & Hst). rewrite Hmd in Hm'. injection Hm' as <-.
  destruct (from_deployment_found ps stamp Hps (fst b1) kd md f0 _ Hmd (ex_intro _ st Hst) Hf0 Hn') as (mdf & d' & Hfrom & _ & Hkeep).
  unfold deployments_step at 1 in Hb. rewrite Hfrom in Hb. cbn [outcome_bind fst snd] in Hb.
  destruct (deployments_fold ps stamp Hps ds2 (<[key_of md := mkFound (Runtime.mkService (Runtime.sv_Name s)
    (default "" (default ∅ (m_Annotations md) !! "version")) (default "" (default ∅ (m_Annotations md) !! "source")) (Some mdf)) true]> (fst b1), Some d') Hds2)
    as (b2 & Hb2 & Hsame & _). rewrite Hb2 in Hb. injection Hb as ->.
  do 2 eexists. split; [reflexivity|]. cbn [l_services]. split.
  - apply list_elem_of_fmap. eexists (key_of md, _). split; [reflexivity|]. apply elem_of_map_range. rewrite Hsame by done. cbn. by rewrite lookup_insert_eq.
  - cbn. rewrite Hv', Hs'. repeat split; [..|]. intros k v Hk Hmk'. apply Hkeep; [done|]. eapply lookup_weaken; [|exact Hann]. by apply service_annotations_keep.
Qed.

(** ** Creating and reading *)
(** The objects of a namespace. *)
Record view := mkView { v_services : list Service; v_deployments : list Deployment; v_pods : list Pod }.

(** What a template writes between double quotes, and as a key, without a change. *)
Definition plain_char (a : ascii) : bool :=
  let n := nat_of_ascii a in (32 <=? n) && (n <=? 126) && negb (n =? 34) && negb (n =? 92).

Definition yaml_words : list string := ["true"; "false"; "yes"; "no"; "on"; "off"; "y"; "n"; "null"].

Definition plain_yaml_key (k : string) : bool :=
  match k with
  | String a _ => is_alnum a && negb (is_digit a) && str_forall (fun a => is_alnum a || Ascii.eqb a "-" || Ascii.eqb a "_") k
                  && negb (bool_decide (to_lower k ∈ yaml_words))
  | "" => false
  end.

Definition plain_map (m : gmap string string) : Prop := map_Forall (fun k v => plain_yaml_key k = true /\ str_forall plain_char v = true) m.

Definition labelled (ls : gmap string string) (m : option Metadata) : bool :=
  match m with Some m => bool_decide (map_Forall (fun k v => m_Labels m !! k = Some v) ls) | None => false end.

(** An object that is changed keeps its labels and annotations. *)
Definition keeps (m m' : option Metadata) : Prop :=
  forall x, m = Some x -> exists x', m' = Some x' /\ m_Labels x ⊆ m_Labels x' /\ default ∅ (m_Annotations x) ⊆ default ∅ (m_Annotations x').

Definition persists (v v' : view) : Prop :=
  (forall d, d ∈ v_deployments v -> exists d', d' ∈ v_deployments v' /\ keeps (d_Metadata d) (d_Metadata d')) /\
  (forall x, x ∈ v_services v -> exists x', x' ∈ v_services v' /\ keeps (s_Metadata x) (s_Metadata x')).

(** What the code relies on of a cluster: an object that is created is there with its labels
    and annotations, if the template writes them as they are; creating takes nothing away;
    a list has the objects of its namespace with the labels that are asked for, as they are
    at that time, and changes nothing. *)
Class ClusterLaws (W : Type) `{!KClient W} (look : W -> string -> view) := {
  created_deployment d m n ns w w' : d_Metadata d = Some m -> plain_map (m_Labels m) -> plain_map (default ∅ (m_Annotations m)) ->
    client_Create (mkResource (Some (ODeployment d)) n "deployment") [CreateNamespace ns] w = (Ret tt, w') ->
    exists d', d' ∈ v_deployments (look w' (SerializeResourceName ns)) /\ keeps (d_Metadata d) (d_Metadata d');
  created_service x m n ns w w' : s_Metadata x = Some m -> plain_map (m_Labels m) -> m_Annotations m = None ->
    client_Create (mkResource (Some (OService x)) n "service") [CreateNamespace ns] w = (Ret tt, w') ->
    exists x', x' ∈ v_services (look w' (SerializeResourceName ns)) /\ keeps (s_Metadata x) (s_Metadata x');
  create_persists r opts w w' x ns : client_Create r opts w = (x, w') -> persists (look w ns) (look w' ns);
  got_services ns ls w l w' : client_Get_services [GetNamespace ns; GetLabels ls] w = (Ret l, w') ->
    l = List.filter (fun x => labelled ls (s_Metadata x)) (v_services (look w (SerializeResourceName ns))) /\ look w' = look w;
  got_deployments ns ls w l w' : client_Get_deployments [GetNamespace ns; GetLabels ls] w = (Ret l, w') ->
    l = List.filter (fun x => labelled ls (d_Metadata x)) (v_deployments (look w (SerializeResourceName ns))) /\ look w' = look w;
  got_pods ns ls w l w' : client_Get_pods [GetNamespace ns; GetLabels ls] w = (Ret l, w') ->
    l = List.filter (fun x => labelled ls (p_Metadata x)) (v_pods (look w (SerializeResourceName ns))) /\ look w' = look w;
  get_returns ns ls w : (client_Get_services [GetNamespace ns; GetLabels ls] w).1 <> Panic /\
    (client_Get_deployments [GetNamespace ns; GetLabels ls] w).1 <> Panic /\ (client_Get_pods [GetNamespace ns; GetLabels ls] w).1 <> Panic }.

(** The objects with these labels have the parts that the code looks into. *)
Definition complete (ls : gmap string string) (v : view) : Prop :=
  Forall service_wf (List.filter (fun x => labelled ls (s_Metadata x)) (v_services v)) /\
  Forall deployment_wf (List.filter (fun x => labelled ls (d_Metadata x)) (v_deployments v)) /\
  Forall pod_wf (List.filter (fun x => labelled ls (p_Metadata x)) (v_pods v)).

(** Every deployment with the labels of the service is its own. *)
Definition own_deployments (s : RService) (v : view) : Prop :=
  forall d m, d ∈ v_deployments v -> d_Metadata d = Some m -> label "name" m = Format (Runtime.sv_Name s) ->
    label "version" m = Format (Runtime.sv_Version s) -> service_annotations s (metadata_of s) ⊆ default ∅ (m_Annotations m).

(** The options of a [Read] that ask for it: with its version only where formatting the
    version changes nothing (see [read_selects]). *)
Definition asks_for (s : RService) (c : CreateOptions) (r : ReadOptions) : Prop :=
  ro_Service r = Runtime.sv_Name s /\
  (ro_Version r = "" \/ ro_Version r = Runtime.sv_Version s /\ Format (Runtime.sv_Version s) = Runtime.sv_Version s) /\
  (ro_Type r = "" \/ ro_Type r = co_Type c) /\ SerializeResourceName (ro_Namespace r) = SerializeResourceName (co_Namespace c).

Lemma last_split {A} (P : A -> Prop) `{!forall x, Decision (P x)} (l : list A) x : x ∈ l -> P x ->
  exists l1 y l2, l = l1 ++ y :: l2 /\ P y /\ Forall (fun z => ~ P z) l2.
Proof.
  intros Hx Hp. induction l as [|z l IH] using rev_ind; [by apply elem_of_nil in Hx|].
  destruct (decide (P z)) as [Hz|Hz]; [exists l, z, []; split_and!; [done|done|by apply Forall_nil]|].
  apply elem_of_app in Hx as [Hx|Hx]; [|by apply list_elem_of_singleton in Hx as ->].
  destruct (IH Hx) as (l1 & y & l2 & -> & Hy & Hl2). exists l1, y, (l2 ++ [z]). rewrite <- app_assoc. split_and!; [done|done|].
  apply Forall_app. split; [done|]. by apply Forall_singleton.
Qed.

Lemma asks_labels s c r : Runtime.sv_Name s <> "" -> asks_for s c r ->
  read_labels r ⊆ default_labels (Format (Runtime.sv_Name s)) (Format (Runtime.sv_Version s)) (co_Type c) /\
  read_labels r !! "name" = Some (Format (Runtime.sv_Name s)).
Proof.
  intros Hne (Hn & Hv & Ht & _). unfold read_labels, set_if. rewrite Hn, (proj2 (String.eqb_neq _ _) Hne).
  set (labels := default_labels _ _ _).
  assert (labels !! "name" = Some (Format (Runtime.sv_Name s)) /\ labels !! "version" = Some (Format (Runtime.sv_Version s)) /\
    labels !! "micro" = Some (co_Type c)) as (Hln & Hlv & Hlt) by by (subst labels; unfold default_labels; simplify_map_eq).
  split.
  - assert ((if String.eqb (ro_Version r) "" then {["name" := Format (Runtime.sv_Name s)]}
      else <["version" := ro_Version r]> {["name" := Format (Runtime.sv_Name s)]}) ⊆ labels) as Hsub.
    { destruct (String.eqb_spec (ro_Version r) ""); [by apply map_singleton_subseteq_l|].
      destruct Hv as [?|[-> He]]; [done|]. apply insert_subseteq_l; [by rewrite Hlv, He|by apply map_singleton_subseteq_l]. }
    destruct (String.eqb_spec (ro_Type r) ""); [done|]. destruct Ht as [?| ->]; [done|]. by apply insert_subseteq_l.
  - destruct (String.eqb _ _), (String.eqb _ _); by simplify_map_eq.
Qed.

Lemma labelled_subset ls m m' : ls ⊆ m_Labels m -> m_Labels m ⊆ m_Labels m' -> labelled ls (Some m') = true.
Proof. intros H1 H2. apply bool_decide_eq_true_2. intros k v Hk. by eapply lookup_weaken; [eapply lookup_weaken|]. Qed.

Lemma labelled_label ls m k v : labelled ls (Some m) = true -> ls !! k = Some v -> label k m = v.
Proof. intros Hl Hk. apply bool_decide_eq_true in Hl. unfold label. by rewrite (Hl k v Hk). Qed.

Lemma kept_trans m1 m2 m3 : keeps m1 m2 -> keeps m2 m3 -> keeps m1 m3.
Proof.
  intros H1 H2 x Hx. destruct (H1 x Hx) as (y & Hy & Hl & Ha). destruct (H2 y Hy) as (z & Hz & Hl' & Ha').
  exists z. split_and!; [done| |]; by etransitivity.
Qed.

Section created.
Context {W : Type} `{!KClient W} {look : W -> string -> view} `{!ClusterLaws W look} (parse_status : string -> option string).

(** What a creation without an error has put into the cluster. *)
Lemma Create_puts o stamp s opts k w k' s' w1 :
  let c := create_options k opts in
  Create parse_status o stamp s opts k w = (Ret (k', s', None), w1) ->
  exists x w0 w' n1 n2, newService o (set_source (k_Source k) s) c = Ret x /\
    client_Create (mkResource (Some (ODeployment (kdeploy x))) n1 "deployment") [CreateNamespace (co_Namespace c)] w0 = (Ret tt, w') /\
    client_Create (mkResource (Some (OService (kservice x))) n2 "service") [CreateNamespace (co_Namespace c)] w' = (Ret tt, w1).
Proof.
  cbn zeta. unfold Create. set (c := create_options k opts). cbn zeta. unfold bind at 1.
  destruct (ensure_namespace _ k w) as [[[k1 [e| ]]|e| ] w0]; [by intros [=]| |done..].
  unfold bind at 1, of_outcome. destruct (newService o _ c) as [x|[]| ] eqn:Hx; [|done]. cbn [ret]. unfold bind at 1, Start, deploymentResource, serviceResource.
  destruct (newService_spec _ _ _ _ Hx) as [(m1 & Hm1 & _) (m2 & Hm2 & _)]. rewrite Hm1, Hm2.
  unfold bind, try, ret. intros Hr. exists x, w0.
  destruct (client_Create (mkResource (Some (ODeployment _)) _ _) _ w0) as [[[]|e| ] w'] eqn:H1; cbn in Hr.
  - destruct (client_Create (mkResource (Some (OService _)) _ _) _ w') as [[[]|e| ] w2] eqn:H2; cbn in Hr.
    + injection Hr as _ _ <-. by eauto 10.
    + unfold parseError in Hr. by destruct (parse_status e).
    + done.
  - unfold parseError in Hr. by destruct (parse_status e).
  - done.
Qed.

(** Both objects of a service that was created are there later. *)
Lemma Create_there o stamp s opts k w k' s' w1 v :
  let c := create_options k opts in let s1 := set_source (k_Source k) s in
  let labels := default_labels (Format (Runtime.sv_Name s1)) (Format (Runtime.sv_Version s1)) (co_Type c) in
  Create parse_status o stamp s opts k w = (Ret (k', s', None), w1) ->
  plain_map labels -> plain_map (service_annotations s1 (metadata_of s1)) ->
  persists (look w1 (SerializeResourceName (co_Namespace c))) v ->
  exists x, newService o s1 c = Ret x /\
    (exists d, d ∈ v_deployments v /\ keeps (d_Metadata (kdeploy x)) (d_Metadata d)) /\
    (exists y, y ∈ v_services v /\ keeps (s_Metadata (kservice x)) (s_Metadata y)).
Proof.
  intros c s1 labels Hc Hpl Hpa [Hpd Hps]. apply Create_puts in Hc as (x & w0 & w' & n1 & n2 & Hx & H1 & H2). exists x. split; [done|].
  destruct (newService_spec _ _ _ _ Hx) as [(m1 & Hm1 & Hl1) (m2 & Hm2 & Hl2 & _ & Ha2)].
  pose proof (newService_bare _ _ _ _ _ Hx Hm1) as Ha1. split.
  - destruct (created_deployment _ _ _ _ _ _ Hm2 ltac:(by rewrite Hl2) ltac:(by rewrite Ha2) H1) as (d & Hd & Hk).
    destruct (proj1 (create_persists _ _ _ _ _ (SerializeResourceName (co_Namespace c)) H2) d Hd) as (d' & Hd' & Hk').
    destruct (Hpd d' Hd') as (d2 & Hd2 & Hk2). exists d2. split; [done|]. by eapply kept_trans; [eapply kept_trans|].
  - destruct (created_service _ _ _ _ _ _ Hm1 ltac:(by rewrite Hl1) Ha1 H2) as (y & Hy & Hk).
    destruct (Hps y Hy) as (y2 & Hy2 & Hk2). exists y2. split; [done|]. by eapply kept_trans.
Qed.

(** A [Read] whose requests are answered collects what the cluster has then. *)
Lemma Read_collects o stamp opts w :
  let r := apply_all opts (mkReadOptions "" "" "" DefaultNamespace) in let ls := read_labels r in
  let v := look w (SerializeResourceName (ro_Namespace r)) in
  (forall e, (Read o stamp opts w).1 <> Fail e) ->
  (Read o stamp opts w).1 =
    (l <-! collect o stamp (List.filter (fun x => labelled ls (s_Metadata x)) (v_services v))
                           (List.filter (fun x => labelled ls (d_Metadata x)) (v_deployments v))
                           (List.filter (fun x => labelled ls (p_Metadata x)) (v_pods v)); Ret (map f_sv (l_services l))).
Proof.
  cbn zeta. unfold Read, getService, bind. set (r := apply_all opts _). cbn [app]. intros Hf.
  destruct (get_returns (ro_Namespace r) (read_labels r) w) as (Hp & _).
  destruct (client_Get_services _ w) as [[ss|e| ] w1] eqn:H1; [|by destruct (Hf e)|done]. clear Hp.
  destruct (get_returns (ro_Namespace r) (read_labels r) w1) as (_ & Hp & _).
  destruct (client_Get_deployments _ w1) as [[ds|e| ] w2] eqn:H2; [|by destruct (Hf e)|done]. clear Hp.
  destruct (get_returns (ro_Namespace r) (read_labels r) w2) as (_ & _ & Hp).
  destruct (client_Get_pods _ w2) as [[ps|e| ] w3] eqn:H3; [|by destruct (Hf e)|done].
  apply got_services in H1 as [-> E1]. apply got_deployments in H2 as [-> E2]. apply got_pods in H3 as [-> E3]. rewrite E2, E1.
  clear. unfold ret. destruct (collect _ _ _ _ _); reflexivity.
Qed.

(** C33: a service that was created is found again: after a [Create] without an error, when
    the cluster has kept its two objects, a [Read] that asks for it and whose requests are
    answered returns, and among what it returns is the service with the name, version and
    source it was created with, though the cluster only knows them in another form, and
    with all its metadata but for the few keys the runtime uses itself. The names, the
    version and the metadata are texts that the templates write as they are; every other
    deployment with the same two labels would take its place; and asking for a version that
    formatting changes (one with a dot) finds nothing, as [read_selects] says. *)
Theorem created_is_found o stamp s opts k w k' s' w1 o' stamp' ropts w2 :
  let c := create_options k opts in let s1 := set_source (k_Source k) s in
  let r := apply_all ropts (mkReadOptions "" "" "" DefaultNamespace) in
  let v := look w2 (SerializeResourceName (co_Namespace c)) in
  Create parse_status o stamp s opts k w = (Ret (k', s', None), w1) ->
  plain_map (default_labels (Format (Runtime.sv_Name s)) (Format (Runtime.sv_Version s)) (co_Type c)) ->
  plain_map (service_annotations s1 (metadata_of s)) ->
  persists (look w1 (SerializeResourceName (co_Namespace c))) v ->
  Runtime.sv_Name s <> "" -> asks_for s c r -> complete (read_labels r) v -> own_deployments s1 v ->
  (forall e, (Read o' stamp' ropts w2).1 <> Fail e) ->
  exists l f, (Read o' stamp' ropts w2).1 = Ret l /\ f ∈ l /\
    Runtime.sv_Name f = Runtime.sv_Name s /\ Runtime.sv_Version f = Runtime.sv_Version s /\ Runtime.sv_Source f = Runtime.sv_Source s1 /\
    forall key val, key ∉ reserved -> metadata_of s !! key = Some val -> metadata_of f !! key = Some val.
Proof.
  intros c s1 r v Hc Hpl Hpa Hp Hne Hask (Hws & Hwd & Hwp) Hown Hf.
  destruct (set_source_keeps (k_Source k) s) as (Esn & Esv & Esm). fold s1 in Esn, Esv, Esm.
  destruct (asks_labels s c r Hne Hask) as [Hsub Hname].
  destruct (Create_there o stamp s opts k w k' s' w1 v Hc) as (x & Hx & (d & Hd & Hkd) & (y & Hy & Hky)); fold c s1;
    [by rewrite Esn, Esv|by rewrite Esm|done|]. fold c s1 in Hx.
  destruct (newService_spec _ _ _ _ Hx) as [(mk & Hmk & Hlk) (mdk & Hmdk & Hld & _ & Had)]. rewrite Esn, Esv in Hlk, Hld.
  destruct (Hkd mdk Hmdk) as (md0 & Hmd0 & Hl0 & Ha0). destruct (Hky mk Hmk) as (ms & Hms & Hls & _).
  set (ls := read_labels r) in *. rewrite Had, Esm in Ha0. cbn [default from_option] in Ha0.
  set (key := Format (Runtime.sv_Name s) +:+ Format (Runtime.sv_Version s)).
  set (ds := List.filter (fun x => labelled ls (d_Metadata x)) (v_deployments v)).
  assert (d ∈ ds) as Hin.
  { apply list_elem_of_In, List.filter_In. split; [by apply list_elem_of_In|]. rewrite Hmd0. by eapply labelled_subset; [|exact Hl0]; rewrite Hld. }
  destruct (last_split (fun d => deployment_key d = Some key) ds d Hin) as (ds1 & kd & ds2 & Eds & Hkey & Hlater).
  { unfold deployment_key. rewrite Hmd0. cbn. f_equal. apply (default_labels_label _ _ (co_Type c)). by rewrite <- Hld. }
  destruct (d_Metadata kd) as [md|] eqn:Hmd; [|by unfold deployment_key in Hkey; rewrite Hmd in Hkey].
  assert (kd ∈ ds) as Hkin by (rewrite Eds; apply elem_of_app; right; by left).
  apply list_elem_of_In, List.filter_In in Hkin as [Hkin Hlab]. apply list_elem_of_In in Hkin. rewrite Hmd in Hlab.
  pose proof (labelled_label _ _ _ _ Hlab Hname) as Hln.
  assert (key_of md = key) as Hkof by (unfold deployment_key in Hkey; rewrite Hmd in Hkey; by injection Hkey).
  assert (label "version" md = Format (Runtime.sv_Version s)) as Hlv.
  { unfold key_of in Hkof. rewrite Hln in Hkof. by apply (inj (String.append _)) in Hkof. }
  pose proof (Hown kd md Hkin Hmd ltac:(by rewrite Esn) ltac:(by rewrite Esv)) as Hann. rewrite Esm in Hann.
  assert (y ∈ List.filter (fun x => labelled ls (s_Metadata x)) (v_services v)) as Hyin.
  { apply list_elem_of_In, List.filter_In. split; [by apply list_elem_of_In|]. rewrite Hms. by eapply labelled_subset; [|exact Hls]; rewrite Hlk. }
  pose proof (Read_collects o' stamp' ropts w2 Hf) as HR. cbn zeta in HR. fold r ls in HR.
  assert (SerializeResourceName (ro_Namespace r) = SerializeResourceName (co_Namespace c)) as Ens by by destruct Hask as (_ & _ & _ & ?).
  rewrite Ens in HR. fold v ds in HR. rewrite Eds in HR. fold ds in Hwd. rewrite Eds in Hwd.
  destruct (collected_is_found_at o' stamp' s1 _ ds1 kd ds2 _ md y ms Hws Hwd Hwp Hyin Hms Hmd) as (l & f & Hl & Hfl & F1 & F2 & F3 & F4);
    [..|rewrite Hl in HR; cbn in HR; exists (map f_sv (l_services l)), (f_sv f); split; [done|]; split; [by apply list_elem_of_fmap_2|];
        rewrite <- Esn, <- Esv; split_and!; try done; by rewrite <- Esm].
  - rewrite Hkof. apply (default_labels_label _ _ (co_Type c)). by rewrite <- Hlk.
  - by rewrite Esm.
  - rewrite Hkof. intros Hk. apply list_elem_of_fmap in Hk as (z & Hz & Hzin). rewrite Forall_forall in Hlater. by apply (Hlater z Hzin).
Qed.
End created.

(** ** Versions *)
(** Asking for a service with its own name and version selects what was created for it
    exactly when formatting the version changes nothing: the labels have the formatted
    version, and are asked for the version itself. *)
Theorem read_selects o s c x m ty : newService o s c = Ret x -> d_Metadata (kdeploy x) = Some m -> ty = "" \/ ty = co_Type c ->
  read_labels (mkReadOptions (Runtime.sv_Name s) (Runtime.sv_Version s) ty (co_Namespace c)) ⊆ m_Labels m <->
  Format (Runtime.sv_Version s) = Runtime.sv_Version s.
Proof.
  intros Hx Hm Hty. destruct (newService_spec o s c x Hx) as [_ (m2 & Hm2 & Hl & _)]. rewrite Hm in Hm2. injection Hm2 as <-. rewrite Hl.
  unfold read_labels, set_if. cbn [ro_Service ro_Version ro_Type].
  set (labels := default_labels _ _ _).
  assert (labels !! "name" = Some (Format (Runtime.sv_Name s)) /\ labels !! "version" = Some (Format (Runtime.sv_Version s)) /\
    labels !! "micro" = Some (co_Type c)) as (Hn & Hv & Ht) by by (subst labels; unfold default_labels; simplify_map_eq).
  assert (forall m : gmap string string, (if String.eqb (Runtime.sv_Name s) "" then ∅ else {["name" := Format (Runtime.sv_Name s)]}) ⊆ labels) as Hname.
  { intros _. destruct (String.eqb _ _); [apply map_empty_subseteq|]. by apply map_singleton_subseteq_l. }
  split.
  - intros Hsub. destruct (String.eqb_spec (Runtime.sv_Version s) "") as [->|Hne]; [done|].
    assert (Some (Format (Runtime.sv_Version s)) = Some (Runtime.sv_Version s)) as He; [|by injection He].
    rewrite <- Hv. eapply lookup_weaken; [|exact Hsub]. destruct (String.eqb ty ""); by simplify_map_eq.
  - intros He. assert ((if String.eqb (Runtime.sv_Version s) "" then
        if String.eqb (Runtime.sv_Name s) "" then ∅ else {["name" := Format (Runtime.sv_Name s)]}
      else <["version" := Runtime.sv_Version s]> (if String.eqb (Runtime.sv_Name s) "" then ∅ else {["name" := Format (Runtime.sv_Name s)]})) ⊆ labels) as Hsub.
    { destruct (String.eqb (Runtime.sv_Version s) ""); [by apply Hname|]. apply insert_subseteq_l; [by rewrite Hv, He|by apply Hname]. }
    destruct (String.eqb_spec ty "") as [->|Hne]; [done|]. apply insert_subseteq_l; [|done]. rewrite Ht. destruct Hty; congruence.
Qed.

(** ** A cluster that answers with given lists and notes the changes it is asked for *)
Definition noted : Type := list (string * string * string).

Definition note (op : string) (r : Resource) (w : noted) : outcome string unit * noted := (Ret tt, w ++ [(op, r_Kind r, r_Name r)]).

Section recorder.
Context (ss : list Service) (ds : list Deployment) (ps : list Pod) (nss : option (list Namespace)).

#[local] Instance recorder : KClient noted := {|
  client_Create r _ := note "create" r; client_Update r _ := note "update" r; client_Delete r _ := note "delete" r;
  client_Get_services _ := ret ss; client_Get_deployments _ := ret ds; client_Get_pods _ := ret ps;
  client_List_namespaces _ := ret nss; client_Log _ _ := ret "" |}.

Definition template_wf (d : Deployment) : Prop :=
  exists sel m a p n, d_Spec d = Some (mkDeploymentSpec sel (Some (mkTemplate (Some m) p)) n) /\ m_Annotations m = Some a.

Lemma update_all_noted o unix md ns l s ms d name w :
  Forall (fun f => f_deployed f = true) l -> s_Metadata s = Some ms -> template_wf d ->
  m_Name <$> d_Metadata d = Some name -> is_Some (d_Metadata d ≫= m_Annotations) ->
  update_all o unix md ns l (Some s) (Some d) w =
    (Ret tt, w ++ concat (replicate (length l) [("update", "deployment", name); ("update", "service", m_Name ms)])).
Proof.
  intros Hl Hs. revert d w. induction Hl as [|f l Hf _ IH]; intros d w (sel & m & a & p & n & Hsp & Ha) Hd Han; cbn [update_all length replicate concat].
  - by rewrite app_nil_r.
  - rewrite Hf. destruct d as [[[ls [an|] nm nsp v]|] sp st]; try done; [|by destruct Han]. cbn in Hsp, Hd. injection Hd as <-. subst sp.
    cbn. rewrite Ha. unfold bind at 1. cbn [ret]. unfold service_Update, bind at 1. cbn. unfold serviceResource. rewrite Hs. cbn.
    unfold bind, note, ret. cbn. rewrite <- !app_assoc. cbn. erewrite IH; [by rewrite <- !app_assoc|..].
    + by repeat eexists.
    + done.
    + by eexists.
Qed.

(** C37: updating a service updates one deployment and one service of the cluster for each
    service that was found, but always the same two: the last of the lists. *)
Theorem update_hits_last o stamp unix s opts s0 ms d0 m : Forall service_wf ss -> Forall deployment_wf ds -> Forall pod_wf ps ->
  last ss = Some s0 -> s_Metadata s0 = Some ms -> last ds = Some d0 -> d_Metadata d0 = Some m -> is_Some (m_Annotations m) -> template_wf d0 ->
  exists l, collect o stamp ss ds ps = Ret l /\
    (Forall (fun f => f_deployed f = true) (l_services l) ->
     Update o stamp unix s opts [] =
       (Ret tt, concat (replicate (length (l_services l)) [("update", "deployment", m_Name m); ("update", "service", m_Name ms)]))).
Proof.
  intros Hss Hds Hps Hs0 Hms Hd0 Hm Ha Ht. destruct (collect_ok o stamp ss ds ps Hss Hds Hps) as (svcs & b & _ & Hb & Hc).
  eexists. split; [exact Hc|]. cbn [l_services]. intros Hall. unfold Update, getService, bind. cbn. rewrite Hc. cbn.
  destruct (deployments_fold ps stamp Hps ds (svcs, None) Hds) as (b' & Hb' & _ & _ & _ & Hlast). rewrite Hb in Hb'. injection Hb' as <-.
  destruct (Hlast d0 Hd0) as (d & -> & Hsp & Hn & Han). rewrite Hs0.
  rewrite (update_all_noted o unix _ _ _ s0 ms d (m_Name m)); [done|done|done|..].
  - unfold template_wf. by rewrite Hsp.
  - by rewrite Hn, Hm.
  - apply Han. by rewrite Hm.
Qed.

(** A service whose deployment was not found makes the update panic. *)
Theorem update_without_deployment o unix md ns f l ks kd w : f_deployed f = false -> (update_all o unix md ns (f :: l) ks kd w).1 = Panic.
Proof. intros Hf. cbn [update_all]. destruct kd, ks; try done. by rewrite Hf. Qed.
End recorder.

(** ** Namespaces *)
Section namespaces.
Context {W : Type} `{!KClient W}.

Lemma has_namespace_app name l1 l2 (w w' : W) b : has_namespace name l1 w = (Ret b, w') ->
  w' = w /\ has_namespace name (l1 ++ l2) w = (if b then (Ret true, w) else has_namespace name l2 w).
Proof.
  revert w. induction l1 as [|n l1 IH]; intros w; cbn.
  - by intros [= <- <-].
  - destruct (n_Metadata n) as [md|]; [|done]. destruct (String.eqb _ name); [by intros [= <- <-]|apply IH].
Qed.

Lemma has_namespace_world name l (w w1 w' : W) b : has_namespace name l w = (Ret b, w') -> has_namespace name l w1 = (Ret b, w1).
Proof.
  revert w. induction l as [|n l IH]; intros w; cbn; [by intros [= <- _]|].
  destruct (n_Metadata n) as [md|]; [|done]. destruct (String.eqb _ name); [by intros [= <- _]|apply IH].
Qed.

(** Once a namespace is made sure of it is known: it is neither looked for nor created
    again, whatever happens in the cluster. *)
Theorem namespace_once ns k k' (w w' w1 : W) : ensure_namespace ns k w = (Ret (k', None), w') -> is_Some (k_namespaces k') ->
  ensure_namespace ns k' w1 = (Ret (k', None), w1).
Proof.
  unfold ensure_namespace. destruct (String.eqb ns "default"); [done|].
  unfold namespaceExists at 1. unfold bind at 1, try at 1.
  set (m := match k_namespaces k with Some _ => ret k | None => _ end).
  unfold bind at 1. destruct (m w) as [[k1| |] w2] eqn:Hm; [|done..].
  unfold bind at 1. destruct (has_namespace ns (default [] (k_namespaces k1)) w2) as [[b| |] w3] eqn:Hb; [|done..].
  intros Hrun [l' Hl'].
  assert (has_namespace ns l' w1 = (Ret true, w1)) as Hknown.
  { cbn [ret] in Hrun. destruct b.
    - injection Hrun as <- _. rewrite Hl' in Hb. by eapply has_namespace_world.
    - unfold createNamespace, bind, try in Hrun. destruct (client_Create _ _ _) as [[[]| |] w4]; cbn in Hrun; try done.
      injection Hrun as <- _. cbn in Hl'. destruct (k_namespaces k1) as [l|]; [|done]. injection Hl' as <-. cbn in Hb.
      pose proof (has_namespace_world ns l w2 w1 w3 false Hb) as Hb1.
      destruct (has_namespace_app ns l [new_namespace ns] w1 w1 false Hb1) as [_ ->]. cbn. by rewrite String.eqb_refl. }
  unfold namespaceExists, bind, try. rewrite Hl'. cbn. rewrite Hl'. cbn. by rewrite Hknown.
Qed.
End namespaces.

(** ** Events and versions *)
Lemma str_app_length_ne (a b : string) : b <> "" -> a +:+ b <> a.
Proof. intros Hb He. apply (f_equal String.length) in He. rewrite str_length_app in He. destruct b; [done|]. cbn in He. lia. Qed.

Lemma each_ret {W A} (f : A -> M W unit) l w : (forall x w, x ∈ l -> f x w = (Ret tt, w)) -> each f l w = (Ret tt, w).
Proof.
  revert w. induction l as [|x l IH]; intros w Hf; cbn; [done|]. unfold bind. rewrite Hf by by left. apply IH. intros y w' Hy. apply Hf. by right.
Qed.

(** An update event looks for deployments with the name of the service: those that the
    runtime made for a service with a version have the version in their names, and none of
    them is updated. *)
Theorem event_misses_versions {W} `{!KClient W} o s c x m k unix w (ds : list Deployment) w' :
  newService o s c = Ret x -> d_Metadata (kdeploy x) = Some m -> Format (Runtime.sv_Version s) <> "" ->
  client_Get_deployments [GetLabels (set_if "version" (Runtime.sv_Version s) (<["name" := Format (Runtime.sv_Name s)]> {["micro" := k_Type k]}))] w
    = (Ret ds, w') ->
  Forall (fun d => m_Name <$> d_Metadata d = Some (m_Name m)) ds ->
  handle_event k true (Some s) unix w = (Ret tt, w').
Proof.
  intros Hx Hm Hv Hget Hds. destruct (newService_spec o s c x Hx) as [_ (m2 & Hm2 & _ & Hn & _)]. rewrite Hm in Hm2. injection Hm2 as <-.
  unfold handle_event. cbn [negb]. unfold bind at 1, try at 1. rewrite Hget. apply each_ret. intros d w1 Hd.
  rewrite Forall_forall in Hds. specialize (Hds d Hd). unfold update_event_deployment. destruct (d_Metadata d) as [md|]; [|done]. cbn in Hds. injection Hds as Hds.
  rewrite Hds, Hn. unfold default_name. destruct (String.eqb_spec (Format (Runtime.sv_Version s)) ""); [done|].
  destruct (String.eqb_spec (join "-" [Format (Runtime.sv_Name s); Format (Runtime.sv_Version s)]) (Format (Runtime.sv_Name s))) as [He|]; [|done].
  exfalso. revert He. cbn. by apply str_app_length_ne.
Qed.

(** ** The life of the runtime *)
(** A goroutine that waits, waits on the runtime's channel or on one that is closed; the
    channel is open while the runtime runs and closed afterwards. *)
Definition life_ok (l : life) : Prop :=
  (forall i c, lf_loops l !! i = Some (Waiting c) -> c = lf_current l \/ c ∈ lf_closed l) /\
  (forall c, c ∈ lf_closed l -> c <= lf_current l) /\
  (lf_running l = true -> lf_current l ∉ lf_closed l) /\
  (lf_running l = false -> lf_loops l = [] \/ lf_current l ∈ lf_closed l).

Lemma life_step_ok l l' : life_ok l -> life_step l l' -> life_ok l'.
Proof.
  intros Hok. pose proof Hok as (H1 & H2 & H3 & H4). intros Hs. destruct Hs as [| |i Hi|i c Hi|i c Hi Hc].
  - unfold runtime_Start. destruct (lf_running l) eqn:Hr; [done|]. split; [|split; [|split]]; cbn.
    + intros i c Hi. apply lookup_app_Some in Hi as [Hi|[_ Hi]].
      * destruct (H4 eq_refl) as [He|He]; [by rewrite He in Hi|]. right. by destruct (H1 i c Hi) as [->|].
      * apply list_lookup_singleton_Some in Hi as [_ ?]. done.
    + intros c Hc%H2. lia.
    + intros _ Hc%H2. lia.
    + done.
  - unfold runtime_Stop. destruct (lf_running l) eqn:Hr; cbn; [|done].
    case_decide as Hd; [by destruct (H3 eq_refl)|]. split; [|split; [|split]]; cbn.
    + intros i c Hi. destruct (H1 i c Hi) as [->|Hc]; [by left|right; by right].
    + intros c [->|Hc]%elem_of_cons; [lia|by apply H2].
    + done.
    + intros _. right. by left.
  - split; [|split; [|split]]; cbn; [|done|done|].
    + intros j c Hj. apply list_lookup_insert_Some in Hj as [(_ & [= <-] & _)|[_ Hj]]; [by left|by eapply H1].
    + intros Hr. destruct (H4 Hr) as [He|]; [by rewrite He in Hi|by right].
  - split; [|split; [|split]]; cbn; [|done|done|].
    + intros j c' Hj. apply list_lookup_insert_Some in Hj as [(_ & ? & _)|[_ Hj]]; [done|by eapply H1].
    + intros Hr. destruct (H4 Hr) as [He|]; [by rewrite He in Hi|by right].
  - split; [|split; [|split]]; cbn; [|done|done|].
    + intros j c' Hj. rewrite list_lookup_delete in Hj. by eapply H1.
    + intros Hr. destruct (H4 Hr) as [He|]; [by rewrite He in Hi|by right].
Qed.

Lemma life_reach_ok l : life_reach l -> life_ok l.
Proof.
  induction 1 as [|l l' _ IH Hs]; [|by eapply life_step_ok].
  split; [|split; [|split]]; cbn; try done; [intros c Hc; by apply elem_of_nil in Hc|by left].
Qed.

(** When the runtime is stopped every goroutine of it that waits can end. *)
Theorem stopped_loops_end l i c : life_reach l -> lf_running l = false -> lf_loops l !! i = Some (Waiting c) ->
  life_step l (mkLife (lf_running l) (lf_current l) (lf_closed l) (delete i (lf_loops l))).
Proof.
  intros Hl Hr Hi. destruct (life_reach_ok l Hl) as (H1 & _ & _ & H4). eapply loop_ends; [done|].
  destruct (H1 i c Hi) as [->|?]; [|done]. destruct (H4 Hr) as [He|?]; [by rewrite He in Hi|done].
Qed.

(** But one that is busy while the runtime is stopped and started again waits on the new
    channel afterwards: two goroutines take the events then. *)
Theorem restart_doubles_loop : exists l, life_reach l /\ lf_running l = true /\ lf_current l ∉ lf_closed l /\
  lf_loops l = [Waiting (lf_current l); Waiting (lf_current l)].
Proof.
  exists (mkLife true 2 [1] [Waiting 2; Waiting 2]). split; [|split; [done|split; [set_solver|done]]].
  eapply (life_next (mkLife true 2 [1] [Waiting 2; Busy])); [|by apply (loop_waits (mkLife true 2 [1] [Waiting 2; Busy]) 1)].
  eapply (life_next (mkLife true 2 [1] [Busy; Busy])); [|by apply (loop_waits (mkLife true 2 [1] [Busy; Busy]) 0)].
  eapply (life_next (mkLife false 1 [1] [Busy])); [|by apply (life_starts (mkLife false 1 [1] [Busy]))].
  eapply (life_next (mkLife true 1 [] [Busy])); [|by apply (life_stops (mkLife true 1 [] [Busy]))].
  eapply (life_next NewRuntime); [apply life_new|apply (life_starts NewRuntime)].
Qed.

(** ** Examples and witnesses *)
Definition greeter : RService := Runtime.mkService "Greeter" "v1.0" "src/greeter" (Some {["team" := "core"]}).
Definition ex_options : CreateOptions := mkCreateOptions "service" "" "default" ["run"] [] ["A=1"].

Definition made (s : RService) (c : CreateOptions) : service :=
  match newService order_id s c with
  | Ret x => x
  | _ => mkservice s (NewService "" "" "" "") (NewDeployment "" "" "" "")
  end.

(** What the cluster has of it: a running deployment. *)
Definition running_deployment (d : Deployment) : Deployment :=
  mkDeployment (d_Metadata d) (d_Spec d) (Some (mkDeploymentStatus [mkDeploymentCondition "now" "Available" "" ""])).

Definition ex_service : Service := kservice (made greeter ex_options).
Definition ex_deployment : Deployment := running_deployment (kdeploy (made greeter ex_options)).

(** Two services are kept under one key, and only one of them is found. *)
Example ex_keys_collide :
  (fun l => length (l_services l)) <$>
    match collect order_id (fun _ => "now") [NewService "a" "1" "service" ""; NewService "a1" "" "service" ""] [] [] with
    | Ret l => Some l | _ => None end = Some 1.
Proof. vm_compute. reflexivity. Qed.

(** A variable of the environment without an equals sign. *)
Example ex_bad_env : newService order_id greeter (mkCreateOptions "service" "" "default" [] [] ["DEBUG"]) = Panic.
Proof. vm_compute. reflexivity. Qed.

Lemma Forall_one {A} (P : A -> Prop) x : P x -> Forall P [x].
Proof. by repeat constructor. Qed.

Lemma ex_service_wf : service_wf ex_service.
Proof. unfold service_wf. vm_compute. repeat eexists. Qed.

Lemma ex_deployment_wf : deployment_wf ex_deployment.
Proof. unfold deployment_wf. vm_compute. repeat eexists. Qed.

Definition ex_smd : Metadata := default (mkMetadata ∅ None "" "" "") (s_Metadata ex_service).
Definition ex_dmd : Metadata := default (mkMetadata ∅ None "" "" "") (d_Metadata ex_deployment).

(** A cluster of one namespace, in which what is created runs. *)
Definition toy : Type := list Service * list Deployment.

Definition toy_objects (w : toy) (ns : string) : view := if String.eqb ns "default" then mkView w.1 w.2 [] else mkView [] [] [].

Definition toy_create (r : Resource) (opts : list NamespaceOption) : M toy unit :=
  if String.eqb (apply_all opts "") "default" then
    match r_Value r with
    | Some (ODeployment d) => fun w => (Ret tt, (w.1, w.2 ++ [running_deployment d]))
    | Some (OService x) => fun w => (Ret tt, (w.1 ++ [x], w.2))
    | _ => fail "unknown kind"
    end
  else fail "no such namespace".

Definition toy_get {A} (part : view -> list A) (meta : A -> option Metadata) (opts : list GetOption) : M toy (list A) := fun w =>
  let o := apply_all opts (mkGetOptions ∅ "") in
  (Ret (List.filter (fun x => labelled (g_Labels o) (meta x)) (part (toy_objects w (g_Namespace o)))), w).

#[local] Instance toy_KClient : KClient toy := {|
  client_Create := toy_create; client_Update _ _ := fail "not here"; client_Delete _ _ := fail "not here";
  client_Get_services := toy_get v_services s_Metadata; client_Get_deployments := toy_get v_deployments d_Metadata;
  client_Get_pods := toy_get v_pods p_Metadata; client_List_namespaces _ := ret None; client_Log _ _ := fail "not here" |}.

Lemma kept_refl m : keeps m m.
Proof. intros x ->. by exists x. Qed.

Lemma toy_persists w ss ds ns : persists (toy_objects w ns) (toy_objects (w.1 ++ ss, w.2 ++ ds) ns).
Proof.
  unfold toy_objects. case_match; split; cbn; intros x Hx; exists x; (split; [|apply kept_refl]); try done; by apply elem_of_app; left.
Qed.

#[local] Instance toy_laws : ClusterLaws toy toy_objects.
Proof.
  constructor.
  - intros d m n ns w w' Hm _ _. cbn. unfold toy_create, fail, CreateNamespace. cbn. destruct (String.eqb_spec (SerializeResourceName ns) "default") as [->|]; [|by intros [=]].
    intros [= <-]. exists (running_deployment d). cbn. split; [apply elem_of_app; right; by left|apply kept_refl].
  - intros x m n ns w w' Hm _ _. cbn. unfold toy_create, fail, CreateNamespace. cbn. destruct (String.eqb_spec (SerializeResourceName ns) "default") as [->|]; [|by intros [=]].
    intros [= <-]. exists x. cbn. split; [apply elem_of_app; right; by left|apply kept_refl].
  - intros r opts w w' x ns. cbn. unfold toy_create, fail. destruct w as [ss ds].
    pose proof (toy_persists (ss, ds) [] []) as Hn. cbn in Hn. rewrite !app_nil_r in Hn.
    destruct (String.eqb _ _); [|intros [= _ <-]; apply Hn].
    destruct (r_Value r) as [[d|y|p|n|e|a]|]; intros [= _ <-]; try apply Hn.
    + pose proof (toy_persists (ss, ds) [] [running_deployment d] ns) as Hd. cbn in Hd. by rewrite app_nil_r in Hd.
    + pose proof (toy_persists (ss, ds) [y] [] ns) as Hd. cbn in Hd. by rewrite app_nil_r in Hd.
  - intros ns ls w l w'. cbn. unfold toy_get. by intros [= <- <-].
  - intros ns ls w l w'. cbn. unfold toy_get. by intros [= <- <-].
  - intros ns ls w l w'. cbn. unfold toy_get. by intros [= <- <-].
  - intros ns ls w. cbn. unfold toy_get. done.
Qed.

Definition ex_create_options : list (CreateOptions -> CreateOptions) :=
  [fun c => mkCreateOptions "service" "" (co_Namespace c) ["run"] [] ["A=1"]].

Definition ex_read_options : list (ReadOptions -> ReadOptions) := [fun r => mkReadOptions "Greeter" "" "service" (ro_Namespace r)].

Definition ex_runtime : kubernetes := mkKubernetes "service" "src" "" None.

Definition ex_created : outcome string (kubernetes * RService * Err) * toy :=
  @Create toy toy_KClient (fun _ => Some "") order_id "now" greeter ex_create_options ex_runtime ([], []).

Definition ex_in_cluster : toy := ([ex_service], [ex_deployment]).

Lemma ex_objects : ex_created.2 = ex_in_cluster.
Proof. vm_compute. reflexivity. Qed.

Lemma ex_complete ls : complete ls (toy_objects ex_in_cluster "default").
Proof.
  unfold complete, toy_objects, ex_in_cluster. cbn [String.eqb Ascii.eqb Bool.eqb v_services v_deployments v_pods fst snd List.filter].
  split_and!; [|..|apply Forall_nil_2]; case_match; try apply Forall_nil_2; apply Forall_one; [apply ex_service_wf|apply ex_deployment_wf].
Qed.

Lemma ex_own_deployments : own_deployments greeter (toy_objects ex_in_cluster "default").
Proof.
  intros d m Hd Hm _ _. apply list_elem_of_singleton in Hd as ->.
  assert (d_Metadata ex_deployment = Some ex_dmd) as He by (vm_compute; reflexivity). rewrite He in Hm. injection Hm as <-.
  assert (default ∅ (m_Annotations ex_dmd) = service_annotations greeter (metadata_of greeter)) as -> by (vm_compute; reflexivity). done.
Qed.

Lemma created_is_found_witness :
  exists l f, (@Read toy toy_KClient order_rev (fun _ => "later") ex_read_options ex_in_cluster).1 = Ret l /\ f ∈ l /\
    Runtime.sv_Name f = "Greeter" /\ Runtime.sv_Version f = "v1.0" /\ Runtime.sv_Source f = "src/greeter" /\
    forall key val, key ∉ reserved -> metadata_of greeter !! key = Some val -> metadata_of f !! key = Some val.
Proof.
  apply (@created_is_found toy toy_KClient toy_objects toy_laws (fun _ => Some "") order_id "now" greeter ex_create_options ex_runtime ([], [])
    ex_runtime (match ex_created.1 with Ret (_, s', _) => s' | _ => greeter end) ex_in_cluster order_rev (fun _ => "later") ex_read_options ex_in_cluster).
  - vm_compute. reflexivity.
  - apply (bool_decide_eq_true_1 _). vm_compute. reflexivity.
  - apply (bool_decide_eq_true_1 _). vm_compute. reflexivity.
  - split; intros x Hx; exists x; (split; [exact Hx|apply kept_refl]).
  - discriminate.
  - split; [reflexivity|]. split; [left; reflexivity|]. split; [right; reflexivity|reflexivity].
  - apply ex_complete.
  - apply ex_own_deployments.
  - intros e He. revert He. vm_compute. discriminate.
Defined.

Lemma update_hits_last_witness : exists l, collect order_id (fun _ => "now") [ex_service] [ex_deployment] [] = Ret l /\
  (Forall (fun f => f_deployed f = true) (l_services l) ->
   @Update noted (recorder [ex_service] [ex_deployment] [] None) order_id (fun _ => "now") "0" greeter [] [] =
     (Ret tt, concat (replicate (length (l_services l)) [("update", "deployment", m_Name ex_dmd); ("update", "service", m_Name ex_smd)]))).
Proof.
  apply (update_hits_last [ex_service] [ex_deployment] [] None order_id (fun _ => "now") "0" greeter [] ex_service ex_smd ex_deployment ex_dmd).
  - apply Forall_one, ex_service_wf.
  - apply Forall_one, ex_deployment_wf.
  - apply Forall_nil_2.
  - reflexivity.
  - vm_compute. reflexivity.
  - reflexivity.
  - vm_compute. reflexivity.
  - vm_compute. by eexists.
  - unfold template_wf. vm_compute. repeat eexists.
Defined.

(** The whole of a creation, in a namespace of its own. *)
Example ex_create :
  (@Create noted (recorder [] [] [] (Some [new_namespace "default"])) (fun _ => Some "") order_id "now" greeter
    [fun c => mkCreateOptions (co_Type c) (co_Image c) "prod/eu" (co_Command c) (co_Args c) (co_Env c)]
    (mkKubernetes "service" "" "" None) []).2 =
  [("create", "namespace", ""); ("create", "deployment", "greeter-v1-0"); ("create", "service", "greeter-v1-0")].
Proof. vm_compute. reflexivity. Qed.
