(* ===== verification/KubeLogs.v ===== *)
(** * Logs of the kubernetes runtime: [runtime/kubernetes/logs.go] and its streams

    Reading the logs of the pods of a service, and the goroutines that follow them, as a
    step relation. *)
From S2P Require Import Prelude GoStrings GoStrconv KubeClient.

(** ** Lines of a text: [bufio.Scanner] *)
Definition drop_cr (l : string) : string := if has_suffix l (String "013" "") then str_take (String.length l - 1) l else l.

(** A line that does not fit the buffer ends the scan. *)
Definition fits (l : string) : bool := (N.of_nat (String.length l) <? 65536)%N.

Fixpoint scan_lines (ls : list string) : list string :=
  match ls with
  | [] => []
  | [l] => if String.eqb l "" then [] else if fits l then [drop_cr l] else []
  | l :: ls => if fits l then drop_cr l :: scan_lines ls else []
  end.

Definition scan (body : string) : list string := scan_lines (split_char "010" body).

(** ** Reading *)
Record LogsOptions := mkLogsOptions { lo_Count : Z; lo_Stream : bool; lo_Namespace : string }.

Record klog := mkKlog { kl_options : LogsOptions; kl_serviceName : string }.

Definition newLog (serviceName : string) (opts : list (LogsOptions -> LogsOptions)) : klog :=
  mkKlog (apply_all opts (mkLogsOptions 0 false DefaultNamespace)) serviceName.

Section logs.
Context {W : Type} `{!KClient W}.

(** The names of the pods that have the label. *)
Fixpoint matching (name : string) (pods : list Pod) : outcome string (list string) :=
  match pods with
  | [] => Ret []
  | p :: pods =>
      match p_Metadata p with
      | None => Panic
      | Some m =>
          r <-! matching name pods;
          Ret (if String.eqb (default "" (m_Labels m !! "name")) name then m_Name m :: r else r)
      end
  end.

Definition getMatchingPods (k : klog) : M W (list string) :=
  let name := Format (kl_serviceName k) in
  pods <~ client_Get_pods [GetLabels {["name" := name]}; GetNamespace (lo_Namespace (kl_options k))];
  (fun w => (matching name pods, w)).

Definition log_params (o : LogsOptions) : gmap string string :=
  let p := if (lo_Count o =? 0)%Z then ∅ else {["tailLines" := fmt_Z (lo_Count o)]} in
  if lo_Stream o then <["follow" := "true"]> p else p.

Fixpoint read_pods (o : LogsOptions) (pods : list string) (records : list string) : M W (list string) :=
  match pods with
  | [] => ret records
  | pod :: pods =>
      body <~ client_Log (mkResource None pod "pod") [LogParams (log_params o); LogNamespace (lo_Namespace o)];
      read_pods o pods (records ++ scan body)
  end.

Definition Read (k : klog) : M W (list string) :=
  pods <~ getMatchingPods k;
  read_pods (kl_options k) pods [].

(** What follows the log of a pod, or the error of opening it. *)
Definition open_pod (k : klog) (pod : string) : M W (string + string) :=
  try (client_Log (mkResource None pod "pod") [LogParams {["follow" := "true"]}; LogNamespace (lo_Namespace (kl_options k))]).

(** ** Streams

    One goroutine for each pod, and one for the records that were there before, which does
    not look whether the stream was stopped. All send on one channel, which [Stop] closes
    after the one that says so. A goroutine that cannot open the log of its pod stops the
    stream. *)
Inductive phase := Opening (body : string + string) | Looking | Sending (l : string) | Failing | Ended.

Record pump := mkPump { pu_phase : phase; pu_lines : list string; pu_looks : bool }.

Record kubeStream := mkStream {
  ks_pumps : list pump;
  ks_received : list (nat * string);
  ks_stop : bool;
  ks_closed : bool;
  ks_err : option string;
  ks_panicked : bool }.

(** The stream of a service, from what opening the logs of its pods gives. *)
Definition pod_pump (body : string + string) : pump := mkPump (Opening body) [] true.
Definition record_pump (records : list string) : pump := mkPump Looking records false.

Definition new_stream (bodies : list (string + string)) (records : list (list string)) : kubeStream :=
  mkStream (map pod_pump bodies ++ map record_pump records) [] false false None false.

(** The pods are opened by their goroutines: what each finds is an argument. *)
Definition Stream (opened : string -> string + string) (k : klog) : M W kubeStream :=
  pods <~ getMatchingPods k;
  ret (new_stream (map opened pods) []).

(** [Logs]: when a number of records is asked for they are read and sent by a goroutine of
    their own; what it reads, if anything, is an argument. *)
Definition Logs (opened : string -> string + string) (existing : option (list string)) (serviceName : string)
    (opts : list (LogsOptions -> LogsOptions)) : M W kubeStream :=
  let k := newLog serviceName opts in
  pods <~ getMatchingPods k;
  ret (new_stream (map opened pods)
         (if (0 <? lo_Count (kl_options k))%Z then match existing with Some records => [records] | None => [] end else [])).
End logs.

Definition set_pump (i : nat) (p : pump) (s : kubeStream) : kubeStream :=
  mkStream (<[i := p]> (ks_pumps s)) (ks_received s) (ks_stop s) (ks_closed s) (ks_err s) (ks_panicked s).

(** [Stop] closes two channels, once: the one that says so, then the one of the lines. *)
Definition stop_begin (s : kubeStream) : kubeStream :=
  mkStream (ks_pumps s) (ks_received s) true (ks_closed s) (ks_err s) (ks_panicked s).
Definition stop_end (s : kubeStream) : kubeStream :=
  mkStream (ks_pumps s) (ks_received s) (ks_stop s) true (ks_err s) (ks_panicked s).

Definition set_err (e : string) (s : kubeStream) : kubeStream :=
  mkStream (ks_pumps s) (ks_received s) (ks_stop s) (ks_closed s) (Some e) (ks_panicked s).

Definition receive (i : nat) (l : string) (s : kubeStream) : kubeStream :=
  mkStream (ks_pumps s) (ks_received s ++ [(i, l)]) (ks_stop s) (ks_closed s) (ks_err s) (ks_panicked s).

Definition panic (s : kubeStream) : kubeStream :=
  mkStream (ks_pumps s) (ks_received s) (ks_stop s) (ks_closed s) (ks_err s) true.

(** [reader_stops] is anyone else who calls [Stop]. *)
Inductive stream_step (s : kubeStream) : kubeStream -> Prop :=
| pod_opened i body ls b : ks_panicked s = false -> ks_pumps s !! i = Some (mkPump (Opening (inr body)) ls b) ->
    stream_step s (set_pump i (mkPump Looking (scan body) b) s)
| pod_fails i e ls b : ks_panicked s = false -> ks_pumps s !! i = Some (mkPump (Opening (inl e)) ls b) ->
    stream_step s (set_pump i (mkPump Failing [] b) (set_err e s))
| pod_stops i b : ks_panicked s = false -> ks_pumps s !! i = Some (mkPump Failing [] b) ->
    stream_step s (set_pump i (mkPump Ended [] b) (stop_begin s))
| pump_ends i ls : ks_panicked s = false -> ks_pumps s !! i = Some (mkPump Looking ls true) -> ks_stop s = true ->
    stream_step s (set_pump i (mkPump Ended ls true) s)
| pump_scans i l ls : ks_panicked s = false -> ks_pumps s !! i = Some (mkPump Looking (l :: ls) true) -> ks_stop s = false ->
    stream_step s (set_pump i (mkPump (Sending l) ls true) s)
| record_next i l ls : ks_panicked s = false -> ks_pumps s !! i = Some (mkPump Looking (l :: ls) false) ->
    stream_step s (set_pump i (mkPump (Sending l) ls false) s)
| record_done i : ks_panicked s = false -> ks_pumps s !! i = Some (mkPump Looking [] false) ->
    stream_step s (set_pump i (mkPump Ended [] false) s)
| pump_sends i l ls b : ks_panicked s = false -> ks_pumps s !! i = Some (mkPump (Sending l) ls b) -> ks_closed s = false ->
    stream_step s (set_pump i (mkPump Looking ls b) (receive i l s))
| pump_panics i l ls b : ks_panicked s = false -> ks_pumps s !! i = Some (mkPump (Sending l) ls b) -> ks_closed s = true ->
    stream_step s (panic s)
| reader_stops : ks_panicked s = false -> stream_step s (stop_begin s)
| stop_closes : ks_panicked s = false -> ks_stop s = true -> stream_step s (stop_end s).

Inductive stream_reach (s0 : kubeStream) : kubeStream -> Prop :=
| stream_start : stream_reach s0 s0
| stream_next s s' : stream_reach s0 s -> stream_step s s' -> stream_reach s0 s'.

(** ** What a reader of the stream gets *)
(** The lines a goroutine still has to send. *)
Definition pending (p : pump) : list string :=
  match pu_phase p with
  | Opening (inr body) => scan body
  | Opening (inl _) | Failing => []
  | Looking | Ended => pu_lines p
  | Sending l => l :: pu_lines p
  end.

Definition received_from (i : nat) (s : kubeStream) : list string := map snd (filter (fun x => x.1 = i) (ks_received s)).

Definition kept (i : nat) (s s' : kubeStream) : Prop :=
  forall p, ks_pumps s !! i = Some p -> exists p', ks_pumps s' !! i = Some p' /\
    received_from i s ++ pending p = received_from i s' ++ pending p'.

Lemma kept_set i j p p' (s s' : kubeStream) : ks_pumps s !! j = Some p -> pending p = pending p' ->
  ks_pumps s' = ks_pumps s -> ks_received s' = ks_received s -> kept i s (set_pump j p' s').
Proof.
  intros Hj Hp Hps Hr q Hq. unfold received_from. cbn. rewrite Hr, Hps. destruct (decide (i = j)) as [->|Hne].
  - exists p'. rewrite list_lookup_insert_eq by by eapply lookup_lt_Some. split; [done|]. congruence.
  - exists q. by rewrite list_lookup_insert_ne.
Qed.

Lemma stream_step_kept i s s' : stream_step s s' -> kept i s s'.
Proof.
  intros Hs. destruct Hs as [j body ls b _ Hj|j e ls b _ Hj|j b _ Hj|j ls _ Hj _|j l ls _ Hj _|j l ls _ Hj|j _ Hj|j l ls b _ Hj _
    |j l ls b _ Hj _|_|_ _].
  1-7: by eapply kept_set.
  - intros q Hq. cbn. destruct (decide (i = j)) as [->|Hne].
    + exists (mkPump Looking ls b). rewrite list_lookup_insert_eq by by eapply lookup_lt_Some. split; [done|].
      rewrite Hq in Hj. injection Hj as ->. unfold received_from. cbn. rewrite filter_app, map_app, <- app_assoc.
      by rewrite (filter_cons_True _ (j, l)).
    + exists q. rewrite list_lookup_insert_ne by done. split; [done|]. unfold received_from. cbn.
      rewrite filter_app, (filter_cons_False _ (j, l)) by (cbn; congruence). by rewrite app_nil_r.
  - intros q Hq. by exists q.
  - intros q Hq. by exists q.
  - intros q Hq. by exists q.
Qed.

Lemma stream_reach_kept s0 s i p0 : stream_reach s0 s -> ks_received s0 = [] -> ks_pumps s0 !! i = Some p0 ->
  exists p, ks_pumps s !! i = Some p /\ pending p0 = received_from i s ++ pending p.
Proof.
  intros Hr H0 Hi. induction Hr as [|s s' _ (p & Hp & Heq) Hs].
  - exists p0. split; [done|]. unfold received_from. by rewrite H0.
  - destruct (stream_step_kept i s s' Hs p Hp) as (p' & Hp' & Heq'). exists p'. split; [done|]. by rewrite Heq.
Qed.

(** Every line is received from one of the goroutines. *)
Lemma received_known s0 s : stream_reach s0 s -> ks_received s0 = [] ->
  length (ks_pumps s) = length (ks_pumps s0) /\ Forall (fun x => x.1 < length (ks_pumps s0)) (ks_received s).
Proof.
  intros Hr H0. induction Hr as [|s s' _ [IH1 IH2] Hs]; [by rewrite H0|].
  assert (length (ks_pumps s') = length (ks_pumps s)) as Hl by (destruct Hs; cbn; by rewrite ?length_insert). split; [congruence|].
  destruct Hs as [| | | | | | |j l ls b _ Hj _| | |]; cbn; try done. apply Forall_app_2; [done|]. apply Forall_singleton. cbn.
  rewrite <- IH1. by eapply lookup_lt_Some.
Qed.

(** What the log of a pod has, if it can be opened. *)
Definition pod_lines (body : string + string) : list string := match body with inr b => scan b | inl _ => [] end.

(** C26: what the reader of a stream gets from its goroutines, under every interleaving of
    these, of the reader and of who stops the stream. The lines received from the goroutine
    of a pod are the first lines of the log of the pod, in their order and none twice; those
    received from the goroutine of the records, which there is when a number of records was
    asked for, are the first of the records, likewise; and there are no others. So without
    records, no line of a pod comes twice or out of order. The records are lines of the same
    logs, and come in any order with those of the pods: with them, lines come twice. *)
Theorem logs_in_order bodies records s : stream_reach (new_stream bodies records) s ->
  (forall i body, bodies !! i = Some body -> received_from i s `prefix_of` pod_lines body) /\
  (forall j rs, records !! j = Some rs -> received_from (length bodies + j) s `prefix_of` rs) /\
  Forall (fun x => x.1 < length bodies + length records) (ks_received s).
Proof.
  intros Hr. split_and!.
  - intros i body Hi.
    destruct (stream_reach_kept _ _ i (pod_pump body) Hr eq_refl) as (p & _ & Heq).
    { cbn. rewrite lookup_app_l by (rewrite length_map; by eapply lookup_lt_Some). by rewrite list_lookup_fmap, Hi. }
    exists (pending p). rewrite <- Heq. by destruct body.
  - intros j rs Hj.
    destruct (stream_reach_kept _ _ (length bodies + j) (record_pump rs) Hr eq_refl) as (p & _ & Heq).
    { cbn. rewrite lookup_app_r by (rewrite length_map; lia). rewrite length_map.
      replace (length bodies + j - length bodies) with j by lia. by rewrite list_lookup_fmap, Hj. }
    exists (pending p). by rewrite <- Heq.
  - destruct (received_known _ _ Hr eq_refl) as [_ Hall]. cbn in Hall. by rewrite length_app, !length_map in Hall.
Qed.

(** The channel of the lines is closed only after the stream was stopped, and nothing panics
    before. *)
Theorem panic_after_stop s0 s : stream_reach s0 s -> ks_panicked s0 = false -> ks_closed s0 = false ->
  (ks_closed s = true -> ks_stop s = true) /\ (ks_panicked s = true -> ks_closed s = true).
Proof.
  intros Hr H0 H1. induction Hr as [|s s' _ IH Hs]; [split; congruence|]. destruct Hs; cbn; naive_solver congruence.
Qed.

(** A goroutine that has a line in hand when the stream has been stopped never gets rid of it:
    the one thing it can do is to panic, whoever receives. *)
Theorem stop_traps_sender s s' i l ls b : ks_closed s = true -> ks_pumps s !! i = Some (mkPump (Sending l) ls b) -> stream_reach s s' ->
  ks_pumps s' !! i = Some (mkPump (Sending l) ls b) /\
  (ks_panicked s' = false -> stream_step s' (panic s')).
Proof.
  intros Hs Hi Hr. assert (ks_closed s' = true /\ ks_pumps s' !! i = Some (mkPump (Sending l) ls b)) as [Hs' Hi'].
  { induction Hr as [|s1 s2 _ [IH1 IH2] Hst]; [done|].
    destruct Hst as [j ? ? ? _ Hj|j ? ? ? _ Hj|j ? _ Hj|j ? _ Hj _|j ? ? _ Hj _|j ? ? _ Hj|j _ Hj|j ? ? ? _ Hj ?|j ? ? ? _ Hj _|_|_ _];
      cbn; try done;
      try (split; [done|]; destruct (decide (i = j)) as [->|Hne]; [congruence|by rewrite list_lookup_insert_ne]). }
  split; [done|]. intros Hp. by eapply pump_panics.
Qed.

(** ** Examples and witnesses *)
Definition ex_nl : string := String "010" "".

Example ex_scan : scan ("a" +:+ String "013" ex_nl +:+ "b" +:+ ex_nl) = ["a"; "b"].
Proof. reflexivity. Qed.

(** A log that fails to open stops the stream of the pods that did not. *)
Definition ex_stream : kubeStream := new_stream [inr ("a" +:+ ex_nl); inl "no such pod"] [].

Lemma ex_one_failure : exists s, stream_reach ex_stream s /\ ks_panicked s = true.
Proof.
  eexists. split; [|shelve].
  eapply stream_next; [eapply stream_next; [eapply stream_next; [eapply stream_next; [eapply stream_next; [eapply stream_next;
    [apply stream_start|]|]|]|]|]|].
  - by eapply (pod_opened _ 0).
  - by eapply (pump_scans _ 0).
  - by eapply (pod_fails _ 1).
  - by eapply (pod_stops _ 1).
  - by eapply stop_closes.
  - by eapply (pump_panics _ 0).
  Unshelve. reflexivity.
Qed.

(** One pod with a line in its log, and the records asked for: the reader gets it twice. *)
Definition ex_counted : kubeStream := new_stream [inr ("a" +:+ ex_nl)] [["a"]].

Example lines_twice : exists s, stream_reach ex_counted s /\ map snd (ks_received s) = ["a"; "a"].
Proof.
  eexists. split; [|shelve].
  eapply stream_next; [eapply stream_next; [eapply stream_next; [eapply stream_next; [eapply stream_next;
    [apply stream_start|]|]|]|]|].
  - by eapply (pod_opened _ 0).
  - by eapply (record_next _ 1).
  - by eapply (pump_sends _ 1).
  - by eapply (pump_scans _ 0).
  - by eapply (pump_sends _ 0).
  Unshelve. reflexivity.
Qed.

Definition ex_after : kubeStream := set_pump 0 (mkPump Looking ["a"] true) ex_stream.

Lemma logs_in_order_witness : received_from 0 ex_after `prefix_of` pod_lines (inr ("a" +:+ ex_nl)).
Proof.
  apply (logs_in_order [inr ("a" +:+ ex_nl); inl "no such pod"] [] ex_after); [|reflexivity].
  eapply stream_next; [apply stream_start|]. exact (pod_opened ex_stream 0 ("a" +:+ ex_nl) [] true eq_refl eq_refl).
Defined.
