(* ===== verification/SyncStore.v ===== *)
(** * Stores in layers: [util/sync/sync.go], [manager.go], [options.go]

    A store over a list of stores, whose first is read and written and whose queues are
    meant to carry what was written to the others. *)
From S2P Require Import Prelude.

(** ** The stores *)
Record record := mkRecord { rc_Key : string; rc_Value : string; rc_Expiry : Z }.

(** What is asked of a store; the options of a call are of any type. *)
Class Store (St Opt : Type) := {
  store_Init : St -> option string * St;
  store_Read : string -> list Opt -> St -> (string + list record) * St;
  store_Write : record -> list Opt -> St -> option string * St;
  store_Delete : string -> list Opt -> St -> option string * St;
  store_List : list Opt -> St -> (string + list string) * St }.

(** ** Powers *)
(** The loop of [intpow]; it has a bound, since a negative exponent never becomes zero. *)
Fixpoint intpow_loop (fuel : nat) (result x y : Z) : option Z :=
  if (y =? 0)%Z then Some result
  else
    match fuel with
    | O => None
    | S fuel =>
        let result := if Z.odd y then wrap64 (result * x) else result in
        intpow_loop fuel result (wrap64 (x * x)) (Z.shiftr y 1)
    end.

Definition intpow (x y : Z) : option Z := intpow_loop 64 1 x y.

Section sync.
Context {St Opt : Type} `{!Store St Opt}.

(** ** Options and state *)
Record Options := mkOptions { o_Stores : list St; o_SyncInterval : Z; o_SyncMultiplier : Z }.

Definition Stores (stores : list St) (o : Options) : Options := mkOptions stores (o_SyncInterval o) (o_SyncMultiplier o).
Definition SyncInterval (d : Z) (o : Options) : Options := mkOptions (o_Stores o) d (o_SyncMultiplier o).
Definition SyncMultiplier (i : Z) (o : Options) : Options := mkOptions (o_Stores o) (o_SyncInterval o) i.

Record internalRecord := mkInternal { ir_expiresAt : Z; ir_key : string; ir_value : string }.

(** The store: its options, whether it was given a context, its queues and the intervals of
    their tickers. *)
Record syncStore := mkSync { c_Opts : Options; c_Context : bool; c_pendingWrites : list (list internalRecord); c_tickers : list Z }.

Definition minute : Z := 60000000000.

Definition NewSync (opts : list (Options -> Options)) : syncStore :=
  let o := foldl (fun o f => f o) (mkOptions [] 0 0) opts in
  let o := if (o_SyncInterval o =? 0)%Z then SyncInterval minute o else o in
  let o := if (o_SyncMultiplier o =? 0)%Z then SyncMultiplier 5 o else o in
  mkSync o false [] [].

Definition with_stores (l : list St) (c : syncStore) : syncStore :=
  mkSync (Stores l (c_Opts c)) (c_Context c) (c_pendingWrites c) (c_tickers c).

(** The stores are initialised in their order, up to one that fails. *)
Fixpoint init_stores (l : list St) : option string * list St :=
  match l with
  | [] => (None, [])
  | s :: l =>
      match store_Init s with
      | (Some e, s) => (Some e, s :: l)
      | (None, s) => let (e, l) := init_stores l in (e, s :: l)
      end
  end.

(** The interval of a ticker, which must be positive. *)
Definition ticker (o : Options) (i : nat) : outcome string Z :=
  match intpow (o_SyncMultiplier o) (Z.of_nat i) with
  | None => Panic
  | Some p => let d := wrap64 (o_SyncInterval o * p) in if (d <=? 0)%Z then Panic else Ret d
  end.

Fixpoint tickers (o : Options) (l : list nat) : outcome string (list Z) :=
  match l with
  | [] => Ret []
  | i :: l => d <-! ticker o i; ds <-! tickers o l; Ret (d :: ds)
  end.

(** [Init], with whether its options have a context; the error and what is kept. *)
Definition Init (context : bool) (c : syncStore) : outcome string (option string * syncStore) :=
  let c := mkSync (c_Opts c) (c_Context c || context) (c_pendingWrites c) (c_tickers c) in
  match o_Stores (c_Opts c) with
  | [] => Ret (Some "the sync has no stores", c)
  | stores =>
      if negb (c_Context c) then Ret (Some "please provide a context to the sync", c)
      else
        match init_stores stores with
        | (Some e, l) => Ret (Some e, with_stores l c)
        | (None, l) =>
            let n := length stores - 1 in
            ds <-! tickers (c_Opts c) (seq 0 n);
            Ret (None, mkSync (Stores l (c_Opts c)) (c_Context c) (replicate n []) ds)
        end
  end.

(** ** Reading and writing: the first store *)
Definition on_first {A} (f : St -> A * St) (c : syncStore) : outcome string (A * syncStore) :=
  match o_Stores (c_Opts c) with
  | [] => Panic
  | s :: l => let (a, s) := f s in Ret (a, with_stores (s :: l) c)
  end.

Definition Read (k : string) (os : list Opt) := on_first (store_Read k os).
Definition Write (r : record) (os : list Opt) := on_first (store_Write r os).
Definition Delete (k : string) (os : list Opt) := on_first (store_Delete k os).
Definition List_ (os : list Opt) := on_first (store_List os).

(** ** The queues *)
Definition expired (now : Z) (ir : internalRecord) : bool := negb (time_IsZero (ir_expiresAt ir)) && (ir_expiresAt ir <? now)%Z.

Definition new_record (now : Z) (ir : internalRecord) : record :=
  mkRecord (ir_key ir) (ir_value ir) (if time_IsZero (ir_expiresAt ir) then 0 else time_Sub (ir_expiresAt ir) now).

(** The loop over a queue: its counter goes up while the length goes down. A record that
    can not be written goes to the end of the queue, and the loop ends. *)
Fixpoint process_loop (fuel i : nat) (now : Z) (q : list internalRecord) (s : St) : list internalRecord * St :=
  match fuel with
  | O => (q, s)
  | S fuel =>
      if negb (i <? length q) then (q, s)
      else
        match q with
        | [] => (q, s)
        | ir :: q =>
            if expired now ir then process_loop fuel (S i) now q s
            else
              match store_Write (new_record now ir) [] s with
              | (Some _, s) => (q ++ [ir], s)
              | (None, s) => process_loop fuel (S i) now q s
              end
        end
  end.

(** [processQueue]: the queue of an index goes to the store after it. *)
Definition processQueue (now : Z) (index : nat) (c : syncStore) : outcome string syncStore :=
  match c_pendingWrites c !! index with
  | None => Panic
  | Some q =>
      match q, o_Stores (c_Opts c) !! S index with
      | [], _ => Ret c
      | _, None => Panic
      | _, Some s =>
          let (q', s') := process_loop (length q) 0 now q s in
          Ret (mkSync (Stores (<[S index := s']> (o_Stores (c_Opts c))) (c_Opts c)) (c_Context c)
                 (<[index := q']> (c_pendingWrites c)) (c_tickers c))
      end
  end.

(** What happens to a store that was initialised: calls, and ticks of its manager. *)
Inductive sync_step (c : syncStore) : syncStore -> Prop :=
| sync_read k os r c' : Read k os c = Ret (r, c') -> sync_step c c'
| sync_write rc os e c' : Write rc os c = Ret (e, c') -> sync_step c c'
| sync_delete k os e c' : Delete k os c = Ret (e, c') -> sync_step c c'
| sync_list os r c' : List_ os c = Ret (r, c') -> sync_step c c'
| sync_tick now i c' : processQueue now i c = Ret c' -> sync_step c c'.

Inductive sync_reach (c0 : syncStore) : syncStore -> Prop :=
| sync_start : sync_reach c0 c0
| sync_next c c' : sync_reach c0 c -> sync_step c c' -> sync_reach c0 c'.

(** ** What is carried to the other stores *)
Lemma on_first_rest {A} (f : St -> A * St) c a c' : on_first f c = Ret (a, c') ->
  tail (o_Stores (c_Opts c')) = tail (o_Stores (c_Opts c)) /\ c_pendingWrites c' = c_pendingWrites c.
Proof.
  unfold on_first. destruct (o_Stores (c_Opts c)) as [|s l]; [done|]. destruct (f s) as [x s']. by intros [= _ <-].
Qed.

(** Nothing is ever put into the queues: whatever is written after the initialisation, only
    the first store changes. *)
Theorem sync_never_carries context c c0 c' : Init context c = Ret (None, c0) -> sync_reach c0 c' ->
  tail (o_Stores (c_Opts c')) = tail (o_Stores (c_Opts c0)) /\ Forall (fun q => q = []) (c_pendingWrites c').
Proof.
  intros Hi Hr. induction Hr as [|c1 c2 _ [IH1 IH2] Hs].
  - split; [done|]. revert Hi. unfold Init. cbn [c_Opts c_Context]. destruct (o_Stores (c_Opts c)) as [|s l]; [done|].
    destruct (negb (c_Context c || context)); [done|]. destruct (init_stores (s :: l)) as [[e|] l']; [done|].
    destruct (tickers (c_Opts c) (seq 0 (length (s :: l) - 1))) as [ds| |]; [|done..]. cbn [outcome_bind].
    intros [= <-]. cbn [c_pendingWrites]. by apply Forall_replicate.
  - rewrite <- IH1. destruct Hs as [k os r c2 H|rc os e c2 H|k os e c2 H|os r c2 H|now i c2 H].
    1-4: by destruct (on_first_rest _ _ _ _ H) as [-> ->].
    unfold processQueue in H. destruct (c_pendingWrites c1 !! i) as [q|] eqn:Hq; [|done].
    pose proof (Forall_lookup_1 _ _ _ _ IH2 Hq) as Hq0. cbn in Hq0. subst q. by injection H as <-.
Qed.

(** ** How much of a queue is carried *)
(** A queue whose records are neither expired nor refused is carried by half: the loop ends
    when its counter meets the length that is left. *)
Fixpoint write_all (now : Z) (l : list internalRecord) (s : St) : St :=
  match l with [] => s | ir :: l => write_all now l (store_Write (new_record now ir) [] s).2 end.

Lemma process_loop_half fuel i now q s : (forall r s, (store_Write r [] s).1 = None) ->
  Forall (fun ir => expired now ir = false) q -> length q <= fuel ->
  let n := (length q + 1 - i) / 2 in
  process_loop fuel i now q s = (drop n q, write_all now (take n q) s).
Proof.
  intros Hw Hq. revert i q s Hq. induction fuel as [|fuel IH]; intros i q s Hq Hl.
  - destruct q; [|cbn in Hl; lia]. cbn. by rewrite take_nil, drop_nil.
  - cbn [process_loop]. cbn zeta. destruct (Nat.ltb_spec i (length q)) as [Hi|Hi]; cbn [negb].
    + destruct q as [|ir q]; [cbn in Hi; lia|]. apply Forall_cons in Hq as [Hir Hq]. rewrite Hir.
      destruct (store_Write (new_record now ir) [] s) as [e s'] eqn:Hs. pose proof (Hw (new_record now ir) s) as He. rewrite Hs in He. cbn in He. subst e.
      cbn [length] in *. rewrite IH by (done || lia). 
      assert ((S (length q) + 1 - i) / 2 = S ((length q + 1 - S i) / 2)) as ->.
      { replace (S (length q) + 1 - i) with ((length q + 1 - S i) + 1 * 2) by lia. rewrite Nat.div_add by lia. lia. }
      cbn [drop take write_all]. by rewrite Hs.
    + assert ((length q + 1 - i) / 2 = 0) as -> by (apply Nat.div_small; lia). by rewrite drop_0, take_0.
Qed.

Theorem processQueue_half now i c q s : c_pendingWrites c !! i = Some q -> o_Stores (c_Opts c) !! S i = Some s ->
  (forall r s, (store_Write r [] s).1 = None) -> Forall (fun ir => expired now ir = false) q -> q <> [] ->
  exists c', processQueue now i c = Ret c' /\ c_pendingWrites c' !! i = Some (drop ((length q + 1) / 2) q) /\
    o_Stores (c_Opts c') !! S i = Some (write_all now (take ((length q + 1) / 2) q) s).
Proof.
  intros Hq Hs Hw He Hne. unfold processQueue. rewrite Hq, Hs. destruct q as [|ir q]; [done|].
  rewrite process_loop_half by done. eexists. split; [reflexivity|]. cbn [c_pendingWrites c_Opts Stores o_Stores]. rewrite Nat.sub_0_r.
  rewrite !list_lookup_insert_eq by by eapply lookup_lt_Some. done.
Qed.
End sync.

(** ** Powers *)
Lemma wrap64_mod z : (wrap64 z mod 2 ^ 64 = z mod 2 ^ 64)%Z.
Proof.
  unfold wrap64. pose proof (Z.mod_pos_bound z (2 ^ 64) ltac:(lia)). case_match; [by rewrite Z.mod_mod|].
  rewrite <- (Z.mod_add (z mod 2 ^ 64 - 2 ^ 64) 1 (2 ^ 64)) by lia. replace (z mod 2 ^ 64 - 2 ^ 64 + 1 * 2 ^ 64)%Z with (z mod 2 ^ 64)%Z by lia.
  by rewrite Z.mod_mod.
Qed.

Lemma wrap64_eq a b : (a mod 2 ^ 64 = b mod 2 ^ 64)%Z -> wrap64 a = wrap64 b.
Proof. intros He. unfold wrap64. by rewrite He. Qed.

Lemma wrap64_mul_l a b : wrap64 (wrap64 a * b) = wrap64 (a * b).
Proof. apply wrap64_eq. by rewrite Z.mul_mod, wrap64_mod, <- Z.mul_mod. Qed.

Lemma wrap64_mul_r a b : wrap64 (a * wrap64 b) = wrap64 (a * b).
Proof. by rewrite Z.mul_comm, wrap64_mul_l, Z.mul_comm. Qed.

Lemma wrap64_pow a n : (0 <= n)%Z -> (wrap64 a ^ n mod 2 ^ 64 = a ^ n mod 2 ^ 64)%Z.
Proof.
  intros Hn. revert n Hn. apply natlike_ind; [done|]. intros n Hn IH. rewrite !Z.pow_succ_r by done.
  by rewrite Z.mul_mod, IH, wrap64_mod, <- Z.mul_mod.
Qed.

Lemma intpow_loop_spec fuel : forall result x y, (0 <= y < 2 ^ Z.of_nat fuel)%Z -> wrap64 result = result ->
  intpow_loop fuel result x y = Some (wrap64 (result * x ^ y)).
Proof.
  induction fuel as [|fuel IH]; intros result x y Hy Hr.
  - assert (y = 0%Z) as -> by (cbn in Hy; lia). cbn. by rewrite Z.mul_1_r, Hr.
  - cbn [intpow_loop]. destruct (Z.eqb_spec y 0) as [->|Hne]; [by rewrite Z.pow_0_r, Z.mul_1_r, Hr|].
    rewrite Z.shiftr_div_pow2 by lia. change (2 ^ 1)%Z with 2%Z.
    assert (0 <= y / 2 < 2 ^ Z.of_nat fuel)%Z as Hy2.
    { split; [apply Z.div_pos; lia|]. apply Z.div_lt_upper_bound; [lia|]. rewrite <- Z.pow_succ_r, <- Nat2Z.inj_succ by lia. apply Hy. }
    assert (wrap64 (wrap64 (x * x) ^ (y / 2)) = wrap64 ((x * x) ^ (y / 2))) as Hpow by (apply wrap64_eq, wrap64_pow; lia).
    assert (forall z, wrap64 (wrap64 z) = wrap64 z) as Hww by (intros z; apply wrap64_eq, wrap64_mod).
    rewrite IH; [|done|by destruct (Z.odd y)]. f_equal. rewrite <- wrap64_mul_r, Hpow, wrap64_mul_r.
    assert ((x * x) ^ (y / 2) = x ^ (2 * (y / 2)))%Z as ->.
    { rewrite <- Z.pow_2_r, <- Z.pow_mul_r by lia. done. }
    pose proof (Z.div_mod y 2 ltac:(lia)) as Hdm. rewrite Zmod_odd in Hdm. destruct (Z.odd y).
    + rewrite wrap64_mul_l. f_equal. replace y with (1 + 2 * (y / 2))%Z at 2 by lia. rewrite Z.pow_add_r, Z.pow_1_r by lia. lia.
    + f_equal. f_equal. f_equal. lia.
Qed.

(** Raising to a power by squaring gives the power, in 64 bits, for every exponent that is
    not negative, in no more than 64 rounds. *)
Theorem intpow_spec x y : (0 <= y <= int_max)%Z -> intpow x y = Some (wrap64 (x ^ y)).
Proof.
  intros Hy. unfold intpow. rewrite intpow_loop_spec; [by rewrite Z.mul_1_l| |done].
  unfold int_max in Hy. split; [lia|]. apply (Z.le_lt_trans _ (2 ^ 63 - 1)); [lia|]. vm_compute. reflexivity.
Qed.

(** A negative exponent never becomes zero, however long the loop runs. *)
Theorem intpow_negative fuel result x y : (y < 0)%Z -> intpow_loop fuel result x y = None.
Proof.
  revert result x y. induction fuel as [|fuel IH]; intros result x y Hy; cbn [intpow_loop]; destruct (Z.eqb_spec y 0); try lia; [done|].
  apply IH. rewrite Z.shiftr_div_pow2 by lia. change (2 ^ 1)%Z with 2%Z. apply Z.div_lt_upper_bound; lia.
Qed.

(** ** Examples *)
(** A store that keeps what is written to it. *)
#[local] Instance kept_Store : Store (list record) unit := {|
  store_Init s := (None, s); store_Read _ _ s := (inr s, s); store_Write r _ s := (None, s ++ [r]);
  store_Delete _ _ s := (None, s); store_List _ s := (inr (map rc_Key s), s) |}.

Definition queued (k : string) : internalRecord := mkInternal 0 k "".

Example ex_half :
  process_loop (St := list record) (Opt := unit) 3 0 0 [queued "a"; queued "b"; queued "c"] [] =
    ([queued "c"], [mkRecord "a" "" 0; mkRecord "b" "" 0]).
Proof. vm_compute. reflexivity. Qed.

Definition ex_sync : syncStore := NewSync [Stores ([[]; []; []] : list (list record))].

(** A second layer gets what the first has every minute, a third every five. *)
Example ex_Init : (fun r => c_tickers r.2) <$> match Init (Opt := unit) true ex_sync with Ret r => Some r | _ => None end = Some [minute; 5 * minute]%Z.
Proof. vm_compute. reflexivity. Qed.

(** Thirteen layers more and the interval of the last overflows. *)
Example ex_overflow : Init (Opt := unit) true (NewSync [Stores (replicate 15 ([] : list record))]) = Panic.
Proof. vm_compute. reflexivity. Qed.
