(* ===== verification/ConfigSources.v ===== *)
(** * Sources of flags and typed values: [config/source/flag], [config/source/cli],
    [config/reader/json/values.go]

    The flags of the command line as a tree of values, and the values of a configuration
    as the types they are asked for. The flags of the libraries, mergo and simplejson are
    arguments. *)
From S2P Require Import Prelude GoStrings GoStrconv.
From S2P Require Config ConfigLoader.

(** ** Entries *)
(** A map with one key, nested, or the empty map of a name without keys. *)
Inductive tree (V : Type) := Nothing | Leaf (k : string) (v : V) | Under (k : string) (t : tree V).
Arguments Nothing {V}.
Arguments Leaf {V} k v.
Arguments Under {V} k t.

Definition split (a : ascii) : bool := Ascii.eqb a "-" || Ascii.eqb a "_".

(** [strings.FieldsFunc]: the parts between the separators that are not empty. *)
Fixpoint split_where (f : ascii -> bool) (s : string) : list string :=
  match s with
  | "" => [""]
  | String a s =>
      if f a then "" :: split_where f s
      else match split_where f s with [] => [String a ""] | w :: ws => String a w :: ws end
  end.

Definition fields (s : string) : list string := filter (fun w => w <> "") (split_where split s).

Definition reverse (ss : list string) : list string := Config.reverse ss.

Definition nest_keys {V} (keys : list string) (v : V) : tree V :=
  match keys with
  | [] => Nothing
  | k :: keys => foldl (fun tmp k => Under k tmp) (Leaf k v) keys
  end.

Definition toEntry {V} (name : string) (v : V) : tree V := nest_keys (reverse (fields (to_lower name))) v.

Section sources.
Context {V C : Type} (nil_changes : C).
(** [mergo.Map] as the one source uses it, which looks at no error, and the other, which
    overrides what is there. *)
Context (mergo_Map : C -> tree V -> C) (mergo_Map_override : C -> tree V -> string + C).
Context (Encode : C -> string + string) (encoder : string) (Sum : string -> string).

(** A flag with its value, and whether it was set. The library visits flags by their names. *)
Record Flag := mkFlag { f_Name : string; f_Value : V; f_set : bool }.

Definition flag_Read (parsed unset : bool) (flags : list Flag) : outcome string ConfigLoader.ChangeSet :=
  if negb parsed then Fail "flags not parsed"
  else
    let visited := if unset then flags else filter (fun f => f_set f = true) flags in
    let changes := foldl (fun c f => mergo_Map c (toEntry (f_Name f) (f_Value f))) nil_changes visited in
    match Encode changes with
    | inl e => Fail e
    | inr b => Ret (ConfigLoader.mkChangeSet b (Sum b) encoder "flag")
    end.

(** The names of each flag of the program, the first of which is read. *)
Fixpoint cli_changes (value : string -> V) (flags : list (list string)) (changes : C) : outcome string C :=
  match flags with
  | [] => Ret changes
  | [] :: _ => Panic
  | (name :: _) :: flags =>
      match mergo_Map_override changes (toEntry name (value name)) with
      | inl e => Fail e
      | inr changes => cli_changes value flags changes
      end
  end.

Definition cli_Read (value : string -> V) (flags : list (list string)) : outcome string ConfigLoader.ChangeSet :=
  changes <-! cli_changes value flags nil_changes;
  match Encode changes with
  | inl e => Fail e
  | inr b => Ret (ConfigLoader.mkChangeSet b (Sum b) encoder "cli")
  end.
End sources.

(** ** Flags with several names *)
Section normalize.
(** A set of flags: the values of those that are defined, and which of them are slices. *)
Context {V : Type} (is_slice : V -> bool).

(** [strings.Trim] of spaces. *)
Fixpoint trim_left (s : string) : string := match s with String " " r => trim_left r | _ => s end.
Fixpoint trim_right (s : string) : string :=
  match s with
  | "" => ""
  | String a r => let r := trim_right r in if Ascii.eqb a " " && String.eqb r "" then "" else String a r
  end.
Definition trim (s : string) : string := trim_right (trim_left s).

(** Setting a flag that is not defined is an error nobody looks at. *)
Definition set_Set (name : string) (v : V) (set : gmap string V) : gmap string V :=
  match set !! name with Some _ => <[name := v]> set | None => set end.

Definition copyFlag (name : string) (v : V) (set : gmap string V) : gmap string V := if is_slice v then set else set_Set name v set.

(** The one name of a flag that was given; two are an error. *)
Fixpoint given (visited : gset string) (parts : list string) (ff : option string) : string + option string :=
  match parts with
  | [] => inr ff
  | name :: parts =>
      let name := trim name in
      if decide (name ∈ visited) then
        match ff with
        | Some ff => inl ("Cannot use two forms of the same flag: " +:+ name +:+ " " +:+ ff)
        | None => given visited parts (Some name)
        end
      else given visited parts ff
  end.

Definition copy_all (visited : gset string) (v : V) (parts : list string) (set : gmap string V) : gmap string V :=
  foldl (fun set name => let name := trim name in if decide (name ∈ visited) then set else copyFlag name v set) set parts.

Fixpoint normalizeFlags (visited : gset string) (flags : list (list string)) (set : gmap string V) : string + gmap string V :=
  match flags with
  | [] => inr set
  | parts :: flags =>
      if Nat.eqb (length parts) 1 then normalizeFlags visited flags set
      else
        match given visited parts None with
        | inl e => inl e
        | inr None => normalizeFlags visited flags set
        | inr (Some ff) =>
            match set !! ff with
            | Some v => normalizeFlags visited flags (copy_all visited v parts set)
            | None => normalizeFlags visited flags set
            end
        end
  end.
End normalize.

(** ** Typed values *)
Section values.
(** A value of simplejson with what the library makes of it. *)
Context {J F : Type}.
Context (js_Bool : J -> option bool) (js_Int : J -> option Z) (js_Float64 : J -> option F) (js_String : J -> option string).
Context (js_StringArray : J -> option (list string)) (js_Map : J -> option (gmap string J)) (js_Bytes : J -> option string).
Context (MarshalJSON : J -> option string) (Unmarshal : string -> string + J) (Sprint : J -> string).
Context (ParseFloat : string -> option F) (ParseDuration : string -> option Z).

(** The value as itself, else what its text is read as, else the default. *)
Definition typed {A} (direct : option A) (str : option string) (parse : string -> option A) (def : A) : A :=
  match direct with
  | Some a => a
  | None => match str with None => def | Some s => default def (parse s) end
  end.

Definition value_Bool (j : J) (def : bool) : bool := typed (js_Bool j) (js_String j) Config.ParseBool def.

(** [strconv.Atoi] *)
Definition Atoi (s : string) : option Z := match ParseInt s with inr z => Some z | inl _ => None end.

Definition value_Int (j : J) (def : Z) : Z := typed (js_Int j) (js_String j) Atoi def.
Definition value_Float64 (j : J) (def : F) : F := typed (js_Float64 j) (js_String j) ParseFloat def.
Definition value_String (j : J) (def : string) : string := default def (js_String j).

Definition value_Duration (j : J) (def : Z) : Z :=
  match js_String j with None => def | Some v => default def (ParseDuration v) end.

Definition value_StringSlice (j : J) (def : list string) : list string :=
  match js_String j with
  | Some v =>
      match split_char "," v with
      | [] => default def (js_StringArray j)
      | sl => sl
      end
  | None => default def (js_StringArray j)
  end.

Definition value_StringMap (o : map_order) (j : J) (def : gmap string string) : gmap string string :=
  match js_Map j with
  | None => def
  | Some m => foldl (fun res kv => <[kv.1 := Sprint kv.2]> res) ∅ (map_range o m)
  end.

Definition value_Bytes (j : J) : string :=
  match js_Bytes j with
  | Some b => b
  | None => default "" (MarshalJSON j)
  end.
End values.

(** ** Where a flag ends up *)
Fixpoint value_at {V} (path : list string) (t : tree V) : option V :=
  match path, t with
  | [k], Leaf k' v => if String.eqb k k' then Some v else None
  | k :: path, Under k' t => if String.eqb k k' then value_at path t else None
  | _, _ => None
  end.

Lemma nest_keys_rev {V} keys k (v : V) : nest_keys (rev (keys ++ [k])) v = foldr Under (Leaf k v) keys.
Proof.
  rewrite rev_app_distr. cbn. revert k. induction keys as [|k' keys IH]; intros k; [done|]. cbn. by rewrite foldl_app, IH.
Qed.

Lemma value_at_path {V} keys k (v : V) path : value_at path (foldr Under (Leaf k v) keys) = if decide (path = keys ++ [k]) then Some v else None.
Proof.
  revert path. induction keys as [|k' keys IH]; intros [|p path]; [done| |done|].
  - destruct path as [|q path]; cbn; [|by rewrite decide_False by congruence].
    destruct (String.eqb_spec p k) as [->|Hp]; [by rewrite decide_True|by rewrite decide_False by congruence].
  - assert (value_at (p :: path) (foldr Under (Leaf k v) (k' :: keys)) = if String.eqb p k' then value_at path (foldr Under (Leaf k v) keys) else None) as ->
      by by destruct path.
    rewrite IH. destruct (String.eqb_spec p k') as [->|Hp].
    + destruct (decide (path = keys ++ [k])) as [->|]; [by rewrite decide_True|by rewrite decide_False by (cbn; congruence)].
    + by rewrite decide_False by (cbn; congruence).
Qed.

(** The value of a flag is under the parts of its lower-case name, the first outermost, and
    nowhere else; a name without parts has no entry. *)
Theorem toEntry_path {V} name (v : V) path :
  value_at path (toEntry name v) = if decide (path = fields (to_lower name) /\ path <> []) then Some v else None.
Proof.
  unfold toEntry, reverse. rewrite Config.reverse_is_rev. destruct (fields (to_lower name)) as [|k0 keys _] eqn:Hk using rev_ind.
  - cbn. rewrite decide_False by (intros [-> ?]; done). by destruct path as [|? []].
  - rewrite nest_keys_rev, value_at_path. destruct (decide (path = keys ++ [k0])) as [->|Hne].
    + rewrite decide_True; [done|]. split; [done|]. by destruct keys.
    + rewrite decide_False; [done|]. by intros [? _].
Qed.

Lemma split_where_free f w s : str_forall (fun a => negb (f a)) w = true ->
  split_where f (w +:+ s) = match split_where f s with [] => [w] | x :: xs => (w +:+ x) :: xs end.
Proof.
  induction w as [|a w IH]; cbn [String.append split_where str_forall].
  - intros _. destruct s as [|a s]; [done|]. cbn. destruct (f a); [done|]. by destruct (split_where f s).
  - intros [Ha Hw]%andb_prop. apply negb_true_iff in Ha. rewrite Ha, IH by done. by destruct (split_where f s).
Qed.

Lemma split_where_join ws : ws <> [] -> Forall (fun w => str_forall (fun a => negb (split a)) w = true) ws -> split_where split (join "-" ws) = ws.
Proof.
  intros Hne Hws. induction Hws as [|w ws Hw Hws IH]; [done|]. destruct ws as [|w' ws].
  - cbn. rewrite <- (str_app_nil_r w) at 1. rewrite split_where_free by done. cbn. by rewrite str_app_nil_r.
  - rewrite join_cons by done. rewrite split_where_free by done. cbn [String.append split_where]. change (split "-") with true. cbn iota.
    rewrite str_app_nil_r. by rewrite IH.
Qed.

(** Names of one part or of several with single separators are cut as they were put
    together. *)
Theorem fields_join ws : Forall (fun w => str_forall (fun a => negb (split a)) w = true /\ w <> "") ws -> fields (join "-" ws) = ws.
Proof.
  intros Hws. unfold fields. destruct ws as [|w ws]; [done|]. rewrite split_where_join; [|done|by eapply Forall_impl; [exact Hws|intros ? []]].
  induction Hws as [|w' ws' [_ Hne] _ IH]; [done|]. by rewrite filter_cons_True, IH.
Qed.

(** ** Flags with several names *)
Section normalized.
Context {V : Type} (is_slice : V -> bool) (visited : gset string).

Lemma copy_all_lookup v parts set n : is_slice v = false ->
  copy_all is_slice visited v parts set !! n =
  if decide (n ∈ map trim parts /\ n ∉ visited /\ is_Some (set !! n)) then Some v else set !! n.
Proof.
  intros Hv. unfold copy_all. revert set. induction parts as [|p parts IH]; intros set; cbn [foldl map].
  - rewrite decide_False; [done|]. intros (H & _). by apply elem_of_nil in H.
  - rewrite IH. clear IH. unfold copyFlag. rewrite Hv. destruct (decide (trim p ∈ visited)) as [Hp|Hp].
    + apply decide_ext. rewrite elem_of_cons. naive_solver.
    + unfold set_Set. destruct (set !! trim p) as [v0|] eqn:Hs.
      * destruct (decide (n = trim p)) as [->|Hne].
        -- rewrite lookup_insert_eq. rewrite (decide_True _ (set !! trim p)) by (rewrite elem_of_cons; eauto).
           by destruct (decide _).
        -- rewrite lookup_insert_ne by done. apply decide_ext. rewrite elem_of_cons. naive_solver.
      * apply decide_ext. rewrite elem_of_cons. split; [naive_solver|]. intros ([->|?] & ? & [? ?]); [congruence|eauto].
Qed.
Lemma copy_all_other v parts set n : n ∉ map trim parts \/ n ∈ visited -> copy_all is_slice visited v parts set !! n = set !! n.
Proof.
  intros Hn. destruct (is_slice v) eqn:Hv.
  - unfold copy_all. clear Hn. induction parts as [|p parts IH] in set |- *; cbn; [done|]. rewrite IH. destruct (decide _); [done|]. unfold copyFlag. by rewrite Hv.
  - rewrite copy_all_lookup by done. rewrite decide_False; [done|]. naive_solver.
Qed.

Lemma normalize_other flags set set' n : normalizeFlags is_slice visited flags set = inr set' ->
  (Forall (fun parts => n ∉ map trim parts) flags \/ n ∈ visited) -> set' !! n = set !! n.
Proof.
  revert set. induction flags as [|parts flags IH]; intros set; cbn [normalizeFlags]; [by intros [= <-]|]. intros Hrun Hn.
  assert (Forall (fun parts => n ∉ map trim parts) flags \/ n ∈ visited) as Hn' by (destruct Hn as [H%Forall_cons|]; naive_solver).
  destruct (Nat.eqb (length parts) 1); [by apply IH|]. destruct (given visited parts None) as [e|[ff|]]; [done| |by apply IH].
  destruct (set !! ff) as [v|]; [|by apply IH]. rewrite (IH _ Hrun Hn'). apply copy_all_other. destruct Hn as [H%Forall_cons|]; naive_solver.
Qed.

(** A flag with several names that was given under one of them has the same value under
    all that are defined, when no other flag shares them; what was given stays. *)
Theorem normalize_agrees flags1 parts flags2 set set' ff v n :
  normalizeFlags is_slice visited (flags1 ++ parts :: flags2) set = inr set' ->
  length parts <> 1 -> given visited parts None = inr (Some ff) -> ff ∈ visited -> set !! ff = Some v -> is_slice v = false ->
  n ∈ map trim parts -> is_Some (set !! n) -> n ∉ visited ->
  Forall (fun parts => n ∉ map trim parts) (flags1 ++ flags2) -> set' !! n = Some v.
Proof.
  intros Hrun Hl Hg Hff Hv Hs Hn Hd Hnv [H1 H2]%Forall_app. revert set Hrun Hv Hd. induction H1 as [|p flags1 Hp _ IH]; intros set; cbn [app normalizeFlags].
  - destruct (Nat.eqb_spec (length parts) 1) as [|_]; [done|]. rewrite Hg. intros Hrun Hv Hd. rewrite Hv in Hrun.
    rewrite (normalize_other _ _ _ n Hrun) by by left. rewrite copy_all_lookup by done. by rewrite decide_True.
  - destruct (Nat.eqb (length p) 1); [by apply IH|]. destruct (given visited p None) as [e|[f|]]; [done| |by apply IH].
    destruct (set !! f) as [v'|]; [|by apply IH]. intros Hrun Hv Hd. apply (IH _ Hrun); rewrite copy_all_other; auto.
Qed.
End normalized.

(** ** Typed values *)
Section typed_values.
Context {J : Type} (js_Int : J -> option Z) (js_String : J -> option string) (js_StringArray : J -> option (list string)).
Context (js_Map : J -> option (gmap string J)) (Sprint : J -> string).

(** A number is read as itself, or from its text in decimal, whatever the default. *)
Theorem value_Int_text j def z : (int_min <= z <= int_max)%Z -> js_Int j = Some z \/ (js_Int j = None /\ js_String j = Some (fmt_Z z)) ->
  value_Int js_Int js_String j def = z.
Proof.
  intros Hz [Hj|[Hj Hs]]; unfold value_Int, typed; rewrite Hj; [done|]. rewrite Hs. unfold Atoi. by rewrite ParseInt_fmt.
Qed.

(** A text is read as the list of its parts between commas; the empty text is the list of
    one empty part, and never the default. *)
Theorem value_StringSlice_text j def v : js_String j = Some v -> value_StringSlice js_String js_StringArray j def = split_char "," v.
Proof.
  intros Hj. unfold value_StringSlice. rewrite Hj. pose proof (split_char_nonnil "," v). by destruct (split_char "," v).
Qed.

(** A map is read with its values as texts, in whatever order it is visited. *)
Theorem value_StringMap_spec o j def : 
  value_StringMap js_Map Sprint o j def = match js_Map j with Some m => Sprint <$> m | None => def end.
Proof.
  unfold value_StringMap. destruct (js_Map j) as [m|]; [|done]. apply map_eq. intros k.
  assert (forall l (r : gmap string string), NoDup l.*1 ->
    foldl (fun res (kv : string * J) => <[kv.1 := Sprint kv.2]> res) r l !! k =
    match list_to_map (M:=gmap string J) l !! k with Some x => Some (Sprint x) | None => r !! k end) as Hf.
  { clear. induction l as [|[k' x] l IH]; intros r; cbn; [done|]. intros [Hk Hl]%NoDup_cons. rewrite IH by done.
    destruct (decide (k = k')) as [->|Hne].
    - rewrite lookup_insert_eq. by rewrite (proj1 (not_elem_of_list_to_map l k') Hk), lookup_insert_eq.
    - by rewrite !lookup_insert_ne. }
  rewrite Hf by apply NoDup_map_range. rewrite lookup_fmap.
  assert (list_to_map (M:=gmap string J) (map_range o m) = m) as ->.
  { transitivity (list_to_map (M:=gmap string J) (map_to_list m)); [|apply list_to_map_to_list].
    apply list_to_map_proper; [apply NoDup_map_range|apply map_range_perm]. }
  by destruct (m !! k).
Qed.
End typed_values.

(** ** Examples *)
Example ex_entry : toEntry "Database-Host" 1 = Under "database" (Leaf "host" 1).
Proof. vm_compute. reflexivity. Qed.

Example ex_no_keys : toEntry "-" 1 = Nothing.
Proof. vm_compute. reflexivity. Qed.

Example ex_two_forms : given {["a"; "name"]} ["name"; " a"] None = inl "Cannot use two forms of the same flag: a name".
Proof. vm_compute. reflexivity. Qed.

(** A default of three hosts is lost when the text is empty. *)
Example ex_empty_list : value_StringSlice (J := string) Some (fun _ => None) "" ["a"; "b"; "c"] = [""].
Proof. reflexivity. Qed.
