(* ===== verification/ApiForward.v ===== *)
(** * Forwarding and calling over http: [api/handler/http], [api/handler/web],
    [api/client]

    The handlers that forward a request to a node of the service it is routed to, with
    websockets, and the client of the API. The router, connections, addresses and json are
    arguments. *)
From S2P Require Import Prelude GoStrings GoHttp.
From S2P Require ApiRouter Selector NetUtil Registry KubeApi.

(** ** Where a request goes *)
Section handlers.
Context {Q : Type}.

(** [getService]: without a router there is no route; without a node there is no address
    and no error. [rand] is the number that is drawn. *)
Definition getService (router : option (Q -> outcome string ApiRouter.Route)) (rand : Z) (r : Q) : outcome string string :=
  match router with
  | None => Fail "no route found"
  | Some route =>
      s <-! route r;
      match (Selector.call (Selector.Random (ApiRouter.rt_Versions s) 0%Z) rand).2 with
      | Ret n => Ret ("http://" +:+ Registry.n_Address n)
      | Fail _ => Ret ""
      | Panic => Panic
      end
  end.

(** What a handler does with a request: it answers with a code, or hands it on to a host. *)
Inductive action := WriteHeader (code : Z) | ReverseProxy (host : string) | ServeWebSocket (host : string).

(** The handlers, with the host of an address that can be parsed and whether the request
    asks for a websocket, which the http handler does not look at. *)
Definition ServeHTTP (parse : string -> option string) (router : option (Q -> outcome string ApiRouter.Route)) (rand : Z)
    (websocket : Q -> bool) (r : Q) : outcome string action :=
  match getService router rand r with
  | Panic => Panic
  | Fail _ => Ret (WriteHeader 500)
  | Ret service =>
      if String.eqb service "" then Ret (WriteHeader 404)
      else
        match parse service with
        | None => Ret (WriteHeader 500)
        | Some host => Ret (if websocket r then ServeWebSocket host else ReverseProxy host)
        end
  end.

Definition http_ServeHTTP parse router rand (r : Q) := ServeHTTP parse router rand (fun _ => false) r.
End handlers.

(** [isWebSocket] *)
Definition header_has (h : Header) (key val : string) : bool :=
  existsb (fun v => String.eqb val (to_lower (ApiRouter.strip v))) (split_char "," (first_of (default [] (h !! canonical key)))).

Definition isWebSocket (h : Header) : bool := header_has h "Connection" "upgrade" && header_has h "Upgrade" "websocket".

(** ** Forwarding a websocket *)
(** What came of it: the answer if one was written, the header of the request, which is
    that of the request that is forwarded, and the two connections. *)
Record ws := mkWs {
  ws_answer : option (Z * string);
  ws_header : Header;
  ws_dialed : bool; ws_hijacked : bool;
  ws_closed : bool;
  ws_copied : bool }.

(** The client's address, after those that forwarded the request before. *)
Definition forwarded (ip : string) (h : Header) : Header :=
  let ip := match h !! "X-Forwarded-For" with Some ips => join ", " ips +:+ ", " +:+ ip | None => ip end in
  header_set "X-Forwarded-For" ip h.

Section websocket.
Context `{!NetUtil.Net}.

(** Whether the other side can be dialled, what taking over the connection gives ([None]:
    the writer can not), and whether the request can be written. *)
Definition serveWebSocket (host remote : string) (h : Header) (dial : string -> option string) (hijack : option (option string))
    (write : option string) : ws :=
  if String.eqb host "" then mkWs (Some (500, "invalid host")%Z) h false false false false
  else
    let h := match NetUtil.SplitHostPort remote with inr (ip, _) => forwarded ip h | inl _ => h end in
    match dial host with
    | Some e => mkWs (Some (500, e)%Z) h false false false false
    | None =>
        match hijack with
        | None => mkWs (Some (500, "failed to connect")%Z) h true false false false
        | Some (Some _) => mkWs None h true false false false
        | Some None =>
            match write with
            | Some _ => mkWs None h true true true false
            | None => mkWs None h true true true true
            end
        end
    end.
End websocket.

(** ** The client of the API *)
Record Options := mkOptions { o_Token : string; o_Address : string; o_Local : bool; o_Timeout : Z }.

Definition localAddress : string := "http://localhost:8080".

Definition NewClient (options : option Options) : Options :=
  match options with
  | None => mkOptions "" localAddress false 0
  | Some o => mkOptions (o_Token o) localAddress (o_Local o) (Z.max 0 (o_Timeout o))
  end.

Definition SetToken (t : string) (c : Options) : Options := mkOptions t (o_Address c) (o_Local c) (o_Timeout c).
Definition SetTimeout (d : Z) (c : Options) : Options := mkOptions (o_Token c) (o_Address c) (o_Local c) d.

Section client.
Context {V W U : Type}.
(** Json, addresses, whether a request can be made, and the network. *)
Context (Marshal : V -> string + string) (Unmarshal : string -> string + V).
Context (Parse : string -> string + U) (Scheme : U -> string) (with_path : string -> string -> U -> string).
Context (bad : string -> option string) (send : Z -> KubeApi.http_request -> W -> (string + KubeApi.http_response) * W).
Context (Dial : string -> Header -> W -> option string * W) (WriteMessage : string -> W -> option string * W) (ReadMessage : W -> (string + string) * W).

Definition call_header (c : Options) : Header :=
  header_set "Content-Type" "application/json"
    (if String.eqb (o_Token c) "" then ∅ else header_set "Authorization" ("Bearer " +:+ o_Token c) ∅).

(** The codes that are not errors. *)
Definition accepted (code : Z) : bool := negb ((code <=? 200) || (300 <? code))%Z.

Definition Call (c : Options) (service endpoint : string) (request : V) (w : W) : (string + V) * W :=
  match Parse (o_Address c) with
  | inl e => (inl e, w)
  | inr uri =>
      match Marshal request with
      | inl e => (inl e, w)
      | inr b =>
          let url := with_path (Scheme uri) ("/" +:+ service +:+ "/" +:+ endpoint) uri in
          match bad url with
          | Some e => (inl e, w)
          | None =>
              match send (o_Timeout c) (KubeApi.mkHttp "POST" url (call_header c) (Some b)) w with
              | (inl e, w) => (inl e, w)
              | (inr resp, w) =>
                  match KubeApi.a_read_err resp with
                  | Some e => (inl e, w)
                  | None => if accepted (KubeApi.a_code resp) then (Unmarshal (KubeApi.a_body resp), w) else (inl (KubeApi.a_body resp), w)
                  end
              end
          end
      end
  end.

(** [strings.Replace(s, "http", "ws", 1)] *)
Fixpoint replace_http (s : string) : string :=
  match s with
  | "" => ""
  | String a r => if has_prefix s "http" then "ws" +:+ str_drop 4 s else String a (replace_http r)
  end.

Definition Stream (c : Options) (service endpoint : string) (request : V) (w : W) : option string * W :=
  match Marshal request with
  | inl e => (Some e, w)
  | inr bytes =>
      match Parse (o_Address c) with
      | inl e => (Some e, w)
      | inr uri =>
          let url := with_path (replace_http (Scheme uri)) ("/" +:+ service +:+ "/" +:+ endpoint) uri in
          match Dial url (call_header c) w with
          | (Some e, w) => (Some e, w)
          | (None, w) => WriteMessage bytes w
          end
      end
  end.

Definition Recv (w : W) : (string + V) * W :=
  match ReadMessage w with
  | (inl e, w) => (inl e, w)
  | (inr message, w) => (Unmarshal message, w)
  end.

Definition Send (v : V) (w : W) : option string * W :=
  match Marshal v with
  | inl e => (Some e, w)
  | inr b => WriteMessage b w
  end.
End client.

(** ** What the handlers do *)
(** A request is answered with 500 when it has no route, with 404 when its route has no
    node, and else handed on to a node of its route; the number that is drawn chooses it. *)
Theorem ServeHTTP_spec {Q} parse (router : Q -> outcome string ApiRouter.Route) rand websocket r s :
  router r = Ret s -> (0 <= rand)%Z -> (forall a, parse ("http://" +:+ a) = Some a) ->
  let nodes := Selector.all_nodes (ApiRouter.rt_Versions s) in
  ServeHTTP parse (Some router) rand websocket r =
    match nodes with
    | [] => Ret (WriteHeader 404)
    | _ => match nodes !! Z.to_nat (rand mod Z.of_nat (length nodes)) with
           | Some n => Ret (if websocket r then ServeWebSocket (Registry.n_Address n) else ReverseProxy (Registry.n_Address n))
           | None => Panic
           end
    end /\
  (nodes <> [] -> is_Some (nodes !! Z.to_nat (rand mod Z.of_nat (length nodes)))).
Proof.
  intros Hr Hrand Hp nodes. split.
  - unfold ServeHTTP, getService. rewrite Hr. cbn [outcome_bind]. unfold Selector.Random. cbn [Selector.call snd]. fold nodes.
    destruct nodes as [|n0 ns] eqn:Hn; [done|]. cbn [length Nat.eqb]. unfold Selector.index_mod. rewrite <- Hn.
    rewrite Z.rem_mod_nonneg by (rewrite ?Hn; cbn [length]; lia).
    pose proof (Z.mod_pos_bound rand (Z.of_nat (length nodes)) ltac:(rewrite Hn; cbn; lia)).
    destruct (Z.ltb_spec (rand mod Z.of_nat (length nodes)) 0); [lia|]. subst nodes. rewrite Hn.
    destruct ((n0 :: ns) !! _) as [n|]; [|done]. assert (forall a, String.eqb ("http://" +:+ a) "" = false) as He by done. by rewrite He, Hp.
  - intros Hne. apply lookup_lt_is_Some. destruct nodes as [|n ns]; [done|].
    pose proof (Z.mod_pos_bound rand (Z.of_nat (length (n :: ns))) ltac:(cbn; lia)). lia.
Qed.

(** A websocket that can not be taken over leaves the connection to the service open. *)
Theorem websocket_leaks `{!NetUtil.Net} host remote h dial hijack write :
  let x := serveWebSocket host remote h dial hijack write in
  ws_dialed x = true /\ ws_closed x = false <-> host <> "" /\ dial host = None /\ hijack <> Some None.
Proof.
  unfold serveWebSocket. destruct (String.eqb_spec host "") as [->|Hh]; cbn; [naive_solver|].
  destruct (dial host) as [e|]; cbn; [naive_solver|]. destruct hijack as [[e|]|]; [naive_solver| |naive_solver].
  destruct write; cbn; naive_solver.
Qed.

(** Of what a service answers with the code of success the client makes an error: its text
    is the answer. *)
Theorem Call_fails_on_success {V W U} Marshal (Unmarshal : string -> string + V) Parse Scheme (with_path : string -> string -> U -> string)
    bad send c service endpoint request (w w' : W) uri b resp :
  Parse (o_Address c) = inr uri -> Marshal request = inr b ->
  let url := with_path (Scheme uri) ("/" +:+ service +:+ "/" +:+ endpoint) uri in
  bad url = None -> send (o_Timeout c) (KubeApi.mkHttp "POST" url (call_header c) (Some b)) w = (inr resp, w') ->
  KubeApi.a_read_err resp = None -> KubeApi.a_code resp = 200%Z ->
  Call Marshal Unmarshal Parse Scheme with_path bad send c service endpoint request w = (inl (KubeApi.a_body resp), w').
Proof. intros Hp Hm url Hb Hs He Hc. unfold Call. rewrite Hp, Hm. cbn zeta. fold url. by rewrite Hb, Hs, He, Hc. Qed.

(** ** Examples *)
Example ex_websocket : isWebSocket (header_set "Upgrade" "WebSocket" (header_set "Connection" "keep-alive, Upgrade" ∅)) = true.
Proof. vm_compute. reflexivity. Qed.

Example ex_forwarded : forwarded "10.0.0.1" (header_set "X-Forwarded-For" "1.2.3.4" ∅) !! "X-Forwarded-For" = Some ["1.2.3.4, 10.0.0.1"].
Proof. vm_compute. reflexivity. Qed.

Example ex_ws_scheme : replace_http "https" = "wss".
Proof. reflexivity. Qed.

(** The address of the options is not used. *)
Example ex_address : o_Address (NewClient (Some (mkOptions "" "http://api:80" false 0))) = localAddress.
Proof. reflexivity. Qed.
